(* ===== verification/_CoqProject ===== *)
-Q . S2P
Prelude.v
Wp.v
Codec.v
Utils.v
Account.v
Config.v
ByteBuffer.v
Serialize.v
SerializeCorrect.v
LLRB.v
LLRBCorrect.v
QkcHash.v
QkcNative.v
TokenBalances.v
StateDB.v
StateDBCorrect.v
Heap.v
Transaction.v
Signing.v
TxList.v
TxListCorrect.v
Blocks.v
BlockTree.v
Receipts.v
Merkle.v
RawDb.v
XShardCursor.v
XShardCursorCorrect.v
Lru.v
Consensus.v
Engine.v
ChainInsert.v
MinorChain.v
MinorValidator.v
MinorInsert.v
MinorRoot.v
MinorChainCorrect.v
MinorChainDemo.v
RootChain.v
RootValidator.v
RootInsert.v
RootChainCorrect.v
RootChainDemo.v
Transition.v
TransitionCorrect.v
EvmBase.v
EvmAnalysis.v
EvmOps.v
EvmRun.v
EvmLaws.v
EvmInstr.v
EvmGas.v
EvmStep.v
EvmCalls.v
EvmState.v
EvmCorrect.v
StateProcessor.v
StateProcessorCorrect.v
StateProcessorDemo.v
TxPool.v
TxPoolInv.v
TxPoolCorrect.v
TxPoolSched.v
TxPoolDemo.v
TxPoolChain.v
