(* ===== verification/Prelude.v ===== *)
(** * A verification development of goquarkchain

    goquarkchain (the Go sources under src/) is a node of a sharded blockchain.
    A cluster has one root chain and many shards.  A shard has a chain of minor
    blocks of its own, executes their transactions on an account state with many
    tokens, and sends deposits to other shards; a root block confirms minor
    blocks of all shards, which fixes the order in which a shard takes the
    deposits sent to it.  This library models the parts that decide which blocks
    and states are right, and proves what they promise.  It is a shallow
    embedding: each Go function is a definition, usually of the same name.

    ** Conventions

    A Go integer of [w] bits is a [Z] with its wrap-around written out ([u8] to
    [u64], [i64]); a big.Int is a [Z].  Code that may fail returns [result]: a
    value, an error or a panic.  Code that changes its receiver is a computation
    [SE S A], from a state to a result and the state it leaves, also on an error
    (Wp.v has the reasoning rules).  A slice is a list, a map a [gmap] or, where
    the order of iteration can be seen, an association list or an argument that
    gives the order.  Addresses and hashes are numbers where only their identity
    matters.  Third-party code (the tries, RLP, Keccak, the elliptic curve, the
    LRU cache, go-ethereum's gas constants) is a parameter or a class with its
    documented laws, and every theorem that assumes such laws is applied to a
    concrete instance.  Locks, channels and timers are not modelled: an operation
    runs to its end, and a goroutine that owns state is a function from its state
    and a message to its next state.

    ** Files

    Foundations.  This file has results, the monad, machine integers and byte
    strings; Wp.v predicate transformers; Codec.v token names
    (src/common/token_codec.go); Utils.v src/common/utils.go; Account.v
    addresses, branches and the routing of accounts to shards (src/account);
    Config.v the tables of chains, shards and slaves (src/cluster/config); Heap.v
    Go's container/heap; Lru.v caches.

    Serialization (src/serialize).  ByteBuffer.v has the reader and the length
    prefixes, Serialize.v the serializers built by reflection over a universe of
    Go types, SerializeCorrect.v their round trip and their safety on any input.

    Consensus (src/consensus).  LLRB.v and LLRBCorrect.v have the ordered set of
    qkchash and its refinement to sorted lists, QkcHash.v the hash and its
    caches, QkcNative.v the C++ implementation of the hash on a sorted vector,
    Consensus.v the difficulty and proof of staked work, Engine.v the
    common engine: verification of headers and seals, local and remote mining.

    Transactions and state (src/core/types, src/core/state).  TokenBalances.v has
    the balances of an account in a map and a trie; StateDB.v and
    StateDBCorrect.v the account state with its journal; Transaction.v
    transactions and their order by price and nonce; Signing.v the sender of a
    transaction; Blocks.v the data of blocks; Receipts.v receipts, blooms and the
    log filter; Merkle.v the root of a list; TxList.v and TxListCorrect.v the
    lists of a pool.

    Execution (src/core/state_transition.go, src/core/vm,
    src/core/state_processor.go).  Transition.v and TransitionCorrect.v have the
    transition of a transaction against an interface of the state and of the
    virtual machine.  EvmBase.v, EvmOps.v and EvmRun.v are the machine: stack,
    memory, contracts, gas, instructions, jump table, precompiled contracts,
    interpreter and calls.  EvmLaws.v states what the machine relies on,
    EvmAnalysis.v, EvmInstr.v, EvmGas.v, EvmStep.v and EvmCalls.v prove it part by
    part, EvmState.v shows that the state of StateDB.v keeps the laws, and
    EvmCorrect.v has the theorems of the whole machine.  StateProcessor.v
    validates and applies the transactions of a block and the deposits sent to
    the shard, and fills a new block; StateProcessorCorrect.v has its accounting,
    StateProcessorDemo.v the processor over the state of StateDB.v.

    Transaction pool (src/core/tx_pool.go).  TxPool.v has the operations of the
    pool over the lists of TxList.v and the loop that schedules its runs,
    TxPoolInv.v its invariant, TxPoolCorrect.v the theorems about the whole pool,
    TxPoolSched.v the scheduler, TxPoolDemo.v a pool at work, and TxPoolChain.v
    its chain made of the processor of StateProcessor.v.

    Chains (src/core).  RawDb.v is the database and its keys, BlockTree.v
    ancestry of blocks, ChainInsert.v the iterator of an import, XShardCursor.v
    and XShardCursorCorrect.v the order of deposits.  MinorChain.v,
    MinorValidator.v, MinorInsert.v and MinorRoot.v are the chain of a shard, its
    validator, imports and root blocks; RootChain.v, RootValidator.v and
    RootInsert.v the root chain.  MinorChainCorrect.v and RootChainCorrect.v have
    their invariants, MinorChainDemo.v and RootChainDemo.v small chains on which
    the theorems are applied.

    ** What is shown

    - The virtual machine: every entry returns with fuel that depends on the gas
      only, a failed call or creation leaves the state as it was, each turn keeps
      the stack discipline of the jump table, and the machine keeps the contract
      the transition is proved against ([evm_entries_return],
      [evm_failure_atomic], [interpreter_turn_typed], [evm_refines_contract]).
      What rests on reverting to a snapshot is for states in which no account has
      a token trie ([no_token_tries]).
    - The transition: balances, nonce, fee, gas pool and cross-shard list after
      every kind of transaction, and the conservation of tokens
      ([TransitionDb_in_shard], [TransitionDb_cross_shard], [in_shard_supply],
      [failed_call_costs_gas]).
    - The state: reverting to a snapshot restores everything the machine can
      observe, for any nesting of operations, as long as no account has a token
      trie ([revert_restores_snapshot]); of an account with one, only the balances
      in memory survive a revert ([reverted_balances]); token balances survive a
      commit ([token_balances_persist]).
    - The chains: inserting blocks keeps the tree, the canonical index and the
      choice of the head, reorganizations end at the new head, root blocks are
      followed, and confirmed headers form one chain per shard
      ([insertChain_keeps_chain], [reorg_correct], [AddRootBlock_follows],
      [root_fork_choice], [root_InsertChain_keeps], [confirmed_headers_chain]);
      the index of the root chain keeps the abandoned blocks above a lower head
      ([root_index_stale]).
    - Deposits are executed exactly once and in order ([xshard_exactly_once]).
    - A block: the gas and the receipts of its transactions add up, and what
      validation accepts can be applied ([Process_accounts],
      [validated_applies]).
    - The pool: its lists, lookup and price heap agree after any sequence of
      operations and none of them panics, a run brings it within its limits,
      adding replaces only what was outbid, and no request to the scheduler is
      lost ([pool_consistent], [runReorg_limits], [add_correct],
      [scheduler_serves]).
    - Refinements of data structures to simple ones: the red-black tree, the hash
      over it, which is that of the C++ implementation
      ([HashWithRotationStats_native]), the caches of the hash
      ([getCacheFromHeight_history_independent]), the nonce map of a pool, the
      order by price and nonce, the jump destination bitmap.
    - Mining and reading logs: a remote solution is for work that was handed out
      ([remote_solution_sound]), a filter returns exactly the logs that match
      ([filter_Logs_complete]).
    - Round trips of serialization and signing, safety of reading any input.
    - Examples on a concrete run where the code does not do what it says
      ([static_call_moves_tokens], [root_stale_ancestor]).

    ** Fuel and bounds

    Recursion that is not structural takes fuel, and running out of it is a
    panic of its own that the theorems exclude.  Deletions of LLRB.v take the
    number of nodes plus one; the loops of Heap.v the length of the slice; the
    machine the gas plus the depth limit of calls, since each step costs gas or
    ends the frame; walks along a chain the height of the block they start from.

    ** Not modelled

    Networking (src/p2p, src/rpc), the services of a cluster (src/cluster other
    than config), command line programs and the public API move data between
    processes and convert it to text.  Ethash (src/consensus/ethash) is a copy of
    go-ethereum's.  The header chains of core (minorheaderchain.go,
    rootheaderchain.go) are not constructed anywhere.  Bodies of cryptographic
    precompiled contracts, RLP and the tries are third-party code. *)

From stdpp Require Export base numbers list gmap strings.
From Stdlib Require Export ZArith Lia.

Local Open Scope Z_scope.

(** ** Results of Go code

    A Go function that can fail either returns an error value or panics; both
    are values here, so that every branch of the code is a branch of the
    model.  An error or a panic carries the (format) string of the source. *)
Inductive result (A : Type) : Type :=
| Ok (a : A)
| Err (msg : string)
| Panic (msg : string).
Arguments Ok {A} a.
Arguments Err {A} msg.
Arguments Panic {A} msg.

#[export] Instance result_eq_dec {A} `{EqDecision A} : EqDecision (result A).
Proof. solve_decision. Defined.

#[export] Instance result_ret : MRet result := fun A a => Ok a.
#[export] Instance result_bind : MBind result := fun A B f m =>
  match m with
  | Ok a => f a
  | Err e => Err e
  | Panic e => Panic e
  end.

(** Code that also mutates a receiver of type [S]: the mutations made before
    the error are kept in the final state, as in Go. *)
Definition SE (S A : Type) : Type := S → result A * S.

#[export] Instance se_ret {S} : MRet (SE S) := fun A a s => (Ok a, s).
#[export] Instance se_bind {S} : MBind (SE S) := fun A B f m s =>
  match m s with
  | (Ok a, s') => f a s'
  | (Err e, s') => (Err e, s')
  | (Panic e, s') => (Panic e, s')
  end.

Definition se_err {S A} (e : string) : SE S A := fun s => (Err e, s).
Definition se_panic {S A} (e : string) : SE S A := fun s => (Panic e, s).
Definition se_get {S} : SE S S := fun s => (Ok s, s).
Definition se_put {S} (s : S) : SE S unit := fun _ => (Ok tt, s).
Definition se_mod {S} (f : S → S) : SE S unit := fun s => (Ok tt, f s).
Definition se_lift {S A} (r : result A) : SE S A := fun s => (r, s).

Definition is_ok {A} (r : result A) : bool :=
  match r with Ok _ => true | _ => false end.
Definition is_panic {A} (r : result A) : bool :=
  match r with Panic _ => true | _ => false end.

(** ** Machine integers

    A [w]-bit unsigned integer is a [Z] in [0, 2^w); an operation that can
    leave the range is followed by the wrap of its width. *)
Definition u8 (z : Z) : Z := z mod 2 ^ 8.
Definition u16 (z : Z) : Z := z mod 2 ^ 16.
Definition u32 (z : Z) : Z := z mod 2 ^ 32.
Definition u64 (z : Z) : Z := z mod 2 ^ 64.
Definition i64 (z : Z) : Z := (z + 2 ^ 63) mod 2 ^ 64 - 2 ^ 63.

Definition max_u64 : Z := 2 ^ 64 - 1.

Definition in_u8 (z : Z) : Prop := 0 <= z < 2 ^ 8.
Definition in_u32 (z : Z) : Prop := 0 <= z < 2 ^ 32.
Definition in_u64 (z : Z) : Prop := 0 <= z < 2 ^ 64.

#[export] Instance in_u8_dec z : Decision (in_u8 z).
Proof. unfold in_u8. apply _. Defined.
#[export] Instance in_u32_dec z : Decision (in_u32 z).
Proof. unfold in_u32. apply _. Defined.
#[export] Instance in_u64_dec z : Decision (in_u64 z).
Proof. unfold in_u64. apply _. Defined.

Create HintDb qkc.
Create Rewrite HintDb qkc.

Lemma u8_in z : in_u8 (u8 z).
Proof. apply Z.mod_pos_bound. lia. Qed.
Lemma u32_in z : in_u32 (u32 z).
Proof. apply Z.mod_pos_bound. lia. Qed.
Lemma u64_in z : in_u64 (u64 z).
Proof. apply Z.mod_pos_bound. lia. Qed.
Lemma i64_high z : 2 ^ 63 <= z < 2 ^ 64 → i64 z = z - 2 ^ 64.
Proof.
  intros Hz. unfold i64. replace (z + 2 ^ 63) with (z - 2 ^ 63 + 1 * 2 ^ 64) by lia.
  rewrite Z.mod_add, Z.mod_small; lia.
Qed.
Lemma i64_small z : 0 <= z < 2 ^ 63 → i64 z = z.
Proof. intros Hz. unfold i64. rewrite Z.mod_small; lia. Qed.

Lemma u8_id z : in_u8 z → u8 z = z.
Proof. intros ?. by apply Z.mod_small. Qed.
Lemma u32_id z : in_u32 z → u32 z = z.
Proof. intros ?. by apply Z.mod_small. Qed.
Lemma u64_id z : in_u64 z → u64 z = z.
Proof. intros ?. by apply Z.mod_small. Qed.

#[export] Hint Resolve u8_in u32_in u64_in : qkc.
#[export] Hint Rewrite u8_id u32_id u64_id using (by auto with qkc) : qkc.

(** ** Bytes *)
Definition bytes_ok (l : list Z) : Prop := Forall in_u8 l.

#[export] Instance bytes_ok_dec l : Decision (bytes_ok l).
Proof. unfold bytes_ok. apply _. Defined.

Lemma bytes_ok_app l k : bytes_ok (l ++ k) ↔ bytes_ok l ∧ bytes_ok k.
Proof. apply Forall_app. Qed.

Lemma bytes_ok_snoc l b : bytes_ok (l ++ [b]) ↔ bytes_ok l ∧ in_u8 b.
Proof. rewrite bytes_ok_app. unfold bytes_ok at 2. by rewrite Forall_singleton. Qed.

Lemma bytes_ok_cons b l : bytes_ok (b :: l) ↔ in_u8 b ∧ bytes_ok l.
Proof. apply Forall_cons. Qed.

(** Value of a big-endian byte string. *)
Definition be_value (l : list Z) : Z := foldl (fun acc b => acc * 256 + b) 0 l.

(** The [n] low bytes of [z], most significant first. *)
Fixpoint be_bytes (n : nat) (z : Z) : list Z :=
  match n with
  | O => []
  | S n' => be_bytes n' (z / 256) ++ [z mod 256]
  end.

Lemma be_value_snoc l b : be_value (l ++ [b]) = be_value l * 256 + b.
Proof. unfold be_value. by rewrite foldl_app. Qed.

Lemma be_value_app l k :
  be_value (l ++ k) = be_value l * 256 ^ Z.of_nat (length k) + be_value k.
Proof.
  induction k as [|b k IH] using rev_ind.
  - rewrite app_nil_r. cbn [length]. change (be_value []) with 0. lia.
  - rewrite app_assoc, !be_value_snoc, IH, length_app. cbn [length].
    rewrite Nat2Z.inj_add, Z.pow_add_r by lia. lia.
Qed.

Lemma be_value_cons b l :
  be_value (b :: l) = b * 256 ^ Z.of_nat (length l) + be_value l.
Proof. change (b :: l) with ([b] ++ l). rewrite be_value_app. done. Qed.

Lemma length_be_bytes n z : length (be_bytes n z) = n.
Proof.
  revert z. induction n as [|n IH]; intros z; [done|].
  cbn [be_bytes]. rewrite length_app, IH. cbn. lia.
Qed.

Lemma be_bytes_ok n z : bytes_ok (be_bytes n z).
Proof.
  revert z. induction n as [|n IH]; intros z; [constructor|].
  cbn [be_bytes]. apply bytes_ok_app. split; [apply IH|].
  repeat constructor; apply Z.mod_pos_bound; lia.
Qed.

Lemma pow256_S (n : nat) : 256 ^ Z.of_nat (S n) = 256 * 256 ^ Z.of_nat n.
Proof. by rewrite Nat2Z.inj_succ, Z.pow_succ_r by lia. Qed.

Lemma pow256_pos (n : nat) : 0 < 256 ^ Z.of_nat n.
Proof. apply Z.pow_pos_nonneg; lia. Qed.

Lemma be_value_bytes n z : be_value (be_bytes n z) = z mod 256 ^ Z.of_nat n.
Proof.
  revert z. induction n as [|n IH]; intros z.
  - cbn. by rewrite Z.mod_1_r.
  - cbn [be_bytes]. rewrite be_value_snoc, IH, pow256_S.
    rewrite Z.rem_mul_r by (pose proof (pow256_pos n); lia). lia.
Qed.

Lemma be_value_bounds l :
  bytes_ok l → 0 <= be_value l < 256 ^ Z.of_nat (length l).
Proof.
  induction l as [|b l IH] using rev_ind; intros Hl; [cbn; lia|].
  apply bytes_ok_snoc in Hl as [Hl Hb].
  rewrite be_value_snoc, length_app, Nat2Z.inj_add, Z.pow_add_r by lia.
  specialize (IH Hl). unfold in_u8 in Hb.
  change (256 ^ Z.of_nat (length [b])) with 256. lia.
Qed.

Lemma be_bytes_value l : bytes_ok l → be_bytes (length l) (be_value l) = l.
Proof.
  induction l as [|b l IH] using rev_ind; intros Hl; [done|].
  apply bytes_ok_snoc in Hl as [Hl Hb].
  unfold in_u8 in Hb. rewrite length_app, Nat.add_1_r. cbn [be_bytes].
  rewrite be_value_snoc.
  rewrite Z.div_add_l, Z.div_small, Z.add_0_r by lia.
  rewrite Z.add_comm, Z_mod_plus_full, Z.mod_small by lia. by rewrite IH.
Qed.

Lemma be_value_inj l k :
  length l = length k → bytes_ok l → bytes_ok k → be_value l = be_value k → l = k.
Proof.
  intros Hlen Hl Hk Hv. rewrite <- (be_bytes_value l Hl), <- (be_bytes_value k Hk).
  by rewrite Hlen, Hv.
Qed.

(** ** math/big: [Int.Bytes] and [Int.SetBytes] *)

(** Number of bytes of the minimal big-endian representation of |z|. *)
Definition big_len (z : Z) : nat :=
  if decide (z = 0) then 0%nat else Z.to_nat (Z.log2 (Z.abs z) / 8 + 1).

(** [x.Bytes()]: the absolute value of [x], big-endian, without leading zeros. *)
Definition big_Bytes (z : Z) : list Z := be_bytes (big_len z) (Z.abs z).

(** [z.SetBytes(buf)]. *)
Definition big_SetBytes (l : list Z) : Z := be_value l.

(** [big.Int.BitLen] of a nonnegative integer. *)
Definition BitLen (z : Z) : Z := if bool_decide (z = 0) then 0 else Z.log2 z + 1.
Lemma length_big_Bytes z : length (big_Bytes z) = big_len z.
Proof. apply length_be_bytes. Qed.

Lemma big_len_bound z : Z.abs z < 256 ^ Z.of_nat (big_len z).
Proof.
  unfold big_len. case_decide as Hz; [subst; cbn; lia|].
  rewrite Z2Nat.id by (pose proof (Z.log2_nonneg (Z.abs z));
                       pose proof (Z.div_pos (Z.log2 (Z.abs z)) 8); lia).
  pose proof (Z.log2_spec (Z.abs z) ltac:(lia)) as [_ Hlt].
  eapply Z.lt_le_trans; [exact Hlt|].
  change 256 with (2 ^ 8). rewrite <- Z.pow_mul_r; [|lia|].
  - apply Z.pow_le_mono_r; [lia|].
    pose proof (Z.div_mod (Z.log2 (Z.abs z)) 8). pose proof (Z.mod_pos_bound (Z.log2 (Z.abs z)) 8). lia.
  - pose proof (Z.log2_nonneg (Z.abs z)). pose proof (Z.div_pos (Z.log2 (Z.abs z)) 8). lia.
Qed.

Lemma big_len_le z (n : nat) : Z.abs z < 256 ^ Z.of_nat n → (big_len z ≤ n)%nat.
Proof.
  intros Hlt. unfold big_len. case_decide as Hz; [lia|].
  assert (Z.log2 (Z.abs z) < 8 * Z.of_nat n) as Hlog.
  { apply Z.log2_lt_pow2; [lia|]. rewrite Z.pow_mul_r by lia. exact Hlt. }
  pose proof (Z.log2_nonneg (Z.abs z)).
  assert (Z.log2 (Z.abs z) / 8 < Z.of_nat n) by (apply Z.div_lt_upper_bound; lia).
  pose proof (Z.div_pos (Z.log2 (Z.abs z)) 8). lia.
Qed.

Lemma big_SetBytes_Bytes z : big_SetBytes (big_Bytes z) = Z.abs z.
Proof.
  unfold big_SetBytes, big_Bytes. rewrite be_value_bytes.
  apply Z.mod_small. pose proof (big_len_bound z). lia.
Qed.

Lemma big_Bytes_ok z : bytes_ok (big_Bytes z).
Proof. apply be_bytes_ok. Qed.

#[export] Hint Resolve be_bytes_ok big_Bytes_ok : qkc.
#[export] Hint Rewrite length_be_bytes length_big_Bytes : qkc.

(** The shift-and-or accumulation Go code writes for [be_value]. *)
Lemma lor_disjoint_add a b (n : Z) :
  0 <= n → 0 <= b < 2 ^ n → Z.lor (a * 2 ^ n) b = a * 2 ^ n + b.
Proof.
  intros Hn Hb.
  assert (Z.land (a * 2 ^ n) b = 0) as Hd.
  { destruct (decide (b = 0)) as [->|]; [apply Z.land_0_r|].
    apply Z.bits_inj'. intros i Hi. rewrite Z.land_spec, Z.bits_0.
    destruct (decide (i < n)).
    - by rewrite Z.mul_pow2_bits_low by lia.
    - rewrite (Z.bits_above_log2 b); [by rewrite andb_false_r|lia|].
      assert (Z.log2 b < n) by (apply Z.log2_lt_pow2; lia). lia. }
  by rewrite Z.add_nocarry_lxor, Z.lxor_lor by done.
Qed.

Lemma shl8_lor acc b : in_u8 b → Z.lor (Z.shiftl acc 8) b = acc * 256 + b.
Proof.
  intros Hb. rewrite Z.shiftl_mul_pow2 by lia.
  by apply (lor_disjoint_add acc b 8).
Qed.

(** ** Tactics *)

(** Case analysis on the scrutinee of a [match] or [if] in the goal or in a
    hypothesis, keeping the equation. *)
Ltac dmatch :=
  match goal with
  | |- context [match ?x with _ => _ end] =>
      lazymatch x with
      | context [match _ with _ => _ end] => fail
      | _ => destruct x eqn:?
      end
  end.
Ltac dmatch_in H :=
  match type of H with
  | context [match ?x with _ => _ end] =>
      lazymatch x with
      | context [match _ with _ => _ end] => fail
      | _ => destruct x eqn:?
      end
  end.

(** Unfold the monad operations at the head of a computation. *)
Ltac se_red :=
  cbv beta iota delta [mbind se_bind mret se_ret se_get se_put se_mod se_err se_panic
                       se_lift result_bind result_ret].
Ltac se_red_in H :=
  cbv beta iota delta [mbind se_bind mret se_ret se_get se_put se_mod se_err se_panic
                       se_lift result_bind result_ret] in H.

Lemma forallb_eq_true {A} (f : A → bool) l : forallb f l = true ↔ Forall (fun x => f x = true) l.
Proof.
  induction l as [|x l IH]; cbn; [split; [by constructor|done]|].
  by rewrite andb_true_iff, IH, Forall_cons.
Qed.

(** ** Lists *)
Lemma filter_all {A} (P : A → Prop) `{!∀ x, Decision (P x)} l : Forall P l → filter P l = l.
Proof.
  induction 1 as [|x l Hx _ IH]; [done|]. by rewrite filter_cons_True, IH.
Qed.

Lemma filter_none {A} (P : A → Prop) `{!∀ x, Decision (P x)} l :
  Forall (fun x => ¬ P x) l → filter P l = [].
Proof.
  induction 1 as [|x l Hx _ IH]; [done|]. by rewrite filter_cons_False, IH.
Qed.

Lemma filter_ext_Forall {A} (P Q : A → Prop) `{!∀ x, Decision (P x), !∀ x, Decision (Q x)} l :
  Forall (fun x => P x ↔ Q x) l → filter P l = filter Q l.
Proof.
  induction 1 as [|x l Hx _ IH]; [done|]. rewrite !filter_cons, IH.
  destruct (decide (P x)), (decide (Q x)); tauto.
Qed.

(** ** [sort.Search(n, f)]: binary search for the least index where [f] holds *)
Fixpoint search_loop (fuel i j : nat) (f : nat → bool) : nat :=
  match fuel with
  | O => i
  | S fuel =>
      if bool_decide (i < j)%nat then
        let h := ((i + j) / 2)%nat in
        if negb (f h) then search_loop fuel (h + 1) j f else search_loop fuel i h f
      else i
  end.
Definition sort_Search (n : nat) (f : nat → bool) : nat := search_loop n 0 n f.

Lemma search_loop_spec fuel i j f :
  (j - i ≤ fuel)%nat → (i ≤ j)%nat →
  (∀ a b, (a ≤ b)%nat → (b < j)%nat → f a = true → f b = true) →
  (∀ k, (k < i)%nat → f k = false) →
  let r := search_loop fuel i j f in
  (i ≤ r ≤ j)%nat ∧ (∀ k, (k < r)%nat → f k = false) ∧ (∀ k, (r ≤ k < j)%nat → f k = true).
Proof.
  revert i j. induction fuel as [|fuel IH]; intros i j Hf Hij Hmono Hlow; cbn [search_loop].
  { split_and!; [lia|lia|done|lia]. }
  case_bool_decide as Hlt; [|split_and!; [lia|lia|done|lia]].
  set (h := ((i + j) / 2)%nat).
  assert (i ≤ h < j)%nat as Hh.
  { unfold h. split; [apply Nat.div_le_lower_bound; lia|apply Nat.Div0.div_lt_upper_bound; lia]. }
  destruct (f h) eqn:Hfh; cbn [negb].
  - destruct (IH i h) as (H1&H2&H3); [lia|lia| |done|].
    { intros a b Hab Hb. apply Hmono; lia. }
    split_and!; [lia|lia|done|]. intros k Hk. destruct (decide (k < h)%nat); [apply H3; lia|].
    apply (Hmono h k); [lia|lia|done].
  - destruct (IH (h + 1)%nat j) as (H1&H2&H3); [lia|lia|done| |].
    { intros k Hk. destruct (f k) eqn:Hfk; [|done].
      rewrite (Hmono k h) in Hfh; [done|lia|lia|done]. }
    split_and!; [lia|lia|done|done].
Qed.

Lemma sort_Search_spec n f :
  (∀ a b, (a ≤ b)%nat → (b < n)%nat → f a = true → f b = true) →
  (sort_Search n f ≤ n)%nat ∧ (∀ k, (k < sort_Search n f)%nat → f k = false)
  ∧ (∀ k, (sort_Search n f ≤ k < n)%nat → f k = true).
Proof.
  intros Hmono. destruct (search_loop_spec n 0 n f) as (H1&H2&H3); try done; try lia.
  split_and!; [unfold sort_Search; lia|done|done].
Qed.
