(* ===== verification/Wp.v ===== *)
(** * Reasoning about stateful computations

    A predicate transformer for the computations [SE S A] of Prelude.v: what
    holds of the value and the state after a normal return, and of the error and
    the state after an error.  A panic ends the program, so nothing is claimed
    of the state it leaves; theorems that a computation does not panic are
    stated as such, or with the total version [twp]. *)

From S2P Require Import Prelude.

Definition wp {S A} (m : SE S A) (Q : A → S → Prop) (E : string → S → Prop) (s : S) : Prop :=
  match m s with
  | (Ok a, s') => Q a s'
  | (Err e, s') => E e s'
  | (Panic _, _) => True
  end.

Section wp.
Context {S : Type}.
Implicit Types (s : S).

Lemma wp_bind {A B} (m : SE S A) (k : A → SE S B) Q E s :
  wp m (fun a => wp (k a) Q E) E s → wp (m ≫= k) Q E s.
Proof. unfold wp. se_red. destruct (m s) as [[a|e|e] s']; done. Qed.
Lemma wp_ret {A} (a : A) Q (E : string → S → Prop) s : Q a s → wp (mret a) Q E s.
Proof. done. Qed.
Lemma wp_get Q (E : string → S → Prop) s : Q s s → wp se_get Q E s.
Proof. done. Qed.
Lemma wp_mod f Q (E : string → S → Prop) s : Q tt (f s) → wp (se_mod f) Q E s.
Proof. done. Qed.
Lemma wp_lift {A} (r : result A) Q (E : string → S → Prop) s :
  (∀ a, r = Ok a → Q a s) → (∀ e, r = Err e → E e s) → wp (se_lift r) Q E s.
Proof. intros HQ HE. destruct r as [a|e|e]; cbn; [by apply HQ|by apply HE|done]. Qed.
Lemma wp_err {A} e (Q : A → S → Prop) (E : string → S → Prop) s : E e s → wp (se_err e) Q E s.
Proof. done. Qed.
Lemma wp_panic {A} e (Q : A → S → Prop) (E : string → S → Prop) s : wp (se_panic e) Q E s.
Proof. done. Qed.
Lemma wp_conseq {A} (m : SE S A) (Q Q' : A → S → Prop) (E E' : string → S → Prop) s :
  wp m Q E s → (∀ a s', Q a s' → Q' a s') → (∀ e s', E e s' → E' e s') → wp m Q' E' s.
Proof. unfold wp. destruct (m s) as [[a|e|e] s']; auto. Qed.

(** A computation that keeps an invariant, whatever it returns. *)
Definition keeps {A} (P : S → Prop) (m : SE S A) : Prop := ∀ s, P s → wp m (fun _ => P) (fun _ => P) s.

Lemma keeps_bind {A B} P (m : SE S A) (k : A → SE S B) : keeps P m → (∀ a, keeps P (k a)) → keeps P (m ≫= k).
Proof. intros Hm Hk s Hs. apply wp_bind. eapply wp_conseq; [by apply Hm| |done]. intros a s' Hs'. by apply Hk. Qed.
Lemma keeps_ret {A} P (a : A) : keeps P (mret a).
Proof. intros s Hs. exact Hs. Qed.
Lemma keeps_get P : keeps P se_get.
Proof. intros s Hs. exact Hs. Qed.
Lemma keeps_mod P f : (∀ s, P s → P (f s)) → keeps P (se_mod f).
Proof. intros Hf s Hs. by apply Hf. Qed.
Lemma keeps_lift {A} P (r : result A) : keeps P (se_lift r).
Proof. intros s Hs. by destruct r. Qed.
Lemma keeps_err {A} P e : keeps P (@se_err S A e).
Proof. intros s Hs. exact Hs. Qed.
Lemma keeps_panic {A} P e : keeps P (@se_panic S A e).
Proof. intros s Hs. exact I. Qed.
(** Using an invariant next to another fact. *)
Lemma wp_keeps {A} P (m : SE S A) Q E s :
  keeps P m → P s → (∀ a s', P s' → Q a s') → (∀ e s', P s' → E e s') → wp m Q E s.
Proof. intros Hm Hs HQ HE. eapply wp_conseq; [by apply Hm|cbn; auto..]. Qed.

(** The errors a computation can end with. *)
Definition errs {A} (I : string → Prop) (m : SE S A) : Prop := ∀ s e s', m s = (Err e, s') → I e.

Lemma errs_bind {A B} I (m : SE S A) (k : A → SE S B) : errs I m → (∀ a, errs I (k a)) → errs I (m ≫= k).
Proof.
  intros Hm Hk s e s'. se_red. destruct (m s) as [[a|e1|e1] s1] eqn:E; [by apply Hk| |done].
  intros [= <- _]. by eapply Hm.
Qed.
Lemma errs_ret {A} I (a : A) : errs I (mret a).
Proof. by intros s e s'. Qed.
Lemma errs_get I : errs I se_get.
Proof. by intros s e s'. Qed.
Lemma errs_mod I f : errs I (se_mod f).
Proof. by intros s e s'. Qed.
Lemma errs_err {A} (I : string → Prop) e : I e → errs I (@se_err S A e).
Proof. intros He s e' s' [= <- _]. done. Qed.
Lemma errs_panic {A} I e : errs I (@se_panic S A e).
Proof. by intros s e' s'. Qed.
Lemma errs_lift {A} (I : string → Prop) (r : result A) : (∀ e, r = Err e → I e) → errs I (se_lift r).
Proof. intros Hr s e s' [= -> _]. by apply Hr. Qed.
Lemma wp_errs {A} I (m : SE S A) Q E s :
  errs I m → wp m Q E s → wp m Q (fun e s' => E e s' ∧ I e) s.
Proof. intros HI. unfold wp. destruct (m s) as [[a|e|e] s'] eqn:Em; [done| |done]. intros HE. split; [done|]. by eapply HI. Qed.

(** A computation that returns from every state of an invariant, and keeps it. *)
Definition oks {A} (P : S → Prop) (m : SE S A) : Prop := ∀ s, P s → ∃ a s', m s = (Ok a, s') ∧ P s'.

Lemma oks_bind {A B} P (m : SE S A) (k : A → SE S B) : oks P m → (∀ a, oks P (k a)) → oks P (m ≫= k).
Proof. intros Hm Hk s Hs. destruct (Hm s Hs) as (a & s' & E & Hs'). se_red. rewrite E. by apply Hk. Qed.
Lemma oks_get_bind {B} P (k : S → SE S B) : (∀ s, P s → oks P (k s)) → oks P (se_get ≫= k).
Proof. intros Hk s Hs. se_red. by apply Hk. Qed.
Lemma oks_ret {A} P (a : A) : oks P (mret a).
Proof. intros s Hs. by exists a, s. Qed.
Lemma oks_mod P f : (∀ s, P s → P (f s)) → oks P (se_mod f).
Proof. intros Hf s Hs. exists tt, (f s). auto. Qed.
Lemma oks_lift {A} P (a : A) : oks P (se_lift (Ok a)).
Proof. intros s Hs. by exists a, s. Qed.
End wp.

(** A computation that does not panic, with what holds after it. *)
Definition twp {S A} (m : SE S A) (Q : A → S → Prop) (E : string → S → Prop) (s : S) : Prop :=
  match m s with
  | (Ok a, s') => Q a s'
  | (Err e, s') => E e s'
  | (Panic _, _) => False
  end.

Section twp.
Context {S : Type}.
Implicit Types (s : S).

Lemma twp_bind {A B} (m : SE S A) (k : A → SE S B) Q E s :
  twp m (fun a => twp (k a) Q E) E s → twp (m ≫= k) Q E s.
Proof. unfold twp. se_red. destruct (m s) as [[a|e|e] s']; done. Qed.
Lemma twp_conseq {A} (m : SE S A) (Q Q' : A → S → Prop) (E E' : string → S → Prop) s :
  twp m Q E s → (∀ a s', Q a s' → Q' a s') → (∀ e s', E e s' → E' e s') → twp m Q' E' s.
Proof. unfold twp. destruct (m s) as [[a|e|e] s']; auto. Qed.
Lemma twp_ok {A} (m : SE S A) (Q : A → S → Prop) E s a s' : m s = (Ok a, s') → Q a s' → twp m Q E s.
Proof. unfold twp. by intros ->. Qed.
End twp.
Abbreviation no_err := (fun _ _ => False).
(** Reading the state. *)
Ltac get_state := apply twp_bind; change (twp se_get ?Q ?E ?q) with (Q q q); cbv beta.


Create HintDb keeps.
#[export] Hint Resolve errs_ret errs_get errs_mod errs_panic : keeps.
Ltac errs_step :=
  lazymatch goal with
  | |- errs _ (_ ≫= _) => apply errs_bind; [|intros ?]
  | |- errs _ (match ?x with _ => _ end) => destruct x eqn:?
  | |- errs _ (let '_ := ?x in _) => destruct x eqn:?
  | |- errs _ (se_lift _) => apply errs_lift
  | |- errs _ (se_err _) => apply errs_err
  | |- errs _ _ => solve [auto with keeps]
  end.
Ltac errs := repeat errs_step.
#[export] Hint Resolve keeps_ret keeps_get keeps_lift keeps_err keeps_panic : keeps.

(** Through the structure of a computation, with the lemmas of the database at
    its leaves. *)
Ltac keeps_step :=
  lazymatch goal with
  | |- keeps _ (_ ≫= _) => apply keeps_bind; [|intros ?]
  | |- keeps _ (match ?x with _ => _ end) => destruct x eqn:?
  | |- keeps _ (let '_ := ?x in _) => destruct x eqn:?
  | |- keeps _ (se_mod _) => first [solve [auto with keeps] | apply keeps_mod; intros ? ?]
  | |- keeps _ _ => solve [auto with keeps]
  end.
Ltac keeps := repeat keeps_step.
