(* ===== verification/Codec.v ===== *)
(** * package common: token identifiers and integer helpers

    Models src/common/token_codec.go and the pure part of src/common/utils.go.
    A Go string is the list of its bytes. *)

From S2P Require Import Prelude.

Local Open Scope Z_scope.

(** ** Token identifiers (token_codec.go) *)
Module TokenCodec.

Definition TOKENBASE : Z := 36.
Definition TOKENIDMAX : Z := 4873763662273663091.

Definition TokenCharEncode (char : Z) : result Z :=
  if bool_decide (65 <= char ∧ char <= 90) then Ok (u64 (10 + u8 (char - 65)))
  else if bool_decide (48 <= char ∧ char <= 57) then Ok (u8 (char - 48))
  else Panic "unknown character %v".

Definition TokenCharDecode (id : Z) : result Z :=
  if negb (bool_decide (id < TOKENBASE ∧ 0 <= id)) then Err "incalid char %v"
  else if bool_decide (id < 10) then Ok (u8 (48 + id))
  else Ok (u8 (65 + id - 10)).

(** [for _, v := range s { result = string(v) + result }]: on ASCII bytes a
    rune is a byte. *)
Definition ReverseString (s : list Z) : list Z :=
  foldl (fun result v => v :: result) [] s.

(** The loop of [TokenIDEncode]: the bytes [str[len-2]], ..., [str[0]] in that
    order, with the running [base] and [id]. *)
Fixpoint encode_loop (rest : list Z) (base id : Z) : result Z :=
  match rest with
  | [] => Ok id
  | c :: rest' =>
      d ← TokenCharEncode c;
      encode_loop rest' (u64 (base * TOKENBASE)) (u64 (id + u64 (base * u64 (d + 1))))
  end.

Definition TokenIDEncode (str : list Z) : result Z :=
  if bool_decide (13 <= Z.of_nat (length str)) then Panic "name too long"
  else match rev str with
       | [] => Panic "index out of range"
       | c :: rest =>
           id ← TokenCharEncode c;
           encode_loop rest TOKENBASE id
       end.

(** The loop of [TokenIdDecode], which appends a character per round and is
    left when [id/TOKENBASE < 1].  An identifier below 36^n takes at most [n]
    rounds; 13 rounds are more than any identifier below TOKENIDMAX needs. *)
Fixpoint decode_loop (fuel : nat) (id : Z) (name : list Z) : result (list Z) :=
  match fuel with
  | O => Panic "out of fuel"
  | S fuel' =>
      t ← TokenCharDecode (id mod TOKENBASE);
      let name' := name ++ [t] in
      if bool_decide (id / TOKENBASE < 1) then Ok name'
      else decode_loop fuel' (id / TOKENBASE - 1) name'
  end.

Definition TokenIdDecode (id : Z) : result (list Z) :=
  if bool_decide (TOKENIDMAX < id) then Err "it too big or negative"
  else
    t ← TokenCharDecode (id mod TOKENBASE);
    let name := [t] in
    if bool_decide (id / TOKENBASE < 1) then Ok name
    else
      name' ← decode_loop 13 (id / TOKENBASE - 1) name;
      Ok (ReverseString name').

(** *** The bijective base-36 numeration the code implements *)

Definition token_char (c : Z) : Prop := (65 <= c <= 90) ∨ (48 <= c <= 57).
#[export] Instance token_char_dec c : Decision (token_char c).
Proof. unfold token_char. apply _. Defined.

(** Names the codec is meant for: 1 to 12 characters of 0-9, A-Z. *)
Definition token_name (s : list Z) : Prop :=
  (1 ≤ length s ≤ 12)%nat ∧ Forall token_char s.
#[export] Instance token_name_dec s : Decision (token_name s).
Proof. unfold token_name. apply _. Defined.

Definition digit (c : Z) : Z := if bool_decide (65 <= c) then c - 55 else c - 48.

(** Value of the digits above the lowest one, least significant first. *)
Fixpoint high_value (rest : list Z) : Z :=
  match rest with
  | [] => 0
  | c :: rest' => digit c + 1 + 36 * high_value rest'
  end.

(** Largest [high_value] of [n] digits, plus one. *)
Fixpoint high_bound (n : nat) : Z :=
  match n with O => 1 | S n' => 36 * high_bound n' + 1 end.

Lemma digit_range c : token_char c → 0 <= digit c < 36.
Proof. unfold token_char, digit. case_bool_decide; lia. Qed.

Lemma CharEncode_digit c : token_char c → TokenCharEncode c = Ok (digit c).
Proof.
  unfold token_char, TokenCharEncode, digit, u64, u8. intros Hc.
  repeat case_bool_decide; try lia; f_equal.
  - rewrite (Z.mod_small (c - 65)), Z.mod_small; lia.
  - rewrite Z.mod_small; lia.
Qed.

Lemma CharDecode_digit c : token_char c → TokenCharDecode (digit c) = Ok c.
Proof.
  intros Hc. pose proof (digit_range c Hc). unfold TokenCharDecode, TOKENBASE.
  rewrite bool_decide_true by lia. cbn [negb].
  unfold digit, u8, token_char in *.
  repeat case_bool_decide; try lia; f_equal; rewrite Z.mod_small; lia.
Qed.

Lemma CharDecode_total d :
  0 <= d < 36 → ∃ c, TokenCharDecode d = Ok c ∧ token_char c ∧ digit c = d.
Proof.
  intros Hd. unfold TokenCharDecode, TOKENBASE, u8, token_char, digit.
  rewrite bool_decide_true by lia. cbn [negb].
  case_bool_decide; eexists; (split; [done|]); rewrite Z.mod_small by lia;
    repeat case_bool_decide; lia.
Qed.

Lemma high_value_bounds rest :
  Forall token_char rest → 0 <= high_value rest < high_bound (length rest).
Proof.
  induction 1 as [|c rest Hc _ IH]; cbn [high_value high_bound length]; [lia|].
  pose proof (digit_range c Hc). lia.
Qed.

Lemma high_value_pos c rest : Forall token_char (c :: rest) → 1 <= high_value (c :: rest).
Proof.
  intros Hf. apply Forall_cons in Hf as [Hc Hr].
  pose proof (high_value_bounds rest Hr). pose proof (digit_range c Hc).
  cbn [high_value]. lia.
Qed.

Lemma high_bound_mono (n m : nat) : (n ≤ m)%nat → high_bound n <= high_bound m.
Proof.
  induction 1 as [|m _ IH]; [lia|]. cbn [high_bound].
  assert (1 <= high_bound m) by (clear; induction m; cbn [high_bound]; lia). lia.
Qed.

Lemma pow36_le_bound (n : nat) : 36 ^ Z.of_nat n <= high_bound n.
Proof.
  induction n as [|n IH]; [cbn; lia|].
  rewrite Nat2Z.inj_succ, Z.pow_succ_r by lia. cbn [high_bound]. lia.
Qed.

(** The encoding loop does not overflow on at most 11 further digits. *)
Lemma encode_loop_ok rest (k : nat) id :
  Forall token_char rest → (k + length rest ≤ 11)%nat →
  0 <= id → id + 36 ^ Z.of_nat (S k) * high_value rest <= TOKENIDMAX →
  encode_loop rest (36 ^ Z.of_nat (S k)) id
  = Ok (id + 36 ^ Z.of_nat (S k) * high_value rest).
Proof.
  revert k id. induction rest as [|c rest IH]; intros k id Hf Hk Hid Hmax.
  - cbn [encode_loop high_value]. f_equal. lia.
  - apply Forall_cons in Hf as [Hc Hr]. cbn [length] in Hk.
    pose proof (digit_range c Hc). pose proof (high_value_bounds rest Hr).
    cbn [encode_loop high_value] in *. rewrite CharEncode_digit by done. cbn.
    assert (0 < 36 ^ Z.of_nat (S k) <= 36 ^ 11) as [? ?].
    { split; [apply Z.pow_pos_nonneg; lia|apply Z.pow_le_mono_r; lia]. }
    assert (36 ^ 11 = 131621703842267136) as E11 by reflexivity.
    assert (36 ^ Z.of_nat (S (S k)) = 36 ^ Z.of_nat (S k) * 36) as Epow.
    { rewrite (Nat2Z.inj_succ (S k)), Z.pow_succ_r by lia. lia. }
    unfold TOKENIDMAX in *. unfold u64 at 1.
    rewrite Z.mod_small by (unfold TOKENBASE; lia). unfold TOKENBASE.
    rewrite <- Epow.
    assert (36 ^ Z.of_nat (S k) * (digit c + 1) <= 4873763662273663091) by nia.
    unfold u64. rewrite (Z.mod_small (digit c + 1)) by lia.
    rewrite (Z.mod_small (36 ^ Z.of_nat (S k) * (digit c + 1))) by nia.
    rewrite Z.mod_small by nia.
    rewrite IH; [f_equal; lia|done|lia|nia|lia].
Qed.

Definition token_value (s : list Z) : Z :=
  match rev s with
  | [] => 0
  | c :: rest => digit c + 36 * high_value rest
  end.

Lemma encode_value s :
  token_name s → TokenIDEncode s = Ok (token_value s) ∧ 0 <= token_value s <= TOKENIDMAX.
Proof.
  intros [Hlen Hf]. unfold TokenIDEncode, token_value.
  rewrite bool_decide_false by lia.
  assert (length (rev s) = length s) as Hl by apply length_rev.
  apply Forall_rev in Hf.
  destruct (rev s) as [|c rest]; [cbn in Hl; lia|].
  apply Forall_cons in Hf as [Hc Hr]. cbn [length] in Hl.
  pose proof (digit_range c Hc). pose proof (high_value_bounds rest Hr) as Hh.
  pose proof (high_bound_mono (length rest) 11 ltac:(lia)) as Hm.
  assert (high_bound 11 = 135382323952046197) as E by reflexivity.
  rewrite CharEncode_digit by done. cbn [mbind result_bind].
  assert (0 <= digit c + 36 * high_value rest <= TOKENIDMAX) by (unfold TOKENIDMAX; lia).
  split; [|lia].
  change TOKENBASE with (36 ^ Z.of_nat 1). rewrite (encode_loop_ok rest 0); auto; lia.
Qed.

(** Decoding follows the digits of a nonempty high part exactly ... *)
Lemma decode_loop_digits rest (fuel : nat) name :
  rest ≠ [] → Forall token_char rest → (length rest ≤ fuel)%nat →
  decode_loop fuel (high_value rest - 1) name = Ok (name ++ rest).
Proof.
  revert fuel name. induction rest as [|c rest IH]; intros fuel name Hne Hf Hlen; [done|].
  destruct fuel as [|fuel]; [cbn in Hlen; lia|].
  pose proof Hf as Hall. apply Forall_cons in Hf as [Hc Hr].
  pose proof (digit_range c Hc). pose proof (high_value_bounds rest Hr).
  cbn [decode_loop high_value length] in *. unfold TOKENBASE.
  replace (digit c + 1 + 36 * high_value rest - 1) with (digit c + high_value rest * 36) by lia.
  rewrite Z_mod_plus_full, Z.mod_small, Z.div_add, Z.div_small, Z.add_0_l by lia.
  rewrite CharDecode_digit by done. cbn [mbind result_bind].
  destruct rest as [|c' rest].
  - by rewrite bool_decide_true by (cbn; lia).
  - pose proof (high_value_pos c' rest Hr).
    rewrite bool_decide_false by lia.
    rewrite IH; [by rewrite <- app_assoc|done|done|lia].
Qed.

(** ... and every identifier has such digits. *)
Lemma high_digits (n : nat) v :
  1 <= v < high_bound n →
  ∃ rest, rest ≠ [] ∧ Forall token_char rest ∧ (length rest ≤ n)%nat ∧ high_value rest = v.
Proof.
  revert v. induction n as [|n IH]; intros v Hv; [cbn in Hv; lia|].
  cbn [high_bound] in Hv.
  destruct (CharDecode_total ((v - 1) mod 36)) as (c & _ & Hc & Hd).
  { apply Z.mod_pos_bound. lia. }
  pose proof (Z.div_mod (v - 1) 36). pose proof (Z.mod_pos_bound (v - 1) 36).
  destruct (decide ((v - 1) / 36 < 1)).
  - exists [c]. split_and!; [done|by constructor|cbn; lia|]. cbn [high_value]. lia.
  - destruct (IH ((v - 1) / 36)) as (rest & Hne & Hf & Hlen & Hval); [lia|].
    exists (c :: rest). split_and!; [done|by constructor|cbn [length]; lia|].
    cbn [high_value]. lia.
Qed.

Lemma ReverseString_rev s : ReverseString s = rev s.
Proof.
  unfold ReverseString. rewrite rev_alt. generalize (@nil Z) as acc.
  induction s as [|c s IH]; intros acc; [done|]. apply IH.
Qed.

(** Decoding the value of digits [c :: rest], least significant first. *)
Lemma decode_digits c rest :
  token_char c → Forall token_char rest → (length rest ≤ 11)%nat →
  TokenIdDecode (digit c + 36 * high_value rest) = Ok (rev (c :: rest)).
Proof.
  intros Hc Hr Hlen.
  pose proof (digit_range c Hc). pose proof (high_value_bounds rest Hr).
  pose proof (high_bound_mono (length rest) 11 ltac:(lia)) as Hm.
  assert (high_bound 11 = 135382323952046197) as E by reflexivity.
  unfold TokenIdDecode, TOKENIDMAX, TOKENBASE. rewrite bool_decide_false by lia.
  replace (digit c + 36 * high_value rest) with (digit c + high_value rest * 36) by lia.
  rewrite Z_mod_plus_full, Z.mod_small, Z.div_add, Z.div_small, Z.add_0_l by lia.
  rewrite CharDecode_digit by done. cbn [mbind result_bind].
  destruct rest as [|c' rest].
  - by rewrite bool_decide_true by (cbn; lia).
  - pose proof (high_value_pos c' rest Hr). rewrite bool_decide_false by lia.
    rewrite decode_loop_digits by (done || lia). cbn [mbind result_bind].
    by rewrite ReverseString_rev.
Qed.

(** A token name of 1 to 12 characters of 0-9 and A-Z encodes without a
    panic to an identifier of at most TOKENIDMAX, and that identifier decodes
    to the same name: no intermediate product or sum of the encoder overflows
    64 bits. *)
Theorem token_encode_decode s :
  token_name s →
  ∃ id, TokenIDEncode s = Ok id ∧ 0 <= id <= TOKENIDMAX ∧ TokenIdDecode id = Ok s.
Proof.
  intros Hs. destruct (encode_value s Hs) as [He Hb].
  exists (token_value s). split_and!; [done|lia|lia|].
  destruct Hs as [Hlen Hf]. unfold token_value.
  assert (length (rev s) = length s) as Hl by apply length_rev.
  apply Forall_rev in Hf. rewrite <- (rev_involutive s) at 2.
  destruct (rev s) as [|c rest]; [cbn in Hl; lia|].
  apply Forall_cons in Hf as [Hc Hr]. cbn [length] in Hl. by apply decode_digits; [..|lia].
Qed.

(** Every identifier up to TOKENIDMAX decodes, without running out of
    rounds, to a token name, and re-encoding the name gives the identifier. *)
Theorem token_decode_encode id :
  0 <= id <= TOKENIDMAX →
  ∃ s, TokenIdDecode id = Ok s ∧ token_name s ∧ TokenIDEncode s = Ok id.
Proof.
  unfold TOKENIDMAX. intros Hid.
  assert (high_bound 11 = 135382323952046197) as E by reflexivity.
  destruct (CharDecode_total (id mod 36)) as (c & _ & Hc & Hd).
  { apply Z.mod_pos_bound. lia. }
  pose proof (Z.div_mod id 36). pose proof (Z.mod_pos_bound id 36).
  assert (∃ rest, Forall token_char rest ∧ (length rest ≤ 11)%nat ∧ high_value rest = id / 36)
    as (rest & Hr & Hlen & Hval).
  { destruct (decide (id / 36 < 1)).
    - exists []. split_and!; [constructor|cbn; lia|]. cbn [high_value]. lia.
    - destruct (high_digits 11 (id / 36)) as (rest & _ & ? & ? & ?); [lia|eauto]. }
  assert (id = digit c + 36 * high_value rest) as -> by lia.
  assert (token_name (rev (c :: rest))) as Hn.
  { split; [rewrite length_rev; cbn [length]; lia|]. apply Forall_rev. by constructor. }
  exists (rev (c :: rest)). split_and!; [by apply decode_digits|done|].
  destruct (encode_value _ Hn) as [He _]. rewrite He. unfold token_value.
  by rewrite rev_involutive.
Qed.

(** "QKC" has the identifier 35760 the chain configuration uses. *)
Example token_QKC : TokenIDEncode [81; 75; 67] = Ok 35760 ∧ TokenIdDecode 35760 = Ok [81; 75; 67].
Proof. by vm_compute. Qed.

Lemma token_encode_decode_witness :
  ∃ id, TokenIDEncode [90; 48; 65] = Ok id ∧ 0 <= id <= TOKENIDMAX
        ∧ TokenIdDecode id = Ok [90; 48; 65].
Proof. apply (token_encode_decode [90; 48; 65]). apply (bool_decide_unpack _). by vm_compute. Defined.

Lemma token_decode_encode_witness :
  ∃ s, TokenIdDecode TOKENIDMAX = Ok s ∧ token_name s ∧ TokenIDEncode s = Ok TOKENIDMAX.
Proof. apply (token_decode_encode TOKENIDMAX). unfold TOKENIDMAX. lia. Defined.

End TokenCodec.
