(* ===== verification/Utils.v ===== *)
(** * package common: integer and byte helpers

    Models the pure helpers of src/common/utils.go: powers of two and bit
    lengths, the shard-mask overlap test, fixed-width encodings, 128-bit
    bounds, rational scaling and duplicate removal. *)

From S2P Require Import Prelude.

Local Open Scope Z_scope.

(** ** Go shifts on uint32: a shift count of at least the width gives 0 *)
Definition shl32 (x n : Z) : Z := if bool_decide (32 <= n) then 0 else u32 (Z.shiftl x n).
Definition shr32 (x n : Z) : Z := if bool_decide (32 <= n) then 0 else Z.shiftr x n.

(** math/bits *)
Definition bits_Len32 (v : Z) : Z := if bool_decide (v = 0) then 0 else Z.log2 v + 1.
Definition bits_LeadingZeros32 (v : Z) : Z := 32 - bits_Len32 v.

(** ** utils.go *)

Definition IsP2 (shardSize : Z) : bool := bool_decide (Z.land shardSize (u32 (shardSize - 1)) = 0).

Definition IntLeftMostBit (v : Z) : Z := u32 (32 - bits_LeadingZeros32 v).

Definition MasksHaveOverlap (m1 m2 : Z) : bool :=
  let i1 := IntLeftMostBit m1 in
  let i2 := IntLeftMostBit m2 in
  let i := if bool_decide (i1 > i2) then i2 else i1 in
  let bitMask := u32 (shl32 1 (u32 (i - 1)) - 1) in
  bool_decide (Z.land m1 bitMask = Z.land m2 bitMask).

Definition GetUint128Max : Z :=
  let pow2_64 := max_u64 + 1 in
  let pow2_128 := pow2_64 * pow2_64 in
  pow2_128 - 1.

Definition BiggerThanUint128Max (data : Z) : bool := bool_decide (data > GetUint128Max).

(** A [big.Rat] is a numerator and a positive denominator; [Int.Div] is
    Euclidean division, which for a positive divisor rounds down. *)
Definition BigIntMulBigRat (bigInt : Z) (bigRat : Z * Z) : Z :=
  (bigInt * bigRat.1) / bigRat.2.

Definition Uint32ToBytes (n : Z) : list Z := be_bytes 4 n.
Definition Uint64ToBytes (n : Z) : list Z := be_bytes 8 n.

(** [binary.Read] into a uint32 needs four bytes; its error is dropped and the
    variable keeps its zero value. *)
Definition BytesToUint32 (b : list Z) : Z :=
  if bool_decide (length b < 4)%nat then 0 else be_value (take 4 b).

Definition EncodeToByte32 (data : Z) : list Z := replicate 24 0 ++ be_bytes 8 data.

Definition BigToByte32 (data : Z) : result (list Z) :=
  let dataBytes := big_Bytes data in
  let lenData := length dataBytes in
  if bool_decide (32 < lenData)%nat then Panic "data's len should <= 32"
  else Ok (replicate (32 - lenData) 0 ++ dataBytes).

Definition Has0xPrefix (input : list Z) : bool :=
  match input with
  | c0 :: c1 :: _ => bool_decide (c0 = 48) && (bool_decide (c1 = 120) || bool_decide (c1 = 88))
  | _ => false
  end.

(** The inner loop of [RemoveDuplicate]: [range newData] runs over the slice
    as it is when the loop starts, [k] is the index of the head of [todo]. *)
Fixpoint dup_scan (newData todo : list Z) (k : nat) (iData : Z) : list Z :=
  match todo with
  | [] => newData
  | v :: todo' =>
      if bool_decide (v = iData) then newData
      else if bool_decide (k = length newData - 1)%nat
           then dup_scan (newData ++ [iData]) todo' (S k) iData
           else dup_scan newData todo' (S k) iData
  end.

Definition RemoveDuplicate (data : list Z) : list Z :=
  foldl (fun newData iData =>
           if bool_decide (length newData = 0)%nat then newData ++ [iData]
           else dup_scan newData newData 0 iData) [] data.

(** ** Lemmas *)

Lemma land_ones_mod x (k : Z) : 0 <= k → Z.land x (2 ^ k - 1) = x mod 2 ^ k.
Proof.
  intros Hk. rewrite <- Z.land_ones by done. f_equal. rewrite Z.ones_equiv. lia.
Qed.

Lemma pow2_land_pred (k : Z) : 0 <= k → Z.land (2 ^ k) (2 ^ k - 1) = 0.
Proof.
  intros Hk. rewrite land_ones_mod by done. apply Z.mod_same.
  pose proof (Z.pow_pos_nonneg 2 k). lia.
Qed.

Lemma testbit_top n r (k : Z) : 0 <= k → 0 <= r < 2 ^ k → n = 2 ^ k + r → Z.testbit n k = true.
Proof.
  intros Hk Hr ->. pose proof (Z.div_pow2_bits (2 ^ k + r) k 0 Hk ltac:(lia)) as E.
  rewrite Z.add_0_l in E. rewrite <- E.
  replace ((2 ^ k + r) / 2 ^ k) with 1; [done|].
  rewrite <- (Z.mul_1_l (2 ^ k)) at 1. rewrite Z.div_add_l, Z.div_small by lia. lia.
Qed.

Lemma IsP2_spec n : in_u32 n → IsP2 n = true ↔ n = 0 ∨ ∃ k, 0 <= k < 32 ∧ n = 2 ^ k.
Proof.
  intros Hn. unfold IsP2. rewrite bool_decide_eq_true. unfold in_u32 in Hn.
  destruct (decide (n = 0)) as [->|Hn0]; [split; [by left|done]|].
  unfold u32. rewrite (Z.mod_small (n - 1)) by lia.
  pose proof (Z.log2_spec n ltac:(lia)) as [Hlo Hhi].
  assert (0 <= Z.log2 n < 32) as Hk.
  { split; [apply Z.log2_nonneg|]. apply Z.log2_lt_pow2; lia. }
  rewrite Z.pow_succ_r in Hhi by lia. split.
  - intros Hland. right. exists (Z.log2 n). split; [done|].
    destruct (decide (n = 2 ^ Z.log2 n)) as [|Hne]; [done|exfalso].
    apply (f_equal (fun z => Z.testbit z (Z.log2 n))) in Hland.
    rewrite Z.land_spec, Z.bits_0 in Hland.
    rewrite (testbit_top n (n - 2 ^ Z.log2 n)), (testbit_top (n - 1) (n - 1 - 2 ^ Z.log2 n)) in Hland; lia || done.
  - intros [?|(k & Hk' & ->)]; [lia|]. apply pow2_land_pred. lia.
Qed.

Lemma IntLeftMostBit_pos v : 0 < v < 2 ^ 32 → IntLeftMostBit v = Z.log2 v + 1.
Proof.
  intros Hv. unfold IntLeftMostBit, bits_LeadingZeros32, bits_Len32, u32.
  rewrite bool_decide_false by lia.
  pose proof (Z.log2_nonneg v). assert (Z.log2 v < 32) by (apply Z.log2_lt_pow2; lia).
  rewrite Z.mod_small; lia.
Qed.

Lemma shl32_one k : 0 <= k < 32 → shl32 1 k = 2 ^ k.
Proof.
  intros Hk. unfold shl32, u32. rewrite bool_decide_false by lia.
  rewrite Z.shiftl_1_l, Z.mod_small; [done|].
  split; [apply Z.pow_nonneg; lia|apply Z.pow_lt_mono_r; lia].
Qed.

(** The shard keys a mask [m] selects: the bits below its leading bit. *)
Definition mask_selects (m key : Z) : Prop := key mod 2 ^ Z.log2 m = m mod 2 ^ Z.log2 m.

Lemma mod_pow2_mod x (a b : Z) : 0 <= a <= b → (x mod 2 ^ b) mod 2 ^ a = x mod 2 ^ a.
Proof.
  intros H. rewrite <- !Z.land_ones by lia. rewrite <- Z.land_assoc.
  f_equal. apply Z.bits_inj'. intros i Hi. rewrite Z.land_spec, !Z.testbit_ones by lia.
  destruct (decide (i < a)), (decide (i < b)); repeat case_match; try done; lia.
Qed.

Lemma overlap_value m1 m2 :
  0 < m1 < 2 ^ 32 → 0 < m2 < 2 ^ 32 →
  MasksHaveOverlap m1 m2 =
  bool_decide (m1 mod 2 ^ Z.min (Z.log2 m1) (Z.log2 m2) = m2 mod 2 ^ Z.min (Z.log2 m1) (Z.log2 m2)).
Proof.
  intros H1 H2. unfold MasksHaveOverlap. rewrite !IntLeftMostBit_pos by done.
  pose proof (Z.log2_nonneg m1). pose proof (Z.log2_nonneg m2).
  assert (Z.log2 m1 < 32) by (apply Z.log2_lt_pow2; lia).
  assert (Z.log2 m2 < 32) by (apply Z.log2_lt_pow2; lia).
  set (k := Z.min (Z.log2 m1) (Z.log2 m2)).
  assert ((if bool_decide (Z.log2 m1 + 1 > Z.log2 m2 + 1) then Z.log2 m2 + 1 else Z.log2 m1 + 1)
          = k + 1) as -> by (case_bool_decide; lia).
  rewrite Z.add_simpl_r, (u32_id k), shl32_one by (unfold in_u32; lia).
  assert (2 ^ k <= 2 ^ 31) by (apply Z.pow_le_mono_r; lia).
  pose proof (Z.pow_pos_nonneg 2 k).
  unfold u32. rewrite Z.mod_small by lia.
  by rewrite !land_ones_mod by lia.
Qed.

(** [MasksHaveOverlap] answers the question its callers ask: two nonzero
    32-bit shard masks overlap exactly when some shard key is selected by both,
    a key being selected by a mask when it agrees with it below the mask's
    leading bit. *)
Theorem MasksHaveOverlap_correct m1 m2 :
  0 < m1 < 2 ^ 32 → 0 < m2 < 2 ^ 32 →
  MasksHaveOverlap m1 m2 = true ↔ ∃ key, 0 <= key < 2 ^ 32 ∧ mask_selects m1 key ∧ mask_selects m2 key.
Proof.
  intros H1 H2. rewrite overlap_value, bool_decide_eq_true by done.
  pose proof (Z.log2_nonneg m1). pose proof (Z.log2_nonneg m2).
  unfold mask_selects. split.
  - intros Heq. destruct (Z.le_ge_cases (Z.log2 m1) (Z.log2 m2)) as [Hle|Hle].
    + rewrite Z.min_l in Heq by done. exists m2. split_and!; [lia..|by rewrite Heq|done].
    + rewrite Z.min_r in Heq by done. exists m1. split_and!; [lia..|done|by rewrite Heq].
  - intros (key & _ & E1 & E2).
    set (k := Z.min (Z.log2 m1) (Z.log2 m2)).
    rewrite <- (mod_pow2_mod m1 k (Z.log2 m1)), <- (mod_pow2_mod m2 k (Z.log2 m2)) by lia.
    rewrite <- E1, <- E2. by rewrite !mod_pow2_mod by lia.
Qed.

Lemma MasksHaveOverlap_witness :
  MasksHaveOverlap 5 3 = true ↔ ∃ key, 0 <= key < 2 ^ 32 ∧ mask_selects 5 key ∧ mask_selects 3 key.
Proof. apply (MasksHaveOverlap_correct 5 3); lia. Defined.

Example overlap_doc : MasksHaveOverlap 5 3 = true ∧ MasksHaveOverlap 5 2 = false.
Proof. by vm_compute. Qed.

(** *** Fixed-width encodings *)

Lemma BytesToUint32_ToBytes n rest : in_u32 n → BytesToUint32 (Uint32ToBytes n ++ rest) = n.
Proof.
  intros Hn. unfold BytesToUint32, Uint32ToBytes.
  rewrite bool_decide_false by (rewrite length_app, length_be_bytes; lia).
  rewrite take_app_length' by (symmetry; apply length_be_bytes).
  rewrite be_value_bytes. apply Z.mod_small. done.
Qed.

Lemma be_value_zeros n l : be_value (replicate n 0 ++ l) = be_value l.
Proof.
  rewrite be_value_app. assert (be_value (replicate n 0) = 0) as ->; [|lia].
  induction n as [|n IH]; [done|]. cbn [replicate].
  rewrite be_value_cons, IH. lia.
Qed.

Lemma EncodeToByte32_spec data :
  in_u64 data → length (EncodeToByte32 data) = 32%nat ∧ be_value (EncodeToByte32 data) = data.
Proof.
  intros Hd. unfold EncodeToByte32. split.
  - by rewrite length_app, length_replicate, length_be_bytes.
  - rewrite be_value_zeros, be_value_bytes. by apply Z.mod_small.
Qed.

Lemma BigToByte32_spec data :
  0 <= data < 2 ^ 256 →
  ∃ l, BigToByte32 data = Ok l ∧ length l = 32%nat ∧ be_value l = data.
Proof.
  intros Hd. unfold BigToByte32. rewrite length_big_Bytes.
  assert (big_len data ≤ 32)%nat by (apply big_len_le; change (256 ^ Z.of_nat 32) with (2 ^ 256); lia).
  rewrite bool_decide_false by lia. eexists. split_and!; [done| |].
  - rewrite length_app, length_replicate, length_big_Bytes. lia.
  - rewrite be_value_zeros. pose proof (big_SetBytes_Bytes data). unfold big_SetBytes in *. lia.
Qed.

(** *** Duplicate removal *)

Lemma dup_scan_spec pre todo newData x :
  newData = pre ++ todo → todo ≠ [] → x ∉ pre →
  dup_scan newData todo (length pre) x = if bool_decide (x ∈ newData) then newData else newData ++ [x].
Proof.
  revert pre. induction todo as [|v todo IH]; intros pre -> Hne Hx; [done|].
  cbn [dup_scan]. destruct (decide (v = x)) as [->|Hv].
  - rewrite bool_decide_true by done. rewrite bool_decide_true by set_solver. done.
  - rewrite bool_decide_false by done. destruct todo as [|w todo].
    + rewrite bool_decide_true by (rewrite length_app; cbn; lia). cbn [dup_scan].
      rewrite bool_decide_false by set_solver. done.
    + rewrite bool_decide_false by (rewrite length_app; cbn [length]; lia).
      replace (S (length pre)) with (length (pre ++ [v])) by (rewrite length_app; cbn; lia).
      rewrite (IH (pre ++ [v])); [done|by rewrite <- app_assoc|done|set_solver].
Qed.

Lemma RemoveDuplicate_step newData x :
  (if bool_decide (length newData = 0)%nat then newData ++ [x] else dup_scan newData newData 0 x)
  = if bool_decide (x ∈ newData) then newData else newData ++ [x].
Proof.
  destruct newData as [|v l]; [done|]. rewrite bool_decide_false by done.
  by rewrite (dup_scan_spec [] (v :: l)) by set_solver.
Qed.

Lemma RemoveDuplicate_inv data acc :
  NoDup acc →
  let r := foldl (fun newData iData =>
           if bool_decide (length newData = 0)%nat then newData ++ [iData]
           else dup_scan newData newData 0 iData) acc data in
  NoDup r ∧ (∀ x, x ∈ r ↔ x ∈ acc ∨ x ∈ data) ∧ acc `prefix_of` r.
Proof.
  revert acc. induction data as [|y data IH]; intros acc Hacc; cbn [foldl].
  - split_and!; [done|set_solver|done].
  - rewrite RemoveDuplicate_step. case_bool_decide as Hy.
    + destruct (IH acc Hacc) as (? & Hin & ?). split_and!; [done|set_solver|done].
    + destruct (IH (acc ++ [y])) as (? & Hin & Hpre).
      { apply NoDup_app. split_and!; [done|set_solver|apply NoDup_singleton]. }
      split_and!; [done|set_solver|]. etrans; [|exact Hpre]. by eexists.
Qed.

(** [RemoveDuplicate] returns a list without repetitions that has exactly
    the members of its input. *)
Theorem RemoveDuplicate_correct data :
  NoDup (RemoveDuplicate data) ∧ ∀ x, x ∈ RemoveDuplicate data ↔ x ∈ data.
Proof.
  destruct (RemoveDuplicate_inv data []) as (Hnd & Hin & _); [constructor|].
  split; [exact Hnd|]. intros x. unfold RemoveDuplicate. rewrite Hin. set_solver.
Qed.
