(* ===== verification/Account.v ===== *)
(** * package account: branches, addresses and shard routing

    Models src/account/branch.go, address.go, types.go, neighbor.go and the
    pure part of identity.go.  A recipient is the list of its 20 bytes; a
    branch value and a full shard key are uint32. *)

From S2P Require Import Prelude Utils.

Local Open Scope Z_scope.

(** ** branch.go *)

Record Branch := mkBranch { Value : Z }.

Definition NewBranch (value : Z) : Branch := mkBranch value.

Definition GetChainID (b : Branch) : Z := shr32 (Value b) 16.

Definition GetShardSize (b : Branch) : Z :=
  let branchValue := Z.land (Value b) (2 ^ 16 - 1) in
  shl32 1 (u32 (IntLeftMostBit branchValue - 1)).

Definition GetFullShardID (b : Branch) : Z := Value b.

Definition GetShardID (b : Branch) : Z :=
  let branchValue := Z.land (Value b) (2 ^ 16 - 1) in
  Z.lxor branchValue (GetShardSize b).

Definition IsInBranch (b : Branch) (fullShardKey : Z) : bool :=
  if negb (bool_decide (shr32 fullShardKey 16 = GetChainID b)) then false
  else bool_decide (Z.land fullShardKey (u32 (GetShardSize b - 1)) = GetShardID b).

Definition CreatBranch (chainID shardSize shardID : Z) : result Branch :=
  if negb (IsP2 shardSize) then Err "shardSize is not correct"
  else Ok (NewBranch (Z.lor (Z.lor (shl32 chainID 16) shardSize) shardID)).

(** ** address.go, types.go *)

Definition RecipientLength : nat := 20.
Definition FullShardKeyLength : nat := 4.
Definition KeyLength : nat := 32.

Record Address := mkAddress { Recipient : list Z; FullShardKey : Z }.

Definition NewAddress (recipient : list Z) (fullShardKey : Z) : Address :=
  mkAddress recipient fullShardKey.

Definition ToBytes (a : Address) : list Z := Recipient a ++ Uint32ToBytes (FullShardKey a).

Definition Address_GetFullShardID (a : Address) (shardSize : Z) : result Z :=
  if negb (IsP2 shardSize) then Err "shardSize is not right shardSize:%d"
  else
    let chainID := shr32 (FullShardKey a) 16 in
    let shardID := Z.land (FullShardKey a) (u32 (shardSize - 1)) in
    Ok (Z.lor (Z.lor (shl32 chainID 16) shardSize) shardID).

Definition Address_GetChainID (a : Address) : Z := shr32 (FullShardKey a) 16.

Definition AddressInShard (a : Address) (fullShardKey : Z) : Address :=
  NewAddress (Recipient a) fullShardKey.

(** [^x] on uint32 is [x xor 0xFFFFFFFF]. *)
Definition not32 (x : Z) : Z := Z.lxor x (2 ^ 32 - 1).

Definition AddressInBranch (a : Address) (branch : Branch) : Address :=
  let shardKey := Z.land (FullShardKey a) (2 ^ 16 - 1) in
  let newShardKey := u32 (Z.land shardKey (not32 (u32 (GetShardSize branch - 1))) + GetShardID branch) in
  let newFullShardKey := Z.lor (shl32 (GetChainID branch) 16) newShardKey in
  NewAddress (Recipient a) newFullShardKey.

Definition CreatEmptyAddress (fullShardKey : Z) : Address :=
  NewAddress (replicate RecipientLength 0) fullShardKey.

Definition IsEmpty (a : Address) : bool := bool_decide (replicate RecipientLength 0 = Recipient a).

(** [IsSameReceipt] compares the 20 bytes one by one. *)
Fixpoint IsSameReceipt_from (n : nat) (a b : list Z) : bool :=
  match n, a, b with
  | S n', x :: a', y :: b' => if bool_decide (x = y) then IsSameReceipt_from n' a' b' else false
  | _, _, _ => true
  end.
Definition IsSameReceipt (a b : list Z) : bool := IsSameReceipt_from 20 a b.

Definition IsSameAddress (a b : Address) : bool :=
  IsSameReceipt (Recipient a) (Recipient b) && bool_decide (FullShardKey a = FullShardKey b).

(** [Key.SetBytes] on a zero key: the last 32 bytes, or left padding. *)
Definition BytesToIdentityKey (b : list Z) : list Z :=
  let b' := if bool_decide (KeyLength < length b)%nat then drop (length b - KeyLength) b else b in
  replicate (KeyLength - length b') 0 ++ b'.

(** ** neighbor.go *)

Definition absUint32 (a b : Z) : Z := if bool_decide (a > b) then u32 (a - b) else u32 (b - a).

Definition IsNeighbor (b1 b2 : Branch) (shardSize : Z) : bool :=
  if bool_decide (shardSize <= 32) then true
  else if bool_decide (GetChainID b1 = GetChainID b2)
       then IsP2 (absUint32 (GetShardID b1) (GetShardID b2))
  else if bool_decide (GetShardID b1 = GetShardID b2)
       then IsP2 (absUint32 (GetChainID b1) (GetChainID b2))
  else false.

(** ** identity.go *)

(** The default full shard key is made of bytes 0 and 10 of the recipient. *)
Definition GetDefaultFullShardKey (recipient : list Z) : result Z :=
  match recipient !! 0%nat, recipient !! 10%nat with
  | Some r0, Some r10 => Ok (be_value ([0; 0] ++ [r0] ++ [r10]))
  | _, _ => Panic "slice bounds out of range"
  end.

(** ** Addresses from bytes

    [common.BytesToAddress] of go-ethereum is a parameter; what is used of it
    is that it keeps a slice of exactly 20 bytes. *)
Section address_bytes.
Variable BytesToAddress : list Z → list Z.

Definition CreatAddressFromBytes (bs : list Z) : result Address :=
  if negb (bool_decide (length bs = RecipientLength + FullShardKeyLength)%nat)
  then Err "bs length excepted %d,unexcepted %d"
  else
    let x := be_value (take 4 (drop RecipientLength bs)) in
    let recipient := BytesToAddress (take RecipientLength bs) in
    Ok (NewAddress recipient x).

Hypothesis BytesToAddress_exact : ∀ b, length b = RecipientLength → BytesToAddress b = b.

(** An address and its 24-byte form determine each other: parsing the
    bytes of an address gives it back, and the bytes of a parsed address are
    the input. *)
Theorem address_bytes_roundtrip :
  (∀ a, length (Recipient a) = RecipientLength → in_u32 (FullShardKey a) →
        CreatAddressFromBytes (ToBytes a) = Ok a) ∧
  (∀ bs a, bytes_ok bs → CreatAddressFromBytes bs = Ok a → ToBytes a = bs).
Proof.
  unfold CreatAddressFromBytes, ToBytes, Uint32ToBytes, RecipientLength, FullShardKeyLength.
  split.
  - intros [r key] Hr Hk. cbn [Recipient FullShardKey] in *.
    rewrite length_app, length_be_bytes, Hr, bool_decide_true by done. cbn [negb].
    rewrite take_app_length', drop_app_length' by done.
    rewrite take_ge by (rewrite length_be_bytes; lia).
    rewrite BytesToAddress_exact, be_value_bytes, Z.mod_small by done. done.
  - intros bs a Hbs Ha. case_bool_decide as Hlen; cbn [negb] in Ha; [|done].
    injection Ha as <-. cbn [Recipient FullShardKey NewAddress].
    rewrite BytesToAddress_exact by (rewrite length_take; unfold RecipientLength; lia).
    assert (length (take 4 (drop 20 bs)) = 4%nat) as Hl by (rewrite length_take, length_drop; lia).
    pose proof (be_bytes_value (take 4 (drop 20 bs)) ltac:(by apply Forall_take, Forall_drop)) as E.
    rewrite Hl in E. rewrite E.
    rewrite (take_ge (drop 20 bs)) by (rewrite length_drop; lia). apply take_drop.
Qed.
End address_bytes.

Lemma address_bytes_witness :
  (∀ a, length (Recipient a) = RecipientLength → in_u32 (FullShardKey a) →
        CreatAddressFromBytes (fun b => b) (ToBytes a) = Ok a) ∧
  (∀ bs a, bytes_ok bs → CreatAddressFromBytes (fun b => b) bs = Ok a → ToBytes a = bs).
Proof. apply (address_bytes_roundtrip (fun b => b)). intros b Hb. reflexivity. Defined.

(** ** Well-formed branches

    A branch value holds the chain id in its high half and, in its low half,
    the shard size (a power of two) together with a smaller shard id. *)
Definition branch_of (chain k id : Z) : Branch := mkBranch (chain * 2 ^ 16 + 2 ^ k + id).

Definition branch_parts (chain k id : Z) : Prop :=
  0 <= chain < 2 ^ 16 ∧ 0 <= k < 16 ∧ 0 <= id < 2 ^ k.

Definition wf_branch (b : Branch) : Prop :=
  0 <= Value b < 2 ^ 32 ∧ Value b mod 2 ^ 16 ≠ 0.

#[export] Instance wf_branch_dec b : Decision (wf_branch b).
Proof. unfold wf_branch. apply _. Defined.

(** Facts on [2^k] with [k < 16] that the arithmetic below needs. *)
Ltac pow_facts k :=
  let H1 := fresh "Hpos" in let H2 := fresh "Hle" in
  assert (0 < 2 ^ k) as H1 by (apply Z.pow_pos_nonneg; lia);
  assert (2 ^ k <= 2 ^ 15) as H2 by (apply Z.pow_le_mono_r; lia);
  change (2 ^ 15) with 32768 in H2.

Lemma log2_parts k id : 0 <= k → 0 <= id < 2 ^ k → Z.log2 (2 ^ k + id) = k.
Proof.
  intros Hk Hid. apply Z.log2_unique; [done|]. rewrite Z.pow_succ_r by done. lia.
Qed.

Lemma wf_branch_parts b :
  wf_branch b → ∃ chain k id, branch_parts chain k id ∧ b = branch_of chain k id.
Proof.
  destruct b as [v]. intros [Hv Hm]. cbn in *.
  pose proof (Z.mod_pos_bound v (2 ^ 16) ltac:(lia)).
  set (m := v mod 2 ^ 16) in *.
  pose proof (Z.log2_spec m ltac:(lia)) as [Hlo Hhi].
  rewrite Z.pow_succ_r in Hhi by apply Z.log2_nonneg.
  assert (Z.log2 m < 16) by (apply Z.log2_lt_pow2; lia).
  pose proof (Z.log2_nonneg m).
  exists (v / 2 ^ 16), (Z.log2 m), (m - 2 ^ Z.log2 m).
  pose proof (Z.div_mod v (2 ^ 16) ltac:(lia)).
  split; [split_and!; try lia|].
  unfold branch_of. f_equal. lia.
Qed.

Lemma branch_low chain k id :
  branch_parts chain k id → Z.land (Value (branch_of chain k id)) (2 ^ 16 - 1) = 2 ^ k + id.
Proof.
  intros (Hc & Hk & Hid). pow_facts k. cbn [Value branch_of].
  rewrite land_ones_mod by lia.
  rewrite <- Z.add_assoc, Z.add_comm, Z_mod_plus_full, Z.mod_small by lia. done.
Qed.

Lemma shr16 x : shr32 x 16 = x / 2 ^ 16.
Proof. unfold shr32. rewrite bool_decide_false by lia. by rewrite Z.shiftr_div_pow2 by lia. Qed.

Lemma ChainID_of chain k id :
  branch_parts chain k id → GetChainID (branch_of chain k id) = chain.
Proof.
  intros (Hc & Hk & Hid). pow_facts k. unfold GetChainID. rewrite shr16. cbn [Value branch_of].
  rewrite <- Z.add_assoc, Z.div_add_l, Z.div_small by lia. lia.
Qed.

Lemma ShardSize_of chain k id :
  branch_parts chain k id → GetShardSize (branch_of chain k id) = 2 ^ k.
Proof.
  intros Hp. unfold GetShardSize. rewrite branch_low by done.
  destruct Hp as (Hc & Hk & Hid). pow_facts k.
  rewrite IntLeftMostBit_pos, log2_parts by lia.
  rewrite Z.add_simpl_r, u32_id, shl32_one by (unfold in_u32; lia). done.
Qed.

Lemma ShardID_of chain k id :
  branch_parts chain k id → GetShardID (branch_of chain k id) = id.
Proof.
  intros Hp. unfold GetShardID. rewrite branch_low, ShardSize_of by done.
  destruct Hp as (Hc & Hk & Hid).
  rewrite <- (Z.mul_1_l (2 ^ k)) at 1. rewrite <- lor_disjoint_add by lia.
  rewrite Z.mul_1_l, <- Z.lxor_lor.
  - rewrite (Z.lxor_comm (2 ^ k) id), Z.lxor_assoc, Z.lxor_nilpotent. apply Z.lxor_0_r.
  - apply Z.bits_inj'. intros i Hi. rewrite Z.land_spec, Z.bits_0.
    destruct (decide (i = k)) as [->|].
    + destruct (decide (id = 0)) as [->|]; [by rewrite Z.bits_0, andb_false_r|].
      rewrite (Z.bits_above_log2 id); [by rewrite andb_false_r|lia|].
      apply Z.log2_lt_pow2; lia.
    + by rewrite Z.pow2_bits_false by lia.
Qed.

Lemma shl32_16 chain : 0 <= chain < 2 ^ 16 → shl32 chain 16 = chain * 2 ^ 16.
Proof.
  intros Hc. unfold shl32, u32. rewrite bool_decide_false by lia.
  rewrite Z.shiftl_mul_pow2 by lia. apply Z.mod_small. lia.
Qed.

Lemma IsP2_pow2 k : 0 <= k < 32 → IsP2 (2 ^ k) = true.
Proof.
  intros Hk. apply IsP2_spec; [|right; eauto].
  split; [apply Z.pow_nonneg; lia|apply Z.pow_lt_mono_r; lia].
Qed.

(** The or of the three parts is their sum. *)
Lemma branch_value_lor chain k id :
  branch_parts chain k id →
  Z.lor (Z.lor (shl32 chain 16) (2 ^ k)) id = Value (branch_of chain k id).
Proof.
  intros (Hc & Hk & Hid). pow_facts k. rewrite shl32_16 by done. cbn [Value branch_of].
  rewrite <- Z.lor_assoc.
  assert (Z.lor (2 ^ k) id = 2 ^ k + id) as ->.
  { rewrite <- (Z.mul_1_l (2 ^ k)) at 1. rewrite lor_disjoint_add by lia. lia. }
  rewrite lor_disjoint_add by lia. lia.
Qed.

(** Membership of a key in a branch: same chain, and the low bits are the id. *)
Lemma IsInBranch_of chain k id key :
  branch_parts chain k id →
  IsInBranch (branch_of chain k id) key = bool_decide (key / 2 ^ 16 = chain ∧ key mod 2 ^ k = id).
Proof.
  intros Hp. unfold IsInBranch. rewrite ChainID_of, ShardSize_of, ShardID_of, shr16 by done.
  destruct Hp as (Hc & Hk & Hid). pow_facts k.
  rewrite u32_id, land_ones_mod by (unfold in_u32; lia).
  repeat case_bool_decide; cbn in *; tauto.
Qed.

(** A branch built from a chain id below 2^16, a shard size 2^k (k < 16)
    and a shard id below the size is accepted, and its accessors give the
    three parts back. *)
Theorem CreatBranch_roundtrip chain k id :
  branch_parts chain k id →
  ∃ b, CreatBranch chain (2 ^ k) id = Ok b ∧ wf_branch b ∧
       GetChainID b = chain ∧ GetShardSize b = 2 ^ k ∧ GetShardID b = id.
Proof.
  intros Hp. pose proof Hp as (Hc & Hk & Hid). pow_facts k.
  exists (branch_of chain k id). unfold CreatBranch, NewBranch.
  rewrite IsP2_pow2 by lia. cbn [negb].
  rewrite branch_value_lor by done.
  split_and!; [done| |by apply ChainID_of|by apply ShardSize_of|by apply ShardID_of].
  pose proof (branch_low chain k id Hp) as Hlow. rewrite land_ones_mod in Hlow by lia.
  cbn [Value branch_of] in *. split; cbn; [lia|]. cbn in Hlow. lia.
Qed.

Lemma CreatBranch_roundtrip_witness :
  ∃ b, CreatBranch 3 (2 ^ 2) 1 = Ok b ∧ wf_branch b ∧
       GetChainID b = 3 ∧ GetShardSize b = 2 ^ 2 ∧ GetShardID b = 1.
Proof. apply (CreatBranch_roundtrip 3 2 1). unfold branch_parts. lia. Defined.

Lemma GetFullShardID_of a k :
  in_u32 (FullShardKey a) → 0 <= k < 16 →
  Address_GetFullShardID a (2 ^ k)
  = Ok (Value (branch_of (FullShardKey a / 2 ^ 16) k (FullShardKey a mod 2 ^ k)))
  ∧ branch_parts (FullShardKey a / 2 ^ 16) k (FullShardKey a mod 2 ^ k).
Proof.
  intros Ha Hk. unfold in_u32 in Ha. pow_facts k.
  assert (branch_parts (FullShardKey a / 2 ^ 16) k (FullShardKey a mod 2 ^ k)) as Hp.
  { split_and!; [apply Z.div_pos; lia|apply Z.div_lt_upper_bound; lia|lia|lia|
                 apply Z.mod_pos_bound; lia|apply Z.mod_pos_bound; lia]. }
  split; [|done]. unfold Address_GetFullShardID. rewrite IsP2_pow2 by lia. cbn [negb].
  rewrite u32_id, land_ones_mod, shr16 by (unfold in_u32; lia).
  by rewrite branch_value_lor.
Qed.

(** Shard routing is a partition.  For a chain cut into 2^k shards, the
    full shard id of an address names a branch the address's key is in, and it
    is the only well-formed branch of that shard size the key is in: every key
    has exactly one home shard. *)
Theorem shard_routing_partition a k :
  in_u32 (FullShardKey a) → 0 <= k < 16 →
  ∃ v, Address_GetFullShardID a (2 ^ k) = Ok v ∧
       IsInBranch (NewBranch v) (FullShardKey a) = true ∧
       ∀ b, wf_branch b → GetShardSize b = 2 ^ k →
            IsInBranch b (FullShardKey a) = true → b = NewBranch v.
Proof.
  intros Ha Hk. destruct (GetFullShardID_of a k Ha Hk) as [He Hp].
  eexists. split_and!; [exact He| |].
  - change (NewBranch _) with (branch_of (FullShardKey a / 2 ^ 16) k (FullShardKey a mod 2 ^ k)).
    rewrite IsInBranch_of by done. by apply bool_decide_eq_true.
  - intros b Hb Hsize Hin. destruct (wf_branch_parts b Hb) as (chain & k' & id & Hp' & ->).
    rewrite ShardSize_of in Hsize by done.
    assert (k' = k) as ->.
    { destruct Hp' as (_ & ? & _). apply (Z.pow_inj_r 2); lia. }
    rewrite IsInBranch_of in Hin by done. apply bool_decide_eq_true in Hin as [-> ->]. done.
Qed.

Lemma shard_routing_partition_witness :
  ∃ v, Address_GetFullShardID (mkAddress [] 196613) (2 ^ 2) = Ok v ∧
       IsInBranch (NewBranch v) 196613 = true ∧
       ∀ b, wf_branch b → GetShardSize b = 2 ^ 2 → IsInBranch b 196613 = true → b = NewBranch v.
Proof. apply (shard_routing_partition (mkAddress [] 196613) 2); unfold in_u32; cbn; lia. Defined.

Lemma land_not_low x k :
  0 <= k < 16 → 0 <= x < 2 ^ 16 → Z.land x (not32 (2 ^ k - 1)) = x - x mod 2 ^ k.
Proof.
  intros Hk Hx. pow_facts k.
  transitivity (Z.ldiff x (2 ^ k - 1)).
  - unfold not32. apply Z.bits_inj'. intros i Hi.
    rewrite Z.land_spec, Z.ldiff_spec, Z.lxor_spec.
    replace (2 ^ 32 - 1) with (Z.ones 32) by reflexivity. rewrite Z.testbit_ones by lia.
    destruct (decide (i < 32)).
    + destruct (Z.leb_spec 0 i), (Z.ltb_spec i 32); try lia. by rewrite xorb_true_r.
    + rewrite (Z.bits_above_log2 x); [done|lia|].
      destruct (decide (x = 0)) as [->|]; [cbn; lia|].
      assert (Z.log2 x < 16) by (apply Z.log2_lt_pow2; lia). lia.
  - replace (2 ^ k - 1) with (Z.ones k) by (rewrite Z.ones_equiv; lia).
    rewrite Z.ldiff_ones_r, Z.shiftl_mul_pow2, Z.shiftr_div_pow2 by lia.
    pose proof (Z.div_mod x (2 ^ k)). lia.
Qed.

(** [AddressInBranch] moves an address into the given well-formed branch:
    the result is in the branch, keeps the recipient, and keeps the bits of
    the 16-bit shard key above the shard size. *)
Theorem AddressInBranch_correct a b :
  in_u32 (FullShardKey a) → wf_branch b →
  IsInBranch b (FullShardKey (AddressInBranch a b)) = true ∧
  Recipient (AddressInBranch a b) = Recipient a ∧
  (FullShardKey (AddressInBranch a b) mod 2 ^ 16) / GetShardSize b
  = (FullShardKey a mod 2 ^ 16) / GetShardSize b.
Proof.
  intros Ha Hb. destruct (wf_branch_parts b Hb) as (chain & k & id & Hp & ->).
  pose proof Hp as (Hc & Hk & Hid). pow_facts k. unfold in_u32 in Ha.
  unfold AddressInBranch. cbn [Recipient FullShardKey NewAddress].
  rewrite ShardSize_of, ShardID_of, ChainID_of by done.
  rewrite (u32_id (2 ^ k - 1)) by (unfold in_u32; lia).
  rewrite land_ones_mod, shl32_16 by lia.
  set (x := FullShardKey a mod 2 ^ 16).
  assert (0 <= x < 2 ^ 16) by (apply Z.mod_pos_bound; lia).
  rewrite land_not_low by lia.
  pose proof (Z.div_mod x (2 ^ k) ltac:(lia)). pose proof (Z.mod_pos_bound x (2 ^ k) ltac:(lia)).
  assert (x / 2 ^ k <= (2 ^ 16 - 1) / 2 ^ k) by (apply Z.div_le_mono; lia).
  assert ((2 ^ 16 - 1) / 2 ^ k = 2 ^ (16 - k) - 1) as Hq.
  { assert (2 ^ 16 = 2 ^ (16 - k) * 2 ^ k) as -> by (rewrite <- Z.pow_add_r; f_equal; lia).
    symmetry. apply Z.div_unique with (r := 2 ^ k - 1); lia. }
  assert (2 ^ 16 = 2 ^ (16 - k) * 2 ^ k) as Hsplit by (rewrite <- Z.pow_add_r; f_equal; lia).
  set (q := x / 2 ^ k) in *.
  assert (0 <= q) by (apply Z.div_pos; lia).
  replace (x - x mod 2 ^ k + id) with (q * 2 ^ k + id) by lia.
  assert (0 <= q * 2 ^ k + id < 2 ^ 16) by nia.
  rewrite (u32_id (q * 2 ^ k + id)) by (unfold in_u32; lia).
  rewrite lor_disjoint_add by lia.
  split_and!; [|done|].
  - rewrite IsInBranch_of by done. apply bool_decide_eq_true. split.
    + rewrite Z.div_add_l, Z.div_small by lia. lia.
    + rewrite Hsplit. replace (chain * (2 ^ (16 - k) * 2 ^ k) + (q * 2 ^ k + id))
        with (id + (chain * 2 ^ (16 - k) + q) * 2 ^ k) by lia.
      rewrite Z_mod_plus_full. apply Z.mod_small. lia.
  - rewrite Z.add_comm, Z_mod_plus_full, Z.mod_small by lia.
    rewrite Z.div_add_l, Z.div_small by lia. lia.
Qed.

Lemma AddressInBranch_witness :
  let a := mkAddress [1] 305419896 in let b := NewBranch 65541 in
  IsInBranch b (FullShardKey (AddressInBranch a b)) = true ∧
  Recipient (AddressInBranch a b) = Recipient a ∧
  (FullShardKey (AddressInBranch a b) mod 2 ^ 16) / GetShardSize b
  = (FullShardKey a mod 2 ^ 16) / GetShardSize b.
Proof.
  apply (AddressInBranch_correct (mkAddress [1] 305419896) (NewBranch 65541)).
  - unfold in_u32. cbn. lia.
  - apply (bool_decide_unpack _). by vm_compute.
Defined.

(** ** Neighbours and equality tests *)

Lemma absUint32_sym a b : absUint32 a b = absUint32 b a.
Proof.
  unfold absUint32. repeat case_bool_decide; try lia; try done.
  assert (a = b) as -> by lia. done.
Qed.

Lemma IsNeighbor_sym b1 b2 n : IsNeighbor b1 b2 n = IsNeighbor b2 b1 n.
Proof.
  unfold IsNeighbor. case_bool_decide; [done|].
  rewrite (absUint32_sym (GetShardID b1)), (absUint32_sym (GetChainID b1)).
  repeat case_bool_decide; congruence.
Qed.

Lemma IsSameReceipt_spec n a b :
  length a = n → length b = n → IsSameReceipt_from n a b = bool_decide (a = b).
Proof.
  revert a b. induction n as [|n IH]; intros [|x a] [|y b] Ha Hb; try done.
  cbn [IsSameReceipt_from]. injection Ha as Ha. injection Hb as Hb.
  case_bool_decide as Hxy.
  - subst y. rewrite IH by done. apply bool_decide_ext. naive_solver.
  - rewrite bool_decide_false; [done|naive_solver].
Qed.

(** The neighbour relation that decides which shards receive cross-shard
    deposits is symmetric, and total when there are at most 32 shards; above
    that, two distinct branches of one chain are neighbours exactly when their
    shard ids differ by a power of two. *)
Theorem IsNeighbor_correct b1 b2 n :
  wf_branch b1 → wf_branch b2 →
  IsNeighbor b1 b2 n = IsNeighbor b2 b1 n ∧
  (n <= 32 → IsNeighbor b1 b2 n = true) ∧
  (32 < n → GetChainID b1 = GetChainID b2 → GetShardID b1 ≠ GetShardID b2 →
   IsNeighbor b1 b2 n = true ↔
   ∃ k, 0 <= k < 32 ∧ Z.abs (GetShardID b1 - GetShardID b2) = 2 ^ k).
Proof.
  intros H1 H2. split; [apply IsNeighbor_sym|]. split.
  { intros Hn. unfold IsNeighbor. by rewrite bool_decide_true. }
  intros Hn Hc Hne. unfold IsNeighbor. rewrite bool_decide_false by lia.
  rewrite bool_decide_true by done.
  destruct (wf_branch_parts b1 H1) as (c1 & k1 & i1 & Hp1 & ->).
  destruct (wf_branch_parts b2 H2) as (c2 & k2 & i2 & Hp2 & ->).
  rewrite !ShardID_of in * by done.
  destruct Hp1 as (_ & Hk1 & Hi1), Hp2 as (_ & Hk2 & Hi2). pow_facts k1. pow_facts k2.
  assert (absUint32 i1 i2 = Z.abs (i1 - i2)) as ->.
  { unfold absUint32. case_bool_decide; rewrite u32_id by (unfold in_u32; lia); lia. }
  rewrite IsP2_spec by (unfold in_u32; lia). split; [|by right].
  intros [?|?]; [lia|done].
Qed.

Lemma IsNeighbor_witness :
  let b1 := NewBranch 65600 in let b2 := NewBranch 65604 in
  IsNeighbor b1 b2 64 = IsNeighbor b2 b1 64 ∧
  (64 <= 32 → IsNeighbor b1 b2 64 = true) ∧
  (32 < 64 → GetChainID b1 = GetChainID b2 → GetShardID b1 ≠ GetShardID b2 →
   IsNeighbor b1 b2 64 = true ↔
   ∃ k, 0 <= k < 32 ∧ Z.abs (GetShardID b1 - GetShardID b2) = 2 ^ k).
Proof.
  apply (IsNeighbor_correct (NewBranch 65600) (NewBranch 65604) 64);
    apply (bool_decide_unpack _); by vm_compute.
Defined.
