(* ===== verification/Config.v ===== *)
(** * cluster/config: chains, shards and slaves

    Models src/cluster/config/cluster_config.go, chain_config.go and
    shard_config.go: the shards of the chains of a cluster, the checks on them,
    the routing of a full shard key to its shard, and the assignment of shards to
    slaves.  The fields that only other programs read, and the reading of JSON
    files, are left out.  A map of shards is traversed in the order of
    [map_to_list]; Go's order is not specified. *)

From stdpp Require Import sorting.
From S2P Require Import Prelude Codec Utils Account.

Local Open Scope Z_scope.

Record RootConfig := mkRootConfig {
  MaxStaleRootBlockHeightDiff : Z;
  root_TargetBlockTime : Z;
}.
Record ChainConfig := mkChainConfig {
  ChainID : Z;
  ShardSize : Z;
  TargetBlockTime : Z;
  Genesis : option (Z * Z);  (* RootHeight, GasLimit *)
  ExtraShardBlocksInRootBlock : Z;
}.
Record ShardConfig := mkShardConfig {
  ShardID : Z;
  rootConfig : RootConfig;
  chainConfig : ChainConfig;
}.

Definition s_GetFullShardId (s : ShardConfig) : Z :=
  Z.lor (Z.lor (shl32 (ChainID (chainConfig s)) 16) (ShardSize (chainConfig s))) (ShardID s).

Definition div32 (a b : Z) : result Z := if b =? 0 then Panic "integer divide by zero" else Ok (a / b).
Definition MaxBlocksPerShardInOneRootBlock (s : ShardConfig) : result Z :=
  n ← div32 (root_TargetBlockTime (rootConfig s)) (TargetBlockTime (chainConfig s));
  Ok (u32 (n + ExtraShardBlocksInRootBlock (chainConfig s))).
Definition MaxStaleMinorBlockHeightDiff (s : ShardConfig) : result Z :=
  div32 (u64 (MaxStaleRootBlockHeightDiff (rootConfig s) * root_TargetBlockTime (rootConfig s))) (TargetBlockTime (chainConfig s)).
Definition MaxMinorBlocksInMemory (s : ShardConfig) : result Z :=
  n ← MaxStaleMinorBlockHeightDiff s; Ok (u64 (n * 2)).

Record QuarkChainConfig := mkQuarkChainConfig {
  ChainSize : Z;
  shards : gmap Z ShardConfig;
  chainIdToShardSize : gmap Z Z;
  chainIdToShardIds : gmap Z (list Z);
  GenesisToken : list Z;
  GuardianPublicKey : list Z;
  MinMiningGasPrice : option Z;
  MinTXPoolGasPrice : option Z;
  XShardGasDDOSFixRootHeight : Z;
}.

(** ** The shards of the chains

    The loops of NewQuarkChainConfig, Update and UnmarshalJSON. *)
Definition add_shards (root : RootConfig) (m : gmap Z ShardConfig) (c : ChainConfig) : gmap Z ShardConfig :=
  foldl (fun m i => let s := mkShardConfig i root c in <[s_GetFullShardId s := s]> m) m (seqZ 0 (ShardSize c)).
Definition build_shards (root : RootConfig) (chains : list ChainConfig) : gmap Z ShardConfig :=
  foldl (add_shards root) ∅ chains.

(** ** initAndValidate *)

Definition GetShardSizeByChainId (q : QuarkChainConfig) (id : Z) : result Z :=
  match chainIdToShardSize q !! id with None => Err "no such chainID" | Some s => Ok s end.

(** The first loop, over the shards. *)
Fixpoint index_shards (l : list (Z * ShardConfig)) (sizes : gmap Z Z) (ids : gmap Z (list Z)) : result (gmap Z Z * gmap Z (list Z)) :=
  match l with
  | [] => Ok (sizes, ids)
  | (fullShardId, s) :: l =>
      if negb (fullShardId =? s_GetFullShardId s) then Panic "full_shard_id is not right"
      else
        let c := ChainID (chainConfig s) in
        index_shards l (<[c := ShardSize (chainConfig s)]> sizes) (<[c := default [] (ids !! c) ++ [ShardID s]]> ids)
  end.
(** The second loop, over the chains. *)
Fixpoint check_chains (q : QuarkChainConfig) (l : list (Z * list Z)) : result unit :=
  match l with
  | [] => Ok tt
  | (chainID, shardIDs) :: l =>
      match GetShardSizeByChainId q chainID with
      | Ok shardSize =>
          if negb (Z.of_nat (length shardIDs) =? shardSize) then Panic "shard_size length is not right"
          else if negb (forallb (fun i => bool_decide (i ∈ shardIDs)) (seqZ 0 shardSize)) then Panic "shard ids is not right"
          else check_chains q l
      | Err e => Panic e
      | Panic e => Panic e
      end
  end.
(** The values a configuration leaves out. *)
Definition set_defaults (q : QuarkChainConfig) (sizes : gmap Z Z) (ids : gmap Z (list Z)) : QuarkChainConfig :=
  mkQuarkChainConfig (ChainSize q) (shards q) sizes ids (GenesisToken q) (GuardianPublicKey q)
    (Some (default 1000000000 (MinMiningGasPrice q))) (Some (default 1000000000 (MinTXPoolGasPrice q)))
    (if XShardGasDDOSFixRootHeight q =? 0 then 90000 else XShardGasDDOSFixRootHeight q).
Definition check_guardian (q : QuarkChainConfig) : result unit :=
  let n := Z.of_nat (length (GuardianPublicKey q)) in
  if negb (n =? 65) && negb (n =? 0) then Panic "GuardianPublicKey should 0 or 65" else Ok tt.
Definition initAndValidate (q : QuarkChainConfig) : result QuarkChainConfig :=
  _ ← check_guardian q;
  r ← index_shards (map_to_list (shards q)) ∅ ∅;
  let q := set_defaults q r.1 r.2 in
  _ ← check_chains q (map_to_list (chainIdToShardIds q));
  let chainIDMap : gmap Z Z := map_imap (fun c _ => Some c) (chainIdToShardIds q) in
  if negb (forallb (fun i => i =? default 0 (chainIDMap !! i)) (seqZ 0 (ChainSize q))) then Panic "chain id is not right"
  else Ok q.

(** ** Queries *)

Definition GetGenesisRootHeight (q : QuarkChainConfig) (fullShardId : Z) : result Z :=
  match shards q !! fullShardId with
  | Some s => match Genesis (chainConfig s) with Some g => Ok g.1 | None => Panic "nil pointer dereference" end
  | None => Panic "nil pointer dereference"
  end.
Definition GetGenesisShardIds (q : QuarkChainConfig) : list Z := (map_to_list (shards q)).*1.
Definition GetInitializedShardIdsBeforeRootHeight (q : QuarkChainConfig) (rootHeight : Z) : list Z :=
  (filter (fun e => match Genesis (chainConfig e.2) with Some g => g.1 <? rootHeight | None => false end = true)
     (map_to_list (shards q))).*1.
Definition GetShardConfigByFullShardID (q : QuarkChainConfig) (fullShardID : Z) : option ShardConfig := shards q !! fullShardID.
Definition GetFullShardIdByFullShardKey (q : QuarkChainConfig) (fullShardKey : Z) : result Z :=
  let chainID := shr32 fullShardKey 16 in
  shardSize ← GetShardSizeByChainId q chainID;
  let shardID := Z.land fullShardKey (u32 (shardSize - 1)) in
  Ok (Z.lor (Z.lor (shl32 chainID 16) shardSize) shardID).
Definition IsSameFullShard (q : QuarkChainConfig) (key1 key2 : Z) : bool :=
  match GetFullShardIdByFullShardKey q key1, GetFullShardIdByFullShardKey q key2 with
  | Ok id1, Ok id2 => id1 =? id2
  | _, _ => false
  end.
Definition config_GasLimit (q : QuarkChainConfig) (fullShardID : Z) : result Z :=
  match shards q !! fullShardID with
  | None => Err "no such fullShardID %v"
  | Some s => match Genesis (chainConfig s) with Some g => Ok g.2 | None => Panic "nil pointer dereference" end
  end.

(** ** Slaves *)

Record SlaveConfig := mkSlaveConfig {
  slave_ID : string;
  FullShardList : list Z;
  ChainMaskListForBackward : list Z;
}.
Definition getFullShardIdListFromSlaveIndex (l : list Z) (slaveNumber slaveIndex : Z) : result (list Z) :=
  match l with
  | [] => Ok []
  | _ =>
      if slaveNumber =? 0 then Panic "integer divide by zero"
      else Ok (snd <$> filter (fun e => Z.rem (Z.of_nat e.1) slaveNumber = slaveIndex) (imap pair l))
  end.
(** The list may be nil. *)
Definition GetSlaveConfig (slaves : option (list SlaveConfig)) (id : string) : result SlaveConfig :=
  match slaves with
  | None => Err "slave config is empty"
  | Some slaves =>
      match list_find (fun s => slave_ID s = id) slaves with
      | Some (_, s) => Ok s
      | None => Err "slave %s is not in cluster config"
      end
  end.

(** The shards of the chains that a mask selects; each mask starts a new list. *)
Definition mask_list (chains : list ChainConfig) (m : Z) : list Z :=
  let bitMask := u32 (shl32 1 (u32 (IntLeftMostBit m - 1)) - 1) in
  (fun c => u32 (shl32 (ChainID c) 16 + 1)) <$> filter (fun c => Z.land (ChainID c) bitMask = Z.land m bitMask) chains.
Definition slave_from_masks (chains : list ChainConfig) (s : SlaveConfig) : SlaveConfig :=
  mkSlaveConfig (slave_ID s)
    (merge_sort Z.le (foldl (fun _ m => mask_list chains m) (FullShardList s) (ChainMaskListForBackward s)))
    (ChainMaskListForBackward s).
Definition BackWardChainMaskList (chains : list ChainConfig) (slaves : list SlaveConfig) : result (list SlaveConfig) :=
  if existsb (fun s => existsb (fun v => negb (v =? 0)) (FullShardList s)) slaves then Ok slaves
  else if existsb (fun c => negb (ShardSize c =? 1)) chains
  then Err "CHAIN_MASK_LIST:only works if every chain has 1 shard only"
  else Ok (slave_from_masks chains <$> slaves).

(** ** The routing of keys *)

(** The shards of a chain are filed under their ids. *)
Definition shards_of (root : RootConfig) (chains : list ChainConfig) (m : gmap Z ShardConfig) : Prop :=
  ∀ id s, m !! id = Some s → id = s_GetFullShardId s ∧ chainConfig s ∈ chains ∧ rootConfig s = root ∧ 0 <= ShardID s < ShardSize (chainConfig s).

Lemma add_shards_of root chains m c : c ∈ chains → shards_of root chains m → shards_of root chains (add_shards root m c).
Proof.
  intros Hc. unfold add_shards. assert (∀ i, i ∈ seqZ 0 (ShardSize c) → 0 <= i < ShardSize c) as Hl by (intros i; rewrite elem_of_seqZ; lia).
  revert Hl. generalize (seqZ 0 (ShardSize c)). intros l. revert m.
  induction l as [|i l IH]; intros m Hl Hm; [done|]. apply IH; [set_solver|]. intros id s Hs.
  apply lookup_insert_Some in Hs as [[<- <-]|[_ Hs]]; [cbn; split_and!; try done; apply (Hl i); set_solver|by apply Hm].
Qed.
Lemma build_shards_of root chains : shards_of root chains (build_shards root chains).
Proof.
  unfold build_shards. cut (∀ l m, l ⊆ chains → shards_of root chains m → shards_of root chains (foldl (add_shards root) m l)).
  { intros Hx. apply Hx; [done|]. intros id s Hs. by rewrite lookup_empty in Hs. }
  induction l as [|c l IH]; intros m Hl Hm; [done|]. cbn [foldl]. apply IH; [set_solver|]. apply add_shards_of; [set_solver|done].
Qed.

(** What the first loop has found of the chain of a shard. *)
Record indexed_ok (l : list (Z * ShardConfig)) (sizes : gmap Z Z) (ids : gmap Z (list Z)) : Prop := {
  x_size c n : sizes !! c = Some n → ∃ e, e ∈ l ∧ ChainID (chainConfig e.2) = c ∧ ShardSize (chainConfig e.2) = n;
  x_ids c js i : ids !! c = Some js → i ∈ js → ∃ e, e ∈ l ∧ ChainID (chainConfig e.2) = c ∧ ShardID e.2 = i;
  x_in e : e ∈ l → is_Some (sizes !! ChainID (chainConfig e.2));
  x_dom c : is_Some (sizes !! c) ↔ is_Some (ids !! c);
}.
Lemma index_shards_ok seen l sizes ids r :
  indexed_ok seen sizes ids → index_shards l sizes ids = Ok r → indexed_ok (seen ++ l) r.1 r.2.
Proof.
  revert seen sizes ids. induction l as [|[id s] l IH]; intros seen sizes ids Hx E; cbn [index_shards] in E.
  { injection E as <-. by rewrite app_nil_r. }
  destruct (negb _); [done|]. apply (IH (seen ++ [(id, s)])) in E; [by rewrite <- app_assoc in E|]. clear E IH.
  destruct Hx as [H1 H2 H4 H3]. constructor.
  - intros c n Hc. apply lookup_insert_Some in Hc as [[<- <-]|[_ Hc]]; [exists (id, s); set_solver|].
    destruct (H1 c n Hc) as (e & He & ?). exists e. set_solver.
  - intros c js i Hc Hi. apply lookup_insert_Some in Hc as [[<- <-]|[_ Hc]].
    + apply elem_of_app in Hi as [Hi|Hi].
      * destruct (ids !! ChainID (chainConfig s)) as [l'|] eqn:E; [|set_solver]. destruct (H2 _ _ _ E Hi) as (e & He & ?). exists e. set_solver.
      * apply list_elem_of_singleton in Hi as ->. exists (id, s). set_solver.
    + destruct (H2 _ _ _ Hc Hi) as (e & He & ?). exists e. set_solver.
  - intros e He. destruct (decide (ChainID (chainConfig e.2) = ChainID (chainConfig s))) as [->|Hne]; [rewrite lookup_insert_eq; eauto|].
    rewrite lookup_insert_ne by done. apply H4. apply elem_of_app in He as [He|He]; [done|]. apply list_elem_of_singleton in He as ->. done.
  - intros c. destruct (decide (c = ChainID (chainConfig s))) as [->|Hne]; [rewrite !lookup_insert_eq; split; eauto|].
    by rewrite !lookup_insert_ne.
Qed.

Lemma check_chains_ok q l c js :
  check_chains q l = Ok tt → (c, js) ∈ l →
  ∃ size, chainIdToShardSize q !! c = Some size ∧ ∀ i, 0 <= i < size → i ∈ js.
Proof.
  induction l as [|[c' js'] l IH]; intros E Hc; [by apply not_elem_of_nil in Hc|]. cbn [check_chains] in E.
  unfold GetShardSizeByChainId in E. destruct (chainIdToShardSize q !! c') as [size|] eqn:Es; [|done].
  destruct (negb _); [done|]. destruct (forallb _ _) eqn:Ef; [|done]. cbn [negb] in E.
  apply elem_of_cons in Hc as [[= -> ->]|Hc]; [|by apply IH]. exists size. split; [done|]. intros i Hi.
  rewrite forallb_forall in Ef. specialize (Ef i). rewrite bool_decide_eq_true in Ef. apply Ef.
  apply list_elem_of_In, elem_of_seqZ. lia.
Qed.

(** A validated chain has all its shards, filed under their ids. *)
Lemma validated_shards root chains q q' c :
  shards q = build_shards root chains → NoDup (ChainID <$> chains) → initAndValidate q = Ok q' →
  shards q' = shards q ∧
  (∀ id s, shards q !! id = Some s → is_Some (chainIdToShardSize q' !! ChainID (chainConfig s))) ∧
  (is_Some (chainIdToShardSize q' !! ChainID c) → c ∈ chains →
   chainIdToShardSize q' !! ChainID c = Some (ShardSize c) ∧
   ∀ i, 0 <= i < ShardSize c → shards q' !! s_GetFullShardId (mkShardConfig i root c) = Some (mkShardConfig i root c)).
Proof.
  intros Hq Hnd E. unfold initAndValidate in E. destruct (check_guardian q); [cbn [mbind result_bind] in E|done|done].
  destruct (index_shards (map_to_list (shards q)) ∅ ∅) as [[sizes ids]|e|e] eqn:Ei; [|done|done]. cbn [mbind result_bind] in E.
  set (q1 := set_defaults _ _ _) in E. destruct (check_chains q1 _) as [[]|e|e] eqn:Ec; [|done|done]. cbn [mbind result_bind] in E.
  destruct (negb _); [done|]. injection E as <-. split; [done|].
  assert (indexed_ok [] ∅ ∅) as H0.
  { constructor; [intros ??|intros ???|intros ? Hx; by apply not_elem_of_nil in Hx|intros ?]; rewrite ?lookup_empty; done. }
  apply (index_shards_ok _ _ _ _ _ H0) in Ei. cbn [app fst snd] in Ei. destruct Ei as [H1 H2 H4 H3].
  split; [intros id s Hs; apply (H4 (id, s)); by apply elem_of_map_to_list|]. intros Hdom Hc.
  assert (∀ e, e ∈ map_to_list (shards q) → ChainID (chainConfig e.2) = ChainID c →
    chainConfig e.2 = c ∧ e.1 = s_GetFullShardId e.2 ∧ rootConfig e.2 = root ∧ shards q !! e.1 = Some e.2) as Hel.
  { intros [id s] He Hid. apply elem_of_map_to_list in He. rewrite Hq in He. destruct (build_shards_of root chains _ _ He) as (Hi & Hin & Hr & _).
    cbn [fst snd] in *. split_and!; [|done|done|by rewrite Hq].
    apply list_elem_of_lookup_1 in Hc as [i1 Hi1]. apply list_elem_of_lookup_1 in Hin as [i2 Hi2].
    assert (i1 = i2) as <-; [|congruence]. eapply NoDup_lookup; [exact Hnd|by rewrite list_lookup_fmap, Hi1|].
    rewrite list_lookup_fmap, Hi2. cbn. by rewrite Hid. }
  assert (chainIdToShardSize q1 !! ChainID c = Some (ShardSize c)) as Hsize.
  { destruct Hdom as [n Hn]. pose proof Hn as Hn'. apply H1 in Hn as (e & He & Hid & <-). destruct (Hel e He Hid) as (Hcc & _). rewrite Hcc in Hn'. exact Hn'. }
  split; [done|]. intros i Hi. destruct (proj1 (H3 (ChainID c)) Hdom) as [js His].
  destruct (check_chains_ok q1 (map_to_list (chainIdToShardIds q1)) (ChainID c) js Ec) as (size & Hs & Hall).
  { by apply elem_of_map_to_list. }
  rewrite Hsize in Hs. injection Hs as <-. destruct (H2 _ _ _ His (Hall i Hi)) as ([id s] & He & Hid & Hsh). destruct (Hel _ He Hid) as (Hcc & Hk & Hr & Hl).
  cbn [fst snd] in *. assert (s = mkShardConfig i root c) as -> by (destruct s; cbn in *; congruence).
  cbn [q1 shards]. by rewrite <- Hk.
Qed.

(** A size that is not a power of two gives two shards the same id. *)
Lemma size_power_of_two size :
  0 < size → (∀ i j, 0 <= i < size → 0 <= j < size → Z.lor size i = Z.lor size j → i = j) → size = 2 ^ Z.log2 size.
Proof.
  intros Hs Hinj. destruct (Z.log2_spec size Hs) as [Hlo Hhi]. destruct (decide (size = 2 ^ Z.log2 size)) as [|Hne]; [done|exfalso].
  set (k := Z.log2 size) in *. assert (0 <= k) by apply Z.log2_nonneg. rewrite Z.pow_succ_r in Hhi by done.
  assert (size - 2 ^ k = 0); [|lia]. apply Hinj; [lia|lia|]. rewrite Z.lor_0_r.
  assert (Z.lor (2 ^ k) (size - 2 ^ k) = size) as E.
  { replace (2 ^ k) with (1 * 2 ^ k) at 1 by lia. rewrite (lor_disjoint_add 1 (size - 2 ^ k) k) by lia. lia. }
  rewrite <- E at 1. rewrite <- Z.lor_assoc, Z.lor_diag. done.
Qed.

Definition chain_bounds (c : ChainConfig) : Prop := 0 <= ChainID c < 2 ^ 16 ∧ 0 < ShardSize c < 2 ^ 16.

Lemma lor_bound a b : 0 <= a < 2 ^ 16 → 0 <= b < 2 ^ 16 → 0 <= Z.lor a b < 2 ^ 16.
Proof.
  intros Ha Hb. assert (0 <= Z.lor a b) by (apply Z.lor_nonneg; lia). split; [done|].
  destruct (decide (Z.lor a b = 0)) as [->|]; [lia|]. apply Z.log2_lt_pow2; [lia|]. rewrite Z.log2_lor by lia.
  assert (∀ x, 0 <= x < 2 ^ 16 → Z.log2 x < 16) as Hl.
  { intros x Hx. destruct (decide (x = 0)) as [->|]; [done|]. apply Z.log2_lt_pow2; lia. }
  pose proof (Hl a Ha). pose proof (Hl b Hb). lia.
Qed.
Lemma full_id_parts s :
  chain_bounds (chainConfig s) → 0 <= ShardID s < ShardSize (chainConfig s) →
  s_GetFullShardId s = ChainID (chainConfig s) * 2 ^ 16 + Z.lor (ShardSize (chainConfig s)) (ShardID s)
  ∧ s_GetFullShardId s / 2 ^ 16 = ChainID (chainConfig s).
Proof.
  intros [Hc Hs] Hi. assert (s_GetFullShardId s = ChainID (chainConfig s) * 2 ^ 16 + Z.lor (ShardSize (chainConfig s)) (ShardID s)) as E.
  { unfold s_GetFullShardId. rewrite shl32_16 by done. rewrite <- Z.lor_assoc. apply lor_disjoint_add; [lia|]. apply lor_bound; lia. }
  split; [done|]. rewrite E. pose proof (lor_bound (ShardSize (chainConfig s)) (ShardID s)). rewrite Z.div_add_l by lia.
  rewrite Z.div_small by lia. lia.
Qed.

(** Every chain has a shard. *)
Lemma build_has root chains c :
  Forall chain_bounds chains → c ∈ chains →
  ∃ id s, build_shards root chains !! id = Some s ∧ ChainID (chainConfig s) = ChainID c.
Proof.
  intros HB. unfold build_shards. set (has := fun m : gmap Z ShardConfig => ∃ id s, m !! id = Some s ∧ ChainID (chainConfig s) = ChainID c).
  rewrite Forall_forall in HB.
  assert (∀ l c' m, c' ∈ chains → (∀ i, i ∈ l → 0 <= i < ShardSize c') → shards_of root chains m → has m ∨ c' = c ∧ l ≠ [] →
    has (foldl (fun m i => let s := mkShardConfig i root c' in <[s_GetFullShardId s := s]> m) m l)) as Hadd.
  { induction l as [|i l IH]; intros c' m Hc' Hl Hm Hh; [by destruct Hh as [Hh|[_ Hh]]|]. cbn [foldl].
    pose proof (Hl i ltac:(set_solver)) as Hi.
    apply IH; [done|set_solver|..].
    - intros id s Hs. apply lookup_insert_Some in Hs as [[<- <-]|[_ Hs]]; [cbn; split_and!; try done; lia|by apply Hm].
    - left. set (s := mkShardConfig i root c'). destruct Hh as [(id & s0 & Hs0 & Hid)|[-> _]]; [|exists (s_GetFullShardId s), s; by rewrite lookup_insert_eq].
      destruct (decide (id = s_GetFullShardId s)) as [->|Hne]; [|exists id, s0; by rewrite lookup_insert_ne].
      exists (s_GetFullShardId s), s. rewrite lookup_insert_eq. split; [done|]. destruct (Hm _ _ Hs0) as (Hk & Hin & _ & Hb0).
      rewrite <- Hid. rewrite <- (proj2 (full_id_parts s0 (HB _ Hin) Hb0)), <- Hk. symmetry. by apply (full_id_parts s (HB _ Hc')). }
  assert (∀ l m, l ⊆ chains → shards_of root chains m → has m ∨ c ∈ l → has (foldl (add_shards root) m l)) as Hfold.
  { induction l as [|c' l IH]; intros m Hl Hm Hh; [by destruct Hh as [Hh|Hh]; [|apply not_elem_of_nil in Hh]|]. cbn [foldl].
    apply IH; [set_solver|apply add_shards_of; [set_solver|done]|].
    assert (c ∈ l ∨ has m ∨ c' = c) as [Hin|Hin] by set_solver; [by right|left]. unfold add_shards.
    apply Hadd; [set_solver|intros i; rewrite elem_of_seqZ; lia|done|]. destruct Hin as [|Hin]; [by left|right]. split; [done|].
    destruct (HB c' ltac:(set_solver)) as [_ Hpos]. rewrite seqZ_cons by lia. done. }
  intros Hc. apply Hfold; [done| |by right]. intros id s Hs. by rewrite lookup_empty in Hs.
Qed.

(** C33: a configuration that passes the checks routes every key, if its chain
    ids are distinct and below 2^16 and its chains have fewer than 2^16 shards,
    which the checks do not ask for: the shards of a chain are a power of two, the
    id computed for a full shard key of the chain is that of one of its shards,
    the key is in that shard's branch, and in the branch of no other shard. *)
Theorem config_routing root chains q q' c key :
  shards q = build_shards root chains → NoDup (ChainID <$> chains) → Forall chain_bounds chains →
  initAndValidate q = Ok q' → c ∈ chains → in_u32 key → key / 2 ^ 16 = ChainID c →
  ∃ k id, ShardSize c = 2 ^ k ∧ GetFullShardIdByFullShardKey q' key = Ok id ∧
    shards q' !! id = Some (mkShardConfig (key mod 2 ^ k) root c) ∧ IsInBranch (NewBranch id) key = true ∧
    (∀ id' s, shards q' !! id' = Some s → IsInBranch (NewBranch id') key = true → id' = id).
Proof.
  intros Hq Hnd HB E Hc Hkey Hchain. pose proof HB as HB'. rewrite Forall_forall in HB'. destruct (HB' c Hc) as [HcI HcS].
  destruct (validated_shards root chains q q' c Hq Hnd E) as (Hsh & Hdom & Hall).
  destruct (build_has root chains c HB Hc) as (id0 & s0 & Hs0 & Hid0). rewrite <- Hq in Hs0. apply Hdom in Hs0. rewrite Hid0 in Hs0.
  destruct (Hall Hs0 Hc) as [Hsize Hshards]. clear Hall.
  assert (ShardSize c = 2 ^ Z.log2 (ShardSize c)) as Hpow.
  { apply size_power_of_two; [lia|]. intros i j Hi Hj Hij. pose proof (Hshards i Hi) as Ei. pose proof (Hshards j Hj) as Ej.
    rewrite (proj1 (full_id_parts (mkShardConfig i root c) (HB' c Hc) Hi)) in Ei. cbn in Ei. rewrite Hij in Ei.
    rewrite (proj1 (full_id_parts (mkShardConfig j root c) (HB' c Hc) Hj)) in Ej. cbn in Ej. rewrite Ei in Ej. by injection Ej. }
  set (k := Z.log2 (ShardSize c)) in *. assert (0 <= k < 16) as Hk.
  { split; [apply Z.log2_nonneg|]. apply Z.log2_lt_pow2; lia. }
  assert (0 < 2 ^ k) as Hp by (apply Z.pow_pos_nonneg; lia). pose proof (Z.mod_pos_bound key (2 ^ k) Hp) as Hmod.
  assert (∀ i, 0 <= i < 2 ^ k → branch_parts (ChainID c) k i) as Hbp by (intros i Hi; split_and!; lia).
  assert (∀ i, 0 <= i < 2 ^ k → s_GetFullShardId (mkShardConfig i root c) = Value (branch_of (ChainID c) k i)) as Hval.
  { intros i Hi. rewrite <- branch_value_lor by auto. unfold s_GetFullShardId. cbn. by rewrite <- Hpow. }
  assert (GetFullShardIdByFullShardKey q' key = Ok (Value (branch_of (ChainID c) k (key mod 2 ^ k)))) as Hget.
  { unfold GetFullShardIdByFullShardKey, GetShardSizeByChainId. rewrite shr16, Hchain, Hsize. cbn [mbind result_bind].
    rewrite Hpow, u32_id by (unfold in_u32; lia). rewrite land_ones_mod by lia. rewrite branch_value_lor by auto. done. }
  exists k, (Value (branch_of (ChainID c) k (key mod 2 ^ k))). split_and!; [done|done| | |].
  - rewrite <- Hval by done. apply Hshards. lia.
  - change (NewBranch _) with (branch_of (ChainID c) k (key mod 2 ^ k)). rewrite IsInBranch_of by auto. by apply bool_decide_eq_true.
  - intros id' s Hs Hin. rewrite Hsh, Hq in Hs. destruct (build_shards_of root chains _ _ Hs) as (Hk' & Hin' & Hr' & Hb').
    pose proof (full_id_parts s (HB' _ Hin') Hb') as [_ Hdiv].
    assert (chainConfig s = c) as Hcc.
    { assert (ChainID (chainConfig s) = ChainID c) as Hcid.
      { unfold IsInBranch in Hin. destruct (bool_decide (shr32 key 16 = GetChainID (NewBranch id'))) eqn:Eb; [|done].
        apply bool_decide_eq_true in Eb. unfold GetChainID in Eb. cbn [Value NewBranch] in Eb. rewrite !shr16 in Eb. rewrite Hk', Hdiv in Eb. lia. }
      apply list_elem_of_lookup_1 in Hc as [i1 Hi1]. apply list_elem_of_lookup_1 in Hin' as [i2 Hi2].
      assert (i1 = i2) as <-; [|congruence]. eapply NoDup_lookup; [exact Hnd|by rewrite list_lookup_fmap, Hi1|].
      rewrite list_lookup_fmap, Hi2. cbn. by rewrite Hcid. }
    assert (s = mkShardConfig (ShardID s) root c) as Es by (destruct s; cbn in *; congruence).
    rewrite Hcc, Hpow in Hb'. rewrite Hk', Es, Hval by (cbn; lia). rewrite Hk', Es, Hval in Hin by (cbn; lia).
    change (NewBranch _) with (branch_of (ChainID c) k (ShardID s)) in Hin. rewrite IsInBranch_of in Hin by (cbn; auto).
    apply bool_decide_eq_true in Hin as [_ Hin]. by rewrite Hin.
Qed.

Definition demo_root_config : RootConfig := mkRootConfig 60 60.
Definition demo_chains : list ChainConfig := [mkChainConfig 0 2 10 (Some (0, 100)) 3; mkChainConfig 1 1 10 (Some (0, 100)) 3].
Definition demo_quark : QuarkChainConfig := mkQuarkChainConfig 2 (build_shards demo_root_config demo_chains) ∅ ∅ [] [] None None 0.
Definition demo_valid : result QuarkChainConfig := initAndValidate demo_quark.

Lemma demo_valid_ok : ∃ q, demo_valid = Ok q.
Proof. vm_compute. eauto. Qed.
Lemma config_routing_witness :
  ∃ q k id, initAndValidate demo_quark = Ok q ∧ 2 = 2 ^ k ∧ GetFullShardIdByFullShardKey q 5 = Ok id ∧ IsInBranch (NewBranch id) 5 = true.
Proof.
  destruct demo_valid_ok as [q E].
  destruct (config_routing demo_root_config demo_chains demo_quark q (mkChainConfig 0 2 10 (Some (0, 100)) 3) 5) as (k & id & Hk & Hid & _ & Hin & _).
  - reflexivity.
  - apply (bool_decide_unpack _). vm_compute. exact I.
  - repeat (constructor; [split; cbn; lia|]). constructor.
  - exact E.
  - by left.
  - split; lia.
  - reflexivity.
  - exists q, k, id. split; [exact E|]. split; [exact Hk|]. split; [exact Hid|exact Hin].
Defined.

(** A chain of 2^16 shards spills into the bits of the chain id: the id of its
    shard 5 is not a branch of chain 0, and no key of the chain is in it. *)
Lemma oversized_chain_misroutes root :
  let s := mkShardConfig 5 root (mkChainConfig 0 (2 ^ 16) 10 None 3) in
  s_GetFullShardId s = 2 ^ 16 + 5 ∧ IsInBranch (NewBranch (s_GetFullShardId s)) 5 = false.
Proof. split; reflexivity. Qed.

(** The check on the chain ids reads a missing chain as 0, so that a
    configuration without chain 0 passes. *)
Lemma missing_chain_0_accepted :
  ∃ q, initAndValidate (mkQuarkChainConfig 2 (build_shards demo_root_config [mkChainConfig 1 1 10 (Some (0, 100)) 3]) ∅ ∅ [] [] None None 0) = Ok q ∧
    GetFullShardIdByFullShardKey q 0 = Err "no such chainID".
Proof. vm_compute. eexists. split; reflexivity. Qed.

(** Each mask of a slave replaces the shards of the masks before it. *)
Lemma last_mask_counts :
  BackWardChainMaskList [mkChainConfig 0 1 10 None 3; mkChainConfig 1 1 10 None 3] [mkSlaveConfig "S0" [] [2; 3]]
  = Ok [mkSlaveConfig "S0" [65537] [2; 3]].
Proof. vm_compute. reflexivity. Qed.

(** ** The shards of the slaves *)

Lemma concat_filter_perm {A} (f : A → Z) (js : list Z) (l : list A) :
  NoDup js → (∀ x, x ∈ l → f x ∈ js) → concat (map (fun j => filter (fun x => f x = j) l) js) ≡ₚ l.
Proof.
  intros Hnd. induction l as [|x l IH]; intros Hl.
  { clear. induction js as [|j js IH]; [done|]. cbn. exact IH. }
  transitivity (x :: concat (map (fun j => filter (fun y => f y = j) l) js)); [|by rewrite (IH ltac:(set_solver))].
  assert (f x ∈ js) as Hx by set_solver. clear IH Hl.
  assert (∀ js, f x ∉ js → concat (map (fun j => filter (fun y => f y = j) (x :: l)) js) = concat (map (fun j => filter (fun y => f y = j) l) js)) as Hskip.
  { clear. induction js as [|j js IH]; [done|]. intros Hj. cbn [map concat]. rewrite IH by set_solver.
    by rewrite filter_cons_False by set_solver. }
  apply list_elem_of_split in Hx as (l1 & l2 & ->). apply NoDup_app in Hnd as (_ & Hd & Hnd). apply NoDup_cons in Hnd as [Hn2 _].
  rewrite !map_app, !concat_app. cbn [map concat]. rewrite filter_cons_True by done.
  rewrite !Hskip by set_solver. by rewrite <- app_comm_cons, <- Permutation_middle.
Qed.

(** The shards are dealt out to the slaves: every shard is on exactly one of
    them, as often as it is in the list. *)
Theorem slaves_partition (l : list Z) n :
  0 < n →
  ∃ ls, mapM (getFullShardIdListFromSlaveIndex l n) (seqZ 0 n) = Ok ls ∧ concat ls ≡ₚ l.
Proof.
  intros Hn. set (L := imap (@pair nat Z) l). set (part := fun i => filter (fun e : nat * Z => Z.rem (Z.of_nat e.1) n = i) L).
  exists (map (fun i => (part i).*2) (seqZ 0 n)). split.
  - generalize (seqZ 0 n). intros js. induction js as [|j js IH]; [done|]. cbn [mapM map].
    assert (getFullShardIdListFromSlaveIndex l n j = Ok (part j).*2) as ->.
    { unfold getFullShardIdListFromSlaveIndex. destruct l; [done|]. by rewrite (proj2 (Z.eqb_neq n 0)) by lia. }
    cbn [mbind result_bind]. by rewrite IH.
  - assert (∀ js : list Z, concat (map (fun i => (part i).*2) js) = (concat (map part js)).*2) as ->.
    { induction js as [|j js IH]; [done|]. cbn [map concat]. by rewrite fmap_app, IH. }
    assert (concat (map part (seqZ 0 n)) ≡ₚ L) as ->; [apply (concat_filter_perm (fun e => Z.rem (Z.of_nat e.1) n) (seqZ 0 n) L)|].
    + apply NoDup_seqZ.
    + intros e _. apply elem_of_seqZ. pose proof (Z.rem_bound_pos (Z.of_nat e.1) n). lia.
    + unfold L. rewrite fmap_imap. apply Permutation_refl', list_eq. intros i. rewrite list_lookup_imap. by destruct (l !! i).
Qed.
Lemma slaves_partition_witness : ∃ ls, mapM (getFullShardIdListFromSlaveIndex [1; 65537; 3] 2) (seqZ 0 2) = Ok ls ∧ concat ls ≡ₚ [1; 65537; 3].
Proof. apply (slaves_partition [1; 65537; 3] 2). lia. Defined.
