(* ===== verification/ByteBuffer.v ===== *)
(** * package serialize: the byte buffer and the primitive readers

    Models src/serialize/bytebuffer.go and the length-prefix writer of
    src/serialize/serializer.go.  Every reader is a state-and-error action on
    the buffer ([SE ByteBuffer]); every writer one on the output slice. *)

From S2P Require Import Prelude.

Local Open Scope Z_scope.

Record ByteBuffer := mkBB { data : list Z; position : Z; size : Z }.

Definition NewByteBuffer (bytes : list Z) : ByteBuffer :=
  mkBB bytes 0 (Z.of_nat (length bytes)).

Definition GetOffset (bb : ByteBuffer) : Z := position bb.

Definition Remaining (bb : ByteBuffer) : Z := size bb - position bb.

(** A Go slice expression with [hi < lo] panics. *)
Definition getBytes (n : Z) : SE ByteBuffer (list Z) := fun bb =>
  if bool_decide (n > size bb - position bb)
  then (Err "deser: buffer is shorter than expected", bb)
  else if bool_decide (n < 0) then (Panic "slice bounds out of range", bb)
  else (Ok (take (Z.to_nat n) (drop (Z.to_nat (position bb)) (data bb))),
        mkBB (data bb) (position bb + n) (size bb)).

Definition GetUInt8 : SE ByteBuffer Z :=
  bytes ← getBytes 1;
  match bytes with
  | b :: _ => mret b
  | [] => se_panic "index out of range"
  end.

(** [binary.BigEndian.UintN] on the bytes just read. *)
Definition GetUInt16 : SE ByteBuffer Z := bytes ← getBytes 2; mret (be_value bytes).
Definition GetUInt32 : SE ByteBuffer Z := bytes ← getBytes 4; mret (be_value bytes).
Definition GetUInt64 : SE ByteBuffer Z := bytes ← getBytes 8; mret (be_value bytes).

(** [size = (size << 8) | int(b[i])] over the bytes, on a 64-bit int. *)
Definition len_acc (b : list Z) : Z :=
  foldl (fun size x => i64 (Z.lor (i64 (Z.shiftl size 8)) x)) 0 b.

Definition getLen (byteSize : Z) : SE ByteBuffer Z :=
  if bool_decide (byteSize < 1)
  then se_err "deser: bytesize in GetVarBytes should larger than 0"
  else if bool_decide (byteSize > 4)
  then se_err "deser: bytesize %d exceeds maximum safe value 4"
  else
    b ← getBytes byteSize;
    let size := len_acc b in
    bb ← se_get;
    if bool_decide (size > Remaining bb)
    then se_err "deser: length %d exceeds remaining buffer %d %s"
    else mret size.

Definition GetVarBytes (byteSizeOfSliceLen : Z) : SE ByteBuffer (list Z) :=
  size ← getLen byteSizeOfSliceLen;
  bs ← getBytes size;
  mret bs.

(** ** Writers *)

(** [w = append(w, bs...)] *)
Definition append (bs : list Z) : SE (list Z) unit := se_mod (fun w => w ++ bs).

(** The loop of [writeListLen], filling the [n] size bytes from the last one
    down until the length is used up; the second component is what is left of
    the length. *)
Fixpoint size_bytes (n : nat) (len : Z) : list Z * Z :=
  match n with
  | O => ([], len)
  | S n' =>
      if bool_decide (len = 0) then (replicate n 0, len)
      else let '(front, rest) := size_bytes n' (Z.shiftr len 8) in
           (front ++ [u8 len], rest)
  end.

Definition writeListLen (len byteSizeOfSliceLen : Z) : SE (list Z) unit :=
  if bool_decide (byteSizeOfSliceLen < 0) then se_panic "makeslice: len out of range"
  else
    let '(sizeBytes, rest) := size_bytes (Z.to_nat byteSizeOfSliceLen) len in
    if bool_decide (rest > 0) then se_err "barray len is larger then expected size"
    else append sizeBytes.

Definition prefillByteArray (size : nat) (barray : list Z) : result (list Z) :=
  let len := length barray in
  if bool_decide (size < len)%nat then Err "barray len is larger then expected size"
  else if bool_decide (len = size) then Ok barray
  else Ok (replicate (size - len) 0 ++ barray).

(** ** The buffer invariant and reading from a known position *)

Definition wf_bb (bb : ByteBuffer) : Prop :=
  size bb = Z.of_nat (length (data bb)) ∧ 0 <= position bb <= size bb ∧ bytes_ok (data bb).

#[export] Instance wf_bb_dec bb : Decision (wf_bb bb).
Proof. unfold wf_bb. apply _. Defined.

(** The buffer [pre ++ rest] with [pre] consumed. *)
Definition at_rest (pre rest : list Z) : ByteBuffer :=
  mkBB (pre ++ rest) (Z.of_nat (length pre)) (Z.of_nat (length (pre ++ rest))).

Lemma NewByteBuffer_at_rest l : NewByteBuffer l = at_rest [] l.
Proof. done. Qed.

Lemma at_rest_wf pre rest : bytes_ok pre → bytes_ok rest → wf_bb (at_rest pre rest).
Proof.
  intros. unfold wf_bb, at_rest. cbn. rewrite length_app. split_and!; try lia.
  by apply bytes_ok_app.
Qed.

Lemma wf_bb_at_rest bb :
  wf_bb bb →
  ∃ pre rest, bb = at_rest pre rest ∧ bytes_ok pre ∧ bytes_ok rest ∧
              Z.of_nat (length pre) = position bb.
Proof.
  destruct bb as [d p n]. intros (Hn & Hp & Hd). cbn in *. subst n.
  exists (take (Z.to_nat p) d), (drop (Z.to_nat p) d). unfold at_rest.
  rewrite take_drop, length_take.
  split_and!; [f_equal; lia|by apply Forall_take|by apply Forall_drop|lia].
Qed.

Lemma Remaining_at_rest pre rest : Remaining (at_rest pre rest) = Z.of_nat (length rest).
Proof. unfold Remaining, at_rest. cbn. rewrite length_app. lia. Qed.

Lemma getBytes_at_rest pre bs rest n :
  n = Z.of_nat (length bs) →
  getBytes n (at_rest pre (bs ++ rest)) = (Ok bs, at_rest (pre ++ bs) rest).
Proof.
  intros ->. unfold getBytes, at_rest. cbn [size position data].
  rewrite !length_app. rewrite bool_decide_false by lia. rewrite bool_decide_false by lia.
  rewrite !Nat2Z.id, drop_app_length, take_app_length.
  do 2 f_equal; [by rewrite app_assoc|lia|lia].
Qed.

Lemma getBytes_short pre rest n :
  n > Z.of_nat (length rest) →
  getBytes n (at_rest pre rest)
  = (Err "deser: buffer is shorter than expected", at_rest pre rest).
Proof.
  intros Hn. unfold getBytes, at_rest. cbn [size position data].
  rewrite length_app, bool_decide_true by lia. done.
Qed.

Lemma len_acc_value b : bytes_ok b → (length b ≤ 7)%nat → len_acc b = be_value b.
Proof.
  induction b as [|x b IH] using rev_ind; [done|]. intros Hb Hlen.
  rewrite length_app in Hlen. cbn in Hlen.
  apply bytes_ok_snoc in Hb as [Hb Hx]. rewrite be_value_snoc.
  unfold len_acc. rewrite foldl_app. cbn [foldl].
  change (foldl _ 0 b) with (len_acc b). rewrite IH by (done || lia).
  pose proof (be_value_bounds b Hb) as Hv.
  assert (256 ^ Z.of_nat (length b) <= 256 ^ 6) by (apply Z.pow_le_mono_r; lia).
  assert (256 ^ 6 = 281474976710656) by reflexivity.
  rewrite (i64_small (Z.shiftl _ 8)) by (rewrite Z.shiftl_mul_pow2 by lia; lia).
  rewrite shl8_lor by done. unfold in_u8 in Hx. rewrite i64_small; lia.
Qed.

Lemma getLen_at_rest pre bs rest :
  bytes_ok bs → (1 ≤ length bs ≤ 4)%nat → be_value bs <= Z.of_nat (length rest) →
  getLen (Z.of_nat (length bs)) (at_rest pre (bs ++ rest))
  = (Ok (be_value bs), at_rest (pre ++ bs) rest).
Proof.
  intros Hb Hlen Hv. unfold getLen.
  rewrite bool_decide_false by lia. rewrite bool_decide_false by lia.
  se_red. rewrite getBytes_at_rest by done.
  rewrite Remaining_at_rest, len_acc_value by (done || lia).
  by rewrite bool_decide_false by lia.
Qed.

Lemma GetVarBytes_at_rest pre bs body rest :
  bytes_ok bs → (1 ≤ length bs ≤ 4)%nat → be_value bs = Z.of_nat (length body) →
  GetVarBytes (Z.of_nat (length bs)) (at_rest pre (bs ++ body ++ rest))
  = (Ok body, at_rest (pre ++ bs ++ body) rest).
Proof.
  intros Hb Hlen Hv. unfold GetVarBytes. se_red.
  rewrite getLen_at_rest by (done || rewrite ?length_app; lia).
  rewrite getBytes_at_rest by done. by rewrite <- app_assoc.
Qed.

(** *** The size bytes *)

Lemma size_bytes_zero n : size_bytes n 0 = (replicate n 0, 0).
Proof. by destruct n. Qed.

Lemma be_bytes_zero n : be_bytes n 0 = replicate n 0.
Proof.
  induction n as [|n IH]; [done|]. cbn [be_bytes].
  rewrite Z.div_0_l, Z.mod_0_l, IH by lia. by rewrite <- replicate_S_end.
Qed.

Lemma size_bytes_spec n len :
  0 <= len → size_bytes n len = (be_bytes n len, len / 256 ^ Z.of_nat n).
Proof.
  revert len. induction n as [|n IH]; intros len Hlen.
  - cbn. by rewrite Z.div_1_r.
  - cbn [size_bytes]. case_bool_decide as H0.
    + subst len. rewrite be_bytes_zero, Z.div_0_l; [done|]. pose proof (pow256_pos (S n)). lia.
    + rewrite IH by (rewrite Z.shiftr_div_pow2 by lia; apply Z.div_pos; lia).
      rewrite Z.shiftr_div_pow2 by lia. change (2 ^ 8) with 256. cbn [be_bytes].
      pose proof (pow256_pos n). rewrite pow256_S, Z.div_div by lia. done.
Qed.

Lemma writeListLen_ok len (n : nat) w :
  0 <= len < 256 ^ Z.of_nat n →
  writeListLen len (Z.of_nat n) w = (Ok tt, w ++ be_bytes n len).
Proof.
  intros Hlen. unfold writeListLen. rewrite bool_decide_false by lia.
  rewrite Nat2Z.id, size_bytes_spec by lia. rewrite Z.div_small by lia. done.
Qed.

Lemma writeListLen_too_long len (n : nat) w :
  256 ^ Z.of_nat n <= len →
  writeListLen len (Z.of_nat n) w = (Err "barray len is larger then expected size", w).
Proof.
  intros Hlen. unfold writeListLen. rewrite bool_decide_false by lia.
  pose proof (pow256_pos n).
  rewrite Nat2Z.id, size_bytes_spec by lia.
  rewrite bool_decide_true; [done|].
  assert (1 <= len / 256 ^ Z.of_nat n) by (apply Z.div_le_lower_bound; lia). lia.
Qed.

Lemma prefill_ok (n : nat) z :
  0 <= z < 256 ^ Z.of_nat n →
  ∃ l, prefillByteArray n (big_Bytes z) = Ok l ∧ length l = n ∧ bytes_ok l ∧ be_value l = z.
Proof.
  intros Hz. unfold prefillByteArray. rewrite length_big_Bytes.
  pose proof (big_len_le z n ltac:(lia)).
  rewrite bool_decide_false by lia.
  pose proof (big_SetBytes_Bytes z) as Hb. unfold big_SetBytes in Hb.
  case_bool_decide as Heq.
  - eexists. split_and!; [done|by rewrite length_big_Bytes|auto with qkc|lia].
  - eexists. split_and!; [done|rewrite length_app, length_replicate, length_big_Bytes; lia| |].
    + apply bytes_ok_app. split; [|auto with qkc]. apply Forall_replicate. unfold in_u8. lia.
    + rewrite be_value_app, Hb. assert (be_value (replicate (n - big_len z) 0) = 0) as ->; [|lia].
      rewrite <- be_bytes_zero, be_value_bytes. apply Z.mod_0_l.
      pose proof (pow256_pos (n - big_len z)). lia.
Qed.

(** ** Safety of the primitive readers

    Reading only moves the position forward inside the buffer, whatever the
    input; in particular a hostile length prefix cannot make [getLen] return
    a length above what is left. *)
Definition safe {A} (Q : A → Prop) (m : SE ByteBuffer A) : Prop :=
  ∀ bb, wf_bb bb →
    let '(r, bb') := m bb in
    is_panic r = false ∧ wf_bb bb' ∧ data bb' = data bb ∧ position bb <= position bb' ∧
    (∀ a, r = Ok a → Q a).

Lemma safe_bind {A B} (Q : A → Prop) (Q' : B → Prop) (m : SE ByteBuffer A) (f : A → SE ByteBuffer B) :
  safe Q m → (∀ a, Q a → safe Q' (f a)) → safe Q' (m ≫= f).
Proof.
  intros Hm Hf bb Hbb. specialize (Hm bb Hbb). se_red.
  destruct (m bb) as [[a|e|e] bb'] eqn:E; destruct Hm as (Hp & Hwf & Hd & Hpos & HQ); [|done|done].
  specialize (Hf a (HQ a eq_refl) bb' Hwf).
  destruct (f a bb') as [r bb'']. destruct Hf as (? & ? & ? & ? & ?).
  split_and!; [done|done|congruence|lia|done].
Qed.

Lemma safe_ret {A} (Q : A → Prop) a : Q a → safe Q (mret a).
Proof. intros HQ bb Hbb. cbn. split; [done|]. split; [done|]. split; [done|]. split; [lia|]. by intros ? [= <-]. Qed.

Lemma safe_err {A} (Q : A → Prop) e : safe Q (se_err e).
Proof. intros bb Hbb. cbn. split_and!; done || lia. Qed.

Lemma safe_lift {A} (Q : A → Prop) (r : result A) :
  is_panic r = false → (∀ a, r = Ok a → Q a) → safe Q (se_lift r).
Proof. intros Hp HQ bb Hbb. cbn. split_and!; done || lia. Qed.

Lemma safe_mono {A} (Q Q' : A → Prop) (m : SE ByteBuffer A) :
  safe Q m → (∀ a, Q a → Q' a) → safe Q' m.
Proof.
  intros Hm HQ bb Hbb. specialize (Hm bb Hbb). destruct (m bb) as [r bb'].
  naive_solver.
Qed.

Lemma getBytes_safe n : 0 <= n → safe (fun l => Z.of_nat (length l) = n ∧ bytes_ok l) (getBytes n).
Proof.
  intros Hn bb (Hs & Hp & Hd). unfold getBytes.
  case_bool_decide; [done|]. rewrite bool_decide_false by lia.
  split_and!; [done| |done|cbn; lia|].
  - unfold wf_bb. cbn. split_and!; [done|lia|lia|done].
  - intros a [= <-]. rewrite length_take, length_drop. split; [lia|by apply Forall_take, Forall_drop].
Qed.

Lemma getBytes_inv n bb a bb' :
  wf_bb bb → getBytes n bb = (Ok a, bb') →
  0 <= n <= Remaining bb ∧ Z.of_nat (length a) = n ∧ bytes_ok a ∧ position bb' = position bb + n.
Proof.
  intros (Hs & Hp & Hd). unfold getBytes, Remaining.
  case_bool_decide; [done|]. case_bool_decide; [done|]. intros [= <- <-]. cbn.
  rewrite length_take, length_drop. split_and!; try lia.
  by apply Forall_take, Forall_drop.
Qed.

Lemma getLen_safe n : safe (fun size => 0 <= size) (getLen n).
Proof.
  unfold getLen. case_bool_decide; [apply safe_err|]. case_bool_decide; [apply safe_err|].
  eapply safe_bind; [apply getBytes_safe; lia|]. intros a [Hlen Hok] bb Hbb.
  rewrite len_acc_value by (done || lia). pose proof (be_value_bounds a Hok).
  se_red. case_bool_decide; cbn; split_and!; try done; try lia. intros ? [= <-]. lia.
Qed.

Lemma getLen_bound n bb size bb' :
  wf_bb bb → getLen n bb = (Ok size, bb') →
  0 <= size <= Remaining bb' ∧ position bb' = position bb + n ∧ 1 <= n <= 4.
Proof.
  intros Hbb. unfold getLen. case_bool_decide; [done|]. case_bool_decide; [done|].
  se_red. destruct (getBytes n bb) as [[a|e|e] bb1] eqn:E; [|done|done].
  destruct (getBytes_inv n bb a bb1 Hbb E) as (Hr & Hlen & Hok & Hpos).
  rewrite len_acc_value by (done || lia). pose proof (be_value_bounds a Hok).
  case_bool_decide; [done|]. intros [= <- <-]. split_and!; lia.
Qed.

Lemma GetVarBytes_bytes n : safe bytes_ok (GetVarBytes n).
Proof.
  unfold GetVarBytes. eapply safe_bind; [apply getLen_safe|]. intros len Hlen.
  eapply safe_bind; [by apply getBytes_safe|]. intros bs [_ Hbs]. by apply safe_ret.
Qed.

(** Reading a length-prefixed byte string is safe on every well-formed
    buffer and every prefix width: it never panics, never moves the position
    outside the buffer or backwards, and when it succeeds the string was in
    the buffer, so no allocation exceeds the input. *)
Theorem GetVarBytes_safe n bb :
  wf_bb bb →
  let '(r, bb') := GetVarBytes n bb in
  is_panic r = false ∧ wf_bb bb' ∧ data bb' = data bb ∧ position bb <= position bb' ∧
  (∀ bs, r = Ok bs → 1 <= n <= 4 ∧ Z.of_nat (length bs) + n = position bb' - position bb).
Proof.
  intros Hbb. unfold GetVarBytes. se_red.
  pose proof (getLen_safe n bb Hbb) as Hs.
  destruct (getLen n bb) as [[len|e|e] bb1] eqn:E; destruct Hs as (? & Hwf1 & Hd1 & Hp1 & _);
    [|cbn; naive_solver|done].
  destruct (getLen_bound n bb len bb1 Hbb E) as (Hlen & Hpos & Hn).
  pose proof (getBytes_safe len ltac:(lia) bb1 Hwf1) as Hs2.
  destruct (getBytes len bb1) as [[bs|e|e] bb2] eqn:E2; destruct Hs2 as (? & Hwf2 & Hd2 & Hp2 & _).
  - destruct (getBytes_inv len bb1 bs bb2 Hwf1 E2) as (? & ? & ? & ?). cbn.
    split_and!; [done|done|congruence|lia|].
    intros bs' [= <-]. split_and!; lia.
  - cbn. split_and!; [done|done|congruence|lia|done].
  - done.
Qed.

Lemma GetVarBytes_safe_witness :
  let '(r, bb') := GetVarBytes 4 (NewByteBuffer [255; 255; 255; 255; 7]) in
  is_panic r = false ∧ wf_bb bb' ∧ data bb' = data (NewByteBuffer [255; 255; 255; 255; 7]) ∧
  position (NewByteBuffer [255; 255; 255; 255; 7]) <= position bb' ∧
  (∀ bs, r = Ok bs → 1 <= 4 <= 4 ∧ Z.of_nat (length bs) + 4
     = position bb' - position (NewByteBuffer [255; 255; 255; 255; 7])).
Proof.
  apply (GetVarBytes_safe 4 (NewByteBuffer [255; 255; 255; 255; 7])).
  apply (bool_decide_unpack _). by vm_compute.
Defined.
