(* ===== verification/Serialize.v ===== *)
(** * package serialize: the reflective serializer

    Models src/serialize/serializer.go, deserializer.go, typecache.go and
    utils.go.  The Go code dispatches on [reflect.Type]; the model has the
    universe [gotype] of the types the dispatch distinguishes and the universe
    [goval] of their values, and translates one function per Go function.  The
    two maps that memoise type information (typeCache, fieldsCache) are
    transparent and are not state of the model.  Recursive struct types are
    outside the universe.

    Addressability ([reflect.Value.CanAddr]) is modelled, because a value whose
    type has its own Serialize method is rejected when it is not addressable:
    what a pointer points to and the elements of a slice are addressable,
    fields and array elements inherit it, a value passed to Serialize and a
    [reflect.Zero] are not. *)

From Stdlib Require Import Ascii.
From S2P Require Import Prelude ByteBuffer.

Local Open Scope Z_scope.

(** ** Types and values *)

Inductive uintkind := KUint8 | KUint16 | KUint32 | KUint64 | KUint | KUintptr.
#[export] Instance uintkind_eq_dec : EqDecision uintkind.
Proof. solve_decision. Defined.

(** A struct field: its name, whether it is exported, and the contents of its
    [ser] and [bytesizeofslicelen] tags. *)
Record fieldspec := mkField {
  f_name : string; f_exported : bool; f_ser : string; f_blen : string }.

Inductive gotype :=
| TUint (k : uintkind)
| TBool
| TString
| TBigInt
| TBigUint (n : nat)            (** Uint128 and Uint256: [n] is 16 or 32 *)
| TSlice (t : gotype)
| TArray (n : nat) (t : gotype)
| TPtr (t : gotype)
| TStruct (fs : list (fieldspec * gotype))
| TOther.                       (** maps, channels, signed integers, ... *)

Inductive goval :=
| VUint (z : Z)
| VBool (b : bool)
| VString (s : list Z)
| VBig (z : Z)
| VBigUint (v : option Z)       (** the [Value] pointer of Uint128/Uint256 *)
| VSeq (l : list goval)         (** slices and arrays *)
| VNil
| VPtr (v : goval)
| VStruct (l : list goval)
| VOther.

Record Tags := mkTags { NilOK : bool; Ignored : bool; ByteSizeOfSliceLen : Z }.

Definition default_tags : Tags := mkTags false false 1.

(** [reflect.Zero] *)
Fixpoint zero_value (t : gotype) : goval :=
  match t with
  | TUint _ => VUint 0
  | TBool => VBool false
  | TString => VString []
  | TBigInt => VBig 0
  | TBigUint _ => VBigUint None
  | TSlice _ => VSeq []
  | TArray n t => VSeq (replicate n (zero_value t))
  | TPtr _ => VNil
  | TStruct fs => VStruct (map (fun ft => zero_value ft.2) fs)
  | TOther => VOther
  end.

Definition isUint (t : gotype) : bool := match t with TUint _ => true | _ => false end.
Definition isByte (t : gotype) : bool := match t with TUint KUint8 => true | _ => false end.
Definition is_slice (t : gotype) : bool := match t with TSlice _ => true | _ => false end.

(** Whether [*t] implements Serializable. *)
Definition has_serialize (t : gotype) : bool := match t with TBigUint _ => true | _ => false end.

(** ** typecache.go *)

(** *** Struct tags: [strings.Split(s, ",")], [TrimSpace], [Atoi] *)

Fixpoint split_comma (s : string) : list string :=
  match s with
  | EmptyString => [EmptyString]
  | String c s' =>
      if Ascii.eqb c ","%char then EmptyString :: split_comma s'
      else match split_comma s' with
           | hd :: tl => String c hd :: tl
           | [] => [String c EmptyString]
           end
  end.

Definition is_space_ascii (c : Ascii.ascii) : bool :=
  let n := Ascii.nat_of_ascii c in
  bool_decide (n = 32 ∨ (9 ≤ n ∧ n ≤ 13))%nat.

Fixpoint trim_left (s : string) : string :=
  match s with
  | String c s' => if is_space_ascii c then trim_left s' else s
  | EmptyString => EmptyString
  end.
Fixpoint trim_right (s : string) : string :=
  match s with
  | EmptyString => EmptyString
  | String c s' =>
      match trim_right s' with
      | EmptyString => if is_space_ascii c then EmptyString else String c EmptyString
      | t => String c t
      end
  end.
Definition TrimSpace (s : string) : string := trim_right (trim_left s).

Fixpoint atoi_digits (s : string) (acc : Z) : option Z :=
  match s with
  | EmptyString => Some acc
  | String c s' =>
      let n := Z.of_nat (Ascii.nat_of_ascii c) in
      if bool_decide (48 <= n ∧ n <= 57) then atoi_digits s' (acc * 10 + (n - 48)) else None
  end.
Definition atoi_nonempty (s : string) : option Z :=
  match s with EmptyString => None | _ => atoi_digits s 0 end.
Definition Atoi (s : string) : result Z :=
  let r := match s with
           | String "-" s' => Z.opp <$> atoi_nonempty s'
           | String "+" s' => atoi_nonempty s'
           | _ => atoi_nonempty s
           end in
  match r with
  | Some z => if bool_decide (- 2 ^ 63 <= z ∧ z < 2 ^ 63) then Ok z else Err "strconv.Atoi: value out of range"
  | None => Err "strconv.Atoi: invalid syntax"
  end.

Definition ser_option (ts : result Tags) (t : string) : result Tags :=
  ts ← ts;
  let t := TrimSpace t in
  if String.eqb t "" then Ok ts
  else if String.eqb t "-" then Ok (mkTags (NilOK ts) true (ByteSizeOfSliceLen ts))
  else if String.eqb t "nil" then Ok (mkTags true (Ignored ts) (ByteSizeOfSliceLen ts))
  else Err "ser: unknown struct tag %q on %v.%s".

Definition blen_option (ts : result Tags) (t : string) : result Tags :=
  ts ← ts;
  let t := TrimSpace t in
  if String.eqb t "" then Ok ts
  else num ← Atoi t; Ok (mkTags (NilOK ts) (Ignored ts) num).

Definition parseStructTag (f : fieldspec) (t : gotype) : result Tags :=
  ts ← foldl ser_option (Ok default_tags) (split_comma (f_ser f));
  if is_slice t then foldl blen_option (Ok ts) (split_comma (f_blen f)) else Ok ts.

(** [genTypeInfo]: makeSerializer and makeDeserializer refuse the same types. *)
Definition genTypeInfo (t : gotype) : result unit :=
  match t with TOther => Err "type %v is not serializable" | _ => Ok tt end.

(** [structFields]: the exported fields that are not ignored, with their index
    and tags; the first bad tag or type is an error. *)
Fixpoint structFields_from (i : nat) (fs : list (fieldspec * gotype)) : result (list (nat * fieldspec * Tags)) :=
  match fs with
  | [] => Ok []
  | (f, t) :: fs' =>
      if f_exported f then
        tags ← parseStructTag f t;
        if Ignored tags then structFields_from (S i) fs'
        else
          genTypeInfo t ≫= fun _ =>
          rest ← structFields_from (S i) fs';
          Ok ((i, f, tags) :: rest)
      else structFields_from (S i) fs'
  end.
Definition structFields (fs : list (fieldspec * gotype)) : result (list (nat * fieldspec * Tags)) :=
  structFields_from 0 fs.

(** ** serializer.go *)

Definition W := SE (list Z).
Definition ill_typed {S A} : SE S A := se_panic "ill-typed value".

Definition serializeFixSizeBigUint (val : option Z) (size : nat) : W unit :=
  match val with
  | None => append (replicate size 0)
  | Some v => bytes ← se_lift (prefillByteArray size (big_Bytes v)); append bytes
  end.

(** Uint128 and Uint256 have pointer-receiver Serialize methods. *)
Definition serializeSerializableInterface (n : nat) (val : goval) (canAddr : bool) : W unit :=
  if negb canAddr then se_err "ser: unaddressable value of type %v, Serialize is pointer method"
  else match val with
       | VBigUint v => serializeFixSizeBigUint v n
       | _ => ill_typed
       end.

(** The length byte is [uint8(len(bytes))]: it wraps above 255 bytes. *)
Definition serializeBigInt (i : Z) : W unit :=
  if bool_decide (i < 0) then se_err "ser: cannot serialize negative *big.Int"
  else
    let bytes := if bool_decide (i > 0) then big_Bytes i else [] in
    append [u8 (Z.of_nat (length bytes))] ≫= fun _ => append bytes.

Definition serializeBool (b : bool) : W unit := append [if b then 1 else 0].

(** The bytes of a byte slice or array value. *)
Fixpoint val_bytes (l : list goval) : option (list Z) :=
  match l with
  | [] => Some []
  | VUint z :: l' => cons z <$> val_bytes l'
  | _ => None
  end.

Definition serializeByteArray (val : goval) : W unit :=
  match val with
  | VSeq l => match val_bytes l with Some bs => append bs | None => ill_typed end
  | _ => ill_typed
  end.

Definition serializeByteSlice (val : goval) (ts : Tags) : W unit :=
  match val with
  | VSeq l =>
      writeListLen (Z.of_nat (length l)) (ByteSizeOfSliceLen ts) ≫= fun _ =>
      match val_bytes l with Some bs => append bs | None => ill_typed end
  | _ => ill_typed
  end.

Fixpoint serialize_elems (ser : goval → W unit) (l : list goval) : W unit :=
  match l with
  | [] => mret tt
  | v :: l' => ser v ≫= fun _ => serialize_elems ser l'
  end.

(** [ser] is the element serializer; slice elements are addressable, array
    elements inherit addressability. *)
Definition serializeList (slice : bool) (elem : gotype) (ser : goval → bool → Tags → W unit)
    (val : goval) (canAddr : bool) (ts : Tags) : W unit :=
  match val with
  | VSeq l =>
      se_lift (genTypeInfo elem) ≫= fun _ =>
      (if slice then writeListLen (Z.of_nat (length l)) (ByteSizeOfSliceLen ts) else mret tt) ≫= fun _ =>
      serialize_elems (fun v => ser v (slice || canAddr) default_tags) l
  | _ => ill_typed
  end.

Fixpoint serialize_fields (sers : list (goval → bool → Tags → W unit)) (vals : list goval)
    (canAddr : bool) (fields : list (nat * fieldspec * Tags)) : W unit :=
  match fields with
  | [] => mret tt
  | (i, _, tags) :: fields' =>
      match sers !! i, vals !! i with
      | Some ser, Some v =>
          ser v canAddr tags ≫= fun _ => serialize_fields sers vals canAddr fields'
      | _, _ => ill_typed
      end
  end.

Definition serializeStruct (fs : list (fieldspec * gotype)) (sers : list (goval → bool → Tags → W unit))
    (val : goval) (canAddr : bool) : W unit :=
  match val with
  | VStruct vals =>
      fields ← se_lift (structFields fs);
      serialize_fields sers vals canAddr fields
  | _ => ill_typed
  end.

(** [SerializeStructWithout] leaves out the fields named in [excludeList]
    (used to hash a header without its seal). *)
Definition SerializeStructWithout (fs : list (fieldspec * gotype))
    (sers : list (goval → bool → Tags → W unit)) (val : goval) (canAddr : bool)
    (excludeList : list string) : W unit :=
  match val with
  | VStruct vals =>
      fields ← se_lift (structFields fs);
      serialize_fields sers vals canAddr
        (filter (fun x => f_name x.1.2 ∉ excludeList) fields)
  | _ => ill_typed
  end.

(** The length of a string is written as a uint32. *)
Definition serializeString (s : list Z) : W unit :=
  append (be_bytes 4 (u32 (Z.of_nat (length s)))) ≫= fun _ => append s.

Definition serializePtr (elem : gotype) (ser : goval → bool → Tags → W unit)
    (val : goval) (ts : Tags) : W unit :=
  se_lift (genTypeInfo elem) ≫= fun _ =>
  match val with
  | VNil =>
      if NilOK ts then append [0]
      else if has_serialize elem then ser (zero_value elem) true ts
      else ser (zero_value elem) false ts
  | VPtr v =>
      (if NilOK ts then append [1] else mret tt) ≫= fun _ => ser v true ts
  | _ => ill_typed
  end.

Definition serializeUint (k : uintkind) (value : Z) : W unit :=
  match k with
  | KUint8 => append [u8 value]
  | KUint16 => append [u8 (Z.shiftr value 8); u8 value]
  | KUint32 => append [u8 (Z.shiftr value 24); u8 (Z.shiftr value 16); u8 (Z.shiftr value 8); u8 value]
  | KUint64 => append [u8 (Z.shiftr value 56); u8 (Z.shiftr value 48); u8 (Z.shiftr value 40);
                       u8 (Z.shiftr value 32); u8 (Z.shiftr value 24); u8 (Z.shiftr value 16);
                       u8 (Z.shiftr value 8); u8 value]
  | KUint => serializeBigInt value
  | KUintptr => se_err "ser: invalid Uint type: %s"
  end.

(** [makeSerializer]: the dispatch. *)
Fixpoint serializer (t : gotype) (val : goval) (canAddr : bool) (ts : Tags) {struct t} : W unit :=
  match t with
  | TPtr t' => serializePtr t' (serializer t') val ts
  | TBigUint n => serializeSerializableInterface n val canAddr
  | TBigInt => match val with VBig i => serializeBigInt i | _ => ill_typed end
  | TUint k => match val with VUint z => serializeUint k z | _ => ill_typed end
  | TBool => match val with VBool b => serializeBool b | _ => ill_typed end
  | TString => match val with VString s => serializeString s | _ => ill_typed end
  | TSlice t' =>
      if isByte t' then serializeByteSlice val ts
      else serializeList true t' (serializer t') val canAddr ts
  | TArray n t' =>
      if isByte t' then serializeByteArray val
      else serializeList false t' (serializer t') val canAddr ts
  | TStruct fs => serializeStruct fs (map (fun ft => serializer ft.2) fs) val canAddr
  | TOther => se_err "type %v is not serializable"
  end.

Definition SerializeWithTags (t : gotype) (val : goval) (ts : Tags) : W unit :=
  se_lift (genTypeInfo t) ≫= fun _ => serializer t val false ts.

Definition Serialize (t : gotype) (val : goval) : W unit := SerializeWithTags t val default_tags.

Definition SerializeToBytes (t : gotype) (val : goval) : result (list Z) :=
  match Serialize t val [] with
  | (Ok _, w) => Ok w
  | (Err e, _) => Err e
  | (Panic e, _) => Panic e
  end.

(** ** deserializer.go

    A deserializer writes into an existing value: fields that are not read
    keep their old contents and a non-nil pointer is written through, so every
    function takes the old value and returns the new one.  On an error the
    partially written target is not part of the result. *)

Definition R := SE ByteBuffer.

Definition uint_bytes (k : uintkind) : option Z :=
  match k with
  | KUint8 => Some 1 | KUint16 => Some 2 | KUint32 => Some 4
  | KUint64 | KUintptr => Some 8
  | KUint => None
  end.

(** [ui = ui<<8 | uint64(bytes[i])] *)
Definition uint_acc (bytes : list Z) : Z :=
  foldl (fun ui b => Z.lor (u64 (Z.shiftl ui 8)) b) 0 bytes.

Definition deserializeUint (k : uintkind) : R goval :=
  bytes ← (match uint_bytes k with
           | Some n => getBytes n
           | None => GetVarBytes 1
           end);
  mret (VUint (uint_acc bytes)).

Definition deserializeFixSizeBigUint (size : nat) : R goval :=
  bytes ← getBytes (Z.of_nat size);
  mret (VBigUint (Some (big_SetBytes bytes))).

Definition deserializeBigInt : R goval :=
  bytes ← GetVarBytes 1;
  mret (VBig (big_SetBytes bytes)).

Definition deserializeBool : R goval :=
  b ← getBytes 1;
  match b with
  | [b0] => if bool_decide (b0 = 0) then mret (VBool false)
            else if bool_decide (b0 = 1) then mret (VBool true)
            else se_err "deser: invalid boolean value: %d"
  | _ => se_panic "index out of range"
  end.

Definition deserializeByteArray (n : nat) : R goval :=
  bytes ← getBytes (Z.of_nat n);
  mret (VSeq (map VUint bytes)).

Definition deserializeByteSlice (ts : Tags) : R goval :=
  bytes ← GetVarBytes (ByteSizeOfSliceLen ts);
  mret (VSeq (map VUint bytes)).

Fixpoint deserialize_elems (deser : goval → R goval) (olds : list goval) : R (list goval) :=
  match olds with
  | [] => mret []
  | o :: olds' =>
      v ← deser o;
      vs ← deserialize_elems deser olds';
      mret (v :: vs)
  end.

(** A slice is remade with [vlen] elements, the old ones copied in. *)
Definition remake_slice (elem : gotype) (vlen : nat) (olds : list goval) : list goval :=
  take vlen olds ++ replicate (vlen - length olds) (zero_value elem).

Definition deserializeList (slice : bool) (elem : gotype) (deser : goval → Tags → R goval)
    (old : goval) (ts : Tags) : R goval :=
  match old with
  | VSeq olds =>
      se_lift (genTypeInfo elem) ≫= fun _ =>
      if slice then
        vlen ← getLen (ByteSizeOfSliceLen ts);
        if bool_decide (vlen < 0) then se_err "deser: invalid negative length %d"
        else
          vs ← deserialize_elems (fun o => deser o default_tags)
                 (remake_slice elem (Z.to_nat vlen) olds);
          mret (VSeq vs)
      else
        vs ← deserialize_elems (fun o => deser o default_tags) olds;
        mret (VSeq vs)
  | _ => ill_typed
  end.

Fixpoint deserialize_fields (desers : list (goval → Tags → R goval)) (vals : list goval)
    (fields : list (nat * fieldspec * Tags)) : R (list goval) :=
  match fields with
  | [] => mret vals
  | (i, _, tags) :: fields' =>
      match desers !! i, vals !! i with
      | Some deser, Some o =>
          v ← deser o tags;
          deserialize_fields desers (<[i:=v]> vals) fields'
      | _, _ => ill_typed
      end
  end.

Definition deserializeStruct (fs : list (fieldspec * gotype)) (desers : list (goval → Tags → R goval))
    (old : goval) : R goval :=
  match old with
  | VStruct vals =>
      fields ← se_lift (structFields fs);
      vals' ← deserialize_fields desers vals fields;
      mret (VStruct vals')
  | _ => ill_typed
  end.

Definition deserializeString : R goval :=
  b ← GetVarBytes 4;
  mret (VString b).

Definition deserializePtr (elem : gotype) (deser : goval → Tags → R goval)
    (old : goval) (ts : Tags) : R goval :=
  se_lift (genTypeInfo elem) ≫= fun _ =>
  let target := match old with VPtr o => Some o | VNil => Some (zero_value elem) | _ => None end in
  match target with
  | None => ill_typed
  | Some o =>
      let into := v ← deser o ts; mret (VPtr v) in
      if NilOK ts then
        b ← GetUInt8;
        if bool_decide (b = 0) then mret VNil else into
      else into
  end.

(** [makeDeserializer]: the dispatch. *)
Fixpoint deserializer (t : gotype) (old : goval) (ts : Tags) {struct t} : R goval :=
  match t with
  | TPtr t' => deserializePtr t' (deserializer t') old ts
  | TBigUint n => deserializeFixSizeBigUint n
  | TBigInt => deserializeBigInt
  | TUint k => deserializeUint k
  | TBool => deserializeBool
  | TString => deserializeString
  | TSlice t' =>
      if isByte t' then deserializeByteSlice ts
      else deserializeList true t' (deserializer t') old ts
  | TArray n t' =>
      if isByte t' then deserializeByteArray n
      else deserializeList false t' (deserializer t') old ts
  | TStruct fs => deserializeStruct fs (map (fun ft => deserializer ft.2) fs) old
  | TOther => se_err "type %v is not serializable"
  end.

(** [DeserializeWithTags] on a non-nil pointer to an old value of type [t]. *)
Definition DeserializeWithTags (t : gotype) (old : goval) (ts : Tags) : R goval :=
  se_lift (genTypeInfo t) ≫= fun _ => deserializer t old ts.

Definition Deserialize (t : gotype) (old : goval) : R goval :=
  DeserializeWithTags t old default_tags.

Definition DeserializeFromBytes (t : gotype) (b : list Z) (old : goval) : result goval :=
  fst (Deserialize t old (NewByteBuffer b)).
