(* ===== verification/SerializeCorrect.v ===== *)
(** * Correctness of the reflective serializer

    The contract of a serializable type ([codec_ok]): writing a value appends
    some bytes and succeeds, and reading those bytes back into any value of
    the type consumes exactly them and yields the written value merged over
    the old one.  It is proved for every type of the universe by induction. *)

From S2P Require Import Prelude ByteBuffer Serialize.

Local Open Scope Z_scope.

(** ** Induction over types, through the fields of structs *)
Section gotype_induction.
Variable P : gotype → Prop.
Hypothesis Huint : ∀ k, P (TUint k).
Hypothesis Hbool : P TBool.
Hypothesis Hstring : P TString.
Hypothesis Hbig : P TBigInt.
Hypothesis Hbiguint : ∀ n, P (TBigUint n).
Hypothesis Hslice : ∀ t, P t → P (TSlice t).
Hypothesis Harray : ∀ n t, P t → P (TArray n t).
Hypothesis Hptr : ∀ t, P t → P (TPtr t).
Hypothesis Hstruct : ∀ fs, Forall (fun ft => P ft.2) fs → P (TStruct fs).
Hypothesis Hother : P TOther.

Fixpoint gotype_ind' (t : gotype) : P t :=
  match t with
  | TUint k => Huint k
  | TBool => Hbool
  | TString => Hstring
  | TBigInt => Hbig
  | TBigUint n => Hbiguint n
  | TSlice t => Hslice t (gotype_ind' t)
  | TArray n t => Harray n t (gotype_ind' t)
  | TPtr t => Hptr t (gotype_ind' t)
  | TStruct fs =>
      Hstruct fs ((fix go fs : Forall (fun ft => P ft.2) fs :=
                     match fs with
                     | [] => Forall_nil_2 _
                     | ft :: fs' => Forall_cons_2 _ ft fs' (gotype_ind' ft.2) (go fs')
                     end) fs)
  | TOther => Hother
  end.
End gotype_induction.

(** ** Typing, serializability and the value read back *)

Definition supported (t : gotype) : bool := is_ok (genTypeInfo t).

(** The tags of a field that is serialized, [None] for one that is skipped. *)
Definition included (f : fieldspec) (t : gotype) : option Tags :=
  if f_exported f then
    match parseStructTag f t with
    | Ok ts => if Ignored ts then None else Some ts
    | _ => None
    end
  else None.

Definition is_byte_val (v : goval) : bool :=
  match v with VUint z => bool_decide (in_u8 z) | _ => false end.

(** Field-wise tests and merges over a struct. *)
Section struct_fields.
Variable test : fieldspec * gotype → goval → bool.
Fixpoint fields_forall (fs : list (fieldspec * gotype)) (l : list goval) : bool :=
  match fs, l with
  | [], [] => true
  | ft :: fs', v :: l' => test ft v && fields_forall fs' l'
  | _, _ => false
  end.

Variable mrg : fieldspec * gotype → goval → goval → goval.
Fixpoint fields_merge (fs : list (fieldspec * gotype)) (l os : list goval) : list goval :=
  match fs, l, os with
  | ft :: fs', v :: l', o :: os' => mrg ft v o :: fields_merge fs' l' os'
  | _, _, _ => []
  end.
End struct_fields.

(** [v] is a Go value of type [t]. *)
Fixpoint typed (t : gotype) (v : goval) {struct t} : bool :=
  match t, v with
  | TUint _, VUint _ | TBool, VBool _ | TString, VString _ | TBigInt, VBig _
  | TBigUint _, VBigUint _ | TOther, VOther | TPtr _, VNil => true
  | TSlice t', VSeq l => forallb (typed t') l
  | TArray n t', VSeq l => bool_decide (length l = n) && forallb (typed t') l
  | TPtr t', VPtr v' => typed t' v'
  | TStruct fs, VStruct l =>
      fields_forall (fun ft v => typed ft.2 v) fs l
  | _, _ => false
  end.

(** Every encoding of a value of [t] under [ts] has at least one byte. *)
Fixpoint consumes (t : gotype) (ts : Tags) {struct t} : bool :=
  match t with
  | TUint _ | TBool | TString | TBigInt | TSlice _ => true
  | TBigUint n => bool_decide (0 < n)%nat
  | TArray n t' => bool_decide (0 < n)%nat && consumes t' default_tags
  | TPtr t' => NilOK ts || consumes t' ts
  | TStruct fs => existsb (fun ft => match included ft.1 ft.2 with
                                     | Some ts' => consumes ft.2 ts'
                                     | None => false
                                     end) fs
  | TOther => false
  end.

Definition uint_ok (k : uintkind) (z : Z) : bool :=
  match k with
  | KUint8 => bool_decide (0 <= z < 2 ^ 8)
  | KUint16 => bool_decide (0 <= z < 2 ^ 16)
  | KUint32 => bool_decide (0 <= z < 2 ^ 32)
  | KUint64 | KUint => bool_decide (0 <= z < 2 ^ 64)
  | KUintptr => false
  end.

(** The values the wire format can represent: lengths that fit their prefix
    (a slice's tag must be 1 to 4 and its elements must not be empty, a big
    integer has at most 255 bytes), non-negative big integers, and no
    unaddressable value with its own Serialize method. *)
Fixpoint ser_ok (t : gotype) (ts : Tags) (canAddr : bool) (v : goval) {struct t} : bool :=
  match t, v with
  | TUint k, VUint z => uint_ok k z
  | TBool, VBool _ => true
  | TString, VString s => bool_decide (bytes_ok s ∧ Z.of_nat (length s) < 2 ^ 32)
  | TBigInt, VBig z => bool_decide (0 <= z ∧ (big_len z ≤ 255)%nat)
  | TBigUint n, VBigUint o =>
      canAddr && match o with Some z => bool_decide (0 <= z < 256 ^ Z.of_nat n) | None => true end
  | TSlice t', VSeq l =>
      bool_decide (1 <= ByteSizeOfSliceLen ts <= 4
                   ∧ Z.of_nat (length l) < 256 ^ ByteSizeOfSliceLen ts) &&
      if isByte t' then forallb is_byte_val l
      else supported t' && consumes t' default_tags && forallb (ser_ok t' default_tags true) l
  | TArray n t', VSeq l =>
      bool_decide (length l = n) &&
      if isByte t' then forallb is_byte_val l
      else supported t' && forallb (ser_ok t' default_tags canAddr) l
  | TPtr t', VNil => supported t' && (NilOK ts || ser_ok t' ts (has_serialize t') (zero_value t'))
  | TPtr t', VPtr v' => supported t' && ser_ok t' ts true v'
  | TStruct fs, VStruct l =>
      is_ok (structFields fs) &&
      fields_forall (fun ft v => match included ft.1 ft.2 with
                                 | Some ts' => ser_ok ft.2 ts' canAddr v
                                 | None => true
                                 end) fs l
  | _, _ => false
  end.

Definition ptr_target (t : gotype) (old : goval) : goval :=
  match old with VPtr o => o | _ => zero_value t end.

Definition seq_elems (v : goval) : list goval := match v with VSeq l => l | _ => [] end.
Definition struct_vals (v : goval) : list goval := match v with VStruct l => l | _ => [] end.

(** What reading back the encoding of [v] into [old] yields: [v], with a nil
    pointer that has no [nil] tag replaced by a pointer to the zero value and
    the skipped fields of structs kept from [old]. *)
Fixpoint merge (t : gotype) (ts : Tags) (v old : goval) {struct t} : goval :=
  match t, v with
  | TBigUint _, VBigUint o => VBigUint (Some (default 0 o))
  | TSlice t', VSeq l =>
      if isByte t' then v
      else VSeq (zip_with (merge t' default_tags) l
                   (remake_slice t' (length l) (seq_elems old)))
  | TArray n t', VSeq l =>
      if isByte t' then v else VSeq (zip_with (merge t' default_tags) l (seq_elems old))
  | TPtr t', VNil => if NilOK ts then VNil
                     else VPtr (merge t' ts (zero_value t') (ptr_target t' old))
  | TPtr t', VPtr v' => VPtr (merge t' ts v' (ptr_target t' old))
  | TStruct fs, VStruct l =>
      VStruct (fields_merge (fun ft v o => match included ft.1 ft.2 with
                                           | Some ts' => merge ft.2 ts' v o
                                           | None => o
                                           end) fs l (struct_vals old))
  | _, _ => v
  end.

(** ** The contract *)
Definition codec_ok (ser : W unit) (deser : goval → R goval) (tp : goval → bool)
    (mrg : goval → goval) (ne : bool) : Prop :=
  ∃ enc, (∀ w, ser w = (Ok tt, w ++ enc)) ∧ bytes_ok enc ∧ (ne = true → enc ≠ []) ∧
    ∀ old pre rest, tp old = true →
      deser old (at_rest pre (enc ++ rest)) = (Ok (mrg old), at_rest (pre ++ enc) rest).

Lemma typed_zero t : typed t (zero_value t) = true.
Proof.
  induction t using gotype_ind'; cbn [typed zero_value]; try done.
  - rewrite length_replicate, bool_decide_true by done. cbn.
    apply forallb_eq_true, Forall_replicate, IHt.
  - induction H as [|ft fs Hft _ IH]; [done|]. cbn [map fields_forall]. by rewrite Hft.
Qed.

Lemma typed_ptr_target t old : typed (TPtr t) old = true → typed t (ptr_target t old) = true.
Proof. destruct old; cbn; try done; intros _; apply typed_zero. Qed.

(** *** Scalars *)

Lemma u8_shiftr v k : 0 <= k → u8 (Z.shiftr v k) = (v / 2 ^ k) mod 256.
Proof. intros. unfold u8. by rewrite Z.shiftr_div_pow2. Qed.

Lemma serializeUint_bytes k n v w :
  uint_bytes k = Some n → k ≠ KUintptr → 0 <= v →
  serializeUint k v w = (Ok tt, w ++ be_bytes (Z.to_nat n) v).
Proof.
  intros Hn Hk Hv. destruct k; try done; injection Hn as <-; unfold serializeUint, append, se_mod;
    rewrite ?u8_shiftr by lia; unfold u8; do 3 f_equal.
  - change (Z.to_nat 4) with 4%nat. cbn [be_bytes app]. rewrite ?Z.div_div by lia. done.
  - change (Z.to_nat 8) with 8%nat. cbn [be_bytes app]. rewrite ?Z.div_div by lia. done.
Qed.

Lemma uint_acc_value b : bytes_ok b → (length b ≤ 8)%nat → uint_acc b = be_value b.
Proof.
  induction b as [|x b IH] using rev_ind; [done|]. intros Hb Hlen.
  rewrite length_app in Hlen. cbn in Hlen.
  apply bytes_ok_snoc in Hb as [Hb Hx]. rewrite be_value_snoc.
  unfold uint_acc. rewrite foldl_app. cbn [foldl].
  change (foldl _ 0 b) with (uint_acc b). rewrite IH by (done || lia).
  pose proof (be_value_bounds b Hb) as Hv.
  assert (256 ^ Z.of_nat (length b) <= 256 ^ 7) by (apply Z.pow_le_mono_r; lia).
  assert (256 ^ 7 = 72057594037927936) by reflexivity.
  rewrite u64_id by (unfold in_u64; rewrite Z.shiftl_mul_pow2 by lia; lia).
  by rewrite shl8_lor.
Qed.

Lemma big_Bytes_head i : 0 <= i → (if bool_decide (i > 0) then big_Bytes i else []) = big_Bytes i.
Proof. intros Hi. case_bool_decide; [done|]. by replace i with 0 by lia. Qed.

(** A length byte and the bytes of a big integer, read back. *)
Lemma serializeBigInt_ok i w :
  0 <= i → (big_len i ≤ 255)%nat →
  serializeBigInt i w = (Ok tt, w ++ [Z.of_nat (big_len i)] ++ big_Bytes i).
Proof.
  intros Hi Hlen. unfold serializeBigInt. rewrite bool_decide_false by lia.
  rewrite big_Bytes_head by done. unfold append. se_red.
  rewrite length_big_Bytes, u8_id by (unfold in_u8; lia). by rewrite <- app_assoc.
Qed.

Lemma GetVarBytes_1 pre body rest :
  (length body ≤ 255)%nat →
  GetVarBytes 1 (at_rest pre (([Z.of_nat (length body)] ++ body) ++ rest))
  = (Ok body, at_rest (pre ++ [Z.of_nat (length body)] ++ body) rest).
Proof.
  intros Hlen. rewrite <- app_assoc.
  apply (GetVarBytes_at_rest pre [Z.of_nat (length body)] body rest); cbn; [|lia|].
  - repeat constructor; lia.
  - unfold be_value. cbn. lia.
Qed.

Lemma codec_bigint z :
  0 <= z → (big_len z ≤ 255)%nat →
  ∃ enc, (∀ w, serializeBigInt z w = (Ok tt, w ++ enc)) ∧ bytes_ok enc ∧ enc ≠ [] ∧
    ∀ pre rest, GetVarBytes 1 (at_rest pre (enc ++ rest)) = (Ok (big_Bytes z), at_rest (pre ++ enc) rest).
Proof.
  intros Hz Hlen. exists ([Z.of_nat (big_len z)] ++ big_Bytes z). split_and!.
  - intros w. by apply serializeBigInt_ok.
  - apply bytes_ok_app. split; [|auto with qkc]. repeat constructor; lia.
  - done.
  - intros pre rest. rewrite <- (length_big_Bytes z). apply GetVarBytes_1.
    by rewrite length_big_Bytes.
Qed.

Lemma codec_uint k z ts ca :
  uint_ok k z = true →
  codec_ok (serializer (TUint k) (VUint z) ca ts) (fun old => deserializer (TUint k) old ts)
    (typed (TUint k)) (fun _ => VUint z) true.
Proof.
  intros Hok. unfold codec_ok. cbn [serializer deserializer]. unfold deserializeUint.
  destruct (uint_bytes k) as [n|] eqn:Hn.
  - assert (k ≠ KUintptr) by (intros ->; done).
    assert (0 <= z < 256 ^ n ∧ 1 <= n <= 8) as [Hz Hn8].
    { destruct k; try done; injection Hn as <-; apply bool_decide_eq_true in Hok;
        (split; [|lia]); done. }
    exists (be_bytes (Z.to_nat n) z). split_and!.
    + intros w. apply serializeUint_bytes; lia || done.
    + auto with qkc.
    + intros _ E. apply (f_equal length) in E. rewrite length_be_bytes in E. cbn in E. lia.
    + intros old pre rest _. se_red.
      rewrite getBytes_at_rest by (rewrite length_be_bytes; lia).
      rewrite uint_acc_value, be_value_bytes by (auto with qkc || rewrite length_be_bytes; lia).
      rewrite Z2Nat.id, Z.mod_small by lia. done.
  - destruct k; try done. apply bool_decide_eq_true in Hok.
    assert (big_len z ≤ 8)%nat as Hl by (apply big_len_le; change (256 ^ Z.of_nat 8) with (2 ^ 64); lia).
    destruct (codec_bigint z) as (enc & Hw & Hb & Hne & Hr); [lia|lia|].
    exists enc. split_and!; [done|done|done|].
    intros old pre rest _. se_red. rewrite Hr.
    rewrite uint_acc_value by (auto with qkc || rewrite length_big_Bytes; lia).
    do 3 f_equal. pose proof (big_SetBytes_Bytes z) as E. unfold big_SetBytes in E. lia.
Qed.

Lemma codec_string s ts ca :
  bytes_ok s → Z.of_nat (length s) < 2 ^ 32 →
  codec_ok (serializer TString (VString s) ca ts) (fun old => deserializer TString old ts)
    (typed TString) (fun _ => VString s) true.
Proof.
  intros Hs Hlen. exists (be_bytes 4 (Z.of_nat (length s)) ++ s). cbn [serializer deserializer].
  split_and!.
  - intros w. unfold serializeString, append. se_red. rewrite u32_id by (unfold in_u32; lia).
    by rewrite <- app_assoc.
  - apply bytes_ok_app. auto with qkc.
  - intros _ E. apply (f_equal length) in E. rewrite length_app, length_be_bytes in E. cbn in E. lia.
  - intros old pre rest _. unfold deserializeString. se_red. rewrite <- app_assoc.
    change 4 with (Z.of_nat 4). rewrite <- (length_be_bytes 4 (Z.of_nat (length s))) at 1.
    rewrite GetVarBytes_at_rest; [done|auto with qkc|rewrite length_be_bytes; lia|].
    rewrite be_value_bytes. apply Z.mod_small. change (256 ^ Z.of_nat 4) with (2 ^ 32). lia.
Qed.

Lemma codec_bool b ts ca :
  codec_ok (serializer TBool (VBool b) ca ts) (fun old => deserializer TBool old ts)
    (typed TBool) (fun _ => VBool b) true.
Proof.
  exists [if b then 1 else 0]. split_and!; [done| |done|].
  - destruct b; repeat constructor; lia.
  - intros old pre rest _. cbn [deserializer]. unfold deserializeBool. se_red.
    rewrite getBytes_at_rest by done. by destruct b.
Qed.

Lemma codec_biguint n o ts :
  match o with Some z => 0 <= z < 256 ^ Z.of_nat n | None => True end →
  codec_ok (serializer (TBigUint n) (VBigUint o) true ts) (fun old => deserializer (TBigUint n) old ts)
    (typed (TBigUint n)) (fun _ => VBigUint (Some (default 0 o))) (bool_decide (0 < n)%nat).
Proof.
  intros Hz. cbn [serializer deserializer]. unfold serializeSerializableInterface. cbn [negb].
  assert (∃ l, (∀ w, serializeFixSizeBigUint o n w = (Ok tt, w ++ l)) ∧ length l = n ∧ bytes_ok l
               ∧ be_value l = default 0 o) as (l & Hw & Hl & Hb & Hv).
  { destruct o as [z|]; cbn [default].
    - destruct (prefill_ok n z Hz) as (l & Hp & ? & ? & ?). exists l. split_and!; try done.
      intros w. unfold serializeFixSizeBigUint, append. rewrite Hp. done.
    - exists (replicate n 0). split_and!; [done|apply length_replicate| |].
      + apply Forall_replicate. unfold in_u8. lia.
      + rewrite <- be_bytes_zero, be_value_bytes. apply Z.mod_0_l. pose proof (pow256_pos n). lia. }
  exists l. split_and!; [done|done| |].
  - intros Hn ->. apply bool_decide_eq_true in Hn. cbn in Hl. lia.
  - intros old pre rest _. unfold deserializeFixSizeBigUint. se_red.
    rewrite getBytes_at_rest by (by rewrite Hl). unfold big_SetBytes. by rewrite Hv.
Qed.

(** *** Byte slices and arrays *)

Lemma byte_vals l :
  forallb is_byte_val l = true → ∃ bs, val_bytes l = Some bs ∧ bytes_ok bs ∧ l = map VUint bs.
Proof.
  induction l as [|v l IH]; intros Hl; [by exists []; repeat constructor|].
  cbn in Hl. apply andb_true_iff in Hl as [Hv Hl].
  destruct v as [z| | | | | | | | |]; try done. cbn in Hv. apply bool_decide_eq_true in Hv.
  destruct (IH Hl) as (bs & Hbs & Hok & ->). exists (z :: bs). cbn. rewrite Hbs. split_and!; [done| |done].
  by constructor.
Qed.

Lemma codec_byteslice l ts ca :
  1 <= ByteSizeOfSliceLen ts <= 4 → Z.of_nat (length l) < 256 ^ ByteSizeOfSliceLen ts →
  forallb is_byte_val l = true →
  codec_ok (serializer (TSlice (TUint KUint8)) (VSeq l) ca ts)
    (fun old => deserializer (TSlice (TUint KUint8)) old ts)
    (typed (TSlice (TUint KUint8))) (fun _ => VSeq l) true.
Proof.
  intros Hbl Hlen Hbytes. destruct (byte_vals l Hbytes) as (bs & Hvb & Hok & ->).
  rewrite length_map in Hlen.
  destruct (Z_of_nat_complete (ByteSizeOfSliceLen ts)) as [n Hn]; [lia|]. rewrite Hn in *.
  exists (be_bytes n (Z.of_nat (length bs)) ++ bs). cbn [serializer deserializer isByte]. split_and!.
  - intros w. unfold serializeByteSlice, append. rewrite Hn, length_map, Hvb. se_red.
    rewrite writeListLen_ok by lia. by rewrite <- app_assoc.
  - apply bytes_ok_app. auto with qkc.
  - intros _ E. apply (f_equal length) in E. rewrite length_app, length_be_bytes in E. cbn in E. lia.
  - intros old pre rest _. unfold deserializeByteSlice. rewrite Hn. se_red. rewrite <- app_assoc.
    rewrite <- (length_be_bytes n (Z.of_nat (length bs))) at 1.
    rewrite GetVarBytes_at_rest; [done|auto with qkc|rewrite length_be_bytes; lia|].
    rewrite be_value_bytes. apply Z.mod_small. lia.
Qed.

Lemma codec_bytearray n l ts ca :
  length l = n → forallb is_byte_val l = true →
  codec_ok (serializer (TArray n (TUint KUint8)) (VSeq l) ca ts)
    (fun old => deserializer (TArray n (TUint KUint8)) old ts)
    (typed (TArray n (TUint KUint8))) (fun _ => VSeq l) (bool_decide (0 < n)%nat).
Proof.
  intros Hlen Hbytes. destruct (byte_vals l Hbytes) as (bs & Hvb & Hok & ->).
  rewrite length_map in Hlen. exists bs. cbn [serializer deserializer isByte]. split_and!.
  - intros w. unfold serializeByteArray, append. by rewrite Hvb.
  - done.
  - intros Hn ->. apply bool_decide_eq_true in Hn. cbn in Hlen. lia.
  - intros old pre rest _. unfold deserializeByteArray. se_red.
    by rewrite getBytes_at_rest by (by rewrite Hlen).
Qed.

(** *** Lists of elements *)

Lemma codec_elems ser deser tp mrg ne l :
  Forall (fun v => codec_ok (ser v) deser tp (mrg v) ne) l →
  ∃ enc, (∀ w, serialize_elems ser l w = (Ok tt, w ++ enc)) ∧ bytes_ok enc ∧
    (ne = true → length l ≤ length enc)%nat ∧
    ∀ olds pre rest, length olds = length l → Forall (fun o => tp o = true) olds →
      deserialize_elems deser olds (at_rest pre (enc ++ rest))
      = (Ok (zip_with mrg l olds), at_rest (pre ++ enc) rest).
Proof.
  induction 1 as [|v l (e & Hw & Hb & Hne & Hr) _ (enc & IHw & IHb & IHne & IHr)].
  - exists []. split_and!; [intros w; by rewrite app_nil_r|constructor|done|].
    intros [|? ?] pre rest Hlen _; [|done]. cbn. by rewrite app_nil_r.
  - exists (e ++ enc). cbn [serialize_elems]. split_and!.
    + intros w. se_red. rewrite Hw, IHw. by rewrite app_assoc.
    + by apply bytes_ok_app.
    + intros Hn. rewrite length_app. specialize (Hne Hn). specialize (IHne Hn).
      destruct e; [done|]. cbn [length]. lia.
    + intros [|o olds] pre rest Hlen Hf; [done|]. apply Forall_cons in Hf as [Ho Hf].
      cbn [deserialize_elems zip_with]. se_red. rewrite <- !app_assoc, Hr by done.
      rewrite IHr by (done || by injection Hlen). by rewrite <- app_assoc.
Qed.

Lemma typed_remake t n olds :
  Forall (fun o => typed t o = true) olds →
  length (remake_slice t n olds) = n ∧ Forall (fun o => typed t o = true) (remake_slice t n olds).
Proof.
  intros Hf. unfold remake_slice. split.
  - rewrite length_app, length_take, length_replicate. lia.
  - apply Forall_app. split; [by apply Forall_take|apply Forall_replicate, typed_zero].
Qed.

(** ** The contract for every type *)
Definition type_ok (t : gotype) : Prop :=
  ∀ ts ca v, ser_ok t ts ca v = true →
    codec_ok (serializer t v ca ts) (fun old => deserializer t old ts) (typed t)
      (merge t ts v) (consumes t ts).

Lemma supported_ok t : supported t = true → genTypeInfo t = Ok tt.
Proof. unfold supported. by destruct t. Qed.

Lemma elems_from_type t ts ca l :
  type_ok t → forallb (ser_ok t ts ca) l = true →
  Forall (fun v => codec_ok (serializer t v ca ts) (fun o => deserializer t o ts) (typed t)
                     (merge t ts v) (consumes t ts)) l.
Proof. intros Ht Hl. apply forallb_eq_true in Hl. eapply Forall_impl; [done|]. intros v Hv. by apply Ht. Qed.

Lemma isByte_eq t : isByte t = true → t = TUint KUint8.
Proof. destruct t as [[]| | | | | | | | |]; done. Qed.

Lemma slice_ok t : type_ok t → type_ok (TSlice t).
Proof.
  intros IH ts ca v Hok. destruct v as [| | | | |l| | | |]; try done. cbn [ser_ok consumes] in *.
  apply andb_true_iff in Hok as [Hbl Hok]. apply bool_decide_eq_true in Hbl as [Hbl Hlen].
  destruct (isByte t) eqn:Hb.
  { apply isByte_eq in Hb as ->. by apply codec_byteslice. }
  apply andb_true_iff in Hok as [Hok Hl]. apply andb_true_iff in Hok as [Hsup Hcons].
  destruct (codec_elems _ _ _ _ _ l (elems_from_type t default_tags true l IH Hl))
    as (enc & Hw & Hbytes & Hne & Hr).
  specialize (Hne Hcons).
  destruct (Z_of_nat_complete (ByteSizeOfSliceLen ts)) as [n Hn]; [lia|]. rewrite Hn in *.
  exists (be_bytes n (Z.of_nat (length l)) ++ enc). cbn [serializer deserializer merge].
  rewrite Hb. unfold serializeList, deserializeList. rewrite supported_ok by done. rewrite Hn.
  split_and!.
  - intros w. se_red. rewrite writeListLen_ok by lia. cbn [orb]. rewrite Hw. by rewrite app_assoc.
  - apply bytes_ok_app. auto with qkc.
  - intros _ E. apply (f_equal length) in E. rewrite length_app, length_be_bytes in E. cbn in E. lia.
  - intros old pre rest Hold. destruct old as [| | | | |olds| | | |]; try done.
    cbn [typed] in Hold. apply forallb_eq_true in Hold. se_red. rewrite <- app_assoc.
    rewrite <- (length_be_bytes n (Z.of_nat (length l))) at 1.
    assert (be_value (be_bytes n (Z.of_nat (length l))) = Z.of_nat (length l)) as Hv.
    { rewrite be_value_bytes. apply Z.mod_small. lia. }
    rewrite getLen_at_rest, Hv; [|auto with qkc|rewrite length_be_bytes; lia|
                                  rewrite ?Hv, length_app; lia].
    rewrite bool_decide_false by lia. rewrite Nat2Z.id.
    destruct (typed_remake t (length l) olds Hold) as [Hlr Htr].
    rewrite Hr by done. by rewrite <- app_assoc.
Qed.

Lemma array_ok n t : type_ok t → type_ok (TArray n t).
Proof.
  intros IH ts ca v Hok. destruct v as [| | | | |l| | | |]; try done. cbn [ser_ok consumes] in *.
  apply andb_true_iff in Hok as [Hlen Hok]. apply bool_decide_eq_true in Hlen.
  destruct (isByte t) eqn:Hb.
  { apply isByte_eq in Hb as ->. rewrite andb_true_r. by apply codec_bytearray. }
  apply andb_true_iff in Hok as [Hsup Hl].
  destruct (codec_elems _ _ _ _ _ l (elems_from_type t default_tags ca l IH Hl))
    as (enc & Hw & Hbytes & Hne & Hr).
  exists enc. cbn [serializer deserializer merge].
  rewrite Hb. unfold serializeList, deserializeList. rewrite supported_ok by done.
  split_and!.
  - intros w. se_red. cbn [orb]. by rewrite Hw.
  - done.
  - intros Hc ->. apply andb_true_iff in Hc as [Hn Hc]. apply bool_decide_eq_true in Hn.
    specialize (Hne Hc). cbn in Hne. lia.
  - intros old pre rest Hold. destruct old as [| | | | |olds| | | |]; try done.
    cbn [typed] in Hold. apply andb_true_iff in Hold as [Hlo Hold].
    apply bool_decide_eq_true in Hlo. apply forallb_eq_true in Hold. se_red.
    rewrite Hr by (done || congruence). done.
Qed.

Lemma ptr_into t ts v :
  supported t = true →
  codec_ok (serializer t v true ts) (fun old => deserializer t old ts) (typed t)
    (merge t ts v) (consumes t ts) →
  codec_ok (serializer (TPtr t) (VPtr v) false ts) (fun old => deserializer (TPtr t) old ts)
    (typed (TPtr t)) (fun old => VPtr (merge t ts v (ptr_target t old))) (NilOK ts || consumes t ts).
Proof.
  intros Hsup (enc & Hw & Hb & Hne & Hr). exists ((if NilOK ts then [1] else []) ++ enc).
  cbn [serializer deserializer]. unfold serializePtr, deserializePtr, append.
  rewrite supported_ok by done. split_and!.
  - intros w. se_red. destruct (NilOK ts); rewrite Hw; by rewrite <- ?app_assoc.
  - apply bytes_ok_app. split; [|done]. destruct (NilOK ts); repeat constructor; lia.
  - intros Hc. destruct (NilOK ts); [done|]. by apply Hne.
  - intros old pre rest Hold. pose proof (typed_ptr_target t old Hold) as Ht.
    assert (∃ o, match old with VPtr o => Some o | VNil => Some (zero_value t) | _ => None end = Some o
                 ∧ o = ptr_target t old) as (o & -> & ->) by (destruct old; naive_solver).
    se_red. destruct (NilOK ts).
    + unfold GetUInt8. se_red. rewrite <- app_assoc.
      rewrite getBytes_at_rest by done. rewrite bool_decide_false by done.
      rewrite Hr by done. by rewrite <- app_assoc.
    + cbn [app]. by rewrite Hr by done.
Qed.

Lemma ptr_ok t : type_ok t → type_ok (TPtr t).
Proof.
  intros IH ts ca v Hok. destruct v as [| | | | | | |v| |]; try done; cbn [ser_ok consumes] in *;
    apply andb_true_iff in Hok as [Hsup Hok].
  - destruct (NilOK ts) eqn:Hnil.
    + exists [0]. cbn [serializer deserializer merge].
      unfold serializePtr, deserializePtr, append. rewrite supported_ok, Hnil by done.
      split_and!; [done|repeat constructor; lia|done|].
      intros old pre rest Hold. se_red.
      assert (∃ o, match old with VPtr o => Some o | VNil => Some (zero_value t) | _ => None end = Some o)
        as (o & ->) by (destruct old; naive_solver).
      unfold GetUInt8. se_red. by rewrite getBytes_at_rest by done.
    + cbn [orb] in *.
      destruct (IH ts (has_serialize t) (zero_value t) Hok) as (enc & Hw & Hb & Hne & Hr).
      exists enc. cbn [serializer deserializer merge]. unfold serializePtr, deserializePtr.
      rewrite supported_ok, Hnil by done. split_and!; [|done|done|].
      * intros w. se_red. destruct (has_serialize t); apply Hw.
      * intros old pre rest Hold. pose proof (typed_ptr_target t old Hold) as Ht.
        assert (∃ o, match old with VPtr o => Some o | VNil => Some (zero_value t) | _ => None end = Some o
                     ∧ o = ptr_target t old) as (o & -> & ->) by (destruct old; naive_solver).
        se_red. by rewrite Hr.
  - exact (ptr_into t ts v Hsup (IH ts true v Hok)).
Qed.

(** *** Structs *)

Definition field_ok (ca : bool) (ft : fieldspec * gotype) (v : goval) : bool :=
  match included ft.1 ft.2 with Some ts' => ser_ok ft.2 ts' ca v | None => true end.
Definition field_merge (ft : fieldspec * gotype) (v o : goval) : goval :=
  match included ft.1 ft.2 with Some ts' => merge ft.2 ts' v o | None => o end.
Definition field_consumes (ft : fieldspec * gotype) : bool :=
  match included ft.1 ft.2 with Some ts' => consumes ft.2 ts' | None => false end.

(** What [structFields] does with one field. *)
Lemma structFields_cons i f t fs fields :
  structFields_from i ((f, t) :: fs) = Ok fields →
  match included f t with
  | Some ts => ∃ rest, fields = (i, f, ts) :: rest ∧ structFields_from (S i) fs = Ok rest
  | None => structFields_from (S i) fs = Ok fields
  end.
Proof.
  cbn [structFields_from]. unfold included. destruct (f_exported f); [|done].
  destruct (parseStructTag f t) as [ts|e|e]; se_red; [|done|done].
  destruct (Ignored ts); [done|]. destruct (genTypeInfo t) as [[]|e|e]; se_red; [|done|done].
  destruct (structFields_from (S i) fs) as [rest|e|e]; [|done|done]. intros [= <-]. eauto.
Qed.

Lemma map_lookup_middle {A B} (h : A → B) pf ft fs :
  map h (pf ++ ft :: fs) !! length pf = Some (h ft).
Proof. rewrite map_app. apply list_lookup_middle. by rewrite length_map. Qed.

Lemma snoc_app {B} (x : list B) y z : x ++ y :: z = (x ++ [y]) ++ z.
Proof. by rewrite <- app_assoc. Qed.

(** The fields from position [length pf] on. *)
Definition fields_contract (pf fs : list (fieldspec * gotype)) (ca : bool)
    (fields : list (nat * fieldspec * Tags)) (vp vs : list goval) : Prop :=
  ∃ enc,
    (∀ w, serialize_fields (map (fun ft => serializer ft.2) (pf ++ fs)) (vp ++ vs) ca fields w
          = (Ok tt, w ++ enc)) ∧ bytes_ok enc ∧ (existsb field_consumes fs = true → enc ≠ []) ∧
    ∀ op os pre rest, length op = length pf → fields_forall (fun ft v => typed ft.2 v) fs os = true →
      deserialize_fields (map (fun ft => deserializer ft.2) (pf ++ fs)) (op ++ os) fields
        (at_rest pre (enc ++ rest))
      = (Ok (op ++ fields_merge field_merge fs vs os), at_rest (pre ++ enc) rest).

Lemma fields_skip pf f t fs ca fields vp v vs :
  included f t = None →
  fields_contract (pf ++ [(f, t)]) fs ca fields (vp ++ [v]) vs →
  fields_contract pf ((f, t) :: fs) ca fields vp (v :: vs).
Proof.
  intros Hinc (enc & Hw & Hb & Hne & Hr). exists enc. cbn [fields_merge]. split_and!.
  - intros w. rewrite (snoc_app pf), (snoc_app vp). apply Hw.
  - done.
  - cbn [existsb]. unfold field_consumes at 1. cbn [fst snd]. by rewrite Hinc.
  - intros op [|o os] pre rest Hop Hos; [done|]. cbn [fields_forall snd] in Hos.
    apply andb_true_iff in Hos as [Ho Hos].
    rewrite (snoc_app pf), (snoc_app op), Hr by (done || rewrite !length_app; cbn; lia).
    unfold field_merge at 2. cbn [fst snd]. rewrite Hinc. by rewrite <- app_assoc.
Qed.

Lemma fields_step pf f t fs ca ts fields vp v vs :
  included f t = Some ts → length vp = length pf →
  codec_ok (serializer t v ca ts) (fun old => deserializer t old ts) (typed t)
    (merge t ts v) (consumes t ts) →
  fields_contract (pf ++ [(f, t)]) fs ca fields (vp ++ [v]) vs →
  fields_contract pf ((f, t) :: fs) ca ((length pf, f, ts) :: fields) vp (v :: vs).
Proof.
  intros Hinc Hvp (e & Hew & Heb & Hene & Her) (enc & Hw & Hb & Hne & Hr).
  exists (e ++ enc). cbn [serialize_fields deserialize_fields fields_merge]. split_and!.
  - intros w. rewrite map_lookup_middle, list_lookup_middle by congruence.
    cbn [snd]. se_red. rewrite Hew, (snoc_app pf), (snoc_app vp), Hw. by rewrite app_assoc.
  - by apply bytes_ok_app.
  - cbn [existsb]. unfold field_consumes at 1. cbn [fst snd]. rewrite Hinc.
    intros [Hc|Hc]%orb_true_iff E; apply app_eq_nil in E as [-> ->]; naive_solver.
  - intros op [|o os] pre rest Hop Hos; [done|]. cbn [fields_forall snd] in Hos.
    apply andb_true_iff in Hos as [Ho Hos].
    rewrite map_lookup_middle, list_lookup_middle by congruence.
    cbn [snd]. se_red. rewrite <- app_assoc, Her by done.
    rewrite insert_app_r_alt by lia. rewrite Hop, Nat.sub_diag. cbn [insert list_insert].
    rewrite (snoc_app pf), (snoc_app op), Hr by (done || rewrite !length_app; cbn; lia).
    unfold field_merge at 2. cbn [fst snd]. rewrite Hinc. by rewrite <- !app_assoc.
Qed.

Lemma fields_codec pf fs ca fields vp vs :
  Forall (fun ft => type_ok ft.2) fs →
  structFields_from (length pf) fs = Ok fields → length vp = length pf →
  fields_forall (field_ok ca) fs vs = true →
  fields_contract pf fs ca fields vp vs.
Proof.
  intros Hty. revert pf fields vp vs.
  induction Hty as [|[f t] fs Ht _ IH]; intros pf fields vp vs Hsf Hvp Hok.
  - destruct vs; [|done]. injection Hsf as <-. exists [].
    split_and!; [intros w; by rewrite (app_nil_r w)|constructor|done|].
    intros op [|? ?] pre rest Hop Hos; [|done]. cbn. by rewrite !app_nil_r.
  - destruct vs as [|v vs]; [done|]. cbn [fields_forall] in Hok.
    apply andb_true_iff in Hok as [Hv Hok]. apply structFields_cons in Hsf.
    assert (S (length pf) = length (pf ++ [(f, t)])) as Hlen by (rewrite length_app; cbn; lia).
    assert (length (vp ++ [v]) = length (pf ++ [(f, t)])) by (rewrite !length_app; cbn; lia).
    unfold field_ok in Hv. cbn [fst snd] in Hv, Ht.
    destruct (included f t) as [ts|] eqn:Hinc.
    + destruct Hsf as (frest & -> & Hsf). rewrite Hlen in Hsf.
      apply fields_step; [done|done|by apply Ht|by apply IH].
    + rewrite Hlen in Hsf. apply fields_skip; [done|by apply IH].
Qed.

Lemma struct_ok fs : Forall (fun ft => type_ok ft.2) fs → type_ok (TStruct fs).
Proof.
  intros Hty ts ca v Hok. destruct v as [| | | | | | | |vs|]; try done. cbn [ser_ok consumes] in *.
  apply andb_true_iff in Hok as [Hsf Hok].
  destruct (structFields fs) as [fields|e|e] eqn:E; [|done|done].
  destruct (fields_codec [] fs ca fields [] vs Hty E eq_refl Hok) as (enc & Hw & Hb & Hne & Hr).
  exists enc. cbn [serializer deserializer merge]. unfold serializeStruct, deserializeStruct.
  rewrite E. split_and!; [|done|exact Hne|].
  - intros w. se_red. apply Hw.
  - intros old pre rest Hold. destruct old as [| | | | | | | |os|]; try done.
    cbn [typed] in Hold. se_red. cbn [struct_vals].
    change os with ([] ++ os) at 1. by rewrite Hr.
Qed.

Lemma all_types_ok t : type_ok t.
Proof.
  induction t using gotype_ind'; intros.
  - intros ts ca v Hok. destruct v; try done. by apply codec_uint.
  - intros ts ca v Hok. destruct v; try done. apply codec_bool.
  - intros ts ca v Hok. destruct v; try done. cbn in Hok.
    apply bool_decide_eq_true in Hok as [? ?]. by apply codec_string.
  - intros ts ca v Hok. destruct v as [| | |z| | | | | |]; try done. cbn [ser_ok] in Hok.
    apply bool_decide_eq_true in Hok as [Hz Hl].
    destruct (codec_bigint z Hz Hl) as (enc & Hw & Hb & Hne & Hr).
    exists enc. split_and!; [done|done|done|]. intros old pre rest _. cbn [deserializer].
    unfold deserializeBigInt. se_red. rewrite Hr, big_SetBytes_Bytes, Z.abs_eq by done. done.
  - intros ts ca v Hok. destruct v as [| | | |o| | | | |]; try done. cbn [ser_ok] in Hok.
    apply andb_true_iff in Hok as [-> Hok]. apply codec_biguint.
    destruct o; [by apply bool_decide_eq_true in Hok|done].
  - by apply slice_ok.
  - by apply array_ok.
  - by apply ptr_ok.
  - by apply struct_ok.
  - intros ts ca v Hok. by destruct v.
Qed.

(** C23: round trip of the wire format.  For every type and every value the
    format can represent, Serialize succeeds, and Deserialize of the result,
    into any old value of the type and with any bytes following, consumes
    exactly those bytes and returns the value (merged over the old one where
    the format does not carry a field). *)
Theorem serialize_roundtrip t v old :
  supported t = true → ser_ok t default_tags false v = true → typed t old = true →
  ∃ enc, (∀ w, Serialize t v w = (Ok tt, w ++ enc)) ∧ bytes_ok enc ∧
    ∀ pre rest, Deserialize t old (at_rest pre (enc ++ rest))
                = (Ok (merge t default_tags v old), at_rest (pre ++ enc) rest).
Proof.
  intros Hsup Hok Hold.
  destruct (all_types_ok t default_tags false v Hok) as (enc & Hw & Hb & _ & Hr).
  exists enc. unfold Serialize, SerializeWithTags, Deserialize, DeserializeWithTags.
  rewrite supported_ok by done. split_and!.
  - intros w. se_red. apply Hw.
  - done.
  - intros pre rest. se_red. by apply Hr.
Qed.

(** A record of the kind the cluster sends: an optional pointer, a counted
    list with a 4-byte prefix, a 256-bit amount, a name, a skipped field. *)
Definition sample_type : gotype :=
  TPtr (TStruct [(mkField "Id" true "" "", TUint KUint32);
                 (mkField "Next" true "nil" "", TPtr TBigInt);
                 (mkField "Items" true "" "4", TSlice (TPtr (TUint KUint16)));
                 (mkField "Amount" true "" "", TPtr (TBigUint 32));
                 (mkField "Name" true "" "", TString);
                 (mkField "cache" false "" "", TUint KUint64);
                 (mkField "Skipped" true "-" "", TBool)]).
Definition sample_value : goval :=
  VPtr (VStruct [VUint 513; VNil; VSeq [VPtr (VUint 7); VNil]; VNil; VString [113; 107; 99]; VUint 9; VBool true]).

Lemma serialize_roundtrip_witness :
  ∃ enc, (∀ w, Serialize sample_type sample_value w = (Ok tt, w ++ enc)) ∧ bytes_ok enc ∧
    ∀ pre rest, Deserialize sample_type VNil (at_rest pre (enc ++ rest))
                = (Ok (merge sample_type default_tags sample_value VNil), at_rest (pre ++ enc) rest).
Proof. apply (serialize_roundtrip sample_type sample_value VNil); by vm_compute. Defined.

(** ** Robustness of the reader on arbitrary input *)

Lemma typed_fields_lookup fs vs i :
  fields_forall (fun ft v => typed ft.2 v) fs vs = true →
  (i < length fs)%nat → ∃ ft v, fs !! i = Some ft ∧ vs !! i = Some v ∧ typed ft.2 v = true.
Proof.
  revert vs i. induction fs as [|ft fs IH]; intros [|v vs] i Hf Hi; try (cbn in *; done || lia).
  cbn [fields_forall] in Hf. apply andb_true_iff in Hf as [Hv Hf].
  destruct i as [|i]; [eauto|]. cbn in Hi. destruct (IH vs i Hf) as (ft' & v' & ? & ? & ?); [lia|eauto].
Qed.

Lemma typed_fields_insert fs vs i ft v :
  fields_forall (fun ft v => typed ft.2 v) fs vs = true →
  fs !! i = Some ft → typed ft.2 v = true →
  fields_forall (fun ft v => typed ft.2 v) fs (<[i:=v]> vs) = true.
Proof.
  revert vs i. induction fs as [|ft' fs IH]; intros [|v' vs] i Hf Hi Hv; try done.
  cbn [fields_forall] in Hf. apply andb_true_iff in Hf as [Hv' Hf].
  destruct i as [|i]; cbn [insert list_insert fields_forall] in *.
  - injection Hi as ->. by rewrite Hv, Hf.
  - rewrite Hv'. by apply IH.
Qed.

Lemma Atoi_no_panic s : is_panic (Atoi s) = false.
Proof.
  unfold Atoi. set (r := match s with EmptyString => _ | String _ _ => _ end).
  destruct r; [by case_bool_decide|done].
Qed.

Lemma parseStructTag_no_panic f t : is_panic (parseStructTag f t) = false.
Proof.
  assert (∀ l r, is_panic r = false → is_panic (foldl ser_option r l) = false) as H1.
  { induction l as [|x l IH]; intros r Hr; [done|]. cbn [foldl]. apply IH.
    unfold ser_option. destruct r; se_red; [|done|done]. by repeat case_match. }
  assert (∀ l r, is_panic r = false → is_panic (foldl blen_option r l) = false) as H2.
  { induction l as [|x l IH]; intros r Hr; [done|]. cbn [foldl]. apply IH.
    unfold blen_option. destruct r; se_red; [|done|done].
    case_match; [done|]. pose proof (Atoi_no_panic (TrimSpace x)). by destruct (Atoi (TrimSpace x)). }
  unfold parseStructTag. specialize (H1 (split_comma (f_ser f)) (Ok default_tags) eq_refl).
  destruct (foldl ser_option _ _); se_red; [|done|done]. case_match; [by apply H2|done].
Qed.

(** [structFields] does not panic, and its indices are in range. *)
Lemma structFields_from_ok i fs :
  is_panic (structFields_from i fs) = false ∧
  ∀ fields, structFields_from i fs = Ok fields →
    Forall (fun x : nat * fieldspec * Tags => i ≤ x.1.1 < i + length fs)%nat fields.
Proof.
  revert i. induction fs as [|[f t] fs IH]; intros i.
  - split; [done|]. intros fields [= <-]. constructor.
  - cbn [length]. destruct (IH (S i)) as [IHp IHi]. split.
    + cbn [structFields_from]. destruct (f_exported f); [|done].
      pose proof (parseStructTag_no_panic f t) as Hp.
      destruct (parseStructTag f t) as [ts|e|e]; se_red; [|done|done].
      destruct (Ignored ts); [done|]. destruct t; se_red; try done;
        by destruct (structFields_from (S i) fs).
    + intros fields Hf. apply structFields_cons in Hf. destruct (included f t).
      * destruct Hf as (rest & -> & Hf). constructor; [cbn; lia|].
        eapply Forall_impl; [by apply IHi|]. cbn. lia.
      * eapply Forall_impl; [by apply IHi|]. cbn. lia.
Qed.

Lemma typed_bytes t bs : isByte t = true → forallb (typed t) (map VUint bs) = true.
Proof. intros Ht. apply isByte_eq in Ht as ->. apply forallb_eq_true. induction bs; by constructor. Qed.

Lemma elems_safe (deser : goval → R goval) t olds :
  (∀ o, typed t o = true → safe (fun v => typed t v = true) (deser o)) →
  Forall (fun o => typed t o = true) olds →
  safe (fun vs => length vs = length olds ∧ Forall (fun v => typed t v = true) vs)
    (deserialize_elems deser olds).
Proof.
  intros Hd. induction 1 as [|o olds Ho _ IH]; [by apply safe_ret|]. cbn [deserialize_elems].
  eapply safe_bind; [by apply Hd|]. intros v Hv.
  eapply safe_bind; [exact IH|]. intros vs [Hlen Hvs]. apply safe_ret.
  cbn. split; [lia|by constructor].
Qed.

Lemma fields_safe fs fields vals :
  Forall (fun ft => ∀ ts old, typed ft.2 old = true →
            safe (fun v => typed ft.2 v = true) (deserializer ft.2 old ts)) fs →
  Forall (fun x : nat * fieldspec * Tags => x.1.1 < length fs)%nat fields →
  fields_forall (fun ft v => typed ft.2 v) fs vals = true →
  safe (fun vs => fields_forall (fun ft v => typed ft.2 v) fs vs = true)
    (deserialize_fields (map (fun ft => deserializer ft.2) fs) vals fields).
Proof.
  intros Hty Hfields. revert vals.
  induction Hfields as [|[[i f] ts] fields Hi _ IH]; intros vals Hvals; [by apply safe_ret|].
  cbn [deserialize_fields]. cbn in Hi.
  destruct (typed_fields_lookup fs vals i Hvals Hi) as (ft & v & Hft & Hv & Htv).
  change (map ?h fs) with (h <$> fs). rewrite list_lookup_fmap, Hft, Hv. cbn [fmap option_fmap option_map].
  rewrite Forall_lookup in Hty. eapply safe_bind; [by apply (Hty i)|]. intros v' Hv'.
  apply IH. by eapply typed_fields_insert.
Qed.

Lemma deserializer_safe t ts old :
  typed t old = true → safe (fun v => typed t v = true) (deserializer t old ts).
Proof.
  revert ts old. induction t using gotype_ind'; intros ts old Hold; cbn [deserializer].
  - unfold deserializeUint. destruct (uint_bytes k) as [n|] eqn:E.
    + eapply safe_bind; [apply getBytes_safe; destruct k; try done; injection E as <-; lia|].
      intros bs _. by apply safe_ret.
    + eapply safe_bind; [apply GetVarBytes_bytes|]. intros bs _. by apply safe_ret.
  - unfold deserializeBool. eapply safe_bind; [by apply getBytes_safe|]. intros bs [Hl _].
    destruct bs as [|b0 [|]]; cbn in Hl; try lia.
    repeat case_bool_decide; [by apply safe_ret|by apply safe_ret|apply safe_err].
  - unfold deserializeString. eapply safe_bind; [apply GetVarBytes_bytes|]. intros bs _. by apply safe_ret.
  - unfold deserializeBigInt. eapply safe_bind; [apply GetVarBytes_bytes|]. intros bs _. by apply safe_ret.
  - unfold deserializeFixSizeBigUint. eapply safe_bind; [apply getBytes_safe; lia|].
    intros bs _. by apply safe_ret.
  - destruct old as [| | | | |olds| | | |]; try done. cbn [typed] in Hold.
    destruct (isByte t) eqn:Hb.
    { unfold deserializeByteSlice. eapply safe_bind; [apply GetVarBytes_bytes|]. intros bs _.
      apply safe_ret. by apply typed_bytes. }
    unfold deserializeList. eapply safe_bind; [apply (safe_lift (fun _ => True)); [by destruct t|done]|].
    intros _ _. eapply safe_bind; [apply getLen_safe|]. intros n Hn. cbn in Hn.
    rewrite bool_decide_false by lia. apply forallb_eq_true in Hold.
    destruct (typed_remake t (Z.to_nat n) olds Hold) as [_ Hr].
    eapply safe_bind; [by apply (elems_safe _ t); [intros o Ho; apply IHt|]|].
    intros vs [_ Hvs]. apply safe_ret. by apply forallb_eq_true.
  - destruct old as [| | | | |olds| | | |]; try done. cbn [typed] in Hold.
    apply andb_true_iff in Hold as [Hlen Hold]. apply bool_decide_eq_true in Hlen.
    destruct (isByte t) eqn:Hb.
    { unfold deserializeByteArray. eapply safe_bind; [apply getBytes_safe; lia|]. intros bs [Hl _].
      apply safe_ret. cbn [typed]. rewrite length_map, bool_decide_true by lia. by apply typed_bytes. }
    unfold deserializeList. eapply safe_bind; [apply (safe_lift (fun _ => True)); [by destruct t|done]|].
    intros _ _. apply forallb_eq_true in Hold.
    eapply safe_bind; [by apply (elems_safe _ t); [intros o Ho; apply IHt|]|].
    intros vs [Hl Hvs]. apply safe_ret. cbn [typed].
    rewrite bool_decide_true by congruence. by apply forallb_eq_true.
  - unfold deserializePtr. eapply safe_bind; [apply (safe_lift (fun _ => True)); [by destruct t|done]|].
    intros _ _. pose proof (typed_ptr_target t old Hold) as Ht.
    assert (∃ o, match old with VPtr o => Some o | VNil => Some (zero_value t) | _ => None end = Some o
                 ∧ o = ptr_target t old) as (o & -> & ->) by (destruct old; naive_solver).
    assert (safe (fun v => typed (TPtr t) v = true)
              (deserializer t (ptr_target t old) ts ≫= fun v => mret (VPtr v))) as Hinto.
    { eapply safe_bind; [by apply IHt|]. intros v Hv. by apply safe_ret. }
    cbv zeta. destruct (NilOK ts); [|exact Hinto].
    eapply (safe_bind (fun _ => True)).
    + unfold GetUInt8. eapply safe_bind; [by apply getBytes_safe|]. intros bs [Hl _].
      destruct bs; [done|by apply safe_ret].
    + intros b _. case_bool_decide; [by apply safe_ret|exact Hinto].
  - destruct old as [| | | | | | | |os|]; try done. cbn [typed] in Hold.
    unfold deserializeStruct. destruct (structFields_from_ok 0 fs) as [Hp Hi].
    eapply safe_bind; [by apply safe_lift; [exact Hp|exact Hi]|]. intros fields Hf.
    eapply safe_bind; [apply fields_safe; [exact H| |exact Hold]|].
    { eapply Forall_impl; [exact Hf|]. cbn. lia. }
    intros vs Hvs. by apply safe_ret.
  - apply safe_err.
Qed.

(** C24: deserializing arbitrary bytes is safe.  Whatever the input, reading a
    value of a type into a value of that type never panics (no out-of-range
    access, no nil dereference, no failed type assertion), leaves the position
    inside the buffer, and yields a value of the type or an error. *)
Theorem deserialize_safe t b old :
  typed t old = true → bytes_ok b →
  let '(r, bb') := Deserialize t old (NewByteBuffer b) in
  is_panic r = false ∧ 0 <= position bb' <= Z.of_nat (length b) ∧
  (∀ v, r = Ok v → typed t v = true).
Proof.
  intros Hold Hb. rewrite NewByteBuffer_at_rest.
  assert (safe (fun v => typed t v = true) (Deserialize t old)) as Hs.
  { unfold Deserialize, DeserializeWithTags.
    eapply safe_bind; [apply (safe_lift (fun _ => True)); [by destruct t|done]|].
    intros _ _. by apply deserializer_safe. }
  specialize (Hs (at_rest [] b) (at_rest_wf [] b ltac:(constructor) Hb)).
  destruct (Deserialize t old (at_rest [] b)) as [r bb'].
  destruct Hs as (Hp & (Hs1 & Hs2 & _) & Hd & _ & HQ).
  split_and!; [done|lia| |done]. rewrite Hs1, Hd in Hs2. cbn in Hs2. lia.
Qed.

Lemma deserialize_safe_witness :
  let '(r, bb') := Deserialize sample_type VNil (NewByteBuffer [0; 0; 2; 1; 1; 255; 3]) in
  is_panic r = false ∧ 0 <= position bb' <= Z.of_nat (length [0; 0; 2; 1; 1; 255; 3]) ∧
  (∀ v, r = Ok v → typed sample_type v = true).
Proof.
  apply (deserialize_safe sample_type [0; 0; 2; 1; 1; 255; 3] VNil);
    [by vm_compute|apply (bool_decide_unpack _); by vm_compute].
Defined.

(** ** Two edges of the format *)

Lemma empty_struct_elems n w :
  serialize_elems (fun v => serializer (TStruct []) v true default_tags) (replicate n (VStruct [])) w
  = (Ok tt, w).
Proof. induction n as [|n IH]; [done|]. cbn [replicate serialize_elems]. se_red. apply IH. Qed.

(** The length guard of getLen assumes that every list element takes at
    least one byte.  A slice of 1 to 255 elements of an empty type serializes,
    but the bytes it serializes to are then rejected. *)
Theorem empty_element_slice_rejected n :
  (1 ≤ n ≤ 255)%nat →
  SerializeToBytes (TSlice (TStruct [])) (VSeq (replicate n (VStruct []))) = Ok [Z.of_nat n] ∧
  DeserializeFromBytes (TSlice (TStruct [])) [Z.of_nat n] (VSeq [])
  = Err "deser: length %d exceeds remaining buffer %d %s".
Proof.
  intros Hn. split.
  - unfold SerializeToBytes, Serialize, SerializeWithTags. se_red. cbn [genTypeInfo serializer isByte].
    unfold serializeList. se_red. cbn [genTypeInfo ByteSizeOfSliceLen default_tags].
    rewrite length_replicate.
    pose proof (writeListLen_ok (Z.of_nat n) 1 []) as E.
    change (Z.of_nat 1) with 1 in E. rewrite E by (change (256 ^ 1) with 256; lia).
    cbn [orb]. rewrite empty_struct_elems. cbn [app be_bytes]. rewrite Z.mod_small by lia. done.
  - unfold DeserializeFromBytes, Deserialize, DeserializeWithTags. se_red.
    cbn [genTypeInfo deserializer isByte]. unfold deserializeList. se_red.
    cbn [genTypeInfo ByteSizeOfSliceLen default_tags]. rewrite NewByteBuffer_at_rest.
    unfold getLen. rewrite bool_decide_false by lia. rewrite bool_decide_false by lia. se_red.
    pose proof (getBytes_at_rest [] [Z.of_nat n] [] 1 eq_refl) as E. cbn [app] in E. rewrite E.
    rewrite Remaining_at_rest, len_acc_value by (cbn; try lia; repeat constructor; lia).
    rewrite bool_decide_true; [done|]. unfold be_value. cbn. lia.
Qed.

Lemma empty_element_slice_witness :
  SerializeToBytes (TSlice (TStruct [])) (VSeq (replicate 2 (VStruct []))) = Ok [Z.of_nat 2] ∧
  DeserializeFromBytes (TSlice (TStruct [])) [Z.of_nat 2] (VSeq [])
  = Err "deser: length %d exceeds remaining buffer %d %s".
Proof. apply (empty_element_slice_rejected 2). lia. Defined.

(** The length of a big integer is written as one byte without a check.
    A 256-byte integer is accepted by Serialize with the length byte 0, and
    reading it back yields 0 and leaves its 256 bytes in the buffer. *)
Theorem long_bigint_not_preserved z :
  256 ^ 255 <= z < 256 ^ 256 →
  SerializeToBytes TBigInt (VBig z) = Ok (0 :: big_Bytes z) ∧
  Deserialize TBigInt (VBig 0) (NewByteBuffer (0 :: big_Bytes z))
  = (Ok (VBig 0), at_rest [0] (big_Bytes z)).
Proof.
  intros Hz.
  assert (big_len z = 256%nat) as Hlen.
  { apply Nat.le_antisymm; [apply big_len_le; rewrite Z.abs_eq by lia; exact (proj2 Hz)|].
    destruct (decide (big_len z ≤ 255)%nat) as [Hle|]; [|lia].
    pose proof (big_len_bound z). rewrite Z.abs_eq in * by lia.
    assert (256 ^ Z.of_nat (big_len z) <= 256 ^ 255) by (apply Z.pow_le_mono_r; lia). lia. }
  assert (0 < 256 ^ 255) by (apply Z.pow_pos_nonneg; lia).
  split.
  - unfold SerializeToBytes, Serialize, SerializeWithTags. se_red. cbn [genTypeInfo serializer].
    unfold serializeBigInt. rewrite bool_decide_false by lia.
    rewrite bool_decide_true by lia. rewrite length_big_Bytes, Hlen. done.
  - unfold Deserialize, DeserializeWithTags. se_red. cbn [genTypeInfo deserializer].
    unfold deserializeBigInt. se_red. rewrite NewByteBuffer_at_rest.
    pose proof (GetVarBytes_1 [] [] (big_Bytes z) ltac:(cbn; lia)) as E. cbn [app length] in E.
    change (Z.of_nat 0) with 0 in E. by rewrite E.
Qed.

Lemma long_bigint_witness :
  SerializeToBytes TBigInt (VBig (256 ^ 255)) = Ok (0 :: big_Bytes (256 ^ 255)) ∧
  Deserialize TBigInt (VBig 0) (NewByteBuffer (0 :: big_Bytes (256 ^ 255)))
  = (Ok (VBig 0), at_rest [0] (big_Bytes (256 ^ 255))).
Proof.
  apply (long_bigint_not_preserved (256 ^ 255)).
  split; [apply Z.le_refl|apply Z.pow_lt_mono_r; lia].
Defined.
