(* ===== verification/LLRB.v ===== *)
(** * consensus/qkchash: the indexed left-leaning red-black tree

    Models src/consensus/qkchash/llrb.go.  A [*Node] is [Nil] or a node; the
    tree owns its nodes, so pointer updates are rebuilds.  Every function runs
    in the state-and-error monad over [rotationStats], the four words in which
    the tree records its rotations; dereferencing nil and the explicit panics
    are [Panic]s.  The deletions recurse into trees they have just rotated, so
    they carry fuel: the number of nodes plus one is enough, because every
    recursive call is on a subtree with fewer nodes. *)

From S2P Require Import Prelude.

Local Open Scope Z_scope.

Definition Null_Value : Z := 2 ^ 64 - 1.

Inductive node :=
| Nil
| Node (Value Index : Z) (Left Right : node) (Black : bool).

Record llrb := mkTree { size : Z; root : node; rotationStats : list Z }.

(** [new(llrb)] *)
Definition new_llrb : llrb := mkTree 0 Nil [0; 0; 0; 0].

Local Abbreviation T := (SE (list Z)).
Definition nil_deref {A} : T A := se_panic "invalid memory address or nil pointer dereference".

Definition is_nil (h : node) : bool := match h with Nil => true | _ => false end.

Definition isRed (h : node) : bool :=
  match h with Nil => false | Node _ _ _ _ b => negb b end.

Definition flip_color (h : node) : T node :=
  match h with Nil => nil_deref | Node v i l r b => mret (Node v i l r (negb b)) end.

Definition flip (h : node) : T node :=
  match h with
  | Nil => nil_deref
  | Node v i l r b => l' ← flip_color l; r' ← flip_color r; mret (Node v i l' r' (negb b))
  end.

(** The carry loop of a rotation: each word is shifted left by one, taking the
    top bit of the previous word. *)
Fixpoint shift_stats (c : Z) (stats : list Z) : list Z * Z :=
  match stats with
  | [] => ([], c)
  | x :: rest =>
      let nc := if bool_decide (Z.land x (2 ^ 63) = 0) then 0 else 1 in
      let '(rest', c') := shift_stats nc rest in
      (Z.lxor (u64 (Z.shiftl x 1)) c :: rest', c')
  end.

Definition rotate_stats (c : Z) (stats : list Z) : list Z :=
  let '(stats', c') := shift_stats c stats in
  match stats' with [] => [] | x :: rest => Z.lxor x c' :: rest end.

Definition rotateLeft (h : node) : T node :=
  match h with
  | Node v i l (Node xv xi xl xr xb) b =>
      if xb then se_panic "rotating a black link"
      else se_mod (rotate_stats 0) ≫= fun _ =>
           mret (Node xv (xi + (i + 1)) (Node v i l xl false) xr b)
  | _ => nil_deref
  end.

Definition rotateRight (h : node) : T node :=
  match h with
  | Node v i (Node xv xi xl xr xb) r b =>
      if xb then se_panic "rotating a black link"
      else se_mod (rotate_stats 1) ≫= fun _ =>
           mret (Node xv xi xl (Node v (i - (xi + 1)) xr r false) b)
  | _ => nil_deref
  end.

(** Field reads that dereference. *)
Definition Left_of (h : node) : T node :=
  match h with Nil => nil_deref | Node _ _ l _ _ => mret l end.
Definition Right_of (h : node) : T node :=
  match h with Nil => nil_deref | Node _ _ _ r _ => mret r end.
Definition set_Right (h r : node) : T node :=
  match h with Nil => nil_deref | Node v i l _ b => mret (Node v i l r b) end.

(** [isRed(h.Left) && isRed(h.Left.Left)], evaluated from the left. *)
Definition left_left_red (h : node) : T bool :=
  l ← Left_of h;
  if isRed l then ll ← Left_of l; mret (isRed ll) else mret false.

(** [!isRed(x) && !isRed(x.Left)] *)
Definition no_red_to_borrow (x : node) : T bool :=
  if isRed x then mret false else xl ← Left_of x; mret (negb (isRed xl)).

Definition both_red (h : node) : T bool :=
  l ← Left_of h; r ← Right_of h; mret (isRed l && isRed r).

Definition moveRedLeft (h : node) : T node :=
  h ← flip h;
  r ← Right_of h;
  rl ← Left_of r;
  if isRed rl then
    r' ← rotateRight r;
    h ← set_Right h r';
    h ← rotateLeft h;
    flip h
  else mret h.

Definition moveRedRight (h : node) : T node :=
  h ← flip h;
  l ← Left_of h;
  ll ← Left_of l;
  if isRed ll then h ← rotateRight h; flip h else mret h.

(** The two tests that end both [insert] and [fixUp]. *)
Definition rebalance (h : node) : T node :=
  b ← left_left_red h;
  h ← (if (b : bool) then rotateRight h else mret h);
  b ← both_red h;
  if (b : bool) then flip h else mret h.

Definition fixUp (h : node) : T node :=
  r ← Right_of h;
  h ← (if isRed r then rotateLeft h else mret h);
  rebalance h.

Fixpoint insert (h : node) (value : Z) : T (node * Z) :=
  match h with
  | Nil => mret (Node value 0 Nil Nil false, Null_Value)
  | Node v i l r b =>
      hr ← (if bool_decide (value < v) then
              lr ← insert l value;
              let i' := if bool_decide (lr.2 = Null_Value) then i + 1 else i in
              mret (Node v i' lr.1 r b, lr.2)
            else if bool_decide (v < value) then
              rr ← insert r value;
              mret (Node v i l rr.1 b, rr.2)
            else mret (Node value i l r b, v));
      let '(h, replaced) := (hr : node * Z) in
      r' ← Right_of h;
      l' ← Left_of h;
      h ← (if isRed r' && negb (isRed l') then rotateLeft h else mret h);
      h ← rebalance h;
      mret (h, replaced)
  end.

Fixpoint deleteMin (fuel : nat) (h : node) : T (node * Z) :=
  match fuel with
  | O => se_panic "out of fuel"
  | S fuel =>
      match h with
      | Nil => mret (Nil, Null_Value)
      | Node v _ Nil _ _ => mret (Nil, v)
      | Node _ _ l _ _ =>
          m ← no_red_to_borrow l;
          h ← (if (m : bool) then moveRedLeft h else mret h);
          match (h : node) with
          | Nil => nil_deref
          | Node v i l r b =>
              lr ← deleteMin fuel l;
              h ← fixUp (Node v (i - 1) lr.1 r b);
              mret (h, lr.2)
          end
      end
  end.

(** [delete] and [deleteAt] take the same steps; they differ in how they
    compare the target with a node. *)
Fixpoint delete (fuel : nat) (h : node) (value : Z) : T (node * Z) :=
  match fuel with
  | O => se_panic "out of fuel"
  | S fuel =>
      match h with
      | Nil => mret (Nil, Null_Value)
      | Node v i l r b =>
          if bool_decide (value < v) then
            match l with
            | Nil => mret (h, Null_Value)
            | _ =>
                m ← no_red_to_borrow l;
                h ← (if (m : bool) then moveRedLeft h else mret h);
                match (h : node) with
                | Nil => nil_deref
                | Node v i l r b =>
                    ld ← delete fuel l value;
                    let i' := if bool_decide (ld.2 = Null_Value) then i else i - 1 in
                    h ← fixUp (Node v i' ld.1 r b);
                    mret (h, ld.2)
                end
            end
          else
            h ← (if isRed l then rotateRight h else mret h);
            match (h : node) with
            | Nil => nil_deref
            | Node v1 _ _ r1 _ =>
                if bool_decide (v1 = value) && is_nil r1 then mret (Nil, v1)
                else
                  m ← (match r1 with Nil => mret false | _ => no_red_to_borrow r1 end);
                  h ← (if (m : bool) then moveRedRight h else mret h);
                  match (h : node) with
                  | Nil => nil_deref
                  | Node v2 i2 l2 r2 b2 =>
                      if bool_decide (v2 = value) then
                        rm ← deleteMin fuel r2;
                        h ← fixUp (Node rm.2 i2 l2 rm.1 b2);
                        mret (h, v2)
                      else
                        rd ← delete fuel r2 value;
                        h ← fixUp (Node v2 i2 l2 rd.1 b2);
                        mret (h, rd.2)
                  end
            end
      end
  end.

Fixpoint deleteAt (fuel : nat) (h : node) (idx : Z) : T (node * Z) :=
  match fuel with
  | O => se_panic "out of fuel"
  | S fuel =>
      match h with
      | Nil => mret (Nil, Null_Value)
      | Node v i l r b =>
          if bool_decide (idx < i) then
            match l with
            | Nil => se_panic "Left should exist"
            | _ =>
                m ← no_red_to_borrow l;
                h ← (if (m : bool) then moveRedLeft h else mret h);
                match (h : node) with
                | Nil => nil_deref
                | Node v i l r b =>
                    ld ← deleteAt fuel l idx;
                    h ← fixUp (Node v (i - 1) ld.1 r b);
                    mret (h, ld.2)
                end
            end
          else
            h ← (if isRed l then rotateRight h else mret h);
            match (h : node) with
            | Nil => nil_deref
            | Node v1 i1 _ r1 _ =>
                if bool_decide (i1 = idx) && is_nil r1 then mret (Nil, v1)
                else
                  m ← (match r1 with Nil => mret false | _ => no_red_to_borrow r1 end);
                  h ← (if (m : bool) then moveRedRight h else mret h);
                  match (h : node) with
                  | Nil => nil_deref
                  | Node v2 i2 l2 r2 b2 =>
                      if bool_decide (i2 = idx) then
                        rm ← deleteMin fuel r2;
                        h ← fixUp (Node rm.2 i2 l2 rm.1 b2);
                        mret (h, v2)
                      else
                        rd ← deleteAt fuel r2 (idx - i2 - 1);
                        h ← fixUp (Node v2 i2 l2 rd.1 b2);
                        mret (h, rd.2)
                  end
            end
      end
  end.

(** ** The exported operations *)

Fixpoint node_count (h : node) : nat :=
  match h with Nil => 0 | Node _ _ l r _ => S (node_count l + node_count r) end.

Definition blacken (h : node) : node :=
  match h with Nil => Nil | Node v i l r _ => Node v i l r true end.

Definition Size (t : llrb) : Z := size t.

Fixpoint get_from (h : node) (key : Z) : option node :=
  match h with
  | Nil => None
  | Node v _ l r _ =>
      if bool_decide (key < v) then get_from l key
      else if bool_decide (key > v) then get_from r key
      else Some h
  end.
Definition Get (t : llrb) (key : Z) : option node := get_from (root t) key.

(** [getByIndex] follows the indices; a nil child is a nil dereference. *)
Fixpoint getByIndex (h : node) (idx : Z) : result node :=
  match h with
  | Nil => Panic "invalid memory address or nil pointer dereference"
  | Node _ i l r _ =>
      if bool_decide (idx = i) then Ok h
      else if bool_decide (idx < i) then getByIndex l idx
      else getByIndex r (idx - i - 1)
  end.
Definition GetByIndex (t : llrb) (idx : Z) : result (option node) :=
  match root t with
  | Nil => Ok None
  | _ => if bool_decide (size t <= idx) then Ok None
         else n ← getByIndex (root t) idx; Ok (Some n)
  end.

Definition Insert (value : Z) : SE llrb Z := fun t =>
  match insert (root t) value (rotationStats t) with
  | (Ok (h, replaced), stats) =>
      match h with
      | Nil => (Panic "invalid memory address or nil pointer dereference", t)
      | _ => (Ok replaced,
              mkTree (if bool_decide (replaced = Null_Value) then size t + 1 else size t)
                (blacken h) stats)
      end
  | (Err e, _) => (Err e, t)
  | (Panic e, _) => (Panic e, t)
  end.

Definition delete_with (op : nat → node → T (node * Z)) : SE llrb Z := fun t =>
  match op (S (node_count (root t))) (root t) (rotationStats t) with
  | (Ok (h, deleted), stats) =>
      (Ok deleted,
       mkTree (if bool_decide (deleted = Null_Value) then size t else size t - 1)
         (blacken h) stats)
  | (Err e, _) => (Err e, t)
  | (Panic e, _) => (Panic e, t)
  end.

Definition Delete (key : Z) : SE llrb Z := delete_with (fun fuel h => delete fuel h key).
Definition DeleteAt (idx : Z) : SE llrb Z := delete_with (fun fuel h => deleteAt fuel h idx).

Definition GetRotationStats (t : llrb) : list Z := rotationStats t.
Definition ResetRotationStats (t : llrb) : llrb :=
  mkTree (size t) (root t) (map (fun _ => 0) (rotationStats t)).
