(* ===== verification/LLRBCorrect.v ===== *)
(** * consensus/qkchash: correctness of the red-black tree

    [rbt c n els h]: [h] is a left-leaning red-black tree whose root has colour
    [c] (true is black, as in the code), with [n] black nodes on every path, and
    whose inorder traversal is [els]; every Index is the size of the left
    subtree.  The operations on trees refine operations on sorted lists, never
    panic, and keep the invariant. *)

From S2P Require Import Prelude LLRB.
From Stdlib Require Import Sorting.Sorted.

Local Open Scope Z_scope.
Local Abbreviation T := (SE (list Z)).

Inductive rbt : bool → nat → list Z → node → Prop :=
| rbt_nil : rbt true 0 [] Nil
| rbt_red v i l r n la lb els :
    rbt true n la l → rbt true n lb r →
    i = Z.of_nat (length la) → els = la ++ v :: lb →
    rbt false n els (Node v i l r false)
| rbt_black v i l r c n la lb els :
    rbt c n la l → rbt true n lb r →
    i = Z.of_nat (length la) → els = la ++ v :: lb →
    rbt true (S n) els (Node v i l r true).

(** A node of colour [b] over two black trees (a 2-node). *)
Inductive two (b : bool) (n : nat) (els : list Z) : node → Prop :=
| two_intro v i l r la lb :
    rbt true n la l → rbt true n lb r →
    i = Z.of_nat (length la) → els = la ++ v :: lb → two b n els (Node v i l r b).

(** A node of colour [b] over a red left and a black right tree (a 3-node). *)
Inductive three (b : bool) (n : nat) (els : list Z) : node → Prop :=
| three_intro v i l r la lb :
    rbt false n la l → rbt true n lb r →
    i = Z.of_nat (length la) → els = la ++ v :: lb → three b n els (Node v i l r b).

(** A black node [v] over a black left and a red right tree: the shape
    [moveRedRight] hands down. *)
Inductive lean_right (n : nat) (la : list Z) (v : Z) (lb : list Z) : node → Prop :=
| lean_right_intro i l r :
    rbt true n la l → rbt false n lb r → i = Z.of_nat (length la) →
    lean_right n la v lb (Node v i l r true).

(** ** Running computations over the rotation statistics *)

Definition stats_ok (s : list Z) : Prop := length s = 4%nat ∧ Forall in_u64 s.

Definition returns {A} (m : T A) (Q : A → Prop) : Prop :=
  ∀ s, stats_ok s → ∃ x s', m s = (Ok x, s') ∧ stats_ok s' ∧ Q x.

Lemma lxor_bit_u64 x c : in_u64 x → (c = 0 ∨ c = 1) → in_u64 (Z.lxor x c).
Proof.
  unfold in_u64. intros Hx [->| ->]; [by rewrite Z.lxor_0_r|].
  split; [apply Z.lxor_nonneg; lia|]. destruct (decide (x = 0)) as [->|]; [done|].
  eapply Z.log2_lt_cancel. eapply Z.le_lt_trans; [apply Z.log2_lxor; lia|].
  rewrite Z.log2_pow2 by lia. apply Z.max_lub_lt; [|done]. apply Z.log2_lt_pow2; lia.
Qed.

Lemma shift_stats_ok c s :
  (c = 0 ∨ c = 1) → Forall in_u64 s →
  Forall in_u64 (shift_stats c s).1 ∧ length (shift_stats c s).1 = length s
  ∧ ((shift_stats c s).2 = 0 ∨ (shift_stats c s).2 = 1).
Proof.
  revert c. induction s as [|x s IH]; intros c Hc Hs; [done|].
  apply Forall_cons in Hs as [Hx Hs]. cbn [shift_stats].
  specialize (IH (if bool_decide (Z.land x (2 ^ 63) = 0) then 0 else 1)).
  destruct (shift_stats _ s) as [rest c']. cbn in *.
  destruct IH as (?&?&?); [case_bool_decide; auto|done|].
  split_and!; [|lia|done]. constructor; [|done].
  apply lxor_bit_u64; [apply u64_in|done].
Qed.

Lemma rotate_stats_ok c s : (c = 0 ∨ c = 1) → stats_ok s → stats_ok (rotate_stats c s).
Proof.
  intros Hc [Hlen Hs]. destruct (shift_stats_ok c s Hc Hs) as (H1&H2&H3).
  unfold rotate_stats. destruct (shift_stats c s) as [[|x rest] c']; cbn in *; [lia|].
  apply Forall_cons in H1 as [Hx Hr]. split; [cbn; lia|].
  constructor; [by apply lxor_bit_u64|done].
Qed.

Section returns.
Context {A B : Type}.
Implicit Types (Q : A → Prop).

Lemma returns_ret (x : A) Q : Q x → returns (mret x) Q.
Proof. intros HQ s Hs. by exists x, s. Qed.

Lemma returns_bind (m : T B) (k : B → T A) Q :
  returns m (fun x => returns (k x) Q) → returns (m ≫= k) Q.
Proof.
  intros Hm s Hs. destruct (Hm s Hs) as (x&s'&E&Hs'&Hk).
  destruct (Hk s' Hs') as (y&s''&E'&Hs''&HQ). exists y, s''. split; [|done].
  se_red. by rewrite E.
Qed.

Lemma returns_ext (m m' : T A) Q : (∀ s, m s = m' s) → returns m' Q → returns m Q.
Proof. intros Hm HQ s Hs. rewrite Hm. by apply HQ. Qed.

Lemma returns_mono (m : T A) Q Q' :
  returns m Q → (∀ x, Q x → Q' x) → returns m Q'.
Proof.
  intros Hm HQ s Hs. destruct (Hm s Hs) as (x&s'&?&?&?). exists x, s'. auto.
Qed.
End returns.

Section primitives.
Implicit Types (Q : node → Prop).

Lemma returns_Left v i l r b Q : Q l → returns (Left_of (Node v i l r b)) Q.
Proof. apply returns_ret. Qed.
Lemma returns_Right v i l r b Q : Q r → returns (Right_of (Node v i l r b)) Q.
Proof. apply returns_ret. Qed.
Lemma returns_set_Right v i l r r' b Q :
  Q (Node v i l r' b) → returns (set_Right (Node v i l r b) r') Q.
Proof. apply returns_ret. Qed.
Lemma returns_flip v i lv li ll lr lb rv ri rl rr rb b Q :
  Q (Node v i (Node lv li ll lr (negb lb)) (Node rv ri rl rr (negb rb)) (negb b)) →
  returns (flip (Node v i (Node lv li ll lr lb) (Node rv ri rl rr rb) b)) Q.
Proof. intros HQ s Hs. by eexists _, s. Qed.
Lemma returns_rotateLeft v i l xv xi xl xr b Q :
  Q (Node xv (xi + (i + 1)) (Node v i l xl false) xr b) →
  returns (rotateLeft (Node v i l (Node xv xi xl xr false) b)) Q.
Proof.
  intros HQ s Hs. eexists _, (rotate_stats 0 s). split_and!; [done| |done].
  apply rotate_stats_ok; auto.
Qed.
Lemma returns_rotateRight v i r xv xi xl xr b Q :
  Q (Node xv xi xl (Node v (i - (xi + 1)) xr r false) b) →
  returns (rotateRight (Node v i (Node xv xi xl xr false) r b)) Q.
Proof.
  intros HQ s Hs. eexists _, (rotate_stats 1 s). split_and!; [done| |done].
  apply rotate_stats_ok; auto.
Qed.
End primitives.

(** One step of symbolic execution. *)
Ltac rt :=
  lazymatch goal with
  | |- returns (mbind _ _) _ => apply returns_bind
  | |- returns (mret _) _ => apply returns_ret
  | |- returns (Left_of _) _ => apply returns_Left
  | |- returns (Right_of _) _ => apply returns_Right
  | |- returns (set_Right _ _) _ => apply returns_set_Right
  | |- returns (flip _) _ => apply returns_flip
  | |- returns (rotateLeft _) _ => apply returns_rotateLeft
  | |- returns (rotateRight _) _ => apply returns_rotateRight
  end; cbn [negb andb isRed].

Ltac els_eq :=
  first [ reflexivity | eassumption
        | subst; repeat (rewrite <- ?app_assoc; cbn [app]); done ].
Ltac idx_eq := subst; rewrite ?length_app; cbn [length]; lia.

(** Build an [rbt] from the hypotheses. *)
Ltac mk_rbt :=
  first [ eassumption
        | eapply rbt_red; [mk_rbt|mk_rbt|idx_eq|els_eq]
        | eapply rbt_black; [mk_rbt|mk_rbt|idx_eq|els_eq] ].

Lemma rbt_isRed c n els h : rbt c n els h → isRed h = negb c.
Proof. by destruct 1. Qed.

Lemma rbt_red_inv n els h :
  rbt false n els h → ∃ v i l r la lb, h = Node v i l r false
    ∧ rbt true n la l ∧ rbt true n lb r ∧ i = Z.of_nat (length la) ∧ els = la ++ v :: lb.
Proof. inversion 1; subst. eauto 15. Qed.

Lemma rbt_black_inv n els h :
  rbt true (S n) els h → ∃ v i l r c la lb, h = Node v i l r true
    ∧ rbt c n la l ∧ rbt true n lb r ∧ i = Z.of_nat (length la) ∧ els = la ++ v :: lb.
Proof. inversion 1; subst. eauto 15. Qed.

Lemma rbt_zero_inv els h : rbt true 0 els h → h = Nil ∧ els = [].
Proof. inversion 1; by subst. Qed.

Lemma rbt_two n els h : two false n els h ↔ rbt false n els h.
Proof. split; inversion 1; subst; econstructor; eauto. Qed.

(** ** Rebalancing *)

Lemma returns_left_left_red v i l r b c n la (Q : bool → Prop) :
  rbt c n la l → Q false → returns (left_left_red (Node v i l r b)) Q.
Proof.
  intros Hl HQ. unfold left_left_red. rt. rt. rewrite (rbt_isRed _ _ _ _ Hl).
  destruct c; cbn [negb]; [by rt|].
  apply rbt_red_inv in Hl as (?&?&?&?&?&?&->&Hll&_). rt. rt. rt.
  by rewrite (rbt_isRed _ _ _ _ Hll).
Qed.

Lemma returns_both_red v i l r b (Q : bool → Prop) :
  Q (isRed l && isRed r) → returns (both_red (Node v i l r b)) Q.
Proof. intros HQ. unfold both_red. rt. rt. rt. rt. by rt. Qed.

Lemma rebalance_keep v i l r b c1 c2 n1 n2 la lb (Q : node → Prop) :
  rbt c1 n1 la l → rbt c2 n2 lb r → c1 || c2 = true →
  Q (Node v i l r b) → returns (rebalance (Node v i l r b)) Q.
Proof.
  intros Hl Hr Hc HQ. unfold rebalance. rt. eapply returns_left_left_red; [done|].
  rt. rt. rt. apply returns_both_red.
  rewrite (rbt_isRed _ _ _ _ Hl), (rbt_isRed _ _ _ _ Hr).
  destruct c1, c2; cbn in *; try done; by rt.
Qed.

(** Both children red: the colours are flipped. *)
Lemma rebalance_four v i l r b n els la lb :
  rbt false n la l → rbt false n lb r → i = Z.of_nat (length la) → els = la ++ v :: lb →
  returns (rebalance (Node v i l r b)) (two (negb b) (S n) els).
Proof.
  intros Hl Hr Hi He. unfold rebalance. rt. eapply returns_left_left_red; [done|].
  rt. rt. rt. apply returns_both_red.
  rewrite (rbt_isRed _ _ _ _ Hl), (rbt_isRed _ _ _ _ Hr). cbn [negb andb].
  apply rbt_red_inv in Hl as (?&?&?&?&?&?&->&?&?&?&?).
  apply rbt_red_inv in Hr as (?&?&?&?&?&?&->&?&?&?&?).
  rt. econstructor; [mk_rbt|mk_rbt|idx_eq|els_eq].
Qed.

(** Two red left links in a row: rotated and split. *)
Lemma rebalance_left_left v i l r b n els la lb :
  three false n la l → rbt true n lb r → i = Z.of_nat (length la) → els = la ++ v :: lb →
  returns (rebalance (Node v i l r b)) (two (negb b) (S n) els).
Proof.
  intros Hl Hr Hi He. destruct Hl as [lv li ll lr la1 la2 Hll Hlr Hli Hle].
  apply rbt_red_inv in Hll as (?&?&?&?&?&?&->&?&?&?&?).
  unfold rebalance, left_left_red. rt. rt. rt. rt. rt. rt. rt. rt.
  rt. apply returns_both_red. cbn [isRed negb andb]. rt.
  econstructor; [mk_rbt|mk_rbt|idx_eq|els_eq].
Qed.

(** [fixUp] of a black node with sound children: the root becomes red exactly
    when both children were red. *)
Lemma fixUp_black v i l r c1 c2 n els la lb :
  rbt c1 n la l → rbt c2 n lb r → i = Z.of_nat (length la) → els = la ++ v :: lb →
  returns (fixUp (Node v i l r true)) (rbt (c1 || c2) (S n) els).
Proof.
  intros Hl Hr Hi He. unfold fixUp. rt. rt. rewrite (rbt_isRed _ _ _ _ Hr).
  destruct c2; cbn [negb].
  - rt. rt. eapply rebalance_keep; [done|done|by destruct c1|].
    destruct c1; mk_rbt.
  - apply rbt_red_inv in Hr as (xv&xi&xl&xr&xa&xb&->&Hxl&Hxr&Hxi&Hxe). rt. rt.
    destruct c1; cbn [orb].
    + eapply (rebalance_keep _ _ _ _ _ false true); [mk_rbt|done|done|mk_rbt].
    + eapply returns_mono; [eapply (rebalance_left_left _ _ _ _ _ n els (la ++ v :: xa) xb)|];
        [econstructor; eauto|done|idx_eq|els_eq|].
      intros h Hh. by apply rbt_two.
Qed.

(** [fixUp] of a node over two black trees changes nothing. *)
Lemma fixUp_two v i l r b n els la lb :
  rbt true n la l → rbt true n lb r → i = Z.of_nat (length la) → els = la ++ v :: lb →
  returns (fixUp (Node v i l r b)) (two b n els).
Proof.
  intros Hl Hr Hi He. unfold fixUp. rt. rt. rewrite (rbt_isRed _ _ _ _ Hr). cbn [negb].
  rt. rt. eapply rebalance_keep; [done|done|done|]. by econstructor.
Qed.

(** [fixUp] of a node of any colour one of whose children is red. *)
Lemma fixUp_left_red v i l r b c n els la lb :
  rbt false n la l → rbt c n lb r → i = Z.of_nat (length la) → els = la ++ v :: lb →
  returns (fixUp (Node v i l r b))
    (fun h => if c then three b n els h else two (negb b) (S n) els h).
Proof.
  intros Hl Hr Hi He. unfold fixUp. rt. rt. rewrite (rbt_isRed _ _ _ _ Hr).
  destruct c; cbn [negb].
  - rt. rt. eapply rebalance_keep; [done|done|done|]. by econstructor.
  - apply rbt_red_inv in Hr as (xv&xi&xl&xr&xa&xb&->&Hxl&Hxr&Hxi&Hxe). rt. rt.
    eapply (rebalance_left_left _ _ _ _ _ n els (la ++ v :: xa) xb);
      [econstructor; eauto|done|idx_eq|els_eq].
Qed.

Lemma fixUp_right_red v i l r b c n els la lb :
  rbt c n la l → rbt false n lb r → i = Z.of_nat (length la) → els = la ++ v :: lb →
  returns (fixUp (Node v i l r b))
    (fun h => if c then three b n els h else two (negb b) (S n) els h).
Proof.
  intros Hl Hr Hi He. destruct c; [|exact (fixUp_left_red _ _ _ _ _ false _ _ _ _ Hl Hr Hi He)].
  unfold fixUp. rt. rt. rewrite (rbt_isRed _ _ _ _ Hr). cbn [negb].
  apply rbt_red_inv in Hr as (xv&xi&xl&xr&xa&xb&->&Hxl&Hxr&Hxi&Hxe). rt. rt.
  eapply (rebalance_keep _ _ _ _ _ false true); [mk_rbt|done|done|].
  econstructor; [mk_rbt|done|idx_eq|els_eq].
Qed.

(** ** Sorted lists *)

Abbreviation sorted := (StronglySorted Z.lt).

Lemma sorted_mid la v lb :
  sorted (la ++ v :: lb) ↔
  sorted la ∧ sorted lb ∧ Forall (fun x => x < v) la ∧ Forall (fun x => v < x) lb.
Proof.
  induction la as [|x la IH]; cbn.
  - split.
    + inversion 1; subst. by repeat split; try constructor.
    + intros (_&?&_&?). by constructor.
  - split.
    + inversion 1 as [|? ? Hs Hx]; subst. apply IH in Hs as (?&?&?&?).
      apply Forall_app in Hx as [Hx1 Hx2]. apply Forall_cons in Hx2 as [Hx2 Hx3].
      repeat split; try constructor; auto.
    + intros (Hs&?&Hf&Hb). inversion Hs; subst. apply Forall_cons in Hf as [Hf1 Hf2].
      constructor; [by apply IH|]. apply Forall_app. split; [done|].
      constructor; [done|]. eapply Forall_impl; [exact Hb|]. cbn. lia.
Qed.

Fixpoint list_insert (x : Z) (l : list Z) : list Z :=
  match l with
  | [] => [x]
  | y :: l' =>
      if bool_decide (x < y) then x :: l
      else if bool_decide (y < x) then y :: list_insert x l' else l
  end.

Lemma list_insert_left x v la lb :
  x < v → list_insert x (la ++ v :: lb) = list_insert x la ++ v :: lb.
Proof.
  intros Hx. induction la as [|y la IH]; cbn; [by rewrite bool_decide_true|].
  repeat case_bool_decide; [done| |done]. cbn. by rewrite IH.
Qed.

Lemma list_insert_skip x la lb :
  Forall (fun y => y < x) la → list_insert x (la ++ lb) = la ++ list_insert x lb.
Proof.
  induction 1 as [|y la Hy _ IH]; [done|]. cbn.
  rewrite bool_decide_false, bool_decide_true by lia. by rewrite IH.
Qed.

Lemma list_insert_right x v la lb :
  sorted (la ++ v :: lb) → v < x →
  list_insert x (la ++ v :: lb) = la ++ v :: list_insert x lb.
Proof.
  intros (_&_&Hla&_)%sorted_mid Hx. rewrite list_insert_skip.
  - cbn. by rewrite bool_decide_false, bool_decide_true by lia.
  - eapply Forall_impl; [exact Hla|]. cbn. lia.
Qed.

Lemma list_insert_found v la lb :
  sorted (la ++ v :: lb) → list_insert v (la ++ v :: lb) = la ++ v :: lb.
Proof.
  intros (_&_&Hla&_)%sorted_mid. rewrite list_insert_skip by done.
  cbn. by rewrite !bool_decide_false by lia.
Qed.

Lemma elem_of_list_insert x y l : y ∈ list_insert x l ↔ y = x ∨ y ∈ l.
Proof.
  induction l as [|z l IH]; cbn; [set_solver|].
  repeat case_bool_decide; [set_solver|set_solver|].
  assert (z = x) as -> by lia. set_solver.
Qed.

Lemma sorted_list_insert x l : sorted l → sorted (list_insert x l).
Proof.
  induction 1 as [|y l Hs IH Hy]; cbn; [by repeat constructor|].
  repeat case_bool_decide.
  - constructor; [by constructor|]. constructor; [done|].
    eapply Forall_impl; [exact Hy|]. cbn. lia.
  - constructor; [done|]. apply Forall_forall. intros z Hz.
    apply elem_of_list_insert in Hz as [->|Hz]; [done|].
    by eapply Forall_forall in Hy.
  - by constructor.
Qed.

Lemma length_list_insert x l :
  sorted l → length (list_insert x l) = (if decide (x ∈ l) then length l else S (length l)).
Proof.
  induction 1 as [|y l Hs IH Hy]; cbn; [by rewrite decide_False by set_solver|].
  rewrite Forall_forall in Hy. repeat case_bool_decide.
  - rewrite decide_False; [done|]. rewrite elem_of_cons.
    intros [->|Hin]; [lia|]. specialize (Hy _ Hin). lia.
  - cbn. rewrite IH. repeat case_decide; [done| | |done]; exfalso; set_solver by lia.
  - rewrite decide_True; [done|]. assert (x = y) as -> by lia. set_solver.
Qed.

(** In a sorted list [v] splits the elements: membership on one side. *)
Lemma elem_of_left x v la lb : sorted (la ++ v :: lb) → x < v → x ∈ la ++ v :: lb ↔ x ∈ la.
Proof.
  intros (_&_&_&Hb)%sorted_mid Hx. rewrite elem_of_app, elem_of_cons.
  rewrite Forall_forall in Hb. split; [|auto].
  intros [?|[->|Hin]]; [done|lia|]. specialize (Hb _ Hin). cbn in Hb. lia.
Qed.

Lemma elem_of_right x v la lb : sorted (la ++ v :: lb) → v < x → x ∈ la ++ v :: lb ↔ x ∈ lb.
Proof.
  intros (_&_&Ha&_)%sorted_mid Hx. rewrite elem_of_app, elem_of_cons.
  rewrite Forall_forall in Ha. split; [|auto].
  intros [Hin|[->|?]]; [|lia|done]. specialize (Ha _ Hin). cbn in Ha. lia.
Qed.

(** ** Insert *)

(** What [insert] leaves of a tree whose root had colour [c]: a sound tree, or,
    below a red root only, two red links in a row for the parent to repair. *)
Definition ins_post (c : bool) (n : nat) (els : list Z) (h : node) : Prop :=
  if c then ∃ c', rbt c' n els h else rbt false n els h ∨ three false n els h.

Lemma ins_post_black n els h : ins_post true n els h → ∃ c', rbt c' n els h.
Proof. done. Qed.

(** The steps of [insert] after the recursive call. *)
Definition insert_tail (h : node) : T node :=
  r' ← Right_of h;
  l' ← Left_of h;
  h ← (if isRed r' && negb (isRed l') then rotateLeft h else mret h);
  rebalance h.

Lemma insert_tail_left v i l r b cl n els la lb :
  ins_post cl n la l → rbt true n lb r → (b = false → cl = true) →
  i = Z.of_nat (length la) → els = la ++ v :: lb →
  returns (insert_tail (Node v i l r b)) (ins_post b (if b then S n else n) els).
Proof.
  intros Hl Hr Hb Hi He. unfold insert_tail. rt. rt. rt. rt.
  rewrite (rbt_isRed _ _ _ _ Hr). cbn [negb andb]. rt. rt.
  destruct cl; [destruct Hl as [c' Hl]|destruct Hl as [Hl|Hl]].
  - eapply rebalance_keep; [done|done|by destruct c'|].
    destruct b; [exists true; mk_rbt|].
    destruct c'; [left; mk_rbt|right; by econstructor].
  - destruct b; [|by specialize (Hb eq_refl)].
    eapply rebalance_keep; [done|done|done|]. exists true. mk_rbt.
  - destruct b; [|by specialize (Hb eq_refl)].
    eapply returns_mono; [by eapply rebalance_left_left|].
    intros h Hh. exists false. by apply rbt_two.
Qed.

Lemma insert_tail_right v i l r b cl n els la lb :
  rbt cl n la l → ins_post true n lb r → (b = false → cl = true) →
  i = Z.of_nat (length la) → els = la ++ v :: lb →
  returns (insert_tail (Node v i l r b)) (ins_post b (if b then S n else n) els).
Proof.
  intros Hl [c' Hr] Hb Hi He. unfold insert_tail. rt. rt. rt. rt.
  rewrite (rbt_isRed _ _ _ _ Hr), (rbt_isRed _ _ _ _ Hl).
  destruct c'; cbn [negb andb].
  - rt. rt. eapply rebalance_keep; [done|done|by destruct cl|].
    destruct b; [exists true; mk_rbt|]. rewrite Hb in Hl by done. left. mk_rbt.
  - destruct cl; cbn [negb].
    + apply rbt_red_inv in Hr as (xv&xi&xl&xr&xa&xb&->&Hxl&Hxr&Hxi&Hxe). rt. rt.
      eapply (rebalance_keep _ _ _ _ _ false true); [mk_rbt|done|done|].
      destruct b; [exists true; mk_rbt|]. right. econstructor; [mk_rbt|done|idx_eq|els_eq].
    + rt. rt. destruct b; [|by specialize (Hb eq_refl)].
      eapply returns_mono; [by eapply rebalance_four|].
      intros h Hh. exists false. by apply rbt_two.
Qed.

(** What [insert] answers: the value it replaced, [Null_Value] when it is new. *)
Definition replaced_of (x : Z) (els : list Z) : Z :=
  if decide (x ∈ els) then x else Null_Value.

Lemma insert_unfold v i l r b value :
  ∀ s, insert (Node v i l r b) value s =
  ((if bool_decide (value < v) then
      lr ← insert l value;
      mret (Node v (if bool_decide (lr.2 = Null_Value) then i + 1 else i) lr.1 r b, lr.2)
    else if bool_decide (v < value) then
      rr ← insert r value; mret (Node v i l rr.1 b, rr.2)
    else mret (Node value i l r b, v)) ≫= fun hr =>
   h ← insert_tail hr.1; mret (h, hr.2)) s.
Proof.
  intros s. cbn [insert]. unfold insert_tail. se_red.
  repeat (dmatch; simplify_eq/=; try done).
Qed.

Lemma insert_step v i l r b cl n els la lb x :
  rbt cl n la l → rbt true n lb r → (b = false → cl = true) →
  i = Z.of_nat (length la) → els = la ++ v :: lb → sorted els → x ≠ Null_Value →
  returns (insert l x) (fun p =>
    ins_post cl n (list_insert x la) p.1 ∧ p.2 = replaced_of x la) →
  returns (insert r x) (fun p =>
    ins_post true n (list_insert x lb) p.1 ∧ p.2 = replaced_of x lb) →
  returns (insert (Node v i l r b) x) (fun p =>
    ins_post b (if b then S n else n) (list_insert x els) p.1 ∧ p.2 = replaced_of x els).
Proof.
  intros Hl Hr Hb Hi He Hs Hx IHl IHr.
  eapply returns_ext; [apply insert_unfold|]. rt. unfold replaced_of.
  destruct (proj1 (sorted_mid la v lb) ltac:(by subst)) as (Hsa&Hsb&_&_).
  destruct (Z.lt_trichotomy x v) as [Hlt|[->|Hgt]].
  - rewrite bool_decide_true by lia. rt. eapply returns_mono; [exact IHl|].
    intros [l' rep] [Hl' Hrep]. cbn in *. rt. cbn. rt.
    eapply returns_mono.
    { eapply (insert_tail_left v _ l' r b cl n (list_insert x els) (list_insert x la) lb);
        [done|done|done| |].
      - subst. rewrite length_list_insert by done.
        unfold replaced_of. case_decide; case_bool_decide; try done; lia.
      - subst. by apply list_insert_left. }
    intros h Hh. rt. cbn. split; [done|]. subst. unfold replaced_of.
    by rewrite (decide_ext _ _ _ _ (elem_of_left x v la lb Hs Hlt)).
  - rewrite !bool_decide_false by lia. rt. cbn. rt. eapply returns_mono.
    { eapply (insert_tail_left v _ l r b cl n els la lb); try done.
      destruct cl; [by exists true|by left]. }
    intros h Hh. rt. cbn. subst. rewrite list_insert_found by done.
    rewrite decide_True by set_solver. done.
  - rewrite bool_decide_false, bool_decide_true by lia. rt.
    eapply returns_mono; [exact IHr|].
    intros [r' rep] [Hr' Hrep]. cbn in *. rt. cbn. rt.
    eapply returns_mono.
    { eapply (insert_tail_right v _ l r' b cl n (list_insert x els) la (list_insert x lb));
        [done|done|done|done|]. subst. by apply list_insert_right. }
    intros h Hh. rt. cbn. split; [done|]. subst. unfold replaced_of.
    by rewrite (decide_ext _ _ _ _ (elem_of_right x v la lb Hs Hgt)).
Qed.

Lemma insert_ok c n els h x :
  rbt c n els h → sorted els → x ≠ Null_Value →
  returns (insert h x) (fun p =>
    ins_post c n (list_insert x els) p.1 ∧ p.2 = replaced_of x els).
Proof.
  intros Hh Hs Hx. revert Hs.
  induction Hh as [|v i l r n la lb els Hl IHl Hr IHr Hi He
                   |v i l r c n la lb els Hl IHl Hr IHr Hi He]; intros Hs.
  - apply returns_ret. split; [|done]. exists false.
    eapply rbt_red; [constructor|constructor|done|done].
  - assert (Hs' := Hs). rewrite He, sorted_mid in Hs'. destruct Hs' as (?&?&_&_).
    exact (insert_step v i l r false true n els la lb x Hl Hr ltac:(done) Hi He Hs Hx
             (IHl ltac:(done)) (IHr ltac:(done))).
  - assert (Hs' := Hs). rewrite He, sorted_mid in Hs'. destruct Hs' as (?&?&_&_).
    exact (insert_step v i l r true c n els la lb x Hl Hr ltac:(done) Hi He Hs Hx
             (IHl ltac:(done)) (IHr ltac:(done))).
Qed.

(** ** Moving a red link down the search path *)

Lemma returns_no_red_to_borrow n la l (Q : bool → Prop) :
  (∀ m, n = S m → two true m la l → Q true) →
  (∀ m, n = S m → three true m la l → Q false) →
  l ≠ Nil → rbt true n la l → returns (no_red_to_borrow l) Q.
Proof.
  intros Htwo Hthree Hnil Hl. inversion Hl as [| |v i l1 r1 c m xa xb els Hl1 Hr1 Hi He]; subst;
    [done|].
  unfold no_red_to_borrow. cbn [isRed negb]. rt. rt. rt.
  rewrite (rbt_isRed _ _ _ _ Hl1), negb_involutive. destruct c.
  - eapply Htwo; [done|]. by econstructor.
  - eapply Hthree; [done|]. by econstructor.
Qed.

(** After [moveRedLeft] the root has moved right or stayed, and its left child
    can lose a node. *)
Definition moved_left (b : bool) (m : nat) (v : Z) (la els : list Z) (h : node) : Prop :=
  ∃ v' i' l' r' b' la' lb', h = Node v' i' l' r' b' ∧ i' = Z.of_nat (length la')
    ∧ els = la' ++ v' :: lb'
    ∧ ((b' = negb b ∧ rbt false m la' l' ∧ rbt false m lb' r' ∧ la' = la ∧ v' = v)
       ∨ (b' = b ∧ three true m la' l' ∧ rbt true (S m) lb' r'
          ∧ ∃ suf, la' = la ++ v :: suf)).

Lemma moveRedLeft_ok v i l r b m la lb els :
  two true m la l → rbt true (S m) lb r → i = Z.of_nat (length la) → els = la ++ v :: lb →
  returns (moveRedLeft (Node v i l r b)) (moved_left b m v la els).
Proof.
  intros Hl Hr Hi He. destruct Hl as [lv li ll lr la1 la2 Hll Hlr Hli Hle].
  apply rbt_black_inv in Hr as (rv&ri&rl&rr&c&lb1&lb2&->&Hrl&Hrr&Hri&Hre).
  unfold moveRedLeft. rt. rt. rt. rt. rt. rt. rewrite (rbt_isRed _ _ _ _ Hrl).
  destruct c; cbn [negb].
  - rt. do 7 eexists. split_and!; [done|done|exact He|].
    left. split_and!; [done|mk_rbt|mk_rbt|done|done].
  - apply rbt_red_inv in Hrl as (yv&yi&yl&yr&ya&yb&->&Hyl&Hyr&Hyi&Hye).
    rt. rt. rt. rt. rt. rt. rt.
    do 5 eexists. exists (la ++ v :: ya), (yb ++ rv :: lb2).
    split_and!; [done|idx_eq|els_eq|].
    right. rewrite negb_involutive. split_and!; [done| |mk_rbt|by eexists].
    econstructor; [|exact Hyl|done|done]. mk_rbt.
Qed.

(** After [moveRedRight] the root has moved left or stayed, and its right child
    can lose a node. *)
Definition moved_right (b : bool) (m : nat) (v : Z) (la lb els : list Z) (h : node) : Prop :=
  ∃ v' i' l' r' b' la' lb', h = Node v' i' l' r' b' ∧ i' = Z.of_nat (length la')
    ∧ els = la' ++ v' :: lb'
    ∧ ((b' = negb b ∧ rbt false m la' l' ∧ rbt false m lb' r' ∧ la' = la ∧ v' = v ∧ lb' = lb)
       ∨ (b' = b ∧ rbt true (S m) la' l'
          ∧ ∃ suf, la = la' ++ v' :: suf ∧ lb' = suf ++ v :: lb ∧ lean_right m suf v lb r')).

Lemma moveRedRight_ok v i l r b m la lb els :
  rbt true (S m) la l → two true m lb r → i = Z.of_nat (length la) → els = la ++ v :: lb →
  returns (moveRedRight (Node v i l r b)) (moved_right b m v la lb els).
Proof.
  intros Hl Hr Hi He. destruct Hr as [rv ri rl rr lb1 lb2 Hrl Hrr Hri Hre].
  apply rbt_black_inv in Hl as (lv&li&ll&lr&c&la1&la2&->&Hll&Hlr&Hli&Hle).
  unfold moveRedRight. rt. rt. rt. rt. rt. rt. rewrite (rbt_isRed _ _ _ _ Hll).
  destruct c; cbn [negb].
  - rt. do 7 eexists. split_and!; [done|done|exact He|].
    left. split_and!; [done|mk_rbt|mk_rbt|done|done|done].
  - apply rbt_red_inv in Hll as (yv&yi&yl&yr&ya&yb&->&Hyl&Hyr&Hyi&Hye).
    rt. rt. rt. do 5 eexists. exists la1, (la2 ++ v :: lb).
    split_and!; [done|done|els_eq|].
    right. rewrite negb_involutive. split_and!; [done|mk_rbt|].
    exists la2. split_and!; [done|done|]. econstructor; [done|mk_rbt|idx_eq].
Qed.

(** ** Deletion *)

(** What a deletion leaves of a 2-node of colour [b]: a 2-node of that colour,
    a 3-node of the other colour, or nothing. *)
Definition del_post (b : bool) (n : nat) (els : list Z) (h : node) : Prop :=
  two b n els h ∨ (∃ m, n = S m ∧ three (negb b) m els h) ∨ (n = O ∧ els = [] ∧ h = Nil).

Lemma del_post_red n els h : del_post false n els h → ∃ c, rbt c n els h.
Proof.
  intros [Hh|[(m&->&Hh)|(->&->&->)]].
  - exists false. by apply rbt_two.
  - exists true. destruct Hh. mk_rbt.
  - exists true. constructor.
Qed.

Lemma del_post_side (b c : bool) m els h :
  (if c then three (negb b) m els h else two (negb (negb b)) (S m) els h) →
  del_post b (S m) els h.
Proof.
  rewrite negb_involutive. destruct c; [intros ?; right; left; by eexists|intros ?; by left].
Qed.

(** A recursive call on a subtree, described on the traversals: [P] is what the
    call needs of its input, [R] relates input, output and deleted value. *)
Definition call_ok (P : list Z → Prop) (R : list Z → list Z → Z → Prop)
    (call : node → T (node * Z)) : Prop :=
  ∀ els h, P els →
    (∀ b n, two b n els h →
       returns (call h) (fun p => ∃ els', R els els' p.2 ∧ del_post b n els' p.1)) ∧
    (∀ n, three true n els h →
       returns (call h) (fun p => ∃ els', R els els' p.2 ∧ rbt true (S n) els' p.1)).

(** The descent to the left that [deleteMin], [delete] and [deleteAt] share. *)
Definition step_left (call : node → T (node * Z)) (dec : Z → Z → Z) (h : node) : T (node * Z) :=
  match h with
  | Nil => nil_deref
  | Node _ _ l _ _ =>
      m ← no_red_to_borrow l;
      h ← (if (m : bool) then moveRedLeft h else mret h);
      match (h : node) with
      | Nil => nil_deref
      | Node v i l r b =>
          ld ← call l;
          h ← fixUp (Node v (dec i ld.2) ld.1 r b);
          mret (h, ld.2)
      end
  end.

Section step_left.
Context (P : list Z → Prop) (R : list Z → list Z → Z → Prop).
Context (call : node → T (node * Z)) (dec : Z → Z → Z).
Hypothesis Hcall : call_ok P R call.
Context (els la : list Z) (v : Z) (lb : list Z) (S' : list Z → list Z → Z → Prop).
Hypothesis Hels : els = la ++ v :: lb.
(** The root stays, or moves to the right. *)
Hypothesis Hmove : ∀ la' v' lb',
  els = la' ++ v' :: lb' → (la' = la ∧ v' = v) ∨ (∃ suf, la' = la ++ v :: suf) →
  P la' ∧ ∀ la'' d, R la' la'' d →
    dec (Z.of_nat (length la')) d = Z.of_nat (length la'') ∧ S' els (la'' ++ v' :: lb') d.

Lemma step_left_tail v' i' l' r' b' la' lb' (Q : node → list Z → Prop) :
  els = la' ++ v' :: lb' → (la' = la ∧ v' = v) ∨ (∃ suf, la' = la ++ v :: suf) →
  i' = Z.of_nat (length la') →
  returns (call l') (fun p => ∃ la'', R la' la'' p.2 ∧
    ∀ i'' els'', i'' = Z.of_nat (length la'') → els'' = la'' ++ v' :: lb' →
      returns (fixUp (Node v' i'' p.1 r' b')) (fun h => Q h els'')) →
  returns (ld ← call l'; h ← fixUp (Node v' (dec i' ld.2) ld.1 r' b'); mret (h, ld.2))
    (fun p => ∃ els', S' els els' p.2 ∧ Q p.1 els').
Proof.
  intros He Hpos -> Hc. destruct (Hmove _ _ _ He Hpos) as [_ HR].
  rt. eapply returns_mono; [exact Hc|]. intros [l'' d] (la''&HRd&Hfix). cbn in *.
  destruct (HR _ _ HRd) as [Hdec HS]. rt.
  eapply returns_mono; [by apply Hfix|]. intros h HQ. rt. cbn. eauto.
Qed.

Lemma step_left_two i l r b m :
  rbt true (S m) la l → rbt true (S m) lb r → i = Z.of_nat (length la) →
  returns (step_left call dec (Node v i l r b))
    (fun p => ∃ els', S' els els' p.2 ∧ del_post b (S m) els' p.1).
Proof.
  intros Hl Hr Hi. unfold step_left. rt.
  eapply returns_no_red_to_borrow; [| |by inversion Hl|exact Hl]; intros m' [= <-] Hl'.
  - rt. eapply returns_mono; [by eapply moveRedLeft_ok|].
    intros h (v'&i'&l'&r'&b'&la'&lb'&->&Hi'&He&[(->&Hl1&Hr1&->&->)|(->&Hl1&Hr1&suf&->)]).
    + eapply (step_left_tail _ _ _ _ _ la lb' (fun h els => del_post b (S m) els h));
        [done|by left|done|].
      destruct (Hcall la l') as [Hc _]; [by apply (Hmove la v lb'); auto|].
      eapply returns_mono; [by apply (Hc false m), rbt_two|].
      intros p (la''&HR&[c Hc']%del_post_red). exists la''. split; [done|].
      intros i'' els'' Hi'' He''. eapply returns_mono; [by eapply fixUp_right_red|].
      intros h. apply del_post_side.
    + eapply (step_left_tail _ _ _ _ _ _ lb' (fun h els => del_post b (S m) els h));
        [done|by right; eexists|done|].
      destruct (Hcall (la ++ v :: suf) l') as [_ Hc]; [by eapply Hmove; eauto|].
      eapply returns_mono; [by apply (Hc m)|].
      intros p (la''&HR&Hc'). exists la''. split; [done|].
      intros i'' els'' Hi'' He''. eapply returns_mono; [by eapply fixUp_two|].
      intros h Hh. by left.
  - rt. rt. eapply (step_left_tail _ _ _ _ _ la lb (fun h els => del_post b (S m) els h));
        [done|by left|done|].
    destruct (Hcall la l) as [_ Hc]; [by apply (Hmove la v lb); auto|].
    eapply returns_mono; [by apply (Hc m)|].
    intros p (la''&HR&Hc'). exists la''. split; [done|].
    intros i'' els'' Hi'' He''. eapply returns_mono; [by eapply fixUp_two|].
    intros h Hh. by left.
Qed.

Lemma step_left_three i l r n :
  rbt false n la l → rbt true n lb r → i = Z.of_nat (length la) →
  returns (step_left call dec (Node v i l r true))
    (fun p => ∃ els', S' els els' p.2 ∧ rbt true (S n) els' p.1).
Proof.
  intros Hl Hr Hi. unfold step_left, no_red_to_borrow.
  rewrite (rbt_isRed _ _ _ _ Hl). cbn [negb]. rt. rt. rt. rt.
  eapply (step_left_tail _ _ _ _ _ la lb (fun h els => rbt true (S n) els h));
        [done|by left|done|].
  destruct (Hcall la l) as [Hc _]; [by apply (Hmove la v lb); auto|].
  eapply returns_mono; [by apply (Hc false n), rbt_two|].
  intros p (la''&HR&[c Hc']%del_post_red). exists la''. split; [done|].
  intros i'' els'' Hi'' He''. eapply returns_mono; [by eapply fixUp_black|].
  by destruct c.
Qed.
End step_left.

(** [deleteMin] removes the first element. *)
Definition min_removed (els els' : list Z) (d : Z) : Prop := els = d :: els'.

Lemma min_removed_app la la'' d v lb :
  min_removed la la'' d →
  Z.of_nat (length la) - 1 = Z.of_nat (length la'')
  ∧ min_removed (la ++ v :: lb) (la'' ++ v :: lb) d.
Proof. unfold min_removed. intros ->. cbn. split; [lia|done]. Qed.

Lemma deleteMin_ok fuel :
  call_ok (fun els => (length els ≤ fuel)%nat) min_removed (deleteMin fuel).
Proof.
  induction fuel as [|fuel IH]; intros els h Hf.
  { split; intros; exfalso; inv H; rewrite length_app in Hf; cbn in Hf; lia. }
  assert (∀ la v lb, els = la ++ v :: lb → (length la ≤ fuel)%nat) as Hlen.
  { intros la v lb ->. rewrite length_app in Hf. cbn in Hf. lia. }
  split.
  - intros b n [v i l r la lb Hl Hr Hi He]. destruct n as [|m].
    + apply rbt_zero_inv in Hl as [-> ->]. apply rbt_zero_inv in Hr as [-> ->].
      apply returns_ret. exists []. cbn. split; [by rewrite He|]. right. right. done.
    + assert (∃ w1 w2 w3 w4 w5, l = Node w1 w2 w3 w4 w5) as (w1&w2&w3&w4&w5&El)
        by (inversion Hl; eauto 10).
      assert (deleteMin (S fuel) (Node v i l r b)
              = step_left (deleteMin fuel) (fun i _ => i - 1) (Node v i l r b)) as ->
        by by subst.
      eapply step_left_two; [exact IH|exact He| |done|done|done].
      intros la' v' lb' He' _. split; [by eapply Hlen|].
      intros la'' d HR. rewrite He'. by apply min_removed_app.
  - intros n [v i l r la lb Hl Hr Hi He].
    assert (∃ w1 w2 w3 w4 w5, l = Node w1 w2 w3 w4 w5) as (w1&w2&w3&w4&w5&El)
      by (inversion Hl; eauto 10).
    assert (deleteMin (S fuel) (Node v i l r true)
            = step_left (deleteMin fuel) (fun i _ => i - 1) (Node v i l r true)) as ->
      by by subst.
    eapply step_left_three; [exact IH|exact He| |done|done|done].
    intros la' v' lb' He' _. split; [by eapply Hlen|].
    intros la'' d HR. rewrite He'. by apply min_removed_app.
Qed.

(** ** [delete] and [deleteAt] as one algorithm

    The two deletions are one search with two kinds of target: a value, and a
    position that is re-based when the search goes right. *)
Class Target (X : Type) := {
  goes_left : X → Z → Z → bool;
  hit : X → Z → Z → bool;
  shift : X → Z → X;
  dec_index : Z → Z → Z;
  no_left : node → T (node * Z);
}.

Section generic_delete.
Context `{Target X}.

Definition step_right (fuel : nat) (call : node → X → T (node * Z)) (h : node) (t : X)
    : T (node * Z) :=
  match h with
  | Nil => nil_deref
  | Node _ _ l _ _ =>
      h ← (if isRed l then rotateRight h else mret h);
      match (h : node) with
      | Nil => nil_deref
      | Node v1 i1 _ r1 _ =>
          if hit t v1 i1 && is_nil r1 then mret (Nil, v1)
          else
            m ← (match r1 with Nil => mret false | _ => no_red_to_borrow r1 end);
            h ← (if (m : bool) then moveRedRight h else mret h);
            match (h : node) with
            | Nil => nil_deref
            | Node v2 i2 l2 r2 b2 =>
                if hit t v2 i2 then
                  rm ← deleteMin fuel r2;
                  h ← fixUp (Node rm.2 i2 l2 rm.1 b2);
                  mret (h, v2)
                else
                  rd ← call r2 (shift t i2);
                  h ← fixUp (Node v2 i2 l2 rd.1 b2);
                  mret (h, rd.2)
            end
      end
  end.

Fixpoint gdelete (fuel : nat) (h : node) (t : X) : T (node * Z) :=
  match fuel with
  | O => se_panic "out of fuel"
  | S fuel =>
      match h with
      | Nil => mret (Nil, Null_Value)
      | Node v i l r b =>
          if goes_left t v i then
            match l with
            | Nil => no_left h
            | _ => step_left (fun l => gdelete fuel l t) dec_index h
            end
          else step_right fuel (gdelete fuel) h t
      end
  end.
End generic_delete.

#[export] Instance value_target : Target Z := {
  goes_left value v _ := bool_decide (value < v);
  hit value v _ := bool_decide (v = value);
  shift value _ := value;
  dec_index i d := if bool_decide (d = Null_Value) then i else i - 1;
  no_left h := mret (h, Null_Value);
}.

(** A position, told apart from a value by its type. *)
Record position := Pos { pos : Z }.

#[export] Instance position_target : Target position := {
  goes_left t _ i := bool_decide (pos t < i);
  hit t _ i := bool_decide (i = pos t);
  shift t i := Pos (pos t - i - 1);
  dec_index i _ := i - 1;
  no_left _ := se_panic "Left should exist";
}.

Lemma se_bind_ext {S A B} (m : SE S A) (k k' : A → SE S B) s :
  (∀ a s, k a s = k' a s) → (m ≫= k) s = (m ≫= k') s.
Proof. intros Hk. se_red. destruct (m s) as [[a|e|e] s']; auto. Qed.

Lemma delete_generic fuel h value s : delete fuel h value s = gdelete fuel h value s.
Proof.
  revert h s. induction fuel as [|fuel IH]; intros h s; [done|].
  destruct h as [|v i l r b]; [done|]. cbn [delete gdelete]. cbn [goes_left value_target].
  case_bool_decide.
  - destruct l as [|lv li ll lr lb]; [done|]. unfold step_left.
    apply se_bind_ext. intros m s1. apply se_bind_ext. intros [|v1 i1 l1 r1 b1] s2; [done|].
    se_red. by rewrite IH.
  - unfold step_right. apply se_bind_ext. intros [|v1 i1 l1 r1 b1] s1; [done|].
    cbn [hit value_target]. destruct (_ && _); [done|].
    apply se_bind_ext. intros m s2. apply se_bind_ext. intros [|v2 i2 l2 r2 b2] s3; [done|].
    case_bool_decide; [done|]. se_red. by rewrite IH.
Qed.

Lemma deleteAt_generic fuel h idx s : deleteAt fuel h idx s = gdelete fuel h (Pos idx) s.
Proof.
  revert h idx s. induction fuel as [|fuel IH]; intros h idx s; [done|].
  destruct h as [|v i l r b]; [done|].
  cbn [deleteAt gdelete]. cbn [goes_left position_target pos].
  case_bool_decide.
  - destruct l as [|lv li ll lr lb]; [done|]. unfold step_left.
    apply se_bind_ext. intros m s1. apply se_bind_ext. intros [|v1 i1 l1 r1 b1] s2; [done|].
    se_red. by rewrite IH.
  - unfold step_right. apply se_bind_ext. intros [|v1 i1 l1 r1 b1] s1; [done|].
    cbn [hit position_target pos shift]. destruct (_ && _); [done|].
    apply se_bind_ext. intros m s2. apply se_bind_ext. intros [|v2 i2 l2 r2 b2] s3; [done|].
    case_bool_decide; [done|]. se_red. by rewrite IH.
Qed.

(** What a target means on the traversal: when it is meaningful, what removing
    it does, and how the search steps relate the two. *)
Class TargetSpec (X : Type) `{Target X} := {
  valid : X → list Z → Prop;
  removed : X → list Z → list Z → Z → Prop;
  nil_law t : valid t [] → removed t [] [] Null_Value;
  left_nil t v lb h : valid t (v :: lb) → goes_left t v 0 = true →
    ∃ d, no_left h = mret (h, d) ∧ removed t (v :: lb) (v :: lb) d;
  left_law t la v lb :
    valid t (la ++ v :: lb) → goes_left t v (Z.of_nat (length la)) = true →
    valid t la ∧ ∀ la' d, removed t la la' d →
      dec_index (Z.of_nat (length la)) d = Z.of_nat (length la')
      ∧ removed t (la ++ v :: lb) (la' ++ v :: lb) d;
  left_stays t la v suf v' lb :
    valid t (la ++ v :: suf ++ v' :: lb) → goes_left t v (Z.of_nat (length la)) = true →
    goes_left t v' (Z.of_nat (length (la ++ v :: suf))) = true;
  right_hit t la v lb :
    valid t (la ++ v :: lb) → goes_left t v (Z.of_nat (length la)) = false →
    hit t v (Z.of_nat (length la)) = true → removed t (la ++ v :: lb) (la ++ lb) v;
  right_law t la v lb :
    valid t (la ++ v :: lb) → goes_left t v (Z.of_nat (length la)) = false →
    hit t v (Z.of_nat (length la)) = false →
    valid (shift t (Z.of_nat (length la))) lb ∧ ∀ lb' d,
      removed (shift t (Z.of_nat (length la))) lb lb' d →
      removed t (la ++ v :: lb) (la ++ v :: lb') d;
  right_stays t la v suf v' lb :
    valid t (la ++ v :: suf ++ v' :: lb) →
    goes_left t v' (Z.of_nat (length (la ++ v :: suf))) = false →
    goes_left t v (Z.of_nat (length la)) = false ∧ hit t v (Z.of_nat (length la)) = false
    ∧ goes_left (shift t (Z.of_nat (length la))) v' (Z.of_nat (length suf)) = false;
}.

Section generic_correct.
Context `{TargetSpec X}.
Implicit Types t : X.

(** What the recursive call of a deletion achieves on each shape of subtree. *)
Definition del_ok (fuel : nat) (call : node → X → T (node * Z)) : Prop :=
  ∀ t els, valid t els → (length els < fuel)%nat →
  call_ok (fun els' => els' = els) (removed t) (fun h => call h t) ∧
  (∀ n la v lb h, lean_right n la v lb h → els = la ++ v :: lb →
     goes_left t v (Z.of_nat (length la)) = false →
     returns (call h t) (fun p => ∃ els', removed t els els' p.2 ∧ rbt true (S n) els' p.1)) ∧
  (els = [] → returns (call Nil t) (fun p => p = (Nil, Null_Value))).

Section step_right.
Context (fuel : nat) (call : node → X → T (node * Z)) (Hcall : del_ok fuel call).
Context (t : X) (la : list Z) (v : Z) (lb : list Z).
Hypothesis Hvalid : valid t (la ++ v :: lb).
Hypothesis Hright : goes_left t v (Z.of_nat (length la)) = false.
Hypothesis Hfuel : (length (la ++ v :: lb) ≤ fuel)%nat.

Lemma step_right_tail i l r b (F Q : list Z → node → Prop) :
  i = Z.of_nat (length la) →
  (hit t v i = true → returns (deleteMin fuel r) (fun p => ∃ lb', lb = p.2 :: lb' ∧ F lb' p.1)) →
  (hit t v i = false → returns (call r (shift t i))
     (fun p => ∃ lb', removed (shift t i) lb lb' p.2 ∧ F lb' p.1)) →
  (∀ x lb' r' els', F lb' r' → els' = la ++ x :: lb' →
     returns (fixUp (Node x i l r' b)) (Q els')) →
  returns (if hit t v i then
             rm ← deleteMin fuel r; h ← fixUp (Node rm.2 i l rm.1 b); mret (h, v)
           else
             rd ← call r (shift t i); h ← fixUp (Node v i l rd.1 b); mret (h, rd.2))
    (fun p => ∃ els', removed t (la ++ v :: lb) els' p.2 ∧ Q els' p.1).
Proof.
  intros -> Hmin Hrec Hfix. destruct (hit t v _) eqn:Hhit.
  - rt. eapply returns_mono; [by apply Hmin|]. intros [r' x] (lb'&Hlb&HF). cbn in *. rt.
    eapply returns_mono; [by eapply Hfix|]. intros h HQ. rt. cbn.
    eexists. split; [|exact HQ]. rewrite <- Hlb. by apply right_hit.
  - rt. eapply returns_mono; [by apply Hrec|]. intros [r' d] (lb'&HR&HF). cbn in *. rt.
    eapply returns_mono; [by eapply Hfix|]. intros h HQ. rt. cbn.
    eexists. split; [|exact HQ]. by apply right_law.
Qed.

(** The two calls on a red or a 3-node right subtree. *)
Lemma right_min_red r n :
  rbt false n lb r →
  returns (deleteMin fuel r) (fun p => ∃ lb', lb = p.2 :: lb' ∧ ∃ c, rbt c n lb' p.1).
Proof.
  intros Hr. destruct (deleteMin_ok fuel lb r) as [Hc _].
  { rewrite length_app in Hfuel. cbn in Hfuel. lia. }
  eapply returns_mono; [by apply (Hc false n), rbt_two|].
  intros p (lb'&?&?%del_post_red). eauto.
Qed.

Lemma right_call_red r n :
  rbt false n lb r → hit t v (Z.of_nat (length la)) = false →
  returns (call r (shift t (Z.of_nat (length la))))
    (fun p => ∃ lb', removed (shift t (Z.of_nat (length la))) lb lb' p.2
                     ∧ ∃ c, rbt c n lb' p.1).
Proof.
  intros Hr Hhit. destruct (right_law t la v lb) as [Hv _]; [done..|].
  destruct (Hcall _ _ Hv) as [Hc _].
  { rewrite length_app in Hfuel. cbn in Hfuel. lia. }
  destruct (Hc lb r eq_refl) as [Hc' _].
  eapply returns_mono; [by apply (Hc' false n), rbt_two|].
  intros p (lb'&?&?%del_post_red). eauto.
Qed.

Lemma right_min_three r m :
  three true m lb r →
  returns (deleteMin fuel r) (fun p => ∃ lb', lb = p.2 :: lb' ∧ rbt true (S m) lb' p.1).
Proof.
  intros Hr. destruct (deleteMin_ok fuel lb r) as [_ Hc].
  { rewrite length_app in Hfuel. cbn in Hfuel. lia. }
  eapply returns_mono; [by apply (Hc m)|]. intros p (lb'&?&?). eauto.
Qed.

Lemma right_call_three r m :
  three true m lb r → hit t v (Z.of_nat (length la)) = false →
  returns (call r (shift t (Z.of_nat (length la))))
    (fun p => ∃ lb', removed (shift t (Z.of_nat (length la))) lb lb' p.2
                     ∧ rbt true (S m) lb' p.1).
Proof.
  intros Hr Hhit. destruct (right_law t la v lb) as [Hv _]; [done..|].
  destruct (Hcall _ _ Hv) as [Hc _].
  { rewrite length_app in Hfuel. cbn in Hfuel. lia. }
  destruct (Hc lb r eq_refl) as [_ Hc']. by apply (Hc' m).
Qed.

(** After the rotation of [step_right], a red right child. *)
Lemma step_right_lean i l r n :
  rbt true n la l → rbt false n lb r → i = Z.of_nat (length la) →
  returns (if hit t v i then
             rm ← deleteMin fuel r; h ← fixUp (Node rm.2 i l rm.1 true); mret (h, v)
           else
             rd ← call r (shift t i); h ← fixUp (Node v i l rd.1 true); mret (h, rd.2))
    (fun p => ∃ els', removed t (la ++ v :: lb) els' p.2 ∧ rbt true (S n) els' p.1).
Proof.
  intros Hl Hr ->.
  eapply (step_right_tail _ _ _ _ (fun lb' r' => ∃ c, rbt c n lb' r')); [done| | |].
  - intros _. by apply right_min_red.
  - by apply right_call_red.
  - intros x lb' r' els' [c Hr'] He. eapply returns_mono; [by eapply fixUp_black|]. done.
Qed.
End step_right.

(** Right descent from each shape. *)
Lemma step_right_from_lean fuel call t n la v lb h :
  del_ok fuel call → valid t (la ++ v :: lb) →
  goes_left t v (Z.of_nat (length la)) = false →
  (length (la ++ v :: lb) ≤ fuel)%nat → lean_right n la v lb h →
  returns (step_right fuel call h t)
    (fun p => ∃ els', removed t (la ++ v :: lb) els' p.2 ∧ rbt true (S n) els' p.1).
Proof.
  intros Hcall Hv Hright Hfuel [i l r Hl Hr ->]. unfold step_right.
  rewrite (rbt_isRed _ _ _ _ Hl). cbn [negb]. rt. rt.
  assert (Hr' := Hr). apply rbt_red_inv in Hr' as (rv&ri&rl&rr&lb1&lb2&->&_).
  cbn [is_nil]. rewrite andb_false_r. unfold no_red_to_borrow. cbn [isRed negb].
  rt. rt. rt. rt. by eapply step_right_lean.
Qed.

Lemma step_right_from_three fuel call t n la v lb h i l r :
  del_ok fuel call → valid t (la ++ v :: lb) →
  goes_left t v (Z.of_nat (length la)) = false →
  (length (la ++ v :: lb) ≤ fuel)%nat →
  h = Node v i l r true → rbt false n la l → rbt true n lb r → i = Z.of_nat (length la) →
  returns (step_right fuel call h t)
    (fun p => ∃ els', removed t (la ++ v :: lb) els' p.2 ∧ rbt true (S n) els' p.1).
Proof.
  intros Hcall Hv Hright Hfuel -> Hl Hr ->. unfold step_right.
  rewrite (rbt_isRed _ _ _ _ Hl). cbn [negb].
  apply rbt_red_inv in Hl as (xv&xi&xl&xr&xa&xb&->&Hxl&Hxr&Hxi&Hla). rt. rt.
  cbn [is_nil]. rewrite andb_false_r. unfold no_red_to_borrow. cbn [isRed negb].
  assert (la ++ v :: lb = xa ++ xv :: xb ++ v :: lb) as E by els_eq.
  rewrite Hla in Hright. rewrite E in *.
  destruct (right_stays t xa xv xb v lb Hv Hright) as (Hgo&_&_).
  rt. rt. rt. rt. eapply step_right_lean; try done. mk_rbt.
Qed.

Lemma step_right_leaf fuel call t b v :
  del_ok fuel call → valid t [v] → goes_left t v 0 = false → (1 ≤ fuel)%nat →
  returns (step_right fuel call (Node v 0 Nil Nil b) t)
    (fun p => ∃ els', removed t [v] els' p.2 ∧ del_post b 0 els' p.1).
Proof.
  intros Hcall Hv Hright Hfuel. unfold step_right. cbn [isRed]. rt. rt.
  cbn [is_nil]. rewrite andb_true_r. destruct (hit t v 0) eqn:Hhit.
  - rt. eexists. split; [by apply (right_hit t [] v [])|]. right. right. done.
  - rt. rt. rt. rt. destruct (right_law t [] v []) as [Hv' HR]; [done..|].
    destruct (Hcall _ _ Hv') as (_&_&Hnil); [cbn in *; lia|].
    rewrite Hhit. rt. eapply returns_mono; [by apply Hnil|]. intros p ->.
    cbn [fst snd length]. rt.
    eapply returns_mono; [by eapply (fixUp_two _ _ _ _ _ 0 [v] [] []); constructor|].
    intros h Hh. rt. exists [v]. cbn. split; [|by left].
    by apply (HR [] Null_Value), nil_law.
Qed.

Lemma step_right_from_two fuel call t b n la v lb i l r :
  del_ok fuel call → valid t (la ++ v :: lb) →
  goes_left t v (Z.of_nat (length la)) = false →
  (length (la ++ v :: lb) ≤ fuel)%nat →
  rbt true n la l → rbt true n lb r → i = Z.of_nat (length la) →
  returns (step_right fuel call (Node v i l r b) t)
    (fun p => ∃ els', removed t (la ++ v :: lb) els' p.2 ∧ del_post b n els' p.1).
Proof.
  intros Hcall Hv Hright Hfuel Hl Hr ->. destruct n as [|m].
  { apply rbt_zero_inv in Hl as [-> ->]. apply rbt_zero_inv in Hr as [-> ->].
    by apply step_right_leaf. }
  unfold step_right. rewrite (rbt_isRed _ _ _ _ Hl). cbn [negb]. rt. rt.
  assert (is_nil r = false) as -> by (by inversion Hr).
    rewrite andb_false_r. rt.
    assert (match r with Nil => mret false | _ => no_red_to_borrow r end
            = no_red_to_borrow r) as -> by (by inversion Hr).
    eapply returns_no_red_to_borrow; [| |by inversion Hr|exact Hr]; intros m' [= <-] Hr'.
    + rt. eapply returns_mono; [by eapply moveRedRight_ok|].
      intros h (v'&i'&l'&r'&b'&la'&lb'&->&->&He&
        [(->&Hl1&Hr1&->&->&->)|(->&Hl1&suf&->&->&Hlean)]).
      * eapply (step_right_tail fuel call t la v lb Hv Hright _ _ _ _
          (fun lb' r' => ∃ c, rbt c m lb' r')); [done| | |].
        -- intros _. by eapply right_min_red.
        -- intros Hhit. by eapply right_call_red.
        -- intros x lb' r'' els' [c Hr''] Hels.
           eapply returns_mono; [by eapply fixUp_left_red|]. intros h. apply del_post_side.
      * rewrite <- app_assoc in *. cbn [app] in *.
        assert (la' ++ v' :: suf ++ v :: lb = (la' ++ v' :: suf) ++ v :: lb) as E by els_eq.
        destruct (right_stays t la' v' suf v lb) as (Hgo&Hhit&Hgo'); [done|done|].
        eapply (step_right_tail fuel call t la' v' (suf ++ v :: lb) Hv Hgo _ _ _ _
          (rbt true (S m))); [done|by rewrite Hhit| |].
        -- intros _. destruct (right_law t la' v' (suf ++ v :: lb)) as [Hv' _]; [done..|].
           destruct (Hcall _ _ Hv') as (_&Hc&_).
           { rewrite length_app in Hfuel. cbn in Hfuel. lia. }
           eapply Hc; [done|done|done].
        -- intros x lb' r'' els' Hr'' Hels.
           eapply returns_mono; [by eapply fixUp_two|]. intros h Hh. by left.
    + rt. rt.
      eapply (step_right_tail fuel call t la v lb Hv Hright _ _ _ _ (rbt true (S m)));
        [done| | |].
      -- intros _. by eapply right_min_three.
      -- intros Hhit. by eapply right_call_three.
      -- intros x lb' r'' els' Hr'' Hels.
         eapply returns_mono; [by eapply fixUp_two|]. intros h Hh. by left.
Qed.

(** The subtrees a left descent may recurse into, and what it does there. *)
Definition left_prefix (els la : list Z) (v : Z) (la' : list Z) : Prop :=
  ∃ v' lb', els = la' ++ v' :: lb' ∧ (la' = la ∨ ∃ suf, la' = la ++ v :: suf).

Definition left_call (els : list Z) (call : node → T (node * Z)) t (la : list Z) (v : Z) : Prop :=
  call_ok (left_prefix els la v) (removed t) call ∧
  ∀ la' v' lb', els = la' ++ v' :: lb' →
    (la' = la ∧ v' = v) ∨ (∃ suf, la' = la ++ v :: suf) →
    left_prefix els la v la' ∧ ∀ la'' d, removed t la' la'' d →
      dec_index (Z.of_nat (length la')) d = Z.of_nat (length la'')
      ∧ removed t els (la'' ++ v' :: lb') d.

Lemma gdelete_left fuel call t els la v lb :
  del_ok fuel call → valid t els → (length els < S fuel)%nat → els = la ++ v :: lb →
  goes_left t v (Z.of_nat (length la)) = true → left_call els (fun h => call h t) t la v.
Proof.
  intros Hcall Hv Hf He Hgo.
  assert (∀ la' v' lb', els = la' ++ v' :: lb' →
    (la' = la ∧ v' = v) ∨ (∃ suf, la' = la ++ v :: suf) →
    goes_left t v' (Z.of_nat (length la')) = true) as Hgo'.
  { intros la' v' lb' He' [[-> ->]|[suf ->]]; [done|]. eapply left_stays; [|exact Hgo].
    rewrite app_comm_cons, app_assoc, <- He'. done. }
  split.
  - intros la' h (v'&lb'&He'&Hpos).
    assert (valid t la') as Hv'.
    { destruct Hpos as [->|Hpos].
      - eapply (left_law t la v lb); by rewrite <- ?He.
      - eapply (left_law t la' v' lb'); [by rewrite <- He'|]. eapply Hgo'; eauto. }
    apply (Hcall t la' Hv'); [|done].
    rewrite He', length_app in Hf. cbn in Hf. lia.
  - intros la' v' lb' He' Hpos. split; [unfold left_prefix; naive_solver|].
    rewrite He'. apply left_law; [by rewrite <- He'|by eapply Hgo'].
Qed.

Lemma gdelete_ok fuel : del_ok fuel (gdelete fuel).
Proof.
  induction fuel as [|fuel IH]; intros t els Hv Hf; [lia|].
  assert (∀ la v lb, els = la ++ v :: lb → goes_left t v (Z.of_nat (length la)) = true →
    left_call els (fun h => gdelete fuel h t) t la v) as Hleft
    by (intros; by eapply gdelete_left).
  split_and!.
  - intros ? h ->. split.
    + intros b n [v i l r la lb Hl Hr -> He]. cbn [gdelete].
      destruct (goes_left t v _) eqn:Hgo.
      * destruct n as [|m].
        { apply rbt_zero_inv in Hl as [-> ->]. apply rbt_zero_inv in Hr as [-> ->].
          cbn in He, Hgo. destruct (left_nil t v [] (Node v 0 Nil Nil b)) as (d&E&HR);
            [by subst|done|].
          cbn [length]. change (Z.of_nat 0) with 0. rewrite E. rt. cbn. exists els. subst.
          split; [done|]. left. by econstructor; constructor. }
        destruct (Hleft _ _ _ He Hgo) as [Hc Hm].
        destruct l as [|lv li ll lr lb']; [by inversion Hl|].
        by eapply step_left_two.
      * subst els. eapply step_right_from_two; try done. lia.
    + intros n [v i l r la lb Hl Hr -> He]. cbn [gdelete].
      destruct (goes_left t v _) eqn:Hgo.
      * destruct (Hleft _ _ _ He Hgo) as [Hc Hm].
        destruct l as [|lv li ll lr lb']; [by inversion Hl|].
        by eapply step_left_three.
      * subst els. eapply step_right_from_three; try done. lia.
  - intros n la v lb h Hh -> Hgo. assert (Hh' := Hh). destruct Hh' as [i l r Hl Hr ->].
    cbn [gdelete]. rewrite Hgo. eapply step_right_from_lean; try done. lia.
  - intros ->. by apply returns_ret.
Qed.
End generic_correct.

(** ** The two targets *)

Definition pos_removed (t : position) (els els' : list Z) (d : Z) : Prop :=
  ∃ pre post, els = pre ++ d :: post ∧ els' = pre ++ post ∧ pos t = Z.of_nat (length pre).

#[export] Instance position_spec : TargetSpec position.
Proof.
  refine {| valid (t : position) els := 0 <= pos t < Z.of_nat (length els);
            removed := pos_removed |}.
  - intros t Hv. cbn in Hv. lia.
  - intros t v lb h Hv Hgo. cbn in *. apply bool_decide_eq_true in Hgo. lia.
  - intros t la v lb Hv Hgo. cbn in *. apply bool_decide_eq_true in Hgo. split; [lia|].
    intros la' d (pre&post&->&->&Hp). rewrite !length_app. cbn [length]. split; [lia|].
    exists pre, (post ++ v :: lb). rewrite <- !app_assoc. done.
  - intros t la v suf v' lb Hv Hgo. cbn in *. apply bool_decide_eq_true in Hgo.
    apply bool_decide_eq_true. rewrite length_app. lia.
  - intros t la v lb Hv Hgo Hhit. cbn in *. apply bool_decide_eq_true in Hhit.
    exists la, lb. done.
  - intros t la v lb Hv Hgo Hhit. cbn in *.
    apply bool_decide_eq_false in Hhit, Hgo. rewrite length_app in Hv. cbn in Hv.
    split; [lia|]. intros lb' d (pre&post&->&->&Hp). cbn in Hp.
    exists (la ++ v :: pre), post. rewrite <- !app_assoc, length_app. cbn. split_and!; [done|done|lia].
  - intros t la v suf v' lb Hv Hgo. cbn in *. apply bool_decide_eq_false in Hgo.
    rewrite !bool_decide_eq_false. rewrite length_app in Hgo. cbn in Hgo. lia.
Defined.

Definition value_removed (x : Z) (els els' : list Z) (d : Z) : Prop :=
  (∃ pre post, els = pre ++ x :: post ∧ els' = pre ++ post ∧ d = x)
  ∨ ((x ∉ els) ∧ els' = els ∧ d = Null_Value).

#[export] Instance value_spec : TargetSpec Z.
Proof.
  refine {| valid (x : Z) els := sorted els ∧ x ≠ Null_Value; removed := value_removed |}.
  - intros x _. right. split; [apply not_elem_of_nil|done].
  - intros x v lb h [Hs _] Hgo. cbn in *. apply bool_decide_eq_true in Hgo.
    exists Null_Value. split; [done|]. right. split; [|done].
    intros Hin. by apply (elem_of_left x v [] lb), elem_of_nil in Hin.
  - intros x la v lb [Hs Hx] Hgo. cbn in *. apply bool_decide_eq_true in Hgo.
    destruct (proj1 (sorted_mid _ _ _) Hs) as (Hsa&_). split; [done|].
    intros la' d [(pre&post&->&->&->)|(Hnot&->&->)].
    + rewrite bool_decide_false by done. rewrite !length_app. cbn [length]. split; [lia|].
      left. exists pre, (post ++ v :: lb). rewrite <- !app_assoc. done.
    + rewrite bool_decide_true by done. split; [done|]. right. split; [|done].
      by rewrite elem_of_left.
  - intros x la v suf v' lb [Hs Hx] Hgo. cbn in *. apply bool_decide_eq_true in Hgo.
    apply bool_decide_eq_true.
    apply sorted_mid in Hs as (_&_&_&Hb). apply Forall_app in Hb as [_ Hb].
    apply Forall_cons in Hb as [? _]. lia.
  - intros x la v lb [Hs Hx] Hgo Hhit. cbn in *. apply bool_decide_eq_true in Hhit as ->.
    left. eauto.
  - intros x la v lb [Hs Hx] Hgo Hhit. cbn in *.
    apply bool_decide_eq_false in Hhit, Hgo.
    destruct (proj1 (sorted_mid _ _ _) Hs) as (_&Hsb&_). split; [done|].
    intros lb' d [(pre&post&->&->&->)|(Hnot&->&->)].
    + left. exists (la ++ v :: pre), post. rewrite <- !app_assoc. done.
    + right. split; [|done]. rewrite elem_of_right by (done || lia). done.
  - intros x la v suf v' lb [Hs Hx] Hgo. cbn in *. apply bool_decide_eq_false in Hgo.
    rewrite !bool_decide_eq_false.
    apply sorted_mid in Hs as (_&_&_&Hb). apply Forall_app in Hb as [_ Hb].
    apply Forall_cons in Hb as [? _]. lia.
Defined.

(** ** The tree as a sorted list *)

(** [Represents t els]: the tree is a sound left-leaning red-black tree holding
    exactly [els], in order, and its size field is right. *)
Record Represents (t : llrb) (els : list Z) : Prop := {
  rep_tree : ∃ n, rbt true n els (root t);
  rep_size : size t = Z.of_nat (length els);
  rep_sorted : sorted els;
  rep_range : Forall (fun x => in_u64 x ∧ x ≠ Null_Value) els;
  rep_stats : stats_ok (rotationStats t);
}.

Lemma rbt_node_count c n els h : rbt c n els h → node_count h = length els.
Proof. induction 1; subst; cbn; rewrite ?length_app; cbn; lia. Qed.

Lemma blacken_rbt c n els h : rbt c n els h → ∃ n', rbt true n' els (blacken h).
Proof. destruct 1; eexists; [constructor|mk_rbt|mk_rbt]. Qed.

Lemma blacken_ins_post n els h : ins_post true n els h → ∃ n', rbt true n' els (blacken h).
Proof. intros [c Hh]. by eapply blacken_rbt. Qed.

Lemma blacken_del_post b n els h : del_post b n els h → ∃ n', rbt true n' els (blacken h).
Proof.
  intros [[]|[(m&->&[])|(->&->&->)]]; eexists; [mk_rbt|mk_rbt|constructor].
Qed.

(** A black root is a 2-node or a 3-node, so a deletion may start at it. *)
Lemma gdelete_root `{TargetSpec X} (t : X) n els h fuel :
  rbt true n els h → valid t els → (length els < fuel)%nat →
  returns (gdelete fuel h t) (fun p => ∃ els', removed t els els' p.2
                                       ∧ ∃ n', rbt true n' els' (blacken p.1)).
Proof.
  intros Hh Hv Hf. destruct (gdelete_ok fuel t els Hv Hf) as (Hc&_&Hnil).
  destruct n as [|n].
  - apply rbt_zero_inv in Hh as [-> ->]. eapply returns_mono; [by apply Hnil|].
    intros p ->. exists []. split; [by apply nil_law|]. exists 0%nat. constructor.
  - apply rbt_black_inv in Hh as (v&i&l&r&c&la&lb&->&Hl&Hr&Hi&He).
    destruct (Hc els (Node v i l r true) eq_refl) as [Htwo Hthree]. destruct c.
    + eapply returns_mono; [apply (Htwo true n); by econstructor|].
      intros p (els'&HR&Hp). exists els'. split; [done|]. by eapply blacken_del_post.
    + eapply returns_mono; [apply (Hthree n); by econstructor|].
      intros p (els'&HR&Hp). exists els'. split; [done|]. by eapply blacken_rbt.
Qed.

Lemma delete_with_refines `{TargetSpec X} (x : X) op t els :
  Represents t els → valid x els →
  (∀ fuel h s, op fuel h s = gdelete fuel h x s) →
  ∃ d els' t', delete_with op t = (Ok d, t') ∧ removed x els els' d
    ∧ (∃ n, rbt true n els' (root t')) ∧ stats_ok (rotationStats t')
    ∧ size t' = if bool_decide (d = Null_Value) then size t else size t - 1.
Proof.
  intros [[n Hn] Hsize Hs Hr Hst] Hv Hop.
  destruct (gdelete_root x n els (root t) (S (node_count (root t))) Hn Hv) with (s := rotationStats t)
    as ([h d]&s'&E&Hs'&els'&HR&Hp).
  { rewrite (rbt_node_count _ _ _ _ Hn). lia. } { done. }
  unfold delete_with. rewrite Hop, E. do 3 eexists. split; [done|]. done.
Qed.

(** Removing the [i]-th element. *)
Definition remove_at (i : nat) (els : list Z) : list Z := take i els ++ drop (S i) els.

Lemma remove_at_mid pre d post : remove_at (length pre) (pre ++ d :: post) = pre ++ post.
Proof.
  unfold remove_at. rewrite take_app_length. f_equal.
  change (pre ++ d :: post) with (pre ++ [d] ++ post). rewrite app_assoc.
  apply drop_app_length'. rewrite length_app. cbn. lia.
Qed.

Lemma sorted_remove pre d post : sorted (pre ++ d :: post) → sorted (pre ++ post).
Proof.
  induction pre as [|x pre IH]; cbn; inversion 1 as [|? ? Hs' Hf]; subst; [done|].
  constructor; [by apply IH|]. apply Forall_app in Hf as [? Hf].
  apply Forall_cons in Hf as [_ ?]. by apply Forall_app.
Qed.

Definition remove_value (x : Z) (els : list Z) : list Z := filter (fun y => y ≠ x) els.

Lemma remove_value_mid pre x post :
  sorted (pre ++ x :: post) → remove_value x (pre ++ x :: post) = pre ++ post.
Proof.
  intros (_&_&Ha&Hb)%sorted_mid. unfold remove_value.
  rewrite filter_app, filter_cons_False by (intros Hn; by apply Hn).
  f_equal; apply filter_all; (eapply Forall_impl; [eassumption|]); cbn; lia.
Qed.

Lemma remove_value_none x els : x ∉ els → remove_value x els = els.
Proof. intros Hx. apply filter_all, Forall_forall. intros y Hy ->. done. Qed.

(** The abstract machine: a sorted list of distinct values. *)
Inductive tree_op :=
| OInsert (x : Z)
| ODelete (x : Z)
| ODeleteAt (i : Z).

Definition run_op (o : tree_op) : SE llrb Z :=
  match o with OInsert x => Insert x | ODelete x => Delete x | ODeleteAt i => DeleteAt i end.

Definition abs_op (o : tree_op) (els : list Z) : Z * list Z :=
  match o with
  | OInsert x => (replaced_of x els, list_insert x els)
  | ODelete x => (replaced_of x els, remove_value x els)
  | ODeleteAt i => (default Null_Value (els !! Z.to_nat i), remove_at (Z.to_nat i) els)
  end.

Definition op_ok (o : tree_op) (els : list Z) : Prop :=
  match o with
  | OInsert x | ODelete x => in_u64 x ∧ x ≠ Null_Value
  | ODeleteAt i => 0 <= i < Z.of_nat (length els)
  end.

#[export] Instance op_ok_dec o els : Decision (op_ok o els).
Proof. destruct o; apply _. Defined.

Lemma Insert_refines x t els :
  Represents t els → op_ok (OInsert x) els →
  ∃ t', Insert x t = (Ok (replaced_of x els), t') ∧ Represents t' (list_insert x els).
Proof.
  intros [[n Hn] Hsize Hs Hr Hst] [Hx Hnull].
  destruct (insert_ok _ _ _ _ x Hn Hs Hnull (rotationStats t) Hst)
    as ([h d]&s'&E&Hs'&Hp&Hd). cbn [fst snd] in Hp, Hd. subst d. unfold Insert. rewrite E.
  destruct (blacken_ins_post _ _ _ Hp) as [n' Hn'].
  assert (h ≠ Nil) as Hnil.
  { intros ->. cbn in Hn'.
    assert (list_insert x els = []) as Hnil by (by inversion Hn').
    assert (x ∈ list_insert x els) as Hin by (apply elem_of_list_insert; auto).
    rewrite Hnil in Hin. by apply elem_of_nil in Hin. }
  destruct h; [done|]. eexists. split; [done|].
  split; [by eexists| |by apply sorted_list_insert| |done].
  - cbn [size]. rewrite length_list_insert by done. unfold replaced_of.
    repeat case_decide; case_bool_decide; try done; lia.
  - rewrite Forall_forall in *. intros y Hy.
    apply elem_of_list_insert in Hy as [->|Hy]; [done|by apply Hr].
Qed.

Lemma Delete_refines x t els :
  Represents t els → op_ok (ODelete x) els →
  ∃ t', Delete x t = (Ok (replaced_of x els), t') ∧ Represents t' (remove_value x els).
Proof.
  intros Ht [Hx Hnull]. assert (Ht' := Ht). destruct Ht' as [_ Hsize Hs Hr _].
  destruct (delete_with_refines x (fun fuel h => delete fuel h x) t els Ht) as
    (d&els'&t'&E&HR&Hn&Hst&Hsz); [done| |].
  { intros. apply delete_generic. }
  exists t'. unfold replaced_of. destruct HR as [(pre&post&->&->&->)|(Hnot&->&->)].
  - rewrite decide_True by set_solver. rewrite bool_decide_false in Hsz by done.
    split; [done|]. rewrite remove_value_mid by done. split; try done.
    + rewrite Hsz, Hsize, !length_app. cbn. lia.
    + by eapply sorted_remove.
    + rewrite Forall_app, Forall_cons in Hr. rewrite Forall_app. tauto.
  - rewrite decide_False by done. rewrite bool_decide_true in Hsz by done.
    split; [done|]. rewrite remove_value_none by done. split; try done. by rewrite Hsz.
Qed.

Lemma DeleteAt_refines i t els :
  Represents t els → op_ok (ODeleteAt i) els →
  ∃ t', DeleteAt i t = (Ok (default Null_Value (els !! Z.to_nat i)), t')
        ∧ Represents t' (remove_at (Z.to_nat i) els).
Proof.
  intros Ht Hi. assert (Ht' := Ht). destruct Ht' as [_ Hsize Hs Hr _].
  destruct (delete_with_refines (Pos i) (fun fuel h => deleteAt fuel h i) t els Ht) as
    (d&els'&t'&E&(pre&post&->&->&Hp)&Hn&Hst&Hsz); [done| |].
  { intros. apply deleteAt_generic. }
  cbn in Hp. subst i. rewrite Nat2Z.id, list_lookup_middle, remove_at_mid by done.
  exists t'. split; [done|]. rewrite Forall_app, Forall_cons in Hr.
  rewrite bool_decide_false in Hsz by tauto. split; try done.
  - rewrite Hsz, Hsize, !length_app. cbn. lia.
  - by eapply sorted_remove.
  - rewrite Forall_app. tauto.
Qed.

(** Running a sequence of operations. *)
Fixpoint run_ops (os : list tree_op) : SE llrb (list Z) :=
  match os with
  | [] => mret []
  | o :: os => d ← run_op o; ds ← run_ops os; mret (d :: ds)
  end.

Fixpoint abs_ops (os : list tree_op) (els : list Z) : list Z * list Z :=
  match os with
  | [] => ([], els)
  | o :: os => let '(d, els1) := abs_op o els in
               let '(ds, els2) := abs_ops os els1 in (d :: ds, els2)
  end.

Fixpoint ops_ok (os : list tree_op) (els : list Z) : Prop :=
  match os with
  | [] => True
  | o :: os => op_ok o els ∧ ops_ok os (abs_op o els).2
  end.

#[export] Instance ops_ok_dec os els : Decision (ops_ok os els).
Proof. revert els. induction os; intros; cbn; apply _. Defined.

Lemma run_op_refines o t els :
  Represents t els → op_ok o els →
  ∃ t', run_op o t = (Ok (abs_op o els).1, t') ∧ Represents t' (abs_op o els).2.
Proof.
  intros Ht Ho. destruct o; [by apply Insert_refines|by apply Delete_refines|].
  by apply DeleteAt_refines.
Qed.

(** C21: the tree is a sorted list.  From the empty tree, any sequence of
    insertions of values other than the sentinel, deletions by value and
    deletions of a position in range runs without a panic (no nil dereference,
    no rotation of a black link, no missing left child), answers what the
    same operations on a sorted list answer, and ends in a left-leaning
    red-black tree whose traversal is that list, with correct indices and
    size. *)
Theorem llrb_refines_sorted_list os :
  ops_ok os [] →
  ∃ t', run_ops os new_llrb = (Ok (abs_ops os []).1, t') ∧ Represents t' (abs_ops os []).2.
Proof.
  assert (∀ t els, Represents t els → ops_ok os els →
    ∃ t', run_ops os t = (Ok (abs_ops os els).1, t') ∧ Represents t' (abs_ops os els).2) as Hgen.
  { induction os as [|o os IH]; intros t els Ht Hok; cbn in *; [by exists t|].
    destruct Hok as [Ho Hok]. destruct (run_op_refines o t els Ht Ho) as (t1&E1&Ht1).
    destruct (IH _ _ Ht1 Hok) as (t2&E2&Ht2). exists t2.
    destruct (abs_op o els) as [d els1]. cbn in *. destruct (abs_ops os els1) as [ds els2].
    cbn in *. split; [|done]. se_red. by rewrite E1, E2. }
  apply Hgen. split; [exists 0%nat; constructor|done|constructor|constructor|].
  split; [done|]. repeat constructor; done.
Qed.

Lemma llrb_refines_witness :
  run_ops [OInsert 30; OInsert 10; OInsert 20; OInsert 40; OInsert 20; ODeleteAt 1; ODelete 40]
    new_llrb
  = (Ok [Null_Value; Null_Value; Null_Value; Null_Value; 20; 20; 40],
     mkTree 2 (Node 30 1 (Node 10 0 Nil Nil false) Nil true) [2; 0; 0; 0])
  ∧ ops_ok [OInsert 30; OInsert 10; OInsert 20; OInsert 40; OInsert 20; ODeleteAt 1; ODelete 40] [].
Proof.
  assert (ops_ok [OInsert 30; OInsert 10; OInsert 20; OInsert 40; OInsert 20; ODeleteAt 1; ODelete 40] [])
    as Hok by (apply (bool_decide_unpack _); vm_compute; exact I).
  split; [|exact Hok].
  destruct (llrb_refines_sorted_list _ Hok) as (t'&E&_).
  rewrite E. vm_compute in E |- *. by injection E as <-.
Defined.

(** ** Reading the tree *)

Lemma getByIndex_ok c n els h i :
  rbt c n els h → 0 <= i < Z.of_nat (length els) →
  ∃ nd, getByIndex h i = Ok nd ∧
    match nd with Nil => False | Node v _ _ _ _ => els !! Z.to_nat i = Some v end.
Proof.
  intros Hh. revert i. induction Hh as [|v i l r n la lb els Hl IHl Hr IHr Hi He
      |v i l r c n la lb els Hl IHl Hr IHr Hi He]; intros k Hk; [cbn in Hk; lia| |];
    subst; rewrite length_app in Hk; cbn [length getByIndex] in *.
  all: destruct (Z.lt_trichotomy k (Z.of_nat (length la))) as [Hlt|[->|Hgt]].
  all: try (rewrite bool_decide_false, bool_decide_true by lia;
      destruct (IHl k) as (nd&->&Hnd); [lia|]; exists nd; split; [done|];
      destruct nd; [done|]; rewrite lookup_app_l by lia; done).
  all: try (rewrite bool_decide_true by lia; eexists; split; [done|]; cbn;
      by rewrite Nat2Z.id, list_lookup_middle).
  all: rewrite !bool_decide_false by lia;
    destruct (IHr (k - Z.of_nat (length la) - 1)) as (nd&->&Hnd); [lia|];
    exists nd; split; [done|]; destruct nd; [done|];
    rewrite lookup_app_r by lia;
    replace (Z.to_nat k - length la)%nat
      with (S (Z.to_nat (k - Z.of_nat (length la) - 1))) by lia; done.
Qed.

Lemma get_from_ok c n els h x :
  rbt c n els h → sorted els →
  match get_from h x with
  | None => x ∉ els
  | Some Nil => False
  | Some (Node v _ _ _ _) => v = x ∧ x ∈ els
  end.
Proof.
  intros Hh. induction Hh as [|v i l r n la lb els Hl IHl Hr IHr Hi He
      |v i l r c n la lb els Hl IHl Hr IHr Hi He]; intros Hs; [apply not_elem_of_nil| |];
    subst; destruct (proj1 (sorted_mid _ _ _) Hs) as (Hsa&Hsb&_); cbn [get_from];
    specialize (IHl Hsa); specialize (IHr Hsb).
  all: destruct (Z.lt_trichotomy x v) as [Hlt|[->|Hgt]].
  all: try (rewrite bool_decide_true by lia; destruct (get_from l x) as [[]|];
      rewrite ?elem_of_left by done; done).
  all: try (rewrite !bool_decide_false by lia; split; [done|set_solver]).
  all: rewrite bool_decide_false, bool_decide_true by lia; destruct (get_from r x) as [[]|];
      rewrite ?elem_of_right by done; done.
Qed.

(** Reading a tree that represents [els] is reading the list: the element
    at a position in range, none from the size on, and a value exactly when
    it is a member. *)
Theorem llrb_reads t els :
  Represents t els →
  (∀ i, 0 <= i < Z.of_nat (length els) → ∃ v j l r b,
     GetByIndex t i = Ok (Some (Node v j l r b)) ∧ els !! Z.to_nat i = Some v) ∧
  (∀ i, Z.of_nat (length els) <= i → GetByIndex t i = Ok None) ∧
  (∀ x, match Get t x with
        | Some (Node v _ _ _ _) => v = x ∧ x ∈ els
        | Some Nil => False
        | None => x ∉ els
        end).
Proof.
  intros [[n Hn] Hsize Hs Hr Hst]. unfold GetByIndex, Get. rewrite Hsize. split_and!.
  - intros i Hi. destruct (getByIndex_ok _ _ _ _ i Hn Hi) as (nd&E&Hnd).
    destruct nd as [|v j l r b]; [done|]. exists v, j, l, r, b. split; [|done].
    destruct (root t); [done|]. rewrite bool_decide_false by lia. by rewrite E.
  - intros i Hi. destruct (root t); [done|]. by rewrite bool_decide_true.
  - intros x. by eapply get_from_ok.
Qed.

Lemma llrb_reads_witness :
  GetByIndex (run_ops [OInsert 7; OInsert 3] new_llrb).2 1
    = Ok (Some (Node 7 1 (Node 3 0 Nil Nil false) Nil true)).
Proof.
  assert (Represents (run_ops [OInsert 7; OInsert 3] new_llrb).2 [3; 7]) as Hrep.
  { split; [|done| | |by split; [|repeat constructor]].
    - exists 1%nat. vm_compute. eapply (rbt_black _ _ _ _ false 0 [3] []); [|constructor|done|done].
      by eapply (rbt_red _ _ _ _ 0 [] []); try constructor.
    - repeat constructor.
    - repeat constructor; done. }
  destruct (llrb_reads _ _ Hrep) as (Hget&_&_).
  destruct (Hget 1 ltac:(done)) as (v&j&l&r&b&E&_).
  rewrite E. vm_compute in E |- *. by injection E as <- <- <- <- <-.
Defined.

(** ** Height *)

Fixpoint height (h : node) : nat :=
  match h with Nil => 0 | Node _ _ l r _ => S (Nat.max (height l) (height r)) end.

Lemma rbt_bounds c n els h :
  rbt c n els h →
  2 ^ Z.of_nat n <= Z.of_nat (length els) + 1
  ∧ Z.of_nat (height h) <= 2 * Z.of_nat n + (if c then 0 else 1).
Proof.
  induction 1 as [|v i l r n la lb els Hl IHl Hr IHr Hi He
      |v i l r c n la lb els Hl IHl Hr IHr Hi He]; subst; [done| |];
    rewrite length_app; cbn [length height];
    rewrite ?Nat2Z.inj_succ, ?Z.pow_succ_r by lia; [lia|destruct c; lia].
Qed.

(** The tree is balanced: its height is at most twice the logarithm of its
    size. *)
Theorem llrb_balanced t els :
  Represents t els → Z.of_nat (height (root t)) <= 2 * Z.log2 (size t + 1).
Proof.
  intros [[n Hn] Hsize _ _ _]. destruct (rbt_bounds _ _ _ _ Hn) as [Hpow Hh].
  rewrite Hsize. enough (Z.of_nat n <= Z.log2 (Z.of_nat (length els) + 1)) by lia.
  apply Z.log2_le_pow2; lia.
Qed.

Lemma llrb_balanced_witness :
  Z.of_nat (height (root (run_op (OInsert 9) new_llrb).2)) <= 2 * Z.log2 2.
Proof.
  assert (Represents (run_op (OInsert 9) new_llrb).2 [9]) as Hrep.
  { split; [|done|repeat constructor|repeat constructor; done|by split; [|repeat constructor]].
    exists 1%nat. vm_compute. by eapply (rbt_black _ _ _ _ true 0 [] []); try constructor. }
  exact (llrb_balanced _ _ Hrep).
Defined.

(** ** The rotation register *)

(** The four words as one 256-bit number, least significant word first. *)
Fixpoint le_value (s : list Z) : Z :=
  match s with [] => 0 | x :: s' => x + 2 ^ 64 * le_value s' end.

Lemma even_lxor_bit e c : (c = 0 ∨ c = 1) → Z.lxor (2 * e) c = 2 * e + c.
Proof.
  intros Hc. rewrite <- Z.add_nocarry_lxor; [done|].
  apply Z.bits_inj'. intros i Hi. rewrite Z.land_spec, Z.bits_0.
  destruct (decide (i = 0)) as [->|].
  - by rewrite Z.testbit_even_0.
  - destruct Hc as [->| ->]; [by rewrite Z.bits_0, andb_false_r|].
    rewrite (Z.bits_above_log2 1 i); [apply andb_false_r|lia|cbn; lia].
Qed.

Lemma lxor_bits e c c' :
  (c = 0 ∨ c = 1) → (c' = 0 ∨ c' = 1) → Z.lxor (2 * e + c) c' = 2 * e + Z.lxor c c'.
Proof.
  intros Hc Hc'. rewrite <- (even_lxor_bit e c), Z.lxor_assoc by done.
  apply even_lxor_bit. destruct Hc as [->| ->], Hc' as [->| ->]; cbn; auto.
Qed.

(** Splitting a word into its top bit and the rest, doubled. *)
Lemma shift_word x :
  in_u64 x →
  ∃ e t, u64 (Z.shiftl x 1) = 2 * e
    ∧ (if bool_decide (Z.land x (2 ^ 63) = 0) then 0 else 1) = t
    ∧ (t = 0 ∨ t = 1) ∧ 2 * x = 2 * e + 2 ^ 64 * t.
Proof.
  unfold in_u64. intros Hx. exists (x mod 2 ^ 63), (x / 2 ^ 63).
  pose proof (Z.div_mod x (2 ^ 63)) as Hdm. pose proof (Z.mod_pos_bound x (2 ^ 63)).
  assert (x / 2 ^ 63 = 0 ∨ x / 2 ^ 63 = 1) as Ht by lia.
  split_and!; [| |done|lia].
  - unfold u64. rewrite Z.shiftl_mul_pow2 by lia. change (2 ^ 64) with (2 ^ 63 * 2 ^ 1).
    rewrite Z.mul_mod_distr_r by lia. lia.
  - assert (Z.testbit x 63 = bool_decide (x / 2 ^ 63 = 1)) as Hb.
    { assert (Z.testbit (x / 2 ^ 63) 0 = Z.testbit x 63) as <- by (by rewrite Z.div_pow2_bits).
      destruct Ht as [->| ->]; done. }
    assert (Z.land x (2 ^ 63) = if bool_decide (x / 2 ^ 63 = 1) then 2 ^ 63 else 0) as ->.
    { apply Z.bits_inj'. intros i Hi. rewrite Z.land_spec, Z.pow2_bits_eqb by lia.
      destruct (Z.eqb_spec 63 i) as [<-|Hne].
      - rewrite Hb, andb_true_r. case_bool_decide; [by rewrite Z.pow2_bits_true|].
        by rewrite Z.bits_0.
      - rewrite andb_false_r. case_bool_decide; [by rewrite Z.pow2_bits_false by lia|].
        by rewrite Z.bits_0. }
    destruct Ht as [->| ->]; done.
Qed.

Lemma shift_stats_value c s :
  (c = 0 ∨ c = 1) → Forall in_u64 s →
  le_value (shift_stats c s).1 + 2 ^ (64 * Z.of_nat (length s)) * (shift_stats c s).2
    = 2 * le_value s + c
  ∧ (s ≠ [] → ∃ e rest, (shift_stats c s).1 = (2 * e + c) :: rest).
Proof.
  intros Hc Hs. revert c Hc. induction Hs as [|x s Hx Hs IH]; intros c Hc.
  { split; [cbn; lia|done]. }
  destruct (shift_word x Hx) as (e&t&He&Ht&Ht01&Hx2). cbn [shift_stats].
  rewrite Ht. destruct (IH t Ht01) as [IHv _].
  destruct (shift_stats t s) as [rest c']. cbn [fst snd le_value length] in *.
  rewrite He, even_lxor_bit by done. split; [|eauto].
  rewrite Nat2Z.inj_succ, Z.mul_succ_r, Z.pow_add_r by lia. lia.
Qed.

(** Each rotation rotates the 256-bit register by one bit to the left and
    flips its lowest bit when the rotation is a right rotation, so the
    register records the directions of the rotations. *)
Theorem rotation_register s c :
  stats_ok s → (c = 0 ∨ c = 1) →
  le_value (rotate_stats c s) =
  Z.lxor ((2 * le_value s) mod 2 ^ 256 + (2 * le_value s) / 2 ^ 256) c.
Proof.
  intros [Hlen Hs] Hc. destruct (shift_stats_value c s Hc Hs) as [Hv Hhd].
  destruct Hhd as (e&rest&He); [by destruct s|].
  destruct (shift_stats_ok c s Hc Hs) as (Hok&Hlen'&Hc').
  assert (∀ l, Forall in_u64 l → 0 <= le_value l < 2 ^ (64 * Z.of_nat (length l))) as Hbd.
  { induction 1 as [|x l Hx _ IH]; [done|]. cbn [le_value length]. unfold in_u64 in Hx.
    rewrite Nat2Z.inj_succ, Z.mul_succ_r, Z.pow_add_r by lia. lia. }
  pose proof (Hbd _ Hok) as Hb. rewrite Hlen' in Hb. rewrite Hlen in Hv, Hb.
  change (64 * Z.of_nat 4) with 256 in *. unfold rotate_stats.
  destruct (shift_stats c s) as [l c'] eqn:El. cbn [fst snd] in *. subst l.
  cbn [le_value] in *.
  set (E := e + 2 ^ 63 * le_value rest).
  assert (2 * le_value s = c' * 2 ^ 256 + 2 * E) as -> by (unfold E; lia).
  rewrite Z.div_add_l, (Z.add_comm (c' * _)), Z.mod_add, Z.mod_small, Z.div_small
    by (unfold E; destruct Hc as [->| ->]; lia).
  rewrite Z.add_0_r, !lxor_bits, (Z.lxor_comm c' c) by done. unfold E. lia.
Qed.

Lemma rotation_register_witness :
  le_value (rotate_stats 1 [2 ^ 63; 0; 0; 2 ^ 63]) = Z.lxor (2 ^ 64 + 1) 1.
Proof.
  rewrite (rotation_register [2 ^ 63; 0; 0; 2 ^ 63] 1); [done| |by right].
  split; [done|]. repeat constructor; done.
Defined.

(** The sentinel is not a usable value.  The code takes a replaced value
    equal to [Null_Value] for an insertion: inserting it twice counts two
    elements where there is one, and an index below the size is then a nil
    dereference. *)
Theorem sentinel_breaks_size :
  let t := (run_ops [OInsert Null_Value; OInsert Null_Value] new_llrb).2 in
  Size t = 2 ∧ node_count (root t) = 1%nat ∧ is_panic (GetByIndex t 1) = true.
Proof. vm_compute. done. Qed.
