(* ===== verification/QkcHash.v ===== *)
(** * consensus/qkchash: the hash and its caches

    Models src/consensus/qkchash/algorithm.go and qkchash.go.  The mixing loop
    only sizes, inserts into and deletes from an ordered set by position, so it
    is written against that interface; the code runs it on the red-black tree of
    LLRB, and the reference runs it on a sorted list.  Keccak is a parameter. *)

From stdpp Require Import sorting.
From S2P Require Import Prelude LLRB LLRBCorrect.

Local Open Scope Z_scope.

(** ** The interface *)

Class IndexedSet (S : Type) := {
  set_size : S → Z;
  set_insert : Z → SE S Z;
  set_delete_at : Z → SE S Z;
}.

#[export] Instance llrb_set : IndexedSet llrb := {
  set_size := Size;
  set_insert := Insert;
  set_delete_at := DeleteAt;
}.

(** The reference: a sorted list.  It has no answer for the sentinel and for
    a position out of range. *)
#[export] Instance list_set : IndexedSet (list Z) := {
  set_size l := Z.of_nat (length l);
  set_insert x := fun l =>
    if decide (op_ok (OInsert x) l) then (Ok (abs_op (OInsert x) l).1, (abs_op (OInsert x) l).2)
    else (Err "sentinel", l);
  set_delete_at i := fun l =>
    if decide (op_ok (ODeleteAt i) l) then (Ok (abs_op (ODeleteAt i) l).1, (abs_op (ODeleteAt i) l).2)
    else (Err "out of range", l);
}.

(** ** algorithm.go *)

Definition fnv64 (a b : Z) : Z := Z.lxor (u64 (a * 0x100000001b3)) b.

Definition accessRound : nat := 64.
Definition mix_len : nat := 16.  (* mixBytes / 8 *)

(** [binary.LittleEndian.Uint64(b)] and [PutUint64]. *)
Definition LE_Uint64 (b : list Z) : result Z :=
  if bool_decide (length b < 8)%nat then Panic "index out of range"
  else Ok (be_value (rev (take 8 b))).
Definition LE_PutUint64 (v : Z) : list Z := rev (be_bytes 8 v).

Section mixing.
Context `{IndexedSet St}.

(** The inner loop: [n] accesses to the tree; the values it deletes. *)
Fixpoint access (n : nat) (p : Z) : SE St (list Z) :=
  match n with
  | O => mret []
  | S n' =>
      t ← se_get;
      if bool_decide (set_size t = 0) then se_panic "integer divide by zero"
      else
        let idx := p mod u64 (set_size t) in
        v ← set_delete_at (i64 idx);
        let p := fnv64 p v in
        _ ← set_insert p;
        rest ← access n' (fnv64 p v);
        mret (v :: rest)
  end.

Definition mix_round (seedHead : Z) (mix : list Z) (i : nat) : SE St (list Z) :=
  let p := fnv64 (Z.lxor (Z.of_nat i) seedHead) (default 0 (mix !! (i mod length mix)%nat)) in
  newData ← access (length mix) p;
  mret (zip_with fnv64 mix newData).

Fixpoint mix_rounds (seedHead : Z) (mix : list Z) (rounds : list nat) : SE St (list Z) :=
  match rounds with
  | [] => mret mix
  | i :: rounds => mix ← mix_round seedHead mix i; mix_rounds seedHead mix rounds
  end.

Fixpoint insert_all (ls : list Z) : SE St unit :=
  match ls with
  | [] => mret tt
  | v :: ls => _ ← set_insert v; insert_all ls
  end.

(** Compress mix: four words into one. *)
Fixpoint compress (mix : list Z) : list Z :=
  match mix with
  | a :: b :: c :: d :: rest => fnv64 (fnv64 (fnv64 a b) c) d :: compress rest
  | _ => []
  end.

Fixpoint init_mix (seed : list Z) (idxs : list nat) : result (list Z) :=
  match idxs with
  | [] => Ok []
  | i :: idxs =>
      w ← LE_Uint64 (drop (i mod 8 * 8)%nat seed);
      ws ← init_mix seed idxs;
      Ok (w :: ws)
  end.

(** [HashWithRotationStats] up to the use of the statistics. *)
Definition hash_mix (ls seed : list Z) : SE St (list Z) :=
  if bool_decide (length seed ≠ 64%nat) then se_err "invoking qkchash on invalid seed"
  else
    _ ← insert_all ls;
    seedHead ← se_lift (LE_Uint64 seed);
    mix ← se_lift (init_mix seed (seq 0 mix_len));
    mix ← mix_rounds seedHead mix (seq 0 accessRound);
    mret (compress mix).
End mixing.

Definition HashWithRotationStats (ls seed : list Z) (useX : bool) : result (list Z) :=
  match hash_mix ls seed new_llrb with
  | (Ok hashRes, tree) =>
      Ok (if useX then zip_with Z.lxor hashRes (GetRotationStats tree) else hashRes)
  | (Err e, _) => Err e
  | (Panic e, _) => Panic e
  end.

(** ** qkchash.go: the caches *)

Definition cacheEntryCnt : Z := 1024 * 64.
Definition cacheAheadRound : nat := 64.
Definition EpochLength : Z := 30000.

(** [ls = None] is the nil slice of a shrunk cache. *)
Record qkcCache := mkCache { ls : option (list Z); seed : list Z }.
Definition newCache (seed : list Z) (ls : option (list Z)) : qkcCache := mkCache ls seed.
Definition shrunk (c : qkcCache) : bool := match ls c with None => true | Some _ => false end.

(** The words of one Keccak512 output. *)
Fixpoint words_of (fuel : nat) (bs : list Z) : result (list Z) :=
  match fuel, bs with
  | _, [] => Ok []
  | O, _ => Panic "out of fuel"
  | S fuel, _ => w ← LE_Uint64 bs; ws ← words_of fuel (drop 8 bs); Ok (w :: ws)
  end.

(** Appending the words not seen before. *)
Fixpoint add_new (ws : list Z) (acc : list Z * gset Z) : list Z * gset Z :=
  match ws with
  | [] => acc
  | ele :: ws =>
      add_new ws (if decide (ele ∈ acc.2) then acc else (acc.1 ++ [ele], {[ele]} ∪ acc.2))
  end.

Section keccak.
Variables Keccak256 Keccak512 : list Z → list Z.

Fixpoint generate_words (seed : list Z) (idxs : list Z) (acc : list Z * gset Z)
    : result (list Z * gset Z) :=
  match idxs with
  | [] => Ok acc
  | i :: idxs =>
      let bs := Keccak512 (seed ++ be_bytes 4 i) in
      ws ← words_of (length bs) bs;
      generate_words seed idxs (add_new ws acc)
  end.

Definition generatels (cnt : Z) (seed : list Z) : result (list Z) :=
  acc ← generate_words seed (seqZ 0 (u32 (cnt / 8))) ([], ∅);
  Ok (merge_sort (≤) acc.1).

Definition generateCache (cnt : Z) (seed : list Z) : result qkcCache :=
  ls ← generatels cnt seed; Ok (newCache seed (Some ls)).

Definition fillInCache (c : qkcCache) : result qkcCache :=
  ls ← generatels cacheEntryCnt (seed c); Ok (mkCache (Some ls) (seed c)).

Definition NewcacheSeed : result (list qkcCache) :=
  c ← generateCache cacheEntryCnt (replicate 32 0); Ok [c].

(** The loop that appends caches; [seed] is the last seed. *)
Fixpoint add_caches (n : nat) (seed : list Z) (caches : list qkcCache) : result (list qkcCache) :=
  match n with
  | O => Ok caches
  | S n =>
      let seed := Keccak256 seed in
      c ← generateCache cacheEntryCnt seed;
      add_caches n seed (caches ++ [c])
  end.

(** Caches further than two rounds from the end are shrunk. *)
Definition shrink_caches (caches : list qkcCache) : list qkcCache :=
  let k := (length caches - 2 * cacheAheadRound)%nat in
  map (fun c => newCache (seed c) None) (take k caches) ++ drop k caches.

Definition getCacheFromHeight (block : Z) : SE (list qkcCache) qkcCache :=
  let epoch := Z.to_nat (block / EpochLength) in
  caches ← se_get;
  if bool_decide (epoch < length caches)%nat then
    match caches !! epoch with
    | None => se_panic "index out of range"
    | Some cache =>
        if shrunk cache then
          cache ← se_lift (fillInCache cache);
          _ ← se_put (<[epoch := cache]> caches);
          mret cache
        else mret cache
    end
  else
    match last caches with
    | None => se_panic "index out of range"
    | Some lastc =>
        let needAddCnt := (epoch - length caches + cacheAheadRound)%nat in
        caches ← se_lift (add_caches needAddCnt (seed lastc) caches);
        let caches := shrink_caches caches in
        _ ← se_put caches;
        match caches !! epoch with
        | None => se_panic "index out of range"
        | Some cache => mret cache
        end
    end.

(** [qkcHashX]: digest and result. *)
Definition qkcHashX (seed : list Z) (cache : qkcCache) (useX : bool)
    : result (list Z * list Z) :=
  let seed := Keccak512 seed in
  hashRes ← HashWithRotationStats (default [] (ls cache)) seed useX;
  let digest := concat (map LE_PutUint64 hashRes) in
  Ok (digest, Keccak256 (seed ++ digest)).
End keccak.

(** ** The hash on the tree is the hash on the sorted list *)

(** [m1] on a tree answers what [m2] answers on the list it represents. *)
Definition simulates {A} (m1 : SE llrb A) (m2 : SE (list Z) A) : Prop :=
  ∀ t l, Represents t l → ∀ x l', m2 l = (Ok x, l') →
  ∃ t', m1 t = (Ok x, t') ∧ Represents t' l'.

Lemma sim_bind {A B} m1 m2 (k1 : A → SE llrb B) k2 :
  simulates m1 m2 → (∀ x, simulates (k1 x) (k2 x)) → simulates (m1 ≫= k1) (m2 ≫= k2).
Proof.
  intros Hm Hk t l Ht x l' E. se_red_in E. destruct (m2 l) as [[a|e|e] l1] eqn:E2; try done.
  destruct (Hm t l Ht _ _ E2) as (t1&E1&Ht1).
  destruct (Hk a t1 l1 Ht1 _ _ E) as (t2&E3&Ht2). exists t2. split; [|done].
  se_red. by rewrite E1.
Qed.

Lemma sim_lift {A} (r : result A) : simulates (se_lift r) (se_lift r).
Proof. intros t l Ht x l' [= -> ->]. by exists t. Qed.

Lemma sim_ret {A} (a : A) : simulates (mret a) (mret a).
Proof. intros t l Ht x l' [= -> ->]. by exists t. Qed.

Lemma sim_insert x : simulates (set_insert x) (set_insert x).
Proof.
  intros t l Ht y l' E. unfold set_insert, list_set in E. case_decide as Hok; [|done].
  injection E as <- <-. by apply Insert_refines.
Qed.

Lemma sim_delete_at i : simulates (set_delete_at i) (set_delete_at i).
Proof.
  intros t l Ht y l' E. unfold set_delete_at, list_set in E. case_decide as Hok; [|done].
  injection E as <- <-. by apply DeleteAt_refines.
Qed.

#[local] Hint Resolve sim_ret sim_lift sim_insert sim_delete_at sim_bind : qkc.

Lemma sim_access n p : simulates (access n p) (access n p).
Proof.
  revert p. induction n as [|n IH]; intros p; cbn [access]; [auto with qkc|].
  intros t l Ht x l' E. se_red_in E. se_red.
  assert (@set_size llrb _ t = @set_size (list Z) _ l) as Hsz by apply Ht.
  rewrite Hsz. destruct (bool_decide (set_size l = 0)); [done|].
  exact (sim_bind _ _ _ _ (sim_delete_at _)
           (fun v => sim_bind _ _ _ _ (sim_insert _)
              (fun _ => sim_bind _ _ _ _ (IH _) (fun rest => sim_ret (v :: rest))))
           t l Ht x l' E).
Qed.

Lemma sim_mix_rounds seedHead mix rounds :
  simulates (mix_rounds seedHead mix rounds) (mix_rounds seedHead mix rounds).
Proof.
  revert mix. induction rounds as [|i rounds IH]; intros mix; cbn [mix_rounds]; [auto with qkc|].
  apply sim_bind; [|done]. unfold mix_round. apply sim_bind; [apply sim_access|].
  intros ?. apply sim_ret.
Qed.

Lemma sim_insert_all ls : simulates (insert_all ls) (insert_all ls).
Proof.
  induction ls as [|v ls IH]; cbn [insert_all]; [auto with qkc|].
  apply sim_bind; [apply sim_insert|done].
Qed.

Lemma sim_hash_mix ls seed : simulates (hash_mix ls seed) (hash_mix ls seed).
Proof.
  unfold hash_mix. case_bool_decide; [by intros t l Ht x l' E|].
  apply sim_bind; [apply sim_insert_all|]. intros _.
  apply sim_bind; [apply sim_lift|]. intros seedHead.
  apply sim_bind; [apply sim_lift|]. intros mix.
  apply sim_bind; [apply sim_mix_rounds|]. intros mix'. apply sim_ret.
Qed.

Lemma new_llrb_empty : Represents new_llrb [].
Proof.
  split; [exists 0%nat; constructor|done|constructor|constructor|].
  split; [done|]. repeat constructor; done.
Qed.

(** The hash runs on the tree as it does on a sorted list that never meets the
    sentinel or an empty set, and the tree still represents the list. *)
Lemma hash_on_tree ls seed res l' :
  hash_mix ls seed [] = (Ok res, l') →
  ∃ tree, hash_mix ls seed new_llrb = (Ok res, tree) ∧ Represents tree l'.
Proof. intros E. by apply (sim_hash_mix ls seed _ _ new_llrb_empty). Qed.

(** ** The caches do not depend on the history of requests *)

Lemma words_of_total bs k :
  length bs = (8 * k)%nat → ∀ fuel, (k ≤ fuel)%nat → ∃ ws, words_of fuel bs = Ok ws.
Proof.
  revert bs. induction k as [|k IH]; intros bs Hlen fuel Hf.
  - destruct bs; [|cbn in Hlen; lia]. destruct fuel; by eexists.
  - destruct fuel as [|fuel]; [lia|]. destruct bs as [|b bs]; [cbn in Hlen; lia|].
    cbn [words_of]. unfold LE_Uint64. rewrite bool_decide_false by lia.
    destruct (IH (drop 8 (b :: bs))) with (fuel := fuel) as [ws E];
      [rewrite length_drop; lia|lia|].
    eexists. cbn [mbind result_bind]. by rewrite E.
Qed.

Section caches.
Variables Keccak256 Keccak512 : list Z → list Z.
(** Keccak512 has 64-byte outputs. *)
Hypothesis Keccak512_length : ∀ m, length (Keccak512 m) = 64%nat.

Lemma generate_words_total s idxs acc :
  ∃ acc', generate_words Keccak512 s idxs acc = Ok acc'.
Proof.
  revert acc. induction idxs as [|i idxs IH]; intros acc; cbn [generate_words]; [by eexists|].
  set (bs := Keccak512 (s ++ be_bytes 4 i)).
  assert (length bs = 64%nat) as Hbs by apply Keccak512_length.
  destruct (words_of_total bs 8 Hbs (length bs)) as [ws E]; [lia|].
  rewrite E. cbn [mbind result_bind]. apply IH.
Qed.

Lemma generatels_total cnt s : ∃ l, generatels Keccak512 cnt s = Ok l.
Proof.
  unfold generatels. destruct (generate_words_total s (seqZ 0 (u32 (cnt / 8))) ([], ∅))
    as [acc ->]. by eexists.
Qed.

(** The seed of an epoch: Keccak256 iterated on the zero hash. *)
Definition epoch_seed (epoch : nat) : list Z := Nat.iter epoch Keccak256 (replicate 32 0).

(** The cache of an epoch, filled in. *)
Definition is_epoch_cache (epoch : nat) (c : qkcCache) : Prop :=
  seed c = epoch_seed epoch
  ∧ ∃ l, ls c = Some l ∧ generatels Keccak512 cacheEntryCnt (seed c) = Ok l.

Definition caches_ok (caches : list qkcCache) : Prop :=
  caches ≠ [] ∧ ∀ i c, caches !! i = Some c →
    seed c = epoch_seed i ∧ (ls c = None ∨ is_epoch_cache i c).

Lemma generateCache_epoch i s :
  s = epoch_seed i →
  ∃ c, generateCache Keccak512 cacheEntryCnt s = Ok c ∧ is_epoch_cache i c.
Proof.
  intros ->. unfold generateCache. destruct (generatels_total cacheEntryCnt (epoch_seed i))
    as [l E]. rewrite E. eexists. split; [done|]. split; [done|]. by exists l.
Qed.

Lemma caches_ok_snoc caches c :
  caches_ok caches → is_epoch_cache (length caches) c → caches_ok (caches ++ [c]).
Proof.
  intros [Hne Hok] Hc. split; [by destruct caches|].
  intros i c' [Hi|[Hlen Hi]]%lookup_app_Some; [by apply Hok|].
  apply list_lookup_singleton_Some in Hi as [Hi <-].
  assert (i = length caches) as -> by lia. split; [apply Hc|by right].
Qed.

(** [add_caches] appends the next epochs, all of them filled in. *)
Lemma add_caches_ok n s caches :
  caches_ok caches → s = epoch_seed (length caches - 1) →
  ∃ caches', add_caches Keccak256 Keccak512 n s caches = Ok caches' ∧ caches_ok caches'
    ∧ length caches' = (length caches + n)%nat
    ∧ ∀ i c, (length caches ≤ i)%nat → caches' !! i = Some c → is_epoch_cache i c.
Proof.
  revert s caches. induction n as [|n IH]; intros s caches Hok Hs.
  { exists caches. split_and!; [done|done|lia|].
    intros i c Hi Hc. apply lookup_lt_Some in Hc. lia. }
  cbn [add_caches].
  assert (length caches ≠ 0%nat) as Hlen by (destruct Hok as [? _]; by destruct caches).
  assert (Keccak256 s = epoch_seed (length caches)) as Hs'.
  { subst s. replace (length caches) with (S (length caches - 1)) at 2 by lia. done. }
  destruct (generateCache_epoch _ _ Hs') as (c&->&Hc). cbn [mbind result_bind].
  destruct (IH (Keccak256 s) (caches ++ [c])) as (caches'&E&Hok'&Hl&Hnew).
  { by apply caches_ok_snoc. }
  { rewrite length_app. cbn. by rewrite Nat.add_sub. }
  exists caches'. rewrite length_app in Hl, Hnew. cbn in Hl, Hnew.
  split_and!; [done|done|lia|].
  intros i c' Hi Hc'. destruct (decide (i = length caches)) as [->|]; [|apply Hnew; [lia|done]].
  (* the first one added survives at its place *)
  clear IH. assert (caches' !! length caches = Some c) as Hkeep.
  { revert E. clear. generalize (Keccak256 s). intros s'.
    assert (∀ n s cs cs' i x, cs !! i = Some x →
      add_caches Keccak256 Keccak512 n s cs = Ok cs' → cs' !! i = Some x) as Hk.
    { clear. induction n as [|n IH]; intros s cs cs' i x Hx; cbn; [by intros [= <-]|].
      destruct (generateCache _ _ _) as [c| |]; try done. cbn. intros E.
      eapply IH; [|exact E]. by apply lookup_app_l_Some. }
    intros E. eapply Hk; [|exact E]. by apply list_lookup_middle. }
  rewrite Hkeep in Hc'. injection Hc' as <-. done.
Qed.

Lemma shrink_caches_ok caches : caches_ok caches → caches_ok (shrink_caches caches).
Proof.
  intros [Hne Hok]. unfold shrink_caches.
  set (k := (length caches - 2 * cacheAheadRound)%nat). split.
  { intros Hnil. apply (f_equal length) in Hnil.
    rewrite length_app, length_map, <- length_app, take_drop in Hnil. by destruct caches. }
  intros i c [Hi|[Hlen Hi]]%lookup_app_Some.
  - rewrite list_lookup_fmap in Hi.
    destruct (take k caches !! i) as [c0|] eqn:E; [|done]. injection Hi as <-.
    apply lookup_take_Some in E as [E _].
    destruct (Hok _ _ E) as [Hs _]. split; [exact Hs|by left].
  - rewrite lookup_drop in Hi. apply Hok in Hi.
    rewrite length_map, length_take in Hlen, Hi.
    replace (k + (i - k `min` length caches))%nat with i in Hi by lia. done.
Qed.

Lemma shrink_caches_recent caches i :
  (length caches ≤ i + 2 * cacheAheadRound)%nat → shrink_caches caches !! i = caches !! i.
Proof.
  intros Hi. unfold shrink_caches. set (k := (length caches - 2 * cacheAheadRound)%nat).
  rewrite lookup_app_r, lookup_drop, length_map, length_take
    by (rewrite length_map, length_take; lia).
  f_equal. lia.
Qed.

(** One request, from any state the requests can lead to. *)
Lemma getCacheFromHeight_ok block caches :
  caches_ok caches →
  ∃ c caches', getCacheFromHeight Keccak256 Keccak512 block caches = (Ok c, caches')
    ∧ caches_ok caches' ∧ is_epoch_cache (Z.to_nat (block / EpochLength)) c.
Proof.
  intros Hok. unfold getCacheFromHeight. set (epoch := Z.to_nat (block / EpochLength)).
  assert (Hok' := Hok). destruct Hok' as [Hne Hall]. se_red. case_bool_decide as Hlt.
  - destruct (lookup_lt_is_Some_2 caches epoch Hlt) as [c Hc]. rewrite Hc.
    destruct (Hall _ _ Hc) as [Hs [Hnone|Hc']].
    + unfold shrunk, fillInCache. rewrite Hnone.
      destruct (generatels_total cacheEntryCnt (seed c)) as [l E]. rewrite E. se_red.
      assert (is_epoch_cache epoch (mkCache (Some l) (seed c))) as Hfill.
      { split; [done|]. by exists l. }
      do 2 eexists. split_and!; [done| |exact Hfill]. split.
      { intros Hnil. apply (f_equal length) in Hnil. rewrite length_insert in Hnil.
        by destruct caches. }
      intros i c' [(->&<-&_)|[_ Hi]]%list_lookup_insert_Some; [|by apply Hall].
      split; [apply Hfill|by right].
    + destruct Hc' as [_ (l&Hl&Hgen)]. unfold shrunk. rewrite Hl.
      do 2 eexists. split_and!; [done|done|]. split; [done|]. by exists l.
  - destruct (last caches) as [lastc|] eqn:Hlast; [|by apply last_None in Hlast].
    rewrite last_lookup in Hlast. destruct (Hall _ _ Hlast) as [Hs _].
    destruct (add_caches_ok (epoch - length caches + cacheAheadRound) (seed lastc) caches Hok)
      as (cs&E&Hcs&Hlen&Hnew); [rewrite Hs; f_equal; lia|].
    rewrite E. unfold cacheAheadRound in *.
    destruct (lookup_lt_is_Some_2 cs epoch) as [c Hc]; [lia|].
    rewrite shrink_caches_recent, Hc by (unfold cacheAheadRound; lia).
    do 2 eexists. split_and!; [done|by apply shrink_caches_ok|]. apply Hnew; [lia|done].
Qed.

(** Any sequence of requests before the one of interest. *)
Fixpoint requests (blocks : list Z) : SE (list qkcCache) unit :=
  match blocks with
  | [] => mret tt
  | b :: blocks => _ ← getCacheFromHeight Keccak256 Keccak512 b; requests blocks
  end.

(** C28: the cache used for a block does not depend on which blocks were asked
    for before: after any requests on the initial caches, and however many
    caches were shrunk meanwhile, getCacheFromHeight returns without a panic or
    an error the filled-in cache of the block's epoch, whose seed is Keccak256
    iterated [block / EpochLength] times on the zero hash and whose words are
    those that generatels makes from this seed.  (Keccak512 has outputs of 64
    bytes.) *)
Theorem getCacheFromHeight_history_independent blocks block :
  ∃ caches c caches', (init ← se_lift (NewcacheSeed Keccak512); _ ← se_put init; requests blocks) []
      = (Ok tt, caches)
    ∧ getCacheFromHeight Keccak256 Keccak512 block caches = (Ok c, caches')
    ∧ seed c = Nat.iter (Z.to_nat (block / EpochLength)) Keccak256 (replicate 32 0)
    ∧ ∃ l, ls c = Some l ∧ generatels Keccak512 cacheEntryCnt (seed c) = Ok l.
Proof.
  unfold NewcacheSeed. destruct (generateCache_epoch 0 (replicate 32 0) eq_refl) as (c0&E0&Hc0).
  se_red. rewrite E0.
  assert (caches_ok [c0]) as Hok.
  { split; [done|]. intros [|i] c; [|done]. intros [= <-]. split; [apply Hc0|by right]. }
  revert Hok. generalize [c0]. clear E0 Hc0 c0.
  induction blocks as [|b blocks IH]; intros caches Hok.
  - destruct (getCacheFromHeight_ok block caches Hok) as (c&caches'&E&_&Hc).
    exists caches, c, caches'. split_and!; [done|done|apply Hc..].
  - destruct (getCacheFromHeight_ok b caches Hok) as (c&caches1&E&Hok1&_).
    destruct (IH caches1 Hok1) as (caches2&c'&caches'&E2&Hrest).
    exists caches2, c', caches'. split; [|done]. cbn [requests]. se_red. by rewrite E.
Qed.
End caches.

Lemma getCacheFromHeight_witness :
  ∃ caches c caches',
    (init ← se_lift (NewcacheSeed (fun _ => replicate 64 1)); _ ← se_put init;
     requests (fun m => m) (fun _ => replicate 64 1) [90000; 5]) [] = (Ok tt, caches)
    ∧ getCacheFromHeight (fun m => m) (fun _ => replicate 64 1) 60001 caches = (Ok c, caches')
    ∧ seed c = replicate 32 0.
Proof.
  destruct (getCacheFromHeight_history_independent (fun m => m) (fun _ => replicate 64 1)
    ltac:(done) [90000; 5] 60001) as (caches&c&caches'&E1&E2&Hs&_).
  exists caches, c, caches'. split; [exact E1|]. split; [exact E2|]. exact Hs.
Defined.
