(* ===== verification/QkcNative.v ===== *)
(** * consensus/qkchash/native: the hash on a sorted vector

    Models the reference implementation qkc_hash_sorted_list of
    src/consensus/qkchash/native/qkchash.cpp, which keeps the set in a sorted
    vector, and shows that the Go implementation on the red-black tree computes
    the same hash. *)

From stdpp Require Import sorting.
From S2P Require Import Prelude LLRB LLRBCorrect QkcHash.

Local Open Scope Z_scope.

(** ** util.h and qkchash.cpp *)

Definition FNV_PRIME_64 : Z := 0x100000001b3.
Definition native_fnv64 (v1 v2 : Z) : Z := Z.lxor (u64 (v1 * FNV_PRIME_64)) v2.

(** [a[i]] of an array or a vector. *)
Definition at_ (l : list Z) (i : nat) : Z := default 0 (l !! i).

(** [std::lower_bound] on a sorted vector: the first element that is not smaller. *)
Fixpoint lower_bound (slist : list Z) (p : Z) : nat :=
  match slist with
  | [] => 0
  | x :: slist => if bool_decide (x < p) then S (lower_bound slist p) else 0
  end.

(** The inner loop, [n] times: the data taken out and the vector it leaves, and
    besides what the code returns, the values it inserted. *)
Fixpoint native_access (n : nat) (p : Z) (slist : list Z) : list Z * list Z * list Z :=
  match n with
  | O => ([], slist, [])
  | S n =>
      let idx := Z.to_nat (u32 (p mod Z.of_nat (length slist))) in
      let new_data := at_ slist idx in
      let slist := take idx slist ++ drop (S idx) slist in
      let p := native_fnv64 p new_data in
      let it := lower_bound slist p in
      let slist := if bool_decide (it = length slist) || negb (bool_decide (at_ slist it = p))
                   then take it slist ++ p :: drop it slist else slist in
      let '(rest, slist', inserted) := native_access n (native_fnv64 p new_data) slist in
      (new_data :: rest, slist', p :: inserted)
  end.

Definition native_round (seed : list Z) (st : list Z * list Z * list Z) (i : nat) : list Z * list Z * list Z :=
  let '(mix, slist, inserted) := st in
  let p := native_fnv64 (Z.lxor (Z.of_nat i) (at_ seed 0)) (at_ mix (i mod 16)) in
  let '(new_data, slist, ins) := native_access 16 p slist in
  (map (fun j => native_fnv64 (at_ mix j) (at_ new_data j)) (seq 0 16), slist, inserted ++ ins).

Definition qkc_hash_sorted_list (slist seed : list Z) : list Z * list Z * list Z :=
  let mix := map (fun i => at_ seed (i mod 8)) (seq 0 16) in
  let '(mix, slist, inserted) := foldl (native_round seed) (mix, slist, []) (seq 0 64) in
  (map (fun i => native_fnv64 (native_fnv64 (native_fnv64 (at_ mix (i * 4)) (at_ mix (i * 4 + 1))) (at_ mix (i * 4 + 2)))
                   (at_ mix (i * 4 + 3))) (seq 0 4), slist, inserted).

(** wrapper.go: the seed as eight little-endian words. *)
Definition seedArray (seed : list Z) : list Z := map (fun i => be_value (rev (take 8 (drop (i * 8) seed)))) (seq 0 8).

(** ** The set operations agree *)

Lemma lower_bound_insert l p :
  sorted l →
  (if bool_decide (lower_bound l p = length l) || negb (bool_decide (at_ l (lower_bound l p) = p))
   then take (lower_bound l p) l ++ p :: drop (lower_bound l p) l else l) = list_insert p l.
Proof.
  induction 1 as [|x l Hs IH Hx]; [done|]. cbn [lower_bound list_insert].
  destruct (decide (x < p)) as [Hlt|Hge].
  - rewrite (bool_decide_true (x < p)), (bool_decide_false (p < x)) by lia. cbn [length take drop].
    rewrite <- IH. change (at_ (x :: l) (S (lower_bound l p))) with (at_ l (lower_bound l p)).
    replace (bool_decide (S (lower_bound l p) = S (length l))) with (bool_decide (lower_bound l p = length l))
      by (apply bool_decide_ext; lia).
    by destruct (bool_decide (lower_bound l p = length l) || _).
  - rewrite (bool_decide_false (x < p)) by lia. rewrite (bool_decide_false (0%nat = length (x :: l))) by (cbn; lia).
    change (at_ (x :: l) 0) with x. cbn [orb take drop app]. destruct (decide (x = p)) as [->|Hne].
    + rewrite (bool_decide_true (p = p)), (bool_decide_false (p < p)) by lia. done.
    + rewrite (bool_decide_false (x = p)), (bool_decide_true (p < x)) by lia. done.
Qed.

Lemma lxor_u64 a b : in_u64 a → in_u64 b → in_u64 (Z.lxor a b).
Proof.
  intros Ha Hb. assert (0 <= Z.lxor a b) by (apply Z.lxor_nonneg; unfold in_u64 in *; lia). split; [done|].
  destruct (decide (Z.lxor a b = 0)) as [->|]; [lia|]. apply Z.log2_lt_pow2; [lia|].
  assert (∀ x, in_u64 x → Z.log2 x < 64) as Hl.
  { intros x Hx. unfold in_u64 in Hx. destruct (decide (x = 0)) as [->|]; [done|]. apply Z.log2_lt_pow2; lia. }
  pose proof (Hl a Ha). pose proof (Hl b Hb). pose proof (Z.log2_lxor a b). unfold in_u64 in *. lia.
Qed.
Lemma native_fnv64_in a b : in_u64 b → in_u64 (native_fnv64 a b).
Proof. intros Hb. apply lxor_u64; [apply u64_in|done]. Qed.
Lemma fnv64_native a b : fnv64 a b = native_fnv64 a b.
Proof. done. Qed.

Section hash.
Context (bound : Z) (Hbound : bound < 2 ^ 32).
(** A vector the hash can run on. *)
Record vec_ok (l : list Z) : Prop := {
  v_sorted : sorted l;
  v_range : Forall (fun x => in_u64 x ∧ x ≠ Null_Value) l;
  v_length : 1 <= Z.of_nat (length l) <= bound;
}.

Lemma remove_at_sorted i l : sorted l → sorted (remove_at i l).
Proof.
  intros Hs. destruct (decide (i < length l)%nat) as [Hi|Hi].
  - destruct (lookup_lt_is_Some_2 l i Hi) as [x Hx]. apply list_elem_of_split_length in Hx as (a & b & -> & ->).
    rewrite remove_at_mid. apply sorted_mid in Hs as (Ha & Hb & Hax & Hbx).
    clear -Ha Hb Hax Hbx. induction a as [|y a IH]; [done|]. cbn. inversion_clear Ha. inversion_clear Hax. constructor; [by apply IH|].
    apply Forall_app. split; [done|]. eapply Forall_impl; [exact Hbx|]. cbn. lia.
  - unfold remove_at. by rewrite take_ge, drop_ge, app_nil_r by lia.
Qed.
Lemma remove_at_range P i (l : list Z) : Forall P l → Forall P (remove_at i l).
Proof. intros Hl. apply Forall_app. split; [by apply Forall_take|by apply Forall_drop]. Qed.
Lemma length_remove_at i l : (i < length l)%nat → length (remove_at i l) = (length l - 1)%nat.
Proof. intros Hi. unfold remove_at. rewrite length_app, length_take, length_drop. lia. Qed.

Lemma access_native n p l :
  vec_ok l → in_u64 p →
  let '(d, l', ins) := native_access n p l in
  Null_Value ∉ ins → access n p l = (Ok d, l') ∧ vec_ok l' ∧ length d = n ∧ Forall in_u64 d.
Proof.
  revert p l. induction n as [|n IH]; intros p l Hl Hp; cbn [native_access]; [intros _; by split_and!|].
  pose proof Hl as [Hs Hr Hlen]. set (len := Z.of_nat (length l)) in *.
  pose proof (Z.mod_pos_bound p len ltac:(lia)) as Hm. set (i := p mod len) in *.
  rewrite (u32_id i) by (unfold in_u32; lia).
  assert (Z.to_nat i < length l)%nat as Hi by (unfold len in *; lia). destruct (lookup_lt_is_Some_2 l _ Hi) as [v Hv].
  assert (at_ l (Z.to_nat i) = v) as -> by (unfold at_; by rewrite Hv).
  assert (in_u64 v) as Hvr by (rewrite Forall_forall in Hr; apply Hr; by eapply list_elem_of_lookup_2).
  fold (remove_at (Z.to_nat i) l). set (l1 := remove_at (Z.to_nat i) l).
  assert (sorted l1) as Hs1 by (by apply remove_at_sorted). rewrite lower_bound_insert by done.
  set (p1 := native_fnv64 p v). assert (in_u64 p1) as Hp1 by (by apply native_fnv64_in).
  specialize (IH (native_fnv64 p1 v) (list_insert p1 l1)).
  destruct (native_access n (native_fnv64 p1 v) (list_insert p1 l1)) as [[d l2] ins] eqn:En. intros Hins.
  apply not_elem_of_cons in Hins as [Hne Hins].
  assert (length l1 = length l - 1)%nat as Hl1 by (by apply length_remove_at).
  assert (vec_ok (list_insert p1 l1)) as Hok.
  { constructor; [by apply sorted_list_insert| |].
    - apply Forall_forall. intros x Hx. apply elem_of_list_insert in Hx as [->|Hx]; [done|].
      revert x Hx. apply Forall_forall. by apply remove_at_range.
    - rewrite length_list_insert by done. destruct (decide (p1 ∈ l1)) as [Hin|Hin]; [|lia].
      apply list_elem_of_split in Hin as (a & b & E). rewrite E, length_app in *. cbn in *. lia. }
  destruct (IH Hok ltac:(by apply native_fnv64_in) Hins) as (Hrun & Hok2 & Hd & Hdr).
  split_and!; [|done|by cbn; rewrite Hd|by constructor].
  cbn [access]. se_red. change (set_size l) with len. rewrite bool_decide_false by lia.
  assert (i64 (p mod u64 len) = i) as ->.
  { rewrite (u64_id len) by (unfold in_u64; lia). apply i64_small. lia. }
  cbn [set_delete_at list_set]. rewrite decide_True by (cbn; lia). cbn [abs_op fst snd]. rewrite Hv. cbn [default from_option id].
  rewrite !fnv64_native. fold p1 l1. cbn [set_insert list_set]. rewrite decide_True by done. cbn [abs_op snd]. rewrite fnv64_native, Hrun. done.
Qed.

Lemma zip_with_native mix d :
  length mix = 16%nat → length d = 16%nat →
  zip_with fnv64 mix d = map (fun j => native_fnv64 (at_ mix j) (at_ d j)) (seq 0 16).
Proof.
  intros Hm Hd. apply list_eq. intros i. rewrite lookup_zip_with, list_lookup_fmap. destruct (decide (i < 16)%nat) as [Hi|Hi].
  - rewrite lookup_seq_lt by done. destruct (lookup_lt_is_Some_2 mix i ltac:(lia)) as [x Hx].
    destruct (lookup_lt_is_Some_2 d i ltac:(lia)) as [y Hy]. rewrite Hx, Hy. cbn. unfold at_. by rewrite Hx, Hy.
  - rewrite (lookup_ge_None_2 mix), (lookup_ge_None_2 (seq 0 16)) by (rewrite ?length_seq; lia). done.
Qed.

Lemma foldl_inserted seed mix l ins0 ix :
  ins0 ⊆ (foldl (native_round seed) (mix, l, ins0) ix).2.
Proof.
  revert mix l ins0. induction ix as [|i ix IH]; intros mix l ins0; [done|]. cbn [foldl]. unfold native_round at 2.
  destruct (native_access _ _ _) as [[d l1] ins1]. etrans; [|apply IH]. set_solver.
Qed.

Lemma rounds_native seed mix l ins0 ix :
  vec_ok l → in_u64 (at_ seed 0) → Forall (fun i => Z.of_nat i < 2 ^ 64) ix → length mix = 16%nat → Forall in_u64 mix →
  let '(mix', l', ins) := foldl (native_round seed) (mix, l, ins0) ix in
  Null_Value ∉ ins →
  mix_rounds (at_ seed 0) mix ix l = (Ok mix', l') ∧ vec_ok l' ∧ length mix' = 16%nat.
Proof.
  intros Hl Hseed Hix. revert mix l ins0 Hl. induction Hix as [|i ix Hi Hix IH]; intros mix l ins0 Hl Hmix Hr; cbn [foldl]; [done|].
  unfold native_round at 2. set (p := native_fnv64 (Z.lxor (Z.of_nat i) (at_ seed 0)) (at_ mix (i mod 16))).
  assert (i mod 16 < 16)%nat as Him by (apply Nat.mod_upper_bound; lia).
  destruct (lookup_lt_is_Some_2 mix (i mod 16) ltac:(lia)) as [x Hx].
  assert (in_u64 p) as Hp.
  { apply native_fnv64_in. unfold at_. rewrite Hx. rewrite Forall_forall in Hr. apply Hr. by eapply list_elem_of_lookup_2. }
  pose proof (access_native 16 p l Hl Hp) as Ha. destruct (native_access 16 p l) as [[d l1] ins1] eqn:En.
  set (mix1 := map _ (seq 0 16)). pose proof (foldl_inserted seed mix1 l1 (ins0 ++ ins1) ix) as Hsub.
  specialize (IH mix1 l1 (ins0 ++ ins1)).
  destruct (foldl (native_round seed) (mix1, l1, ins0 ++ ins1) ix) as [[mix' l'] ins] eqn:Ef. intros Hins.
  cbn [snd] in Hsub.
  destruct Ha as (Hrun & Hl1 & Hd & Hdr); [intros Hin; apply Hins, Hsub, elem_of_app; by right|].
  assert (Forall in_u64 mix1) as Hm1.
  { apply Forall_forall. intros y Hy. apply list_elem_of_fmap in Hy as (j & -> & Hj). apply elem_of_seq in Hj.
    destruct (lookup_lt_is_Some_2 d j ltac:(lia)) as [z Hz]. apply native_fnv64_in. unfold at_. rewrite Hz. cbn.
    rewrite Forall_forall in Hdr. apply Hdr. by eapply list_elem_of_lookup_2. }
  destruct IH as (IHr & Hl' & Hm'); [done|unfold mix1; by rewrite length_map, length_seq|done|done|]. split; [|split; assumption].
  cbn [mix_rounds]. unfold mix_round. rewrite Hmix, !fnv64_native. fold (at_ mix (i mod 16)). fold p. se_red. rewrite Hrun.
  by rewrite (zip_with_native mix d Hmix Hd).
Qed.
End hash.

Lemma insert_all_sorted pre ls :
  sorted (pre ++ ls) → Forall (fun x => in_u64 x ∧ x ≠ Null_Value) ls → insert_all ls pre = (Ok tt, pre ++ ls).
Proof.
  intros Hs Hr. revert pre Hs. induction Hr as [|x ls Hx Hr IH]; intros pre Hs; cbn [insert_all]; [by rewrite app_nil_r|].
  se_red. cbn [set_insert list_set]. rewrite decide_True by done. cbn [abs_op fst snd].
  assert (list_insert x pre = pre ++ [x]) as ->.
  { apply sorted_mid in Hs as (_ & _ & Hlt & _). rewrite <- (app_nil_r pre) at 1. by rewrite list_insert_skip. }
  rewrite IH; by rewrite <- app_assoc.
Qed.

Lemma LE_word seed i : length seed = 64%nat → (i < 8)%nat →
  LE_Uint64 (drop (i * 8) seed) = Ok (at_ (seedArray seed) i).
Proof.
  intros Hl Hi. unfold LE_Uint64. rewrite bool_decide_false by (rewrite length_drop; lia).
  unfold at_, seedArray. rewrite list_lookup_fmap, lookup_seq_lt by done. done.
Qed.
Lemma init_mix_native seed ix : length seed = 64%nat →
  init_mix seed ix = Ok (map (fun i => at_ (seedArray seed) (i mod 8)) ix).
Proof.
  intros Hl. induction ix as [|i ix IH]; [done|]. cbn [init_mix map].
  rewrite LE_word by (first [done | apply Nat.mod_upper_bound; lia]). by rewrite IH.
Qed.
Lemma seedArray_in seed i : bytes_ok seed → in_u64 (at_ (seedArray seed) i).
Proof.
  intros Hb. unfold at_, seedArray. rewrite list_lookup_fmap. destruct (seq 0 8 !! i) as [j|]; [|done]. cbn.
  set (w := rev (take 8 (drop (j * 8) seed))).
  assert (bytes_ok w) as Hw by (apply Forall_rev, Forall_take, Forall_drop, Hb).
  assert (length w <= 8)%nat as Hlen by (unfold w; rewrite length_rev, length_take; lia).
  rewrite <- (be_bytes_value w Hw), be_value_bytes.
  pose proof (Z.mod_pos_bound (be_value w) (256 ^ Z.of_nat (length w)) (pow256_pos _)) as Hm.
  assert (256 ^ Z.of_nat (length w) <= 256 ^ 8) by (apply Z.pow_le_mono_r; lia). unfold in_u64. lia.
Qed.
Lemma compress_native mix : length mix = 16%nat →
  compress mix = map (fun i => native_fnv64 (native_fnv64 (native_fnv64 (at_ mix (i * 4)) (at_ mix (i * 4 + 1)))
                                (at_ mix (i * 4 + 2))) (at_ mix (i * 4 + 3))) (seq 0 4).
Proof. intros Hl. do 16 (destruct mix as [|? mix]; [done|]). by destruct mix. Qed.

(** C22: the Go implementation of qkchash on the red-black tree computes the hash
    that the reference implementation on a sorted vector computes.  For a cache of
    at least one and fewer than 2^32 distinct 64-bit words in order (as generatels
    makes them), none of which is the sentinel Null_Value, and a seed of 64 bytes,
    unless the reference run inserts the sentinel: HashWithRotationStats returns the four words of the reference,
    xor-ed with the rotation counts of the tree when asked to, and the tree then
    holds what the vector holds. *)
Theorem HashWithRotationStats_native ls seed :
  sorted ls → Forall (fun x => in_u64 x ∧ x ≠ Null_Value) ls → 1 <= Z.of_nat (length ls) < 2 ^ 32 →
  length seed = 64%nat → bytes_ok seed →
  let '(res, slist, inserted) := qkc_hash_sorted_list ls (seedArray seed) in
  Null_Value ∉ inserted →
  HashWithRotationStats ls seed false = Ok res ∧ length res = 4%nat
  ∧ ∃ tree, hash_mix ls seed new_llrb = (Ok res, tree) ∧ Represents tree slist
    ∧ HashWithRotationStats ls seed true = Ok (zip_with Z.lxor res (rotationStats tree)).
Proof.
  intros Hs Hr Hlen Hseed Hb. unfold qkc_hash_sorted_list. set (mix := map _ (seq 0 16)).
  pose proof (rounds_native (2 ^ 32 - 1) ltac:(lia) (seedArray seed) mix ls [] (seq 0 64)) as H.
  destruct (foldl (native_round (seedArray seed)) (mix, ls, []) (seq 0 64)) as [[mix' slist] ins]. intros Hins.
  destruct H as (Hrun & _ & Hm'); [constructor; [done|done|lia]|by apply seedArray_in| |done| |done|].
  { apply Forall_forall. intros i Hi. apply elem_of_seq in Hi. lia. }
  { apply Forall_forall. intros x Hx. apply list_elem_of_fmap in Hx as (i & -> & _). by apply seedArray_in. }
  set (res := map _ (seq 0 4)). assert (hash_mix ls seed [] = (Ok res, slist)) as Hh.
  { unfold hash_mix. rewrite bool_decide_false by (by intros H). se_red. rewrite insert_all_sorted by done. cbn [app].
    pose proof (LE_word seed 0 Hseed ltac:(lia)) as H0. change (drop (0 * 8) seed) with seed in H0. rewrite H0, init_mix_native by done.
    unfold mix_len, accessRound. fold mix. rewrite Hrun, compress_native by done. done. }
  destruct (hash_on_tree ls seed res slist Hh) as (tree & Ht & Hrep). unfold HashWithRotationStats. rewrite Ht.
  split_and!; [done|by unfold res; rewrite length_map, length_seq|]. by exists tree.
Qed.

Definition sample_seed : list Z := map (fun i => (i * 37 + 11) mod 256) (seqZ 0 64).
Definition sample_ls : list Z := map (fun i => i * i * 1000003 + 17) (seqZ 1 8).

Lemma HashWithRotationStats_witness :
  ∃ res, HashWithRotationStats sample_ls sample_seed false = Ok res ∧ length res = 4%nat.
Proof.
  pose proof (HashWithRotationStats_native sample_ls sample_seed) as H.
  assert (bool_decide (Null_Value ∉ (qkc_hash_sorted_list sample_ls (seedArray sample_seed)).2) = true) as Hn by (vm_compute; reflexivity).
  apply bool_decide_eq_true_1 in Hn.
  destruct (qkc_hash_sorted_list sample_ls (seedArray sample_seed)) as [[res slist] ins].
  destruct H as (Hh & Hl & _).
  - repeat (constructor; [|repeat (constructor; [reflexivity|]); constructor]). constructor.
  - repeat (constructor; [split; [split; [discriminate|reflexivity]|discriminate]|]). constructor.
  - split; [discriminate|reflexivity].
  - reflexivity.
  - apply (bool_decide_unpack _). vm_compute. exact I.
  - exact Hn.
  - exists res. exact (conj Hh Hl).
Defined.
