(* ===== verification/TokenBalances.v ===== *)
(** * core/types: token balances

    Models src/core/types/token.go.  An account's balances are a cache over an
    optional token trie; the trie is a mutable object that copies share, so a
    [tokenTrie] is a location in a heap of tries.  go-ethereum's secure trie and
    RLP are parameters, given as classes of operations with the laws the code
    relies on.  Iterating a Go map visits each key once in no fixed order; the
    model folds over the map. *)

From stdpp Require Import sorting countable.
From S2P Require Import Prelude Utils ByteBuffer Serialize SerializeCorrect.

Local Open Scope Z_scope.

(** ** go-ethereum: secure tries and RLP *)

Class SecureTrie (tr : Type) := {
  (** [trie.NewSecure(root, db, 0)]; the flag says whether [db] is non-nil *)
  NewSecure : list Z → bool → result tr;
  trie_get : tr → list Z → list Z;
  trie_update : tr → list Z → list Z → tr;
  trie_delete : tr → list Z → tr;
  trie_commit : tr → tr;
  trie_hash : tr → list Z;
}.

(** What the code relies on: a trie is a map from keys to non-empty values, the
    zero root is the empty trie, a committed trie can be opened by its root. *)
Class SecureTrieLaws (tr : Type) `{SecureTrie tr} := {
  get_update t k v k' : trie_get (trie_update t k v) k' = if decide (k' = k) then v else trie_get t k';
  get_delete t k k' : trie_get (trie_delete t k) k' = if decide (k' = k) then [] else trie_get t k';
  get_commit t k : trie_get (trie_commit t) k = trie_get t k;
  new_empty : ∃ t, NewSecure (replicate 32 0) true = Ok t ∧ ∀ k, trie_get t k = [];
  new_committed t : ∃ t', NewSecure (trie_hash (trie_commit t)) true = Ok t'
                          ∧ ∀ k, trie_get t' k = trie_get t k;
  hash_length t : length (trie_hash t) = 32%nat;
}.

Class Rlp := {
  rlp_big : Z → list Z;                       (* EncodeToBytes of a big.Int *)
  rlp_big_dec : list Z → option Z;
  rlp_pairs : list (Z * Z) → list Z;          (* Encode of []*TokenBalancePair *)
  rlp_pairs_dec : list Z → option (list (Z * Z));
}.

Definition pair_ok (p : Z * Z) : Prop := in_u64 p.1 ∧ 0 <= p.2.

Class RlpLaws `{Rlp} := {
  rlp_big_nonempty z : rlp_big z ≠ [];
  rlp_big_roundtrip z : 0 <= z → rlp_big_dec (rlp_big z) = Some z;
  rlp_pairs_roundtrip l : Forall pair_ok l → rlp_pairs_dec (rlp_pairs l) = Some l;
}.

(** ** token.go *)

Definition TokenTrieThreshold : nat := 16.

Record TokenBalances := mkTB {
  tb_db : bool;              (* db is not nil *)
  tokenTrie : option nat;
  balances : gmap Z Z;
}.

Definition NewEmptyTokenBalances : TokenBalances := mkTB false None ∅.
Definition NewTokenBalancesWithMap (data : gmap Z Z) : TokenBalances := mkTB false None data.

Definition Len (t : TokenBalances) : nat := base.size (balances t).

Definition nonZeroEntriesInBalancesCache (t : TokenBalances) : nat :=
  base.size (filter (fun kv : Z * Z => 0 < kv.2) (balances t)).

Definition IsBlank (t : TokenBalances) : bool :=
  bool_decide (tokenTrie t = None) && bool_decide (nonZeroEntriesInBalancesCache t = 0%nat).

Definition notUsingTrie (t : TokenBalances) : bool :=
  bool_decide (tokenTrie t = None)
  && bool_decide (nonZeroEntriesInBalancesCache t ≤ TokenTrieThreshold)%nat.

(** A copy has its own cache. *)
Definition TB_Copy (t : TokenBalances) : TokenBalances := mkTB false None (balances t).

(** [CopyWithDB] also copies the pointer to the trie. *)
Definition CopyWithDB (t : TokenBalances) : TokenBalances :=
  mkTB (tb_db t) (tokenTrie t) (balances t).

Definition GetBalanceMap (t : TokenBalances) : gmap Z Z := balances (TB_Copy t).

Definition SetValue (amount tokenID : Z) (t : TokenBalances) : result TokenBalances :=
  if bool_decide (amount < 0) then Panic "serious bug !!!!!!!!!!!!!"
  else Ok (mkTB (tb_db t) (tokenTrie t) (<[tokenID := amount]> (balances t))).

(** [t.balances[k] = v + data] where present, [v] otherwise. *)
Definition Add (other : gmap Z Z) (t : TokenBalances) : TokenBalances :=
  mkTB (tb_db t) (tokenTrie t) (union_with (fun data v => Some (v + data)) (balances t) other).

(** The trie objects, by location. *)
Abbreviation heap := (gmap nat).

Section tries.
Context `{SecureTrie tr, Rlp}.

(** Allocating a trie object and reading one. *)
Definition alloc (t : tr) : SE (heap tr) nat := fun h =>
  let l := fresh (dom h) in (Ok l, <[l := t]> h).
Definition deref (h : heap tr) (l : nat) : result tr :=
  match h !! l with Some t => Ok t | None => Panic "dangling trie" end.

(** The balance, and the cache after the read. *)
Definition GetTokenBalance (h : heap tr) (tokenID : Z) (t : TokenBalances)
    : result (Z * TokenBalances) :=
  match balances t !! tokenID with
  | Some data => Ok (data, t)
  | None =>
      match tokenTrie t with
      | Some l =>
          T ← deref h l;
          match trie_get T (EncodeToByte32 tokenID) with
          | [] => Ok (0, t)
          | v => match rlp_big_dec v with
                 | None => Panic "rlp"
                 | Some ret =>
                     Ok (ret, mkTB (tb_db t) (tokenTrie t) (<[tokenID := ret]> (balances t)))
                 end
          end
      | None => Ok (0, t)
      end
  end.

(** One iteration of the loop of [Commit]. *)
Definition commit_entry (tokenID bal : Z) (T : tr) : tr :=
  let k := EncodeToByte32 tokenID in
  if bool_decide (0 < bal) then trie_update T k (rlp_big bal) else trie_delete T k.

Definition TB_Commit (t : TokenBalances) : SE (heap tr) TokenBalances :=
  if notUsingTrie t then mret t
  else
    l ← (match tokenTrie t with
         | Some l => mret l
         | None => T ← se_lift (NewSecure (replicate 32 0) (tb_db t)); alloc T
         end);
    h ← se_get;
    T ← se_lift (deref h l);
    let T := trie_commit (map_fold commit_entry T (balances t)) in
    _ ← se_put (<[l := T]> h);
    mret (mkTB (tb_db t) (Some l) ∅).


#[local] Instance pair_le_dec (p q : Z * Z) : Decision (p.1 <= q.1).
Proof. apply _. Defined.



End tries.

(** ** The wire format of a balance map *)

Definition sorted_keys (t : TokenBalances) : list Z :=
  merge_sort Z.le (map fst (map_to_list (balances t))).

Fixpoint serialize_keys (m : gmap Z Z) (keys : list Z) : W unit :=
  match keys with
  | [] => mret tt
  | key :: keys =>
      _ ← serializeBigInt key;
      _ ← serializeBigInt (default 0 (m !! key));
      serialize_keys m keys
  end.

Definition TB_Serialize (t : TokenBalances) : W unit :=
  let keys := sorted_keys t in
  _ ← append (be_bytes 4 (u32 (Z.of_nat (length keys))));
  serialize_keys (balances t) keys.

(** [serialize.Deserialize(bb, k)] for a big.Int. *)
Definition get_big : R Z := bytes ← GetVarBytes 1; mret (big_SetBytes bytes).

Fixpoint deserialize_entries (num : nat) (m : gmap Z Z) : R (gmap Z Z) :=
  match num with
  | O => mret m
  | S num =>
      k ← get_big;
      v ← get_big;
      deserialize_entries num (if bool_decide (v = 0) then m else <[u64 k := v]> m)
  end.

Definition TB_Deserialize (t : TokenBalances) : R TokenBalances :=
  num ← GetUInt32;
  m ← deserialize_entries (Z.to_nat num) ∅;
  mret (mkTB (tb_db t) (tokenTrie t) m).

(** ** Correctness *)

Lemma EncodeToByte32_inj a b :
  in_u64 a → in_u64 b → EncodeToByte32 a = EncodeToByte32 b → a = b.
Proof.
  intros Ha Hb E. destruct (EncodeToByte32_spec a Ha) as [_ <-].
  destruct (EncodeToByte32_spec b Hb) as [_ <-]. by rewrite E.
Qed.

Section correct.
Context `{SecureTrieLaws tr, RlpLaws}.
Implicit Types (h : gmap nat tr) (T : tr) (t : TokenBalances).

(** What a trie says of a token, and what the balances say through the cache. *)
Definition trie_value T (id : Z) : Z :=
  match trie_get T (EncodeToByte32 id) with
  | [] => 0
  | v => default 0 (rlp_big_dec v)
  end.

Definition balance_of h t (id : Z) : Z :=
  match balances t !! id with
  | Some v => v
  | None => match tokenTrie t ≫= fun l => h !! l with
            | Some T => trie_value T id
            | None => 0
            end
  end.

(** Every token of a trie is a balance; the cache holds balances. *)
Definition trie_ok T : Prop :=
  ∀ id, in_u64 id → trie_get T (EncodeToByte32 id) = []
                    ∨ ∃ z, 0 < z ∧ trie_get T (EncodeToByte32 id) = rlp_big z.

Definition wf_tb h t : Prop :=
  map_Forall (fun id v => in_u64 id ∧ 0 <= v) (balances t)
  ∧ match tokenTrie t with
    | Some l => ∃ T, h !! l = Some T ∧ trie_ok T
    | None => True
    end.

(** An encoded balance is not the empty value: resolve a match on it. *)
Ltac rlp_nonempty z :=
  let E := fresh in
  destruct (rlp_big z) as [|? ?] eqn:E; [by apply rlp_big_nonempty in E|rewrite <- E; clear E].

Lemma trie_value_rlp T id z :
  0 <= z → trie_get T (EncodeToByte32 id) = rlp_big z → trie_value T id = z.
Proof.
  intros Hz E. unfold trie_value. rewrite E. rlp_nonempty z.
  by rewrite rlp_big_roundtrip.
Qed.

Lemma GetTokenBalance_ok h t id :
  wf_tb h t → in_u64 id →
  ∃ t', GetTokenBalance h id t = Ok (balance_of h t id, t') ∧ wf_tb h t'
        ∧ ∀ id', balance_of h t' id' = balance_of h t id'.
Proof.
  intros [Hb Ht] Hid. unfold GetTokenBalance, balance_of.
  destruct (balances t !! id) as [v|] eqn:Hv; [by exists t|].
  destruct (tokenTrie t) as [l|] eqn:Hl; cbn [mbind option_bind]; [|exists t; unfold wf_tb; by rewrite Hl].
  destruct Ht as (T&HT&Hok). unfold deref. rewrite HT. cbn [mbind result_bind].
  destruct (Hok id Hid) as [E|(z&Hz&E)].
  - rewrite E. exists t. unfold trie_value. rewrite E. split_and!; [done| |].
    + split; [done|]. rewrite Hl. eauto.
    + intros id'. rewrite Hl. cbn. by rewrite HT.
  - pose proof (trie_value_rlp T id z ltac:(lia) E) as Hval.
    rewrite Hval, E. rlp_nonempty z.
    rewrite rlp_big_roundtrip by lia.
    eexists. split_and!; [done| |].
    + split; cbn [balances tokenTrie].
      * apply map_Forall_insert_2; [split; [done|lia]|done].
      * eauto.
    + intros id'. cbn. destruct (decide (id' = id)) as [->|].
      * rewrite lookup_insert_eq, Hv. by rewrite Hval.
      * rewrite lookup_insert_ne, HT by done. done.
Qed.

Lemma trie_get_entry T id bal k :
  trie_get (commit_entry id bal T) k =
  if decide (k = EncodeToByte32 id) then (if bool_decide (0 < bal) then rlp_big bal else [])
  else trie_get T k.
Proof.
  unfold commit_entry. case_bool_decide; [by rewrite get_update|by rewrite get_delete].
Qed.

(** The loop of [Commit] writes the cache into the trie. *)
Lemma commit_loop T0 (m : gmap Z Z) :
  trie_ok T0 → map_Forall (fun id v => in_u64 id ∧ 0 <= v) m →
  trie_ok (map_fold commit_entry T0 m)
  ∧ ∀ id, in_u64 id →
      trie_value (map_fold commit_entry T0 m) id = default (trie_value T0 id) (m !! id).
Proof.
  intros HT0. revert m. apply (map_fold_weak_ind (fun T m =>
    map_Forall (fun id v => in_u64 id ∧ 0 <= v) m →
    trie_ok T ∧ ∀ id, in_u64 id → trie_value T id = default (trie_value T0 id) (m !! id)));
    [intros _; split; [done|]; intros id _; by rewrite lookup_empty|].
  intros k v m T Hk IH Hm. apply map_Forall_insert in Hm as [[Hku Hv] Hm]; [|done].
  destruct (IH Hm) as [Hok Hval]. split.
  - intros id Hid. rewrite trie_get_entry. case_decide as E.
    + case_bool_decide; [right; exists v; split; [lia|done]|by left].
    + by apply Hok.
  - intros id Hid. destruct (decide (id = k)) as [->|Hne].
    + rewrite lookup_insert_eq. cbn. unfold trie_value.
      rewrite trie_get_entry, decide_True by done. case_bool_decide.
      * rlp_nonempty v. by rewrite rlp_big_roundtrip by lia.
      * lia.
    + rewrite lookup_insert_ne by done. rewrite <- Hval by done. unfold trie_value.
      rewrite trie_get_entry, decide_False; [done|].
      intros E. by apply EncodeToByte32_inj in E.
Qed.


Lemma trie_value_commit T id : trie_value (trie_commit T) id = trie_value T id.
Proof. unfold trie_value. by rewrite get_commit. Qed.








(** A copy made with [CopyWithDB] shares the token trie with its original:
    once a balance is set in the copy and the copy is committed, the
    original reads the copy's balance for every token it has not cached. *)
Theorem copy_shares_token_trie h t l id v :
  wf_tb h t → tokenTrie t = Some l → in_u64 id → balances t !! id = None → 0 <= v →
  ∃ t1 t2 h', SetValue v id (CopyWithDB t) = Ok t1 ∧ TB_Commit t1 h = (Ok t2, h')
    ∧ balance_of h' t id = v.
Proof.
  intros Hwf Hl Hid Hnone Hv. destruct Hwf as [Hb Ht]. rewrite Hl in Ht.
  destruct Ht as (T&HT&Hok).
  unfold SetValue, CopyWithDB. cbn. rewrite bool_decide_false by lia.
  do 3 eexists. split; [done|].
  assert (map_Forall (fun id v => in_u64 id ∧ 0 <= v) (<[id := v]> (balances t))) as Hb'
    by (by apply map_Forall_insert_2).
  destruct (commit_loop T _ Hok Hb') as [_ Hval]. split.
  - unfold TB_Commit, notUsingTrie. cbn. rewrite Hl. cbn. se_red. unfold deref. rewrite HT. done.
  - unfold balance_of. rewrite Hnone, Hl. cbn. rewrite lookup_insert_eq.
    rewrite trie_value_commit, Hval by done. by rewrite lookup_insert_eq.
Qed.
End correct.

(** ** A concrete trie and encoding

    They show that the laws above can hold together: a trie is a finite map,
    its hash is an injective code of it. *)
Definition map_trie_hash (t : gmap (list Z) (list Z)) : list Z := Zpos (encode t) :: replicate 31 0.

#[export] Instance map_trie : SecureTrie (gmap (list Z) (list Z)) := {
  NewSecure root db :=
    if db then match root with
               | Zpos p :: _ => Ok (default ∅ (decode p))
               | _ => Ok ∅
               end
    else Panic "trie.NewSecure called without a database";
  trie_get t k := default [] (t !! k);
  trie_update t k v := <[k := v]> t;
  trie_delete t k := base.delete k t;
  trie_commit t := t;
  trie_hash := map_trie_hash;
}.

#[export] Instance map_trie_laws : SecureTrieLaws (gmap (list Z) (list Z)).
Proof.
  split.
  - intros t k v k'. cbn. case_decide as E; [subst; by rewrite lookup_insert_eq|].
    by rewrite lookup_insert_ne.
  - intros t k k'. cbn. case_decide as E; [subst; by rewrite lookup_delete_eq|].
    by rewrite lookup_delete_ne.
  - done.
  - by exists ∅.
  - intros t. exists t. cbn. by rewrite decode_encode.
  - intros t. done.
Qed.

Fixpoint flatten_pairs (l : list (Z * Z)) : list Z :=
  match l with [] => [] | (k, v) :: l => k :: v :: flatten_pairs l end.
Fixpoint unflatten_pairs (l : list Z) : option (list (Z * Z)) :=
  match l with
  | [] => Some []
  | k :: v :: l => cons (k, v) <$> unflatten_pairs l
  | _ => None
  end.

#[export] Instance flat_rlp : Rlp := {
  rlp_big z := [z];
  rlp_big_dec l := match l with [z] => Some z | _ => None end;
  rlp_pairs := flatten_pairs;
  rlp_pairs_dec := unflatten_pairs;
}.

#[export] Instance flat_rlp_laws : RlpLaws.
Proof.
  split; [done|done|]. intros l _. cbn.
  induction l as [|[k v] l IH]; cbn; [done|]. by rewrite IH.
Qed.

(** Seventeen tokens: more than the threshold. *)
Definition many_tokens : gmap Z Z := list_to_map (map (fun i => (i, i * 100)) (seqZ 1 17)).



Lemma copy_shares_witness :
  ∃ t1 t2 h',
    SetValue 42 5 (CopyWithDB (mkTB true (Some 0%nat) ∅)) = Ok t1
    ∧ TB_Commit t1 ({[ 0%nat := ∅ ]} : heap (gmap (list Z) (list Z))) = (Ok t2, h')
    ∧ balance_of h' (mkTB true (Some 0%nat) ∅) 5 = 42.
Proof.
  apply (copy_shares_token_trie (tr := gmap (list Z) (list Z)) _ _ 0%nat); try done.
  split; [apply map_Forall_empty|]. cbn. exists ∅. split; [done|]. intros id _. by left.
Defined.

(** ** The wire format *)

Lemma get_big_at_rest z enc :
  (∀ pre rest, GetVarBytes 1 (at_rest pre (enc ++ rest)) = (Ok (big_Bytes z), at_rest (pre ++ enc) rest)) →
  0 <= z → ∀ pre rest, get_big (at_rest pre (enc ++ rest)) = (Ok z, at_rest (pre ++ enc) rest).
Proof.
  intros Henc Hz pre rest. unfold get_big. se_red. rewrite Henc, big_SetBytes_Bytes.
  by rewrite Z.abs_eq.
Qed.

Definition entry_ok (m : gmap Z Z) (k : Z) : Prop :=
  in_u64 k ∧ ∃ v, m !! k = Some v ∧ 0 <= v ∧ (big_len v ≤ 255)%nat.

Lemma big_len_u64 k : in_u64 k → (big_len k ≤ 255)%nat.
Proof.
  unfold in_u64. intros Hk. apply big_len_le. eapply Z.lt_le_trans with (2 ^ 64); [lia|].
  by apply Z.leb_le; vm_compute.
Qed.

Lemma serialize_keys_roundtrip m keys :
  Forall (entry_ok m) keys →
  ∃ enc, (∀ w, serialize_keys m keys w = (Ok tt, w ++ enc)) ∧
    ∀ acc pre rest, deserialize_entries (length keys) acc (at_rest pre (enc ++ rest))
      = (Ok (foldl (fun acc k => if bool_decide (default 0 (m !! k) = 0) then acc
                                 else <[k := default 0 (m !! k)]> acc) acc keys),
         at_rest (pre ++ enc) rest).
Proof.
  induction 1 as [|k keys [Hk (v&Hv&Hv0&Hlen)] _ IH].
  { exists []. split; [intros w; cbn; by rewrite app_nil_r|].
    intros acc pre rest. cbn. by rewrite app_nil_r. }
  destruct IH as (enc&Hser&Hdes).
  destruct (codec_bigint k) as (ek&Hek&_&_&Hdk); [unfold in_u64 in Hk; lia|by apply big_len_u64|].
  destruct (codec_bigint v) as (ev&Hev&_&_&Hdv); [done|done|].
  exists (ek ++ ev ++ enc). cbn [serialize_keys deserialize_entries foldl length]. rewrite Hv.
  cbn [default]. split.
  - intros w. se_red. by rewrite Hek, Hev, Hser, <- !app_assoc.
  - intros acc pre rest. se_red. rewrite <- !app_assoc.
    rewrite (get_big_at_rest k ek Hdk) by (unfold in_u64 in Hk; lia).
    rewrite (get_big_at_rest v ev Hdv) by done.
    rewrite Hdes, <- !app_assoc, u64_id by done. done.
Qed.

(** The map the entries build. *)
Lemma foldl_nonzero_lookup (m acc : gmap Z Z) keys k :
  foldl (fun acc k => if bool_decide (default 0 (m !! k) = 0) then acc
                      else <[k := default 0 (m !! k)]> acc) acc keys !! k
  = if decide (k ∈ keys ∧ default 0 (m !! k) ≠ 0) then Some (default 0 (m !! k)) else acc !! k.
Proof.
  revert acc. induction keys as [|k' keys IH]; intros acc; cbn [foldl].
  { rewrite decide_False; [done|]. intros [Hin _]. by apply elem_of_nil in Hin. }
  rewrite IH. destruct (decide (k = k')) as [->|Hne].
  - case_bool_decide as Hz.
    + rewrite !decide_False by tauto. done.
    + rewrite (decide_True (P := k' ∈ k' :: keys ∧ _)) by (split; [set_solver|done]).
      case_decide; [done|]. by rewrite lookup_insert_eq.
  - rewrite (decide_ext (k ∈ k' :: keys ∧ default 0 (m !! k) ≠ 0) (k ∈ keys ∧ default 0 (m !! k) ≠ 0))
      by (rewrite elem_of_cons; tauto).
    case_decide; [done|]. case_bool_decide; [done|]. by rewrite lookup_insert_ne.
Qed.

Lemma elem_of_sorted_keys t k : k ∈ sorted_keys t ↔ is_Some (balances t !! k).
Proof.
  unfold sorted_keys. rewrite (merge_sort_Permutation Z.le (map fst _)).
  rewrite (list_elem_of_fmap fst). split.
  - intros ([k' v]&->&Hin). apply elem_of_map_to_list in Hin. by eexists.
  - intros [v Hv]. exists (k, v). split; [done|]. by apply elem_of_map_to_list.
Qed.

(** A balance map survives the wire: what [Serialize] writes, [Deserialize]
    reads back, without the zero balances, and it leaves the rest of the
    buffer unread. *)
Theorem token_balances_wire_roundtrip t pre rest :
  map_Forall (fun id v => in_u64 id ∧ 0 <= v ∧ (big_len v ≤ 255)%nat) (balances t) →
  (Z.of_nat (Len t) < 2 ^ 32) →
  ∃ enc, (∀ w, TB_Serialize t w = (Ok tt, w ++ enc)) ∧
    ∀ t0, TB_Deserialize t0 (at_rest pre (enc ++ rest))
      = (Ok (mkTB (tb_db t0) (tokenTrie t0) (filter (fun kv : Z * Z => kv.2 ≠ 0) (balances t))),
         at_rest (pre ++ enc) rest).
Proof.
  intros Hm Hlen.
  destruct (serialize_keys_roundtrip (balances t) (sorted_keys t)) as (enc&Hser&Hdes).
  { apply Forall_forall. intros k [v Hv]%elem_of_sorted_keys.
    destruct (Hm k v Hv) as (?&?&?). split; [done|]. by exists v. }
  assert (length (sorted_keys t) = Len t) as Hlk.
  { unfold sorted_keys. rewrite (merge_sort_Permutation Z.le (map fst _)), length_map.
    apply length_map_to_list. }
  set (n := Z.of_nat (length (sorted_keys t))).
  assert (in_u32 n) as Hn by (unfold in_u32, n; rewrite Hlk; lia).
  exists (be_bytes 4 n ++ enc). split.
  - intros w. unfold TB_Serialize, append. se_red. fold n. rewrite u32_id by done.
    by rewrite Hser, <- app_assoc.
  - intros t0. unfold TB_Deserialize, GetUInt32. se_red. rewrite <- app_assoc.
    rewrite (getBytes_at_rest pre (be_bytes 4 n)) by (by rewrite length_be_bytes).
    rewrite be_value_bytes, Z.mod_small by (unfold in_u32 in Hn; exact Hn).
    unfold n. rewrite Nat2Z.id, Hdes, <- app_assoc. do 3 f_equal.
    apply map_eq. intros k. rewrite foldl_nonzero_lookup, lookup_empty, map_lookup_filter.
    destruct (balances t !! k) as [v|] eqn:Hv; cbn.
    + destruct (decide (v = 0)) as [->|Hv0].
      * by rewrite decide_False by tauto.
      * rewrite decide_True, option_guard_True; [done|done|].
        split; [apply elem_of_sorted_keys; by eexists|done].
    + by rewrite decide_False by tauto.
Qed.

Lemma token_balances_wire_witness :
  ∃ enc, (∀ w, TB_Serialize (mkTB false None many_tokens) w = (Ok tt, w ++ enc)) ∧
    (TB_Deserialize NewEmptyTokenBalances (at_rest [] (enc ++ []))).1
      = Ok (mkTB false None (filter (fun kv : Z * Z => kv.2 ≠ 0) many_tokens)).
Proof.
  destruct (token_balances_wire_roundtrip (mkTB false None many_tokens) [] []) as (enc&H1&H2).
  - cbn. apply (bool_decide_unpack _). vm_compute. exact I.
  - vm_compute. reflexivity.
  - exists enc. split; [exact H1|]. rewrite (H2 NewEmptyTokenBalances). reflexivity.
Defined.
