(* ===== verification/StateDB.v ===== *)
(** * core/state: accounts, journal, snapshots

    Models src/core/state/statedb.go, state_object.go and journal.go: the live
    account objects over the account trie, the setters and the change each of
    them records, and Snapshot/RevertToSnapshot.  What the account trie, the
    storage tries and the code database hold is a parameter (they are
    go-ethereum's, and no operation here writes them); an account whose database
    read fails reads as the code reads it, as absent or zero.  Addresses and
    hashes are numbers.  A state object is only reached through the map of live
    objects, so updating it is updating the map. *)

From S2P Require Import Prelude Utils TokenBalances.

Local Open Scope Z_scope.

(** ** Data *)

Record Account := mkAccount {
  Nonce : Z;
  Balances : TokenBalances;      (* TokenBalances *)
  Root : Z;
  CodeHash : option Z;           (* None is nil *)
  FullShardKey : Z;
}.

Record stateObject := mkObject {
  address : Z;
  o_nonce : Z;
  o_balances : TokenBalances;
  o_root : Z;
  o_codehash : Z;
  o_fullshardkey : Z;
  o_code : option (list Z);      (* nil until loaded *)
  originStorage : gmap Z Z;
  dirtyStorage : gmap Z Z;
  dirtyCode : bool;
  suicided : bool;
  deleted : bool;
}.

Record Log := mkLog {
  Recipient : Z;
  Topics : list Z;
  Data : list Z;
  BlockNumber : Z;
  TxHash : Z;
  TxIndex : Z;
  BlockHash : Z;
  Index : Z;
}.

Inductive journalEntry :=
| createObjectChange (account : Z)
| resetObjectChange (prev : stateObject)
| suicideChange (account : Z) (prev : bool) (prevbalance : gmap Z Z)
| balanceChange (account : Z) (prev : gmap Z Z)
| nonceChange (account : Z) (prev : Z)
| storageChange (account key prevalue : Z)
| codeChange (account : Z) (prevcode : option (list Z)) (prevhash : Z)
| refundChange (prev : Z)
| addLogChange (txhash : Z)
| addPreimageChange (hash : Z)
| touchChange (account : Z).

Record StateDB := mkState {
  stateObjects : gmap Z stateObject;
  stateObjectsDirty : gset Z;
  refund : Z;
  thash : Z;
  bhash : Z;
  txIndex : Z;
  logs : gmap Z (list Log);
  logSize : Z;
  preimages : gmap Z (list Z);
  entries : list journalEntry;         (* journal.entries *)
  dirties : gmap Z Z;                  (* journal.dirties *)
  validRevisions : list (Z * nat);     (* id, journalIndex *)
  nextRevisionId : Z;
  fullShardKey : Z;
}.

Abbreviation M := (SE StateDB).

(** Field updates. *)
Definition set_objects (m : gmap Z stateObject) (s : StateDB) : StateDB :=
  mkState m (stateObjectsDirty s) (refund s) (thash s) (bhash s) (txIndex s) (logs s) (logSize s)
    (preimages s) (entries s) (dirties s) (validRevisions s) (nextRevisionId s) (fullShardKey s).
Definition set_objects_dirty (d : gset Z) (s : StateDB) : StateDB :=
  mkState (stateObjects s) d (refund s) (thash s) (bhash s) (txIndex s) (logs s) (logSize s)
    (preimages s) (entries s) (dirties s) (validRevisions s) (nextRevisionId s) (fullShardKey s).
Definition set_refund (r : Z) (s : StateDB) : StateDB :=
  mkState (stateObjects s) (stateObjectsDirty s) r (thash s) (bhash s) (txIndex s) (logs s) (logSize s)
    (preimages s) (entries s) (dirties s) (validRevisions s) (nextRevisionId s) (fullShardKey s).
Definition set_logs (l : gmap Z (list Log)) (n : Z) (s : StateDB) : StateDB :=
  mkState (stateObjects s) (stateObjectsDirty s) (refund s) (thash s) (bhash s) (txIndex s) l n
    (preimages s) (entries s) (dirties s) (validRevisions s) (nextRevisionId s) (fullShardKey s).
Definition set_preimages (p : gmap Z (list Z)) (s : StateDB) : StateDB :=
  mkState (stateObjects s) (stateObjectsDirty s) (refund s) (thash s) (bhash s) (txIndex s) (logs s)
    (logSize s) p (entries s) (dirties s) (validRevisions s) (nextRevisionId s) (fullShardKey s).
Definition set_journal (e : list journalEntry) (d : gmap Z Z) (s : StateDB) : StateDB :=
  mkState (stateObjects s) (stateObjectsDirty s) (refund s) (thash s) (bhash s) (txIndex s) (logs s)
    (logSize s) (preimages s) e d (validRevisions s) (nextRevisionId s) (fullShardKey s).
Definition set_revisions (v : list (Z * nat)) (n : Z) (s : StateDB) : StateDB :=
  mkState (stateObjects s) (stateObjectsDirty s) (refund s) (thash s) (bhash s) (txIndex s) (logs s)
    (logSize s) (preimages s) (entries s) (dirties s) v n (fullShardKey s).

Definition with_balances (b : TokenBalances) (o : stateObject) : stateObject :=
  mkObject (address o) (o_nonce o) b (o_root o) (o_codehash o) (o_fullshardkey o) (o_code o)
    (originStorage o) (dirtyStorage o) (dirtyCode o) (suicided o) (deleted o).
Definition setNonce (n : Z) (o : stateObject) : stateObject :=
  mkObject (address o) n (o_balances o) (o_root o) (o_codehash o) (o_fullshardkey o) (o_code o)
    (originStorage o) (dirtyStorage o) (dirtyCode o) (suicided o) (deleted o).
Definition SetFullShardKey (k : Z) (o : stateObject) : stateObject :=
  mkObject (address o) (o_nonce o) (o_balances o) (o_root o) (o_codehash o) k (o_code o)
    (originStorage o) (dirtyStorage o) (dirtyCode o) (suicided o) (deleted o).
Definition with_code (c : option (list Z)) (o : stateObject) : stateObject :=
  mkObject (address o) (o_nonce o) (o_balances o) (o_root o) (o_codehash o) (o_fullshardkey o) c
    (originStorage o) (dirtyStorage o) (dirtyCode o) (suicided o) (deleted o).
Definition setCode (codeHash : Z) (code : option (list Z)) (o : stateObject) : stateObject :=
  mkObject (address o) (o_nonce o) (o_balances o) (o_root o) codeHash (o_fullshardkey o) code
    (originStorage o) (dirtyStorage o) true (suicided o) (deleted o).
Definition with_origin (m : gmap Z Z) (o : stateObject) : stateObject :=
  mkObject (address o) (o_nonce o) (o_balances o) (o_root o) (o_codehash o) (o_fullshardkey o) (o_code o)
    m (dirtyStorage o) (dirtyCode o) (suicided o) (deleted o).
Definition setState (key value : Z) (o : stateObject) : stateObject :=
  mkObject (address o) (o_nonce o) (o_balances o) (o_root o) (o_codehash o) (o_fullshardkey o) (o_code o)
    (originStorage o) (<[key := value]> (dirtyStorage o)) (dirtyCode o) (suicided o) (deleted o).
Definition with_suicided (b : bool) (o : stateObject) : stateObject :=
  mkObject (address o) (o_nonce o) (o_balances o) (o_root o) (o_codehash o) (o_fullshardkey o) (o_code o)
    (originStorage o) (dirtyStorage o) (dirtyCode o) b (deleted o).

(** [setBalances]: the balances become a bare map. *)
Definition setBalances (m : gmap Z Z) (o : stateObject) : stateObject :=
  with_balances (NewTokenBalancesWithMap m) o.

(** ** journal.go *)

Definition dirtied (e : journalEntry) : option Z :=
  match e with
  | createObjectChange a | suicideChange a _ _ | balanceChange a _ | nonceChange a _
  | storageChange a _ _ | codeChange a _ _ | touchChange a => Some a
  | resetObjectChange _ | refundChange _ | addLogChange _ | addPreimageChange _ => None
  end.

Definition journal_append (e : journalEntry) : M unit := se_mod (fun s =>
  set_journal (entries s ++ [e])
    (match dirtied e with
     | Some a => <[a := default 0 (dirties s !! a) + 1]> (dirties s)
     | None => dirties s
     end) s).

Definition journal_dirty (a : Z) : M unit := se_mod (fun s =>
  set_journal (entries s) (<[a := default 0 (dirties s !! a) + 1]> (dirties s)) s).

Definition ripemd : Z := 3.

(** ** state_object.go and statedb.go *)

Section state.
Context `{SecureTrie tr, Rlp}.
(** The token tries, the decoded account trie, the storage tries (by address,
  root and key) and the code database, as the operations below read them. *)
Variable token_tries : heap tr.
Variable account_trie : Z → option Account.
Variable storage_trie : Z → Z → Z → Z.
Variable contract_code : Z → option (list Z).
Variable Keccak256Hash : list Z → Z.

Definition emptyCodeHash : Z := Keccak256Hash [].

(** [NewAccount(db)] *)
Definition NewAccount : Account := mkAccount 0 (mkTB true None ∅) 0 None 0.

Definition newObject (addr : Z) (data : Account) : stateObject :=
mkObject addr (Nonce data) (CopyWithDB (Balances data)) (Root data)
  (default emptyCodeHash (CodeHash data)) (FullShardKey data) None ∅ ∅ false false false.

Definition setStateObject (o : stateObject) : M unit :=
se_mod (fun s => set_objects (<[address o := o]> (stateObjects s)) s).

Definition getStateObject (addr : Z) : M (option stateObject) :=
s ← se_get;
match stateObjects s !! addr with
| Some obj => mret (if deleted obj then None else Some obj)
| None =>
    match account_trie addr with
    | None => mret None
    | Some data =>
        let obj := newObject addr data in
        _ ← setStateObject obj;
        mret (Some obj)
    end
end.

(** Following and updating the pointer to a live object. *)
Definition obj_get (addr : Z) : M stateObject :=
s ← se_get;
match stateObjects s !! addr with
| Some o => mret o
| None => se_panic "invalid memory address or nil pointer dereference"
end.
Definition obj_mod (addr : Z) (f : stateObject → stateObject) : M unit :=
o ← obj_get addr;
se_mod (fun s => set_objects (<[addr := f o]> (stateObjects s)) s).

Definition createObject (addr : Z) : M (option stateObject) :=
prev ← getStateObject addr;
s ← se_get;
let newobj := SetFullShardKey (fullShardKey s) (setNonce 0 (newObject addr NewAccount)) in
match (prev : option stateObject) with
| None =>
    _ ← journal_append (createObjectChange addr);
    _ ← setStateObject newobj;
    mret None
| Some p =>
    _ ← journal_append (resetObjectChange p);
    _ ← setStateObject (SetFullShardKey (o_fullshardkey p) newobj);
    mret (Some p)
end.

(** After this the object of [addr] is live. *)
Definition GetOrNewStateObject (addr : Z) : M unit :=
o ← getStateObject addr;
match (o : option stateObject) with
| None => _ ← createObject addr; mret tt
| Some o => if deleted o then _ ← createObject addr; mret tt else mret tt
end.

Definition CreateAccount (addr : Z) : M unit :=
prev ← createObject addr;
match (prev : option stateObject) with
| None => mret tt
| Some p => obj_mod addr (setBalances (GetBalanceMap (o_balances p)))
end.

(** *** Object methods, on the live object of [addr] *)

Definition touch (addr : Z) : M unit :=
_ ← journal_append (touchChange addr);
if bool_decide (addr = ripemd) then journal_dirty addr else mret tt.

Definition obj_Balance (addr tokenID : Z) : M Z :=
o ← obj_get addr;
r ← se_lift (GetTokenBalance token_tries tokenID (o_balances o));
_ ← obj_mod addr (with_balances r.2);
mret r.1.

Definition obj_SetBalance (addr amount tokenID : Z) : M unit :=
o ← obj_get addr;
_ ← journal_append (balanceChange addr (GetBalanceMap (o_balances o)));
b ← se_lift (SetValue amount tokenID (o_balances o));
obj_mod addr (with_balances b).

Definition obj_AddBalance (addr amount tokenID : Z) : M unit :=
if bool_decide (amount = 0) then touch addr
else b ← obj_Balance addr tokenID; obj_SetBalance addr (b + amount) tokenID.

Definition obj_SubBalance (addr amount tokenID : Z) : M unit :=
if bool_decide (amount = 0) then mret tt
else b ← obj_Balance addr tokenID; obj_SetBalance addr (b - amount) tokenID.

Definition obj_GetCommittedState (addr key : Z) : M Z :=
o ← obj_get addr;
match originStorage o !! key with
| Some v => mret v
| None =>
    let v := storage_trie addr (o_root o) key in
    _ ← obj_mod addr (with_origin (<[key := v]> (originStorage o)));
    mret v
end.

Definition obj_GetState (addr key : Z) : M Z :=
o ← obj_get addr;
match dirtyStorage o !! key with
| Some v => mret v
| None => obj_GetCommittedState addr key
end.

Definition obj_SetState (addr key value : Z) : M unit :=
prev ← obj_GetState addr key;
if bool_decide (prev = value) then mret tt
else
  _ ← journal_append (storageChange addr key prev);
  obj_mod addr (setState key value).

Definition obj_Code (addr : Z) : M (option (list Z)) :=
o ← obj_get addr;
match o_code o with
| Some c => mret (Some c)
| None =>
    if bool_decide (o_codehash o = emptyCodeHash) then mret None
    else
      let code := contract_code (o_codehash o) in
      _ ← obj_mod addr (with_code code);
      mret code
end.

Definition obj_SetCode (addr codeHash : Z) (code : list Z) : M unit :=
prevcode ← obj_Code addr;
o ← obj_get addr;
_ ← journal_append (codeChange addr prevcode (o_codehash o));
obj_mod addr (setCode codeHash (Some code)).

Definition obj_SetNonce (addr nonce : Z) : M unit :=
o ← obj_get addr;
_ ← journal_append (nonceChange addr (o_nonce o));
obj_mod addr (setNonce nonce).

Definition obj_empty (o : stateObject) : bool :=
bool_decide (o_nonce o = 0) && IsBlank (o_balances o) && bool_decide (o_codehash o = emptyCodeHash).

(** *** Getters *)

Definition Exist (addr : Z) : M bool :=
o ← getStateObject addr; mret (bool_decide (is_Some o)).
Definition Empty (addr : Z) : M bool :=
o ← getStateObject addr;
mret (match (o : option stateObject) with None => true | Some o => obj_empty o end).
Definition GetBalance (addr tokenID : Z) : M Z :=
o ← getStateObject addr;
match (o : option stateObject) with None => mret 0 | Some _ => obj_Balance addr tokenID end.
Definition GetNonce (addr : Z) : M Z :=
_ ← GetOrNewStateObject addr; o ← obj_get addr; mret (o_nonce o).
Definition GetCode (addr : Z) : M (option (list Z)) :=
o ← getStateObject addr;
match (o : option stateObject) with None => mret None | Some _ => obj_Code addr end.
Definition GetCodeHash (addr : Z) : M Z :=
o ← getStateObject addr;
mret (match (o : option stateObject) with None => 0 | Some o => o_codehash o end).
Definition GetState (addr key : Z) : M Z :=
o ← getStateObject addr;
match (o : option stateObject) with None => mret 0 | Some _ => obj_GetState addr key end.
Definition GetCommittedState (addr key : Z) : M Z :=
o ← getStateObject addr;
match (o : option stateObject) with None => mret 0 | Some _ => obj_GetCommittedState addr key end.
Definition HasSuicided (addr : Z) : M bool :=
o ← getStateObject addr;
mret (match (o : option stateObject) with None => false | Some o => suicided o end).
Definition GetRefund : M Z := s ← se_get; mret (refund s).

(** *** Setters *)

Definition AddBalance (addr amount tokenID : Z) : M unit :=
_ ← GetOrNewStateObject addr; obj_AddBalance addr amount tokenID.
Definition SubBalance (addr amount tokenID : Z) : M unit :=
_ ← GetOrNewStateObject addr; obj_SubBalance addr amount tokenID.
Definition SetBalance (addr amount tokenID : Z) : M unit :=
_ ← GetOrNewStateObject addr; obj_SetBalance addr amount tokenID.
Definition SetNonce (addr nonce : Z) : M unit :=
_ ← GetOrNewStateObject addr; obj_SetNonce addr nonce.
Definition SetCode (addr : Z) (code : list Z) : M unit :=
_ ← GetOrNewStateObject addr; obj_SetCode addr (Keccak256Hash code) code.
Definition SetState (addr key value : Z) : M unit :=
_ ← GetOrNewStateObject addr; obj_SetState addr key value.

Definition Suicide (addr : Z) : M bool :=
o ← getStateObject addr;
match (o : option stateObject) with
| None => mret false
| Some o =>
    _ ← journal_append (suicideChange addr (suicided o) (GetBalanceMap (o_balances o)));
    _ ← obj_mod addr (with_suicided true);
    _ ← obj_mod addr (with_balances (mkTB true None ∅));
    mret true
end.

Definition AddLog (l : Log) : M unit :=
s ← se_get;
_ ← journal_append (addLogChange (thash s));
se_mod (fun s =>
  let l := mkLog (Recipient l) (Topics l) (Data l) (BlockNumber l) (thash s)
             (u32 (txIndex s)) (bhash s) (u32 (logSize s)) in
  set_logs (<[thash s := default [] (logs s !! thash s) ++ [l]]> (logs s)) (logSize s + 1) s).

Definition AddPreimage (hash : Z) (preimage : list Z) : M unit :=
s ← se_get;
match preimages s !! hash with
| Some _ => mret tt
| None =>
    _ ← journal_append (addPreimageChange hash);
    se_mod (fun s => set_preimages (<[hash := preimage]> (preimages s)) s)
end.

Definition AddRefund (gas : Z) : M unit :=
s ← se_get;
_ ← journal_append (refundChange (refund s));
se_mod (fun s => set_refund (u64 (refund s + gas)) s).

Definition SubRefund (gas : Z) : M unit :=
s ← se_get;
_ ← journal_append (refundChange (refund s));
if bool_decide (refund s < gas) then se_panic "Refund counter below zero"
else se_mod (fun s => set_refund (refund s - gas) s).

(** *** Undoing *)

(** [s.getStateObject(a).f()]: nil has no fields. *)
Definition on_object (addr : Z) (f : stateObject → stateObject) : M unit :=
o ← getStateObject addr;
match (o : option stateObject) with
| None => se_panic "invalid memory address or nil pointer dereference"
| Some _ => obj_mod addr f
end.

Definition revert_entry (e : journalEntry) : M unit :=
match e with
| createObjectChange a =>
    se_mod (fun s => set_objects_dirty (stateObjectsDirty s ∖ {[a]})
                       (set_objects (delete a (stateObjects s)) s))
| resetObjectChange prev => setStateObject prev
| suicideChange a prev prevbalance =>
    o ← getStateObject a;
    match (o : option stateObject) with
    | None => mret tt
    | Some _ => _ ← obj_mod a (with_suicided prev); obj_mod a (setBalances prevbalance)
    end
| balanceChange a prev => on_object a (setBalances prev)
| nonceChange a prev => on_object a (setNonce prev)
| storageChange a key prevalue => on_object a (setState key prevalue)
| codeChange a prevcode prevhash => on_object a (setCode prevhash prevcode)
| refundChange prev => se_mod (set_refund prev)
| addLogChange txhash => se_mod (fun s =>
    let ls := default [] (logs s !! txhash) in
    set_logs (if bool_decide (length ls = 1%nat) then delete txhash (logs s)
              else <[txhash := take (length ls - 1) ls]> (logs s)) (logSize s - 1) s)
| addPreimageChange hash => se_mod (fun s => set_preimages (delete hash (preimages s)) s)
| touchChange _ => mret tt
end.

(** Dropping the dirty mark of a reverted entry. *)
Definition undirty (e : journalEntry) : M unit := se_mod (fun s =>
match dirtied e with
| None => s
| Some a =>
    let n := default 0 (dirties s !! a) - 1 in
    set_journal (entries s)
      (if bool_decide (n = 0) then delete a (dirties s) else <[a := n]> (dirties s)) s
end).

(** The loop of [journal.revert], over the entries from the last. *)
Fixpoint revert_entries (es : list journalEntry) : M unit :=
match es with
| [] => mret tt
| e :: es => _ ← revert_entry e; _ ← undirty e; revert_entries es
end.

Definition journal_revert (snapshot : nat) : M unit :=
s ← se_get;
_ ← revert_entries (rev (drop snapshot (entries s)));
se_mod (fun s => set_journal (take snapshot (entries s)) (dirties s) s).

Definition Snapshot : M Z :=
s ← se_get;
let id := nextRevisionId s in
_ ← se_put (set_revisions (validRevisions s ++ [(id, length (entries s))]) (id + 1) s);
mret id.

Definition RevertToSnapshot (revid : Z) : M unit :=
s ← se_get;
let revs := validRevisions s in
let idx := sort_Search (length revs) (fun i =>
  match revs !! i with Some r => bool_decide (revid <= r.1) | None => false end) in
match revs !! idx with
| None => se_panic "revision id %v cannot be reverted"
| Some r =>
    if bool_decide (r.1 = revid) then
      _ ← journal_revert r.2;
      se_mod (fun s => set_revisions (take idx (validRevisions s)) (nextRevisionId s) s)
    else se_panic "revision id %v cannot be reverted"
end.
End state.
