(* ===== verification/StateDBCorrect.v ===== *)
(** * core/state: reverting to a snapshot restores the state

    States are compared by what the virtual machine can observe ([≈]): an
    account that is loaded or not, a cached storage slot or code, a write that
    was undone by writing the old value back, all look the same.  Every operation
    is shown to be undone, up to [≈], by the journal entries it appends; the
    main theorem follows for any sequence of operations, nested snapshots and
    reverts included. *)

From stdpp Require Import sorting.
From S2P Require Import Prelude Utils TokenBalances StateDB.

Local Open Scope Z_scope.

Lemma sorted_snoc {A} (R : A → A → Prop) l x :
  StronglySorted R l → Forall (fun y => R y x) l → StronglySorted R (l ++ [x]).
Proof.
  induction 1 as [|y l Hl IH Hy]; cbn; intros Hx; [by repeat constructor|].
  apply Forall_cons in Hx as [Hyx Hx]. constructor; [by apply IH|].
  apply Forall_app. by repeat constructor.
Qed.

Lemma sorted_lookup_lt {A} (R : A → A → Prop) l i j x y :
  StronglySorted R l → l !! i = Some x → l !! j = Some y → (i < j)%nat → R x y.
Proof.
  intros Hs Hi Hj Hij. apply list_elem_of_split_length in Hi as (l1&l2&->&->).
  apply StronglySorted_app_1_r in Hs. inversion Hs as [|? ? _ Hf]; subst.
  rewrite Forall_forall in Hf. apply Hf.
  rewrite lookup_app_r in Hj by lia.
  destruct (j - length l1)%nat as [|k] eqn:Hk; [lia|]. cbn in Hj.
  by eapply list_elem_of_lookup_2.
Qed.

(** The binary search finds the revision. *)
Lemma search_revision (revs : list (Z * nat)) revid idx r :
  StronglySorted Z.lt revs.*1 →
  revs !! idx = Some r → r.1 = revid →
  sort_Search (length revs) (fun i =>
    match revs !! i with Some r => bool_decide (revid <= r.1) | None => false end) = idx.
Proof.
  intros Hs Hidx Hid.
  assert (∀ i j a b, revs !! i = Some a → revs !! j = Some b → (i < j)%nat → a.1 < b.1) as Hlt.
  { intros i j a b Hi Hj Hij. eapply (sorted_lookup_lt _ _ i j); [exact Hs| | |exact Hij];
      rewrite list_lookup_fmap; [by rewrite Hi|by rewrite Hj]. }
  destruct (sort_Search_spec (length revs) (fun i =>
    match revs !! i with Some r => bool_decide (revid <= r.1) | None => false end)) as (Hle&Hlow&Hhigh).
  { intros i j Hij Hj. destruct (revs !! i) as [a|] eqn:Hi; [|done].
    destruct (lookup_lt_is_Some_2 revs j Hj) as [b Hb]. rewrite Hb, !bool_decide_eq_true.
    destruct (decide (i = j)) as [->|]; [rewrite Hi in Hb; naive_solver|].
    pose proof (Hlt i j a b Hi Hb ltac:(lia)). lia. }
  set (k := sort_Search _ _) in *.
  assert (idx < length revs)%nat by (by eapply lookup_lt_Some).
  destruct (decide (idx < k)%nat) as [Hk|Hk].
  { specialize (Hlow idx Hk). rewrite Hidx in Hlow. apply bool_decide_eq_false in Hlow. lia. }
  destruct (decide (k = idx)) as [|Hne]; [done|].
  specialize (Hhigh k ltac:(lia)). destruct (revs !! k) as [b|] eqn:Hb; [|done].
  apply bool_decide_eq_true in Hhigh. pose proof (Hlt k idx b r Hb Hidx ltac:(lia)). lia.
Qed.

Section correct.
Context `{SecureTrie tr, Rlp}.
Variable token_tries : heap tr.
Variable account_trie : Z → option Account.
Variable storage_trie : Z → Z → Z → Z.
Variable contract_code : Z → option (list Z).
Variable Keccak256Hash : list Z → Z.

Local Abbreviation emptyCodeHash := (emptyCodeHash Keccak256Hash).
Local Abbreviation newObject := (newObject Keccak256Hash).
Local Abbreviation getStateObject := (getStateObject account_trie Keccak256Hash).
Local Abbreviation revert_entry := (revert_entry account_trie Keccak256Hash).
Local Abbreviation revert_entries := (revert_entries account_trie Keccak256Hash).

(** ** Observations *)

Definition code_view (o : stateObject) : option (list Z) :=
  match o_code o with
  | Some c => Some c
  | None => if bool_decide (o_codehash o = emptyCodeHash) then None else contract_code (o_codehash o)
  end.
Definition committed_view (a : Z) (o : stateObject) (key : Z) : Z :=
  match originStorage o !! key with Some v => v | None => storage_trie a (o_root o) key end.
Definition storage_view (a : Z) (o : stateObject) (key : Z) : Z :=
  match dirtyStorage o !! key with Some v => v | None => committed_view a o key end.

Record obj_equiv (a : Z) (o1 o2 : stateObject) : Prop := {
  oe_nonce : o_nonce o1 = o_nonce o2;
  oe_balances : balances (o_balances o1) = balances (o_balances o2);
  oe_trie : tokenTrie (o_balances o1) = tokenTrie (o_balances o2);
  oe_root : o_root o1 = o_root o2;
  oe_codehash : o_codehash o1 = o_codehash o2;
  oe_key : o_fullshardkey o1 = o_fullshardkey o2;
  oe_code : code_view o1 = code_view o2;
  oe_committed : ∀ key, committed_view a o1 key = committed_view a o2 key;
  oe_storage : ∀ key, storage_view a o1 key = storage_view a o2 key;
  oe_suicided : suicided o1 = suicided o2;
}.

#[export] Instance obj_equiv_equivalence a : Equivalence (obj_equiv a).
Proof.
  split.
  - by intros o.
  - intros o1 o2 []. split; intros; congruence.
  - intros o1 o2 o3 [] []. split; intros; etrans; eauto.
Qed.

(** The account an address stands for: its live object, or the one the trie
    would give. *)
Definition live_obj (s : StateDB) (a : Z) : option stateObject :=
  match stateObjects s !! a with
  | Some o => if deleted o then None else Some o
  | None => newObject a <$> account_trie a
  end.

Record state_equiv (s1 s2 : StateDB) : Prop := {
  se_objects : ∀ a, option_Forall2 (obj_equiv a) (live_obj s1 a) (live_obj s2 a);
  se_refund : refund s1 = refund s2;
  se_thash : thash s1 = thash s2;
  se_bhash : bhash s1 = bhash s2;
  se_txIndex : txIndex s1 = txIndex s2;
  se_logs : ∀ h, default [] (logs s1 !! h) = default [] (logs s2 !! h);
  se_logSize : logSize s1 = logSize s2;
  se_preimages : preimages s1 = preimages s2;
  se_key : fullShardKey s1 = fullShardKey s2;
}.
Local Infix "≈" := state_equiv (at level 70).

#[export] Instance state_equiv_equivalence : Equivalence state_equiv.
Proof.
  split.
  - intros s. by split.
  - intros s1 s2 []. by split.
  - intros s1 s2 s3 [] []. split; intros; etrans; eauto.
Qed.

(** ** Well-formed states

    Objects sit at their address and hold no token trie; an object that was
    deleted when a transaction was finalised is not in the account trie. *)
Definition obj_wf (o : stateObject) : Prop := tokenTrie (o_balances o) = None.

Definition entry_wf (e : journalEntry) : Prop :=
  match e with resetObjectChange p => obj_wf p ∧ deleted p = false | _ => True end.

Definition objects_wf (m : gmap Z stateObject) : Prop :=
  ∀ a o, m !! a = Some o → address o = a ∧ obj_wf o ∧ (deleted o = true → account_trie a = None).

Record wf (s : StateDB) : Prop := {
  wf_objects : objects_wf (stateObjects s);
  wf_entries : Forall entry_wf (entries s);
}.

Hypothesis trie_wf : ∀ a acc, account_trie a = Some acc → tokenTrie (Balances acc) = None.

(** Setting the object of an address. *)
Definition upd (a : Z) (o : stateObject) (s : StateDB) : StateDB :=
  set_objects (<[a := o]> (stateObjects s)) s.

Lemma live_upd s a o b :
  live_obj (upd a o s) b =
  if decide (b = a) then (if deleted o then None else Some o) else live_obj s b.
Proof.
  unfold live_obj, upd. cbn. destruct (decide (b = a)) as [->|Hne].
  - by rewrite lookup_insert_eq.
  - by rewrite lookup_insert_ne.
Qed.

Lemma upd_upd s a o o' : upd a o' (upd a o s) = upd a o' s.
Proof. unfold upd, set_objects. cbn. by rewrite insert_insert_eq. Qed.

Lemma upd_same s a o : stateObjects s !! a = Some o → upd a o s = s.
Proof. intros Ha. unfold upd, set_objects. rewrite insert_id by done. by destruct s. Qed.

Lemma objects_wf_insert m a o :
  objects_wf m → address o = a → obj_wf o → deleted o = false → objects_wf (<[a := o]> m).
Proof.
  intros Hm Ha Ho Hd b o' [[-> <-]|[Hne Hb]]%lookup_insert_Some; [|by apply Hm].
  split_and!; [done|done|]. by rewrite Hd.
Qed.

Lemma wf_upd s a o :
  wf s → address o = a → obj_wf o → deleted o = false → wf (upd a o s).
Proof. intros [Ho He] Ha Hw Hd. split; [by apply objects_wf_insert|done]. Qed.

(** Replacing an object by an equivalent one, or following two updates. *)
Lemma upd_equiv s1 s2 a o1 o2 :
  s1 ≈ s2 → deleted o1 = false → deleted o2 = false → obj_equiv a o1 o2 →
  upd a o1 s1 ≈ upd a o2 s2.
Proof.
  intros [] Hd1 Hd2 Ho. split; try done. intros b. rewrite !live_upd.
  case_decide as E; [|done]. subst. rewrite Hd1, Hd2. by constructor.
Qed.

Lemma upd_live s a o : live_obj s a = Some o → deleted o = false → upd a o s ≈ s.
Proof.
  intros Hl Hd. split; try done. intros b. rewrite live_upd. case_decide as E.
  - subst. rewrite Hd, Hl. by constructor.
  - by destruct (live_obj s b); constructor.
Qed.

(** ** Reading an object *)

Definition live (s : StateDB) (a : Z) : Prop :=
  ∃ o, stateObjects s !! a = Some o ∧ deleted o = false.

Lemma newObject_wf a acc : account_trie a = Some acc → obj_wf (newObject a acc).
Proof. intros Ha. unfold obj_wf. cbn. by eapply trie_wf. Qed.

(** [getStateObject] loads at most the object it returns. *)
Lemma getStateObject_spec s a :
  wf s →
  getStateObject a s = (Ok (live_obj s a), match live_obj s a with Some o => upd a o s | None => s end).
Proof.
  intros [Ho _]. unfold StateDB.getStateObject, live_obj. se_red.
  destruct (stateObjects s !! a) as [o|] eqn:Ha.
  - destruct (deleted o); [done|]. by rewrite upd_same.
  - by destruct (account_trie a) as [acc|].
Qed.

Lemma live_obj_wf s a o :
  wf s → live_obj s a = Some o → address o = a ∧ obj_wf o ∧ deleted o = false.
Proof.
  intros [Ho _]. unfold live_obj. destruct (stateObjects s !! a) as [o'|] eqn:Ha.
  - destruct (deleted o') eqn:Hd; [done|]. intros [= ->].
    destruct (Ho a o Ha) as (?&?&_). done.
  - destruct (account_trie a) as [acc|] eqn:Hacc; [|done]. intros [= <-].
    split_and!; [done|by apply newObject_wf|done].
Qed.

Lemma live_live_obj s a o :
  stateObjects s !! a = Some o → deleted o = false → live_obj s a = Some o.
Proof. intros Ha Hd. unfold live_obj. by rewrite Ha, Hd. Qed.

Lemma obj_mod_spec s a f o :
  stateObjects s !! a = Some o → obj_mod a f s = (Ok tt, upd a (f o) s).
Proof. intros Ha. unfold obj_mod, obj_get. se_red. rewrite Ha. done. Qed.

Lemma obj_get_inv s a o s' :
  obj_get a s = (Ok o, s') → s' = s ∧ stateObjects s !! a = Some o.
Proof. unfold obj_get. se_red. destruct (stateObjects s !! a); naive_solver. Qed.

Lemma on_object_spec s a f o :
  wf s → live_obj s a = Some o →
  on_object account_trie Keccak256Hash a f s = (Ok tt, upd a (f o) s).
Proof.
  intros Hwf Hl. unfold on_object. se_red. rewrite getStateObject_spec, Hl by done.
  rewrite (obj_mod_spec _ a f o), upd_upd; [done|]. cbn. by rewrite lookup_insert_eq.
Qed.

(** ** Undoing one change *)

Definition revs (s s' : StateDB) : Prop :=
  validRevisions s' = validRevisions s ∧ nextRevisionId s' = nextRevisionId s.
Definition frame (s s' : StateDB) : Prop := entries s' = entries s ∧ revs s s'.

Lemma frame_trans s1 s2 s3 : frame s1 s2 → frame s2 s3 → frame s1 s3.
Proof. unfold frame, revs. intros (?&?&?) (?&?&?). split_and!; congruence. Qed.

(** Entry [e] takes back the step from [s0] to [s1]. *)
Definition undoes (e : journalEntry) (s0 s1 : StateDB) : Prop :=
  ∀ s, wf s → s ≈ s1 →
  ∃ s', revert_entry e s = (Ok tt, s') ∧ wf s' ∧ s' ≈ s0 ∧ frame s s'.

Lemma equiv_live s s1 a o1 :
  s ≈ s1 → live_obj s1 a = Some o1 → ∃ o, live_obj s a = Some o ∧ obj_equiv a o o1.
Proof. intros [Ho _ _ _ _ _ _ _ _] Hl. specialize (Ho a). rewrite Hl in Ho. inversion Ho; eauto. Qed.

(** A change of one live object, undone by a function on that object. *)
Lemma undoes_object a o0 o1 f e s0 s1 :
  wf s0 → live_obj s0 a = Some o0 → deleted o1 = false → s1 ≈ upd a o1 s0 →
  (∀ o, obj_equiv a o o1 → obj_wf o → obj_equiv a (f o) o0 ∧ obj_wf (f o)) →
  (∀ o, address o = a → deleted o = false → address (f o) = a ∧ deleted (f o) = false) →
  (∀ s o, wf s → live_obj s a = Some o → revert_entry e s = (Ok tt, upd a (f o) s)) →
  undoes e s0 s1.
Proof.
  intros Hwf0 Hl0 Hd1 Hs1 Hf Hfd Hrev s Hwf Hs.
  assert (s ≈ upd a o1 s0) as Hs' by (by etrans).
  destruct (equiv_live s _ a o1 Hs') as (o&Hl&Ho).
  { by rewrite live_upd, decide_True, Hd1. }
  destruct (live_obj_wf s a o Hwf Hl) as (Ha&Hw&Hd).
  destruct (live_obj_wf s0 a o0 Hwf0 Hl0) as (_&_&Hd0).
  destruct (Hf o Ho Hw) as [Hfo Hfw]. destruct (Hfd o Ha Hd) as [Hfa Hfdel].
  exists (upd a (f o) s). split; [by apply Hrev|]. split_and!.
  - apply wf_upd; congruence.
  - etrans; [by apply (upd_equiv s _ a (f o) o0 Hs'); [congruence|..]|].
    rewrite upd_upd. by apply upd_live.
  - done.
Qed.

(** ** Sequences of changes *)

Definition Ext (s1 s0 : StateDB) : Prop :=
  wf s1 ∧ ∃ es, entries s1 = entries s0 ++ es ∧
    ∀ s, wf s → s ≈ s1 →
    ∃ s', revert_entries (rev es) s = (Ok tt, s') ∧ wf s' ∧ s' ≈ s0 ∧ frame s s'.

Lemma undirty_spec e s : ∃ d, undirty e s = (Ok tt, set_journal (entries s) d s).
Proof.
  unfold undirty. se_red. destruct (dirtied e) as [a|]; [by eexists|].
  exists (dirties s). by destruct s.
Qed.

Lemma set_dirties_equiv s d : set_journal (entries s) d s ≈ s.
Proof. by split. Qed.
Lemma set_dirties_wf s d : wf s → wf (set_journal (entries s) d s).
Proof. intros [Ho He]. by split. Qed.

Lemma Ext_equiv s1 s0 : wf s1 → entries s1 = entries s0 → s1 ≈ s0 → Ext s1 s0.
Proof.
  intros Hwf He Hs. split; [done|]. exists []. split; [by rewrite app_nil_r|].
  intros s Hws Hss. exists s. split_and!; [done|done|by etrans|done].
Qed.

Lemma Ext_refl s : wf s → Ext s s.
Proof. intros. by apply Ext_equiv. Qed.

Lemma Ext_step e s0 s1 :
  wf s1 → entries s1 = entries s0 ++ [e] → undoes e s0 s1 → Ext s1 s0.
Proof.
  intros Hwf He Hu. split; [done|]. exists [e]. split; [done|].
  intros s Hws Hss. destruct (Hu s Hws Hss) as (s'&E&Hw'&Hs'&Hfr). cbn [rev app].
  destruct (undirty_spec e s') as [d Hd]. cbn [StateDB.revert_entries]. se_red. rewrite E, Hd.
  exists (set_journal (entries s') d s').
  split_and!; [done|by apply set_dirties_wf| |apply Hfr..].
  etrans; [apply set_dirties_equiv|done].
Qed.

Lemma revert_entries_app l1 l2 s :
  revert_entries (l1 ++ l2) s = (revert_entries l1 ≫= fun _ => revert_entries l2) s.
Proof.
  revert s. induction l1 as [|e l1 IH]; intros s; [done|]. cbn [app StateDB.revert_entries]. se_red.
  destruct (revert_entry e s) as [[[]|?|?] s1]; try done.
  destruct (undirty e s1) as [[[]|?|?] s2]; try done; by rewrite ?IH.
Qed.

Lemma Ext_trans s2 s1 s0 : Ext s2 s1 → Ext s1 s0 → Ext s2 s0.
Proof.
  intros [Hw2 (es2&He2&Hu2)] [Hw1 (es1&He1&Hu1)]. split; [done|].
  exists (es1 ++ es2). split; [by rewrite He2, He1, app_assoc|].
  intros s Hws Hss. destruct (Hu2 s Hws Hss) as (s'&E'&Hw'&Hs'&Hf').
  destruct (Hu1 s' Hw' Hs') as (s''&E''&Hw''&Hs''&Hf''). exists s''.
  rewrite rev_app_distr, revert_entries_app. se_red. rewrite E', E''.
  split_and!; [done|done|done|]. by eapply frame_trans.
Qed.

(** ** Computations whose changes are all in the journal *)

Definition good {A} (m : M A) : Prop :=
  ∀ s x s', wf s → m s = (Ok x, s') → Ext s' s ∧ revs s s'.
(** The same for the methods of the live object of [a]. *)
Definition good_at {A} (a : Z) (m : M A) : Prop :=
  ∀ s x s', wf s → live s a → m s = (Ok x, s') → Ext s' s ∧ live s' a ∧ revs s s'.

Lemma revs_trans s1 s2 s3 : revs s1 s2 → revs s2 s3 → revs s1 s3.
Proof. unfold revs. intros [] []. split; congruence. Qed.

Lemma se_bind_inv {S A B} (m : SE S A) (k : A → SE S B) s y s' :
  (m ≫= k) s = (Ok y, s') → ∃ x s1, m s = (Ok x, s1) ∧ k x s1 = (Ok y, s').
Proof. se_red. destruct (m s) as [[x|?|?] s1]; naive_solver. Qed.

Lemma good_bind {A B} (m : M A) (k : A → M B) : good m → (∀ x, good (k x)) → good (m ≫= k).
Proof.
  intros Hm Hk s y s' Hwf (x&s1&E1&E2)%se_bind_inv.
  destruct (Hm _ _ _ Hwf E1) as [Hx1 Hr1]. destruct (Hk x _ _ _ (proj1 Hx1) E2) as [Hx2 Hr2].
  split; [by eapply Ext_trans|by eapply revs_trans].
Qed.

Lemma good_at_bind {A B} a (m : M A) (k : A → M B) :
  good_at a m → (∀ x, good_at a (k x)) → good_at a (m ≫= k).
Proof.
  intros Hm Hk s y s' Hwf Hl (x&s1&E1&E2)%se_bind_inv.
  destruct (Hm _ _ _ Hwf Hl E1) as (Hx1&Hl1&Hr1).
  destruct (Hk x _ _ _ (proj1 Hx1) Hl1 E2) as (Hx2&Hl2&Hr2).
  split_and!; [by eapply Ext_trans|done|by eapply revs_trans].
Qed.

Lemma good_ret {A} (x : A) : good (mret x).
Proof. intros s y s' Hwf [= <- <-]. split; [by apply Ext_refl|done]. Qed.
Lemma good_at_ret {A} a (x : A) : good_at a (mret x).
Proof. intros s y s' Hwf Hl [= <- <-]. split_and!; [by apply Ext_refl|done..]. Qed.

Lemma live_inv s a : wf s → live s a → ∃ o, stateObjects s !! a = Some o ∧ deleted o = false
  ∧ live_obj s a = Some o ∧ address o = a ∧ obj_wf o.
Proof.
  intros Hwf (o&Ho&Hd). exists o. pose proof (live_live_obj s a o Ho Hd) as Hl.
  destruct (live_obj_wf s a o Hwf Hl) as (?&?&?). done.
Qed.

Lemma upd_is_live s a o : deleted o = false → live (upd a o s) a.
Proof. intros Hd. exists o. cbn. by rewrite lookup_insert_eq. Qed.

(** A cache fill: the object is replaced by an equivalent one. *)
Lemma Ext_cache s a o o' :
  wf s → stateObjects s !! a = Some o → deleted o = false → obj_equiv a o' o →
  address o' = a → obj_wf o' → deleted o' = false → Ext (upd a o' s) s.
Proof.
  intros Hwf Ho Hd Heq Ha Hw Hd'. apply Ext_equiv; [by apply wf_upd|done|].
  etrans; [apply (upd_equiv s s a o' o)|]; try done.
  apply upd_live; [|done]. by apply live_live_obj.
Qed.

(** A journalled change of the live object of [a]. *)
Definition appended (e : journalEntry) (s : StateDB) : StateDB :=
  set_journal (entries s ++ [e])
    (match dirtied e with
     | Some a => <[a := default 0 (dirties s !! a) + 1]> (dirties s)
     | None => dirties s
     end) s.

Lemma appended_equiv e s : appended e s ≈ s.
Proof. by split. Qed.
Lemma appended_wf e s : wf s → entry_wf e → wf (appended e s).
Proof. intros [Ho He] Hw. split; [done|]. cbn. apply Forall_app. by repeat constructor. Qed.

Lemma Ext_change s a o o' f e :
  wf s → live_obj s a = Some o → entry_wf e →
  address o' = a → obj_wf o' → deleted o' = false →
  (∀ p, obj_equiv a p o' → obj_wf p → obj_equiv a (f p) o ∧ obj_wf (f p)) →
  (∀ p, address p = a → deleted p = false → address (f p) = a ∧ deleted (f p) = false) →
  (∀ s p, wf s → live_obj s a = Some p → revert_entry e s = (Ok tt, upd a (f p) s)) →
  Ext (upd a o' (appended e s)) s.
Proof.
  intros Hwf Hl He Ha Hw Hd Hf Hfd Hrev. apply (Ext_step e).
  - apply wf_upd; [by apply appended_wf|done..].
  - done.
  - eapply (undoes_object a o o' f); try done.
Qed.

Ltac inv_bind E :=
  let x := fresh "x" in let s1 := fresh "s1" in let E1 := fresh "E1" in
  apply se_bind_inv in E as (x&s1&E1&E).

(** *** Objects *)

Lemma live_none_trie s a : wf s → live_obj s a = None → account_trie a = None.
Proof.
  intros [Ho _]. unfold live_obj. destruct (stateObjects s !! a) as [o|] eqn:Ha.
  - destruct (deleted o) eqn:Hd; [|done]. intros _. by apply (Ho a o Ha).
  - by destruct (account_trie a).
Qed.

Lemma Ext_create s a o :
  wf s → live_obj s a = None → address o = a → obj_wf o → deleted o = false →
  Ext (upd a o (appended (createObjectChange a) s)) s.
Proof.
  intros Hwf Hl Ha Hw Hd. pose proof (live_none_trie s a Hwf Hl) as Hnone.
  apply (Ext_step (createObjectChange a)); [apply wf_upd; [by apply appended_wf|done..]|done|].
  intros s1 Hwf1 Hs1. eexists. split; [done|]. split_and!.
  - destruct Hwf1 as [Ho1 He1]. split; [|done]. cbn. intros b o' [Hb Hb']%lookup_delete_Some.
    by apply Ho1.
  - destruct Hs1 as [Hobj]. split; try done. intros b. specialize (Hobj b).
    rewrite live_upd in Hobj. unfold live_obj at 1. cbn.
    destruct (decide (b = a)) as [->|Hne].
    + by rewrite lookup_delete_eq, Hnone, Hl.
    + rewrite lookup_delete_ne by done. done.
  - done.
Qed.

(** A new object takes the place of a live one. *)
Lemma Ext_reset s a p o :
  wf s → live_obj s a = Some p → address o = a → obj_wf o → deleted o = false →
  Ext (upd a o (appended (resetObjectChange p) s)) s.
Proof.
  intros Hwf Hl Ha Hw Hd. destruct (live_obj_wf s a p Hwf Hl) as (Hpa&Hpw&Hpd).
  apply (Ext_change s a p o (fun _ => p)); try done.
  intros s1 q Hwf1 Hl1. cbn [StateDB.revert_entry]. unfold setStateObject. se_red.
  by rewrite Hpa.
Qed.

Lemma createObject_spec s a :
  wf s →
  ∃ o s', createObject account_trie Keccak256Hash a s = (Ok (live_obj s a), s')
    ∧ s' = (match live_obj s a with
            | None => upd a o (appended (createObjectChange a) s)
            | Some p => upd a o (appended (resetObjectChange p) s)
            end)
    ∧ address o = a ∧ obj_wf o ∧ deleted o = false.
Proof.
  intros Hwf. unfold createObject. se_red. rewrite getStateObject_spec by done.
  set (o := SetFullShardKey (fullShardKey s) (setNonce 0 (newObject a NewAccount))).
  destruct (live_obj s a) as [p|].
  - exists (SetFullShardKey (o_fullshardkey p) o). eexists. split; [reflexivity|]. split; [|done].
    unfold setStateObject, journal_append. se_red. cbn.
    unfold upd, appended, set_objects, set_journal. cbn. by rewrite insert_insert_eq.
  - exists o. eexists. split; [reflexivity|]. done.
Qed.

Lemma createObject_Ext s a x s' :
  wf s → createObject account_trie Keccak256Hash a s = (Ok x, s') →
  Ext s' s ∧ live s' a ∧ revs s s'.
Proof.
  intros Hwf E. destruct (createObject_spec s a Hwf) as (o&s1&E1&Hs1&Ha&Hw&Hd).
  rewrite E1 in E. injection E as <- <-. destruct (live_obj s a) as [p|] eqn:Hl; subst s1.
  - split_and!; [by apply Ext_reset|by apply upd_is_live|done].
  - split_and!; [by apply Ext_create|by apply upd_is_live|done].
Qed.

Lemma getStateObject_Ext s a x s' :
  wf s → getStateObject a s = (Ok x, s') →
  Ext s' s ∧ revs s s' ∧ x = live_obj s a ∧ (is_Some x → live s' a).
Proof.
  intros Hwf E. rewrite getStateObject_spec in E by done. injection E as <- <-.
  destruct (live_obj s a) as [o|] eqn:Hl.
  - destruct (live_obj_wf s a o Hwf Hl) as (Ha&Hw&Hd).
    split_and!; [|done..|intros _; by apply upd_is_live].
    apply Ext_equiv; [by apply wf_upd|done|by apply upd_live].
  - split_and!; [by apply Ext_refl|done..|by intros [? ?]].
Qed.

Lemma GetOrNew_Ext s a x s' :
  wf s → GetOrNewStateObject account_trie Keccak256Hash a s = (Ok x, s') →
  Ext s' s ∧ live s' a ∧ revs s s'.
Proof.
  intros Hwf E. unfold GetOrNewStateObject in E. inv_bind E.
  destruct (getStateObject_Ext _ _ _ _ Hwf E1) as (Hx&Hr&->&Hlive).
  destruct (live_obj s a) as [o|] eqn:Hl.
  - destruct (live_obj_wf s a o Hwf Hl) as (_&_&Hd). rewrite Hd in E. injection E as <- <-.
    split_and!; [done|by apply Hlive|apply Hr..].
  - inv_bind E. injection E as <- <-.
    destruct (createObject_Ext _ _ _ _ (proj1 Hx) E0) as (Hx'&Hl'&Hr').
    split_and!; [by eapply Ext_trans|done|..]; apply (revs_trans _ _ _ Hr Hr').
Qed.

(** An operation that first makes the object live. *)
Lemma good_on {A} a (m : M A) :
  good_at a m → good (GetOrNewStateObject account_trie Keccak256Hash a ≫= fun _ => m).
Proof.
  intros Hm s x s' Hwf E. inv_bind E.
  destruct (GetOrNew_Ext _ _ _ _ Hwf E1) as (Hx&Hl&Hr).
  destruct (Hm _ _ _ (proj1 Hx) Hl E) as (Hx'&_&Hr').
  split; [by eapply Ext_trans|by eapply revs_trans].
Qed.

(** An operation on the object if there is one. *)
Lemma good_if {A} a (m : M A) (d : A) :
  good_at a m →
  good (getStateObject a ≫= fun o => match (o : option stateObject) with None => mret d | Some _ => m end).
Proof.
  intros Hm s x s' Hwf E. inv_bind E.
  destruct (getStateObject_Ext _ _ _ _ Hwf E1) as (Hx&Hr&->&Hlive).
  destruct (live_obj s a) as [o|].
  - destruct (Hm _ _ _ (proj1 Hx) (Hlive ltac:(by eexists)) E) as (Hx'&_&Hr').
    split; [by eapply Ext_trans|by eapply revs_trans].
  - by injection E as <- <-.
Qed.

Lemma CreateAccount_good a : good (CreateAccount account_trie Keccak256Hash a).
Proof.
  intros s x s' Hwf E. unfold CreateAccount in E. inv_bind E.
  destruct (createObject_spec s a Hwf) as (o&s2&E2&Hs2&Ha&Hw&Hd).
  rewrite E2 in E1. injection E1 as <- <-. destruct (live_obj s a) as [p|] eqn:Hl; subst s2.
  - rewrite (obj_mod_spec _ a _ o) in E by (cbn; by rewrite lookup_insert_eq).
    injection E as <- <-. rewrite upd_upd. split; [|done]. by apply Ext_reset.
  - injection E as <- <-. split; [|done]. by apply Ext_create.
Qed.

(** *** Methods of a live object *)

(** Without a token trie a balance is a map lookup. *)
Lemma GetTokenBalance_map (h : heap tr) id t :
  tokenTrie t = None → GetTokenBalance h id t = Ok (default 0 (balances t !! id), t).
Proof. intros Ht. unfold GetTokenBalance. rewrite Ht. by destruct (balances t !! id). Qed.

Lemma with_balances_same o : with_balances (o_balances o) o = o.
Proof. by destruct o. Qed.

Lemma obj_Balance_spec s a id :
  wf s → live s a → ∃ o, stateObjects s !! a = Some o ∧
    obj_Balance token_tries a id s = (Ok (default 0 (balances (o_balances o) !! id)), s).
Proof.
  intros Hwf Hl. destruct (live_inv s a Hwf Hl) as (o&Ho&Hd&Hlo&Ha&Hw). exists o. split; [done|].
  unfold obj_Balance, obj_get. se_red. rewrite Ho, GetTokenBalance_map by done. cbn [fst snd].
  rewrite (obj_mod_spec _ a _ o), with_balances_same by done.
  by rewrite upd_same.
Qed.

Lemma obj_Balance_good a id : good_at a (obj_Balance token_tries a id).
Proof.
  intros s x s' Hwf Hl E. destruct (obj_Balance_spec s a id Hwf Hl) as (o&_&E').
  rewrite E' in E. injection E as <- <-. split_and!; [by apply Ext_refl|done|done].
Qed.

(** A method that records [e] and replaces the object by [g o], undone by [f]. *)
Lemma change_good s a o g f e :
  wf s → stateObjects s !! a = Some o → deleted o = false → entry_wf e →
  (address (g o) = address o) → (obj_wf o → obj_wf (g o)) → (deleted (g o) = deleted o) →
  (∀ p, obj_equiv a p (g o) → obj_wf p → obj_wf o → obj_equiv a (f p) o ∧ obj_wf (f p)) →
  (∀ p, address p = a → deleted p = false → address (f p) = a ∧ deleted (f p) = false) →
  (∀ s p, wf s → live_obj s a = Some p → revert_entry e s = (Ok tt, upd a (f p) s)) →
  Ext (upd a (g o) (appended e s)) s ∧ live (upd a (g o) (appended e s)) a
  ∧ revs s (upd a (g o) (appended e s)).
Proof.
  intros Hwf Ho Hd He Hga Hgw Hgd Hf Hfd Hrev.
  pose proof (live_live_obj s a o Ho Hd) as Hl.
  destruct (live_obj_wf s a o Hwf Hl) as (Ha&Hw&_).
  split_and!; [|apply upd_is_live; congruence|done].
  apply (Ext_change s a o (g o) f e); try done; try congruence; auto.
Qed.

(** Unfold a journalled method at a live object. *)
Ltac run_method Ho :=
  repeat first
    [ progress se_red | progress unfold obj_get, journal_append
    | rewrite Ho | progress cbn [stateObjects set_journal] ].

Lemma obj_SetBalance_good a amount id : good_at a (obj_SetBalance a amount id).
Proof.
  intros s x s' Hwf Hl E. destruct (live_inv s a Hwf Hl) as (o&Ho&Hd&Hlo&Ha&Hw).
  unfold obj_SetBalance, SetValue in E. inv_bind E. apply obj_get_inv in E1 as [-> Ho'].
  rewrite Ho in Ho'. injection Ho' as <-. inv_bind E. injection E1 as <- <-. inv_bind E.
  case_bool_decide; [done|]. injection E1 as <- <-.
  rewrite (obj_mod_spec _ a _ o) in E by done. injection E as <- <-.
  eapply (change_good s a o _ (setBalances (balances (o_balances o)))); try done.
  - intros p [] Hpw How. split; [|done]. by split.
  - intros s0 p Hwf0 Hl0. by apply on_object_spec.
Qed.

Lemma touch_good a : good_at a (touch a).
Proof.
  intros s x s' Hwf Hl E. unfold touch in E. inv_bind E. injection E1 as <- <-.
  assert (∀ d, let s1 := set_journal (entries s ++ [touchChange a]) d s in
    Ext s1 s ∧ live s1 a ∧ revs s s1) as Hall.
  { intros d. split_and!; [|done|done]. apply (Ext_step (touchChange a)); [|done|].
    - destruct Hwf as [Ho He]. split; [done|]. cbn. apply Forall_app. by repeat constructor.
    - intros s1 Hwf1 Hs1. exists s1. split_and!; [done|done| |done].
      etrans; [exact Hs1|by split]. }
  case_bool_decide; injection E as <- <-; apply Hall.
Qed.

Lemma obj_AddBalance_good a amount id : good_at a (obj_AddBalance token_tries a amount id).
Proof.
  unfold obj_AddBalance. case_bool_decide; [apply touch_good|].
  apply good_at_bind; [apply obj_Balance_good|]. intros b. apply obj_SetBalance_good.
Qed.

Lemma obj_SubBalance_good a amount id : good_at a (obj_SubBalance token_tries a amount id).
Proof.
  unfold obj_SubBalance. case_bool_decide; [apply good_at_ret|].
  apply good_at_bind; [apply obj_Balance_good|]. intros b. apply obj_SetBalance_good.
Qed.

Lemma obj_SetNonce_good a nonce : good_at a (obj_SetNonce a nonce).
Proof.
  intros s x s' Hwf Hl E. destruct (live_inv s a Hwf Hl) as (o&Ho&Hd&Hlo&Ha&Hw).
  unfold obj_SetNonce in E. inv_bind E. apply obj_get_inv in E1 as [-> Ho'].
  rewrite Ho in Ho'. injection Ho' as <-. inv_bind E. injection E1 as <- <-.
  rewrite (obj_mod_spec _ a _ o) in E by done. injection E as <- <-.
  eapply (change_good s a o (setNonce nonce) (setNonce (o_nonce o))); try done.
  - intros p [] Hpw How. split; [|done]. by split.
  - intros s0 p Hwf0 Hl0. by apply on_object_spec.
Qed.

Lemma obj_GetCommittedState_spec s a key :
  wf s → live s a → ∃ o o', stateObjects s !! a = Some o ∧
    obj_GetCommittedState storage_trie a key s = (Ok (committed_view a o key), upd a o' s)
    ∧ obj_equiv a o' o ∧ address o' = address o ∧ deleted o' = deleted o
    ∧ dirtyStorage o' = dirtyStorage o.
Proof.
  intros Hwf Hl. destruct (live_inv s a Hwf Hl) as (o&Ho&Hd&Hlo&Ha&Hw).
  unfold obj_GetCommittedState, committed_view. se_red. unfold obj_get. se_red. rewrite Ho.
  destruct (originStorage o !! key) as [v|] eqn:Hk.
  - exists o, o. rewrite upd_same by done. by rewrite ?Hk.
  - rewrite (obj_mod_spec _ a _ o) by done. exists o. eexists. rewrite Hk.
    split_and!; [done|done| |done|done|done].
    assert (∀ k, committed_view a (with_origin
      (<[key := storage_trie a (o_root o) key]> (originStorage o)) o) k = committed_view a o k) as Hc.
    { intros k. unfold committed_view. cbn. destruct (decide (k = key)) as [->|].
      - by rewrite lookup_insert_eq, Hk.
      - by rewrite lookup_insert_ne. }
    split; try done. intros k. unfold storage_view. cbn. by rewrite Hc.
Qed.

Lemma obj_GetState_spec s a key :
  wf s → live s a → ∃ o o', stateObjects s !! a = Some o ∧
    obj_GetState storage_trie a key s = (Ok (storage_view a o key), upd a o' s)
    ∧ obj_equiv a o' o ∧ address o' = address o ∧ deleted o' = deleted o.
Proof.
  intros Hwf Hl. destruct (live_inv s a Hwf Hl) as (o&Ho&Hd&Hlo&Ha&Hw).
  unfold obj_GetState, storage_view. se_red. unfold obj_get at 1. se_red. rewrite Ho.
  destruct (dirtyStorage o !! key) as [v|] eqn:Hk.
  - exists o, o. rewrite upd_same by done. by rewrite ?Hk.
  - destruct (obj_GetCommittedState_spec s a key Hwf Hl) as (o1&o'&Ho1&E&Heq&Ha'&Hd'&_).
    rewrite Ho in Ho1. injection Ho1 as <-. exists o, o'. rewrite E. rewrite Hk. done.
Qed.

Lemma cache_good s a o o' :
  wf s → live s a → stateObjects s !! a = Some o → obj_equiv a o' o →
  address o' = address o → deleted o' = deleted o →
  Ext (upd a o' s) s ∧ live (upd a o' s) a ∧ revs s (upd a o' s).
Proof.
  intros Hwf Hl Ho Heq Ha' Hd'. destruct (live_inv s a Hwf Hl) as (o1&Ho1&Hd&Hlo&Ha&Hw).
  rewrite Ho in Ho1. injection Ho1 as <-.
  assert (obj_wf o') by (unfold obj_wf in *; by rewrite (oe_trie _ _ _ Heq)).
  split_and!; [|apply upd_is_live; congruence|done].
  apply (Ext_cache s a o o'); congruence || done.
Qed.

Lemma obj_GetCommittedState_good a key : good_at a (obj_GetCommittedState storage_trie a key).
Proof.
  intros s x s' Hwf Hl E.
  destruct (obj_GetCommittedState_spec s a key Hwf Hl) as (o&o'&Ho&E'&Heq&Ha&Hd&_).
  rewrite E' in E. injection E as <- <-. by eapply cache_good.
Qed.

Lemma obj_GetState_good a key : good_at a (obj_GetState storage_trie a key).
Proof.
  intros s x s' Hwf Hl E.
  destruct (obj_GetState_spec s a key Hwf Hl) as (o&o'&Ho&E'&Heq&Ha&Hd).
  rewrite E' in E. injection E as <- <-. by eapply cache_good.
Qed.

Lemma obj_SetState_good a key value : good_at a (obj_SetState storage_trie a key value).
Proof.
  intros s x s' Hwf Hl E. unfold obj_SetState in E. inv_bind E.
  destruct (obj_GetState_spec s a key Hwf Hl) as (o&o1&Ho&E'&Heq&Ha&Hd).
  rewrite E' in E1. injection E1 as <- <-.
  destruct (cache_good s a o o1 Hwf Hl Ho Heq Ha Hd) as (Hx&Hl1&Hr1).
  case_bool_decide as Hne.
  { injection E as <- <-. split_and!; [done|done|apply Hr1]. }
  inv_bind E. injection E1 as <- <-.
  rewrite (obj_mod_spec _ a _ o1) in E by (cbn; by rewrite lookup_insert_eq).
  injection E as <- <-.
  destruct (live_inv _ a (proj1 Hx) Hl1) as (o2&Ho2&Hd2&_).
  cbn in Ho2. rewrite lookup_insert_eq in Ho2. injection Ho2 as <-.
  destruct (change_good (upd a o1 s) a o1 (setState key value)
    (setState key (storage_view a o key)) (storageChange a key (storage_view a o key)))
    as (Hx2&Hl2&Hr2); try done; [apply Hx|cbn; by rewrite lookup_insert_eq| | |].
  - intros p [] Hpw How. split; [|done].
    assert (∀ k, committed_view a (setState key (storage_view a o key) p) k
                 = committed_view a o1 k) as Hc by done.
    split; try done. intros k. unfold storage_view at 1. rewrite Hc. cbn [dirtyStorage setState].
    destruct (decide (k = key)) as [->|Hk].
    + rewrite lookup_insert_eq. symmetry. apply Heq.
    + rewrite lookup_insert_ne by done. specialize (oe_storage0 k).
      unfold storage_view in oe_storage0 |- *. cbn [dirtyStorage setState] in oe_storage0.
      rewrite lookup_insert_ne in oe_storage0 by done.
      rewrite oe_committed0 in oe_storage0. exact oe_storage0.
  - intros s0 p Hwf0 Hl0. by apply on_object_spec.
  - split_and!; [by eapply Ext_trans|done|by eapply revs_trans].
Qed.

Lemma obj_Code_spec s a :
  wf s → live s a → ∃ o o', stateObjects s !! a = Some o ∧
    obj_Code contract_code Keccak256Hash a s = (Ok (code_view o), upd a o' s)
    ∧ obj_equiv a o' o ∧ address o' = address o ∧ deleted o' = deleted o
    ∧ o_codehash o' = o_codehash o.
Proof.
  intros Hwf Hl. destruct (live_inv s a Hwf Hl) as (o&Ho&Hd&Hlo&Ha&Hw).
  unfold obj_Code, code_view. se_red. unfold obj_get. se_red. rewrite Ho.
  destruct (o_code o) as [c|] eqn:Hc.
  - exists o, o. rewrite upd_same by done. by rewrite ?Hc.
  - destruct (bool_decide (o_codehash o = emptyCodeHash)) eqn:Hb.
    + exists o, o. rewrite upd_same by done. rewrite Hc, Hb. done.
    + rewrite (obj_mod_spec _ a _ o) by done. exists o. eexists. rewrite Hc, Hb.
      split_and!; [done|done| |done|done|done].
      split; try done. unfold code_view. cbn. rewrite Hc, Hb.
      by destruct (contract_code (o_codehash o)).
Qed.

Lemma obj_Code_good a : good_at a (obj_Code contract_code Keccak256Hash a).
Proof.
  intros s x s' Hwf Hl E.
  destruct (obj_Code_spec s a Hwf Hl) as (o&o'&Ho&E'&Heq&Ha&Hd&_).
  rewrite E' in E. injection E as <- <-. by eapply cache_good.
Qed.

(** Putting the loaded code and its hash back gives the old code. *)
Lemma code_view_restore o p :
  code_view (setCode (o_codehash o) (code_view o) p) = code_view o.
Proof.
  unfold code_view. cbn. destruct (o_code o) as [c|]; [done|].
  destruct (bool_decide (o_codehash o = emptyCodeHash)) eqn:Hb; [done|].
  by destruct (contract_code (o_codehash o)).
Qed.

Lemma obj_SetCode_good a hash code :
  good_at a (obj_SetCode contract_code Keccak256Hash a hash code).
Proof.
  intros s x s' Hwf Hl E. unfold obj_SetCode in E. inv_bind E.
  destruct (obj_Code_spec s a Hwf Hl) as (o&o1&Ho&E'&Heq&Ha&Hd&Hh).
  rewrite E' in E1. injection E1 as <- <-.
  destruct (cache_good s a o o1 Hwf Hl Ho Heq Ha Hd) as (Hx&Hl1&Hr1).
  destruct (live_inv _ a (proj1 Hx) Hl1) as (o2&Ho2&Hd2&_).
  assert (o2 = o1) as -> by (cbn in Ho2; rewrite lookup_insert_eq in Ho2; by injection Ho2).
  inv_bind E. apply obj_get_inv in E1 as [-> Ho']. rewrite Ho2 in Ho'. injection Ho' as <-.
  inv_bind E. injection E1 as <- <-.
  rewrite (obj_mod_spec _ a _ o1) in E by done. injection E as <- <-.
  destruct (change_good (upd a o1 s) a o1 (setCode hash (Some code))
    (setCode (o_codehash o1) (code_view o)) (codeChange a (code_view o) (o_codehash o1)))
    as (Hx2&Hl2&Hr2); try done; [apply Hx| | |].
  - intros p [] Hpw How. split; [|done]. split; try done.
    rewrite <- (oe_code _ _ _ Heq). apply code_view_restore.
  - intros s0 p Hwf0 Hl0. by apply on_object_spec.
  - split_and!; [by eapply Ext_trans|done|by eapply revs_trans].
Qed.

(** *** The whole operations *)

Lemma Suicide_good a : good (Suicide account_trie Keccak256Hash a).
Proof.
  intros s x s' Hwf E. unfold Suicide in E. inv_bind E.
  destruct (getStateObject_Ext _ _ _ _ Hwf E1) as (Hx&Hr&->&Hlive).
  destruct (live_obj s a) as [o|] eqn:Hl; [|by injection E as <- <-].
  rewrite getStateObject_spec, Hl in E1 by done. injection E1 as <-.
  destruct (live_obj_wf s a o Hwf Hl) as (Ha&Hw&Hd).
  inv_bind E. injection E1 as <- <-. inv_bind E.
  rewrite (obj_mod_spec _ a _ o) in E1 by (cbn; by rewrite lookup_insert_eq).
  injection E1 as <- <-. inv_bind E.
  rewrite (obj_mod_spec _ a _ (with_suicided true o)) in E1 by (cbn; by rewrite lookup_insert_eq).
  injection E1 as <- <-. injection E as <- <-. rewrite upd_upd.
  destruct (change_good (upd a o s) a o
    (fun o => with_balances (mkTB true None ∅) (with_suicided true o))
    (fun p => setBalances (balances (o_balances o)) (with_suicided (suicided o) p))
    (suicideChange a (suicided o) (balances (o_balances o)))) as (Hx2&Hl2&Hr2); try done.
  - apply Hx.
  - cbn. by rewrite lookup_insert_eq.
  - intros p [] Hpw How. split; [|done]. by split.
  - intros s0 p Hwf0 Hl0. cbn [StateDB.revert_entry]. se_red.
    rewrite getStateObject_spec, Hl0 by done.
    rewrite (obj_mod_spec _ a _ p) by (cbn; by rewrite lookup_insert_eq).
    rewrite upd_upd, (obj_mod_spec _ a _ (with_suicided (suicided o) p))
      by (cbn; by rewrite lookup_insert_eq).
    by rewrite upd_upd.
  - split; [by eapply Ext_trans|by eapply revs_trans].
Qed.

Lemma wf_same_objects s s' :
  wf s → stateObjects s' = stateObjects s → Forall entry_wf (entries s') → wf s'.
Proof. intros [Ho _] E He. split; [by rewrite E|done]. Qed.

Lemma entries_snoc_wf s e : wf s → entry_wf e → Forall entry_wf (entries s ++ [e]).
Proof. intros [_ He] Hw. apply Forall_app. by repeat constructor. Qed.

Lemma AddRefund_good gas : good (AddRefund gas).
Proof.
  intros s x s' Hwf E. injection E as <- <-. split; [|done].
  apply (Ext_step (refundChange (refund s))); [|done|].
  - eapply wf_same_objects; [done|done|by apply entries_snoc_wf].
  - intros s1 Hwf1 []. eexists. split; [done|].
    split_and!; [by destruct Hwf1; split|by split|done].
Qed.

Lemma SubRefund_good gas : good (SubRefund gas).
Proof.
  intros s x s' Hwf E. unfold SubRefund in E. se_red_in E. cbn in E.
  case_bool_decide; [done|]. injection E as <- <-. split; [|done].
  apply (Ext_step (refundChange (refund s))); [|done|].
  - eapply wf_same_objects; [done|done|by apply entries_snoc_wf].
  - intros s1 Hwf1 []. eexists. split; [done|].
    split_and!; [by destruct Hwf1; split|by split|done].
Qed.

Lemma AddPreimage_good hash preimage : good (AddPreimage hash preimage).
Proof.
  intros s x s' Hwf E. unfold AddPreimage in E. se_red_in E.
  destruct (preimages s !! hash) as [pi|] eqn:Hh; injection E as <- <-.
  { split; [by apply Ext_refl|done]. }
  split; [|done]. apply (Ext_step (addPreimageChange hash)); [|done|].
  - eapply wf_same_objects; [done|done|by apply entries_snoc_wf].
  - intros s1 Hwf1 []. eexists. split; [done|].
    split_and!; [by destruct Hwf1; split| |done]. split; try done.
    cbn. rewrite se_preimages0. cbn. by rewrite delete_insert_id.
Qed.

Lemma AddLog_good l : good (AddLog l).
Proof.
  intros s x s' Hwf E. injection E as <- <-. split; [|done].
  apply (Ext_step (addLogChange (thash s))); [|done|].
  - eapply wf_same_objects; [done|done|by apply entries_snoc_wf].
  - intros s1 Hwf1 []. eexists. split; [done|].
    split_and!; [by destruct Hwf1; split| |done].
    split; try done; cbn in *; [|lia].
    intros h. pose proof (se_logs0 (thash s)) as Ht. pose proof (se_logs0 h) as Hh.
    cbn in Ht, Hh. rewrite lookup_insert_eq in Ht. cbn in Ht. rewrite Ht, length_app. cbn [length].
    destruct (decide (h = thash s)) as [->|Hne].
    + case_bool_decide as Hlen.
      * rewrite lookup_delete_eq. cbn. symmetry. apply nil_length_inv. lia.
      * rewrite lookup_insert_eq. cbn. by rewrite Nat.add_sub, take_app_length.
    + rewrite lookup_insert_ne in Hh by done. rewrite <- Hh.
      case_bool_decide; [by rewrite lookup_delete_ne|by rewrite lookup_insert_ne].
Qed.

(** ** Programs over the state *)

Inductive state_op :=
| OpCreateAccount (a : Z) | OpAddBalance (a amount token : Z) | OpSubBalance (a amount token : Z)
| OpSetBalance (a amount token : Z) | OpSetNonce (a nonce : Z) | OpSetCode (a : Z) (code : list Z)
| OpSetState (a key value : Z) | OpSuicide (a : Z) | OpAddLog (l : Log)
| OpAddPreimage (hash : Z) (preimage : list Z) | OpAddRefund (gas : Z) | OpSubRefund (gas : Z)
| OpGetBalance (a token : Z) | OpGetNonce (a : Z) | OpGetCode (a : Z) | OpGetState (a key : Z)
| OpGetCommittedState (a key : Z) | OpExist (a : Z)
| OpSnapshot | OpRevert (id : Z).

Definition run_state_op (o : state_op) : M unit :=
  match o with
  | OpCreateAccount a => CreateAccount account_trie Keccak256Hash a
  | OpAddBalance a v t => AddBalance token_tries account_trie Keccak256Hash a v t
  | OpSubBalance a v t => SubBalance token_tries account_trie Keccak256Hash a v t
  | OpSetBalance a v t => SetBalance account_trie Keccak256Hash a v t
  | OpSetNonce a n => SetNonce account_trie Keccak256Hash a n
  | OpSetCode a c => SetCode account_trie contract_code Keccak256Hash a c
  | OpSetState a k v => SetState account_trie storage_trie Keccak256Hash a k v
  | OpSuicide a => _ ← Suicide account_trie Keccak256Hash a; mret tt
  | OpAddLog l => AddLog l
  | OpAddPreimage h p => AddPreimage h p
  | OpAddRefund g => AddRefund g
  | OpSubRefund g => SubRefund g
  | OpGetBalance a t => _ ← GetBalance token_tries account_trie Keccak256Hash a t; mret tt
  | OpGetNonce a => _ ← GetNonce account_trie Keccak256Hash a; mret tt
  | OpGetCode a => _ ← GetCode account_trie contract_code Keccak256Hash a; mret tt
  | OpGetState a k => _ ← GetState account_trie storage_trie Keccak256Hash a k; mret tt
  | OpGetCommittedState a k =>
      _ ← GetCommittedState account_trie storage_trie Keccak256Hash a k; mret tt
  | OpExist a => _ ← Exist account_trie Keccak256Hash a; mret tt
  | OpSnapshot => _ ← Snapshot; mret tt
  | OpRevert id => RevertToSnapshot account_trie Keccak256Hash id
  end.

Fixpoint run_state_ops (os : list state_op) : M unit :=
  match os with
  | [] => mret tt
  | o :: os => _ ← run_state_op o; run_state_ops os
  end.

Definition is_revision_op (o : state_op) : bool :=
  match o with OpSnapshot | OpRevert _ => true | _ => false end.

Lemma good_obj_get_ret {A} a (f : stateObject → A) : good_at a (o ← obj_get a; mret (f o)).
Proof.
  intros s x s' Hwf Hl E. inv_bind E. apply obj_get_inv in E1 as [-> _]. injection E as <- <-.
  split_and!; [by apply Ext_refl|done|done].
Qed.

Lemma good_drop {A} (m : M A) : good m → good (_ ← m; mret tt).
Proof. intros Hm. apply good_bind; [done|]. intros x. apply good_ret. Qed.

Lemma run_state_op_good o : is_revision_op o = false → good (run_state_op o).
Proof.
  intros Ho. destruct o; cbn [run_state_op is_revision_op] in *; try done; clear Ho;
    try apply good_drop.
  - apply CreateAccount_good.
  - apply good_on, obj_AddBalance_good.
  - apply good_on, obj_SubBalance_good.
  - apply good_on, obj_SetBalance_good.
  - apply good_on, obj_SetNonce_good.
  - apply good_on, obj_SetCode_good.
  - apply good_on, obj_SetState_good.
  - apply Suicide_good.
  - apply AddLog_good.
  - apply AddPreimage_good.
  - apply AddRefund_good.
  - apply SubRefund_good.
  - apply good_if, obj_Balance_good.
  - apply good_on, good_obj_get_ret.
  - apply good_if, obj_Code_good.
  - apply good_if, obj_GetState_good.
  - apply good_if, obj_GetCommittedState_good.
  - apply good_bind; [|intros; apply good_ret].
    intros s x s' Hwf E. by destruct (getStateObject_Ext _ _ _ _ Hwf E) as (?&?&_).
Qed.

(** ** Snapshots

    The ghost list [G] holds the state at every snapshot that can be reverted to;
    [P] are the revisions of earlier transactions, which the code also keeps. *)
Record Inv (P : list (Z * nat)) (G : list (Z * StateDB)) (s : StateDB) : Prop := {
  inv_revs : validRevisions s = P ++ map (fun g => (g.1, length (entries g.2))) G;
  inv_sorted : StronglySorted Z.lt (P.*1 ++ G.*1);
  inv_next : Forall (fun id => id < nextRevisionId s) (P.*1 ++ G.*1);
  inv_ext : StronglySorted (fun old new => Ext new old) G.*2;
  inv_last : Forall (fun g => Ext s g) G.*2;
  inv_snaps : Forall wf G.*2;
  inv_wf : wf s;
}.

Lemma inv_ids P G s : Inv P G s → (validRevisions s).*1 = P.*1 ++ G.*1.
Proof.
  intros HI. rewrite (inv_revs _ _ _ HI), fmap_app. clear HI. f_equal. induction G as [|g G IH]; [done|].
  cbn. by rewrite IH.
Qed.

Lemma sorted_app_inv {A} (R : A → A → Prop) l x k :
  StronglySorted R (l ++ x :: k) → StronglySorted R l ∧ Forall (fun y => R y x) l.
Proof.
  induction l as [|y l IH]; cbn; [by repeat constructor|].
  inversion 1 as [|? ? Hs Hy]; subst. destruct (IH Hs). apply Forall_app in Hy as [? Hy].
  apply Forall_cons in Hy as [? _]. by repeat constructor.
Qed.

Lemma Inv_good P G s s' : Inv P G s → Ext s' s → revs s s' → Inv P G s'.
Proof.
  intros [Hr Hs Hn He Hl Hgw Hw] Hx [Hv Hnx]. split; try done.
  - by rewrite Hv.
  - by rewrite Hnx.
  - eapply Forall_impl; [exact Hl|]. intros g Hg. by eapply Ext_trans.
  - apply Hx.
Qed.

Lemma Inv_snapshot P G s :
  Inv P G s →
  ∃ s', Snapshot s = (Ok (nextRevisionId s), s') ∧ Inv P (G ++ [(nextRevisionId s, s)]) s'
        ∧ nextRevisionId s' = nextRevisionId s + 1.
Proof.
  intros [Hr Hs Hn He Hl Hgw Hw].
  set (s' := set_revisions (validRevisions s ++ [(nextRevisionId s, length (entries s))])
    (nextRevisionId s + 1) s).
  exists s'. split; [reflexivity|]. split; [|reflexivity].
  assert (wf s') as Hw' by (destruct Hw; by split).
  assert (Ext s' s) as Hx by (apply Ext_equiv; [done|done|by split]).
  split; rewrite ?fmap_app, ?app_assoc; cbn [fmap list_fmap fst snd].
  - cbn. by rewrite Hr.
  - apply sorted_snoc; [done|]. exact Hn.
  - apply Forall_app. split; [|by repeat constructor; cbn; lia].
    eapply Forall_impl; [exact Hn|]. cbn. lia.
  - apply sorted_snoc; [done|]. exact Hl.
  - apply Forall_app. split; [|by apply Forall_singleton].
    eapply Forall_impl; [exact Hl|]. intros g Hg. by eapply Ext_trans.
  - apply Forall_app. split; [done|by apply Forall_singleton].
  - done.
Qed.

Lemma journal_revert_restores s g :
  wf g → Ext s g →
  ∃ s', journal_revert account_trie Keccak256Hash (length (entries g)) s = (Ok tt, s')
    ∧ wf s' ∧ s' ≈ g ∧ entries s' = entries g ∧ revs s s'.
Proof.
  intros Hwg [Hws (es&He&Hu)]. destruct (Hu s Hws ltac:(done)) as (s1&E1&Hw1&Hs1&He1&Hr1).
  unfold journal_revert. se_red. rewrite He, drop_app_length, E1.
  exists (set_journal (take (length (entries g)) (entries s1)) (dirties s1) s1).
  assert (take (length (entries g)) (entries s1) = entries g) as Ht
    by (by rewrite He1, He, take_app_length).
  split_and!; [done| | |exact Ht|apply Hr1..].
  - destruct Hw1 as [Ho _], Hwg as [_ Hge]. split; [done|]. cbn. by rewrite Ht.
  - etrans; [|exact Hs1]. by split.
Qed.

Lemma Inv_revert P G1 id g G2 s :
  Inv P (G1 ++ (id, g) :: G2) s →
  ∃ s', RevertToSnapshot account_trie Keccak256Hash id s = (Ok tt, s')
    ∧ s' ≈ g ∧ entries s' = entries g ∧ Inv P G1 s' ∧ nextRevisionId s' = nextRevisionId s.
Proof.
  intros HI. pose proof (inv_ids _ _ _ HI) as Hids. pose proof (inv_sorted _ _ _ HI) as Hsorted.
  destruct HI as [Hr Hs Hn He Hl Hgw Hw].
  rewrite map_app, app_assoc in Hr. cbn [map fst snd] in Hr.
  rewrite fmap_app, app_assoc in Hs. rewrite fmap_app, app_assoc in Hn. rewrite fmap_app in He.
  rewrite fmap_app in Hl. rewrite fmap_app in Hgw.
  cbn [fmap list_fmap fst snd] in Hs, Hn, He, Hl, Hgw.
  destruct (sorted_app_inv _ _ _ _ Hs) as [Hs1 _].
  destruct (sorted_app_inv _ _ _ _ He) as [He1 Hg1].
  apply Forall_app in Hn as [Hn1 _]. apply Forall_app in Hl as [_ Hl].
  apply Forall_cons in Hl as [Hsg _]. apply Forall_app in Hgw as [Hgw1 Hgw].
  apply Forall_cons in Hgw as [Hwg _].
  destruct (journal_revert_restores s g Hwg Hsg) as (s1&E1&Hw1&Hs1g&He1g&Hv1&Hnx1).
  unfold RevertToSnapshot. se_red.
  assert (validRevisions s !! (length P + length G1)%nat = Some (id, length (entries g))) as Hlook.
  { rewrite Hr. apply list_lookup_middle. by rewrite length_app, length_map. }
  rewrite (search_revision _ id (length P + length G1)%nat (id, length (entries g))) by
    (done || by rewrite Hids).
  rewrite Hlook. cbn [fst snd]. rewrite bool_decide_true by done. rewrite E1.
  set (s' := set_revisions (take ((length P + length G1)%nat) (validRevisions s1)) (nextRevisionId s1) s1).
  exists s'. split; [reflexivity|].
  assert (s' ≈ g) as Hg by (etrans; [|exact Hs1g]; by split).
  assert (wf s') as Hw' by (destruct Hw1; by split).
  assert (Ext s' g) as Hx by (by apply Ext_equiv).
  split_and!; [done|done| |done]. split; try done.
  - cbn. rewrite Hv1, Hr. apply take_app_length'. by rewrite length_app, length_map.
  - eapply Forall_impl; [exact Hn1|]. intros i Hi. cbn in *. by rewrite Hnx1.
  - eapply Forall_impl; [exact Hg1|]. intros g' Hg'. by eapply Ext_trans.
Qed.

(** Only a valid revision can be reverted to. *)
Lemma RevertToSnapshot_valid id s s' :
  RevertToSnapshot account_trie Keccak256Hash id s = (Ok tt, s') → id ∈ (validRevisions s).*1.
Proof.
  unfold RevertToSnapshot. se_red. destruct (validRevisions s !! _) as [r|] eqn:Hr; [|done].
  case_bool_decide as Hid; [|done]. intros _. subst id.
  apply list_elem_of_fmap_2. by eapply list_elem_of_lookup_2.
Qed.

Lemma Inv_op G s o s' :
  Inv [] G s → run_state_op o s = (Ok tt, s') →
  ∃ G', Inv [] G' s' ∧ nextRevisionId s <= nextRevisionId s'
    ∧ ∀ i g, (i, g) ∈ G' → (i, g) ∈ G ∨ i = nextRevisionId s.
Proof.
  intros HI E. destruct (is_revision_op o) eqn:Ho.
  - destruct o; try done; cbn [run_state_op] in E.
    + destruct (Inv_snapshot [] G s HI) as (s1&E1&HI1&Hn). se_red_in E. rewrite E1 in E.
      injection E as <-. eexists. split_and!; [exact HI1|lia|].
      intros i g [Hin|Hin]%elem_of_app; [by left|]. right.
      apply list_elem_of_singleton in Hin. by injection Hin.
    + pose proof (RevertToSnapshot_valid _ _ _ E) as Hv.
      rewrite (inv_ids _ _ _ HI) in Hv.
      apply list_elem_of_fmap in Hv as ([i g]&->&Hin). cbn in E.
      apply list_elem_of_split in Hin as (G1&G2&->).
      destruct (Inv_revert [] G1 i g G2 s HI) as (s1&E1&_&_&HI1&Hn). cbn in E1.
      rewrite E1 in E. injection E as <-. exists G1. split_and!; [done|lia|].
      intros i' g' Hin. left. set_solver.
  - destruct (run_state_op_good o Ho s tt s' (inv_wf _ _ _ HI) E) as [Hx Hr].
    exists G. split_and!; [by eapply Inv_good|destruct Hr as [_ ->]; lia|by left].
Qed.

Lemma Inv_ops G s os s' :
  Inv [] G s → run_state_ops os s = (Ok tt, s') →
  ∃ G', Inv [] G' s' ∧ nextRevisionId s <= nextRevisionId s'
    ∧ ∀ i g, (i, g) ∈ G' → (i, g) ∈ G ∨ nextRevisionId s <= i.
Proof.
  revert G s. induction os as [|o os IH]; intros G s HI E; cbn [run_state_ops] in E.
  { injection E as <-. exists G. split_and!; [done|lia|by left]. }
  inv_bind E. destruct x. destruct (Inv_op G s o s1 HI E1) as (G1&HI1&Hn1&Hg1).
  destruct (IH G1 s1 HI1 E) as (G2&HI2&Hn2&Hg2). exists G2. split_and!; [done|lia|].
  intros i g Hin. destruct (Hg2 i g Hin) as [Hin1|Hle]; [|right; lia].
  destruct (Hg1 i g Hin1) as [?| ->]; [by left|right; lia].
Qed.

(** C9: reverting to a snapshot restores the state.  Take any operations from
    the start of a transaction, a snapshot, and any further operations,
    nested snapshots and reverts included.  If the snapshot is still valid,
    reverting to it does not panic, and leaves a state the virtual machine
    cannot tell from the one the snapshot was taken in, with the same
    journal, provided no account of the database has a token trie. *)
Theorem revert_restores_snapshot os1 os2 s s0 s1 s2 id :
  wf s → validRevisions s = [] →
  run_state_ops os1 s = (Ok tt, s0) → Snapshot s0 = (Ok id, s1) →
  run_state_ops os2 s1 = (Ok tt, s2) → id ∈ (validRevisions s2).*1 →
  ∃ s3, RevertToSnapshot account_trie Keccak256Hash id s2 = (Ok tt, s3)
    ∧ s3 ≈ s0 ∧ entries s3 = entries s0.
Proof.
  intros Hwf Hrev E1 Esnap E2 Hid.
  assert (Inv [] [] s) as HI by (split; [by rewrite Hrev|constructor..|done]).
  destruct (Inv_ops [] s os1 s0 HI E1) as (G0&HI0&_&_).
  destruct (Inv_snapshot [] G0 s0 HI0) as (s1'&Esnap'&HI1&Hn1).
  rewrite Esnap' in Esnap. injection Esnap as <- <-.
  destruct (Inv_ops _ s1' os2 s2 HI1 E2) as (G2&HI2&_&Hg2).
  rewrite (inv_ids _ _ _ HI2) in Hid.
  apply list_elem_of_fmap in Hid as ([i g]&Hi&Hin). cbn in Hi. subst i.
  assert (g = s0) as ->.
  { destruct (Hg2 _ _ Hin) as [Hin'|]; [|lia].
    apply elem_of_app in Hin' as [Hin'|Hin'].
    - exfalso. pose proof (inv_next _ _ _ HI0) as Hn0. rewrite Forall_forall in Hn0.
      specialize (Hn0 (nextRevisionId s0)).
      enough (nextRevisionId s0 < nextRevisionId s0) by lia. apply Hn0.
      apply (list_elem_of_fmap_2 fst) in Hin'. exact Hin'.
    - apply list_elem_of_singleton in Hin'. by injection Hin'. }
  apply list_elem_of_split in Hin as (Ga&Gb&->).
  destruct (Inv_revert [] Ga _ s0 Gb s2 HI2) as (s3&E3&Hs3&He3&_). eauto.
Qed.

(** ** What [≈] preserves *)

(** A getter that reads the live object through [m]. *)
Lemma read_spec {A} a (m : M A) (d : A) (f : stateObject → A) s :
  wf s →
  (∀ s o, wf s → stateObjects s !! a = Some o → deleted o = false → (m s).1 = Ok (f o)) →
  ((getStateObject a ≫= fun o => match (o : option stateObject) with
     | None => mret d | Some _ => m end) s).1
  = Ok (match live_obj s a with None => d | Some o => f o end).
Proof.
  intros Hwf Hm. se_red. rewrite getStateObject_spec by done.
  destruct (live_obj s a) as [o|] eqn:Hl; [|done].
  destruct (live_obj_wf s a o Hwf Hl) as (Ha&Hw&Hd).
  apply Hm; [by apply wf_upd|cbn; by rewrite lookup_insert_eq|done].
Qed.

Lemma live_of s a o : stateObjects s !! a = Some o → deleted o = false → live s a.
Proof. intros. by exists o. Qed.

Lemma GetBalance_spec s a token :
  wf s → (GetBalance token_tries account_trie Keccak256Hash a token s).1
  = Ok (match live_obj s a with None => 0
        | Some o => default 0 (balances (o_balances o) !! token) end).
Proof.
  intros Hwf. apply (read_spec a _ 0 (fun o => default 0 (balances (o_balances o) !! token)));
    [done|]. intros s1 o Hw Ho Hd.
  destruct (obj_Balance_spec s1 a token Hw (live_of _ _ _ Ho Hd)) as (o'&Ho'&E).
  rewrite Ho in Ho'. injection Ho' as <-. by rewrite E.
Qed.

Lemma GetState_spec s a key :
  wf s → (GetState account_trie storage_trie Keccak256Hash a key s).1
  = Ok (match live_obj s a with None => 0 | Some o => storage_view a o key end).
Proof.
  intros Hwf. apply (read_spec a _ 0 (fun o => storage_view a o key)); [done|].
  intros s1 o Hw Ho Hd.
  destruct (obj_GetState_spec s1 a key Hw (live_of _ _ _ Ho Hd)) as (o'&?&Ho'&E&_).
  rewrite Ho in Ho'. injection Ho' as <-. by rewrite E.
Qed.

Lemma GetCommittedState_spec s a key :
  wf s → (GetCommittedState account_trie storage_trie Keccak256Hash a key s).1
  = Ok (match live_obj s a with None => 0 | Some o => committed_view a o key end).
Proof.
  intros Hwf. apply (read_spec a _ 0 (fun o => committed_view a o key)); [done|].
  intros s1 o Hw Ho Hd.
  destruct (obj_GetCommittedState_spec s1 a key Hw (live_of _ _ _ Ho Hd)) as (o'&?&Ho'&E&_).
  rewrite Ho in Ho'. injection Ho' as <-. by rewrite E.
Qed.

Lemma GetCode_spec s a :
  wf s → (GetCode account_trie contract_code Keccak256Hash a s).1
  = Ok (match live_obj s a with None => None | Some o => code_view o end).
Proof.
  intros Hwf. apply (read_spec a _ None code_view); [done|].
  intros s1 o Hw Ho Hd.
  destruct (obj_Code_spec s1 a Hw (live_of _ _ _ Ho Hd)) as (o'&?&Ho'&E&_).
  rewrite Ho in Ho'. injection Ho' as <-. by rewrite E.
Qed.

Lemma GetNonce_spec s a :
  wf s → (GetNonce account_trie Keccak256Hash a s).1
  = Ok (match live_obj s a with None => 0 | Some o => o_nonce o end).
Proof.
  intros Hwf. unfold GetNonce, GetOrNewStateObject. se_red. rewrite getStateObject_spec by done.
  destruct (live_obj s a) as [o|] eqn:Hl.
  - destruct (live_obj_wf s a o Hwf Hl) as (Ha&Hw&Hd). rewrite Hd.
    unfold obj_get. se_red. cbn. by rewrite lookup_insert_eq.
  - unfold createObject. se_red. rewrite getStateObject_spec, Hl by done.
    unfold obj_get. se_red. cbn. by rewrite lookup_insert_eq.
Qed.

(** Equivalence is what can be observed: two equivalent states answer every
    getter alike, for every account, token and storage slot. *)
Theorem equivalent_states_agree s1 s2 a token key :
  wf s1 → wf s2 → s1 ≈ s2 →
  (GetBalance token_tries account_trie Keccak256Hash a token s1).1
    = (GetBalance token_tries account_trie Keccak256Hash a token s2).1
  ∧ (GetNonce account_trie Keccak256Hash a s1).1 = (GetNonce account_trie Keccak256Hash a s2).1
  ∧ (GetState account_trie storage_trie Keccak256Hash a key s1).1
    = (GetState account_trie storage_trie Keccak256Hash a key s2).1
  ∧ (GetCommittedState account_trie storage_trie Keccak256Hash a key s1).1
    = (GetCommittedState account_trie storage_trie Keccak256Hash a key s2).1
  ∧ (GetCode account_trie contract_code Keccak256Hash a s1).1
    = (GetCode account_trie contract_code Keccak256Hash a s2).1
  ∧ (Exist account_trie Keccak256Hash a s1).1 = (Exist account_trie Keccak256Hash a s2).1
  ∧ (Empty account_trie Keccak256Hash a s1).1 = (Empty account_trie Keccak256Hash a s2).1
  ∧ (GetCodeHash account_trie Keccak256Hash a s1).1 = (GetCodeHash account_trie Keccak256Hash a s2).1
  ∧ (HasSuicided account_trie Keccak256Hash a s1).1 = (HasSuicided account_trie Keccak256Hash a s2).1
  ∧ (GetRefund s1).1 = (GetRefund s2).1.
Proof.
  intros Hw1 Hw2 Hs. pose proof (se_objects _ _ Hs a) as Ho.
  rewrite !GetBalance_spec, !GetNonce_spec, !GetState_spec, !GetCommittedState_spec, !GetCode_spec
    by done.
  unfold Exist, Empty, GetCodeHash, HasSuicided, GetRefund. se_red.
  rewrite !getStateObject_spec by done. rewrite (se_refund _ _ Hs).
  destruct Ho as [o1 o2 Ho|]; [|done]. destruct Ho.
  unfold obj_empty, IsBlank, nonZeroEntriesInBalancesCache.
  rewrite oe_nonce0, oe_balances0, oe_trie0, oe_codehash0, oe_code0, oe_committed0, oe_storage0,
    oe_suicided0. done.
Qed.
End correct.

(** ** Accounts with a token trie

    An account that holds many tokens keeps them in a token trie, and the
    in-memory map has only those read or set since it was loaded.  The journal
    entry of a balance change keeps that map alone. *)
Section token_trie.
Context `{SecureTrie tr, Rlp}.
Variable token_tries : heap tr.
Variable account_trie : Z → option Account.
Variable Keccak256Hash : list Z → Z.
Local Abbreviation getStateObject := (getStateObject account_trie Keccak256Hash).
Local Abbreviation live_obj := (live_obj account_trie Keccak256Hash).

Lemma getStateObject_live s a o :
  live_obj s a = Some o → address o = a → getStateObject a s = (Ok (Some o), upd a o s).
Proof.
  unfold StateDB.getStateObject, StateDBCorrect.live_obj. se_red. intros Hl Ha.
  destruct (stateObjects s !! a) as [p|] eqn:Hp.
  - destruct (deleted p); [done|]. injection Hl as ->. by rewrite upd_same.
  - destruct (account_trie a) as [acc|]; [|done]. by injection Hl as <-.
Qed.

(** C40: a reverted balance change leaves an account with its in-memory
    balances only, whether or not it has a token trie.  Take a snapshot, set
    a balance of an account to a value that is not negative (a negative one
    panics), and revert to the snapshot: the balance of any token then reads
    as the entry the in-memory map had at the snapshot, and as 0 where it had
    none, whatever the token trie of the account holds for it.  The revision
    ids must be increasing and below the next one, as Snapshot makes them. *)
Theorem reverted_balances s a o x t' t :
  live_obj s a = Some o → address o = a → 0 <= x →
  StronglySorted Z.lt (validRevisions s).*1 →
  Forall (fun id => id < nextRevisionId s) (validRevisions s).*1 →
  ((id ← Snapshot;
    _ ← SetBalance account_trie Keccak256Hash a x t';
    _ ← RevertToSnapshot account_trie Keccak256Hash id;
    GetBalance token_tries account_trie Keccak256Hash a t) s).1
  = Ok (default 0 (balances (o_balances o) !! t)).
Proof.
  intros Hl Ha Hx Hs Hn. assert (deleted o = false) as Hd.
  { revert Hl. unfold StateDBCorrect.live_obj. destruct (stateObjects s !! a) as [p|].
    - destruct (deleted p) eqn:?; [done|]. by intros [= <-].
    - destruct (account_trie a); [|done]. by intros [= <-]. }
  unfold Snapshot. se_red.
  set (s1 := set_revisions _ _ s).
  unfold SetBalance, GetOrNewStateObject. se_red.
  rewrite (getStateObject_live s1 a o) by done. rewrite Hd. unfold obj_SetBalance, obj_get. se_red. cbn.
  rewrite lookup_insert_eq. cbn. unfold SetValue. rewrite bool_decide_false by lia.
  unfold obj_mod, obj_get. se_red. cbn. rewrite lookup_insert_eq. cbn.
  set (o1 := with_balances _ o). set (s2 := set_objects _ _).
  assert (validRevisions s2 !! length (validRevisions s) = Some (nextRevisionId s, length (entries s)))
    as Hr by (by apply list_lookup_middle).
  assert (StronglySorted Z.lt (validRevisions s2).*1) as Hs2.
  { change (validRevisions s2) with (validRevisions s ++ [(nextRevisionId s, length (entries s))]).
    rewrite fmap_app. by apply sorted_snoc. }
  unfold RevertToSnapshot. se_red.
  rewrite (search_revision _ _ _ _ Hs2 Hr) by done. rewrite Hr. cbn [fst snd].
  rewrite bool_decide_true by done. unfold journal_revert. se_red.
  change (entries s2) with (entries s ++ [balanceChange a (balances (o_balances o))]).
  rewrite drop_app_length. cbn [rev app revert_entries revert_entry]. se_red. unfold on_object. se_red.
  rewrite (getStateObject_live s2 a o1); [| |exact Ha].
  2:{ unfold StateDBCorrect.live_obj. cbn. rewrite lookup_insert_eq. cbn. by rewrite Hd. }
  unfold obj_mod, obj_get. se_red. cbn. rewrite lookup_insert_eq. cbn.
  unfold GetBalance. se_red. unfold undirty. se_red.
  set (o2 := setBalances _ o1). set (s3 := set_revisions _ _ _).
  rewrite (getStateObject_live s3 a o2); [| |exact Ha].
  2:{ unfold StateDBCorrect.live_obj. cbn. rewrite lookup_insert_eq. cbn. by rewrite Hd. }
  unfold obj_Balance, obj_get. se_red. cbn. rewrite lookup_insert_eq.
  unfold GetTokenBalance. cbn.
  destruct (balances (o_balances o) !! t); cbn; unfold obj_mod, obj_get; se_red; cbn;
    by rewrite lookup_insert_eq.
Qed.
End token_trie.

(** ** Examples *)

(** One account of the trie, at address 7, with two tokens. *)
Definition sample_trie (a : Z) : option Account :=
  if bool_decide (a = 7) then Some (mkAccount 3 (mkTB true None {[ 1 := 100; 2 := 50 ]}) 9 (Some 77) 0)
  else None.
Definition sample_storage (a root key : Z) : Z := if bool_decide (a = 7) then key + 1 else 0.
Definition sample_code (hash : Z) : option (list Z) := Some [96; 0].
Definition sample_keccak (l : list Z) : Z := Z.of_nat (length l).
Definition empty_state : StateDB := mkState ∅ ∅ 0 0 0 0 ∅ 0 ∅ [] ∅ [] 0 0.
Definition no_tries : heap (gmap (list Z) (list Z)) := ∅.

Definition sample_ops : list state_op :=
  [ OpSetState 7 1 55; OpSubBalance 7 30 1; OpSetCode 8 [1; 2; 3]; OpSnapshot;
    OpSuicide 7; OpCreateAccount 7; OpAddBalance 9 5 2; OpRevert 1; OpSetNonce 7 4;
    OpAddLog (mkLog 7 [1] [2] 0 0 0 0 0); OpAddRefund 10; OpAddPreimage 5 [6] ].

Lemma sample_trie_wf a acc : sample_trie a = Some acc → tokenTrie (Balances acc) = None.
Proof. unfold sample_trie. case_bool_decide; [|done]. by intros [= <-]. Qed.

Lemma empty_state_wf : wf sample_trie empty_state.
Proof. split; [|constructor]. intros a o Ha. cbn in Ha. by rewrite lookup_empty in Ha. Qed.

Definition sample_end : result unit * StateDB :=
  run_state_ops no_tries sample_trie sample_storage sample_code sample_keccak sample_ops
    (Snapshot empty_state).2.

Lemma sample_end_ok :
  sample_end.1 = Ok tt ∧ bool_decide (0 ∈ (validRevisions sample_end.2).*1) = true
  ∧ bool_decide (length (entries sample_end.2) = 8%nat) = true.
Proof. vm_compute. done. Qed.

Lemma revert_restores_witness :
  ∃ s3, RevertToSnapshot sample_trie sample_keccak 0 sample_end.2 = (Ok tt, s3)
    ∧ length (entries sample_end.2) = 8%nat ∧ entries s3 = [].
Proof.
  destruct sample_end_ok as (Hr&Hid&Hlen).
  destruct (revert_restores_snapshot no_tries sample_trie sample_storage sample_code sample_keccak
    sample_trie_wf [] sample_ops empty_state empty_state (Snapshot empty_state).2 sample_end.2 0)
    as (s3&E3&_&He3).
  - exact empty_state_wf.
  - reflexivity.
  - reflexivity.
  - reflexivity.
  - rewrite <- Hr. apply surjective_pairing.
  - exact (bool_decide_eq_true_1 _ Hid).
  - exists s3. split; [exact E3|]. split; [exact (bool_decide_eq_true_1 _ Hlen)|exact He3].
Defined.

(** The account at 7, loaded. *)
Definition loaded_state : StateDB := (getStateObject sample_trie sample_keccak 7 empty_state).2.

Lemma equivalent_states_witness :
  (GetBalance no_tries sample_trie sample_keccak 7 1 loaded_state).1 = Ok 100.
Proof.
  destruct (live_obj sample_trie sample_keccak empty_state 7) as [o|] eqn:Hl;
    [|vm_compute in Hl; discriminate Hl].
  destruct (live_obj_wf _ _ sample_trie_wf _ _ _ empty_state_wf Hl) as (Ha&Hw&Hd).
  assert (loaded_state = upd 7 o empty_state) as ->.
  { unfold loaded_state. rewrite getStateObject_spec by apply empty_state_wf. by rewrite Hl. }
  destruct (equivalent_states_agree no_tries sample_trie sample_storage sample_code sample_keccak
    sample_trie_wf (upd 7 o empty_state) empty_state 7 1 0) as [-> _].
  - apply wf_upd; [apply empty_state_wf|done..].
  - apply empty_state_wf.
  - by apply upd_live.
  - vm_compute. reflexivity.
Defined.

(** Account 7 holds 42 of token 5 in its token trie. *)
Definition token_tries_5 : heap (gmap (list Z) (list Z)) :=
  {[ 0%nat := {[ EncodeToByte32 5 := rlp_big 42 ]} ]}.
Definition token_account (a : Z) : option Account :=
  if bool_decide (a = 7) then Some (mkAccount 0 (mkTB true (Some 0%nat) {[ 1 := 100 ]}) 0 (Some 77) 0)
  else None.

Lemma reverted_balances_witness :
  (GetBalance token_tries_5 token_account sample_keccak 7 5 empty_state).1 = Ok 42
  ∧ ((id ← Snapshot;
      _ ← SetBalance token_account sample_keccak 7 1 6;
      _ ← RevertToSnapshot token_account sample_keccak id;
      GetBalance token_tries_5 token_account sample_keccak 7 5) empty_state).1 = Ok 0.
Proof.
  split; [vm_compute; reflexivity|].
  refine (reverted_balances token_tries_5 token_account sample_keccak empty_state 7
    (newObject sample_keccak 7 (mkAccount 0 (mkTB true (Some 0%nat) {[ 1 := 100 ]}) 0 (Some 77) 0))
    1 6 5 _ _ _ _ _).
  - reflexivity.
  - reflexivity.
  - lia.
  - constructor.
  - constructor.
Defined.
