(* ===== verification/Heap.v ===== *)
(** * container/heap

    The binary heap of Go's standard library, over a slice and its Less method,
    as core/tx_list.go uses it for nonces and for prices.  The loops of [up] and
    [down] carry fuel; the length of the slice is enough. *)

From S2P Require Import Prelude.

Section heap.
Context {A : Type} `{Inhabited A} (less : A → A → bool).
Implicit Types (l : list A) (i j n : nat).

Definition swap i j l : list A := <[i := l !!! j]> (<[j := l !!! i]> l).

Fixpoint up (fuel j : nat) l : list A :=
  match fuel with
  | O => l
  | S fuel =>
      let i := ((j - 1) / 2)%nat in
      if bool_decide (i = j) || negb (less (l !!! j) (l !!! i)) then l
      else up fuel i (swap i j l)
  end.

(** The child [down] compares with: the lesser of the two. *)
Definition least_child (i n : nat) l : nat :=
  let j1 := (2 * i + 1)%nat in
  let j2 := (j1 + 1)%nat in
  if bool_decide (j2 < n)%nat && less (l !!! j2) (l !!! j1) then j2 else j1.

(** The slice, and the final position of the element that started at [i]. *)
Fixpoint down_loop (fuel i n : nat) l : list A * nat :=
  match fuel with
  | O => (l, i)
  | S fuel =>
      if bool_decide (n <= 2 * i + 1)%nat then (l, i)
      else
        let j := least_child i n l in
        if negb (less (l !!! j) (l !!! i)) then (l, i)
        else down_loop fuel j n (swap i j l)
  end.
Definition down (i0 n : nat) l : list A * bool :=
  let '(l, i) := down_loop n i0 n l in (l, bool_decide (i0 < i)%nat).

Definition heap_Push (x : A) l : list A :=
  let l := l ++ [x] in up (length l) (length l - 1) l.

(** [heap.Pop]: None stands for the index panic on an empty heap. *)
Definition heap_Pop l : option (A * list A) :=
  match l with
  | [] => None
  | _ =>
      let n := (length l - 1)%nat in
      let l := (down 0 n (swap 0 n l)).1 in
      Some (l !!! n, take n l)
  end.

Definition heap_Remove (i : nat) l : list A :=
  let n := (length l - 1)%nat in
  if bool_decide (n = i) then take n l
  else
    let '(l, moved) := down i n (swap i n l) in
    let l := if moved then l else up n i l in
    take n l.

Definition heap_Fix (i : nat) l : list A :=
  let n := length l in
  let '(l, moved) := down i n l in
  if moved then l else up n i l.

Fixpoint init_loop (i n : nat) l : list A :=
  match i with
  | O => l
  | S i => init_loop i n (down i n l).1
  end.
Definition heap_Init l : list A := init_loop (length l / 2) (length l) l.

(** ** Correctness *)

Definition le (x y : A) : Prop := less y x = false.

Hypothesis le_trans : ∀ x y z, le x y → le y z → le x z.
Hypothesis less_le : ∀ x y, less x y = true → le x y.

Lemma le_refl x : le x x.
Proof. unfold le. destruct (less x x) eqn:E; [|done]. pose proof (less_le _ _ E) as E'. unfold le in E'. congruence. Qed.

Definition child (p c : nat) : Prop := (c = 2 * p + 1 ∨ c = 2 * p + 2)%nat.

Lemma child_parent c : (0 < c)%nat → child ((c - 1) / 2) c.
Proof.
  intros Hc. unfold child. pose proof (Nat.div_mod (c - 1) 2 ltac:(lia)).
  pose proof (Nat.mod_upper_bound (c - 1) 2 ltac:(lia)). lia.
Qed.
Lemma child_inj p q c : child p c → child q c → p = q.
Proof. unfold child. lia. Qed.

(** The order between parents from [m] on and their children among the first
    [n] elements, except for the pairs in [bad]. *)
Definition ordered (m n : nat) (bad : nat → nat → Prop) l : Prop :=
  ∀ p c, (m ≤ p)%nat → child p c → (c < n)%nat → ¬ bad p c → le (l !!! p) (l !!! c).
Definition heap_upto n l : Prop := ordered 0 n (fun _ _ => False) l.
Definition heap_ok l : Prop := heap_upto (length l) l.

Lemma length_swap i j l : length (swap i j l) = length l.
Proof. unfold swap. by rewrite !length_insert. Qed.

Lemma lookup_swap i j k l :
  (i < length l)%nat → (j < length l)%nat →
  swap i j l !!! k = if decide (k = i) then l !!! j else if decide (k = j) then l !!! i else l !!! k.
Proof.
  intros Hi Hj. unfold swap. rewrite !list_lookup_total_alt.
  destruct (decide (k = i)) as [->|].
  - rewrite list_lookup_insert_eq by (by rewrite length_insert). done.
  - rewrite list_lookup_insert_ne by done. destruct (decide (k = j)) as [->|].
    + rewrite list_lookup_insert_eq by done. done.
    + by rewrite list_lookup_insert_ne.
Qed.

Lemma swap_Permutation i j l :
  (i < length l)%nat → (j < length l)%nat → swap i j l ≡ₚ l.
Proof.
  intros Hi Hj. destruct (decide (i = j)) as [->|Hne].
  { unfold swap. rewrite list_insert_insert_eq.
    by rewrite list_insert_id by (by apply list_lookup_lookup_total_lt). }
  pose proof (list_lookup_lookup_total_lt l i Hi) as Li.
  pose proof (list_lookup_lookup_total_lt l j Hj) as Lj.
  set (x := l !!! i) in *. set (y := l !!! j) in *. set (m := <[j := x]> l).
  assert (swap i j l = <[i := y]> m) as -> by done.
  assert (m !! i = Some x) as Mi by (unfold m; by rewrite list_lookup_insert_ne).
  assert (m !! j = Some x) as Mj by (unfold m; by rewrite list_lookup_insert_eq).
  assert (∀ z k, k < length m → <[k := z]> m ≡ₚ z :: delete k m) as Hins.
  { intros z k Hk. rewrite (insert_take_drop m k z), delete_take_drop by done.
    by rewrite <- Permutation_middle. }
  assert (i < length m)%nat as Hmi by (unfold m; by rewrite length_insert).
  rewrite (Hins y i Hmi), (delete_Permutation l j y Lj). f_equiv.
  apply (Permutation_cons_inv (a := x)). rewrite <- (delete_Permutation m i x Mi).
  unfold m. rewrite (insert_take_drop l j x), delete_take_drop by done.
  by rewrite <- Permutation_middle.
Qed.

(** *** Moving up *)

Lemma up_spec fuel j n l :
  (j < n)%nat → (n ≤ length l)%nat → (j < fuel)%nat →
  ordered 0 n (fun _ c => c = j) l →
  (∀ p c, child p j → child j c → (c < n)%nat → le (l !!! p) (l !!! c)) →
  heap_upto n (up fuel j l) ∧ up fuel j l ≡ₚ l
  ∧ ∀ k, (n ≤ k)%nat → up fuel j l !!! k = l !!! k.
Proof.
  revert j l. induction fuel as [|fuel IH]; intros j l Hj Hn Hf Hord Hgrand; [lia|].
  cbn [up]. set (i := ((j - 1) / 2)%nat).
  destruct (decide (j = 0%nat)) as [->|Hj0].
  { rewrite bool_decide_true by done. cbn. split_and!; [|done|done].
    intros p c Hp Hc Hcn _. apply Hord; [done|done|done|]. unfold child in Hc. lia. }
  assert (child i j) as Hij by (apply child_parent; lia).
  assert (i < j)%nat as Hlt by (unfold child in Hij; lia).
  rewrite bool_decide_false by lia. cbn [orb].
  destruct (less (l !!! j) (l !!! i)) eqn:Hless; cbn [negb].
  - destruct (IH i (swap i j l)) as (Hh&Hp&Hk); [lia|by rewrite length_swap|lia| | |].
    + intros p c Hp Hc Hcn Hbad. rewrite !lookup_swap by lia.
      destruct (decide (c = i)) as [|Hci]; [done|].
      destruct (decide (c = j)) as [->|Hcj].
      { assert (p = i) as -> by (by eapply child_inj).
        rewrite decide_True by done. by apply less_le. }
      destruct (decide (p = i)) as [->|Hpi].
      { eapply le_trans; [by apply less_le|]. apply Hord; [lia|done|done|done]. }
      destruct (decide (p = j)) as [->|Hpj]; [by apply Hgrand|].
      by apply Hord.
    + intros p c Hpi Hic Hcn. rewrite !lookup_swap by lia.
      assert (p ≠ i ∧ p ≠ j ∧ c ≠ i) as (?&?&?) by (unfold child in *; lia).
      rewrite !(decide_False (P := p = _)), (decide_False (P := c = i)) by done.
      assert (le (l !!! p) (l !!! i)) as Hpi' by (apply Hord; [lia|done|lia|lia]).
      destruct (decide (c = j)) as [->|Hcj]; [done|].
      eapply le_trans; [exact Hpi'|]. by apply Hord; [lia|..].
    + split_and!; [done|rewrite Hp; apply swap_Permutation; lia|].
      intros k Hkn. rewrite Hk, lookup_swap by lia. by rewrite !decide_False by lia.
  - split_and!; [|done|done]. intros p c Hp Hc Hcn _.
    destruct (decide (c = j)) as [->|Hcj]; [|by apply Hord].
    by rewrite (child_inj p i j).
Qed.

(** *** Moving down *)

Lemma least_child_spec i n l :
  (2 * i + 1 < n)%nat →
  let j := least_child i n l in
  child i j ∧ (j < n)%nat ∧ ∀ c, child i c → (c < n)%nat → le (l !!! j) (l !!! c).
Proof.
  intros Hn. unfold least_child. cbn zeta.
  destruct (bool_decide (2 * i + 1 + 1 < n)%nat) eqn:Hb; cbn [andb].
  - apply bool_decide_eq_true in Hb.
    destruct (less (l !!! (2 * i + 1 + 1)%nat) (l !!! (2 * i + 1)%nat)) eqn:Hless.
    + split_and!; [unfold child; lia|done|]. intros c [->| ->] Hc; [by apply less_le|].
      replace (2 * i + 2)%nat with (2 * i + 1 + 1)%nat by lia. apply le_refl.
    + split_and!; [unfold child; lia|done|]. intros c [->| ->] Hc; [apply le_refl|].
      replace (2 * i + 2)%nat with (2 * i + 1 + 1)%nat by lia. exact Hless.
  - apply bool_decide_eq_false in Hb. split_and!; [unfold child; lia|done|].
    intros c [->| ->] Hc; [apply le_refl|lia].
Qed.

Lemma down_loop_spec fuel m i n l :
  (m ≤ i)%nat → (n ≤ length l)%nat → (n - i ≤ fuel)%nat →
  ordered m n (fun p c => p = i ∨ c = i) l →
  (∀ p c, (m ≤ p)%nat → child p i → child i c → (c < n)%nat → le (l !!! p) (l !!! c)) →
  let '(l', k) := down_loop fuel i n l in
  (k = i ∧ l' = l ∧ ordered m n (fun _ c => c = i) l
   ∨ (i < k)%nat ∧ ordered m n (fun _ _ => False) l')
  ∧ l' ≡ₚ l ∧ ∀ a, (n ≤ a ∨ a < i)%nat → l' !!! a = l !!! a.
Proof.
  revert i l. induction fuel as [|fuel IH]; intros i l Hm Hn Hf Hord Hgrand; cbn [down_loop].
  { split_and!; [|done|done]. left. split_and!; [done|done|].
    intros p c Hp Hc Hcn Hci. apply Hord; [done|done|done|]. unfold child in Hc. lia. }
  case_bool_decide as Hleaf.
  { split_and!; [|done|done]. left. split_and!; [done|done|].
    intros p c Hp Hc Hcn Hci. apply Hord; [done|done|done|]. unfold child in Hc. lia. }
  destruct (least_child_spec i n l ltac:(lia)) as (Hij&Hjn&Hleast).
  set (j := least_child i n l) in *.
  assert (i < j)%nat as Hlt by (unfold child in Hij; lia).
  destruct (less (l !!! j) (l !!! i)) eqn:Hless; cbn [negb].
  - specialize (IH j (swap i j l) ltac:(lia) ltac:(rewrite length_swap; lia) ltac:(lia)).
    destruct (down_loop fuel j n (swap i j l)) as [l' k].
    destruct IH as (Hres&Hperm&Hk).
    + intros p c Hp Hc Hcn Hbad. rewrite !lookup_swap by lia.
      rewrite (decide_False (P := p = j)), (decide_False (P := c = j)) by tauto.
      destruct (decide (c = i)) as [->|Hci].
      { rewrite decide_False by (unfold child in Hc; lia). by apply Hgrand. }
      destruct (decide (p = i)) as [->|Hpi]; [by apply Hleast|].
      apply Hord; [done|done|done|tauto].
    + intros p c Hp Hpj Hjc Hcn. assert (p = i) as -> by (by eapply child_inj).
      rewrite !lookup_swap by lia. rewrite decide_True by done.
      rewrite !decide_False by (unfold child in *; lia).
      apply Hord; [lia|done|done|unfold child in *; lia].
    + split_and!.
      * right. destruct Hres as [(->&->&Hsub)|[Hjk Hsub]]; [|split; [lia|done]].
        split; [done|]. intros p c Hp Hc Hcn _.
        destruct (decide (c = j)) as [->|Hcj]; [|by apply Hsub].
        assert (p = i) as -> by (by eapply child_inj). rewrite !lookup_swap by lia.
        rewrite decide_True, decide_False, decide_True by lia. by apply less_le.
      * rewrite Hperm. apply swap_Permutation; lia.
      * intros a Ha. rewrite Hk, lookup_swap by lia. by rewrite !decide_False by lia.
  - split_and!; [|done|done]. left. split_and!; [done|done|].
    intros p c Hp Hc Hcn Hci. destruct (decide (p = i)) as [->|Hpi].
    + eapply le_trans; [exact Hless|]. by apply Hleast.
    + apply Hord; [done|done|done|tauto].
Qed.

(** *** The exported operations *)

Lemma lookup_total_take n k l : (k < n)%nat → take n l !!! k = l !!! k.
Proof. intros Hk. by rewrite !list_lookup_total_alt, lookup_take_lt. Qed.
Lemma lookup_total_app l k x : (k < length l)%nat → (l ++ [x]) !!! k = l !!! k.
Proof. intros Hk. by rewrite !list_lookup_total_alt, lookup_app_l. Qed.

Lemma heap_ok_take n l : (n ≤ length l)%nat → heap_upto n l → heap_ok (take n l).
Proof.
  intros Hn Hh p c Hp Hc Hcn Hbad. rewrite length_take in Hcn.
  rewrite !lookup_total_take by (unfold child in Hc; lia). apply Hh; [done|done|lia|done].
Qed.

Lemma take_last n l : length l = S n → l = take n l ++ [l !!! n].
Proof.
  intros Hl. assert (drop n l = [l !!! n]) as <-; [|by rewrite take_drop].
  rewrite (drop_S l (l !!! n) n) by (apply list_lookup_lookup_total_lt; lia).
  by rewrite (drop_ge l (S n)) by lia.
Qed.

Lemma heap_root_min l k : heap_ok l → (k < length l)%nat → le (l !!! 0%nat) (l !!! k).
Proof.
  intros Hh. induction k as [k IH] using lt_wf_ind. intros Hk.
  destruct (decide (k = 0%nat)) as [->|]; [apply le_refl|].
  pose proof (child_parent k ltac:(lia)) as Hc.
  assert ((k - 1) / 2 < k)%nat by (unfold child in Hc; lia).
  apply (le_trans _ (l !!! ((k - 1) / 2)%nat)); [apply IH; lia|]. apply Hh; [lia|done|done|tauto].
Qed.

Lemma heap_Push_spec x l :
  heap_ok l → heap_ok (heap_Push x l) ∧ heap_Push x l ≡ₚ x :: l.
Proof.
  intros Hh. unfold heap_Push. rewrite length_app. cbn [length].
  replace (length l + 1 - 1)%nat with (length l) by lia.
  destruct (up_spec (length l + 1) (length l) (length l + 1) (l ++ [x])) as (H1&H2&_).
  - lia.
  - rewrite length_app. cbn. lia.
  - lia.
  - intros p c Hp Hc Hcn Hbad. rewrite !lookup_total_app by (unfold child in Hc; lia).
    apply Hh; [done|done|lia|tauto].
  - intros p c _ Hc Hcn. unfold child in Hc. lia.
  - split; [|rewrite H2; by rewrite (Permutation_app_comm l [x])].
    unfold heap_ok. rewrite (Permutation_length H2), length_app. exact H1.
Qed.

Lemma heap_Pop_spec l :
  heap_ok l → l ≠ [] →
  ∃ l', heap_Pop l = Some (l !!! 0%nat, l') ∧ heap_ok l' ∧ l ≡ₚ l !!! 0%nat :: l'.
Proof.
  intros Hh Hne. unfold heap_Pop. destruct l as [|a l0] eqn:El; [done|]. rewrite <- El in *.
  set (n := (length l - 1)%nat). assert (length l = S n) as Hlen by (unfold n; subst; cbn; lia).
  unfold down. pose proof (down_loop_spec n 0 0 n (swap 0 n l)) as Hd.
  destruct (down_loop n 0 n (swap 0 n l)) as [l' k]. cbn [fst].
  destruct Hd as (Hres&Hperm&Hk); [lia|rewrite length_swap; lia|lia| | |].
  { intros p c Hp Hc Hcn Hbad. rewrite !lookup_swap by lia.
    rewrite !decide_False by (unfold child in Hc; lia). apply Hh; [lia|done|lia|tauto]. }
  { intros p c _ Hc. unfold child in Hc. lia. }
  assert (l' ≡ₚ l) as Hperm' by (rewrite Hperm; apply swap_Permutation; lia).
  assert (length l' = S n) as Hlen' by (by rewrite Hperm').
  assert (heap_upto n l') as Hup.
  { destruct Hres as [(_&->&Hres)|[_ Hres]]; [|exact Hres].
    intros p c Hp Hc Hcn _. apply Hres; [done|done|done|]. unfold child in Hc. lia. }
  assert (l' !!! n = l !!! 0%nat) as Hlast.
  { rewrite Hk, lookup_swap by lia. case_decide as E; [by rewrite E|].
    by rewrite decide_True. }
  exists (take n l'). rewrite Hlast. split_and!; [done|apply heap_ok_take; [lia|done]|].
  rewrite <- Hperm' at 1. rewrite (take_last n l' Hlen') at 1. rewrite Hlast.
  by rewrite Permutation_app_comm.
Qed.

(** Where only the element at [i] may be out of order, moving it down, or up
    when it did not move, restores the heap. *)
Lemma sift_spec i n l :
  (i < n)%nat → (n ≤ length l)%nat →
  ordered 0 n (fun p c => p = i ∨ c = i) l →
  (∀ p c, child p i → child i c → (c < n)%nat → le (l !!! p) (l !!! c)) →
  let '(l1, moved) := down i n l in
  let l2 := if (moved : bool) then l1 else up n i l1 in
  heap_upto n l2 ∧ l2 ≡ₚ l ∧ ∀ k, (n ≤ k)%nat → l2 !!! k = l !!! k.
Proof.
  intros Hi Hn Hord Hgrand. pose proof (down_loop_spec n 0 i n l) as Hd. unfold down.
  destruct (down_loop n i n l) as [l' k].
  destruct Hd as (Hres&Hperm&Hk); [lia|lia|lia|done|auto|].
  destruct Hres as [(->&->&Hres)|[Hik Hres]].
  - rewrite bool_decide_false by lia. by apply up_spec.
  - rewrite bool_decide_true by lia. split_and!; [done|done|]. intros a Ha. apply Hk. lia.
Qed.

Lemma heap_Remove_spec i l :
  heap_ok l → (i < length l)%nat →
  heap_ok (heap_Remove i l) ∧ l ≡ₚ l !!! i :: heap_Remove i l.
Proof.
  intros Hh Hi. unfold heap_Remove. set (n := (length l - 1)%nat).
  assert (length l = S n) as Hlen by (unfold n; lia). case_bool_decide as Hin.
  { split.
    - apply heap_ok_take; [lia|]. intros p c Hp Hc Hcn Hbad. apply Hh; [done|done|lia|tauto].
    - rewrite (take_last n l Hlen) at 1. rewrite Hin. by rewrite Permutation_app_comm. }
  pose proof (sift_spec i n (swap i n l)) as Hs. destruct (down i n (swap i n l)) as [l1 moved].
  destruct Hs as (Hup&Hperm&Hk); [lia|rewrite length_swap; lia| | |].
  { intros p c Hp Hc Hcn Hbad. rewrite !lookup_swap by lia.
    rewrite !decide_False by (unfold child in Hc; lia). apply Hh; [lia|done|lia|tauto]. }
  { intros p c Hpi Hic Hcn. rewrite !lookup_swap by lia.
    rewrite !decide_False by (unfold child in *; lia).
    eapply (le_trans _ (l !!! i)); apply Hh; unfold child in *; tauto || lia. }
  set (l2 := if moved then l1 else up n i l1) in *.
  assert (l2 ≡ₚ l) as Hall by (rewrite Hperm; apply swap_Permutation; lia).
  assert (length l2 = S n) as Hlen2 by (by rewrite Hall).
  split; [apply heap_ok_take; [lia|done]|].
  rewrite <- Hall at 1. rewrite (take_last n l2 Hlen2) at 1.
  rewrite Hk, lookup_swap, decide_False, decide_True by lia. by rewrite Permutation_app_comm.
Qed.

Lemma heap_Fix_spec i x l :
  heap_ok l → (i < length l)%nat →
  heap_ok (heap_Fix i (<[i := x]> l)) ∧ heap_Fix i (<[i := x]> l) ≡ₚ <[i := x]> l.
Proof.
  intros Hh Hi. unfold heap_Fix. rewrite length_insert.
  pose proof (sift_spec i (length l) (<[i := x]> l)) as Hs.
  destruct (down i (length l) (<[i := x]> l)) as [l1 moved].
  assert (∀ k, k ≠ i → <[i := x]> l !!! k = l !!! k) as Hne
    by (intros k Hk; by rewrite !list_lookup_total_alt, list_lookup_insert_ne).
  destruct Hs as (Hup&Hperm&_); [done|by rewrite length_insert| | |].
  { intros p c Hp Hc Hcn Hbad. rewrite !Hne by tauto. apply Hh; [lia|done|lia|tauto]. }
  { intros p c Hpi Hic Hcn. rewrite !Hne by (unfold child in *; lia).
    eapply (le_trans _ (l !!! i)); apply Hh; unfold child in *; tauto || lia. }
  split; [|done]. unfold heap_ok. by rewrite (Permutation_length Hperm), length_insert.
Qed.

Lemma init_loop_spec i n l :
  (i ≤ n)%nat → n = length l → ordered i n (fun _ _ => False) l →
  heap_upto n (init_loop i n l) ∧ init_loop i n l ≡ₚ l.
Proof.
  revert l. induction i as [|i IH]; intros l Hi Hn Hord; cbn [init_loop]; [done|].
  unfold down. pose proof (down_loop_spec n i i n l) as Hd.
  destruct (down_loop n i n l) as [l' k]. cbn [fst].
  destruct Hd as (Hres&Hperm&_); [lia|lia|lia| | |].
  { intros p c Hp Hc Hcn Hbad. apply Hord; [lia|done|done|tauto]. }
  { intros p c Hp Hc. unfold child in Hc. lia. }
  destruct (IH l') as [H1 H2]; [lia|by rewrite Hperm| |].
  { destruct Hres as [(_&->&Hres)|[_ Hres]]; [|done].
    intros p c Hp Hc Hcn _. apply Hres; [done|done|done|]. unfold child in Hc. lia. }
  split; [done|]. by rewrite H2.
Qed.

Lemma heap_Init_spec l : heap_ok (heap_Init l) ∧ heap_Init l ≡ₚ l.
Proof.
  unfold heap_Init. destruct (init_loop_spec (length l / 2) (length l) l) as [H1 H2].
  - apply Nat.Div0.div_le_upper_bound. lia.
  - done.
  - intros p c Hp Hc Hcn _. exfalso. unfold child in Hc.
    pose proof (Nat.div_mod (length l) 2 ltac:(lia)).
    pose proof (Nat.mod_upper_bound (length l) 2 ltac:(lia)). lia.
  - split; [|done]. unfold heap_ok. by rewrite (Permutation_length H2).
Qed.
End heap.
