(* ===== verification/Transaction.v ===== *)
(** * core/types: transactions

    Models src/core/types/transaction.go: the fields of a transaction, the
    shard identifiers derived from them, the hash memo, and the set that hands
    the transactions of a block out by price and nonce.  The keccak hash of the
    RLP encoding and the recovery of the sender from the signature are
    parameters.  Addresses and hashes are numbers. *)

From S2P Require Import Prelude Utils Account Heap.

Local Open Scope Z_scope.

(** ** Data *)

Record txdata := mkTxdata {
  AccountNonce : Z;
  Price : Z;
  GasLimit : Z;
  Recipient : option Z;          (* None: contract creation *)
  Amount : Z;
  Payload : list Z;
  d_NetworkId : Z;
  d_FromFullShardKey : Z;
  d_ToFullShardKey : Z;
  d_GasTokenID : Z;
  d_TransferTokenID : Z;
  d_Version : Z;
  VRS : Z * Z * Z;
}.

Record EvmTransaction := mkEvmTx {
  data : txdata;
  updated : bool;
  tx_hash : option Z;            (* the memo of Hash *)
  FromShardsize : Z;
  ToShardsize : Z;
}.

Definition newEvmTransaction (nonce : Z) (to : option Z) (amount gasLimit gasPrice fromFullShardKey
    toFullShardKey networkId version : Z) (payload : list Z) (gasTokenID transferTokenID : Z)
    : EvmTransaction :=
  mkEvmTx (mkTxdata nonce gasPrice gasLimit to amount payload networkId fromFullShardKey
             toFullShardKey gasTokenID transferTokenID version (0, 0, 0)) false None 0 0.

Definition set_data (f : txdata → txdata) (u : bool) (tx : EvmTransaction) : EvmTransaction :=
  mkEvmTx (f (data tx)) u (tx_hash tx) (FromShardsize tx) (ToShardsize tx).
Definition SetGas (g : Z) (tx : EvmTransaction) : EvmTransaction :=
  set_data (fun d => mkTxdata (AccountNonce d) (Price d) g (Recipient d) (Amount d) (Payload d)
    (d_NetworkId d) (d_FromFullShardKey d) (d_ToFullShardKey d) (d_GasTokenID d)
    (d_TransferTokenID d) (d_Version d) (VRS d)) true tx.
Definition SetFromFullShardKey (k : Z) (tx : EvmTransaction) : EvmTransaction :=
  set_data (fun d => mkTxdata (AccountNonce d) (Price d) (GasLimit d) (Recipient d) (Amount d)
    (Payload d) (d_NetworkId d) k (d_ToFullShardKey d) (d_GasTokenID d)
    (d_TransferTokenID d) (d_Version d) (VRS d)) (updated tx) tx.
Definition tx_SetNonce (n : Z) (tx : EvmTransaction) : EvmTransaction :=
  set_data (fun d => mkTxdata n (Price d) (GasLimit d) (Recipient d) (Amount d)
    (Payload d) (d_NetworkId d) (d_FromFullShardKey d) (d_ToFullShardKey d) (d_GasTokenID d)
    (d_TransferTokenID d) (d_Version d) (VRS d)) true tx.
Definition SetVRS (v r s : Z) (tx : EvmTransaction) : EvmTransaction :=
  set_data (fun d => mkTxdata (AccountNonce d) (Price d) (GasLimit d) (Recipient d) (Amount d)
    (Payload d) (d_NetworkId d) (d_FromFullShardKey d) (d_ToFullShardKey d) (d_GasTokenID d)
    (d_TransferTokenID d) (d_Version d) (v, r, s)) true tx.

Definition Gas (tx : EvmTransaction) : Z := GasLimit (data tx).
Definition GasPrice (tx : EvmTransaction) : Z := Price (data tx).
Definition Value (tx : EvmTransaction) : Z := Amount (data tx).
Definition Nonce (tx : EvmTransaction) : Z := AccountNonce (data tx).
Definition GasTokenID (tx : EvmTransaction) : Z := d_GasTokenID (data tx).
Definition TransferTokenID (tx : EvmTransaction) : Z := d_TransferTokenID (data tx).
Definition FromChainID (tx : EvmTransaction) : Z := shr32 (d_FromFullShardKey (data tx)) 16.
Definition ToChainID (tx : EvmTransaction) : Z := shr32 (d_ToFullShardKey (data tx)) 16.
Definition FromShardKey (tx : EvmTransaction) : Z := Z.land (d_FromFullShardKey (data tx)) 65535.
Definition ToShardKey (tx : EvmTransaction) : Z := Z.land (d_ToFullShardKey (data tx)) 65535.
Definition FromShardID (tx : EvmTransaction) : Z :=
  Z.land (d_FromFullShardKey (data tx)) (u32 (FromShardsize tx - 1)).
Definition ToShardID (tx : EvmTransaction) : Z :=
  Z.land (d_ToFullShardKey (data tx)) (u32 (ToShardsize tx - 1)).
Definition FromFullShardId (tx : EvmTransaction) : Z :=
  Z.lor (Z.lor (shl32 (FromChainID tx) 16) (FromShardsize tx)) (FromShardID tx).
Definition ToFullShardId (tx : EvmTransaction) : Z :=
  Z.lor (Z.lor (shl32 (ToChainID tx) 16) (ToShardsize tx)) (ToShardID tx).
Definition IsCrossShard (tx : EvmTransaction) : bool :=
  negb ((FromChainID tx =? ToChainID tx) && (FromShardID tx =? ToShardID tx)).

Definition SetFromShardSize (shardSize : Z) : SE EvmTransaction unit := fun tx =>
  if negb (IsP2 shardSize) || (shardSize =? 0) then (Err "shardSize is not Usable", tx)
  else (Ok tt, mkEvmTx (data tx) (updated tx) (tx_hash tx) shardSize (ToShardsize tx)).
Definition SetToShardSize (shardSize : Z) : SE EvmTransaction unit := fun tx =>
  if negb (IsP2 shardSize) || (shardSize =? 0) then (Err "shardSize is not Usable", tx)
  else (Ok tt, mkEvmTx (data tx) (updated tx) (tx_hash tx) (FromShardsize tx) shardSize).

(** Amount + gasprice * gaslimit. *)
Definition Cost (tx : EvmTransaction) : Z :=
  Price (data tx) * GasLimit (data tx) + Amount (data tx).

Record Transaction := mkTx { TxType : Z; EvmTx : EvmTransaction }.
Definition EvmTxType : Z := 0.
Abbreviation Transactions := (list Transaction).

#[export] Instance txdata_eq_dec : EqDecision txdata.
Proof. solve_decision. Defined.
#[export] Instance EvmTransaction_eq_dec : EqDecision EvmTransaction.
Proof. solve_decision. Defined.
#[export] Instance Transaction_eq_dec : EqDecision Transaction.
Proof. solve_decision. Defined.
#[export] Instance Transaction_inhabited : Inhabited Transaction :=
  populate (mkTx 0 (newEvmTransaction 0 None 0 0 0 0 0 0 0 [] 0 0)).

Definition getNonce (tx : Transaction) : Z :=
  if TxType tx =? EvmTxType then AccountNonce (data (EvmTx tx)) else 0.
Definition getPrice (tx : Transaction) : Z :=
  if TxType tx =? EvmTxType then Price (data (EvmTx tx)) else 0.

(** ** The hash memo *)
Section hash.
(** Keccak of the RLP encoding of the fields. *)
Context (rlpHash : txdata → Z).

Definition tx_Hash (tx : EvmTransaction) : Z * EvmTransaction :=
  match tx_hash tx, updated tx with
  | Some h, false => (h, tx)
  | _, _ =>
      let v := rlpHash (data tx) in
      (v, mkEvmTx (data tx) (updated tx) (Some v) (FromShardsize tx) (ToShardsize tx))
  end.

(** The memo is right, or will not be used. *)
Definition memo_ok (tx : EvmTransaction) : Prop :=
  updated tx = true ∨ tx_hash tx = None ∨ tx_hash tx = Some (rlpHash (data tx)).
End hash.

(** ** Handing transactions out by price and nonce *)

(** [TxByPrice.Less]: the dearer transaction comes first. *)
Definition price_less (a b : Transaction) : bool := getPrice b <? getPrice a.

Record TransactionsByPriceAndNonce := mkByPrice {
  txs : gmap Z Transactions;
  heads : Transactions;
}.

Section by_price.
(** The sender recovered from the signature; None is an error. *)
Context (recover : EvmTransaction → option Z).

Definition Sender (tx : Transaction) : result Z :=
  if TxType tx =? EvmTxType then
    match recover (EvmTx tx) with
    | Some addr => Ok addr
    | None => Err "invalid sender"
    end
  else Err "do not support tx type %d".

(** The loop over the accounts in the order [keys] of the map's iteration; an
    account deleted by an earlier round is not visited. *)
Fixpoint head_loop (keys : list Z) (m : gmap Z Transactions) (hs : Transactions)
    : result TransactionsByPriceAndNonce :=
  match keys with
  | [] => Ok (mkByPrice m hs)
  | from :: keys =>
      match m !! from with
      | None => head_loop keys m hs
      | Some [] => Panic "index out of range"
      | Some (t :: accTxs) =>
          acc ← Sender t;
          let m := <[acc := accTxs]> m in
          let m := if negb (from =? acc) then delete from m else m in
          head_loop keys m (hs ++ [t])
      end
  end.
Definition NewTransactionsByPriceAndNonce (keys : list Z) (m : gmap Z Transactions)
    : result TransactionsByPriceAndNonce :=
  t ← head_loop keys m [];
  Ok (mkByPrice (txs t) (heap_Init price_less (heads t))).

Definition Peek (t : TransactionsByPriceAndNonce) : option Transaction := heads t !! 0%nat.

Definition pop_head : SE TransactionsByPriceAndNonce unit := fun t =>
  match heap_Pop price_less (heads t) with
  | None => (Panic "index out of range", t)
  | Some (_, hs) => (Ok tt, mkByPrice (txs t) hs)
  end.

Definition Shift : SE TransactionsByPriceAndNonce unit := fun t =>
  match heads t with
  | [] => (Panic "index out of range", t)
  | h :: _ =>
      match Sender h with
      | Err e => (Err e, t)
      | Panic e => (Panic e, t)
      | Ok acc =>
          match txs t !! acc with
          | Some (x :: l) =>
              (Ok tt, mkByPrice (<[acc := l]> (txs t)) (heap_Fix price_less 0 (<[0%nat := x]> (heads t))))
          | _ => pop_head t
          end
      end
  end.
Definition Pop : SE TransactionsByPriceAndNonce unit := pop_head.

(** A caller that takes the best transaction and then either moves on to the
    account's next one (true) or gives the account up (false). *)
Fixpoint drain (decisions : list bool) (t : TransactionsByPriceAndNonce) : result (list Transaction) :=
  match decisions with
  | [] => Ok []
  | d :: ds =>
      match Peek t with
      | None => Ok []
      | Some tx =>
          match (if (d : bool) then Shift t else Pop t) with
          | (Ok _, t') => out ← drain ds t'; Ok (tx :: out)
          | (Err e, _) => Err e
          | (Panic e, _) => Panic e
          end
      end
  end.
End by_price.

(** ** The order the transactions come out in *)

(** [pending] holds each account's remaining transactions; the next one is of
    the highest price among the accounts' first ones, and the account goes on
    with its next or is given up. *)
Inductive greedy : gmap Z Transactions → list bool → list Transaction → Prop :=
| greedy_stop pending : greedy pending [] []
| greedy_empty pending ds :
    (∀ a l, pending !! a = Some l → l = []) → greedy pending ds []
| greedy_next pending a t l (d : bool) ds out :
    pending !! a = Some (t :: l) →
    (∀ b u l', pending !! b = Some (u :: l') → getPrice u <= getPrice t) →
    greedy (<[a := if d then l else []]> pending) ds out →
    greedy pending (d :: ds) (t :: out).

Section drain.
Context (recover : EvmTransaction → option Z).

(** Every transaction is filed under its sender. *)
Definition filed (m : gmap Z Transactions) : Prop :=
  ∀ a l, m !! a = Some l → Forall (fun t => Sender recover t = Ok a) l.

Abbreviation price_ok := (heap_ok price_less).

Lemma price_le_trans x y z : le price_less x y → le price_less y z → le price_less x z.
Proof. unfold le, price_less. rewrite !Z.ltb_ge. lia. Qed.
Lemma price_less_le x y : price_less x y = true → le price_less x y.
Proof. unfold le, price_less. rewrite Z.ltb_lt, Z.ltb_ge. lia. Qed.

(** The heads are the first pending transactions, one per account. *)
Record shows (t : TransactionsByPriceAndNonce) (hs : Transactions) (pending : gmap Z Transactions) : Prop := {
  shows_perm : heads t ≡ₚ hs;
  shows_filed : filed pending;
  shows_nodup : NoDup (Sender recover <$> hs);
  shows_head : ∀ h, h ∈ hs → ∃ a, Sender recover h = Ok a ∧ pending !! a = Some (h :: default [] (txs t !! a));
  shows_all : ∀ a h l, pending !! a = Some (h :: l) → h ∈ hs;
}.

Lemma filed_insert m a l :
  filed m → Forall (fun t => Sender recover t = Ok a) l → filed (<[a := l]> m).
Proof.
  intros Hf Hl b k. destruct (decide (b = a)) as [->|].
  - rewrite lookup_insert_eq. by intros [= <-].
  - rewrite lookup_insert_ne by done. apply Hf.
Qed.

(** The account of the first head is moved on or given up. *)
Lemma shows_step t h hs pending a l0 l m' hs' :
  shows t (h :: hs) pending →
  Sender recover h = Ok a → pending !! a = Some (h :: l0) → l = l0 ∨ l = [] →
  (∀ b, b ≠ a → m' !! b = txs t !! b) →
  (hs' = hs ∧ l = [] ∨ ∃ x, hs' = x :: hs ∧ l = x :: default [] (m' !! a)) →
  ∀ hp, hp ≡ₚ hs' → shows (mkByPrice m' hp) hs' (<[a := l]> pending).
Proof.
  intros [Hp Hf Hnd Hhd Hall] Hs Ha Hl0 Hm Hcase hp Hperm.
  rewrite fmap_cons, NoDup_cons in Hnd. destruct Hnd as [Hnot Hnd].
  pose proof (Hf _ _ Ha) as Hfa. apply Forall_cons in Hfa as [_ Hfl0].
  assert (Forall (fun t => Sender recover t = Ok a) l) as Hfl by (by destruct Hl0 as [->| ->]).
  assert (∀ g b, g ∈ hs → Sender recover g = Ok b → b ≠ a) as Hother.
  { intros g b Hg Hb ->. apply Hnot. rewrite Hs, <- Hb. by apply list_elem_of_fmap_2. }
  constructor; cbn.
  - done.
  - by apply filed_insert.
  - destruct Hcase as [[-> ->]|(x&->&->)]; [done|]. rewrite fmap_cons, NoDup_cons. split; [|done].
    apply Forall_cons in Hfl as [Hx _]. rewrite Hx. intros (g&Hg&Hin)%list_elem_of_fmap.
    by eapply Hother.
  - intros g Hg. assert (g ∈ hs ∨ ∃ x, g = x ∧ l = x :: default [] (m' !! a)) as [Hin|(x&->&Hl)].
    { destruct Hcase as [[-> ->]|(x&->&Hl)]; [by left|]. apply elem_of_cons in Hg as [->|]; eauto. }
    + destruct (Hhd g ltac:(set_solver)) as (b&Hb&Hpb). exists b. split; [done|].
      assert (b ≠ a) by (by eapply Hother). by rewrite lookup_insert_ne, Hm by done.
    + exists a. rewrite Hl in Hfl. apply Forall_cons in Hfl as [Hx _]. split; [done|].
      by rewrite lookup_insert_eq, <- Hl.
  - intros b g k. destruct (decide (b = a)) as [->|Hne].
    + rewrite lookup_insert_eq. intros [= ->]. destruct Hcase as [[_ ?]|(x&->&[= -> _])]; [done|set_solver].
    + rewrite lookup_insert_ne by done. intros Hb. pose proof (Hall _ _ _ Hb) as Hg.
      apply elem_of_cons in Hg as [->|Hg].
      { apply Hf in Hb. apply Forall_cons in Hb as [Hb _]. congruence. }
      destruct Hcase as [[-> _]|(x&->&_)]; set_solver.
Qed.

(** One round of [drain]. *)
Lemma drain_round t h hs pending (d : bool) :
  price_ok (heads t) → shows t (h :: hs) pending → heads t !! 0%nat = Some h →
  ∃ a l t' hs',
    (if d then Shift recover t else Pop t) = (Ok tt, t')
    ∧ pending !! a = Some (h :: l)
    ∧ price_ok (heads t') ∧ shows t' hs' (<[a := if d then l else []]> pending).
Proof.
  intros Hh Hsh H0. destruct (shows_head _ _ _ Hsh h ltac:(set_solver)) as (a&Ha&Hpa).
  destruct (heads t) as [|h' tl] eqn:Ehs; [done|]. injection H0 as ->.
  assert (tl ≡ₚ hs) as Htl.
  { pose proof (shows_perm _ _ _ Hsh) as Hp. rewrite Ehs in Hp. by apply Permutation_cons_inv in Hp. }
  destruct (heap_Pop_spec price_less price_le_trans price_less_le (h :: tl) Hh ltac:(done))
    as (hp&Hpop&Hhp&Hperm). cbn in Hperm. apply Permutation_cons_inv in Hperm.
  assert (∀ l, l = default [] (txs t !! a) ∨ l = [] → l = [] →
    shows (mkByPrice (txs t) hp) hs (<[a := l]> pending)) as Hdrop.
  { intros l Hl ->. eapply (shows_step t h hs pending a _ _ (txs t) hs Hsh Ha Hpa); [done|done|by left|].
    by rewrite <- Hperm. }
  destruct d.
  - unfold Shift. rewrite Ehs, Ha. destruct (txs t !! a) as [[|x l]|] eqn:Em.
    1,3: exists a, [], (mkByPrice (txs t) hp), hs; unfold pop_head; rewrite Ehs, Hpop;
         split_and!; [done|done|done|apply Hdrop; [by left|done]].
    destruct (heap_Fix_spec price_less price_le_trans price_less_le 0 x (h :: tl) Hh ltac:(cbn; lia))
      as [Hf1 Hf2].
    eexists a, (x :: l), _, (x :: hs). split_and!; [done|done|done|].
    eapply (shows_step t h hs pending a _ _ _ (x :: hs) Hsh Ha Hpa); [by left| | |].
    + intros b Hb. by rewrite lookup_insert_ne.
    + right. exists x. by rewrite lookup_insert_eq.
    + rewrite Hf2. cbn. by rewrite Htl.
  - exists a, (default [] (txs t !! a)), (mkByPrice (txs t) hp), hs.
    unfold Pop, pop_head. rewrite Ehs, Hpop. split_and!; [done|done|done|]. apply Hdrop; [by right|done].
Qed.

Lemma drain_spec ds t hs pending :
  price_ok (heads t) → shows t hs pending →
  ∃ out, drain recover ds t = Ok out ∧ greedy pending ds out.
Proof.
  revert t hs pending. induction ds as [|d ds IH]; intros t hs pending Hh Hsh.
  { exists []. split; [done|constructor]. }
  cbn [drain]. unfold Peek. destruct (heads t !! 0%nat) as [h|] eqn:H0.
  - pose proof (shows_perm _ _ _ Hsh) as Hp.
    assert (h ∈ hs) as Hin by (rewrite <- Hp; by eapply list_elem_of_lookup_2).
    apply elem_of_Permutation in Hin as [hs0 Hhs].
    assert (shows t (h :: hs0) pending) as Hsh0.
    { destruct Hsh as [? ? Hnd Hhd Hall]. constructor; [by rewrite <- Hhs|done| | |].
      - by rewrite <- Hhs.
      - intros g. rewrite <- Hhs. apply Hhd.
      - intros a g l. rewrite <- Hhs. apply Hall. }
    destruct (drain_round t h hs0 pending d Hh Hsh0 H0) as (a&l&t'&hs'&Heq&Ha&Hh'&Hsh').
    rewrite Heq. destruct (IH t' hs' _ Hh' Hsh') as (out&Hout&Hg).
    exists (h :: out). rewrite Hout. split; [done|]. eapply greedy_next; [done| |done].
    intros b u l' Hb. assert (u ∈ heads t) as Hu by (rewrite (shows_perm _ _ _ Hsh0); by eapply shows_all).
    apply list_elem_of_lookup_1 in Hu as [k Hk].
    pose proof (heap_root_min price_less price_le_trans price_less_le (heads t) k Hh
                  (lookup_lt_Some _ _ _ Hk)) as Hle.
    rewrite (list_lookup_total_correct _ _ _ H0), (list_lookup_total_correct _ _ _ Hk) in Hle.
    unfold le, price_less in Hle. rewrite Z.ltb_ge in Hle. exact Hle.
  - exists []. split; [done|]. apply greedy_empty. intros a [|u l] Ha; [done|].
    pose proof (shows_all _ _ _ Hsh _ _ _ Ha) as Hin. rewrite <- (shows_perm _ _ _ Hsh) in Hin.
    apply lookup_ge_None in H0. destruct (heads t); [by apply not_elem_of_nil in Hin|cbn in H0; lia].
Qed.

Lemma head_loop_spec keys m hs P Q :
  NoDup keys → (∀ a, a ∈ keys → ∃ t l, m !! a = Some (t :: l) ∧ P !! a = None) → filed m →
  shows (mkByPrice m hs) hs P →
  (∀ a, Q !! a = if decide (a ∈ keys) then m !! a else P !! a) →
  ∃ m' hs', head_loop recover keys m hs = Ok (mkByPrice m' hs') ∧ shows (mkByPrice m' hs') hs' Q.
Proof.
  revert m hs P. induction keys as [|from keys IH]; intros m hs P Hnd Hkeys Hf Hsh HQ.
  { exists m, hs. split; [done|]. replace Q with P; [done|]. apply map_eq. intros a.
    rewrite HQ, decide_False by apply not_elem_of_nil. done. }
  apply NoDup_cons in Hnd as [Hnot Hnd]. destruct (Hkeys from ltac:(set_solver)) as (t&l&Hm&HP).
  cbn [head_loop]. rewrite Hm. pose proof (Hf _ _ Hm) as Hfl. pose proof Hfl as Hfl'.
  apply Forall_cons in Hfl' as [Ht Hfl']. rewrite Ht. se_red. rewrite Z.eqb_refl. cbn [negb].
  apply (IH _ _ (<[from := t :: l]> P)).
  - done.
  - intros a Ha. assert (a ≠ from) by (by intros ->). rewrite !lookup_insert_ne by done.
    apply Hkeys. set_solver.
  - by apply filed_insert.
  - assert (∀ g b, g ∈ hs → Sender recover g = Ok b → b ≠ from) as Hother.
    { intros g b Hg Hb ->. destruct (shows_head _ _ _ Hsh g Hg) as (b&Hb'&HPb).
      rewrite Hb in Hb'. injection Hb' as <-. congruence. }
    destruct Hsh as [_ HfP HndP Hhd Hall]. constructor; cbn.
    + done.
    + by apply filed_insert.
    + rewrite fmap_app, NoDup_app. split_and!; [done| |apply NoDup_singleton].
      intros g Hg Hgt. apply list_elem_of_singleton in Hgt. rewrite Hgt, Ht in Hg.
      apply list_elem_of_fmap in Hg as (g'&Hg'&Hin). by apply (Hother g' from).
    + intros g [Hg|Hg%list_elem_of_singleton]%elem_of_app.
      * destruct (Hhd g Hg) as (b&Hb&HPb). assert (b ≠ from) by (by eapply Hother).
        exists b. by rewrite !lookup_insert_ne by done.
      * subst g. exists from. by rewrite !lookup_insert_eq.
    + intros b g k. destruct (decide (b = from)) as [->|].
      * rewrite lookup_insert_eq. intros [= -> _]. set_solver.
      * rewrite lookup_insert_ne by done. intros Hb. apply elem_of_app. left. by eapply Hall.
  - intros a. rewrite HQ. destruct (decide (a = from)) as [->|].
    + rewrite decide_True, decide_False by set_solver. by rewrite lookup_insert_eq.
    + rewrite !lookup_insert_ne by done.
      destruct (decide (a ∈ keys)); [by rewrite decide_True by set_solver|by rewrite decide_False by set_solver].
Qed.

Lemma New_spec keys m :
  NoDup keys → (∀ a, a ∈ keys ↔ is_Some (m !! a)) → (∀ a, m !! a ≠ Some []) → filed m →
  ∃ t hs, NewTransactionsByPriceAndNonce recover keys m = Ok t
          ∧ price_ok (heads t) ∧ shows t hs m.
Proof.
  intros Hnd Hkeys Hne Hf.
  destruct (head_loop_spec keys m [] ∅ m) as (m'&hs&Heq&Hsh); [done| |done| | |].
  - intros a [l Hl]%Hkeys. destruct l as [|t l]; [by destruct (Hne a)|]. exists t, l. by rewrite lookup_empty.
  - constructor; cbn; [done| |constructor| |].
    + intros a l. by rewrite lookup_empty.
    + intros h Hh. by apply not_elem_of_nil in Hh.
    + intros a h l. by rewrite lookup_empty.
  - intros a. rewrite lookup_empty. case_decide as Ha; [done|]. rewrite Hkeys in Ha.
    by apply eq_None_not_Some.
  - unfold NewTransactionsByPriceAndNonce. rewrite Heq. se_red. cbn.
    destruct (heap_Init_spec price_less price_le_trans price_less_le hs) as [Hi1 Hi2].
    eexists _, hs. split_and!; [done|done|].
    destruct Hsh as [_ ? ? ? ?]. by constructor.
Qed.

(** What an account gets out, in its own order: all of it if it is never given
    up and the caller takes enough rounds. *)
Definition of_account (a : Z) (out : list Transaction) : list Transaction :=
  filter (fun t => Sender recover t = Ok a) out.

Lemma filed_of_account m a b l :
  filed m → m !! b = Some l → of_account a l = if decide (a = b) then l else [].
Proof.
  intros Hf Hl. pose proof (Hf _ _ Hl) as Hall. unfold of_account. case_decide as Hab.
  - subst. by apply filter_all.
  - apply filter_none. eapply Forall_impl; [exact Hall|]. cbn. intros t Ht. congruence.
Qed.

Lemma greedy_prefix pending ds out :
  greedy pending ds out → filed pending →
  ∀ a, of_account a out `prefix_of` default [] (pending !! a).
Proof.
  induction 1 as [pending|pending ds Hempty|pending b t l d ds out Hb Hmax Hg IH]; intros Hf a.
  1,2: apply prefix_nil.
  pose proof (Hf _ _ Hb) as Hl. apply Forall_cons in Hl as [Ht Hl].
  assert (filed (<[b := if d then l else []]> pending)) as Hf'.
  { apply filed_insert; [done|]. by destruct d. }
  specialize (IH Hf' a). unfold of_account in *. destruct (decide (a = b)) as [->|Hab].
  - rewrite filter_cons_True by done. rewrite lookup_insert_eq in IH. rewrite Hb. cbn in *.
    apply prefix_cons. destruct d; [done|]. apply prefix_nil_inv in IH. rewrite IH. apply prefix_nil.
  - rewrite filter_cons_False by congruence. by rewrite lookup_insert_ne in IH by done.
Qed.

Lemma greedy_complete pending ds out :
  greedy pending ds out → filed pending → Forall (fun d => d = true) ds →
  (length out < length ds)%nat → ∀ a, of_account a out = default [] (pending !! a).
Proof.
  induction 1 as [pending|pending ds Hempty|pending b t l d ds out Hb Hmax Hg IH];
    intros Hf Hds Hlen a.
  - cbn in Hlen. lia.
  - destruct (pending !! a) as [k|] eqn:Ha; [|done]. by rewrite (Hempty _ _ Ha).
  - apply Forall_cons in Hds as [-> Hds]. pose proof (Hf _ _ Hb) as Hl. apply Forall_cons in Hl as [Ht Hl].
    specialize (IH ltac:(by apply filed_insert) Hds ltac:(cbn in Hlen; lia) a).
    unfold of_account in *. destruct (decide (a = b)) as [->|Hab].
    + rewrite filter_cons_True by done. rewrite lookup_insert_eq in IH. rewrite Hb, IH. done.
    + rewrite filter_cons_False by congruence. by rewrite lookup_insert_ne in IH by done.
Qed.
End drain.

(** C20: draining the set from its construction, with any sequence of decisions
    to go on with the account (Shift) or to give it up (Pop), never fails and
    always hands out a transaction of the highest price among the accounts' next
    ones; each account's transactions come out in their own order, and all of
    them do when no account is given up. *)
Theorem transactions_by_price_and_nonce recover keys m ds :
  NoDup keys → (∀ a, a ∈ keys ↔ is_Some (m !! a)) → (∀ a, m !! a ≠ Some []) → filed recover m →
  ∃ t out, NewTransactionsByPriceAndNonce recover keys m = Ok t
    ∧ drain recover ds t = Ok out ∧ greedy m ds out
    ∧ (∀ a, of_account recover a out `prefix_of` default [] (m !! a))
    ∧ (Forall (fun d => d = true) ds → (length out < length ds)%nat →
       ∀ a, of_account recover a out = default [] (m !! a)).
Proof.
  intros Hnd Hkeys Hne Hf. destruct (New_spec recover keys m Hnd Hkeys Hne Hf) as (t&hs&HN&Hh&Hsh).
  destruct (drain_spec recover ds t hs m Hh Hsh) as (out&Hout&Hg). exists t, out.
  split_and!; [done|done|done|by eapply greedy_prefix|].
  intros Hds Hlen. by eapply greedy_complete.
Qed.

Definition priced (from nonce price : Z) : Transaction :=
  mkTx 0 (newEvmTransaction nonce None 0 21000 price from 0 0 0 [] 0 0).
Definition by_key (tx : EvmTransaction) : option Z := Some (d_FromFullShardKey (data tx)).
Definition two_accounts : gmap Z Transactions :=
  <[1 := [priced 1 0 5; priced 1 1 9]]> (<[2 := [priced 2 0 7; priced 2 1 1]]> ∅).

Lemma transactions_by_price_and_nonce_witness :
  ∃ t out, NewTransactionsByPriceAndNonce by_key [2; 1] two_accounts = Ok t
    ∧ drain by_key [true; true; true; true; true] t = Ok out
    ∧ greedy two_accounts [true; true; true; true; true] out
    ∧ (∀ a, of_account by_key a out `prefix_of` default [] (two_accounts !! a))
    ∧ (Forall (fun d => d = true) [true; true; true; true; true] → (length out < 5)%nat →
       ∀ a, of_account by_key a out = default [] (two_accounts !! a)).
Proof.
  apply transactions_by_price_and_nonce.
  - by apply (bool_decide_unpack _).
  - intros a. unfold two_accounts. rewrite !lookup_insert_is_Some', lookup_empty, !elem_of_cons.
    pose proof (not_elem_of_nil a). pose proof (is_Some_None (A := Transactions)). intuition congruence.
  - intros a Ha. unfold two_accounts in Ha.
    repeat (rewrite lookup_insert_Some in Ha; destruct Ha as [[_ ?]|[_ Ha]]; [done|]).
    by rewrite lookup_empty in Ha.
  - intros a l Ha. unfold two_accounts in Ha.
    repeat (rewrite lookup_insert_Some in Ha; destruct Ha as [[<- <-]|[_ Ha]]; [by repeat constructor|]).
    by rewrite lookup_empty in Ha.
Defined.

(** The full shard ids of a transaction are those of the addresses its
    sender's and receiver's keys belong to, and a transaction is cross-shard
    exactly when the two differ, where equal chains have equal shard sizes. *)
Theorem IsCrossShard_correct tx kf kt r :
  in_u32 (d_FromFullShardKey (data tx)) → in_u32 (d_ToFullShardKey (data tx)) →
  FromShardsize tx = 2 ^ kf → ToShardsize tx = 2 ^ kt → 0 <= kf < 16 → 0 <= kt < 16 →
  (FromChainID tx = ToChainID tx → kf = kt) →
  Address_GetFullShardID (mkAddress r (d_FromFullShardKey (data tx))) (2 ^ kf) = Ok (FromFullShardId tx)
  ∧ Address_GetFullShardID (mkAddress r (d_ToFullShardKey (data tx))) (2 ^ kt) = Ok (ToFullShardId tx)
  ∧ (IsCrossShard tx = false ↔ FromFullShardId tx = ToFullShardId tx).
Proof.
  intros Hf Ht Sf St Hkf Hkt Hsame.
  destruct (GetFullShardID_of (mkAddress r (d_FromFullShardKey (data tx))) kf Hf Hkf) as [Ef Pf].
  destruct (GetFullShardID_of (mkAddress r (d_ToFullShardKey (data tx))) kt Ht Hkt) as [Et Pt].
  cbn [FullShardKey] in *. set (a := d_FromFullShardKey (data tx)) in *.
  set (b := d_ToFullShardKey (data tx)) in *.
  assert (Address_GetFullShardID (mkAddress r a) (2 ^ kf) = Ok (FromFullShardId tx)) as Gf.
  { unfold Address_GetFullShardID. rewrite IsP2_pow2 by lia. cbn [negb].
    unfold FromFullShardId, FromShardID, FromChainID. by rewrite Sf. }
  assert (Address_GetFullShardID (mkAddress r b) (2 ^ kt) = Ok (ToFullShardId tx)) as Gt.
  { unfold Address_GetFullShardID. rewrite IsP2_pow2 by lia. cbn [negb].
    unfold ToFullShardId, ToShardID, ToChainID. by rewrite St. }
  split_and!; [done|done|]. rewrite Ef in Gf. rewrite Et in Gt.
  injection Gf as Gf. injection Gt as Gt.
  assert (FromChainID tx = a / 2 ^ 16) as Cf by apply shr16.
  assert (ToChainID tx = b / 2 ^ 16) as Ct by apply shr16. pow_facts kf. pow_facts kt.
  assert (FromShardID tx = a mod 2 ^ kf) as If
    by (unfold FromShardID; rewrite Sf, u32_id by (unfold in_u32; lia); apply land_ones_mod; lia).
  assert (ToShardID tx = b mod 2 ^ kt) as It
    by (unfold ToShardID; rewrite St, u32_id by (unfold in_u32; lia); apply land_ones_mod; lia).
  unfold IsCrossShard. rewrite negb_false_iff, andb_true_iff, !Z.eqb_eq. split.
  - intros [Hc Hi]. specialize (Hsame Hc). rewrite <- Gf, <- Gt. cbn [Account.Value branch_of]. congruence.
  - intros Heq. rewrite <- Gf, <- Gt in Heq.
    assert (branch_of (a / 2 ^ 16) kf (a mod 2 ^ kf) = branch_of (b / 2 ^ 16) kt (b mod 2 ^ kt)) as Hb
      by (unfold branch_of in *; cbn in Heq; by f_equal).
    pose proof (f_equal GetChainID Hb) as H1. pose proof (f_equal GetShardID Hb) as H2.
    rewrite !ChainID_of in H1 by done. rewrite !ShardID_of in H2 by done. split; congruence.
Qed.

Definition cross_tx : EvmTransaction :=
  mkEvmTx (mkTxdata 0 1 21000 None 0 [] 1 65537 65538 0 0 0 (0, 0, 0)) false None 4 4.

Lemma IsCrossShard_witness :
  Address_GetFullShardID (mkAddress [] 65537) (2 ^ 2) = Ok (FromFullShardId cross_tx)
  ∧ Address_GetFullShardID (mkAddress [] 65538) (2 ^ 2) = Ok (ToFullShardId cross_tx)
  ∧ (IsCrossShard cross_tx = false ↔ FromFullShardId cross_tx = ToFullShardId cross_tx).
Proof. apply (IsCrossShard_correct cross_tx 2 2 []); unfold in_u32; cbn; lia || done. Defined.

(** While the memo of [Hash] is right, the setters of gas, nonce and
    signature keep [Hash] equal to the hash of the fields, but changing the
    sender's shard key after [Hash] was taken leaves the old hash in place,
    whatever the new key. *)
Theorem hash_memo rlpHash tx :
  memo_ok rlpHash tx →
  (tx_Hash rlpHash tx).1 = rlpHash (data tx) ∧ memo_ok rlpHash (tx_Hash rlpHash tx).2
  ∧ (∀ g, (tx_Hash rlpHash (SetGas g tx)).1 = rlpHash (data (SetGas g tx)))
  ∧ (∀ n, (tx_Hash rlpHash (tx_SetNonce n tx)).1 = rlpHash (data (tx_SetNonce n tx)))
  ∧ (∀ v r s, (tx_Hash rlpHash (SetVRS v r s tx)).1 = rlpHash (data (SetVRS v r s tx)))
  ∧ (updated tx = false → ∀ k,
     (tx_Hash rlpHash (SetFromFullShardKey k (tx_Hash rlpHash tx).2)).1 = rlpHash (data tx)).
Proof.
  intros Hm. destruct tx as [d u h fs ts]. unfold memo_ok in *. cbn in *.
  unfold tx_Hash; cbn. destruct h as [h|]; destruct u; cbn; split_and!; try done; try (by left);
    try (by right; right); destruct Hm as [?|[?|[=]]]; by subst.
Qed.

Lemma hash_memo_witness :
  (tx_Hash AccountNonce (cross_tx)).1 = 0
  ∧ (tx_Hash d_FromFullShardKey (SetFromFullShardKey 9 (tx_Hash d_FromFullShardKey cross_tx).2)).1 = 65537.
Proof.
  split.
  - destruct (hash_memo AccountNonce cross_tx) as (H&_); [right; by left|exact H].
  - destruct (hash_memo d_FromFullShardKey cross_tx) as (_&_&_&_&_&H); [right; by left|].
    exact (H eq_refl 9).
Defined.
