(* ===== verification/Signing.v ===== *)
(** * core/types: the sender of a transaction

    Models src/core/types/transaction_signing.go: the signer of a network, the
    recovery of the sender from the signature values, the memo of the sender in
    the transaction, and signing.  The hashes that are signed (keccak of RLP
    encodings and of typed data) and the elliptic curve operations are
    parameters; addresses, hashes and keys are numbers. *)

From S2P Require Import Prelude Utils Account Transaction.

Local Open Scope Z_scope.

(** The three hashes that a transaction can be signed under. *)
Record TxHashes := mkTxHashes {
  getUnsignedHash : txdata → Z;
  typedHash : txdata → result Z;
  getUnsignedHashForEip155 : Z → txdata → Z;
}.
(** go-ethereum's crypto package. *)
Record SigLib := mkSigLib {
  ValidSignatureValues : Z → Z → Z → bool;     (* v, r, s; homestead *)
  EcrecoverPub : Z → list Z → option (list Z);     (* hash, signature *)
  Keccak : list Z → list Z;
  SignHash : Z → Z → result (list Z);             (* hash, key; 65 bytes *)
}.

(** The memo of a transaction: the network of the signer and the sender. *)
Record sigCache := mkSigCache { sc_signer : Z; sc_from : Z }.
Record SignedTx := mkSignedTx { st_tx : EvmTransaction; st_from : option sigCache }.

Section signing.
Context (h : TxHashes) (lib : SigLib).

(** byte(Vb.Uint64() - 27); Uint64 drops the sign. *)
Definition sig_V (Vb : Z) : Z := u8 (u64 (u64 (Z.abs Vb) - 27)).
Definition recoverPlain (sighash R S Vb : Z) : result Z :=
  if bool_decide (8 < BitLen (Z.abs Vb)) then Err "invalid transaction v, r, s values"
  else
    let V := sig_V Vb in
    if negb (ValidSignatureValues lib V R S) then Err "invalid transaction v, r, s values"
    else if bool_decide (32 < length (big_Bytes R))%nat || bool_decide (32 < length (big_Bytes S))%nat
    then Panic "slice bounds out of range"
    else
      match EcrecoverPub lib sighash (be_bytes 32 R ++ be_bytes 32 S ++ [V]) with
      | None => Err "recovery failed"
      | Some pub =>
          match pub with
          | 4 :: key => Ok (be_value (take 20 (drop 12 (Keccak lib key))))
          | _ => Err "invalid public key"
          end
      end.

(** EIP155Signer.Sender; the signer is its network. *)
Definition signer_Sender (networkId : Z) (tx : EvmTransaction) : result Z :=
  let d := data tx in
  let '(v, r, s) := VRS d in
  if negb (d_Version d =? 2) && negb (d_NetworkId d =? networkId) then Err "invalid network id for signer"
  else if d_Version d =? 0 then recoverPlain (getUnsignedHash h d) r s v
  else if d_Version d =? 1 then
    hash ← typedHash h d;
    recoverPlain hash r s v
  else if d_Version d =? 2 then
    recoverPlain (getUnsignedHashForEip155 h (d_NetworkId d) d) r s (v - d_NetworkId d * 2 - 8)
  else Err "Version %d is not suppot".

(** Sender: the memo is used if it is of the same signer. *)
Definition cached_Sender (signer : Z) : SE SignedTx Z := fun t =>
  let derived :=
    match signer_Sender signer (st_tx t) with
    | Ok addr => (Ok addr, mkSignedTx (st_tx t) (Some (mkSigCache signer addr)))
    | Err e => (Err e, t)
    | Panic e => (Panic e, t)
    end in
  match st_from t with
  | Some c => if sc_signer c =? signer then (Ok (sc_from c), t) else derived
  | None => derived
  end.
Definition SetSender (addr : Z) (t : SignedTx) : SignedTx :=
  mkSignedTx (st_tx t) (Some (mkSigCache (d_NetworkId (data (st_tx t))) addr)).

Definition SignatureValues (sig : list Z) : result (Z * Z * Z) :=
  if negb (bool_decide (length sig = 65%nat)) then Panic "wrong size for signature"
  else Ok (be_value (take 32 sig), be_value (take 32 (drop 32 sig)), u8 (default 0 (sig !! 64%nat) + 27)).
(** The copy has neither memos nor shard sizes. *)
Definition WithSignature (sig : list Z) (tx : EvmTransaction) : result EvmTransaction :=
  rsv ← SignatureValues sig;
  let '(r, s, v) := (rsv : Z * Z * Z) in
  let d := data tx in
  Ok (mkEvmTx (mkTxdata (AccountNonce d) (Price d) (GasLimit d) (Recipient d) (Amount d) (Payload d) (d_NetworkId d)
       (d_FromFullShardKey d) (d_ToFullShardKey d) (d_GasTokenID d) (d_TransferTokenID d) (d_Version d) (v, r, s))
       false None 0 0).
Definition SignTx (key : Z) (tx : EvmTransaction) : result EvmTransaction :=
  sig ← SignHash lib (getUnsignedHash h (data tx)) key;
  WithSignature sig tx.

(** ** What the libraries promise *)

(** The hashes do not depend on the signature; a signature has 65 bytes, its
    values are valid, its last byte is 0 or 1, and the key's point is recovered
    from it. *)
Context (point : Z → list Z) (addressOf : Z → Z).
Record sig_laws : Prop := {
  g_unsigned d v : getUnsignedHash h (mkTxdata (AccountNonce d) (Price d) (GasLimit d) (Recipient d) (Amount d) (Payload d)
      (d_NetworkId d) (d_FromFullShardKey d) (d_ToFullShardKey d) (d_GasTokenID d) (d_TransferTokenID d) (d_Version d) v)
    = getUnsignedHash h d;
  g_sign hash key sig : SignHash lib hash key = Ok sig →
    length sig = 65%nat ∧ bytes_ok sig ∧ (∃ v, sig !! 64%nat = Some v ∧ 0 <= v <= 1) ∧
    (∀ v, sig !! 64%nat = Some v → ValidSignatureValues lib v (be_value (take 32 sig)) (be_value (take 32 (drop 32 sig))) = true) ∧
    EcrecoverPub lib hash sig = Some (4 :: point key);
  g_address key : addressOf key = be_value (take 20 (drop 12 (Keccak lib (point key))));
}.
Context (Hl : sig_laws).

Lemma sig_split (sig : list Z) v :
  length sig = 65%nat → sig !! 64%nat = Some v → take 32 sig ++ take 32 (drop 32 sig) ++ [v] = sig.
Proof.
  intros Hlen Hv. assert (take 32 (drop 32 sig) ++ [v] = drop 32 sig) as ->.
  { rewrite <- (take_drop 32 (drop 32 sig)) at 2. f_equal. rewrite drop_drop. cbn.
    rewrite (drop_S _ v 64 Hv). by rewrite drop_ge by lia. }
  apply take_drop.
Qed.
Lemma word_bytes l : length l = 32%nat → bytes_ok l → be_bytes 32 (be_value l) = l.
Proof. intros Hl1 Hl2. rewrite <- Hl1. by apply be_bytes_value. Qed.
Lemma word_len l : length l = 32%nat → bytes_ok l → (length (big_Bytes (be_value l)) <= 32)%nat.
Proof.
  intros Hl1 Hl2. pose proof (be_value_bounds l Hl2) as Hb. rewrite length_big_Bytes. rewrite Hl1 in Hb.
  unfold big_len. case_decide; [lia|]. rewrite Z.abs_eq by lia.
  assert (Z.log2 (be_value l) < 256) by (apply Z.log2_lt_pow2; [lia|]; change (2 ^ 256) with (256 ^ Z.of_nat 32); lia).
  pose proof (Z.log2_nonneg (be_value l)). pose proof (Z.div_lt_upper_bound (Z.log2 (be_value l)) 8 32 ltac:(lia) ltac:(lia)). pose proof (Z.div_pos (Z.log2 (be_value l)) 8 ltac:(lia) ltac:(lia)). lia.
Qed.

Lemma recover_signed hash key sig v :
  SignHash lib hash key = Ok sig → sig !! 64%nat = Some v →
  recoverPlain hash (be_value (take 32 sig)) (be_value (take 32 (drop 32 sig))) (u8 (v + 27)) = Ok (addressOf key).
Proof.
  intros E Hv. destruct (g_sign Hl _ _ _ E) as (Hlen & Hok & (v' & Hv' & Hb) & Hval & Hrec). rewrite Hv in Hv'. injection Hv' as <-.
  assert (length (take 32 sig) = 32%nat) as L1 by (rewrite length_take; lia).
  assert (length (take 32 (drop 32 sig)) = 32%nat) as L2 by (rewrite length_take, length_drop; lia).
  assert (bytes_ok (take 32 sig)) as B1 by (by apply Forall_take). assert (bytes_ok (take 32 (drop 32 sig))) as B2 by (by apply Forall_take, Forall_drop).
  unfold recoverPlain. rewrite bool_decide_false; [|assert (v = 0 ∨ v = 1) as [-> | ->] by lia; vm_compute; discriminate].
  assert (sig_V (u8 (v + 27)) = v) as -> by (assert (v = 0 ∨ v = 1) as [-> | ->] by lia; reflexivity).
  rewrite (Hval v Hv). cbn [negb]. pose proof (word_len _ L1 B1). pose proof (word_len _ L2 B2).
  rewrite !bool_decide_false by lia. cbn [orb]. rewrite !word_bytes, sig_split by done. rewrite Hrec. by rewrite (g_address Hl).
Qed.

(** C27: a transaction that was signed with a key comes from the key's address:
    the sender recovered by the signer of its network from the values that
    WithSignature stored is the address of the key, whatever the memo of
    another network says, and then it is in the memo.  (Version 0, the version
    SignTx can sign.) *)
Theorem SignTx_Sender key tx tx' cache :
  d_Version (data tx) = 0 → SignTx key tx = Ok tx' →
  match cache with Some c => sc_signer c ≠ d_NetworkId (data tx) | None => True end →
  cached_Sender (d_NetworkId (data tx)) (mkSignedTx tx' cache)
  = (Ok (addressOf key), mkSignedTx tx' (Some (mkSigCache (d_NetworkId (data tx)) (addressOf key)))).
Proof.
  intros Hver E Hc. unfold SignTx in E. destruct (SignHash lib _ key) as [sig|e|e] eqn:Es; [|done|done]. cbn [mbind result_bind] in E.
  destruct (g_sign Hl _ _ _ Es) as (Hlen & _ & (v & Hv & _) & _). unfold WithSignature, SignatureValues in E.
  rewrite (bool_decide_true (length sig = 65%nat)) in E by done. cbn [negb mbind result_bind] in E. injection E as <-.
  assert (signer_Sender (d_NetworkId (data tx)) (mkEvmTx (mkTxdata (AccountNonce (data tx)) (Price (data tx)) (GasLimit (data tx))
    (Recipient (data tx)) (Amount (data tx)) (Payload (data tx)) (d_NetworkId (data tx)) (d_FromFullShardKey (data tx)) (d_ToFullShardKey (data tx))
    (d_GasTokenID (data tx)) (d_TransferTokenID (data tx)) (d_Version (data tx))
    (u8 (default 0 (sig !! 64%nat) + 27), be_value (take 32 sig), be_value (take 32 (drop 32 sig)))) false None 0 0) = Ok (addressOf key)) as Hs.
  { unfold signer_Sender. cbn [data VRS d_Version d_NetworkId]. rewrite Hver, Z.eqb_refl. cbn [Z.eqb negb andb].
    rewrite <- Hver, (g_unsigned Hl), Hv. cbn [default from_option id]. by apply recover_signed. }
  unfold cached_Sender. cbn [st_tx st_from]. rewrite Hs. destruct cache as [c|]; [|done]. by rewrite (proj2 (Z.eqb_neq _ _) Hc).
Qed.

(** The memo is right if it is of the sender its signer derives. *)
Definition memo_right (t : SignedTx) : Prop :=
  ∀ c, st_from t = Some c → signer_Sender (sc_signer c) (st_tx t) = Ok (sc_from c).
Lemma cached_Sender_transparent signer t :
  memo_right t → (cached_Sender signer t).1 = signer_Sender signer (st_tx t) ∧ memo_right (cached_Sender signer t).2 ∧
    st_tx (cached_Sender signer t).2 = st_tx t.
Proof.
  intros Hm. unfold cached_Sender. destruct (st_from t) as [c|] eqn:Ec.
  - destruct (sc_signer c =? signer) eqn:Es.
    + apply Z.eqb_eq in Es as <-. cbn [fst snd]. by rewrite (Hm c Ec).
    + destruct (signer_Sender signer (st_tx t)) as [a|e|e] eqn:E; cbn [fst snd]; split_and!; try done. intros c' [= <-]. done.
  - destruct (signer_Sender signer (st_tx t)) as [a|e|e] eqn:E; cbn [fst snd]; split_and!; try done. intros c' [= <-]. done.
Qed.
End signing.

(** A signature scheme in which the signature shows the key. *)
Definition demo_tx_hashes : TxHashes := mkTxHashes AccountNonce (fun d => Ok (AccountNonce d)) (fun _ d => AccountNonce d).
Definition demo_sigs : SigLib :=
  mkSigLib (fun _ _ _ => true) (fun _ sig => Some (4 :: take 32 sig)) (fun l => l) (fun _ key => Ok (be_bytes 32 key ++ be_bytes 32 1 ++ [1])).
Lemma demo_sig_laws : sig_laws demo_tx_hashes demo_sigs (be_bytes 32) (fun key => be_value (take 20 (drop 12 (be_bytes 32 key)))).
Proof.
  constructor; [done| |done]. intros hash key sig E. cbn [SignHash demo_sigs] in E.
  assert (sig = be_bytes 32 key ++ be_bytes 32 1 ++ [1]) as -> by congruence. clear E. split_and!.
  - by rewrite !length_app, !length_be_bytes.
  - apply bytes_ok_app; split; [apply be_bytes_ok|]. apply bytes_ok_app; split; [apply be_bytes_ok|]. repeat constructor; lia.
  - exists 1. rewrite lookup_app_r; rewrite length_be_bytes; [|lia]. split; [reflexivity|lia].
  - done.
  - cbn [EcrecoverPub demo_sigs]. by rewrite take_app_length' by (by rewrite length_be_bytes).
Qed.
Lemma SignTx_Sender_witness :
  ∃ tx', SignTx demo_tx_hashes demo_sigs 77 (newEvmTransaction 3 None 0 0 0 0 0 5 0 [] 0 0) = Ok tx' ∧
    (cached_Sender demo_tx_hashes demo_sigs 5 (mkSignedTx tx' None)).1 = Ok 77.
Proof.
  eexists. split; [vm_compute; reflexivity|].
  erewrite (SignTx_Sender demo_tx_hashes demo_sigs _ _ demo_sig_laws 77 (newEvmTransaction 3 None 0 0 0 0 0 5 0 [] 0 0)); [|reflexivity|vm_compute; reflexivity|exact I].
  vm_compute. reflexivity.
Defined.
