(* ===== verification/TxList.v ===== *)
(** * core: the lists of a pool's transactions

    Models src/core/tx_list.go and the lookup and account set of
    src/core/tx_pool.go that it uses: the nonce-indexed map of one account's
    transactions (a Go map, a heap of its nonces and a cached order), the list
    with its price-bump rule and cost caps on top of it, and the price heap of
    the whole pool.  A missing map entry reads as a nil pointer, None here; an
    index or slice out of bounds panics.  The order in which a Go map is
    iterated is an argument [range] of the operations that iterate one.
    sort.Sort is only used on distinct nonces, where every sorting algorithm
    gives the same result; stdpp's merge sort stands for it. *)

From stdpp Require Import sorting.
From S2P Require Import Prelude Heap Transaction.

Local Open Scope Z_scope.

Definition nonce (tx : Transaction) : Z := Nonce (EvmTx tx).

(** Go's [for k, v := range m]: each entry once, in some order. *)
Definition is_range {V} (range : gmap Z V → list (Z * V)) : Prop :=
  ∀ m, range m ≡ₚ map_to_list m.

(** ** txSortedMap *)

(** [nonceHeap.Less]. *)
Abbreviation nonce_less := Z.ltb.

Record txSortedMap := mkSorted {
  items : gmap Z Transaction;
  index : list Z;
  cache : option Transactions;
}.

Definition newTxSortedMap : txSortedMap := mkSorted ∅ [] None.

Definition Get (n : Z) (m : txSortedMap) : option Transaction := items m !! n.

Definition Put (tx : Transaction) (m : txSortedMap) : txSortedMap :=
  let n := nonce tx in
  let index' := match items m !! n with
                | None => heap_Push nonce_less n (index m)
                | Some _ => index m
                end in
  mkSorted (<[n := tx]> (items m)) index' None.

(** The loop pops one nonce per round: the length of the index is enough fuel. *)
Fixpoint forward_loop (fuel : nat) (threshold : Z) (its : gmap Z Transaction) (idx : list Z)
    (removed : list (option Transaction)) : gmap Z Transaction * list Z * list (option Transaction) :=
  match fuel, heap_Pop nonce_less idx with
  | S fuel, Some (n, idx') =>
      if idx !!! 0%nat <? threshold
      then forward_loop fuel threshold (delete n its) idx' (removed ++ [its !! n])
      else (its, idx, removed)
  | _, _ => (its, idx, removed)
  end.

Definition Forward (threshold : Z) : SE txSortedMap (list (option Transaction)) := fun m =>
  let '(its, idx, removed) := forward_loop (length (index m)) threshold (items m) (index m) [] in
  match cache m with
  | None => (Ok removed, mkSorted its idx None)
  | Some c =>
      if bool_decide (length c < length removed)%nat
      then (Panic "slice bounds out of range", mkSorted its idx (Some c))
      else (Ok removed, mkSorted its idx (Some (drop (length removed) c)))
  end.

Fixpoint filter_loop (f : Transaction → bool) (todo : list (Z * Transaction))
    (its : gmap Z Transaction) (removed : Transactions) : gmap Z Transaction * Transactions :=
  match todo with
  | [] => (its, removed)
  | (n, tx) :: todo =>
      if f tx then filter_loop f todo (delete n its) (removed ++ [tx])
      else filter_loop f todo its removed
  end.

Definition Filter (range : gmap Z Transaction → list (Z * Transaction)) (f : Transaction → bool)
    (m : txSortedMap) : Transactions * txSortedMap :=
  let '(its, removed) := filter_loop f (range (items m)) (items m) [] in
  if bool_decide (0 < length removed)%nat
  then (removed, mkSorted its (heap_Init nonce_less (range its).*1) None)
  else (removed, mkSorted its (index m) (cache m)).

(** [k] rounds, from [size] down to the threshold. *)
Fixpoint cap_loop (k : nat) (size : Z) (idx : list Z) (its : gmap Z Transaction)
    (drops : list (option Transaction)) : result (list (option Transaction)) * gmap Z Transaction :=
  match k with
  | O => (Ok drops, its)
  | S k =>
      if size - 1 <? 0 then (Panic "index out of range", its) else
      match idx !! Z.to_nat (size - 1) with
      | None => (Panic "index out of range", its)
      | Some n => cap_loop k (size - 1) idx (delete n its) (drops ++ [its !! n])
      end
  end.

(** Unless the loop has panicked, the threshold is a position of the index. *)
Definition Cap (threshold : Z) : SE txSortedMap (list (option Transaction)) := fun m =>
  let len := Z.of_nat (base.size (items m)) in
  if len <=? threshold then (Ok [], m)
  else
    let idx := merge_sort Z.le (index m) in
    match cap_loop (Z.to_nat (len - threshold)) len idx (items m) [] with
    | (Err e, its) => (Err e, mkSorted its idx (cache m))
    | (Panic e, its) => (Panic e, mkSorted its idx (cache m))
    | (Ok drops, its) =>
        let idx := heap_Init nonce_less (take (Z.to_nat threshold) idx) in
        match cache m with
        | None => (Ok drops, mkSorted its idx None)
        | Some c =>
            if bool_decide (length c < length drops)%nat
            then (Panic "slice bounds out of range", mkSorted its idx (Some c))
            else (Ok drops, mkSorted its idx (Some (take (length c - length drops) c)))
        end
    end.

(** The index loop of Remove: the first position of the nonce. *)
Definition remove_index (n : Z) (idx : list Z) : list Z :=
  match list_find (fun x => x = n) idx with
  | Some (i, _) => heap_Remove nonce_less i idx
  | None => idx
  end.
Definition Remove (n : Z) (m : txSortedMap) : bool * txSortedMap :=
  match items m !! n with
  | None => (false, m)
  | Some _ => (true, mkSorted (delete n (items m)) (remove_index n (index m)) None)
  end.

Fixpoint ready_loop (fuel : nat) (next : Z) (its : gmap Z Transaction) (idx : list Z)
    (ready : list (option Transaction)) : gmap Z Transaction * list Z * list (option Transaction) :=
  match fuel, heap_Pop nonce_less idx with
  | S fuel, Some (_, idx') =>
      if idx !!! 0%nat =? next
      then ready_loop fuel (u64 (next + 1)) (delete next its) idx' (ready ++ [its !! next])
      else (its, idx, ready)
  | _, _ => (its, idx, ready)
  end.
Definition Ready (start : Z) (m : txSortedMap) : list (option Transaction) * txSortedMap :=
  match index m with
  | [] => ([], m)
  | n :: _ =>
      if start <? n then ([], m)
      else
        let '(its, idx, ready) := ready_loop (length (index m)) n (items m) (index m) [] in
        (ready, mkSorted its idx None)
  end.

Definition Len (m : txSortedMap) : nat := base.size (items m).

(** [TxByNonce.Less], as an order. *)
Definition nonce_le (a b : Transaction) : Prop := getNonce a <= getNonce b.
#[export] Instance nonce_le_dec a b : Decision (nonce_le a b).
Proof. unfold nonce_le. apply _. Defined.

Definition Flatten (range : gmap Z Transaction → list (Z * Transaction)) (m : txSortedMap)
    : Transactions * txSortedMap :=
  match cache m with
  | Some c => (c, m)
  | None =>
      let c := merge_sort nonce_le (range (items m)).*2 in
      (c, mkSorted (items m) (index m) (Some c))
  end.

(** ** txList *)

Record txList := mkList {
  strict : bool;
  l_txs : txSortedMap;
  costcap : gmap Z Z;
  gascap : Z;
}.

Definition newTxList (strict : bool) : txList := mkList strict newTxSortedMap ∅ 0.

Definition with_txs (m : txSortedMap) (l : txList) : txList :=
  mkList (strict l) m (costcap l) (gascap l).

Definition Overlaps (tx : Transaction) (l : txList) : bool :=
  bool_decide (is_Some (Get (nonce tx) (l_txs l))).

(** A missing cap is created as zero before it is compared. *)
Definition with_zero (token : Z) (caps : gmap Z Z) : gmap Z Z :=
  match caps !! token with
  | None => <[token := 0]> caps
  | Some _ => caps
  end.
Definition cmpCostCapValue (token balance : Z) (l : txList) : comparison * txList :=
  let caps := with_zero token (costcap l) in
  (default 0 (caps !! token) ?= balance, mkList (strict l) (l_txs l) caps (gascap l)).

(** The price a replacement must reach; [int64(priceBump)] wraps. *)
Definition bumped (price priceBump : Z) : Z := price * i64 (100 + i64 priceBump) / 100.

Definition list_Add (tx : Transaction) (priceBump : Z) (l : txList)
    : bool * option Transaction * txList :=
  let old := Get (nonce tx) (l_txs l) in
  let rejected :=
    match old with
    | Some o => (GasPrice (EvmTx tx) <=? GasPrice (EvmTx o))
                || (GasPrice (EvmTx tx) <? bumped (GasPrice (EvmTx o)) priceBump)
    | None => false
    end in
  if rejected then (false, None, l)
  else
    let l := with_txs (Put tx (l_txs l)) l in
    let cost := Cost (EvmTx tx) in
    let token := TransferTokenID (EvmTx tx) in
    let '(c, l) := cmpCostCapValue token cost l in
    let caps := match c with Lt => <[token := cost]> (costcap l) | _ => costcap l end in
    let cap := if gascap l <? Gas (EvmTx tx) then Gas (EvmTx tx) else gascap l in
    (true, old, mkList (strict l) (l_txs l) caps cap).

Definition list_Forward (threshold : Z) : SE txList (list (option Transaction)) := fun l =>
  let '(r, m) := Forward threshold (l_txs l) in (r, with_txs m l).

(** The loop over the balances: stops at the first token whose cap is covered. *)
Fixpoint covered_loop (todo : list (Z * Z)) (gasLimit : Z) (l : txList) : bool * txList :=
  match todo with
  | [] => (false, l)
  | (token, bal) :: todo =>
      let '(c, l) := cmpCostCapValue token bal l in
      match c with
      | Gt => covered_loop todo gasLimit l
      | _ => if gascap l <=? gasLimit then (true, l) else covered_loop todo gasLimit l
      end
  end.

Definition unpayable (costLimit : gmap Z Z) (gasLimit : Z) (tx : Transaction) : bool :=
  (default 0 (costLimit !! TransferTokenID (EvmTx tx)) <? Cost (EvmTx tx))
  || (gasLimit <? Gas (EvmTx tx)).

Definition lowest_nonce (removed : Transactions) : Z :=
  foldl (fun lowest tx => if nonce tx <? lowest then nonce tx else lowest) max_u64 removed.

(** [costcap] becomes the caller's map, to which the filter's closure adds a
    zero for each token it meets. *)
Definition zero_caps (todo : list (Z * Transaction)) (caps : gmap Z Z) : gmap Z Z :=
  foldl (fun caps e => with_zero (TransferTokenID (EvmTx e.2)) caps) caps todo.

Definition list_Filter (brange : gmap Z Z → list (Z * Z))
    (range range' : gmap Z Transaction → list (Z * Transaction))
    (costLimit : gmap Z Z) (gasLimit : Z) (l : txList) : Transactions * Transactions * txList :=
  match covered_loop (brange costLimit) gasLimit l with
  | (true, l) => ([], [], l)
  | (false, l) =>
      let caps := zero_caps (range (items (l_txs l))) costLimit in
      let '(removed, m) := Filter range (unpayable costLimit gasLimit) (l_txs l) in
      let '(invalids, m) :=
        if strict l && bool_decide (0 < length removed)%nat
        then Filter range' (fun tx => lowest_nonce removed <? nonce tx) m
        else ([], m) in
      (removed, invalids, mkList (strict l) m caps gasLimit)
  end.

Definition list_Cap (threshold : Z) : SE txList (list (option Transaction)) := fun l =>
  let '(r, m) := Cap threshold (l_txs l) in (r, with_txs m l).

Definition list_Remove (range : gmap Z Transaction → list (Z * Transaction)) (tx : Transaction)
    (l : txList) : bool * Transactions * txList :=
  let n := nonce tx in
  match Remove n (l_txs l) with
  | (false, m) => (false, [], with_txs m l)
  | (true, m) =>
      if strict l then
        let '(invalids, m) := Filter range (fun tx => n <? nonce tx) m in
        (true, invalids, with_txs m l)
      else (true, [], with_txs m l)
  end.

Definition list_Ready (start : Z) (l : txList) : list (option Transaction) * txList :=
  let '(ready, m) := Ready start (l_txs l) in (ready, with_txs m l).

Definition list_Len (l : txList) : nat := Len (l_txs l).
Definition list_Empty (l : txList) : bool := bool_decide (list_Len l = 0%nat).
Definition list_Flatten (range : gmap Z Transaction → list (Z * Transaction)) (l : txList)
    : Transactions * txList :=
  let '(c, m) := Flatten range (l_txs l) in (c, with_txs m l).

(** ** The pool's lookup, its set of local accounts, the noncer *)

Section pool_sets.
Context (Hash : Transaction → Z) (recover : EvmTransaction → option Z).

Definition lookup_Add (tx : Transaction) (all : gmap Z Transaction) : gmap Z Transaction :=
  <[Hash tx := tx]> all.
Definition lookup_Remove (hash : Z) (all : gmap Z Transaction) : gmap Z Transaction :=
  delete hash all.

(** [accountSet]: the accounts and the cached slice of them. *)
Record accountSet := mkAccounts { accounts : gset Z; acc_cache : option (list Z) }.
Definition set_contains (addr : Z) (s : accountSet) : bool := bool_decide (addr ∈ accounts s).
Definition containsTx (tx : Transaction) (s : accountSet) : bool :=
  match recover (EvmTx tx) with
  | Some addr => set_contains addr s
  | None => false
  end.
Definition set_add (addr : Z) (s : accountSet) : accountSet := mkAccounts ({[addr]} ∪ accounts s) None.
Definition addTx (tx : Transaction) (s : accountSet) : accountSet :=
  match recover (EvmTx tx) with
  | Some addr => set_add addr s
  | None => s
  end.
Definition set_flatten (s : accountSet) : list Z * accountSet :=
  match acc_cache s with
  | Some c => (c, s)
  | None => let c := elements (accounts s) in (c, mkAccounts (accounts s) (Some c))
  end.
Definition set_merge (other s : accountSet) : accountSet :=
  mkAccounts (accounts other ∪ accounts s) None.

(** ** txPricedList *)

(** [priceHeap.Less]: the cheaper first, then the higher nonce. *)
Definition cheaper (a b : Transaction) : bool :=
  match GasPrice (EvmTx a) ?= GasPrice (EvmTx b) with
  | Lt => true
  | Gt => false
  | Eq => nonce b <? nonce a
  end.

Record txPricedList := mkPriced { p_items : Transactions; stales : Z }.

Definition priced_Put (tx : Transaction) (l : txPricedList) : txPricedList :=
  mkPriced (heap_Push cheaper tx (p_items l)) (stales l).

Definition Removed (range : gmap Z Transaction → list (Z * Transaction)) (all : gmap Z Transaction)
    (count : Z) (l : txPricedList) : txPricedList :=
  let stales' := stales l + count in
  if stales' <=? Z.of_nat (length (p_items l)) `quot` 4 then mkPriced (p_items l) stales'
  else mkPriced (heap_Init cheaper (range all).*2) 0.

Definition stale (all : gmap Z Transaction) (tx : Transaction) : bool :=
  bool_decide (all !! Hash tx = None).

(** The loops pop one transaction per round: the length of the heap is enough
    fuel. *)
Fixpoint price_cap_loop (fuel : nat) (all : gmap Z Transaction) (threshold : Z) (local : accountSet)
    (l : txPricedList) (drop save : Transactions) : txPricedList * Transactions * Transactions :=
  match fuel, heap_Pop cheaper (p_items l) with
  | S fuel, Some (tx, its) =>
      if stale all tx then price_cap_loop fuel all threshold local (mkPriced its (stales l - 1)) drop save
      else if threshold <=? GasPrice (EvmTx tx) then (mkPriced its (stales l), drop, save ++ [tx])
      else if containsTx tx local
      then price_cap_loop fuel all threshold local (mkPriced its (stales l)) drop (save ++ [tx])
      else price_cap_loop fuel all threshold local (mkPriced its (stales l)) (drop ++ [tx]) save
  | _, _ => (l, drop, save)
  end.
Definition push_all (save : Transactions) (l : txPricedList) : txPricedList :=
  foldl (fun l tx => priced_Put tx l) l save.
Definition priced_Cap (all : gmap Z Transaction) (threshold : Z) (local : accountSet)
    (l : txPricedList) : Transactions * txPricedList :=
  let '(l, drop, save) := price_cap_loop (length (p_items l)) all threshold local l [] [] in
  (drop, push_all save l).

Fixpoint drop_stale_loop (fuel : nat) (all : gmap Z Transaction) (l : txPricedList) : txPricedList :=
  match fuel, p_items l with
  | S fuel, head :: _ =>
      if stale all head then
        match heap_Pop cheaper (p_items l) with
        | Some (_, its) => drop_stale_loop fuel all (mkPriced its (stales l - 1))
        | None => l
        end
      else l
  | _, _ => l
  end.
Definition Underpriced (all : gmap Z Transaction) (tx : Transaction) (local : accountSet)
    (l : txPricedList) : bool * txPricedList :=
  if containsTx tx local then (false, l)
  else
    let l := drop_stale_loop (length (p_items l)) all l in
    match p_items l with
    | [] => (false, l)
    | cheapest :: _ => (GasPrice (EvmTx tx) <=? GasPrice (EvmTx cheapest), l)
    end.

Fixpoint discard_loop (fuel : nat) (all : gmap Z Transaction) (count : Z) (local : accountSet)
    (l : txPricedList) (drop save : Transactions) : txPricedList * Transactions * Transactions :=
  match fuel, heap_Pop cheaper (p_items l) with
  | S fuel, Some (tx, its) =>
      if count <=? 0 then (l, drop, save)
      else if stale all tx then discard_loop fuel all count local (mkPriced its (stales l - 1)) drop save
      else if containsTx tx local
      then discard_loop fuel all count local (mkPriced its (stales l)) drop (save ++ [tx])
      else discard_loop fuel all (count - 1) local (mkPriced its (stales l)) (drop ++ [tx]) save
  | _, _ => (l, drop, save)
  end.
Definition Discard (all : gmap Z Transaction) (count : Z) (local : accountSet)
    : SE txPricedList Transactions := fun l =>
  if count <? 0 then (Panic "makeslice: cap out of range", l)
  else
    let '(l, drop, save) := discard_loop (length (p_items l)) all count local l [] [] in
    (Ok drop, push_all save l).
End pool_sets.

(** ** txNoncer *)
Section noncer.
(** [fallback.GetNonce], of the copy of the state the noncer was made from. *)
Context (fallback : Z → Z).

Definition loaded (addr : Z) (nonces : gmap Z Z) : gmap Z Z :=
  match nonces !! addr with
  | None => <[addr := fallback addr]> nonces
  | Some _ => nonces
  end.
Definition noncer_get (addr : Z) (nonces : gmap Z Z) : Z * gmap Z Z :=
  let nonces := loaded addr nonces in (default 0 (nonces !! addr), nonces).
Definition noncer_set (addr n : Z) (nonces : gmap Z Z) : gmap Z Z := <[addr := n]> nonces.
Definition noncer_setIfLower (addr n : Z) (nonces : gmap Z Z) : gmap Z Z :=
  let nonces := loaded addr nonces in
  if default 0 (nonces !! addr) <=? n then nonces else <[addr := n]> nonces.
End noncer.
