(* ===== verification/TxListCorrect.v ===== *)
(** * core: the lists of a pool's transactions, correctness

    The nonce-indexed map of TxList.v implements a list of transactions with
    strictly increasing nonces; what the caps and the strict mode of the list
    on top of it guarantee; what the price heap hands out. *)

From stdpp Require Import sorting.
From S2P Require Import Prelude Heap Transaction TxList.

Local Open Scope Z_scope.

Lemma nonce_heap_trans (x y z : Z) : le nonce_less x y → le nonce_less y z → le nonce_less x z.
Proof. unfold le. rewrite !Z.ltb_ge. lia. Qed.
Lemma nonce_heap_less (x y : Z) : nonce_less x y = true → le nonce_less x y.
Proof. unfold le. rewrite Z.ltb_lt, Z.ltb_ge. lia. Qed.

(** ** Lists with increasing nonces *)

Abbreviation increasing := (StronglySorted (fun a b => nonce a < nonce b)).

(** A transaction of the type the pool accepts, its nonce a uint64. *)
Definition wf_tx (tx : Transaction) : Prop := TxType tx = EvmTxType ∧ in_u64 (nonce tx).
#[export] Instance wf_tx_dec tx : Decision (wf_tx tx).
Proof. unfold wf_tx. apply _. Defined.

Definition keyed (l : Transactions) : list (Z * Transaction) := (fun t => (nonce t, t)) <$> l.
Definition to_map (l : Transactions) : gmap Z Transaction := list_to_map (keyed l).

Lemma keyed_fst l : (keyed l).*1 = nonce <$> l.
Proof. unfold keyed. rewrite <- list_fmap_compose. by apply list_fmap_ext. Qed.
Lemma keyed_snd l : (keyed l).*2 = l.
Proof. unfold keyed. rewrite <- list_fmap_compose. apply list_fmap_id. Qed.

Lemma StronglySorted_sublist {A} (R : relation A) l k :
  StronglySorted R k → l `sublist_of` k → StronglySorted R l.
Proof.
  intros Hk Hl. revert Hk. induction Hl as [|x l k Hl IH|x l k Hl IH]; intros Hk; [done| |].
  - apply StronglySorted_cons in Hk as [Hx Hk]. apply StronglySorted_cons. split; [|by apply IH].
    rewrite Forall_forall in *. intros y Hy. apply Hx.
    eapply elem_of_submseteq; [done|by apply sublist_submseteq].
  - apply StronglySorted_cons in Hk as [_ Hk]. by apply IH.
Qed.

Lemma sublist_filter {A} (P : A → Prop) `{!∀ x, Decision (P x)} l : filter P l `sublist_of` l.
Proof.
  induction l as [|x l IH]; [done|]. rewrite filter_cons. case_decide; by constructor.
Qed.

Lemma Forall_filter {A} (Q P : A → Prop) `{!∀ x, Decision (P x)} l : Forall Q l → Forall Q (filter P l).
Proof. rewrite !Forall_forall. intros Hl x [_ Hx]%list_elem_of_filter. by apply Hl. Qed.

Lemma increasing_filter (P : Transaction → Prop) `{!∀ x, Decision (P x)} l :
  increasing l → increasing (filter P l).
Proof. intros Hl. eapply StronglySorted_sublist; [done|]. apply sublist_filter. Qed.

Lemma increasing_inj l a b : increasing l → a ∈ l → b ∈ l → nonce a = nonce b → a = b.
Proof.
  intros Hl. induction l as [|x l IH]; [intros Ha; by apply not_elem_of_nil in Ha|].
  apply StronglySorted_cons in Hl as [Hx Hl]. rewrite Forall_forall in Hx.
  rewrite !elem_of_cons. intros [->|Ha] [->|Hb] Heq; [done| | |by apply IH].
  - specialize (Hx b Hb). lia.
  - specialize (Hx a Ha). lia.
Qed.

Lemma increasing_nodup l : increasing l → NoDup (nonce <$> l).
Proof.
  intros Hl. induction l as [|x l IH]; [constructor|].
  apply StronglySorted_cons in Hl as [Hx Hl]. rewrite fmap_cons, NoDup_cons. split; [|by apply IH].
  intros (y&Hy&Hin)%list_elem_of_fmap. rewrite Forall_forall in Hx. specialize (Hx y Hin). lia.
Qed.

Lemma to_map_lookup l n t :
  increasing l → to_map l !! n = Some t ↔ t ∈ l ∧ nonce t = n.
Proof.
  intros Hl. unfold to_map. rewrite <- elem_of_list_to_map by (rewrite keyed_fst; by apply increasing_nodup).
  unfold keyed. rewrite list_elem_of_fmap. split.
  - intros (y&[= -> ->]&Hy). done.
  - intros [Ht <-]. by exists t.
Qed.

Lemma to_map_ext l m :
  increasing l → (∀ n t, m !! n = Some t ↔ t ∈ l ∧ nonce t = n) → m = to_map l.
Proof.
  intros Hl Hm. apply map_eq. intros n. apply option_eq. intros t. by rewrite Hm, to_map_lookup.
Qed.

Lemma to_map_None l n : increasing l → to_map l !! n = None ↔ ∀ t, t ∈ l → nonce t ≠ n.
Proof.
  intros Hl. rewrite eq_None_not_Some. split.
  - intros Hn t Ht Heq. apply Hn. exists t. by apply to_map_lookup.
  - intros Hall [t Ht]. apply to_map_lookup in Ht as [Ht Heq]; [|done]. by eapply Hall.
Qed.

Lemma map_to_list_to_map l : increasing l → map_to_list (to_map l) ≡ₚ keyed l.
Proof. intros Hl. apply map_to_list_to_map. rewrite keyed_fst. by apply increasing_nodup. Qed.

Lemma size_to_map l : increasing l → base.size (to_map l) = length l.
Proof.
  intros Hl. rewrite <- length_map_to_list, (map_to_list_to_map l Hl). unfold keyed. apply length_fmap.
Qed.

Lemma delete_to_map t l : increasing (t :: l) → delete (nonce t) (to_map (t :: l)) = to_map l.
Proof.
  intros Hl. pose proof Hl as Hl'. apply StronglySorted_cons in Hl' as [Ht Hl']. apply to_map_ext; [done|].
  intros n u. rewrite lookup_delete_Some, to_map_lookup, elem_of_cons by done.
  rewrite Forall_forall in Ht. split.
  - intros (Hn&[->|Hu]&Heq); [done|by split].
  - intros [Hu Heq]. specialize (Ht u Hu). split_and!; [lia|by right|done].
Qed.

Lemma delete_filter l n :
  increasing l → delete n (to_map l) = to_map (filter (fun t => nonce t ≠ n) l).
Proof.
  intros Hl. apply to_map_ext; [by apply increasing_filter|]. intros k u.
  rewrite lookup_delete_Some, to_map_lookup, list_elem_of_filter by done. split; [|intuition congruence].
  intros (Hn&Hu&<-). by split_and!.
Qed.

Lemma filter_increasing_split l (thr : Z) :
  increasing l → l = filter (fun t => nonce t < thr) l ++ filter (fun t => thr <= nonce t) l.
Proof.
  induction l as [|t l IH]; intros Hl; [done|]. apply StronglySorted_cons in Hl as [Ht Hl].
  destruct (decide (nonce t < thr)).
  - rewrite filter_cons_True, (filter_cons_False (fun t => thr <= nonce t)) by lia. cbn. f_equal. by apply IH.
  - rewrite filter_cons_False, (filter_cons_True (fun t => thr <= nonce t)) by lia.
    rewrite filter_none by (eapply Forall_impl; [exact Ht|]; cbn; lia). cbn. f_equal.
    rewrite filter_all; [done|]. eapply Forall_impl; [exact Ht|]. cbn. lia.
Qed.

Lemma nonces_perm l k :
  increasing l → increasing k → (∀ n, n ∈ nonce <$> l ↔ n ∈ nonce <$> k) →
  nonce <$> l ≡ₚ nonce <$> k.
Proof. intros Hl Hk. apply NoDup_Permutation; by apply increasing_nodup. Qed.

(** ** The map represents an increasing list *)
Record rep (m : txSortedMap) (L : Transactions) : Prop := {
  rep_sorted : increasing L;
  rep_wf : Forall wf_tx L;
  rep_items : items m = to_map L;
  rep_heap : heap_ok nonce_less (index m);
  rep_index : index m ≡ₚ nonce <$> L;
  rep_cache : cache m = None ∨ cache m = Some L;
}.

Lemma rep_new : rep newTxSortedMap [].
Proof.
  constructor; cbn; [constructor|constructor|done| |done|by left].
  intros p c _ _ Hc. cbn in Hc. lia.
Qed.

(** [Put] on lists. *)
Definition ins (tx : Transaction) (L : Transactions) : Transactions :=
  filter (fun t => nonce t < nonce tx) L ++ tx :: filter (fun t => nonce tx < nonce t) L.

Lemma elem_of_ins tx L u : u ∈ ins tx L ↔ u = tx ∨ u ∈ L ∧ nonce u ≠ nonce tx.
Proof.
  unfold ins. rewrite elem_of_app, elem_of_cons, !list_elem_of_filter. split; [intuition lia|].
  intros [->|[Hu Hn]]; [tauto|]. destruct (decide (nonce u < nonce tx)); [tauto|].
  right. right. split; [lia|done].
Qed.

Lemma increasing_ins tx L : increasing L → increasing (ins tx L).
Proof.
  intros HL. apply StronglySorted_app_2.
  - intros a b [Ha _]%list_elem_of_filter [->|[Hb _]%list_elem_of_filter]%elem_of_cons; lia.
  - by apply increasing_filter.
  - apply StronglySorted_cons. split; [|by apply increasing_filter].
    apply Forall_forall. intros b [Hb _]%list_elem_of_filter. done.
Qed.

Lemma rep_Put tx m L : rep m L → wf_tx tx → rep (Put tx m) (ins tx L).
Proof.
  intros [Hs Hwf Hi Hh Hx _] Htx. unfold Put. rewrite Hi.
  assert (increasing (ins tx L)) as Hs' by (by apply increasing_ins).
  assert (∀ idx, idx ≡ₚ nonce <$> ins tx L → heap_ok nonce_less idx →
    rep (mkSorted (<[nonce tx := tx]> (to_map L)) idx None) (ins tx L)) as Hrep.
  { intros idx Hidx Hok. constructor; cbn; [done| | |done|done|by left].
    - apply Forall_forall. intros u [->|[Hu _]]%elem_of_ins; [done|]. by eapply Forall_forall in Hu.
    - apply to_map_ext; [done|]. intros n u.
      rewrite lookup_insert_Some, to_map_lookup, elem_of_ins by done. intuition congruence. }
  destruct (to_map L !! nonce tx) as [old|] eqn:Hold; apply Hrep.
  - rewrite Hx. apply nonces_perm; [done|done|]. intros n.
    apply to_map_lookup in Hold as [Hold Hn]; [|done]. rewrite !list_elem_of_fmap. split.
    + intros (u&->&Hu). destruct (decide (nonce u = nonce tx)) as [->|].
      * exists tx. rewrite elem_of_ins. auto.
      * exists u. rewrite elem_of_ins. auto.
    + intros (u&->&[->|[Hu _]]%elem_of_ins); eauto.
  - done.
  - destruct (heap_Push_spec nonce_less nonce_heap_trans nonce_heap_less (nonce tx) _ Hh) as [_ ->].
    rewrite Hx. change (nonce tx :: (nonce <$> L)) with (nonce <$> (tx :: L)).
    apply Permutation_map. rewrite to_map_None in Hold by done. unfold ins.
    rewrite <- Permutation_middle. f_equiv. rewrite (filter_increasing_split L (nonce tx) Hs) at 1.
    f_equiv. apply reflexive_eq. apply filter_ext_Forall. apply Forall_forall. intros u Hu.
    specialize (Hold u Hu). lia.
  - by apply heap_Push_spec; [apply nonce_heap_trans|apply nonce_heap_less|].
Qed.

Lemma to_map_first t L : to_map (t :: L) !! nonce t = Some t.
Proof. unfold to_map, keyed. rewrite fmap_cons. apply lookup_insert_eq. Qed.

Lemma pop_first idx t L :
  increasing (t :: L) → heap_ok nonce_less idx → idx ≡ₚ nonce <$> (t :: L) →
  idx !!! 0%nat = nonce t ∧
  ∃ idx', heap_Pop nonce_less idx = Some (nonce t, idx') ∧ heap_ok nonce_less idx'
          ∧ idx' ≡ₚ nonce <$> L.
Proof.
  intros Hs Hh Hp. assert (0 < length idx)%nat as Hlen by (rewrite Hp; cbn; lia).
  assert (idx !!! 0%nat = nonce t) as Hroot.
  { assert (idx !!! 0%nat ∈ nonce <$> (t :: L)) as Hr
      by (rewrite <- Hp; eapply list_elem_of_lookup_2, list_lookup_lookup_total_lt, Hlen).
    apply list_elem_of_fmap in Hr as (u&Hu&Hin).
    assert (nonce t ∈ idx) as Hmin by (rewrite Hp; left).
    apply list_elem_of_lookup_1 in Hmin as [k Hk].
    pose proof (heap_root_min nonce_less nonce_heap_trans nonce_heap_less idx k Hh
                  (lookup_lt_Some _ _ _ Hk)) as Hle.
    rewrite (list_lookup_total_correct _ _ _ Hk), Hu in Hle. unfold le in Hle. rewrite Z.ltb_ge in Hle.
    apply StronglySorted_cons in Hs as [Ht _]. rewrite Forall_forall in Ht.
    apply elem_of_cons in Hin as [->|Hin]; [done|]. specialize (Ht u Hin). cbn in Ht. lia. }
  split; [done|]. destruct (heap_Pop_spec nonce_less nonce_heap_trans nonce_heap_less idx Hh)
    as (idx'&Hpop&Hok&Hperm); [intros ->; cbn in Hlen; lia|]. rewrite Hroot in *. exists idx'.
  split_and!; [done|done|]. rewrite Hp, fmap_cons in Hperm. by apply Permutation_cons_inv in Hperm.
Qed.

Abbreviation below thr := (filter (fun t => nonce t < thr)).
Abbreviation above thr := (filter (fun t => thr <= nonce t)).

Lemma forward_loop_spec fuel thr idx L removed :
  increasing L → heap_ok nonce_less idx → idx ≡ₚ nonce <$> L → (length L ≤ fuel)%nat →
  ∃ idx', forward_loop fuel thr (to_map L) idx removed
          = (to_map (above thr L), idx', removed ++ (Some <$> below thr L))
          ∧ heap_ok nonce_less idx' ∧ idx' ≡ₚ nonce <$> above thr L.
Proof.
  revert idx L removed. induction fuel as [|fuel IH]; intros idx L removed Hs Hh Hp Hf.
  { destruct L; [|cbn in Hf; lia]. exists idx. cbn. by rewrite app_nil_r. }
  cbn [forward_loop]. destruct L as [|t L].
  { assert (idx = []) as -> by (by apply Permutation_nil_r). exists []. cbn. by rewrite app_nil_r. }
  destruct (pop_first idx t L Hs Hh Hp) as (Hroot&idx'&Hpop&Hok&Hp'). rewrite Hpop, Hroot.
  pose proof Hs as Hs'. apply StronglySorted_cons in Hs' as [Ht Hs'].
  destruct (nonce t <? thr) eqn:Hlt; [apply Z.ltb_lt in Hlt|apply Z.ltb_ge in Hlt].
  - rewrite delete_to_map by done.
    destruct (IH idx' L (removed ++ [to_map (t :: L) !! nonce t])) as (idx2&Heq&Hok2&Hp2);
      [done|done|done|cbn in Hf; lia|].
    exists idx2. rewrite Heq, (filter_cons_True (fun t => nonce t < thr)),
      (filter_cons_False (fun t => thr <= nonce t)) by lia.
    split_and!; [|done|done]. by rewrite to_map_first, <- app_assoc.
  - exists idx. assert (Forall (fun u => thr <= nonce u) (t :: L)) as Hall.
    { constructor; [done|]. eapply Forall_impl; [exact Ht|]. cbn. lia. }
    rewrite filter_all, filter_none by (done || (eapply Forall_impl; [exact Hall|]; cbn; lia)).
    cbn. by rewrite app_nil_r.
Qed.

Lemma rep_Forward thr m L :
  rep m L → ∃ m', Forward thr m = (Ok (Some <$> below thr L), m') ∧ rep m' (above thr L).
Proof.
  intros [Hs Hwf Hi Hh Hx Hc]. unfold Forward. rewrite Hi.
  destruct (forward_loop_spec (length (index m)) thr (index m) L [] Hs Hh Hx) as (idx'&Heq&Hok&Hp).
  { rewrite (Permutation_length Hx), length_fmap. done. }
  rewrite Heq. cbn [app].
  assert (∀ c, c = None ∨ c = Some (above thr L) →
    rep (mkSorted (to_map (above thr L)) idx' c) (above thr L)) as Hrep.
  { intros c Hc'. constructor; cbn; [by apply increasing_filter| |done|done|done|done].
    by apply Forall_filter. }
  destruct Hc as [->| ->].
  - eexists. split; [done|]. apply Hrep. by left.
  - rewrite length_fmap, bool_decide_false by (pose proof (length_filter (fun t => nonce t < thr) L); lia).
    eexists. split; [done|]. apply Hrep. right. f_equal.
    rewrite (filter_increasing_split L thr Hs) at 2. by rewrite drop_app_length.
Qed.

Lemma filter_loop_spec f todo its removed :
  NoDup todo.*1 → (∀ n t, (n, t) ∈ todo → its !! n = Some t) →
  let '(its', removed') := filter_loop f todo its removed in
  removed' = removed ++ (filter (fun e => f e.2) todo).*2
  ∧ ∀ n t, its' !! n = Some t ↔ its !! n = Some t ∧ ¬ ((n, t) ∈ todo ∧ f t).
Proof.
  revert its removed. induction todo as [|[n t] todo IH]; intros its removed Hnd Hin; cbn [filter_loop].
  { split; [by rewrite app_nil_r|]. intros n t. pose proof (not_elem_of_nil (n, t)). tauto. }
  rewrite fmap_cons in Hnd. apply NoDup_cons in Hnd as [Hnot Hnd]. cbn in Hnot.
  assert (∀ u, (n, u) ∉ todo) as Hn.
  { intros u Hu. apply Hnot. apply list_elem_of_fmap. by exists (n, u). }
  assert (its !! n = Some t) as Hnt by (apply Hin; left).
  destruct (f t) eqn:Hf.
  - specialize (IH (delete n its) (removed ++ [t]) Hnd).
    destruct (filter_loop f todo (delete n its) (removed ++ [t])) as [its' removed'].
    destruct IH as [-> IH].
    { intros k u Hu. rewrite lookup_delete_ne; [apply Hin; by right|]. intros <-. by eapply Hn. }
    split.
    + rewrite filter_cons_True by (cbn; by rewrite Hf). cbn. by rewrite <- app_assoc.
    + intros k u. rewrite IH, lookup_delete_Some, elem_of_cons. split.
      * intros [[Hk Hu] Hno]. split; [done|]. intros [[[= -> ->]|Hin'] Hfu]; [done|tauto].
      * intros [Hu Hno]. split_and!; [|done|tauto]. intros <-. apply Hno.
        assert (u = t) as -> by congruence. rewrite Hf. split; [by left|done].
  - specialize (IH its removed Hnd).
    destruct (filter_loop f todo its removed) as [its' removed'].
    destruct IH as [-> IH]; [intros k u Hu; apply Hin; by right|]. split.
    + rewrite filter_cons_False by (cbn; rewrite Hf; by intros []). done.
    + intros k u. rewrite IH, elem_of_cons. split; [|tauto].
      intros [Hu Hno]. split; [done|]. intros [[[= -> ->]|Hin'] Hfu]; [by rewrite Hf in Hfu|tauto].
Qed.

Lemma rep_Filter range f m L :
  is_range range → rep m L →
  let '(removed, m') := Filter range f m in
  removed ≡ₚ filter (fun t => f t) L ∧ rep m' (filter (fun t => ¬ f t) L).
Proof.
  intros Hr [Hs Hwf Hi Hh Hx Hc]. unfold Filter. rewrite Hi.
  pose proof (Hr (to_map L)) as Hperm. rewrite (map_to_list_to_map L Hs) in Hperm.
  pose proof (filter_loop_spec f (range (to_map L)) (to_map L) []) as Hl.
  destruct (filter_loop f (range (to_map L)) (to_map L) []) as [its removed].
  destruct Hl as [-> Hits].
  { rewrite Hperm, keyed_fst. by apply increasing_nodup. }
  { intros n t. rewrite Hr. apply elem_of_map_to_list. }
  cbn [app]. set (removed := (filter _ (range (to_map L))).*2).
  assert (removed ≡ₚ filter (fun t => f t) L) as Hrem.
  { unfold removed. rewrite Hperm. unfold keyed. clear. induction L as [|t L IH]; [done|].
    rewrite fmap_cons, !filter_cons. cbn. destruct (decide (f t)); cbn; by rewrite IH. }
  assert (increasing (filter (fun t => ¬ f t) L)) as Hs' by (by apply increasing_filter).
  assert (its = to_map (filter (fun t => ¬ f t) L)) as ->.
  { apply to_map_ext; [done|]. intros n t. rewrite Hits, list_elem_of_filter, to_map_lookup, Hperm by done.
    unfold keyed. rewrite list_elem_of_fmap. split.
    - intros [[Ht <-] Hno]. split_and!; [|done|done]. intros Hft. apply Hno. split; [by exists t|done].
    - intros [[Hno Ht] <-]. split; [done|]. tauto. }
  assert (Forall wf_tx (filter (fun t => ¬ f t) L)) as Hwf' by (by apply Forall_filter).
  case_bool_decide as Hlen; (split; [done|]).
  - destruct (heap_Init_spec nonce_less nonce_heap_trans nonce_heap_less
      (range (to_map (filter (fun t => ¬ f t) L))).*1) as [H1 H2].
    constructor; cbn; [done|done|done|done| |by left].
    rewrite H2, Hr, map_to_list_to_map by done. by rewrite keyed_fst.
  - assert (filter (fun t => f t) L = []) as Hnil
      by (apply Permutation_nil_r; rewrite <- Hrem; destruct removed; [done|cbn in Hlen; lia]).
    assert (filter (fun t => ¬ f t) L = L) as ->.
    { apply filter_all. apply Forall_forall. intros t Ht Hft.
      apply (not_elem_of_nil t). rewrite <- Hnil. by apply list_elem_of_filter. }
    by constructor.
Qed.

Lemma sort_index idx L : increasing L → idx ≡ₚ nonce <$> L → merge_sort Z.le idx = nonce <$> L.
Proof.
  intros Hs Hp. apply (StronglySorted_unique Z.le).
  - apply StronglySorted_merge_sort; [apply _|]. intros a b. lia.
  - clear Hp. induction L as [|t L IH]; [constructor|]. apply StronglySorted_cons in Hs as [Ht Hs].
    rewrite fmap_cons. apply StronglySorted_cons. split; [|by apply IH].
    apply Forall_fmap. eapply Forall_impl; [exact Ht|]. cbn. lia.
  - by rewrite merge_sort_Permutation.
Qed.

Lemma increasing_take n L : increasing L → increasing (take n L).
Proof. intros HL. eapply StronglySorted_sublist; [done|]. apply sublist_take. Qed.

Lemma delete_last_to_map l t : increasing (l ++ [t]) → delete (nonce t) (to_map (l ++ [t])) = to_map l.
Proof.
  intros Hl. rewrite delete_filter by done. f_equal. rewrite filter_app, filter_all.
  - rewrite filter_none by (by repeat constructor; intros []). apply app_nil_r.
  - apply Forall_forall. intros u Hu.
    pose proof (StronglySorted_app_1_elem_of _ l [t] u t Hl Hu ltac:(left)) as Hlt. cbn in Hlt. lia.
Qed.

Lemma cap_loop_spec k size L drops :
  increasing L → (k ≤ size)%nat → (size ≤ length L)%nat →
  cap_loop k (Z.of_nat size) (nonce <$> L) (to_map (take size L)) drops
  = (Ok (drops ++ (Some <$> reverse (drop (size - k) (take size L)))), to_map (take (size - k) L)).
Proof.
  revert size drops. induction k as [|k IH]; intros size drops Hs Hk Hsize; cbn [cap_loop].
  { rewrite Nat.sub_0_r, drop_ge by (rewrite length_take; lia). by rewrite app_nil_r. }
  destruct size as [|size]; [lia|]. rewrite (proj2 (Z.ltb_ge _ _)) by lia.
  replace (Z.of_nat (S size) - 1) with (Z.of_nat size) by lia. rewrite Nat2Z.id, list_lookup_fmap.
  destruct (L !! size) as [t|] eqn:Ht; [|apply lookup_ge_None in Ht; lia]. cbn [fmap option_fmap option_map].
  rewrite (take_S_r L size t Ht).
  assert (increasing (take size L ++ [t])) as Hs' by (rewrite <- (take_S_r L size t Ht); by apply increasing_take).
  rewrite delete_last_to_map by done. rewrite IH by (done || lia).
  assert (to_map (take size L ++ [t]) !! nonce t = Some t) as ->.
  { apply to_map_lookup; [done|]. split; [|done]. apply elem_of_app. right. left. }
  f_equal. f_equal. rewrite drop_app_le by (rewrite length_take; lia).
  rewrite reverse_app. cbn. by rewrite <- app_assoc.
Qed.

Lemma rep_Cap thr m L :
  rep m L → 0 <= thr →
  ∃ m', Cap thr m = (Ok (Some <$> reverse (drop (Z.to_nat thr) L)), m') ∧ rep m' (take (Z.to_nat thr) L).
Proof.
  intros Hrep Hthr. pose proof Hrep as [Hs Hwf Hi Hh Hx Hc]. unfold Cap. rewrite Hi, size_to_map by done.
  destruct (Z.of_nat (length L) <=? thr) eqn:Hle; [apply Z.leb_le in Hle|apply Z.leb_gt in Hle].
  { exists m. rewrite drop_ge, take_ge by lia. done. }
  rewrite (sort_index _ L Hs Hx).
  replace (to_map L) with (to_map (take (length L) L)) by (by rewrite take_ge).
  rewrite cap_loop_spec by (done || lia). rewrite take_ge by done.
  replace (length L - Z.to_nat (Z.of_nat (length L) - thr))%nat with (Z.to_nat thr) by lia.
  set (n := Z.to_nat thr). cbn [app]. rewrite <- fmap_take.
  destruct (heap_Init_spec nonce_less nonce_heap_trans nonce_heap_less (nonce <$> take n L)) as [H1 H2].
  assert (∀ c, c = None ∨ c = Some (take n L) →
    rep (mkSorted (to_map (take n L)) (heap_Init nonce_less (nonce <$> take n L)) c) (take n L)) as Hr.
  { intros c Hc'. constructor; cbn; [by apply increasing_take|by apply Forall_take|done|done|done|done]. }
  destruct Hc as [->| ->].
  - eexists. split; [done|]. apply Hr. by left.
  - rewrite length_fmap, length_reverse, length_drop, bool_decide_false by lia.
    eexists. split; [done|]. apply Hr. right. do 2 f_equal. lia.
Qed.

Lemma rep_Remove n m L :
  rep m L →
  ∃ m', Remove n m = (bool_decide (n ∈ nonce <$> L), m') ∧ rep m' (filter (fun t => nonce t ≠ n) L).
Proof.
  intros Hrep. pose proof Hrep as [Hs Hwf Hi Hh Hx Hc]. unfold Remove. rewrite Hi.
  destruct (to_map L !! n) as [t|] eqn:Ht.
  - apply to_map_lookup in Ht as [Ht <-]; [|done].
    rewrite bool_decide_true by (by apply list_elem_of_fmap_2). eexists. split; [done|].
    constructor; cbn; [by apply increasing_filter|by apply Forall_filter|by apply delete_filter| | |by left].
    all: unfold remove_index; destruct (list_find _ _) as [[i x]|] eqn:Hfind;
      [apply list_find_Some in Hfind as (Hix&Hxn&_)
      |apply list_find_None in Hfind; rewrite Forall_forall in Hfind; exfalso; apply (Hfind (nonce t));
       [rewrite Hx; by apply list_elem_of_fmap_2|done]].
    all: subst x; pose proof (lookup_lt_Some _ _ _ Hix) as Hlt;
      destruct (heap_Remove_spec nonce_less nonce_heap_trans nonce_heap_less i _ Hh Hlt) as [H1 H2].
    { done. }
    rewrite (list_lookup_total_correct _ _ _ Hix) in H2.
    apply (Permutation_cons_inv (a := nonce t)). rewrite <- H2, Hx.
    apply NoDup_Permutation.
    + by apply increasing_nodup.
    + apply NoDup_cons. split; [|by apply increasing_nodup, increasing_filter].
      intros (u&Hu&[Hne _]%list_elem_of_filter)%list_elem_of_fmap. done.
    + intros k. rewrite elem_of_cons, !list_elem_of_fmap. setoid_rewrite list_elem_of_filter. split.
      * intros (u&->&Hu). destruct (decide (nonce u = nonce t)); [by left|]. right. by exists u.
      * intros [->|(u&->&_&Hu)]; eauto.
  - pose proof (proj1 (to_map_None L n Hs) Ht) as Hnone. rewrite bool_decide_false.
    + exists m. split; [done|]. rewrite filter_all; [done|]. by apply Forall_forall.
    + intros (u&Hu&Hin)%list_elem_of_fmap. by apply (Hnone u).
Qed.

(** The longest prefix of consecutive nonces. *)
Fixpoint consecutive (next : Z) (L : Transactions) : Transactions * Transactions :=
  match L with
  | [] => ([], [])
  | t :: L' =>
      if nonce t =? next then let '(run, rest) := consecutive (next + 1) L' in (t :: run, rest)
      else ([], L)
  end.

Lemma consecutive_app next L : (consecutive next L).1 ++ (consecutive next L).2 = L.
Proof.
  revert next. induction L as [|t L IH]; intros next; [done|]. cbn.
  destruct (nonce t =? next); [|done]. specialize (IH (next + 1)).
  destruct (consecutive (next + 1) L) as [run rest]. cbn in *. by f_equal.
Qed.

Lemma ready_loop_spec fuel next idx L ready :
  increasing L → Forall wf_tx L → heap_ok nonce_less idx → idx ≡ₚ nonce <$> L →
  (length L ≤ fuel)%nat → 0 <= next < 2 ^ 64 →
  let '(run, rest) := consecutive next L in
  ∃ idx', ready_loop fuel next (to_map L) idx ready = (to_map rest, idx', ready ++ (Some <$> run))
          ∧ heap_ok nonce_less idx' ∧ idx' ≡ₚ nonce <$> rest.
Proof.
  revert next idx L ready. induction fuel as [|fuel IH]; intros next idx L ready Hs Hwf Hh Hp Hf Hn.
  { destruct L; [|cbn in Hf; lia]. exists idx. cbn. by rewrite app_nil_r. }
  destruct L as [|t L]; cbn [ready_loop consecutive].
  { assert (idx = []) as -> by (by apply Permutation_nil_r). exists []. cbn. by rewrite app_nil_r. }
  destruct (pop_first idx t L Hs Hh Hp) as (Hroot&idx'&Hpop&Hok&Hp'). rewrite Hpop, Hroot.
  pose proof Hs as Hs'. apply StronglySorted_cons in Hs' as [Ht Hs']. apply Forall_cons in Hwf as [Hwt Hwf].
  destruct (nonce t =? next) eqn:He; [|exists idx; cbn; by rewrite app_nil_r].
  apply Z.eqb_eq in He. subst next. rewrite delete_to_map, to_map_first by done.
  destruct L as [|u L].
  { assert (idx' = []) as -> by (by apply Permutation_nil_r). exists []. cbn. destruct fuel; done. }
  assert (u64 (nonce t + 1) = nonce t + 1 ∧ 0 <= nonce t + 1 < 2 ^ 64) as [-> Hn'].
  { apply Forall_cons in Ht as [Htu _]. apply Forall_cons in Hwf as [[_ Hu] _]. unfold in_u64 in Hu.
    assert (0 <= nonce t + 1 < 2 ^ 64) by lia. split; [by apply u64_id|done]. }
  specialize (IH (nonce t + 1) idx' (u :: L) (ready ++ [Some t]) Hs' Hwf Hok Hp' ltac:(cbn in *; lia) Hn').
  destruct (consecutive (nonce t + 1) (u :: L)) as [run rest].
  destruct IH as (idx2&Heq&H1&H2). exists idx2. rewrite Heq, <- app_assoc. done.
Qed.

(** [Ready] on lists: the consecutive run from the lowest nonce, if that is not
    above the start. *)
Definition ready_split (start : Z) (L : Transactions) : Transactions * Transactions :=
  match L with
  | [] => ([], [])
  | t :: _ => if start <? nonce t then ([], L) else consecutive (nonce t) L
  end.

Lemma rep_Ready start m L :
  rep m L → let '(run, rest) := ready_split start L in
  ∃ m', Ready start m = (Some <$> run, m') ∧ rep m' rest.
Proof.
  intros Hrep. pose proof Hrep as [Hs Hwf Hi Hh Hx Hc]. unfold Ready, ready_split.
  destruct L as [|t L].
  { apply Permutation_nil_r in Hx. rewrite Hx. by exists m. }
  destruct (pop_first (index m) t L Hs Hh Hx) as (Hroot&_).
  destruct (index m) as [|n idx] eqn:Eidx; [by apply Permutation_nil_l in Hx|].
  cbn in Hroot. subst n. destruct (start <? nonce t); [by exists m|].
  pose proof Hwf as Hwf'. apply Forall_cons in Hwf' as [[_ Ht] _].
  pose proof (ready_loop_spec (length (nonce t :: idx)) (nonce t) (nonce t :: idx) (t :: L) []
                Hs Hwf Hh Hx) as Hl.
  pose proof (consecutive_app (nonce t) (t :: L)) as Happ.
  destruct (consecutive (nonce t) (t :: L)) as [run rest]. cbn [fst snd] in Happ.
  destruct Hl as (idx'&Heq&H1&H2); [by rewrite (Permutation_length Hx), length_fmap|done|].
  rewrite Hi, Heq. eexists. split; [done|]. rewrite <- Happ in Hs, Hwf.
  constructor; cbn; [by eapply StronglySorted_app_1_r|by apply Forall_app in Hwf as [_ ?]|done|done|done|by left].
Qed.

Lemma rep_Flatten range m L :
  is_range range → rep m L → ∃ m', Flatten range m = (L, m') ∧ rep m' L.
Proof.
  intros Hr Hrep. pose proof Hrep as [Hs Hwf Hi Hh Hx Hc]. unfold Flatten.
  destruct Hc as [->| ->]; [|by exists m].
  assert (merge_sort nonce_le (range (items m)).*2 = L) as ->.
  { rewrite Hi. apply (StronglySorted_unique_strong nonce_le).
    - intros a b Ha Hb H1 H2. rewrite merge_sort_Permutation, Hr, (map_to_list_to_map L Hs), keyed_snd in Ha.
      apply (increasing_inj L); [done|done|done|].
      rewrite Forall_forall in Hwf. destruct (Hwf a Ha) as [Ta _]. destruct (Hwf b Hb) as [Tb _].
      unfold nonce_le, getNonce in *. rewrite Ta, Tb in *. cbn in *. unfold nonce, Nonce. lia.
    - apply StronglySorted_merge_sort; [intros a b c; unfold nonce_le; lia|intros a b; unfold nonce_le; lia].
    - clear -Hs Hwf. induction L as [|t L IH]; [constructor|].
      apply StronglySorted_cons in Hs as [Ht Hs]. apply Forall_cons in Hwf as [[Tt _] Hwf].
      apply StronglySorted_cons. split; [|by apply IH]. rewrite Forall_forall in *. intros u Hu.
      specialize (Ht u Hu). destruct (Hwf u Hu) as [Tu _]. unfold nonce_le, getNonce.
      rewrite Tt, Tu. cbn. unfold nonce, Nonce in Ht. lia.
    - rewrite merge_sort_Permutation, Hr, (map_to_list_to_map L Hs). by rewrite keyed_snd. }
  eexists. split; [done|]. constructor; cbn; try done. by right.
Qed.

(** ** The map refines the list *)

Inductive map_op :=
| OpGet (n : Z)
| OpPut (tx : Transaction)
| OpForward (threshold : Z)
| OpFilter (range : gmap Z Transaction → list (Z * Transaction)) (f : Transaction → bool)
| OpCap (threshold : Z)
| OpRemove (n : Z)
| OpReady (start : Z)
| OpLen
| OpFlatten (range : gmap Z Transaction → list (Z * Transaction)).

(** What an operation answers: transactions (or nils), a number, a truth value. *)
Inductive answer :=
| ATxs (l : list (option Transaction))
| ANum (n : nat)
| ABool (b : bool).

Definition op_ok (op : map_op) : Prop :=
  match op with
  | OpPut tx => wf_tx tx
  | OpCap threshold => 0 <= threshold
  | OpFilter range _ | OpFlatten range => is_range range
  | _ => True
  end.

Definition run_op (op : map_op) (m : txSortedMap) : result answer * txSortedMap :=
  match op with
  | OpGet n => (Ok (ATxs [Get n m]), m)
  | OpPut tx => (Ok (ATxs []), Put tx m)
  | OpForward t => let '(r, m) := Forward t m in (l ← r; Ok (ATxs l), m)
  | OpFilter range f => let '(l, m) := Filter range f m in (Ok (ATxs (Some <$> l)), m)
  | OpCap t => let '(r, m) := Cap t m in (l ← r; Ok (ATxs l), m)
  | OpRemove n => let '(b, m) := Remove n m in (Ok (ABool b), m)
  | OpReady s => let '(l, m) := Ready s m in (Ok (ATxs l), m)
  | OpLen => (Ok (ANum (Len m)), m)
  | OpFlatten range => let '(l, m) := Flatten range m in (Ok (ATxs (Some <$> l)), m)
  end.

(** The same operations on a list with increasing nonces. *)
Definition spec_op (op : map_op) (L : Transactions) : answer * Transactions :=
  match op with
  | OpGet n => (ATxs [list_find (fun t => nonce t = n) L ≫= fun p => Some p.2], L)
  | OpPut tx => (ATxs [], ins tx L)
  | OpForward t => (ATxs (Some <$> below t L), above t L)
  | OpFilter _ f => (ATxs (Some <$> filter (fun t => f t) L), filter (fun t => ¬ f t) L)
  | OpCap t => (ATxs (Some <$> reverse (drop (Z.to_nat t) L)), take (Z.to_nat t) L)
  | OpRemove n => (ABool (bool_decide (n ∈ nonce <$> L)), filter (fun t => nonce t ≠ n) L)
  | OpReady s => let '(run, rest) := ready_split s L in (ATxs (Some <$> run), rest)
  | OpLen => (ANum (length L), L)
  | OpFlatten _ => (ATxs (Some <$> L), L)
  end.

(** Only Filter leaves the order of its answer open. *)
Definition agrees (op : map_op) (a b : answer) : Prop :=
  match op, a, b with
  | OpFilter _ _, ATxs l, ATxs k => l ≡ₚ k
  | _, _, _ => a = b
  end.

Lemma find_to_map L n :
  increasing L → to_map L !! n = list_find (fun t => nonce t = n) L ≫= fun p => Some p.2.
Proof.
  intros Hs. apply option_eq. intros t. rewrite to_map_lookup by done. split.
  - intros [Ht Hn]. destruct (list_find_elem_of (fun u => nonce u = n) L t Ht Hn) as [[i u] Hi].
    rewrite Hi. cbn. f_equal. apply list_find_Some in Hi as (Hu&Hun&_).
    apply (increasing_inj L); [done|by eapply list_elem_of_lookup_2|done|congruence].
  - intros (u&Hu&[= <-])%bind_Some. destruct u as [i u]. apply list_find_Some in Hu as (Hu&Hun&_).
    split; [by eapply list_elem_of_lookup_2|done].
Qed.

Lemma run_op_rep op m L :
  rep m L → op_ok op →
  ∃ a m', run_op op m = (Ok a, m') ∧ agrees op a (spec_op op L).1 ∧ rep m' (spec_op op L).2.
Proof.
  intros Hrep Hok. destruct op as [n|tx|t|range f|t|n|s| |range]; cbn [run_op spec_op op_ok] in *.
  - eexists _, m. split_and!; [done| |done]. unfold Get. cbn. do 2 f_equal.
    rewrite (rep_items _ _ Hrep). apply find_to_map, Hrep.
  - eexists _, _. split_and!; [done|done|by apply rep_Put].
  - destruct (rep_Forward t m L Hrep) as (m'&->&Hm'). by eexists _, _.
  - pose proof (rep_Filter range f m L Hok Hrep) as HF. destruct (Filter range f m) as [removed m'].
    destruct HF as [Hr Hm']. eexists _, _. split_and!; [done| |done]. cbn. by rewrite Hr.
  - destruct (rep_Cap t m L Hrep Hok) as (m'&->&Hm'). by eexists _, _.
  - destruct (rep_Remove n m L Hrep) as (m'&->&Hm'). by eexists _, _.
  - pose proof (rep_Ready s m L Hrep) as HR. destruct (ready_split s L) as [run rest].
    destruct HR as (m'&->&Hm'). by eexists _, _.
  - eexists _, m. split_and!; [done| |done]. cbn. f_equal. unfold Len. rewrite (rep_items _ _ Hrep).
    apply size_to_map, Hrep.
  - destruct (rep_Flatten range m L Hok Hrep) as (m'&->&Hm'). by eexists _, _.
Qed.

Fixpoint run_ops (ops : list map_op) (m : txSortedMap) : list (result answer) * txSortedMap :=
  match ops with
  | [] => ([], m)
  | op :: ops =>
      let '(a, m) := run_op op m in
      let '(answers, m) := run_ops ops m in (a :: answers, m)
  end.
Fixpoint spec_ops (ops : list map_op) (L : Transactions) : list answer * Transactions :=
  match ops with
  | [] => ([], L)
  | op :: ops =>
      let '(a, L) := spec_op op L in
      let '(answers, L) := spec_ops ops L in (a :: answers, L)
  end.

Lemma run_ops_rep ops m L :
  rep m L → Forall op_ok ops →
  Forall3 (fun op a b => ∃ a', a = Ok a' ∧ agrees op a' b) ops (run_ops ops m).1 (spec_ops ops L).1
  ∧ rep (run_ops ops m).2 (spec_ops ops L).2.
Proof.
  revert m L. induction ops as [|op ops IH]; intros m L Hrep Hok; [split; [constructor|done]|].
  apply Forall_cons in Hok as [Hop Hok]. cbn [run_ops spec_ops].
  destruct (run_op_rep op m L Hrep Hop) as (a&m'&->&Hag&Hrep').
  destruct (spec_op op L) as [b L']. destruct (IH m' L' Hrep' Hok) as [H1 H2].
  destruct (run_ops ops m') as [answers m2], (spec_ops ops L') as [answers' L2].
  split; [constructor; [by eexists|done]|done].
Qed.

(** C18: the nonce-indexed map implements a list of transactions with strictly
    increasing nonces: for every sequence of operations from the empty map, in
    whatever order Go iterates maps, no operation panics or returns a nil
    transaction for a stored one, each answers what the list operation answers
    (up to the order of Filter's result), and the items, the heap index and the
    cached order keep describing that list. *)
Theorem txSortedMap_refines ops :
  Forall op_ok ops →
  Forall3 (fun op a b => ∃ a', a = Ok a' ∧ agrees op a' b) ops
    (run_ops ops newTxSortedMap).1 (spec_ops ops []).1
  ∧ rep (run_ops ops newTxSortedMap).2 (spec_ops ops []).2.
Proof. apply run_ops_rep, rep_new. Qed.

Definition with_nonce (n price : Z) : Transaction := priced 1 n price.
Lemma with_nonce_wf n price : in_u64 n → wf_tx (with_nonce n price).
Proof. by split. Qed.
Definition some_ops : list map_op :=
  [OpPut (with_nonce 7 1); OpPut (with_nonce 3 1); OpPut (with_nonce 4 1); OpFlatten map_to_list;
   OpForward 4; OpPut (with_nonce 5 2); OpFilter map_to_list (fun t => 1 <? Price (data (EvmTx t)));
   OpCap 1; OpReady 4; OpLen].

Lemma txSortedMap_refines_witness :
  Forall3 (fun op a b => ∃ a', a = Ok a' ∧ agrees op a' b) some_ops
    (run_ops some_ops newTxSortedMap).1 (spec_ops some_ops []).1
  ∧ rep (run_ops some_ops newTxSortedMap).2 (spec_ops some_ops []).2.
Proof.
  apply txSortedMap_refines. unfold some_ops.
  repeat (apply Forall_cons; split;
    [cbn; first [done | lia | (unfold wf_tx, in_u64; cbn; lia) | (intros ?; done)]|]).
  constructor.
Defined.

(** ** txList *)

(** The caps bound what the list holds. *)
Definition capped (costs : gmap Z Z) (gas : Z) (L : Transactions) : Prop :=
  Forall (fun t => Cost (EvmTx t) <= default 0 (costs !! TransferTokenID (EvmTx t))
                   ∧ Gas (EvmTx t) <= gas) L.

(** Consecutive nonces. *)
Definition contiguous (L : Transactions) : Prop :=
  ∀ i a b, L !! i = Some a → L !! S i = Some b → nonce b = nonce a + 1.

Lemma contiguous_app_l L K : contiguous (L ++ K) → contiguous L.
Proof. intros HL i a b Ha Hb. by apply (HL i); apply lookup_app_l_Some. Qed.
Lemma contiguous_app_r L K : contiguous (L ++ K) → contiguous K.
Proof.
  intros HL i a b Ha Hb. apply (HL (length L + i)%nat).
  - by rewrite lookup_app_r, Nat.add_comm, Nat.add_sub by lia.
  - rewrite lookup_app_r by lia. by replace (S (length L + i) - length L)%nat with (S i) by lia.
Qed.

Lemma lookup_with_zero token t caps :
  default 0 (with_zero token caps !! t) = default 0 (caps !! t).
Proof.
  unfold with_zero. destruct (caps !! token) eqn:E; [done|].
  destruct (decide (t = token)) as [->|]; [by rewrite lookup_insert_eq, E|by rewrite lookup_insert_ne].
Qed.

Lemma capped_caps caps caps' gas L :
  (∀ t, default 0 (caps' !! t) = default 0 (caps !! t)) → capped caps gas L → capped caps' gas L.
Proof. intros Heq HL. eapply Forall_impl; [exact HL|]. intros t. cbn. by rewrite Heq. Qed.

Record list_rep (l : txList) (L : Transactions) : Prop := {
  lrep_txs : rep (l_txs l) L;
  lrep_capped : capped (costcap l) (gascap l) L;
}.

Lemma list_rep_new s : list_rep (newTxList s) [].
Proof. constructor; [apply rep_new|constructor]. Qed.

Lemma list_rep_sub l L L' m :
  list_rep l L → rep m L' → (∀ t, t ∈ L' → t ∈ L) → list_rep (with_txs m l) L'.
Proof.
  intros [_ Hc] Hm Hsub. constructor; [done|]. unfold capped in *. cbn.
  rewrite Forall_forall in *. intros t Ht. by apply Hc, Hsub.
Qed.

(** The loop over the balances: whether some token's cap is covered. *)
Lemma covered_loop_spec todo gasLimit l :
  let '(c, l') := covered_loop todo gasLimit l in
  strict l' = strict l ∧ l_txs l' = l_txs l ∧ gascap l' = gascap l
  ∧ (∀ t, default 0 (costcap l' !! t) = default 0 (costcap l !! t))
  ∧ (c = true ↔ ∃ token bal, (token, bal) ∈ todo
       ∧ default 0 (costcap l !! token) <= bal ∧ gascap l <= gasLimit).
Proof.
  revert l. induction todo as [|[token bal] todo IH]; intros l; cbn [covered_loop].
  { split_and!; [done|done|done|done|]. split; [done|].
    intros (tk&b&Hin&_). by apply not_elem_of_nil in Hin. }
  unfold cmpCostCapValue. rewrite lookup_with_zero.
  set (l1 := mkList (strict l) (l_txs l) (with_zero token (costcap l)) (gascap l)).
  destruct (Z.compare_spec (default 0 (costcap l !! token)) bal) as [Hc|Hc|Hc];
    [destruct (gascap l1 <=? gasLimit) eqn:Hg..|].
  1,3: apply Z.leb_le in Hg; split_and!; try done; [intros t; apply lookup_with_zero|];
       split; [intros _|done]; exists token, bal; split_and!; [by left|lia|done].
  all: specialize (IH l1); destruct (covered_loop todo gasLimit l1) as [c l'];
    destruct IH as (-> & -> & -> & Hcaps & Hiff); split_and!; [done|done|done| |];
    [intros t; rewrite Hcaps; apply lookup_with_zero|];
    rewrite Hiff; cbn [gascap l1 costcap]; setoid_rewrite lookup_with_zero;
    setoid_rewrite elem_of_cons; split;
    [intros (tk&b&Hin&H1&H2); exists tk, b; split_and!; [by right|done|done]
    |intros (tk&b&[[= -> ->]|Hin]&H1&H2); [|by exists tk, b]].
  1,2: apply Z.leb_gt in Hg; cbn in Hg; lia.
  lia.
Qed.

Lemma lowest_nonce_spec removed :
  Forall wf_tx removed → removed ≠ [] →
  (∃ t, t ∈ removed ∧ nonce t = lowest_nonce removed)
  ∧ ∀ t, t ∈ removed → lowest_nonce removed <= nonce t.
Proof.
  unfold lowest_nonce. set (f := fun lowest tx => if nonce tx <? lowest then nonce tx else lowest).
  assert (∀ l a, (foldl f a l = a ∨ ∃ t, t ∈ l ∧ nonce t = foldl f a l)
                 ∧ foldl f a l <= a ∧ ∀ t, t ∈ l → foldl f a l <= nonce t) as Hg.
  { induction l as [|x l IH]; intros a; cbn [foldl].
    - split_and!; [by left|lia|]. intros t Ht. by apply not_elem_of_nil in Ht.
    - destruct (IH (f a x)) as (H1&H2&H3).
      assert (f a x <= a ∧ f a x <= nonce x ∧ (f a x = a ∨ f a x = nonce x)) as (Fa&Fx&Fc)
        by (unfold f; destruct (nonce x <? a) eqn:E; [apply Z.ltb_lt in E|apply Z.ltb_ge in E]; lia).
      split_and!; [|lia|].
      + destruct H1 as [H1|(t&Ht&Hn)]; [|right; exists t; split; [by right|done]].
        destruct Fc as [Fc|Fc]; [left; congruence|right; exists x; split; [by left|congruence]].
      + intros t [->|Ht]%elem_of_cons; [lia|by apply H3]. }
  intros Hwf Hne. destruct (Hg removed max_u64) as (H1&H2&H3). split; [|done].
  destruct H1 as [H1|H1]; [|done]. destruct removed as [|x removed]; [done|].
  exists x. split; [left|]. specialize (H3 x ltac:(left)).
  apply Forall_cons in Hwf as [[_ Hx] _]. unfold in_u64, max_u64 in *. lia.
Qed.

Lemma lookup_zero_caps todo caps t : default 0 (zero_caps todo caps !! t) = default 0 (caps !! t).
Proof.
  unfold zero_caps. revert caps. induction todo as [|e todo IH]; intros caps; [done|]. cbn.
  rewrite IH. apply lookup_with_zero.
Qed.

Lemma filter_partition {A} (P : A → Prop) `{!∀ x, Decision (P x)} l :
  filter P l ++ filter (fun x => ¬ P x) l ≡ₚ l.
Proof.
  induction l as [|x l IH]; [done|]. rewrite !filter_cons.
  destruct (decide (P x)) as [Hb|Hb]; [rewrite decide_False by tauto|rewrite decide_True by done].
  - cbn. by rewrite IH.
  - rewrite <- Permutation_middle. by rewrite IH.
Qed.

(** What a full Filter keeps: in strict mode everything from the lowest removed
    nonce on goes. *)
Definition kept (strict : bool) (bad : Transaction → bool) (L : Transactions) : Transactions :=
  if strict && bool_decide (filter (fun t => bad t) L ≠ [])
  then below (lowest_nonce (filter (fun t => bad t) L)) L
  else filter (fun t => ¬ bad t) L.

Lemma lowest_nonce_perm l k :
  Forall wf_tx l → l ≡ₚ k → l ≠ [] → lowest_nonce l = lowest_nonce k.
Proof.
  intros Hwf Hp Hne. assert (Forall wf_tx k) as Hwk by (by rewrite <- Hp).
  assert (k ≠ []) as Hnk by (intros ->; by apply Permutation_nil_r in Hp).
  destruct (lowest_nonce_spec l Hwf Hne) as ((a&Ha&Hna)&Hla).
  destruct (lowest_nonce_spec k Hwk Hnk) as ((b&Hb&Hnb)&Hlb).
  assert (a ∈ k) by (by rewrite <- Hp). assert (b ∈ l) by (by rewrite Hp).
  specialize (Hla b ltac:(done)). specialize (Hlb a ltac:(done)). lia.
Qed.

(** The second filter of strict mode leaves the prefix below the lowest removed
    nonce. *)
Lemma strict_rest (bad : Transaction → bool) L lowest :
  increasing L → (∃ t, t ∈ L ∧ bad t ∧ nonce t = lowest) →
  (∀ t, t ∈ L → bad t → lowest <= nonce t) →
  filter (fun t => ¬ (lowest <? nonce t)) (filter (fun t => ¬ bad t) L) = below lowest L.
Proof.
  intros Hs (t0&Ht0&Hb0&Hn0) Hlow. rewrite list_filter_filter. apply filter_ext_Forall.
  apply Forall_forall. intros t Ht. split.
  - intros [Hle Hb]. destruct (lowest <? nonce t) eqn:E; [by destruct Hle|]. apply Z.ltb_ge in E.
    destruct (decide (nonce t = lowest)) as [Heq|]; [|lia]. exfalso. apply Hb.
    by rewrite (increasing_inj L t t0) by (done || lia).
  - intros Hlt. rewrite (proj2 (Z.ltb_ge _ _)) by lia. split; [by intros []|].
    intros Hb. specialize (Hlow t Ht Hb). lia.
Qed.

Lemma kept_sub s bad L t : t ∈ kept s bad L → t ∈ L.
Proof. unfold kept. destruct (s && _); intros [_ Ht]%list_elem_of_filter; done. Qed.

Lemma kept_good s (bad : Transaction → bool) L : increasing L → Forall wf_tx L → Forall (fun t => ¬ bad t) (kept s bad L).
Proof.
  intros Hs Hwf. apply Forall_forall. intros t. unfold kept.
  destruct s; cbn [andb]; [|by intros [Ht _]%list_elem_of_filter].
  case_bool_decide as Hne; [|by intros [Ht _]%list_elem_of_filter].
  intros [Hlt Ht]%list_elem_of_filter Hb.
  destruct (lowest_nonce_spec (filter (fun t => bad t) L)) as [_ Hlow]; [by apply Forall_filter|done|].
  specialize (Hlow t). rewrite list_elem_of_filter in Hlow. specialize (Hlow ltac:(done)). lia.
Qed.

Lemma list_Filter_rep brange range range' costLimit gasLimit l L :
  is_range brange → is_range range → is_range range' → list_rep l L →
  let '(removed, invalids, l') := list_Filter brange range range' costLimit gasLimit l in
  strict l' = strict l
  ∧ (removed = [] ∧ invalids = [] ∧ list_rep l' L
     ∧ (∃ token bal, costLimit !! token = Some bal
          ∧ default 0 (costcap l !! token) <= bal ∧ gascap l <= gasLimit)
     ∨ removed ≡ₚ filter (fun t => unpayable costLimit gasLimit t) L
       ∧ list_rep l' (kept (strict l) (unpayable costLimit gasLimit) L)
       ∧ removed ++ invalids ++ kept (strict l) (unpayable costLimit gasLimit) L ≡ₚ L).
Proof.
  intros Hbr Hr Hr' [Hrep Hcap]. unfold list_Filter.
  pose proof (covered_loop_spec (brange costLimit) gasLimit l) as Hcov.
  destruct (covered_loop (brange costLimit) gasLimit l) as [c l1].
  destruct Hcov as (Hst&Htx&Hg&Hcaps&Hiff). destruct c.
  { split; [done|]. left. split_and!; [done|done| |].
    - constructor; [by rewrite Htx|]. rewrite Hg. by eapply capped_caps.
    - destruct (proj1 Hiff eq_refl) as (token&bal&Hin&Hc&Hgl). exists token, bal.
      rewrite Hbr in Hin. by apply elem_of_map_to_list in Hin. }
  clear Hiff. set (bad := unpayable costLimit gasLimit). rewrite Htx, Hst.
  pose proof (rep_Filter range bad (l_txs l) L Hr Hrep) as HF.
  destruct (Filter range bad (l_txs l)) as [removed m]. destruct HF as [Hrem Hm].
  pose proof (rep_sorted _ _ Hrep) as Hs. pose proof (rep_wf _ _ Hrep) as Hwf.
  assert (∀ m' caps, rep m' (kept (strict l) bad L) → (∀ t, default 0 (caps !! t) = default 0 (costLimit !! t)) →
    list_rep (mkList (strict l) m' caps gasLimit) (kept (strict l) bad L)) as Hdone.
  { intros m' caps Hm' Hc'. constructor; [done|]. cbn. apply (capped_caps costLimit); [done|].
    eapply Forall_impl; [by apply kept_good|]. intros t Ht. unfold bad, unpayable in Ht.
    destruct (_ <? Cost (EvmTx t)) eqn:E1 in Ht; [by destruct Ht|].
    destruct (gasLimit <? Gas (EvmTx t)) eqn:E2 in Ht; [by destruct Ht|].
    apply Z.ltb_ge in E1, E2. done. }
  assert (bool_decide (0 < length removed)%nat = bool_decide (filter (fun t => bad t) L ≠ [])) as ->.
  { apply bool_decide_ext. rewrite Hrem. destruct (filter (fun t => bad t) L); cbn; split; (lia || done). }
  destruct (strict l && bool_decide (filter (fun t => bad t) L ≠ [])) eqn:Hcase.
  - pose proof (rep_Filter range' (fun tx => lowest_nonce removed <? nonce tx) m _ Hr' Hm) as HF2.
    destruct (Filter range' _ m) as [invalids m']. destruct HF2 as [Hinv Hm'].
    split; [done|]. right. split; [done|]. apply andb_true_iff in Hcase as [Hstr Hne].
    pose proof Hne as Hne'. apply bool_decide_eq_true in Hne'.
    assert (Forall wf_tx (filter (fun t => bad t) L)) as Hwb by (by apply Forall_filter).
    destruct (lowest_nonce_spec _ Hwb Hne') as ((t0&Ht0&Hn0)&Hlow).
    assert (lowest_nonce removed = lowest_nonce (filter (fun t => bad t) L)) as Hlr.
    { apply lowest_nonce_perm; [by rewrite Hrem|done|]. intros ->. by apply Permutation_nil_l in Hrem. }
    rewrite Hlr in Hm'. rewrite Hlr in Hinv.
    assert (∃ t, t ∈ L ∧ bad t ∧ nonce t = lowest_nonce (filter (fun t => bad t) L)) as Hex
      by (apply list_elem_of_filter in Ht0 as [Hb0 Ht0]; by exists t0).
    assert (∀ t, t ∈ L → bad t → lowest_nonce (filter (fun t => bad t) L) <= nonce t) as Hlow'
      by (intros t Ht Hb; apply Hlow; by apply list_elem_of_filter).
    rewrite strict_rest in Hm' by done.
    assert (kept (strict l) bad L = below (lowest_nonce (filter (fun t => bad t) L)) L) as Hk
        by (unfold kept; by rewrite Hstr, Hne).
      rewrite Hk in *. split; [by apply Hdone; [|intros t; apply lookup_zero_caps]|].
      rewrite Hrem, Hinv, <- (strict_rest bad L _ Hs Hex Hlow'), filter_partition. apply filter_partition.
  - assert (kept (strict l) bad L = filter (fun t => ¬ bad t) L) as Hk by (unfold kept; by rewrite Hcase).
    rewrite Hk in *. split; [done|]. right. split_and!; [done|by apply Hdone; [|intros t; apply lookup_zero_caps]|].
    cbn. rewrite Hrem. apply filter_partition.
Qed.

Lemma list_Add_rep tx priceBump l L :
  list_rep l L → wf_tx tx →
  let old := list_find (fun t => nonce t = nonce tx) L ≫= fun p => Some p.2 in
  let '(accepted, replaced, l') := list_Add tx priceBump l in
  strict l' = strict l
  ∧ (accepted = true ↔ ∀ o, old = Some o →
       GasPrice (EvmTx o) < GasPrice (EvmTx tx) ∧ bumped (GasPrice (EvmTx o)) priceBump <= GasPrice (EvmTx tx))
  ∧ if accepted then replaced = old ∧ list_rep l' (ins tx L) else replaced = None ∧ l' = l.
Proof.
  intros [Hrep Hcap] Hwf. cbn zeta. rewrite <- find_to_map by apply Hrep.
  unfold list_Add, Get. rewrite (rep_items _ _ Hrep). set (old := to_map L !! nonce tx).
  set (rejected := match old with Some o => _ | None => false end).
  assert (rejected = false ↔ ∀ o, old = Some o → GasPrice (EvmTx o) < GasPrice (EvmTx tx)
    ∧ bumped (GasPrice (EvmTx o)) priceBump <= GasPrice (EvmTx tx)) as Hrej.
  { unfold rejected. destruct old as [o|]; [|by split].
    rewrite orb_false_iff, Z.leb_gt, Z.ltb_ge. split; [intros ? o' [= <-]; done|by intros Ho; apply Ho]. }
  destruct rejected; [split_and!; [done| |done|done]; rewrite <- Hrej; by split|].
  cbn [with_txs cmpCostCapValue costcap strict l_txs gascap]. split_and!; [done|by rewrite <- Hrej|done|].
  constructor; [by apply rep_Put|]. cbn [costcap gascap]. rewrite lookup_with_zero.
  set (token := TransferTokenID (EvmTx tx)). set (cost := Cost (EvmTx tx)).
  set (caps := match _ ?= _ with Lt => _ | _ => _ end).
  assert (∀ t, default 0 (costcap l !! t) <= default 0 (caps !! t)
               ∧ (t = token → cost <= default 0 (caps !! t))) as Hcaps.
  { intros t. unfold caps. destruct (Z.compare_spec (default 0 (costcap l !! token)) cost) as [Hc|Hc|Hc].
    1,3: rewrite lookup_with_zero; split; [done|intros ->; lia].
    destruct (decide (t = token)) as [->|]; [rewrite lookup_insert_eq; cbn; split; [lia|done]|].
    rewrite lookup_insert_ne, lookup_with_zero by done. split; [lia|done]. }
  apply Forall_forall. intros t [->|[Ht _]]%elem_of_ins.
  - split; [by apply Hcaps|]. destruct (gascap l <? Gas (EvmTx tx)) eqn:E; [done|by apply Z.ltb_ge in E].
  - unfold capped in Hcap. rewrite Forall_forall in Hcap. destruct (Hcap t Ht) as [H1 H2].
    destruct (Hcaps (TransferTokenID (EvmTx t))) as [H3 _]. split; [lia|].
    destruct (gascap l <? Gas (EvmTx tx)) eqn:E; [apply Z.ltb_lt in E; lia|done].
Qed.

(** A pool's list takes a transaction exactly when its nonce is free or its
    price beats the old price and reaches the bumped price; it then stands at
    its nonce in place of the old one, which is returned, and the caps still
    bound every transaction held.  A rejected transaction changes nothing. *)
Theorem txList_Add_correct tx priceBump l L :
  list_rep l L → wf_tx tx →
  let old := list_find (fun t => nonce t = nonce tx) L ≫= fun p => Some p.2 in
  let '(accepted, replaced, l') := list_Add tx priceBump l in
  strict l' = strict l
  ∧ (accepted = true ↔ ∀ o, old = Some o →
       GasPrice (EvmTx o) < GasPrice (EvmTx tx) ∧ bumped (GasPrice (EvmTx o)) priceBump <= GasPrice (EvmTx tx))
  ∧ if accepted then replaced = old ∧ list_rep l' (ins tx L) else replaced = None ∧ l' = l.
Proof. apply list_Add_rep. Qed.

Lemma txList_Add_witness :
  let '(accepted, replaced, l') := list_Add (with_nonce 3 7) 10 (newTxList true) in
  accepted = true ∧ replaced = None ∧ list_rep l' [with_nonce 3 7].
Proof.
  pose proof (txList_Add_correct (with_nonce 3 7) 10 (newTxList true) [] (list_rep_new true)) as H.
  destruct (list_Add (with_nonce 3 7) 10 (newTxList true)) as [[accepted replaced] l'].
  destruct H as (_&Hacc&H); [by apply with_nonce_wf|].
  assert (accepted = true) as -> by (by apply Hacc). done.
Defined.

(** Where the balances given to Filter are of the one token the list's
    transactions transfer, Filter removes exactly the transactions the balance
    or the gas limit does not cover (and, in strict mode, all above the lowest
    of them), returns every transaction it removed, and what is left is
    payable. *)
Theorem txList_Filter_correct brange range range' costLimit gasLimit l L :
  is_range brange → is_range range → is_range range' → list_rep l L →
  (∀ token t, is_Some (costLimit !! token) → t ∈ L → TransferTokenID (EvmTx t) = token) →
  let '(removed, invalids, l') := list_Filter brange range range' costLimit gasLimit l in
  let L' := kept (strict l) (unpayable costLimit gasLimit) L in
  removed ≡ₚ filter (fun t => unpayable costLimit gasLimit t) L
  ∧ removed ++ invalids ++ L' ≡ₚ L
  ∧ list_rep l' L' ∧ Forall (fun t => ¬ unpayable costLimit gasLimit t) L'.
Proof.
  intros Hbr Hr Hr' Hrep Hone.
  pose proof (list_Filter_rep brange range range' costLimit gasLimit l L Hbr Hr Hr' Hrep) as HF.
  destruct (list_Filter brange range range' costLimit gasLimit l) as [[removed invalids] l'].
  pose proof (rep_sorted _ _ (lrep_txs _ _ Hrep)) as Hs. pose proof (rep_wf _ _ (lrep_txs _ _ Hrep)) as Hwf.
  destruct HF as [_ [(->&->&Hl'&token&bal&Hbal&Hcap&Hgas)|(H1&H2&H3)]];
    [|split_and!; [done|done|done|by apply kept_good]].
  assert (Forall (fun t => ¬ unpayable costLimit gasLimit t) L) as Hall.
  { destruct Hrep as [_ Hc]. unfold capped in Hc. rewrite Forall_forall in *. intros t Ht.
    destruct (Hc t Ht) as [Hct Hgt]. pose proof (Hone token t (ex_intro _ bal Hbal) Ht) as Htok.
    rewrite Htok in Hct. unfold unpayable. rewrite Htok, Hbal. cbn [default from_option id].
    rewrite (proj2 (Z.ltb_ge _ _)), (proj2 (Z.ltb_ge _ _)) by lia. by intros []. }
  assert (filter (fun t => unpayable costLimit gasLimit t) L = []) as Hnone by (by apply filter_none).
  assert (kept (strict l) (unpayable costLimit gasLimit) L = L) as Hk.
  { unfold kept. rewrite Hnone, bool_decide_false, andb_false_r by (intros Hn; by apply Hn). by apply filter_all. }
  rewrite Hk, Hnone. done.
Qed.

Definition three_txs : txList :=
  foldl (fun l n => (list_Add (with_nonce n (n * 10)) 10 l).2) (newTxList true) [1; 2; 3].

Lemma three_txs_rep : list_rep three_txs [with_nonce 1 10; with_nonce 2 20; with_nonce 3 30].
Proof.
  constructor; [constructor|].
  - by repeat constructor.
  - repeat (apply Forall_cons; split; [by apply with_nonce_wf|]). constructor.
  - vm_compute. reflexivity.
  - intros p c _ Hc Hlen _. change (length (index (l_txs three_txs))) with 3%nat in Hlen.
    assert (p = 0%nat ∧ (c = 1 ∨ c = 2)%nat) as [-> [->| ->]] by (unfold child in Hc; lia); done.
  - vm_compute. reflexivity.
  - by left.
  - repeat constructor; vm_compute; by intros.
Qed.

Lemma txList_Filter_witness :
  let limit := <[0 := 21000 * 15]> ∅ in
  let '(removed, invalids, l') := list_Filter map_to_list map_to_list map_to_list limit 30000 three_txs in
  let L' := kept true (unpayable limit 30000) [with_nonce 1 10; with_nonce 2 20; with_nonce 3 30] in
  removed ≡ₚ filter (fun t => unpayable limit 30000 t) [with_nonce 1 10; with_nonce 2 20; with_nonce 3 30]
  ∧ removed ++ invalids ++ L' ≡ₚ [with_nonce 1 10; with_nonce 2 20; with_nonce 3 30]
  ∧ list_rep l' L' ∧ Forall (fun t => ¬ unpayable limit 30000 t) L'.
Proof.
  apply (txList_Filter_correct map_to_list map_to_list map_to_list _ 30000 three_txs);
    [by intros ?|by intros ?|by intros ?|apply three_txs_rep|].
  intros token t [b Hb] Ht. apply lookup_insert_Some in Hb as [[<- _]|[_ Hb]]; [|by rewrite lookup_empty in Hb].
  repeat (apply elem_of_cons in Ht as [->|Ht]; [done|]). by apply not_elem_of_nil in Ht.
Defined.

Definition token_tx (token n amount : Z) : Transaction :=
  mkTx 0 (newEvmTransaction n None amount 21000 0 0 0 0 0 [] 0 token).

(** With balances in two tokens Filter can keep a transaction its account
    cannot pay: it returns at the first token whose cap is covered, although a
    transaction of another token costs more than the balance in that token.
    This holds for every order in which Go iterates the balances. *)
Theorem txList_Filter_keeps_unpayable :
  ∃ l L costLimit t, list_rep l L ∧ t ∈ L ∧ unpayable costLimit 30000 t
  ∧ ∀ brange range range', is_range brange →
    ∃ l', list_Filter brange range range' costLimit 30000 l = ([], [], l') ∧ list_rep l' L.
Proof.
  set (t := token_tx 2 0 100). set (l := (list_Add t 10 (newTxList true)).2).
  exists l, [t], (<[1 := 5]> (<[2 := 0]> ∅)), t.
  assert (list_rep l [t]) as Hl.
  { pose proof (list_Add_rep t 10 (newTxList true) [] (list_rep_new true)) as H. unfold l.
    destruct (list_Add t 10 (newTxList true)) as [[accepted replaced] l1].
    destruct H as (_&Hacc&H); [by split|]. assert (accepted = true) as -> by (by apply Hacc). apply H. }
  split_and!; [done|by left|done|]. intros brange range range' Hbr. unfold list_Filter.
  pose proof (covered_loop_spec (brange (<[1 := 5]> (<[2 := 0]> ∅))) 30000 l) as Hc.
  destruct (covered_loop _ 30000 l) as [c l']. destruct Hc as (_&Htx&Hg&Hcaps&Hiff).
  assert (c = true) as ->.
  { apply Hiff. exists 1, 5. rewrite Hbr. split; [by apply elem_of_map_to_list|]. by vm_compute. }
  exists l'. split; [done|]. destruct Hl as [Hr Hcap].
  constructor; [by rewrite Htx|]. rewrite Hg. by eapply capped_caps.
Qed.

Inductive list_op :=
| LAdd (tx : Transaction) (priceBump : Z)
| LForward (threshold : Z)
| LFilter (brange : gmap Z Z → list (Z * Z)) (range range' : gmap Z Transaction → list (Z * Transaction))
    (costLimit : gmap Z Z) (gasLimit : Z)
| LCap (threshold : Z)
| LRemove (range : gmap Z Transaction → list (Z * Transaction)) (tx : Transaction)
| LReady (start : Z)
| LFlatten (range : gmap Z Transaction → list (Z * Transaction)).

Definition run_list_op (op : list_op) (l : txList) : result unit * txList :=
  match op with
  | LAdd tx bump => (Ok tt, (list_Add tx bump l).2)
  | LForward t => let '(r, l) := list_Forward t l in (_ ← r; Ok tt, l)
  | LFilter b r r' c g => (Ok tt, (list_Filter b r r' c g l).2)
  | LCap t => let '(r, l) := list_Cap t l in (_ ← r; Ok tt, l)
  | LRemove r tx => (Ok tt, (list_Remove r tx l).2)
  | LReady s => (Ok tt, (list_Ready s l).2)
  | LFlatten r => (Ok tt, (list_Flatten r l).2)
  end.

(** A strict list only gets a transaction at a nonce it holds, or the next. *)
Definition list_op_ok (s : bool) (op : list_op) (L : Transactions) : Prop :=
  match op with
  | LAdd tx _ => wf_tx tx ∧ (s = true → L = [] ∨ nonce tx ∈ nonce <$> L
                            ∨ ∃ t, last L = Some t ∧ nonce tx = nonce t + 1)
  | LFilter b r r' _ _ => is_range b ∧ is_range r ∧ is_range r'
  | LCap t => 0 <= t
  | LRemove r _ | LFlatten r => is_range r
  | _ => True
  end.

(** The list is represented, capped, and contiguous if strict. *)
Definition list_inv (s : bool) (l : txList) (L : Transactions) : Prop :=
  strict l = s ∧ list_rep l L ∧ (s = true → contiguous L).

Lemma contiguous_nonces L K : nonce <$> L = nonce <$> K → contiguous K → contiguous L.
Proof.
  intros Heq HK i a b Ha Hb.
  assert (∀ j x, L !! j = Some x → ∃ y, K !! j = Some y ∧ nonce y = nonce x) as Hget.
  { intros j x Hx. assert ((nonce <$> K) !! j = Some (nonce x)) as Hk
      by (rewrite <- Heq, list_lookup_fmap, Hx; done).
    rewrite list_lookup_fmap in Hk. apply fmap_Some in Hk as (y&Hy&Hn). by exists y. }
  destruct (Hget i a Ha) as (a'&Ha'&<-). destruct (Hget (S i) b Hb) as (b'&Hb'&<-). by apply (HK i).
Qed.

Lemma contiguous_below thr L : increasing L → contiguous L → contiguous (below thr L).
Proof. intros Hs HL. rewrite (filter_increasing_split L thr Hs) in HL. by eapply contiguous_app_l. Qed.
Lemma contiguous_above thr L : increasing L → contiguous L → contiguous (above thr L).
Proof. intros Hs HL. rewrite (filter_increasing_split L thr Hs) in HL. by eapply contiguous_app_r. Qed.

Lemma contiguous_ins tx L :
  increasing L → contiguous L →
  L = [] ∨ nonce tx ∈ nonce <$> L ∨ (∃ t, last L = Some t ∧ nonce tx = nonce t + 1) →
  contiguous (ins tx L).
Proof.
  intros Hs HL [->|[Hin|(t&Hlast&Hn)]].
  - intros [|i] a b Ha Hb; cbn in *; done.
  - eapply contiguous_nonces; [|exact HL].
    rewrite <- (sort_index (nonce <$> ins tx L) L Hs); [by rewrite (sort_index _ _ (increasing_ins tx L Hs))|].
    apply nonces_perm; [by apply increasing_ins|done|]. intros n. rewrite list_elem_of_fmap.
    setoid_rewrite elem_of_ins. split.
    + intros (u&->&[->|[Hu _]]); [done|]. by apply list_elem_of_fmap_2.
    + intros (u&->&Hu)%list_elem_of_fmap. destruct (decide (nonce u = nonce tx)); [exists tx; auto|exists u; auto].
  - apply last_Some in Hlast as [K ->]. assert (Forall (fun u => nonce u < nonce tx) (K ++ [t])) as Hall.
    { apply Forall_forall. intros u [Hu|Hu%list_elem_of_singleton]%elem_of_app; [|subst; lia].
      pose proof (StronglySorted_app_1_elem_of _ K [t] u t Hs Hu ltac:(left)) as Hlt. cbn beta in Hlt. lia. }
    unfold ins. rewrite filter_all by done.
    rewrite filter_none by (eapply Forall_impl; [exact Hall|]; cbn; lia).
    intros i a b Ha Hb. destruct (decide (S i < length (K ++ [t]))%nat) as [Hi|Hi].
    + rewrite lookup_app_l in Ha, Hb by lia. by apply (HL i).
    + pose proof (lookup_lt_Some _ _ _ Hb) as Hlt.
      rewrite !length_app in Hlt. rewrite length_app in Hi. cbn in Hlt, Hi.
      assert (i = length K) as -> by lia.
      rewrite lookup_app_r in Hb by (rewrite length_app; cbn; lia).
      rewrite <- app_assoc, lookup_app_r, Nat.sub_diag in Ha by done. rewrite length_app in Hb. cbn in Hb.
      replace (S (length K) - (length K + 1))%nat with 0%nat in Hb by lia. cbn in *. by simplify_eq.
Qed.

Lemma kept_contiguous bad L :
  increasing L → contiguous L → contiguous (kept true bad L).
Proof.
  intros Hs HL. unfold kept. cbn [andb]. case_bool_decide as Hne; [by apply contiguous_below|].
  assert (filter (fun t => bad t) L = []) as Hnil by (by destruct (filter (fun t => bad t) L); [|destruct Hne]).
  rewrite filter_all; [done|]. apply Forall_forall. intros t Ht Hb. apply (not_elem_of_nil t).
  rewrite <- Hnil. by apply list_elem_of_filter.
Qed.

Lemma list_Remove_rep range tx l L :
  is_range range → list_rep l L →
  let '(found, invalids, l') := list_Remove range tx l in
  strict l' = strict l ∧ found = bool_decide (nonce tx ∈ nonce <$> L)
  ∧ list_rep l' (kept (strict l) (fun t => nonce t =? nonce tx) L).
Proof.
  intros Hr Hl. pose proof Hl as [Hrep Hcap]. unfold list_Remove.
  destruct (rep_Remove (nonce tx) (l_txs l) L Hrep) as (m&->&Hm).
  pose proof (rep_sorted _ _ Hrep) as Hs. pose proof (rep_wf _ _ Hrep) as Hwf.
  set (bad := fun t => nonce t =? nonce tx).
  assert (filter (fun t => nonce t ≠ nonce tx) L = filter (fun t => ¬ bad t) L) as Heq.
  { apply filter_ext_Forall, Forall_forall. intros t _. unfold bad. destruct (Z.eqb_spec (nonce t) (nonce tx)); cbn; tauto. }
  rewrite Heq in Hm. case_bool_decide as Hin.
  - apply list_elem_of_fmap in Hin as (t0&Hn0&Ht0).
    assert (bad t0) as Hb0 by (unfold bad; rewrite Hn0, Z.eqb_refl; done).
    destruct (strict l) eqn:Hst.
    + pose proof (rep_Filter range (fun t => nonce tx <? nonce t) m _ Hr Hm) as HF.
      destruct (Filter range _ m) as [invalids m']. destruct HF as [_ Hm'].
      rewrite strict_rest in Hm'; [|done|by exists t0|].
      2: { intros t _ Hb. unfold bad in Hb. destruct (Z.eqb_spec (nonce t) (nonce tx)); [lia|by destruct Hb]. }
      split_and!; [done|done|]. eapply list_rep_sub; [done| |apply kept_sub].
      unfold kept. cbn [andb]. assert (t0 ∈ filter (fun t => bad t) L) as Hf by (by apply list_elem_of_filter).
      rewrite bool_decide_true by (intros Hnil; rewrite Hnil in Hf; by apply not_elem_of_nil in Hf).
      destruct (lowest_nonce_spec (filter (fun t => bad t) L)) as [(t1&Ht1&Hn1) _];
        [by apply Forall_filter|intros Hnil; rewrite Hnil in Hf; by apply not_elem_of_nil in Hf|].
      apply list_elem_of_filter in Ht1 as [Hb1 _]. unfold bad in Hb1.
      destruct (Z.eqb_spec (nonce t1) (nonce tx)); [|by destruct Hb1]. by replace (lowest_nonce _) with (nonce tx) by lia.
    + split_and!; [done|done|]. eapply list_rep_sub; [done| |apply kept_sub]. done.
  - split_and!; [done|done|]. eapply list_rep_sub; [done| |apply kept_sub].
    unfold kept. assert (filter (fun t => bad t) L = []) as ->.
    { apply filter_none, Forall_forall. intros t Ht Hb. apply Hin. unfold bad in Hb.
      destruct (Z.eqb_spec (nonce t) (nonce tx)) as [<-|]; [by apply list_elem_of_fmap_2|by destruct Hb]. }
    by rewrite bool_decide_false, andb_false_r by (intros Hn; by apply Hn).
Qed.

(** C19: the invariant of a pool's list.  A new list is empty; from a list whose
    map, index and cache describe its transactions, whose caps bound the cost
    and the gas of each, and whose nonces are consecutive if it is strict, every
    operation returns without a panic and leaves such a list, where additions to
    a strict list are at a held or the next nonce. *)
Theorem txList_invariant s :
  list_inv s (newTxList s) []
  ∧ ∀ op l L, list_inv s l L → list_op_ok s op L →
    ∃ l' L', run_list_op op l = (Ok tt, l') ∧ list_inv s l' L'.
Proof.
  split; [split_and!; [done|apply list_rep_new|done]|].
  intros op l L (Hst&Hl&Hc) Hok. unfold list_inv. pose proof Hl as [Hrep Hcap]. pose proof (rep_sorted _ _ Hrep) as Hs.
  destruct op as [tx bump|t|b r r' c g|t|r tx|st|r]; cbn [run_list_op list_op_ok] in *.
  - destruct Hok as [Hwf Hnext]. pose proof (list_Add_rep tx bump l L Hl Hwf) as HA.
    destruct (list_Add tx bump l) as [[acc old] l']. destruct HA as (Hst'&_&HA).
    destruct acc; [|destruct HA as [_ ->]; by exists l, L].
    exists l', (ins tx L). split_and!; [done|congruence|by apply HA|]. intros Hs1. apply contiguous_ins; auto.
  - unfold list_Forward. destruct (rep_Forward t (l_txs l) L Hrep) as (m&->&Hm).
    eexists _, (above t L). split_and!; [done|done| |intros ?; apply contiguous_above; auto].
    eapply list_rep_sub; [done|done|]. by intros u [_ Hu]%list_elem_of_filter.
  - destruct Hok as (Hb&Hr&Hr'). pose proof (list_Filter_rep b r r' c g l L Hb Hr Hr' Hl) as HF.
    destruct (list_Filter b r r' c g l) as [[removed invalids] l'].
    destruct HF as [Hst' [(_&_&Hl'&_)|(_&Hl'&_)]]; [exists l', L|eexists l', _];
      (split_and!; [done|congruence|exact Hl'|]); [done|].
    intros Hs1. rewrite Hst, Hs1. apply kept_contiguous; auto.
  - unfold list_Cap. destruct (rep_Cap t (l_txs l) L Hrep Hok) as (m&->&Hm).
    eexists _, (take (Z.to_nat t) L). split_and!; [done|done| |].
    + eapply list_rep_sub; [done|done|]. intros u Hu. eapply elem_of_submseteq; [done|].
      apply sublist_submseteq, sublist_take.
    + intros Hs1. specialize (Hc Hs1). rewrite <- (take_drop (Z.to_nat t) L) in Hc. by eapply contiguous_app_l.
  - pose proof (list_Remove_rep r tx l L Hok Hl) as HR. destruct (list_Remove r tx l) as [[found inv] l'].
    destruct HR as (Hst'&_&Hl'). eexists l', _. split_and!; [done|congruence|exact Hl'|].
    intros Hs1. rewrite Hst, Hs1. apply kept_contiguous; auto.
  - unfold list_Ready. pose proof (rep_Ready st (l_txs l) L Hrep) as HR.
    assert ((ready_split st L).1 ++ (ready_split st L).2 = L) as Happ.
    { unfold ready_split. destruct L as [|t0 L0]; [done|]. destruct (st <? nonce t0); [done|]. apply consecutive_app. }
    destruct (ready_split st L) as [run rest]. destruct HR as (m&->&Hm). cbn in Happ.
    eexists _, rest. split_and!; [done|done| |].
    + eapply list_rep_sub; [done|done|]. intros u Hu. rewrite <- Happ. apply elem_of_app. by right.
    + intros Hs1. specialize (Hc Hs1). rewrite <- Happ in Hc. by eapply contiguous_app_r.
  - unfold list_Flatten. destruct (rep_Flatten r (l_txs l) L Hok Hrep) as (m&->&Hm).
    eexists _, L. split_and!; [done|done|by eapply list_rep_sub|done].
Qed.

(** ** txPricedList *)

Lemma cheaper_trans x y z : le cheaper x y → le cheaper y z → le cheaper x z.
Proof.
  unfold le, cheaper. destruct (Z.compare_spec (GasPrice (EvmTx y)) (GasPrice (EvmTx x)));
  destruct (Z.compare_spec (GasPrice (EvmTx z)) (GasPrice (EvmTx y)));
  destruct (Z.compare_spec (GasPrice (EvmTx z)) (GasPrice (EvmTx x))); try done; rewrite ?Z.ltb_ge; lia.
Qed.
Lemma cheaper_le x y : cheaper x y = true → le cheaper x y.
Proof.
  unfold le, cheaper. rewrite (Z.compare_antisym (GasPrice (EvmTx x))).
  destruct (Z.compare_spec (GasPrice (EvmTx x)) (GasPrice (EvmTx y))); cbn; try done.
  rewrite Z.ltb_lt, Z.ltb_ge. lia.
Qed.
Lemma le_cheaper_price x y : le cheaper x y → GasPrice (EvmTx x) <= GasPrice (EvmTx y).
Proof.
  unfold le, cheaper. destruct (Z.compare_spec (GasPrice (EvmTx y)) (GasPrice (EvmTx x))); (done || lia).
Qed.

(** The first element is popped, and nothing left comes before it. *)
Lemma pop_cheapest h :
  heap_ok cheaper h → h ≠ [] →
  ∃ tx rest, heap_Pop cheaper h = Some (tx, rest) ∧ head h = Some tx ∧ heap_ok cheaper rest
             ∧ h ≡ₚ tx :: rest ∧ Forall (le cheaper tx) rest.
Proof.
  intros Hh Hne. destruct (heap_Pop_spec cheaper cheaper_trans cheaper_le h Hh Hne) as (rest&Hp&Hok&Hperm).
  exists (h !!! 0%nat), rest. split_and!; [done|by destruct h|done|done|].
  apply Forall_forall. intros x Hx. assert (x ∈ h) as Hin by (rewrite Hperm; by right).
  apply list_elem_of_lookup_1 in Hin as [k Hk].
  rewrite <- (list_lookup_total_correct _ _ _ Hk).
  apply (heap_root_min cheaper cheaper_trans cheaper_le h k Hh (lookup_lt_Some _ _ _ Hk)).
Qed.

Section priced.
Context (Hash : Transaction → Z) (recover : EvmTransaction → option Z).
Context (all : gmap Z Transaction) (local : accountSet).

Abbreviation is_stale := (stale Hash all).
Abbreviation is_local tx := (containsTx recover tx local).

(** What the loops have taken off the heap of [l0]: remote transactions to drop,
    transactions to put back, stale entries; no dropped one is dearer than what
    is left. *)
Record taken (l0 l : txPricedList) (drop save gone : Transactions) : Prop := {
  taken_heap : heap_ok cheaper (p_items l);
  taken_perm : p_items l ++ drop ++ save ++ gone ≡ₚ p_items l0;
  taken_stale : Forall (fun t => is_stale t = true) gone;
  taken_count : stales l = stales l0 - Z.of_nat (length gone);
  taken_drop : Forall (fun t => is_stale t = false ∧ is_local t = false) drop;
  taken_save : Forall (fun t => is_stale t = false) save;
  taken_order : ∀ d x, d ∈ drop → x ∈ p_items l → le cheaper d x;
}.

Lemma taken_start l : heap_ok cheaper (p_items l) → taken l l [] [] [].
Proof.
  intros Hh. constructor; [done|by rewrite !app_nil_r|constructor|cbn; lia|constructor|constructor|].
  intros d x Hd. by apply not_elem_of_nil in Hd.
Qed.

(** One popped transaction goes to one of the three heaps of the loop. *)
Lemma taken_pop l0 l drop save gone tx rest :
  taken l0 l drop save gone → p_items l ≡ₚ tx :: rest → heap_ok cheaper rest → Forall (le cheaper tx) rest →
  (is_stale tx = true → taken l0 (mkPriced rest (stales l - 1)) drop save (gone ++ [tx]))
  ∧ (is_stale tx = false → taken l0 (mkPriced rest (stales l)) drop (save ++ [tx]) gone)
  ∧ (is_stale tx = false → is_local tx = false →
     taken l0 (mkPriced rest (stales l)) (drop ++ [tx]) save gone).
Proof.
  intros [Hh Hp Hg Hc Hd Hs Ho] Hperm Hrest Hle. rewrite Forall_forall in Hle.
  assert (∀ d x, d ∈ drop → x ∈ rest → le cheaper d x) as Ho'.
  { intros d x Hd' Hx. apply Ho; [done|]. rewrite Hperm. by right. }
  rewrite Hperm in Hp. split_and!.
  - intros Hst. constructor; cbn; [done| |by apply Forall_app; split; [|constructor]| |done|done|done].
    + rewrite <- Hp. cbn. rewrite !app_assoc. by rewrite <- Permutation_cons_append.
    + rewrite length_app, Hc. cbn. lia.
  - intros Hst. constructor; cbn; [done| |done|done|done|by apply Forall_app; split; [|constructor]|done].
    rewrite <- Hp. cbn. rewrite <- !app_assoc. cbn. by rewrite !Permutation_middle.
  - intros Hst Hl. constructor; cbn; [done| |done|done|by apply Forall_app; split; [|constructor]|done|].
    + rewrite <- Hp. cbn. rewrite <- !app_assoc. cbn. by rewrite !Permutation_middle.
    + intros d x [Hd'|Hd'%list_elem_of_singleton]%elem_of_app Hx; [by apply Ho'|subst d; by apply Hle].
Qed.

Lemma push_all_spec save l :
  heap_ok cheaper (p_items l) →
  heap_ok cheaper (p_items (push_all save l)) ∧ p_items (push_all save l) ≡ₚ save ++ p_items l
  ∧ stales (push_all save l) = stales l.
Proof.
  unfold push_all. revert l. induction save as [|t save IH]; intros l Hh; [done|]. cbn [foldl].
  destruct (heap_Push_spec cheaper cheaper_trans cheaper_le t (p_items l) Hh) as [H1 H2].
  destruct (IH (priced_Put t l) H1) as (H3&H4&H5). split_and!; [done| |done].
  rewrite H4. cbn. rewrite H2. by rewrite Permutation_middle.
Qed.

Lemma discard_loop_spec fuel count l0 l drop save gone :
  taken l0 l drop save gone → Forall (fun t => is_local t = true) save → 0 <= count →
  (length (p_items l) ≤ fuel)%nat →
  let '(l', drop', save') := discard_loop Hash recover fuel all count local l drop save in
  ∃ gone' count', taken l0 l' drop' save' gone' ∧ Forall (fun t => is_local t = true) save'
    ∧ 0 <= count' ∧ Z.of_nat (length drop') + count' = Z.of_nat (length drop) + count
    ∧ (p_items l' = [] ∨ count' = 0).
Proof.
  revert count l drop save gone. induction fuel as [|fuel IH]; intros count l drop save gone Ht Hs Hc Hf;
    cbn [discard_loop].
  { exists gone, count. split_and!; [done|done|done|done|]. left. destruct (p_items l); [done|cbn in Hf; lia]. }
  destruct (p_items l) as [|x h] eqn:El.
  { exists gone, count. cbn. split_and!; [done|done|done|done|by left]. }
  rewrite <- El in *. pose proof (taken_heap _ _ _ _ _ Ht) as Hh.
  destruct (pop_cheapest (p_items l) Hh) as (tx&rest&Hp&_&Hok&Hperm&Hle); [by rewrite El|]. rewrite Hp.
  assert (length rest ≤ fuel)%nat as Hf' by (apply Permutation_length in Hperm; cbn in Hperm; lia).
  destruct (taken_pop _ _ _ _ _ _ _ Ht Hperm Hok Hle) as (T1&T2&T3).
  destruct (count <=? 0) eqn:Hcnt; [apply Z.leb_le in Hcnt|apply Z.leb_gt in Hcnt].
  { exists gone, count. split_and!; [done|done|done|done|right; lia]. }
  destruct (is_stale tx) eqn:Hst; [by apply (IH _ _ _ _ _ (T1 eq_refl))|].
  destruct (is_local tx) eqn:Hl.
  - apply (IH _ _ _ _ _ (T2 eq_refl)); [by apply Forall_app; split; [|constructor]|done|done].
  - specialize (IH (count - 1) _ _ _ _ (T3 eq_refl eq_refl) Hs ltac:(lia) Hf').
    destruct (discard_loop _ _ _ _ _ _ _ _ _) as [[l' drop'] save'].
    destruct IH as (gone'&count'&?&?&?&Hlen&?). exists gone', count'.
    split_and!; [done|done|done| |done]. rewrite length_app in Hlen. cbn in Hlen. lia.
Qed.

Lemma price_cap_loop_spec fuel threshold l0 l drop save gone :
  taken l0 l drop save gone → Forall (fun t => is_local t = true) save →
  Forall (fun t => GasPrice (EvmTx t) < threshold) drop →
  (length (p_items l) ≤ fuel)%nat →
  let '(l', drop', save') := price_cap_loop Hash recover fuel all threshold local l drop save in
  ∃ gone', taken l0 l' drop' save' gone'
    ∧ Forall (fun t => is_local t = true ∨ threshold <= GasPrice (EvmTx t)) save'
    ∧ Forall (fun t => GasPrice (EvmTx t) < threshold) drop'
    ∧ Forall (fun t => threshold <= GasPrice (EvmTx t)) (p_items l').
Proof.
  revert l drop save gone. induction fuel as [|fuel IH]; intros l drop save gone Ht Hs Hd Hf;
    cbn [price_cap_loop].
  { exists gone. split_and!; [done|by eapply Forall_impl; [exact Hs|]; left|done|].
    destruct (p_items l); [constructor|cbn in Hf; lia]. }
  destruct (p_items l) as [|x h] eqn:El.
  { exists gone. cbn. rewrite El. split_and!; [done|by eapply Forall_impl; [exact Hs|]; left|done|constructor]. }
  rewrite <- El in *. pose proof (taken_heap _ _ _ _ _ Ht) as Hh.
  destruct (pop_cheapest (p_items l) Hh) as (tx&rest&Hp&_&Hok&Hperm&Hle); [by rewrite El|]. rewrite Hp.
  assert (length rest ≤ fuel)%nat as Hf' by (apply Permutation_length in Hperm; cbn in Hperm; lia).
  destruct (taken_pop _ _ _ _ _ _ _ Ht Hperm Hok Hle) as (T1&T2&T3).
  destruct (is_stale tx) eqn:Hst; [by apply (IH _ _ _ _ (T1 eq_refl))|].
  destruct (threshold <=? GasPrice (EvmTx tx)) eqn:Hthr; [apply Z.leb_le in Hthr|apply Z.leb_gt in Hthr].
  { exists gone. split_and!; [by apply T2| |done|].
    - apply Forall_app. split; [by eapply Forall_impl; [exact Hs|]; left|]. constructor; [by right|constructor].
    - eapply Forall_impl; [exact Hle|]. intros y Hy%le_cheaper_price. lia. }
  destruct (is_local tx) eqn:Hl.
  - apply (IH _ _ _ _ (T2 eq_refl)); [by apply Forall_app; split; [|constructor]|done|done].
  - apply (IH _ _ _ _ (T3 eq_refl eq_refl)); [done|by apply Forall_app; split; [|constructor]|done].
Qed.
End priced.

(** Discard takes the worst transactions off the price heap.  It returns at
    most [count] transactions, all live and remote, none dearer than a live
    remote transaction that stays (at equal prices the higher nonce goes first),
    and fewer than [count] only if no live remote one stays; what else leaves
    the heap is stale and counted off, and the heap order is kept. *)
Theorem priced_Discard_correct Hash recover all local count l :
  heap_ok cheaper (p_items l) → 0 <= count →
  ∃ drop gone l', Discard Hash recover all count local l = (Ok drop, l')
    ∧ heap_ok cheaper (p_items l') ∧ p_items l' ++ drop ++ gone ≡ₚ p_items l
    ∧ Forall (fun t => stale Hash all t = true) gone ∧ stales l' = stales l - Z.of_nat (length gone)
    ∧ Forall (fun t => stale Hash all t = false ∧ containsTx recover t local = false) drop
    ∧ Z.of_nat (length drop) <= count
    ∧ (∀ d x, d ∈ drop → x ∈ p_items l' → containsTx recover x local = false → le cheaper d x)
    ∧ (Z.of_nat (length drop) < count → Forall (fun x => containsTx recover x local = true) (p_items l')).
Proof.
  intros Hh Hc. unfold Discard. rewrite (proj2 (Z.ltb_ge _ _)) by lia.
  pose proof (discard_loop_spec Hash recover all local (length (p_items l)) count l l [] [] []
    (taken_start _ _ _ _ l Hh) ltac:(constructor) Hc ltac:(done)) as HL.
  destruct (discard_loop _ _ _ _ _ _ _ _ _) as [[l1 drop] save].
  destruct HL as (gone&count'&[Th Tp Tg Tc Td Ts To]&Hs&Hc'&Hlen&Hend).
  destruct (push_all_spec save l1 Th) as (P1&P2&P3). cbn in Hlen.
  exists drop, gone, (push_all save l1). split_and!; [done|done| |done|lia|done|lia| |].
  - rewrite P2, <- Tp. rewrite (Permutation_app_comm save), <- app_assoc. f_equiv.
    rewrite app_assoc, (Permutation_app_comm save). by rewrite <- app_assoc.
  - intros d x Hd Hx Hl. rewrite P2 in Hx. apply elem_of_app in Hx as [Hx|Hx]; [|by apply To].
    rewrite Forall_forall in Hs. rewrite (Hs x Hx) in Hl. done.
  - intros Hlt. rewrite P2. apply Forall_app. split; [done|].
    destruct Hend as [->|Hend]; [constructor|lia].
Qed.

(** Cap returns exactly remote live transactions below the price threshold;
    every live remote transaction that stays is at or above it, local ones stay
    whatever their price, stale entries met are counted off. *)
Theorem priced_Cap_correct Hash recover all local threshold l :
  heap_ok cheaper (p_items l) →
  ∃ drop gone l', priced_Cap Hash recover all threshold local l = (drop, l')
    ∧ heap_ok cheaper (p_items l') ∧ p_items l' ++ drop ++ gone ≡ₚ p_items l
    ∧ Forall (fun t => stale Hash all t = true) gone ∧ stales l' = stales l - Z.of_nat (length gone)
    ∧ Forall (fun t => stale Hash all t = false ∧ containsTx recover t local = false
                       ∧ GasPrice (EvmTx t) < threshold) drop
    ∧ Forall (fun t => containsTx recover t local = true ∨ threshold <= GasPrice (EvmTx t)) (p_items l').
Proof.
  intros Hh. unfold priced_Cap.
  pose proof (price_cap_loop_spec Hash recover all local (length (p_items l)) threshold l l [] [] []
    (taken_start _ _ _ _ l Hh) ltac:(constructor) ltac:(constructor) ltac:(done)) as HL.
  destruct (price_cap_loop _ _ _ _ _ _ _ _ _) as [[l1 drop] save].
  destruct HL as (gone&[Th Tp Tg Tc Td Ts To]&Hs&Hd&Hrest).
  destruct (push_all_spec save l1 Th) as (P1&P2&P3).
  exists drop, gone, (push_all save l1). split_and!; [done|done| |done|lia| |].
  - rewrite P2, <- Tp. rewrite (Permutation_app_comm save), <- app_assoc. f_equiv.
    rewrite app_assoc, (Permutation_app_comm save). by rewrite <- app_assoc.
  - rewrite Forall_forall in *. intros t Ht. destruct (Td t Ht). split_and!; [done|done|by apply Hd].
  - rewrite P2. apply Forall_app. split; [done|]. eapply Forall_impl; [exact Hrest|]. by right.
Qed.

Definition heap_txs : txPricedList :=
  foldl (fun l t => priced_Put t l) (mkPriced [] 1) [priced 1 0 5; priced 2 0 3; priced 3 0 9; priced 2 1 1].
Definition tx_key (t : Transaction) : Z := d_FromFullShardKey (data (EvmTx t)) * 10 + nonce t.
Definition all_txs : gmap Z Transaction := <[10 := priced 1 0 5]> (<[20 := priced 2 0 3]> (<[30 := priced 3 0 9]> ∅)).
Definition local_3 : accountSet := mkAccounts {[3]} None.

Lemma heap_txs_ok : heap_ok cheaper (p_items heap_txs).
Proof.
  assert (∀ ts l, heap_ok cheaper (p_items l) →
    heap_ok cheaper (p_items (foldl (fun l t => priced_Put t l) l ts))) as Hall.
  { induction ts as [|t ts IH]; intros l Hl; [done|]. apply IH.
    by apply heap_Push_spec; [apply cheaper_trans|apply cheaper_le|]. }
  apply Hall. intros p c _ _ Hc. cbn in Hc. lia.
Qed.

Lemma priced_Discard_witness :
  ∃ drop gone l', Discard tx_key by_key all_txs 1 local_3 heap_txs = (Ok drop, l')
    ∧ heap_ok cheaper (p_items l') ∧ p_items l' ++ drop ++ gone ≡ₚ p_items heap_txs
    ∧ Forall (fun t => stale tx_key all_txs t = true) gone
    ∧ stales l' = stales heap_txs - Z.of_nat (length gone)
    ∧ Forall (fun t => stale tx_key all_txs t = false ∧ containsTx by_key t local_3 = false) drop
    ∧ Z.of_nat (length drop) <= 1
    ∧ (∀ d x, d ∈ drop → x ∈ p_items l' → containsTx by_key x local_3 = false → le cheaper d x)
    ∧ (Z.of_nat (length drop) < 1 → Forall (fun x => containsTx by_key x local_3 = true) (p_items l')).
Proof. apply (priced_Discard_correct tx_key by_key all_txs local_3 1); [apply heap_txs_ok|lia]. Defined.

Lemma priced_Cap_witness :
  ∃ drop gone l', priced_Cap tx_key by_key all_txs 10 local_3 heap_txs = (drop, l')
    ∧ heap_ok cheaper (p_items l') ∧ p_items l' ++ drop ++ gone ≡ₚ p_items heap_txs
    ∧ Forall (fun t => stale tx_key all_txs t = true) gone
    ∧ stales l' = stales heap_txs - Z.of_nat (length gone)
    ∧ Forall (fun t => stale tx_key all_txs t = false ∧ containsTx by_key t local_3 = false
                       ∧ GasPrice (EvmTx t) < 10) drop
    ∧ Forall (fun t => containsTx by_key t local_3 = true ∨ 10 <= GasPrice (EvmTx t)) (p_items l').
Proof. apply (priced_Cap_correct tx_key by_key all_txs local_3 10). apply heap_txs_ok. Defined.
