(* ===== verification/Blocks.v ===== *)
(** * core/types: blocks

    The blocks of the two kinds of chain (src/core/types/minorblock.go and
    rootblock.go) and the deposits that shards send to each other
    (src/core/types/cross_shard_transaction.go).  A hash is an integer.  The
    hash of a header is computed from its serialisation; here it is a field of
    the header, the value [Hash()] returns. *)

From S2P Require Import Prelude Account Transaction.

Local Open Scope Z_scope.

Record Deposit := mkDeposit {
  TxHash : Z;
  From : Address;
  To : Address;
  DValue : Z;
  DGasPrice : Z;
  DGasTokenID : Z;
  DTransferTokenID : Z;
  IsFromRootChain : bool;
  GasRemained : Z;
  MessageData : list Z;
  CreateContract : bool;
  RefundRate : Z;
}.

Record MinorBlockHeader := mkMinorHeader {
  mh_hash : Z;
  mh_version : Z;
  mh_branch : Branch;
  mh_number : Z;
  mh_coinbase : Address;
  mh_coinbaseAmount : gmap Z Z;
  mh_parent : Z;
  PrevRootBlockHash : Z;
  mh_gasLimit : Z;
  mh_metaHash : Z;
  mh_time : Z;
  mh_difficulty : Z;
  mh_nonce : Z;
  mh_bloom : list Z;
  mh_extra : list Z;
  mh_mixDigest : Z;
}.

Record XShardTxCursorInfo := mkInfo {
  RootBlockHeight : Z;
  MinorBlockIndex : Z;
  XShardDepositIndex : Z;
}.

Record MinorBlockMeta := mkMeta {
  mm_txHash : Z;
  mm_root : Z;
  mm_receiptHash : Z;
  mm_gasUsed : Z;
  mm_crossShardGasUsed : Z;
  mm_cursor : option XShardTxCursorInfo;
  mm_xshardGasLimit : Z;
}.

Record MinorBlock := mkMinorBlock {
  mb_header : MinorBlockHeader;
  mb_meta : MinorBlockMeta;
  mb_transactions : list Transaction;
}.

Record RootBlock := mkRootBlock {
  rb_hash : Z;
  rb_version : Z;
  rb_parent : Z;
  rb_number : Z;
  rb_minorHeaderHash : Z;
  rb_root : Z;
  rb_coinbase : Address;
  rb_coinbaseAmount : gmap Z Z;
  rb_time : Z;
  rb_difficulty : Z;
  rb_totalDifficulty : Z;
  rb_nonce : Z;
  rb_extra : list Z;
  rb_mixDigest : Z;
  rb_signature : list Z;
  rb_trackingData : list Z;
  MinorBlockHeaders : list MinorBlockHeader;
}.

(** MinorHeaderDifference: the headers of the first list that are not in the second. *)
Definition MinorHeaderDifference (a b : list MinorBlockHeader) : list MinorBlockHeader :=
  filter (fun h => mh_hash h ∉ mh_hash <$> b) a.

(** What both kinds of block offer to the chains. *)
Class IBlock (B : Type) := {
  Hash : B → Z;
  NumberU64 : B → Z;
  ParentHash : B → Z;
}.
#[export] Instance minor_block : IBlock MinorBlock := {
  Hash b := mh_hash (mb_header b);
  NumberU64 b := mh_number (mb_header b);
  ParentHash b := mh_parent (mb_header b);
}.
#[export] Instance root_block : IBlock RootBlock := {
  Hash := rb_hash;
  NumberU64 := rb_number;
  ParentHash := rb_parent;
}.

(** What both kinds of header offer to the consensus engines. *)
Class IHeader (B : Type) := {
  GetVersion : B → Z;
  GetCoinbase : B → Address;
  GetTime : B → Z;
  GetDifficulty : B → Z;
  GetNonce : B → Z;
  GetExtra : B → list Z;
  GetMixDigest : B → Z;
}.
#[export] Instance minor_header : IHeader MinorBlock := {
  GetVersion b := mh_version (mb_header b);
  GetCoinbase b := mh_coinbase (mb_header b);
  GetTime b := mh_time (mb_header b);
  GetDifficulty b := mh_difficulty (mb_header b);
  GetNonce b := mh_nonce (mb_header b);
  GetExtra b := mh_extra (mb_header b);
  GetMixDigest b := mh_mixDigest (mb_header b);
}.
#[export] Instance root_header : IHeader RootBlock := {
  GetVersion := rb_version;
  GetCoinbase := rb_coinbase;
  GetTime := rb_time;
  GetDifficulty := rb_difficulty;
  GetNonce := rb_nonce;
  GetExtra := rb_extra;
  GetMixDigest := rb_mixDigest;
}.
