(* ===== verification/BlockTree.v ===== *)
(** * core: trees of blocks

    Models src/core/common.go.  Both kinds of chain keep their blocks in a
    database by hash, where they form a tree through the parent hashes.  Here
    are the ancestors of a block in such a tree, the comparison [isSameChain],
    and the canonical index of a chain as both chains keep it. *)

From S2P Require Import Prelude Account Blocks.

Local Open Scope Z_scope.

(** [log.Crit] logs and ends the process. *)
Definition crit {A} (msg : string) : result A := Panic ("log.Crit: " ++ msg).

Section same_chain.
Context `{IBlock B}.

(** The loop over the parents; the empty hash is 0. *)
Fixpoint climb (getParentHash : Z → Z) (n : nat) (hash : Z) : result Z :=
  match n with
  | O => Ok hash
  | S n =>
      let hash := getParentHash hash in
      if bool_decide (hash = 0) then crit "mysteriously missing blocks" else climb getParentHash n hash
  end.

Definition isSameChain (getParentHash : Z → Z) (longer shorter : B) : result bool :=
  if bool_decide (NumberU64 longer < NumberU64 shorter) then crit "wrong parameter order"
  else if bool_decide (NumberU64 shorter = NumberU64 longer) then Ok (bool_decide (Hash shorter = Hash longer))
  else if bool_decide (u64 (NumberU64 shorter + 1) = NumberU64 longer)
  then Ok (bool_decide (Hash shorter = ParentHash longer))
  else
    hash ← climb getParentHash (Z.to_nat (u64 (u64 (NumberU64 longer - NumberU64 shorter) - 1))) (ParentHash longer);
    Ok (bool_decide (hash = Hash shorter)).

(** ** The loops of a reorganisation *)
Context (get : Z → option B).

(** A loop that visits more blocks than the fuel allows. *)
Definition no_fuel {A} : result A := Panic "out of fuel".

(** Collecting blocks down to the height [n]; None is a missing parent. *)
Fixpoint lower (fuel : nat) (b : option B) (n : Z) (acc : list B) : result (option B * list B) :=
  match b with
  | None => Ok (None, acc)
  | Some b' =>
      if bool_decide (NumberU64 b' = n) then Ok (Some b', acc)
      else
        match fuel with
        | O => no_fuel
        | S fuel => lower fuel (get (ParentHash b')) n (acc ++ [b'])
        end
  end.

(** Collecting the blocks of two chains down to the block they share, or, with
    [stop0], to the genesis blocks. *)
Fixpoint meet (stop0 : bool) (fuel : nat) (old new : B) (oldChain newChain : list B)
    : result (B * list B * list B) :=
  if bool_decide (Hash old = Hash new) then Ok (new, oldChain, newChain)
  else
    match fuel with
    | O => no_fuel
    | S fuel =>
        let oldChain := oldChain ++ [old] in
        let newChain := newChain ++ [new] in
        if stop0 && (bool_decide (NumberU64 old = 0) || bool_decide (NumberU64 new = 0)) then Ok (new, oldChain, newChain)
        else
          match get (ParentHash old) with
          | None => Err "Invalid old chain"
          | Some old =>
              match get (ParentHash new) with
              | None => Err "Invalid new chain"
              | Some new => meet stop0 fuel old new oldChain newChain
              end
          end
    end.

(** Both steps: the blocks only on the old chain, those only on the new one,
    highest first, and where the loop ended. *)
Definition fork_point (stop0 : bool) (fuel : nat) (oldBlock newBlock : B) : result (B * list B * list B) :=
  r ← (if bool_decide (NumberU64 newBlock < NumberU64 oldBlock) then
         r ← lower fuel (Some oldBlock) (NumberU64 newBlock) [];
         Ok (r.1, Some newBlock, r.2, [])
       else
         r ← lower fuel (Some newBlock) (NumberU64 oldBlock) [];
         Ok (Some oldBlock, r.1, [], r.2));
  let '(o, n, oldChain, newChain) := r in
  match o with
  | None => Err "Invalid old chain"
  | Some o =>
      match n with
      | None => Err "Invalid new chain"
      | Some n => meet stop0 fuel o n oldChain newChain
      end
  end.

(** ** Trees *)

Definition parent_hash (h : Z) : Z := match get h with None => 0 | Some b => ParentHash b end.

Record tree_ok : Prop := {
  t_hash h b : get h = Some b → Hash b = h;
  t_zero : get 0 = None;
  t_number h b : get h = Some b → 0 <= NumberU64 b < 2 ^ 63;
  t_link h b p : get h = Some b → get (ParentHash b) = Some p → NumberU64 b = NumberU64 p + 1;
}.

(** The ancestor [k] generations up, and the [k] blocks below it. *)
Fixpoint up (k : nat) (b : B) : option B :=
  match k with
  | O => Some b
  | S k => match get (ParentHash b) with Some p => up k p | None => None end
  end.
Fixpoint below (k : nat) (b : B) : list B :=
  match k with
  | O => []
  | S k => b :: match get (ParentHash b) with Some p => below k p | None => [] end
  end.

(** A block that is in the tree with all its ancestors down to number 0. *)
Record rooted (b : B) : Prop := {
  r_stored : get (Hash b) = Some b;
  r_up : is_Some (up (Z.to_nat (NumberU64 b)) b);
}.

(** The index of a chain: the hash of the ancestor at each height, nothing
    above. *)
Definition canonical_upto (canon : gmap Z Z) (b : B) : Prop :=
  ∀ n, 0 <= n <= NumberU64 b → canon !! n = Hash <$> up (Z.to_nat (NumberU64 b - n)) b.
Definition nothing_above (canon : gmap Z Z) (b : B) : Prop :=
  ∀ n, n < 0 ∨ NumberU64 b < n → canon !! n = None.
End same_chain.

Arguments tree_ok {B _} get.
Arguments rooted {B _} get b.
Arguments canonical_upto {B _} get canon b.
Arguments nothing_above {B _} canon b.

Section tree.
Context `{IBlock B} (get : Z → option B) (Ht : tree_ok get).

Lemma up_add i j b : up get (i + j) b = match up get i b with Some c => up get j c | None => None end.
Proof. revert b. induction i as [|i IH]; intros b; cbn; [done|]. destruct (get (ParentHash b)); [apply IH|done]. Qed.

Lemma up_succ k b c : up get k b = Some c → up get (S k) b = get (ParentHash c).
Proof.
  intros Hc. replace (S k) with (k + 1)%nat by lia. rewrite up_add, Hc. cbn. by destruct (get (ParentHash c)).
Qed.

Lemma up_stored k b c : get (Hash b) = Some b → up get k b = Some c → get (Hash c) = Some c.
Proof.
  revert b. induction k as [|k IH]; intros b Hb Hc; cbn in Hc; [by simplify_eq|].
  destruct (get (ParentHash b)) as [p|] eqn:Hp; [|done]. apply (IH p); [|done].
  by rewrite (t_hash _ Ht _ _ Hp).
Qed.

Lemma up_number k b c : get (Hash b) = Some b → up get k b = Some c → NumberU64 b = NumberU64 c + Z.of_nat k.
Proof.
  revert b. induction k as [|k IH]; intros b Hb Hc; cbn [up] in Hc; [simplify_eq; lia|].
  destruct (get (ParentHash b)) as [p|] eqn:Hp; [|done].
  pose proof (t_link _ Ht _ _ _ Hb Hp) as Hn. pose proof (t_hash _ Ht _ _ Hp) as Hh.
  specialize (IH p ltac:(by rewrite Hh) Hc). lia.
Qed.

Lemma up_le i j b c : (i ≤ j)%nat → up get j b = Some c → ∃ d, up get i b = Some d ∧ up get (j - i) d = Some c.
Proof.
  intros Hij Hc. replace j with (i + (j - i))%nat in Hc by lia. rewrite up_add in Hc.
  destruct (up get i b) as [d|]; [|done]. by exists d.
Qed.

(** Ancestors of rooted blocks are rooted. *)
Lemma rooted_up k b c : rooted get b → up get k b = Some c → rooted get c.
Proof.
  intros [Hb [g Hg]] Hc. pose proof (up_stored k b c Hb Hc) as Hs.
  pose proof (up_number k b c Hb Hc) as Hn. pose proof (t_number _ Ht _ _ Hs) as Hc0.
  split; [done|]. destruct (up_le k (Z.to_nat (NumberU64 b)) b g ltac:(lia) Hg) as (d&Hd&Hg'). rewrite Hc in Hd. simplify_eq.
  exists g. rewrite <- Hg'. f_equal. lia.
Qed.
Lemma rooted_parent b p : rooted get b → get (ParentHash b) = Some p → rooted get p.
Proof. intros Hb Hp. apply (rooted_up 1 b); [done|]. cbn. by rewrite Hp. Qed.

(** A rooted block has an ancestor at every height. *)
Lemma rooted_at b n : rooted get b → 0 <= n <= NumberU64 b →
  ∃ c, up get (Z.to_nat (NumberU64 b - n)) b = Some c ∧ NumberU64 c = n ∧ rooted get c.
Proof.
  intros Hr Hn. destruct (r_up _ _ Hr) as [g Hg].
  destruct (up_le (Z.to_nat (NumberU64 b - n)) (Z.to_nat (NumberU64 b)) b g ltac:(lia) Hg) as (c&Hc&_).
  exists c. split; [done|]. pose proof (up_number _ b c (r_stored _ _ Hr) Hc). split; [lia|]. by eapply rooted_up.
Qed.
Lemma rooted_step b : rooted get b → 0 < NumberU64 b →
  ∃ p, get (ParentHash b) = Some p ∧ NumberU64 b = NumberU64 p + 1 ∧ rooted get p.
Proof.
  intros Hr Hn. destruct (rooted_at b (NumberU64 b - 1) Hr) as (p&Hp&Hnp&Hrp); [lia|].
  replace (Z.to_nat (NumberU64 b - (NumberU64 b - 1))) with 1%nat in Hp by lia. cbn in Hp.
  exists p. destruct (get (ParentHash b)); simplify_eq. split_and!; [done|lia|done].
Qed.

Lemma stored_inj a b : get (Hash a) = Some a → get (Hash b) = Some b → Hash a = Hash b → a = b.
Proof. congruence. Qed.
Lemma stored_hash_ne b : get (Hash b) = Some b → Hash b ≠ 0.
Proof. intros Hb E. rewrite E, (t_zero _ Ht) in Hb. done. Qed.

(** ** isSameChain decides ancestry *)
Lemma climb_up n b a : up get (S n) b = Some a → climb (parent_hash get) n (ParentHash b) = Ok (Hash a).
Proof.
  revert b. induction n as [|n IH]; intros b Ha; cbn [up] in Ha; cbn [climb];
    destruct (get (ParentHash b)) as [p|] eqn:Hp; [|done| |done].
  - simplify_eq. by rewrite (t_hash _ Ht _ _ Hp).
  - change (match get (ParentHash p) with Some q => up get n q | None => None end = Some a) in Ha.
    assert (parent_hash get (ParentHash b) = ParentHash p) as -> by (unfold parent_hash; by rewrite Hp).
    rewrite bool_decide_false; [by apply IH|]. intros E. rewrite E, (t_zero _ Ht) in Ha. done.
Qed.

(** The first block need not be in the tree, only its ancestors. *)
Lemma isSameChain_up longer shorter c :
  0 <= NumberU64 shorter <= NumberU64 longer → NumberU64 longer < 2 ^ 63 →
  up get (Z.to_nat (NumberU64 longer - NumberU64 shorter)) longer = Some c →
  isSameChain (parent_hash get) longer shorter = Ok (bool_decide (Hash c = Hash shorter)).
Proof.
  intros Hle Hnl Hc. unfold isSameChain. rewrite bool_decide_false by lia.
  assert (∀ h, h = Hash c → bool_decide (Hash shorter = h) = bool_decide (Hash c = Hash shorter)) as Hdec.
  { intros h ->. apply bool_decide_ext. split; congruence. }
  destruct (decide (NumberU64 shorter = NumberU64 longer)) as [E|Hne].
  { rewrite (bool_decide_true _ E). f_equal. apply Hdec. rewrite E, Z.sub_diag in Hc. by injection Hc as <-. }
  rewrite bool_decide_false by done. rewrite (u64_id (NumberU64 shorter + 1)) by (unfold in_u64; lia).
  destruct (decide (NumberU64 shorter + 1 = NumberU64 longer)) as [E|Hne2].
  { rewrite (bool_decide_true _ E). f_equal. apply Hdec.
    replace (Z.to_nat _) with 1%nat in Hc by lia. cbn in Hc.
    destruct (get (ParentHash longer)) as [p|] eqn:Hp; simplify_eq. symmetry. by apply (t_hash _ Ht). }
  rewrite bool_decide_false by done.
  rewrite (u64_id (NumberU64 longer - _)), u64_id by (unfold in_u64; lia).
  rewrite (climb_up _ longer c); [done|]. rewrite <- Hc. f_equal. lia.
Qed.

Lemma isSameChain_spec longer shorter :
  rooted get longer → get (Hash shorter) = Some shorter → NumberU64 shorter <= NumberU64 longer →
  ∃ r, isSameChain (parent_hash get) longer shorter = Ok r
    ∧ (r = true ↔ up get (Z.to_nat (NumberU64 longer - NumberU64 shorter)) longer = Some shorter).
Proof.
  intros Hl Hs Hle. pose proof (t_number _ Ht _ _ Hs) as Hns. pose proof (t_number _ Ht _ _ (r_stored _ _ Hl)) as Hnl.
  destruct (rooted_at longer (NumberU64 shorter) Hl) as (c&Hc&_&Hrc); [lia|].
  rewrite (isSameChain_up _ _ c) by (done || lia). eexists. split; [done|]. rewrite bool_decide_eq_true, Hc. split.
  - intros E. f_equal. by apply stored_inj; [apply Hrc|..].
  - by intros [= ->].
Qed.

(** ** Blocks below an ancestor *)
Lemma below_app i j b c : up get i b = Some c → below get (i + j) b = below get i b ++ below get j c.
Proof.
  revert b. induction i as [|i IH]; intros b Hc; cbn in *; [by simplify_eq|].
  destruct (get (ParentHash b)); [|done]. f_equal. by apply IH.
Qed.
Lemma below_length i b c : up get i b = Some c → length (below get i b) = i.
Proof.
  revert b. induction i as [|i IH]; intros b Hc; cbn in *; [done|].
  destruct (get (ParentHash b)); [|done]. f_equal. by apply IH.
Qed.
Lemma below_full n b : (∀ k, (k < n)%nat → is_Some (up get k b)) → length (below get n b) = n.
Proof.
  revert b. induction n as [|n IH]; intros b Hup; [done|]. cbn [below length]. f_equal. destruct n as [|n]; [by destruct (get _)|].
  destruct (get (ParentHash b)) as [p|] eqn:Ep; [|destruct (Hup 1%nat ltac:(lia)) as [x Hx]; cbn [up] in Hx; by rewrite Ep in Hx].
  apply IH. intros i Hi. destruct (Hup (S i) ltac:(lia)) as [x Hx]. cbn [up] in Hx. rewrite Ep in Hx. eauto.
Qed.
Lemma below_lookup i k b c d : up get i b = Some c → (k < i)%nat → up get k b = Some d → below get i b !! k = Some d.
Proof.
  revert k b. induction i as [|i IH]; intros k b Hc Hk Hd; [lia|]. destruct k as [|k]; cbn in *; [by simplify_eq|].
  destruct (get (ParentHash b)); [|done]. apply IH; [done|lia|done].
Qed.
Lemma below_elem i b d : d ∈ below get i b → ∃ k, (k < i)%nat ∧ up get k b = Some d.
Proof.
  revert b. induction i as [|i IH]; intros b Hd; cbn in *; [by apply not_elem_of_nil in Hd|].
  apply elem_of_cons in Hd as [->|Hd]; [exists 0%nat; split; [lia|done]|].
  destruct (get (ParentHash b)) as [p|] eqn:Hp; [|by apply not_elem_of_nil in Hd].
  destruct (IH p Hd) as (k&Hk&Hup). exists (S k). split; [lia|]. cbn. by rewrite Hp.
Qed.

(** The lower part of the blocks below an ancestor is the blocks below it. *)
Lemma below_suffix j b l b' : is_Some (up get j b) ∨ rooted get b ∧ Z.of_nat j = NumberU64 b + 1 →
  l `suffix_of` below get j b → head l = Some b' →
  ∃ k, (k < j)%nat ∧ up get k b = Some b' ∧ l = below get (j - k) b'.
Proof.
  destruct l as [|b0 l]; [done|]. intros Hj Hl [= ->]. revert b Hj Hl. induction j as [|j IH]; intros b Hj Hl.
  { cbn in Hl. by apply suffix_nil_inv in Hl. }
  cbn [below] in Hl. apply suffix_cons_inv in Hl as [[= -> ->]|Hl].
  { exists 0%nat. split_and!; [lia|done|done]. }
  destruct (get (ParentHash b)) as [p|] eqn:Hp; [|by apply suffix_nil_inv in Hl].
  destruct (IH p) as (k & Hk & Hup & E); [|done|].
  - destruct Hj as [Hj|[Hr Hj]]; [left|right].
    + cbn in Hj. by rewrite Hp in Hj.
    + pose proof (t_link _ Ht _ _ _ (r_stored _ _ Hr) Hp). split; [by eapply rooted_parent|lia].
  - exists (S k). split_and!; [lia| |done]. cbn. by rewrite Hp.
Qed.

(** ** Writing a chain into the index *)

(** The index with the blocks of a list, the head of the list written last. *)
Definition write_chain (l : list B) (canon : gmap Z Z) : gmap Z Z :=
  foldr (fun b c => <[NumberU64 b := Hash b]> c) canon l.
Definition erase_chain (l : list B) (canon : gmap Z Z) : gmap Z Z :=
  foldr (fun b c => delete (NumberU64 b) c) canon l.

(** The [k] blocks below [b] have the [k] numbers up to that of [b]. *)
Lemma below_ind (P : nat → B → Prop) :
  (∀ b, rooted get b → P 0%nat b) →
  (∀ b, rooted get b → P 1%nat b) →
  (∀ k b p, rooted get b → rooted get p → get (ParentHash b) = Some p → NumberU64 b = NumberU64 p + 1 →
     P (S k) p → P (S (S k)) b) →
  ∀ k b, rooted get b → Z.of_nat k <= NumberU64 b + 1 → P k b.
Proof.
  intros H0 H1 H2 k. induction k as [|[|k] IH]; intros b Hb Hk; [by apply H0|by apply H1|].
  destruct (rooted_step b Hb) as (p&Hp&Hn&Hrp); [lia|].
  apply (H2 k b p); try done. apply IH; [done|lia].
Qed.
Lemma below_one b : below get 1 b = [b].
Proof. cbn. by destruct (get (ParentHash b)). Qed.
Lemma below_parent k b p : get (ParentHash b) = Some p → below get (S k) b = b :: below get k p.
Proof. intros Hp. cbn. by rewrite Hp. Qed.
Lemma up_parent k b p : get (ParentHash b) = Some p → up get (S k) b = up get k p.
Proof. intros Hp. cbn. by rewrite Hp. Qed.

Lemma write_below k b canon n : rooted get b → Z.of_nat k <= NumberU64 b + 1 →
  write_chain (below get k b) canon !! n
  = if decide (NumberU64 b - Z.of_nat k < n <= NumberU64 b) then Hash <$> up get (Z.to_nat (NumberU64 b - n)) b
    else canon !! n.
Proof.
  revert k b. apply (below_ind (fun k b => write_chain (below get k b) canon !! n = _)).
  - intros b Hb. rewrite decide_False by lia. done.
  - intros b Hb. rewrite below_one. cbn. destruct (decide (n = NumberU64 b)) as [->|Hne].
    + rewrite lookup_insert_eq, decide_True, Z.sub_diag by lia. done.
    + rewrite lookup_insert_ne, decide_False by lia. done.
  - intros k b p Hb Hrp Hp Hn IH. rewrite (below_parent _ _ _ Hp).
    change (write_chain (b :: below get (S k) p) canon)
      with (<[NumberU64 b := Hash b]> (write_chain (below get (S k) p) canon)).
    destruct (decide (n = NumberU64 b)) as [->|Hne].
    { rewrite lookup_insert_eq, decide_True, Z.sub_diag by lia. done. }
    rewrite lookup_insert_ne, IH by done.
    destruct (decide (NumberU64 p - Z.of_nat (S k) < n <= NumberU64 p)).
    + rewrite decide_True by lia. replace (Z.to_nat (NumberU64 b - n)) with (S (Z.to_nat (NumberU64 p - n))) by lia.
      by rewrite (up_parent _ _ _ Hp).
    + by rewrite decide_False by lia.
Qed.
Lemma erase_below k b canon n : rooted get b → Z.of_nat k <= NumberU64 b + 1 →
  erase_chain (below get k b) canon !! n
  = if decide (NumberU64 b - Z.of_nat k < n <= NumberU64 b) then None else canon !! n.
Proof.
  revert k b. apply (below_ind (fun k b => erase_chain (below get k b) canon !! n = _)).
  - intros b Hb. rewrite decide_False by lia. done.
  - intros b Hb. rewrite below_one. cbn. destruct (decide (n = NumberU64 b)) as [->|Hne].
    + rewrite lookup_delete_eq, decide_True by lia. done.
    + rewrite lookup_delete_ne, decide_False by lia. done.
  - intros k b p Hb Hrp Hp Hn IH. rewrite (below_parent _ _ _ Hp).
    change (erase_chain (b :: below get (S k) p) canon)
      with (delete (NumberU64 b) (erase_chain (below get (S k) p) canon)).
    destruct (decide (n = NumberU64 b)) as [->|Hne].
    { rewrite lookup_delete_eq, decide_True by lia. done. }
    rewrite lookup_delete_ne, IH by done.
    destruct (decide (NumberU64 p - Z.of_nat (S k) < n <= NumberU64 p)).
    + by rewrite decide_True by lia.
    + by rewrite decide_False by lia.
Qed.

(** ** Where two chains part *)

(** The last [i] blocks of one chain and the last [j] of another are above the
    same block, or above none: then they are the whole chains. *)
Definition parted (a b : B) (i j : nat) : Prop :=
  (∃ c, up get i a = Some c ∧ up get j b = Some c)
  ∨ Z.of_nat i = NumberU64 a + 1 ∧ Z.of_nat j = NumberU64 b + 1.

Lemma parted_bounds a b i j : rooted get a → rooted get b → parted a b i j →
  Z.of_nat i <= NumberU64 a + 1 ∧ Z.of_nat j <= NumberU64 b + 1
  ∧ NumberU64 a - Z.of_nat i = NumberU64 b - Z.of_nat j.
Proof.
  intros Ha Hb [(c&Hi&Hj)|]; [|lia]. pose proof (up_number _ _ _ (r_stored _ _ Ha) Hi).
  pose proof (up_number _ _ _ (r_stored _ _ Hb) Hj).
  pose proof (t_number _ Ht _ _ (up_stored _ _ _ (r_stored _ _ Ha) Hi)). lia.
Qed.

(** The index of the one chain becomes that of the other. *)
Lemma switch_canonical canon a b i j : rooted get a → rooted get b → parted a b i j →
  canonical_upto get canon a → nothing_above canon a →
  canonical_upto get (write_chain (below get j b) (erase_chain (below get i a) canon)) b
  ∧ nothing_above (write_chain (below get j b) (erase_chain (below get i a) canon)) b.
Proof.
  intros Ha Hb Hp Hcan Hno. destruct (parted_bounds _ _ _ _ Ha Hb Hp) as (Hi&Hj&Hd).
  split; intros n Hn; rewrite write_below, erase_below by done.
  - destruct (decide (NumberU64 b - Z.of_nat j < n <= NumberU64 b)) as [|Hout]; [done|].
    rewrite decide_False by lia. destruct Hp as [(c&Hci&Hcj)|]; [|lia].
    rewrite (Hcan n) by lia.
    pose proof (up_number _ _ _ (r_stored _ _ Ha) Hci). pose proof (up_number _ _ _ (r_stored _ _ Hb) Hcj).
    replace (Z.to_nat (NumberU64 a - n)) with (i + Z.to_nat (NumberU64 c - n))%nat by lia.
    replace (Z.to_nat (NumberU64 b - n)) with (j + Z.to_nat (NumberU64 c - n))%nat by lia.
    by rewrite !up_add, Hci, Hcj.
  - pose proof (t_number _ Ht _ _ (r_stored _ _ Hb)). rewrite decide_False by lia.
    destruct (decide (NumberU64 a - Z.of_nat i < n <= NumberU64 a)); [done|]. apply Hno. lia.
Qed.

(** Without erasing, the index is right up to the new head only. *)
Lemma write_canonical canon a b i j : rooted get a → rooted get b → parted a b i j →
  canonical_upto get canon a → canonical_upto get (write_chain (below get j b) canon) b.
Proof.
  intros Ha Hb Hp Hcan n Hn. destruct (parted_bounds _ _ _ _ Ha Hb Hp) as (Hi&Hj&Hd).
  rewrite write_below by done. case_decide; [done|]. destruct Hp as [(c&Hci&Hcj)|]; [|lia].
  rewrite (Hcan n) by lia.
  pose proof (up_number _ _ _ (r_stored _ _ Ha) Hci). pose proof (up_number _ _ _ (r_stored _ _ Hb) Hcj).
  replace (Z.to_nat (NumberU64 a - n)) with (i + Z.to_nat (NumberU64 c - n))%nat by lia.
  replace (Z.to_nat (NumberU64 b - n)) with (j + Z.to_nat (NumberU64 c - n))%nat by lia.
  by rewrite !up_add, Hci, Hcj.
Qed.

Lemma lower_spec fuel b n acc : rooted get b → 0 <= n <= NumberU64 b → (Z.to_nat (NumberU64 b - n) ≤ fuel)%nat →
  ∃ c, up get (Z.to_nat (NumberU64 b - n)) b = Some c
    ∧ lower get fuel (Some b) n acc = Ok (Some c, acc ++ below get (Z.to_nat (NumberU64 b - n)) b).
Proof.
  revert b acc. induction fuel as [|fuel IH]; intros b acc Hb Hn Hf.
  - assert (NumberU64 b = n) as E by lia. rewrite E, Z.sub_diag. exists b. split; [done|]. cbn.
    rewrite bool_decide_true by done. by rewrite app_nil_r.
  - cbn [lower]. case_bool_decide as E; [rewrite E, Z.sub_diag; exists b; cbn; by rewrite app_nil_r|].
    destruct (rooted_step b Hb) as (p&Hp&Hnp&Hrp); [lia|]. rewrite Hp.
    destruct (IH p (acc ++ [b])) as (c&Hc&Hl); [done|lia|lia|].
    replace (Z.to_nat (NumberU64 b - n)) with (S (Z.to_nat (NumberU64 p - n))) by lia.
    exists c. rewrite (up_parent _ _ _ Hp), (below_parent _ _ _ Hp). split; [done|]. rewrite Hl.
    by rewrite <- app_assoc.
Qed.

(** There is one genesis block. *)
Definition one_root : Prop := ∀ a b, rooted get a → rooted get b → NumberU64 a = 0 → NumberU64 b = 0 → a = b.

Lemma meet_spec stop0 fuel a b oc nc : stop0 = true ∨ one_root → rooted get a → rooted get b → NumberU64 a = NumberU64 b →
  (Z.to_nat (NumberU64 a) < fuel)%nat →
  ∃ k x, meet get stop0 fuel a b oc nc = Ok (x, oc ++ below get k a, nc ++ below get k b)
    ∧ parted a b k k ∧ (k = 0%nat → x = b).
Proof.
  intros Hroot. revert a b oc nc. induction fuel as [|fuel IH]; intros a b oc nc Ha Hb Hn Hf; [lia|]. cbn [meet].
  case_bool_decide as E.
  { exists 0%nat, b. rewrite !app_nil_r. split_and!; [done| |done]. left. exists b. split; [|done].
    cbn. f_equal. by apply stored_inj; [apply Ha|apply Hb|]. }
  destruct (decide (NumberU64 a = 0)) as [H0|H0].
  { destruct Hroot as [->|Hone]; [|exfalso; apply E; f_equal; apply Hone; [done|done|done|lia]].
    rewrite (bool_decide_true (NumberU64 a = 0)) by done. exists 1%nat, b. rewrite !below_one.
    split_and!; [done| |done]. right. lia. }
  rewrite !bool_decide_false by lia. pose proof (t_number _ Ht _ _ (r_stored _ _ Ha)).
  destruct (rooted_step a Ha) as (pa&Hpa&Hna&Hra); [lia|]. destruct (rooted_step b Hb) as (pb&Hpb&Hnb&Hrb); [lia|].
  cbn [orb]. rewrite andb_false_r, Hpa, Hpb. destruct (IH pa pb (oc ++ [a]) (nc ++ [b])) as (k&x&Hm&Hp&_); [done|done|lia|lia|].
  exists (S k), x. rewrite Hm, (below_parent _ _ _ Hpa), (below_parent _ _ _ Hpb), <- !app_assoc.
  split_and!; [done| |done]. destruct Hp as [(c&Hc1&Hc2)|]; [left|right; lia]. exists c.
  by rewrite (up_parent _ _ _ Hpa), (up_parent _ _ _ Hpb).
Qed.

(** The two steps find where the chains part. *)
Lemma fork_point_spec stop0 fuel a b : stop0 = true ∨ one_root → rooted get a → rooted get b →
  (Z.to_nat (NumberU64 a) < fuel)%nat → (Z.to_nat (NumberU64 b) < fuel)%nat →
  ∃ i j x, fork_point get stop0 fuel a b = Ok (x, below get i a, below get j b)
    ∧ parted a b i j ∧ (j = 0%nat → x = b).
Proof.
  intros Hroot Ha Hb Hfa Hfb. pose proof (t_number _ Ht _ _ (r_stored _ _ Ha)) as Hna.
  pose proof (t_number _ Ht _ _ (r_stored _ _ Hb)) as Hnb.
  assert (∀ k m d e, up get k d = Some e → below get k d ++ below get m e = below get (k + m) d) as Hcat
    by (intros k m d e He; by rewrite (below_app _ _ _ _ He)).
  unfold fork_point. case_bool_decide as Hlt.
  - destruct (lower_spec fuel a (NumberU64 b) []) as (c&Hc&Hl); [done|lia|lia|]. rewrite Hl.
    cbn [mbind result_bind fst snd app].
    pose proof (up_number _ _ _ (r_stored _ _ Ha) Hc) as Hnc.
    destruct (meet_spec stop0 fuel c b (below get (Z.to_nat (NumberU64 a - NumberU64 b)) a) []) as (k&x&Hm&Hp&Hx);
      [done|by apply (rooted_up _ _ _ Ha Hc)|done|lia|lia|].
    rewrite Hm, (Hcat _ _ _ _ Hc). eexists _, k, x. split_and!; [done| |done].
    destruct Hp as [(d&Hd1&Hd2)|]; [left|right; lia]. exists d. split; [|done]. by rewrite up_add, Hc.
  - destruct (lower_spec fuel b (NumberU64 a) []) as (c&Hc&Hl); [done|lia|lia|]. rewrite Hl.
    cbn [mbind result_bind fst snd app].
    pose proof (up_number _ _ _ (r_stored _ _ Hb) Hc) as Hnc.
    destruct (meet_spec stop0 fuel a c [] (below get (Z.to_nat (NumberU64 b - NumberU64 a)) b)) as (k&x&Hm&Hp&Hx);
      [done|done|by eapply rooted_up|lia|lia|].
    rewrite Hm, (Hcat _ _ _ _ Hc). eexists k, _, x. split_and!; [done| |].
    + destruct Hp as [(d&Hd1&Hd2)|]; [left|right; lia]. exists d. split; [done|]. by rewrite up_add, Hc.
    + intros H0. assert (k = 0%nat) as Hk by lia. rewrite (Hx Hk).
      assert (Z.to_nat (NumberU64 b - NumberU64 a) = 0%nat) as E by lia. rewrite E in Hc. by injection Hc.
Qed.
End tree.

(** ** More blocks in the tree *)
Lemma below_ext `{IBlock B} (get get' : Z → option B) (Heq : ∀ h, get' h = get h) n b : below get' n b = below get n b.
Proof. revert b. induction n as [|n IH]; intros b; [done|]. cbn [below]. rewrite Heq. by destruct (get _); rewrite ?IH. Qed.

Section extend.
Context `{IBlock B} (get get' : Z → option B) (Hsub : ∀ h b, get h = Some b → get' h = Some b).

Lemma up_mono k b c : up get k b = Some c → up get' k b = Some c.
Proof.
  revert b. induction k as [|k IH]; intros b Hc; [done|]. cbn in *.
  destruct (get (ParentHash b)) as [p|] eqn:Hp; [|done]. rewrite (Hsub _ _ Hp). by apply IH.
Qed.
Lemma below_mono n b : is_Some (up get n b) → below get' n b = below get n b.
Proof.
  revert b. induction n as [|n IH]; intros b Hb; [done|]. cbn [up below] in *.
  destruct (get (ParentHash b)) as [p|] eqn:Hp; [|by destruct Hb]. rewrite (Hsub _ _ Hp). by rewrite IH.
Qed.
Lemma rooted_mono b : rooted get b → rooted get' b.
Proof. intros [Hs [g Hg]]. split; [by apply Hsub|]. exists g. by apply up_mono. Qed.
Lemma canonical_mono canon b : tree_ok get → rooted get b → canonical_upto get canon b → canonical_upto get' canon b.
Proof.
  intros Ht Hr Hc n Hn. rewrite (Hc n Hn). destruct (rooted_at get Ht b n Hr Hn) as (c & Hup & _).
  by rewrite Hup, (up_mono _ _ _ Hup).
Qed.
End extend.
