(* ===== verification/Receipts.v ===== *)
(** * core/types: receipts, logs and the log filter

    Models src/core/types/receipt.go, src/core/types/bloom9.go and
    src/core/filter.go.  A receipt records what executing a transaction did; the
    2048-bit Bloom filter of a block's header lets a log query skip the blocks
    that cannot hold a match.  Keccak256 is a parameter. *)

From S2P Require Import Prelude StateDB Account Transaction Blocks.

Local Open Scope Z_scope.

Definition ReceiptStatusFailed : Z := 0.
Definition ReceiptStatusSuccessful : Z := 1.

Record Receipt := mkReceipt {
  PostState : list Z;
  Status : Z;
  CumulativeGasUsed : Z;
  Bloom : list Z;
  Logs : list Log;
  r_TxHash : Z;
  r_ContractAddress : Z;
  ContractFullShardKey : Z;
  r_GasUsed : Z;
}.

Definition NewReceipt (root : list Z) (failed : bool) (cumulativeGasUsed : Z) : Receipt :=
  mkReceipt root (if failed then ReceiptStatusFailed else ReceiptStatusSuccessful) cumulativeGasUsed
    (replicate 256 0) [] 0 0 0 0.

Definition GetPrevGasUsed (r : Receipt) : Z := u64 (CumulativeGasUsed r - r_GasUsed r).

Definition receiptStatusFailedRLP : list Z := [].
Definition receiptStatusSuccessfulRLP : list Z := [1].

Definition statusEncoding (r : Receipt) : list Z :=
  if bool_decide (length (PostState r) = 0%nat) then
    if Status r =? ReceiptStatusFailed then receiptStatusFailedRLP else receiptStatusSuccessfulRLP
  else PostState r.

Definition setStatus (postStateOrStatus : list Z) (r : Receipt) : result Receipt :=
  let with_status s := mkReceipt (PostState r) s (CumulativeGasUsed r) (Bloom r) (Logs r) (r_TxHash r)
                         (r_ContractAddress r) (ContractFullShardKey r) (r_GasUsed r) in
  if bool_decide (postStateOrStatus = receiptStatusSuccessfulRLP) then Ok (with_status ReceiptStatusSuccessful)
  else if bool_decide (postStateOrStatus = receiptStatusFailedRLP) then Ok (with_status ReceiptStatusFailed)
  else if bool_decide (length postStateOrStatus = 32%nat) then
    Ok (mkReceipt postStateOrStatus (Status r) (CumulativeGasUsed r) (Bloom r) (Logs r) (r_TxHash r)
          (r_ContractAddress r) (ContractFullShardKey r) (r_GasUsed r))
  else Err "invalid receipt status %x".

(** The struct that goes on the wire. *)
Record receiptSer := mkReceiptSer {
  rs_TxHash : Z;
  PostStateOrStatus : list Z;
  rs_CumulativeGasUsed : Z;
  PrevGasUsed : Z;
  rs_Bloom : list Z;
  rs_ContractAddress : Z * Z;
  rs_Logs : list Log;
}.
Definition receipt_Serialize (r : Receipt) : receiptSer :=
  mkReceiptSer (r_TxHash r) (statusEncoding r) (CumulativeGasUsed r) (GetPrevGasUsed r) (Bloom r)
    (r_ContractAddress r, ContractFullShardKey r) (Logs r).
Definition receipt_Deserialize (rs : receiptSer) (r : Receipt) : result Receipt :=
  r ← setStatus (PostStateOrStatus rs) r;
  Ok (mkReceipt (PostState r) (Status r) (rs_CumulativeGasUsed rs) (rs_Bloom rs) (rs_Logs rs) (rs_TxHash rs)
        (rs_ContractAddress rs).1 (rs_ContractAddress rs).2
        (u64 (rs_CumulativeGasUsed rs - PrevGasUsed rs))).

(** ** The Bloom filter *)
Section bloom.
Context (Keccak256 : list Z → list Z).

Definition BloomByteLength : nat := 256.

(** The bytes are copied to the end of the array. *)
Definition SetBytes (d : list Z) (b : list Z) : result (list Z) :=
  if bool_decide (BloomByteLength < length d)%nat then Panic "bloom bytes too big %d %d"
  else Ok (take (BloomByteLength - length d) b ++ d).
Definition BytesToBloom (b : list Z) : result (list Z) := SetBytes b (replicate BloomByteLength 0).

(** Three pairs of bytes of the digest each choose a bit; the digest has 32 bytes. *)
Definition bloom_bit (h : list Z) (i : nat) : Z :=
  Z.shiftl 1 (Z.land (default 0 (h !! S i) + Z.shiftl (default 0 (h !! i)) 8) 2047).
Definition bloom9 (b : list Z) : Z :=
  let h := Keccak256 b in
  foldl (fun r i => Z.lor r (bloom_bit h i)) 0 [0; 2; 4]%nat.

Definition Bloom_Add (d : Z) (b : list Z) : result (list Z) :=
  SetBytes (big_Bytes (Z.lor (be_value b) (bloom9 (big_Bytes d)))) b.

Definition LogsBloom (logs : list Log) : Z :=
  foldl (fun bin log =>
    foldl (fun bin t => Z.lor bin (bloom9 (be_bytes 32 t)))
      (Z.lor bin (bloom9 (be_bytes 20 (StateDB.Recipient log)))) (Topics log)) 0 logs.

Definition CreateBloom (receipts : list Receipt) : result (list Z) :=
  BytesToBloom (big_Bytes (foldl (fun bin r => Z.lor bin (LogsBloom (Logs r))) 0 receipts)).

Definition BloomLookup (bin : list Z) (topic : list Z) : bool :=
  let cmp := bloom9 topic in bool_decide (Z.land (be_value bin) cmp = cmp).
Definition Bloom_Test (b : list Z) (test : Z) : bool := BloomLookup b (big_Bytes test).
Definition Bloom_TestBytes (b : list Z) (test : list Z) : bool := Bloom_Test b (be_value test).

(** ** The log filter *)

Class Backend := {
  be_GetBlockByNumber : Z → option MinorBlock;
  be_GetReceiptsByHash : Z → list Receipt;
  be_GetLogs : Z → list (list Log);
}.

Record Filter := mkFilter {
  f_addresses : list Z;
  f_topics : list (list Z);
  f_begin : Z;
  f_end : Z;
}.
Definition NewRangeFilter (begin end_ : Z) (addresses : list Z) (topics : list (list Z)) : Filter :=
  mkFilter addresses topics begin end_.

Definition includes (addresses : list Z) (a : Z) : bool := existsb (fun addr => addr =? a) addresses.

(** The rules for the topics of a log, by position; an empty rule matches all. *)
Fixpoint topics_match (rules : list (list Z)) (topics : list Z) : bool :=
  match rules, topics with
  | [], _ => true
  | sub :: rules, t :: topics =>
      (bool_decide (length sub = 0%nat) || includes sub t) && topics_match rules topics
  | _ :: _, [] => false
  end.

Definition FilterLogs (logs : list Log) (fromBlock toBlock : option Z) (addresses : list Z) (topics : list (list Z))
    : list Log :=
  filter (fun log =>
    match fromBlock with Some n => (0 <=? i64 n) && (BlockNumber log <? u64 n) | None => false end = false
    ∧ match toBlock with Some n => (0 <=? i64 n) && (u64 n <? BlockNumber log) | None => false end = false
    ∧ (bool_decide (0 < length addresses)%nat && negb (includes addresses (StateDB.Recipient log))) = false
    ∧ bool_decide (length (Topics log) < length topics)%nat = false
    ∧ topics_match topics (Topics log) = true) logs.

Definition bloomFilter (bloom : list Z) (addresses : list Z) (topics : list (list Z)) : bool :=
  (bool_decide (length addresses = 0%nat) || existsb (fun a => BloomLookup bloom (be_bytes 20 a)) addresses)
  && forallb (fun sub => bool_decide (length sub = 0%nat) || existsb (fun t => BloomLookup bloom (be_bytes 32 t)) sub)
       topics.

Section filter.
Context `{Backend}.

Definition checkMatches (f : Filter) (header : MinorBlockHeader) : list Log :=
  let logs := FilterLogs (concat (be_GetLogs (mh_hash header))) None None (f_addresses f) (f_topics f) in
  match logs with
  | [] => []
  | log :: _ =>
      if StateDB.TxHash log =? 0 then
        FilterLogs (concat (Logs <$> be_GetReceiptsByHash (mh_hash header))) None None (f_addresses f) (f_topics f)
      else logs
  end.

Definition blockLogs (f : Filter) (header : MinorBlockHeader) : list Log :=
  if bloomFilter (mh_bloom header) (f_addresses f) (f_topics f) then checkMatches f header else [].

(** The loop over the blocks; None is out of fuel, which only [end_] being the
    largest uint64 can need for every range: the counter then wraps around. *)
Fixpoint unindexed_loop (fuel : nat) (f : Filter) (begin end_ : Z) (logs : list Log) : option (result (list Log)) :=
  if begin <=? end_ then
    match fuel with
    | O => None
    | S fuel =>
        match be_GetBlockByNumber begin with
        | None => Some (Err "no such block")
        | Some block => unindexed_loop fuel f (u64 (begin + 1)) end_ (logs ++ blockLogs f (mb_header block))
        end
    end
  else Some (Ok logs).
Definition filter_Logs (fuel : nat) (f : Filter) : option (result (list Log)) :=
  unindexed_loop fuel f (f_begin f) (f_end f) [].
End filter.
End bloom.

(** ** A filter never loses a match *)

(** Every bit of [c] is a bit of [bin]. *)
Definition covers (bin c : Z) : Prop := ∀ i, Z.testbit c i = true → Z.testbit bin i = true.

Lemma covers_land bin c : covers bin c ↔ Z.land bin c = c.
Proof.
  split.
  - intros Hc. apply Z.bits_inj. intros i. rewrite Z.land_spec.
    destruct (Z.testbit c i) eqn:E; [by rewrite (Hc i E)|by rewrite andb_false_r].
  - intros E i Hi. rewrite <- E, Z.land_spec in Hi. by apply andb_true_iff in Hi as [? _].
Qed.
Lemma covers_lor_l a b c : covers a c → covers (Z.lor a b) c.
Proof. intros H i Hi. rewrite Z.lor_spec. by rewrite (H i Hi). Qed.
Lemma covers_lor_r a c : covers (Z.lor a c) c.
Proof. intros i Hi. rewrite Z.lor_spec, Hi. apply orb_true_r. Qed.

#[export] Hint Resolve covers_lor_l covers_lor_r : qkc.

(** Folding [lor] keeps what is covered and covers what each element adds. *)
Lemma covers_fold_keep {A} (f : Z → A → Z) (l : list A) bin c :
  (∀ b x, covers b c → covers (f b x) c) → covers bin c → covers (foldl f bin l) c.
Proof. intros Hf. revert bin. induction l as [|x l IH]; intros bin Hb; cbn; [done|]. auto. Qed.
Lemma covers_fold_elem {A} (f : Z → A → Z) (l : list A) bin x c :
  (∀ b y, covers b c → covers (f b y) c) → (∀ b, covers (f b x) c) → x ∈ l → covers (foldl f bin l) c.
Proof.
  intros Hk Hx. revert bin. induction l as [|y l IH]; intros bin Hin; [by apply not_elem_of_nil in Hin|].
  cbn. apply elem_of_cons in Hin as [->|Hin]; [by apply covers_fold_keep|by apply IH].
Qed.

(** Folding [lor] stays in the range of the filter. *)
Lemma lor_range a b n : 0 <= n → 0 <= a < 2 ^ n → 0 <= b < 2 ^ n → 0 <= Z.lor a b < 2 ^ n.
Proof.
  intros Hn Ha Hb. destruct (decide (a = 0)) as [->|Ha0]; [by rewrite Z.lor_0_l|].
  destruct (decide (b = 0)) as [->|Hb0]; [by rewrite Z.lor_0_r|].
  assert (0 <= Z.lor a b) by (apply Z.lor_nonneg; lia). split; [done|].
  assert (Z.lor a b ≠ 0) by (intros E; apply Z.lor_eq_0_iff in E; lia).
  apply Z.log2_lt_pow2; [lia|]. rewrite Z.log2_lor by lia.
  apply Z.max_lub_lt; apply Z.log2_lt_pow2; lia.
Qed.
Lemma range_fold {A} (f : Z → A → Z) (l : list A) bin n :
  (∀ b x, 0 <= b < 2 ^ n → 0 <= f b x < 2 ^ n) → 0 <= bin < 2 ^ n → 0 <= foldl f bin l < 2 ^ n.
Proof. intros Hf. revert bin. induction l as [|x l IH]; intros bin Hb; cbn; [done|]. auto. Qed.

Section bloom_correct.
Context (Keccak256 : list Z → list Z).

Abbreviation bloom9 := (bloom9 Keccak256).
Abbreviation LogsBloom := (LogsBloom Keccak256).
Abbreviation CreateBloom := (CreateBloom Keccak256).

Lemma bloom_bit_range h i : 0 <= bloom_bit h i < 2 ^ 2048.
Proof.
  unfold bloom_bit. set (k := Z.land _ 2047).
  assert (0 <= k < 2048).
  { unfold k. change 2047 with (Z.ones 11). rewrite Z.land_ones by lia. apply Z.mod_pos_bound. lia. }
  rewrite Z.shiftl_1_l. split; [apply Z.pow_nonneg; lia|apply Z.pow_lt_mono_r; lia].
Qed.
Lemma bloom9_range b : 0 <= bloom9 b < 2 ^ 2048.
Proof.
  apply range_fold; [|lia]. intros r i Hr. apply lor_range; [lia|done|apply bloom_bit_range].
Qed.
Lemma LogsBloom_range logs : 0 <= LogsBloom logs < 2 ^ 2048.
Proof.
  apply range_fold; [|lia]. intros bin log Hbin. apply range_fold.
  - intros b t Hb. apply lor_range; [lia|done|apply bloom9_range].
  - apply lor_range; [lia|done|apply bloom9_range].
Qed.

Lemma LogsBloom_covers logs log c :
  log ∈ logs →
  c = bloom9 (be_bytes 20 (StateDB.Recipient log)) ∨ (∃ t, t ∈ Topics log ∧ c = bloom9 (be_bytes 32 t)) →
  covers (LogsBloom logs) c.
Proof.
  intros Hin Hc. eapply covers_fold_elem; [| |exact Hin].
  - intros b y Hb. apply covers_fold_keep; auto with qkc.
  - intros b. destruct Hc as [->|(t&Ht&->)].
    + apply covers_fold_keep; auto with qkc.
    + eapply covers_fold_elem; [| |exact Ht]; auto with qkc.
Qed.

Definition bloom_of (receipts : list Receipt) : Z := foldl (fun bin r => Z.lor bin (LogsBloom (Logs r))) 0 receipts.
Lemma bloom_of_range receipts : 0 <= bloom_of receipts < 2 ^ 2048.
Proof. apply range_fold; [|lia]. intros b r Hb. apply lor_range; [lia|done|apply LogsBloom_range]. Qed.

(** The filter of a block always exists and is the number of its bits. *)
Lemma CreateBloom_ok receipts :
  ∃ b, CreateBloom receipts = Ok b ∧ be_value b = bloom_of receipts ∧ length b = BloomByteLength.
Proof.
  pose proof (bloom_of_range receipts) as Hr. unfold CreateBloom, BytesToBloom, SetBytes.
  assert (length (big_Bytes (bloom_of receipts)) ≤ BloomByteLength)%nat as Hlen.
  { rewrite length_big_Bytes. apply big_len_le. change (256 ^ Z.of_nat BloomByteLength) with (2 ^ 2048). lia. }
  rewrite bool_decide_false by (fold (bloom_of receipts); lia). eexists. split; [done|]. fold (bloom_of receipts).
  rewrite take_replicate, be_value_app.
  assert (∀ n, be_value (replicate n 0) = 0) as Hz.
  { induction n as [|n IH]; [done|]. cbn [replicate]. rewrite be_value_cons, IH. lia. }
  rewrite Hz. change (be_value (big_Bytes ?z)) with (big_SetBytes (big_Bytes z)). rewrite big_SetBytes_Bytes.
  split; [lia|]. rewrite length_app, length_replicate. lia.
Qed.

Lemma CreateBloom_covers receipts b r log c :
  CreateBloom receipts = Ok b → r ∈ receipts → log ∈ Logs r →
  c = bloom9 (be_bytes 20 (StateDB.Recipient log)) ∨ (∃ t, t ∈ Topics log ∧ c = bloom9 (be_bytes 32 t)) →
  covers (be_value b) c.
Proof.
  intros Hb Hr Hlog Hc. destruct (CreateBloom_ok receipts) as (b'&Hb'&Hv&_). rewrite Hb in Hb'. simplify_eq.
  rewrite Hv. unfold bloom_of. eapply covers_fold_elem; [| |exact Hr].
  - intros x y Hx. by apply covers_lor_l.
  - intros x. pose proof (LogsBloom_covers _ _ _ Hlog Hc) as H. intros i Hi. rewrite Z.lor_spec, (H i Hi).
    apply orb_true_r.
Qed.

Lemma BloomLookup_covers b d : BloomLookup Keccak256 b d = true ↔ covers (be_value b) (bloom9 d).
Proof. unfold BloomLookup. rewrite bool_decide_eq_true. symmetry. apply covers_land. Qed.

Lemma includes_elem l a : includes l a = true ↔ a ∈ l.
Proof.
  unfold includes. rewrite existsb_exists. setoid_rewrite Z.eqb_eq. setoid_rewrite <- list_elem_of_In.
  split; [by intros (x&Hx&->)|by exists a].
Qed.

(** A log that the criteria accept is in a block whose filter passes. *)
Lemma topics_match_bloom b rules topics :
  (∀ t, t ∈ topics → covers (be_value b) (bloom9 (be_bytes 32 t))) → topics_match rules topics = true →
  forallb (fun sub => bool_decide (length sub = 0%nat)
    || existsb (fun t => BloomLookup Keccak256 b (be_bytes 32 t)) sub) rules = true.
Proof.
  revert topics. induction rules as [|sub rules IH]; intros [|t topics] Hb Hm; cbn in *; try done.
  apply andb_true_iff in Hm as [Ht Hm]. apply andb_true_iff. split.
  - apply orb_true_iff in Ht as [->|Ht]; [done|]. apply orb_true_iff. right. apply existsb_exists.
    exists t. split; [by apply list_elem_of_In, includes_elem|]. apply BloomLookup_covers, Hb. left.
  - apply (IH topics); [|done]. intros t' Ht'. apply Hb. by right.
Qed.

(** What the criteria ask for: one of the addresses, if there are any, and for
    each rule a topic of the log at its position that is in the rule, if it is not
    empty. *)
Definition accepts (addresses : list Z) (topics : list (list Z)) (log : Log) : Prop :=
  (addresses = [] ∨ StateDB.Recipient log ∈ addresses)
  ∧ Forall2 (fun rule t => rule = [] ∨ t ∈ rule) topics (take (length topics) (Topics log)).
#[export] Instance accepts_dec addresses topics log : Decision (accepts addresses topics log).
Proof. unfold accepts. apply _. Defined.

Lemma topics_match_spec rules topics :
  topics_match rules topics = true ↔ Forall2 (fun rule t => rule = [] ∨ t ∈ rule) rules (take (length rules) topics).
Proof.
  revert topics. induction rules as [|rule rules IH]; intros [|t topics]; cbn [topics_match length take].
  - split; [constructor|done].
  - split; [constructor|done].
  - split; [done|]. intros Hf. inversion Hf.
  - rewrite andb_true_iff, orb_true_iff, bool_decide_eq_true, includes_elem, IH, Forall2_cons.
    assert (length rule = 0%nat ↔ rule = []) as -> by (destruct rule; cbn; split; done). done.
Qed.
Lemma topics_match_length rules topics : topics_match rules topics = true → (length rules ≤ length topics)%nat.
Proof.
  revert topics. induction rules as [|s rules IH]; intros [|t topics] Hm; cbn in *; try (done || lia).
  apply andb_true_iff in Hm as [_ Hm]. apply IH in Hm. lia.
Qed.
Lemma FilterLogs_accepts logs addresses topics :
  FilterLogs logs None None addresses topics = filter (accepts addresses topics) logs.
Proof.
  unfold FilterLogs. apply list_filter_iff. intros log. unfold accepts. split.
  - intros (_&_&Ha&_&Ht). split; [|by apply topics_match_spec]. destruct addresses as [|a l]; [by left|]. right. apply includes_elem.
    rewrite bool_decide_true in Ha by (cbn; lia). by apply negb_false_iff in Ha.
  - intros [Ha Ht]. split_and!; try done.
    + apply andb_false_iff. destruct Ha as [->|Ha]; [by left|]. right. apply negb_false_iff. by apply includes_elem.
    + apply bool_decide_eq_false. apply topics_match_spec, topics_match_length in Ht. lia.
    + by apply topics_match_spec.
Qed.

Lemma bloomFilter_accepts receipts b r log addresses topics :
  CreateBloom receipts = Ok b → r ∈ receipts → log ∈ Logs r → accepts addresses topics log →
  bloomFilter Keccak256 b addresses topics = true.
Proof.
  intros Hb Hr Hlog [Ha Ht]. unfold bloomFilter. apply andb_true_iff. split.
  - destruct Ha as [->|Ha]; [done|]. apply orb_true_iff. right. apply existsb_exists. exists (StateDB.Recipient log).
    split; [by apply list_elem_of_In|]. apply BloomLookup_covers. eapply CreateBloom_covers; eauto.
  - apply (topics_match_bloom b _ (Topics log)); [|by apply topics_match_spec]. intros t Hin. eapply CreateBloom_covers; eauto.
Qed.
End bloom_correct.

Section filter_correct.
Context (Keccak256 : list Z → list Z) `{Backend}.

(** What the filter relies on: the logs of a block are those of the receipts the
    chain returns for it, and these are among the receipts the filter in the
    header was made from. *)
Definition backend_ok (n : Z) (b : MinorBlock) : Prop :=
  be_GetBlockByNumber n = Some b
  ∧ be_GetLogs (Hash b) = Logs <$> be_GetReceiptsByHash (Hash b)
  ∧ ∃ made, CreateBloom Keccak256 made = Ok (mh_bloom (mb_header b)) ∧ be_GetReceiptsByHash (Hash b) ⊆ made.

Definition matches (f : Filter) (b : MinorBlock) : list Log :=
  filter (accepts (f_addresses f) (f_topics f)) (concat (Logs <$> be_GetReceiptsByHash (Hash b))).

Lemma elem_of_logs log (receipts : list Receipt) :
  log ∈ concat (Logs <$> receipts) ↔ ∃ r, r ∈ receipts ∧ log ∈ Logs r.
Proof.
  rewrite list_elem_of_In, in_concat. split.
  - intros (l&Hl&Hlog). apply list_elem_of_In in Hl, Hlog. apply list_elem_of_fmap in Hl as (r&->&Hr). eauto.
  - intros (r&Hr&Hlog). exists (Logs r). rewrite <- !list_elem_of_In. split; [|done].
    apply list_elem_of_fmap. eauto.
Qed.

Lemma blockLogs_matches f n b : backend_ok n b → blockLogs Keccak256 f (mb_header b) = matches f b.
Proof.
  intros (_&Hlogs&made&Hbloom&Hsub). unfold blockLogs, checkMatches, matches. change (mh_hash (mb_header b)) with (Hash b).
  rewrite Hlogs, !FilterLogs_accepts. destruct (bloomFilter _ _ _) eqn:Hf.
  - destruct (filter _ _) as [|log l] eqn:E; [done|]. by case_match.
  - symmetry. apply filter_none. apply Forall_forall. intros log Hlog Hacc. apply elem_of_logs in Hlog as (r&Hr&Hin).
    by rewrite (bloomFilter_accepts _ _ _ _ _ _ _ Hbloom (Hsub _ Hr) Hin Hacc) in Hf.
Qed.

(** C39: a log query returns every log the criteria accept of the receipts the
    chain returns for the blocks of its range, in their order, and no other: the
    Bloom filters of the headers never hide a match, as long as each filter was
    made from receipts that include those.  With a block missing in the range the
    query fails.  (The range ends below the largest number of a block.) *)
Theorem filter_Logs_complete fuel f (blocks : list MinorBlock) :
  0 <= f_begin f → f_end f < 2 ^ 64 - 1 → (length blocks < fuel)%nat →
  (∀ i b, blocks !! i = Some b → backend_ok (f_begin f + Z.of_nat i) b) →
  let next := f_begin f + Z.of_nat (length blocks) in
  (next = f_end f + 1 → filter_Logs Keccak256 fuel f = Some (Ok (concat (matches f <$> blocks))))
  ∧ (next <= f_end f → be_GetBlockByNumber next = None → filter_Logs Keccak256 fuel f = Some (Err "no such block"%string)).
Proof.
  intros Hb He Hfuel Hok. unfold filter_Logs. rewrite <- (app_nil_l (concat _)). revert fuel Hb Hfuel Hok.
  generalize (f_begin f) as begin, (@nil Log) as acc. induction blocks as [|b blocks IH]; intros begin acc fuel Hb Hfuel Hok.
  { cbn [length fmap list_fmap concat]. rewrite app_nil_r, Z.add_0_r. destruct fuel as [|fuel]; [cbn in Hfuel; lia|]. cbn [unindexed_loop].
    split; intros Hn; [destruct (Z.leb_spec begin (f_end f)); [lia|done]|].
    intros Hno. destruct (Z.leb_spec begin (f_end f)); [by rewrite Hno|lia]. }
  destruct fuel as [|fuel]; [lia|]. cbn [length] in Hfuel.
  assert (∀ r, begin + Z.of_nat (length (b :: blocks)) <= f_end f + 1 →
    unindexed_loop Keccak256 fuel f (begin + 1) (f_end f) (acc ++ matches f b) = r →
    unindexed_loop Keccak256 (S fuel) f begin (f_end f) acc = r) as Hstep.
  { intros r Hn <-. cbn [length] in Hn. cbn [unindexed_loop]. destruct (Z.leb_spec begin (f_end f)); [|lia].
    pose proof (Hok 0%nat b eq_refl) as Hb0. rewrite Z.add_0_r in Hb0. rewrite (proj1 Hb0), u64_id by (unfold in_u64; lia).
    by rewrite (blockLogs_matches f begin b Hb0). }
  destruct (IH (begin + 1) (acc ++ matches f b) fuel) as [IH1 IH2]; [lia|lia| |].
  { intros i b' Hi. specialize (Hok (S i) b' Hi). by replace (begin + 1 + Z.of_nat i) with (begin + Z.of_nat (S i)) by lia. }
  cbn [length] in *. replace (begin + 1 + Z.of_nat (length blocks)) with (begin + Z.of_nat (S (length blocks))) in * by lia.
  split; intros Hn.
  - apply Hstep; [lia|]. rewrite IH1 by done. cbn [fmap list_fmap concat]. by rewrite app_assoc.
  - intros Hno. apply Hstep; [lia|]. by apply IH2.
Qed.
End filter_correct.

(** A block with two logs, asked for the logs of address 7 with topic 9. *)
Section demo.
Definition demo_keccak (b : list Z) : list Z := b ++ replicate 32 0.
Definition demo_log (a t : Z) : Log := mkLog a [t] [] 0 5 0 0 0.
Definition demo_receipt : Receipt := mkReceipt [] 1 0 [] [demo_log 7 9; demo_log 8 9; demo_log 7 3] 5 0 0 0.
Definition demo_bloom : list Z :=
  match CreateBloom demo_keccak [demo_receipt] with Ok b => b | _ => [] end.
Definition demo_block : MinorBlock :=
  mkMinorBlock (mkMinorHeader 11 0 (mkBranch 1) 0 (mkAddress [] 0) ∅ 0 0 0 0 0 0 0 demo_bloom [] 0)
    (mkMeta 0 0 0 0 0 None 0) [].
Local Instance demo_backend : Backend := {
  be_GetBlockByNumber n := if n =? 0 then Some demo_block else None;
  be_GetReceiptsByHash h := if h =? 11 then [demo_receipt] else [];
  be_GetLogs h := if h =? 11 then [Logs demo_receipt] else [];
}.

Lemma filter_Logs_witness :
  filter_Logs demo_keccak 2 (NewRangeFilter 0 0 [7] [[9]])
  = Some (Ok (concat (matches (NewRangeFilter 0 0 [7] [[9]]) <$> [demo_block])))
  ∧ matches (NewRangeFilter 0 0 [7] [[9]]) demo_block = [demo_log 7 9].
Proof.
  split; [|vm_compute; reflexivity].
  refine (proj1 (filter_Logs_complete demo_keccak 2 (NewRangeFilter 0 0 [7] [[9]]) [demo_block] _ _ _ _) _);
    [cbn; lia|cbn; lia|cbn; lia| |reflexivity].
  intros [|i] b Hi; [|done]. injection Hi as <-. split; [reflexivity|]. split; [reflexivity|].
  exists [demo_receipt]. split; [vm_compute; reflexivity|]. intros r Hr. exact Hr.
Defined.
End demo.

(** ** Receipts on the wire *)

(** The status, or the post-state of 32 bytes, survives, as does every other
    field; the gas of the transaction is rebuilt from the cumulative gas. *)
Lemma receipt_roundtrip r r0 :
  (PostState r = [] ∧ (Status r = 0 ∨ Status r = 1) ∨ length (PostState r) = 32%nat ∧ Status r = Status r0) →
  (PostState r = [] → PostState r0 = []) → in_u64 (r_GasUsed r) →
  receipt_Deserialize (receipt_Serialize r) r0 = Ok r.
Proof.
  intros Hs H0 Hg. assert (u64 (CumulativeGasUsed r - GetPrevGasUsed r) = r_GasUsed r) as Hgas.
  { unfold GetPrevGasUsed, u64. rewrite Zminus_mod_idemp_r. replace (_ - _) with (r_GasUsed r) by lia. by apply u64_id. }
  unfold receipt_Deserialize, receipt_Serialize, setStatus, statusEncoding; cbn.
  destruct r as [ps st cg bl lg th ca ck gu]; cbn in *. destruct Hs as [[-> [->| ->]]|[Hl ->]]; cbn in *.
  - by rewrite H0, Hgas.
  - by rewrite H0, Hgas.
  - rewrite (bool_decide_false (length ps = 0%nat)) by lia.
    rewrite (bool_decide_false (ps = [1])) by (intros ->; cbn in Hl; lia).
    rewrite (bool_decide_false (ps = [])) by (intros ->; cbn in Hl; lia).
    rewrite bool_decide_true by done. cbn. by rewrite Hgas.
Qed.
