(* ===== verification/Merkle.v ===== *)
(** * core/types: Merkle roots

    Models CalculateMerkleRoot of src/core/types/derive_sha.go, which binds the
    transactions of a minor block and the minor block headers of a root block to
    the header.  The elements are given by their serialisations; Keccak-256 is a
    parameter, of which only the length of its digests is used. *)

From S2P Require Import Prelude Utils.
From Stdlib Require Import ZifyNat.

Local Open Scope Z_scope.

Section merkle.
Context (sha3_256 : list Z → list Z).

Definition zero_hash : list Z := replicate 32 0.

(** The hashes of the pairs of an even list. *)
Fixpoint pair_up (l : list (list Z)) : list (list Z) :=
  match l with
  | a :: b :: l => sha3_256 (a ++ b) :: pair_up l
  | _ => []
  end.
Definition pad (zBytes : list Z) (l : list (list Z)) : list (list Z) :=
  if Nat.odd (length l) then l ++ [zBytes] else l.

(** The levels of the tree, an odd one completed by the hash of an empty
    subtree of its height; None is out of fuel. *)
Fixpoint merkle_loop (fuel : nat) (zBytes : list Z) (l : list (list Z)) : option (list Z) :=
  match l with
  | [h] => Some h
  | _ =>
      match fuel with
      | O => None
      | S fuel => merkle_loop fuel (sha3_256 (zBytes ++ zBytes)) (pair_up (pad zBytes l))
      end
  end.

Definition CalculateMerkleRoot (items : list (list Z)) : option (list Z) :=
  let hashList := if bool_decide (length items = 0%nat) then [zero_hash] else sha3_256 <$> items in
  h ← merkle_loop (length items) zero_hash hashList;
  Some (sha3_256 (h ++ Uint64ToBytes (u64 (Z.of_nat (length items))))).

(** ** Properties *)

Definition collision : Prop := ∃ a b, a ≠ b ∧ sha3_256 a = sha3_256 b.

Lemma sha_eq a b : sha3_256 a = sha3_256 b → a = b ∨ collision.
Proof. intros E. destruct (decide (a = b)) as [|Hne]; [by left|right; by exists a, b]. Qed.

(** Two elements at a time. *)
Lemma list_pair_ind {A} (P : list A → Prop) :
  P [] → (∀ a, P [a]) → (∀ a b l, P l → P (a :: b :: l)) → ∀ l, P l.
Proof.
  intros H0 H1 H2. fix IH 1. intros [|a [|b l]]; [exact H0|exact (H1 a)|exact (H2 a b l (IH l))].
Qed.

Lemma length_pair_up l : length (pair_up l) = (length l / 2)%nat.
Proof.
  induction l as [|a|a b l IH] using list_pair_ind; [done|done|]. cbn [pair_up length]. rewrite IH.
  replace (S (S (length l))) with (length l + 1 * 2)%nat by lia. rewrite Nat.div_add by lia. lia.
Qed.
Lemma length_pad z l : length (pad z l) = (length l + length l mod 2)%nat.
Proof.
  unfold pad. rewrite <- Nat.bit0_odd, Nat.bit0_eqb. pose proof (Nat.mod_upper_bound (length l) 2).
  destruct (Nat.eqb_spec (length l mod 2) 1) as [->|Hne]; [rewrite length_app; cbn; lia|].
  assert (length l mod 2 = 0)%nat as -> by lia. lia.
Qed.
Lemma length_level z l : length (pair_up (pad z l)) = ((length l + 1) / 2)%nat.
Proof.
  rewrite length_pair_up, length_pad. zify. Z.to_euclidean_division_equations. lia.
Qed.

(** Every level has half the hashes: the loop ends. *)
Lemma merkle_loop_ends fuel z l : l ≠ [] → (length l ≤ fuel)%nat → is_Some (merkle_loop fuel z l).
Proof.
  revert z l. induction fuel as [|fuel IH]; intros z l Hne Hl; [destruct l; cbn in *; [done|lia]|].
  destruct l as [|a [|b l]]; [done|by eexists|]. cbn [merkle_loop].
  pose proof (length_level z (a :: b :: l)) as Hlen. cbn [length] in Hlen, Hl.
  apply IH.
  - intros E. rewrite E in Hlen. cbn [length] in Hlen. zify. Z.to_euclidean_division_equations. lia.
  - rewrite Hlen. zify. Z.to_euclidean_division_equations. lia.
Qed.

Definition hashes (l : list (list Z)) : Prop := Forall (fun h => length h = 32%nat) l.

Section binding.
Hypothesis sha_length : ∀ m, length (sha3_256 m) = 32%nat.

Lemma pair_up_hashes l : hashes (pair_up l).
Proof. induction l as [|a|a b l IH] using list_pair_ind; cbn; try constructor; auto. Qed.

Lemma pair_up_inj l k : hashes l → hashes k → length l = length k → Nat.even (length l) = true →
  pair_up l = pair_up k → l = k ∨ collision.
Proof.
  revert k. induction l as [|a|a b l IH] using list_pair_ind; intros k Hl Hk Hlen Hev E.
  - destruct k; [by left|done].
  - done.
  - destruct k as [|c [|d k]]; try done. cbn [pair_up] in E. injection E as E1 E2.
    apply Forall_cons in Hl as [Ha Hl]. apply Forall_cons in Hl as [Hb Hl].
    apply Forall_cons in Hk as [Hc Hk]. apply Forall_cons in Hk as [Hd Hk].
    destruct (sha_eq _ _ E1) as [E3|]; [|by right]. apply app_inj_1 in E3 as [-> ->]; [|congruence].
    cbn [length] in Hlen. destruct (IH k Hl Hk ltac:(lia) Hev E2) as [->|]; [by left|by right].
Qed.

Lemma level_inj z l k : length z = 32%nat → hashes l → hashes k → length l = length k →
  pair_up (pad z l) = pair_up (pad z k) → l = k ∨ collision.
Proof.
  intros Hz Hl Hk Hlen E. assert (∀ m, hashes m → hashes (pad z m)) as Hpad.
  { intros m Hm. unfold pad. destruct (Nat.odd _); [|done]. apply Forall_app. split; [done|]. by constructor. }
  destruct (pair_up_inj (pad z l) (pad z k)) as [E2|]; auto.
  - rewrite !length_pad, Hlen. done.
  - rewrite length_pad. apply Nat.even_spec. exists ((length l + length l mod 2) / 2)%nat.
    zify. Z.to_euclidean_division_equations. lia.
  - left. unfold pad in E2. rewrite Hlen in E2. destruct (Nat.odd (length k)); [|done].
    by apply app_inj_2 in E2 as [? _].
Qed.

Lemma merkle_loop_inj fuel z l k r : length z = 32%nat → hashes l → hashes k → length l = length k →
  merkle_loop fuel z l = Some r → merkle_loop fuel z k = Some r → l = k ∨ collision.
Proof.
  revert z l k. induction fuel as [|fuel IH]; intros z l k Hz Hl Hk Hlen El Ek.
  - destruct l as [|a [|b l]]; try done. destruct k as [|c [|d k]]; try done. cbn in *. left. congruence.
  - destruct l as [|a [|b l]], k as [|c [|d k]]; try done; try (cbn in *; left; congruence).
    cbn [merkle_loop] in El, Ek.
    destruct (IH (sha3_256 (z ++ z)) (pair_up (pad z (a :: b :: l))) (pair_up (pad z (c :: d :: k))))
      as [E|]; auto using pair_up_hashes.
    + by rewrite !length_level, Hlen.
    + by apply (level_inj z).
Qed.

Lemma map_sha_inj (l k : list (list Z)) : sha3_256 <$> l = sha3_256 <$> k → l = k ∨ collision.
Proof.
  revert k. induction l as [|a l IH]; intros [|b k] E; try done; [by left|]. cbn in E. injection E as E1 E2.
  destruct (sha_eq _ _ E1) as [->|]; [|by right]. destruct (IH k E2) as [->|]; [by left|by right].
Qed.

(** The Merkle root always exists and determines the list: two lists with
    the same root are equal, unless two different inputs of the hash with the
    same digest have been found. *)
Theorem CalculateMerkleRoot_binding items items' :
  Z.of_nat (length items) < 2 ^ 64 → Z.of_nat (length items') < 2 ^ 64 →
  is_Some (CalculateMerkleRoot items)
  ∧ (CalculateMerkleRoot items = CalculateMerkleRoot items' → items = items' ∨ collision).
Proof.
  intros Hn Hn'.
  set (leaves l := if bool_decide (length l = 0%nat) then [zero_hash] else sha3_256 <$> l).
  assert (∀ l, hashes (leaves l)) as Hlv.
  { intros l. unfold leaves. case_bool_decide; [by repeat constructor|]. apply Forall_fmap, Forall_true. intros; apply sha_length. }
  assert (∀ l, ∃ h, merkle_loop (length l) zero_hash (leaves l) = Some h ∧ length h = 32%nat) as Hex.
  { intros l. assert (is_Some (merkle_loop (length l) zero_hash (leaves l))) as [h Hh].
    { destruct l as [|x l]; [by eexists|]. unfold leaves. rewrite bool_decide_false by done.
      apply merkle_loop_ends; [done|]. by rewrite length_fmap. }
    exists h. split; [done|]. revert Hh. generalize (length l) as fuel, zero_hash as z. intros fuel.
    specialize (Hlv l). revert Hlv. generalize (leaves l) as m. induction fuel as [|fuel IH]; intros m Hm z Hh.
    - destruct m as [|a [|b m]]; try done. cbn in Hh. simplify_eq. by apply Forall_cons in Hm as [? _].
    - destruct m as [|a [|b m]]; cbn in Hh.
      + by apply (IH [] Hm (sha3_256 (z ++ z))).
      + simplify_eq. by apply Forall_cons in Hm as [? _].
      + eapply IH; [apply pair_up_hashes|exact Hh]. }
  unfold CalculateMerkleRoot. fold (leaves items) (leaves items').
  destruct (Hex items) as (h&Hh&Hlh), (Hex items') as (h'&Hh'&Hlh'). rewrite Hh, Hh'. cbn [mbind option_bind]. split; [by eexists|].
  intros [= E]. destruct (sha_eq _ _ E) as [E2|]; [|by right].
  apply app_inj_1 in E2 as [<- E2]; [|congruence].
  rewrite !u64_id in E2 by (unfold in_u64; lia). unfold Uint64ToBytes in E2.
  apply (f_equal be_value) in E2. rewrite !be_value_bytes, !Z.mod_small in E2 by (cbn; lia).
  assert (length items = length items') as Hlen by lia. rewrite <- Hlen in Hh'.
  destruct (merkle_loop_inj (length items) zero_hash (leaves items) (leaves items') h) as [E3|]; auto.
  - unfold leaves. rewrite Hlen. case_bool_decide; [done|]. by rewrite !length_fmap.
  - unfold leaves in E3. rewrite Hlen in E3. case_bool_decide as H0.
    + destruct items, items'; cbn in *; try (lia || done). by left.
    + by apply map_sha_inj.
Qed.
End binding.
End merkle.

Lemma CalculateMerkleRoot_witness :
  let sha m := be_bytes 32 (be_value m * 31 + 7) in
  is_Some (CalculateMerkleRoot sha [[1]; [2]; [3]])
  ∧ (CalculateMerkleRoot sha [[1]; [2]; [3]] = CalculateMerkleRoot sha [[1]; [2]; [3]] →
     [[1]; [2]; [3]] = [[1]; [2]; [3]] ∨ collision sha).
Proof.
  intros sha. apply (CalculateMerkleRoot_binding sha (fun m => length_be_bytes 32 _) [[1]; [2]; [3]] [[1]; [2]; [3]]);
    cbn; lia.
Defined.
