(* ===== verification/RawDb.v ===== *)
(** * core/rawdb: the database of a chain

    Models src/core/rawdb (schema.go, accessors_chain.go, accessors_indexes.go,
    accessors_metadata.go).  Every value is filed under a key built from a
    prefix and a hash or number.  [key_bytes] builds the keys; the theorem on it
    says that no two entries of the database share a key, which is why the store
    below is one finite map per prefix.  Values are kept decoded: writing then
    reading one is the round trip of the serialisation (SerializeCorrect.v) or of
    RLP.  A failing Put or Delete ends the process (log.Crit) and is not a value
    of the model; a batch is the function its Write applies to the store. *)

From S2P Require Import Prelude StateDB Account Transaction Blocks Receipts.

Local Open Scope Z_scope.

(** ** The schema *)

Inductive ChainType := ChainTypeRoot | ChainTypeMinor.

Definition encodeBlockNumber (number : Z) : list Z := be_bytes 8 number.
Definition encodeUint32 (number : Z) : list Z := be_bytes 4 number.

(** The keys of the schema, of the transaction history index of
    minorblockchain_addon.go, and the bare hash under which a trie node or the
    code of a contract is stored. *)
Inductive dbkey :=
| databaseVersionKey
| headHeaderKey
| headBlockKey
| headFastBlockKey
| rbCommittingKey
| fastTrieProgressKey
| headerKey (hash : Z)
| latestMHeaderKey (hash : Z)
| headerHashKey (chainType : ChainType) (number : Z)
| headerNumberKey (hash : Z)
| blockKey (hash : Z)
| blockReceiptsKey (hash : Z)
| lookupKey (hash : Z)
| bloomBitsKey (bit section hash : Z)
| preimageKey (hash : Z)
| configKey (hash : Z)
| totalTxCountKey (hash : Z)
| makeConfirmedXShardKey (hash : Z)
| makeXShardTxList (hash : Z)
| makeGenesisKey (hash : Z)
| makeRLastMHash (hash : Z)
| makeMinorCount (fullShardID height : Z)
| makeMinorBlockCoinbase (mHash : Z)
| makeRootBlockConfirmingMinorBlock (mHash fullShardID : Z)
| makeXShardDepositHashList (h : Z)
| addressTxKey (addr height : Z) (crossShard : bool) (index : Z)
| allTxKey (height : Z) (crossShard : bool) (index : Z)
| trieNodeKey (hash : Z).

Definition ascii (s : string) : list Z := (fun c => Z.of_N (Ascii.N_of_ascii c)) <$> String.list_ascii_of_string s.
Definition crossShardByte (crossShard : bool) : Z := if crossShard then 0 else 1.

Definition key_bytes (k : dbkey) : list Z :=
  match k with
  | databaseVersionKey => ascii "DatabaseVersion"
  | headHeaderKey => ascii "LastHeader"
  | headBlockKey => ascii "LastBlock"
  | headFastBlockKey => ascii "LastFast"
  | rbCommittingKey => ascii "rbCommitting"
  | fastTrieProgressKey => ascii "TrieSync"
  | headerKey h => ascii "h" ++ be_bytes 32 h
  | latestMHeaderKey h => ascii "lmh" ++ be_bytes 32 h
  | headerHashKey ChainTypeRoot n => ascii "rn" ++ encodeBlockNumber n
  | headerHashKey ChainTypeMinor n => ascii "mn" ++ encodeBlockNumber n
  | headerNumberKey h => ascii "H" ++ be_bytes 32 h
  | blockKey h => ascii "b" ++ be_bytes 32 h
  | blockReceiptsKey h => ascii "r" ++ be_bytes 32 h
  | lookupKey h => ascii "l" ++ be_bytes 32 h
  | bloomBitsKey b s h => ascii "B" ++ be_bytes 2 b ++ be_bytes 8 s ++ be_bytes 32 h
  | preimageKey h => ascii "secure-key-" ++ be_bytes 32 h
  | configKey h => ascii "ethereum-config-" ++ be_bytes 32 h
  | totalTxCountKey h => ascii "txC" ++ be_bytes 32 h
  | makeConfirmedXShardKey h => ascii "xr" ++ be_bytes 32 h
  | makeXShardTxList h => ascii "xSL" ++ be_bytes 32 h
  | makeGenesisKey h => ascii "genesis" ++ be_bytes 32 h
  | makeRLastMHash h => ascii "rLM" ++ be_bytes 32 h
  | makeMinorCount id n => ascii "cntM" ++ encodeUint32 id ++ encodeUint32 n
  | makeMinorBlockCoinbase h => ascii "mhC" ++ be_bytes 32 h
  | makeRootBlockConfirmingMinorBlock h id => ascii "mr" ++ be_bytes 32 h ++ be_bytes 4 id
  | makeXShardDepositHashList h => ascii "xd" ++ be_bytes 32 h
  | addressTxKey a n x i =>
      ascii "iaddr" ++ be_bytes 20 a ++ be_bytes 4 n ++ [crossShardByte x] ++ be_bytes 4 i
  | allTxKey n x i => ascii "iall" ++ be_bytes 4 n ++ [crossShardByte x] ++ be_bytes 4 i
  | trieNodeKey h => be_bytes 32 h
  end.

(** The numbers in a key are of their widths. *)
Definition key_ok (k : dbkey) : Prop :=
  match k with
  | headerHashKey _ n => in_u64 n
  | bloomBitsKey b s h => 0 <= b < 2 ^ 16 ∧ in_u64 s ∧ 0 <= h < 2 ^ 256
  | makeMinorCount id n => in_u32 id ∧ in_u32 n
  | makeRootBlockConfirmingMinorBlock h id => 0 <= h < 2 ^ 256 ∧ in_u32 id
  | addressTxKey a n _ i => 0 <= a < 2 ^ 160 ∧ in_u32 n ∧ in_u32 i
  | allTxKey n _ i => in_u32 n ∧ in_u32 i
  | headerKey h | latestMHeaderKey h | headerNumberKey h | blockKey h | blockReceiptsKey h | lookupKey h
  | preimageKey h | configKey h | totalTxCountKey h | makeConfirmedXShardKey h | makeXShardTxList h
  | makeGenesisKey h | makeRLastMHash h | makeMinorBlockCoinbase h | makeXShardDepositHashList h
  | trieNodeKey h => 0 <= h < 2 ^ 256
  | _ => True
  end.

(** Splitting an equation between two concatenations of given lengths. *)
Lemma be_bytes_inj n a b :
  0 <= a < 256 ^ Z.of_nat n → 0 <= b < 256 ^ Z.of_nat n → be_bytes n a = be_bytes n b → a = b.
Proof.
  intros Ha Hb E. apply (f_equal be_value) in E. by rewrite !be_value_bytes, !Z.mod_small in E.
Qed.
Lemma be_app_inj n a b l k :
  0 <= a < 256 ^ Z.of_nat n → 0 <= b < 256 ^ Z.of_nat n →
  be_bytes n a ++ l = be_bytes n b ++ k → a = b ∧ l = k.
Proof.
  intros Ha Hb E. apply app_inj_1 in E as [E ->]; [|by rewrite !length_be_bytes].
  split; [|done]. by apply (be_bytes_inj n).
Qed.
Lemma crossShardByte_inj x y l k : [crossShardByte x] ++ l = [crossShardByte y] ++ k → x = y ∧ l = k.
Proof. intros E. apply app_inj_1 in E as [E ->]; [|done]. by destruct x, y. Qed.

(** The length of a key and its first bytes tell which entry it is. *)
Definition tag (k : dbkey) : nat * Z * Z :=
  let l := key_bytes k in
  (length l, if bool_decide (length l = 32%nat) then 0 else default 0 (l !! 0%nat),
   if bool_decide (length l = 34%nat) then default 0 (l !! 1%nat) else 0).

Definition tag_of (k : dbkey) : nat * Z * Z :=
  match k with
  | databaseVersionKey => (15%nat, 68, 0)
  | headHeaderKey => (10%nat, 76, 0)
  | headBlockKey => (9%nat, 76, 0)
  | headFastBlockKey => (8%nat, 76, 0)
  | rbCommittingKey => (12%nat, 114, 0)
  | fastTrieProgressKey => (8%nat, 84, 0)
  | headerKey _ => (33%nat, 104, 0)
  | latestMHeaderKey _ => (35%nat, 108, 0)
  | headerHashKey ChainTypeRoot _ => (10%nat, 114, 0)
  | headerHashKey ChainTypeMinor _ => (10%nat, 109, 0)
  | headerNumberKey _ => (33%nat, 72, 0)
  | blockKey _ => (33%nat, 98, 0)
  | blockReceiptsKey _ => (33%nat, 114, 0)
  | lookupKey _ => (33%nat, 108, 0)
  | bloomBitsKey _ _ _ => (43%nat, 66, 0)
  | preimageKey _ => (43%nat, 115, 0)
  | configKey _ => (48%nat, 101, 0)
  | totalTxCountKey _ => (35%nat, 116, 0)
  | makeConfirmedXShardKey _ => (34%nat, 120, 114)
  | makeXShardTxList _ => (35%nat, 120, 0)
  | makeGenesisKey _ => (39%nat, 103, 0)
  | makeRLastMHash _ => (35%nat, 114, 0)
  | makeMinorCount _ _ => (12%nat, 99, 0)
  | makeMinorBlockCoinbase _ => (35%nat, 109, 0)
  | makeRootBlockConfirmingMinorBlock _ _ => (38%nat, 109, 0)
  | makeXShardDepositHashList _ => (34%nat, 120, 100)
  | addressTxKey _ _ _ _ => (34%nat, 105, 97)
  | allTxKey _ _ _ => (13%nat, 105, 0)
  | trieNodeKey _ => (32%nat, 0, 0)
  end.

Lemma tag_spec k : tag k = tag_of k.
Proof.
  unfold tag.
  destruct k as [| | | | | |h|h|[] n|h|h|h|h|b s h|h|h|h|h|h|h|h|i n|h|h i|h|a n x i|n x i|h];
    cbn [key_bytes tag_of]; unfold encodeBlockNumber, encodeUint32; try reflexivity;
    try (unfold bool_decide; rewrite ?length_app, ?length_be_bytes; reflexivity).
Qed.

(** The keys of the database never collide: two entries with the same key
    bytes are the same entry, so that a block, an index entry, a receipt list or
    a trie node never overwrites another. *)
Theorem key_bytes_injective k k' : key_ok k → key_ok k' → key_bytes k = key_bytes k' → k = k'.
Proof.
  intros Hk Hk' E. assert (tag_of k = tag_of k') as Ht by (rewrite <- !tag_spec; unfold tag; by rewrite E).
  destruct k as [| | | | | |h|h|[] n|h|h|h|h|b s h|h|h|h|h|h|h|h|i n|h|h i|h|a n x i|n x i|h],
    k' as [| | | | | |h'|h'|[] n'|h'|h'|h'|h'|b' s' h'|h'|h'|h'|h'|h'|h'|h'|i' n'|h'|h' i'|h'|a' n' x' i'|n' x' i'|h'];
    try discriminate Ht; try reflexivity; clear Ht; cbn [key_bytes key_ok] in *;
    unfold encodeBlockNumber, encodeUint32 in *; try apply app_inv_head in E;
    try (f_equal; by apply (be_bytes_inj 32)); try (f_equal; by apply (be_bytes_inj 8)).
  - apply be_app_inj in E as [-> E]; [|apply Hk|apply Hk']. apply be_app_inj in E as [-> E]; [|apply Hk|apply Hk'].
    apply be_bytes_inj in E as ->; [done|apply Hk|apply Hk'].
  - apply be_app_inj in E as [-> E]; [|apply Hk|apply Hk']. apply be_bytes_inj in E as ->; [done|apply Hk|apply Hk'].
  - apply be_app_inj in E as [-> E]; [|apply Hk|apply Hk']. apply be_bytes_inj in E as ->; [done|apply Hk|apply Hk'].
  - apply be_app_inj in E as [-> E]; [|apply Hk|apply Hk']. apply be_app_inj in E as [-> E]; [|apply Hk|apply Hk'].
    apply crossShardByte_inj in E as [-> E].
    apply be_bytes_inj in E as ->; [done|apply Hk|apply Hk'].
  - apply be_app_inj in E as [-> E]; [|apply Hk|apply Hk']. apply crossShardByte_inj in E as [-> E].
    apply be_bytes_inj in E as ->; [done|apply Hk|apply Hk'].
Qed.

Lemma key_bytes_witness : key_ok (allTxKey 7 true 3) ∧ allTxKey 7 true (1 + 2) = allTxKey 7 true 3.
Proof.
  assert (Hk : key_ok (allTxKey 7 true 3)) by (cbn; unfold in_u32; lia). split; [exact Hk|].
  apply (key_bytes_injective (allTxKey 7 true (1 + 2)) (allTxKey 7 true 3)); [exact Hk|exact Hk|reflexivity].
Defined.

(** ** The store *)

Record Db := mkDb {
  d_blocks : gmap Z (MinorBlock + RootBlock);  (* one prefix for both kinds *)
  d_canonical : gmap Z Z;  (* minor numbers *)
  d_rootCanonical : gmap Z Z;  (* root numbers *)
  d_headBlock : Z;
  d_headHeader : Z;
  d_receipts : gmap Z (list Receipt);
  d_lookup : gmap Z (Z * Z);  (* block hash, index *)
  d_preimages : gmap Z (list Z);
  d_totalTx : gmap Z Z;
  d_genesis : gmap Z MinorBlock;
  d_confirmedXShard : gmap Z (list Deposit);
  d_xshardLists : gmap Z (list Deposit);
  d_lastConfirmed : gmap Z Z;
  d_depositHashes : gmap Z (list Z);
  d_history : gset (option Z * Z * bool * Z);  (* address (None: all), height, cross-shard, index *)
  d_latestMHeaders : gmap Z (list MinorBlockHeader);
  d_minorCount : gmap (Z * Z) (gmap Z Z);  (* full shard id, root height *)
  d_coinbase : gmap Z (gmap Z Z);
  d_confirming : gmap (Z * Z) Z;  (* minor block hash, full shard id *)
  d_rbCommitting : Z;
}.

Definition on_blocks (f : gmap Z (MinorBlock + RootBlock) → gmap Z (MinorBlock + RootBlock)) (d : Db) : Db :=
  mkDb (f (d_blocks d)) (d_canonical d) (d_rootCanonical d) (d_headBlock d) (d_headHeader d) (d_receipts d)
    (d_lookup d) (d_preimages d) (d_totalTx d) (d_genesis d) (d_confirmedXShard d) (d_xshardLists d)
    (d_lastConfirmed d) (d_depositHashes d) (d_history d) (d_latestMHeaders d) (d_minorCount d) (d_coinbase d)
    (d_confirming d) (d_rbCommitting d).
Definition on_canonical (f : gmap Z Z → gmap Z Z) (d : Db) : Db :=
  mkDb (d_blocks d) (f (d_canonical d)) (d_rootCanonical d) (d_headBlock d) (d_headHeader d) (d_receipts d)
    (d_lookup d) (d_preimages d) (d_totalTx d) (d_genesis d) (d_confirmedXShard d) (d_xshardLists d)
    (d_lastConfirmed d) (d_depositHashes d) (d_history d) (d_latestMHeaders d) (d_minorCount d) (d_coinbase d)
    (d_confirming d) (d_rbCommitting d).
Definition on_rootCanonical (f : gmap Z Z → gmap Z Z) (d : Db) : Db :=
  mkDb (d_blocks d) (d_canonical d) (f (d_rootCanonical d)) (d_headBlock d) (d_headHeader d) (d_receipts d)
    (d_lookup d) (d_preimages d) (d_totalTx d) (d_genesis d) (d_confirmedXShard d) (d_xshardLists d)
    (d_lastConfirmed d) (d_depositHashes d) (d_history d) (d_latestMHeaders d) (d_minorCount d) (d_coinbase d)
    (d_confirming d) (d_rbCommitting d).
Definition on_headBlock (f : Z → Z) (d : Db) : Db :=
  mkDb (d_blocks d) (d_canonical d) (d_rootCanonical d) (f (d_headBlock d)) (d_headHeader d) (d_receipts d)
    (d_lookup d) (d_preimages d) (d_totalTx d) (d_genesis d) (d_confirmedXShard d) (d_xshardLists d)
    (d_lastConfirmed d) (d_depositHashes d) (d_history d) (d_latestMHeaders d) (d_minorCount d) (d_coinbase d)
    (d_confirming d) (d_rbCommitting d).
Definition on_headHeader (f : Z → Z) (d : Db) : Db :=
  mkDb (d_blocks d) (d_canonical d) (d_rootCanonical d) (d_headBlock d) (f (d_headHeader d)) (d_receipts d)
    (d_lookup d) (d_preimages d) (d_totalTx d) (d_genesis d) (d_confirmedXShard d) (d_xshardLists d)
    (d_lastConfirmed d) (d_depositHashes d) (d_history d) (d_latestMHeaders d) (d_minorCount d) (d_coinbase d)
    (d_confirming d) (d_rbCommitting d).
Definition on_receipts (f : gmap Z (list Receipt) → gmap Z (list Receipt)) (d : Db) : Db :=
  mkDb (d_blocks d) (d_canonical d) (d_rootCanonical d) (d_headBlock d) (d_headHeader d) (f (d_receipts d))
    (d_lookup d) (d_preimages d) (d_totalTx d) (d_genesis d) (d_confirmedXShard d) (d_xshardLists d)
    (d_lastConfirmed d) (d_depositHashes d) (d_history d) (d_latestMHeaders d) (d_minorCount d) (d_coinbase d)
    (d_confirming d) (d_rbCommitting d).
Definition on_lookup (f : gmap Z (Z * Z) → gmap Z (Z * Z)) (d : Db) : Db :=
  mkDb (d_blocks d) (d_canonical d) (d_rootCanonical d) (d_headBlock d) (d_headHeader d) (d_receipts d) (f
    (d_lookup d)) (d_preimages d) (d_totalTx d) (d_genesis d) (d_confirmedXShard d) (d_xshardLists d)
    (d_lastConfirmed d) (d_depositHashes d) (d_history d) (d_latestMHeaders d) (d_minorCount d) (d_coinbase d)
    (d_confirming d) (d_rbCommitting d).
Definition on_preimages (f : gmap Z (list Z) → gmap Z (list Z)) (d : Db) : Db :=
  mkDb (d_blocks d) (d_canonical d) (d_rootCanonical d) (d_headBlock d) (d_headHeader d) (d_receipts d)
    (d_lookup d) (f (d_preimages d)) (d_totalTx d) (d_genesis d) (d_confirmedXShard d) (d_xshardLists d)
    (d_lastConfirmed d) (d_depositHashes d) (d_history d) (d_latestMHeaders d) (d_minorCount d) (d_coinbase d)
    (d_confirming d) (d_rbCommitting d).
Definition on_totalTx (f : gmap Z Z → gmap Z Z) (d : Db) : Db :=
  mkDb (d_blocks d) (d_canonical d) (d_rootCanonical d) (d_headBlock d) (d_headHeader d) (d_receipts d)
    (d_lookup d) (d_preimages d) (f (d_totalTx d)) (d_genesis d) (d_confirmedXShard d) (d_xshardLists d)
    (d_lastConfirmed d) (d_depositHashes d) (d_history d) (d_latestMHeaders d) (d_minorCount d) (d_coinbase d)
    (d_confirming d) (d_rbCommitting d).
Definition on_genesis (f : gmap Z MinorBlock → gmap Z MinorBlock) (d : Db) : Db :=
  mkDb (d_blocks d) (d_canonical d) (d_rootCanonical d) (d_headBlock d) (d_headHeader d) (d_receipts d)
    (d_lookup d) (d_preimages d) (d_totalTx d) (f (d_genesis d)) (d_confirmedXShard d) (d_xshardLists d)
    (d_lastConfirmed d) (d_depositHashes d) (d_history d) (d_latestMHeaders d) (d_minorCount d) (d_coinbase d)
    (d_confirming d) (d_rbCommitting d).
Definition on_confirmedXShard (f : gmap Z (list Deposit) → gmap Z (list Deposit)) (d : Db) : Db :=
  mkDb (d_blocks d) (d_canonical d) (d_rootCanonical d) (d_headBlock d) (d_headHeader d) (d_receipts d)
    (d_lookup d) (d_preimages d) (d_totalTx d) (d_genesis d) (f (d_confirmedXShard d)) (d_xshardLists d)
    (d_lastConfirmed d) (d_depositHashes d) (d_history d) (d_latestMHeaders d) (d_minorCount d) (d_coinbase d)
    (d_confirming d) (d_rbCommitting d).
Definition on_xshardLists (f : gmap Z (list Deposit) → gmap Z (list Deposit)) (d : Db) : Db :=
  mkDb (d_blocks d) (d_canonical d) (d_rootCanonical d) (d_headBlock d) (d_headHeader d) (d_receipts d)
    (d_lookup d) (d_preimages d) (d_totalTx d) (d_genesis d) (d_confirmedXShard d) (f (d_xshardLists d))
    (d_lastConfirmed d) (d_depositHashes d) (d_history d) (d_latestMHeaders d) (d_minorCount d) (d_coinbase d)
    (d_confirming d) (d_rbCommitting d).
Definition on_lastConfirmed (f : gmap Z Z → gmap Z Z) (d : Db) : Db :=
  mkDb (d_blocks d) (d_canonical d) (d_rootCanonical d) (d_headBlock d) (d_headHeader d) (d_receipts d)
    (d_lookup d) (d_preimages d) (d_totalTx d) (d_genesis d) (d_confirmedXShard d) (d_xshardLists d) (f
    (d_lastConfirmed d)) (d_depositHashes d) (d_history d) (d_latestMHeaders d) (d_minorCount d) (d_coinbase
    d) (d_confirming d) (d_rbCommitting d).
Definition on_depositHashes (f : gmap Z (list Z) → gmap Z (list Z)) (d : Db) : Db :=
  mkDb (d_blocks d) (d_canonical d) (d_rootCanonical d) (d_headBlock d) (d_headHeader d) (d_receipts d)
    (d_lookup d) (d_preimages d) (d_totalTx d) (d_genesis d) (d_confirmedXShard d) (d_xshardLists d)
    (d_lastConfirmed d) (f (d_depositHashes d)) (d_history d) (d_latestMHeaders d) (d_minorCount d)
    (d_coinbase d) (d_confirming d) (d_rbCommitting d).
Definition on_history (f : gset (option Z * Z * bool * Z) → gset (option Z * Z * bool * Z)) (d : Db) : Db :=
  mkDb (d_blocks d) (d_canonical d) (d_rootCanonical d) (d_headBlock d) (d_headHeader d) (d_receipts d)
    (d_lookup d) (d_preimages d) (d_totalTx d) (d_genesis d) (d_confirmedXShard d) (d_xshardLists d)
    (d_lastConfirmed d) (d_depositHashes d) (f (d_history d)) (d_latestMHeaders d) (d_minorCount d)
    (d_coinbase d) (d_confirming d) (d_rbCommitting d).
Definition on_latestMHeaders (f : gmap Z (list MinorBlockHeader) → gmap Z (list MinorBlockHeader)) (d : Db) : Db :=
  mkDb (d_blocks d) (d_canonical d) (d_rootCanonical d) (d_headBlock d) (d_headHeader d) (d_receipts d)
    (d_lookup d) (d_preimages d) (d_totalTx d) (d_genesis d) (d_confirmedXShard d) (d_xshardLists d)
    (d_lastConfirmed d) (d_depositHashes d) (d_history d) (f (d_latestMHeaders d)) (d_minorCount d)
    (d_coinbase d) (d_confirming d) (d_rbCommitting d).
Definition on_minorCount (f : gmap (Z * Z) (gmap Z Z) → gmap (Z * Z) (gmap Z Z)) (d : Db) : Db :=
  mkDb (d_blocks d) (d_canonical d) (d_rootCanonical d) (d_headBlock d) (d_headHeader d) (d_receipts d)
    (d_lookup d) (d_preimages d) (d_totalTx d) (d_genesis d) (d_confirmedXShard d) (d_xshardLists d)
    (d_lastConfirmed d) (d_depositHashes d) (d_history d) (d_latestMHeaders d) (f (d_minorCount d))
    (d_coinbase d) (d_confirming d) (d_rbCommitting d).
Definition on_coinbase (f : gmap Z (gmap Z Z) → gmap Z (gmap Z Z)) (d : Db) : Db :=
  mkDb (d_blocks d) (d_canonical d) (d_rootCanonical d) (d_headBlock d) (d_headHeader d) (d_receipts d)
    (d_lookup d) (d_preimages d) (d_totalTx d) (d_genesis d) (d_confirmedXShard d) (d_xshardLists d)
    (d_lastConfirmed d) (d_depositHashes d) (d_history d) (d_latestMHeaders d) (d_minorCount d) (f (d_coinbase
    d)) (d_confirming d) (d_rbCommitting d).
Definition on_confirming (f : gmap (Z * Z) Z → gmap (Z * Z) Z) (d : Db) : Db :=
  mkDb (d_blocks d) (d_canonical d) (d_rootCanonical d) (d_headBlock d) (d_headHeader d) (d_receipts d)
    (d_lookup d) (d_preimages d) (d_totalTx d) (d_genesis d) (d_confirmedXShard d) (d_xshardLists d)
    (d_lastConfirmed d) (d_depositHashes d) (d_history d) (d_latestMHeaders d) (d_minorCount d) (d_coinbase d)
    (f (d_confirming d)) (d_rbCommitting d).
Definition on_rbCommitting (f : Z → Z) (d : Db) : Db :=
  mkDb (d_blocks d) (d_canonical d) (d_rootCanonical d) (d_headBlock d) (d_headHeader d) (d_receipts d)
    (d_lookup d) (d_preimages d) (d_totalTx d) (d_genesis d) (d_confirmedXShard d) (d_xshardLists d)
    (d_lastConfirmed d) (d_depositHashes d) (d_history d) (d_latestMHeaders d) (d_minorCount d) (d_coinbase d)
    (d_confirming d) (f (d_rbCommitting d)).
Definition empty_db : Db :=
  mkDb ∅ ∅ ∅ 0 0 ∅ ∅ ∅ ∅ ∅ ∅ ∅ ∅ ∅ ∅ ∅ ∅ ∅ ∅ 0.

(** ** Canonical hashes and heads; a missing hash reads as zero *)
Definition ReadCanonicalHash (chainType : ChainType) (number : Z) (d : Db) : Z :=
  default 0 (match chainType with ChainTypeRoot => d_rootCanonical d | ChainTypeMinor => d_canonical d end !! number).
Definition WriteCanonicalHash (chainType : ChainType) (hash number : Z) : Db → Db :=
  match chainType with ChainTypeRoot => on_rootCanonical | ChainTypeMinor => on_canonical end <[number := hash]>.
Definition DeleteCanonicalHash (chainType : ChainType) (number : Z) : Db → Db :=
  match chainType with ChainTypeRoot => on_rootCanonical | ChainTypeMinor => on_canonical end (delete number).
Definition ReadHeadBlockHash (d : Db) : Z := d_headBlock d.
Definition WriteHeadBlockHash (hash : Z) : Db → Db := on_headBlock (fun _ => hash).
Definition WriteHeadHeaderHash (hash : Z) : Db → Db := on_headHeader (fun _ => hash).

(** ** Blocks *)
Definition HasBlock (hash : Z) (d : Db) : bool := bool_decide (is_Some (d_blocks d !! hash)).
Definition ReadMinorBlock (hash : Z) (d : Db) : option MinorBlock :=
  match d_blocks d !! hash with Some (inl b) => Some b | _ => None end.
Definition WriteMinorBlock (block : MinorBlock) : Db → Db := on_blocks <[Hash block := inl block]>.
Definition ReadRootBlock (hash : Z) (d : Db) : option RootBlock :=
  match d_blocks d !! hash with Some (inr b) => Some b | _ => None end.
Definition WriteRootBlock (block : RootBlock) : Db → Db := on_blocks <[Hash block := inr block]>.
Definition DeleteBlock (hash : Z) : Db → Db := on_blocks (delete hash).

Definition HasReceipts (hash : Z) (d : Db) : bool := bool_decide (is_Some (d_receipts d !! hash)).
Definition ReadReceipts (hash : Z) (d : Db) : list Receipt := default [] (d_receipts d !! hash).
Definition WriteReceipts (hash : Z) (receipts : list Receipt) : Db → Db := on_receipts <[hash := receipts]>.
Definition DeleteReceipts (hash : Z) : Db → Db := on_receipts (delete hash).
Definition DeleteMinorBlock (hash : Z) (d : Db) : Db := DeleteBlock hash (DeleteReceipts hash d).

Definition ReadLatestMinorBlockHeaders (hash : Z) (d : Db) : list MinorBlockHeader :=
  default [] (d_latestMHeaders d !! hash).
Definition WriteLatestMinorBlockHeaders (hash : Z) (headers : list MinorBlockHeader) : Db → Db :=
  on_latestMHeaders <[hash := headers]>.
Definition DeleteLatestMinorBlockHeaders (hash : Z) : Db → Db := on_latestMHeaders (delete hash).
Definition DeleteRootBlock (hash : Z) (d : Db) : Db := DeleteBlock hash (DeleteLatestMinorBlockHeaders hash d).

Definition WriteRootBlockCommittingHash (hash : Z) : Db → Db := on_rbCommitting (fun _ => hash).
Definition ReadRbCommittingHash (d : Db) : Z := d_rbCommitting d.
Definition DeleteRbCommittingHash : Db → Db := on_rbCommitting (fun _ => 0).

(** ** What a shard keeps per block *)
Definition WriteTotalTx (hash txCount : Z) : Db → Db := on_totalTx <[hash := txCount]>.
Definition ReadTotalTx (hash : Z) (d : Db) : option Z := d_totalTx d !! hash.
Definition WriteGenesisBlock (rHash : Z) (block : MinorBlock) : Db → Db := on_genesis <[rHash := block]>.
Definition ReadGenesis (hash : Z) (d : Db) : option MinorBlock := d_genesis d !! hash.
Definition WriteConfirmedCrossShardTxList (hash : Z) (list : list Deposit) : Db → Db :=
  on_confirmedXShard <[hash := list]>.
Definition ReadConfirmedCrossShardTxList (hash : Z) (d : Db) : option (list Deposit) := d_confirmedXShard d !! hash.
Definition WriteCrossShardTxList (hash : Z) (list : list Deposit) : Db → Db := on_xshardLists <[hash := list]>.
Definition db_ReadCrossShardTxList (hash : Z) (d : Db) : option (list Deposit) := d_xshardLists d !! hash.
Definition WriteLastConfirmedMinorBlockHeaderAtRootBlock (rHash mHash : Z) : Db → Db :=
  on_lastConfirmed <[rHash := mHash]>.
Definition ReadLastConfirmedMinorBlockHeaderAtRootBlock (rHash : Z) (d : Db) : Z := default 0 (d_lastConfirmed d !! rHash).
Definition PutXShardDepositHashList (h : Z) (hList : list Z) : Db → Db := on_depositHashes <[h := hList]>.
Definition GetXShardDepositHashList (h : Z) (d : Db) : option (list Z) := d_depositHashes d !! h.
Definition WritePreimages (preimages : gmap Z (list Z)) : Db → Db := on_preimages (fun m => preimages ∪ m).
Definition ReadPreimage (hash : Z) (d : Db) : list Z := default [] (d_preimages d !! hash).

(** ** What the root chain keeps per minor block *)
Definition WriteMinorBlockCnt (fullShardID height : Z) (data : gmap Z Z) : Db → Db :=
  on_minorCount <[(fullShardID, height) := data]>.
Definition GetMinorBlockCnt (fullShardID height : Z) (d : Db) : option (gmap Z Z) := d_minorCount d !! (fullShardID, height).
Definition WriteMinorBlockCoinbase (mHash : Z) (coinbaseToken : gmap Z Z) : Db → Db := on_coinbase <[mHash := coinbaseToken]>.
Definition GetMinorBlockCoinbaseToken (hash : Z) (d : Db) : option (gmap Z Z) := d_coinbase d !! hash.
Definition db_ContainMinorBlockByHash (hash : Z) (d : Db) : bool := bool_decide (is_Some (d_coinbase d !! hash)).
Definition db_PutRootBlockConfirmingMinorBlock (mBlockID : Z * Z) (rHash : Z) : Db → Db := on_confirming <[mBlockID := rHash]>.
Definition db_GetRootBlockConfirmingMinorBlock (mBlockID : Z * Z) (d : Db) : Z := default 0 (d_confirming d !! mBlockID).

(** ** The index of the contents of blocks *)

Definition ReadBlockContentLookupEntry (hash : Z) (d : Db) : Z * Z := default (0, 0) (d_lookup d !! hash).

(** The entries of a list of hashes, numbered from [i]. *)
Definition write_entries (blockHash : Z) (i : nat) (hs : list Z) (l : gmap Z (Z * Z)) : gmap Z (Z * Z) :=
  foldl (fun l e => <[e.2 := (blockHash, u32 (Z.of_nat e.1))]> l) l (imap (fun k h => ((i + k)%nat, h)) hs).
Definition WriteBlockContentLookupEntriesWithCrossShardHashList (blockHash : Z) (content : list Z)
    (hList : option (list Z)) : Db → Db :=
  on_lookup (fun l =>
    let l := write_entries blockHash 0 content l in
    match hList with None => l | Some hs => write_entries blockHash (length content) hs l end).
Definition DeleteBlockContentLookupEntry (hash : Z) : Db → Db := on_lookup (delete hash).

Definition ReadMinorHeaderFromRootBlock (hash : Z) (d : Db) : option MinorBlockHeader * Z * Z :=
  let '(blockHash, headerIndex) := ReadBlockContentLookupEntry hash d in
  if blockHash =? 0 then (None, 0, 0)
  else
    match ReadRootBlock blockHash d with
    | None => (None, 0, 0)
    | Some block =>
        match MinorBlockHeaders block !! Z.to_nat headerIndex with
        | None => (None, 0, 0)
        | Some h => (Some h, blockHash, headerIndex)
        end
    end.

Definition ReadTransaction (hash : Z) (d : Db) : option Transaction * Z * Z :=
  let '(blockHash, txIndex) := ReadBlockContentLookupEntry hash d in
  if blockHash =? 0 then (None, 0, 0)
  else
    match ReadMinorBlock blockHash d with
    | None => (None, 0, 0)
    | Some block => (mb_transactions block !! Z.to_nat txIndex, blockHash, txIndex)
    end.

Definition ReadReceipt (hash : Z) (d : Db) : option Receipt * Z * Z :=
  let '(blockHash, receiptIndex) := ReadBlockContentLookupEntry hash d in
  if blockHash =? 0 then (None, 0, 0)
  else
    match ReadReceipts blockHash d !! Z.to_nat receiptIndex with
    | None => (None, 0, 0)
    | Some r => (Some r, blockHash, receiptIndex)
    end.
