(* ===== verification/XShardCursor.v ===== *)
(** * core: the cross-shard transaction cursor

    Models src/core/xshard_tx_cursor.go, the chain accessors of
    src/core/minorblockchain.go it is used with and the loop of
    RunCrossShardTxWithCursor (src/core/minorblockchain_addon.go).  A shard
    executes the deposits other shards sent to it in the order of the root
    chain: for each root block its coinbase deposit, then the deposits of each
    included minor block of a neighbour shard.  How far it got is saved in the
    minor block as a cursor (root height, minor block index, deposit index).
    The blockchain interface of the source is a class; executing a deposit and
    the list of shards of the configuration are parameters. *)

From S2P Require Import Prelude Account Blocks.

Local Open Scope Z_scope.

(** ** The interface the cursor reads the chain through *)
Class Blockchain := {
  GetGenesisToken : Z;
  GetBranch : Branch;
  GetGenesisRootHeight : Z;
  GetRootBlockByHash : Z → option RootBlock;
  GetRootBlockByHeight : Z → Z → result (option RootBlock);
  ReadCrossShardTxList : Z → option (list Deposit);
  isNeighbor : Branch → Z → bool;
}.

Definition nil_deref {A} : result A := Panic "invalid memory address or nil pointer dereference".
(** Reading through a pointer. *)
Definition deref {A} (p : option A) : result A :=
  match p with Some a => Ok a | None => nil_deref end.

(** ** The chain of a shard as such an interface *)
Section minor_block_chain.
Context (genesisToken genesisRootHeight : Z) (branch : Branch).
(** The root blocks and the deposit lists in the database; how many shards
    the configuration has initialised before a root height. *)
Context (rootBlocks : gmap Z RootBlock) (depositLists : gmap Z (list Deposit)) (shardCount : Z → Z).

(** Walks back from the block to the height; a missing parent is dereferenced. *)
Fixpoint walk_back (fuel : nat) (r : RootBlock) (height : Z) : result (option RootBlock) :=
  if height =? rb_number r then Ok (Some r)
  else
    match fuel, rootBlocks !! rb_parent r with
    | S fuel, Some p => walk_back fuel p height
    | _, _ => nil_deref
    end.
Definition chain_GetRootBlockByHeight (h height : Z) : result (option RootBlock) :=
  match rootBlocks !! h with
  | None => Ok None
  | Some r => if rb_number r <? height then Ok None
              else walk_back (Z.to_nat (rb_number r)) r height
  end.
Definition chain_isNeighbor (remoteBranch : Branch) (rootHeight : Z) : bool :=
  IsNeighbor branch remoteBranch (u32 (shardCount rootHeight)).

#[export] Instance minor_block_chain : Blockchain := {
  GetGenesisToken := genesisToken;
  GetBranch := branch;
  GetGenesisRootHeight := genesisRootHeight;
  GetRootBlockByHash h := rootBlocks !! h;
  GetRootBlockByHeight := chain_GetRootBlockByHeight;
  ReadCrossShardTxList h := depositLists !! h;
  isNeighbor := chain_isNeighbor;
}.
End minor_block_chain.

(** ** The cursor *)

Record XShardTxCursor := mkCursor {
  maxRootBlockHeader : option RootBlock;
  mBlockIndex : Z;
  xShardDepositIndex : Z;
  xTxList : option (list Deposit);
  rBlock : option RootBlock;
}.

Section cursor.
Context `{Blockchain}.

Definition NewXShardTxCursor (prevRootBlockHash : Z) (info : XShardTxCursorInfo) : result XShardTxCursor :=
  let max := GetRootBlockByHash prevRootBlockHash in
  rh ← GetRootBlockByHeight prevRootBlockHash (RootBlockHeight info);
  match rh with
  | None => Ok (mkCursor max (MinorBlockIndex info) (XShardDepositIndex info) (Some []) None)
  | Some rh =>
      let rb := GetRootBlockByHash (rb_hash rh) in
      if negb (MinorBlockIndex info =? 0) then
        r ← deref rb;
        match MinorBlockHeaders r !! Z.to_nat (MinorBlockIndex info - 1) with
        | None => Panic "index out of range"
        | Some mh =>
            Ok (mkCursor max (MinorBlockIndex info) (XShardDepositIndex info)
                  (ReadCrossShardTxList (mh_hash mh)) rb)
        end
      else Ok (mkCursor max (MinorBlockIndex info) (XShardDepositIndex info) (Some []) rb)
  end.

(** The deposit of a root block's coinbase: its amount in the genesis token if
    the coinbase address is of this shard, else zero. *)
Definition coinbase_deposit (r : RootBlock) : Deposit :=
  let coinbaseAmount :=
    if IsInBranch GetBranch (FullShardKey (rb_coinbase r))
    then default 0 (rb_coinbaseAmount r !! GetGenesisToken) else 0 in
  mkDeposit (rb_hash r) (rb_coinbase r) (rb_coinbase r) coinbaseAmount 0 GetGenesisToken
    GetGenesisToken true 0 [] false 100.

Definition getCurrentTx (x : XShardTxCursor) : result (option Deposit) :=
  if mBlockIndex x =? 0 then
    if negb (xShardDepositIndex x =? 1) && negb (xShardDepositIndex x =? 2)
    then Err "shardDepositIndex should be 1 or 2"
    else if xShardDepositIndex x =? 1 then
      r ← deref (rBlock x);
      Ok (Some (coinbase_deposit r))
    else Ok None
  else
    l ← deref (xTxList x);
    if xShardDepositIndex x <? Z.of_nat (length l)
    then Ok (l !! Z.to_nat (xShardDepositIndex x)) else Ok None.

Definition at_ (m d : Z) (x : XShardTxCursor) : XShardTxCursor :=
  mkCursor (maxRootBlockHeader x) m d (xTxList x) (rBlock x).
Definition with_list (l : option (list Deposit)) (x : XShardTxCursor) : XShardTxCursor :=
  mkCursor (maxRootBlockHeader x) (mBlockIndex x) (xShardDepositIndex x) l (rBlock x).

(** The loop over the minor blocks of root block [r]: [Ok (Some tx)] is a return
    from inside the loop, [Ok None] its end.  One minor block per round. *)
Fixpoint minor_loop (fuel : nat) (r : RootBlock) (x : XShardTxCursor)
    : result (option Deposit) * XShardTxCursor :=
  if Z.of_nat (length (MinorBlockHeaders r)) <? mBlockIndex x then (Ok None, x)
  else
    match fuel, MinorBlockHeaders r !! Z.to_nat (mBlockIndex x - 1) with
    | S fuel, Some mh =>
        let next := at_ (u64 (mBlockIndex x + 1)) (xShardDepositIndex x) in
        if bool_decide (Value (mh_branch mh) = Value GetBranch)
           || negb (isNeighbor (mh_branch mh) (rb_number r)) then
          if negb (xShardDepositIndex x =? 0) then (Err "xShardDepositIndex should 0", x)
          else minor_loop fuel r (next x)
        else
          match GetRootBlockByHash (PrevRootBlockHash mh) with
          | None => (nil_deref, x)
          | Some prevRootHeader =>
              if rb_number prevRootHeader <=? GetGenesisRootHeight then
                if negb (xShardDepositIndex x =? 0) then (Err "should 0", x)
                else if bool_decide (is_Some (ReadCrossShardTxList (mh_hash mh)))
                then (Err "should nil", x)
                else minor_loop fuel r (next x)
              else
                let x := with_list (ReadCrossShardTxList (mh_hash mh)) x in
                match getCurrentTx x with
                | Err e => (Err e, x)
                | Panic e => (Panic e, x)
                | Ok (Some tx) => (Ok (Some tx), x)
                | Ok None =>
                    if negb (xShardDepositIndex x =? 0) then (Err "should 0", x)
                    else minor_loop fuel r (next x)
                end
          end
    | _, _ => (Panic "index out of range", x)
    end.

(** Past the last deposit of the current minor block (or the coinbase): on to
    the following minor blocks, then to the next root block. *)
Definition advance (r : RootBlock) : SE XShardTxCursor (option Deposit) := fun x =>
  let x := at_ (u64 (mBlockIndex x + 1)) 0 x in
  match minor_loop (length (MinorBlockHeaders r)) r x with
  | (Err e, x) => (Err e, x)
  | (Panic e, x) => (Panic e, x)
  | (Ok (Some tx), x) => (Ok (Some tx), x)
  | (Ok None, x) =>
      match maxRootBlockHeader x with
      | None => (nil_deref, x)
      | Some max =>
          match GetRootBlockByHeight (rb_hash max) (u64 (rb_number r + 1)) with
          | Err e => (Err e, x)
          | Panic e => (Panic e, x)
          | Ok None => (Ok None, mkCursor (Some max) 0 0 (xTxList x) None)
          | Ok (Some rh) =>
              let x := mkCursor (Some max) 0 1 (xTxList x) (GetRootBlockByHash (rb_hash rh)) in
              (getCurrentTx x, x)
          end
      end
  end.

Definition getNextTx : SE XShardTxCursor (option Deposit) := fun x =>
  match rBlock x with
  | None => (Ok None, x)
  | Some r =>
      let x := at_ (mBlockIndex x) (u64 (xShardDepositIndex x + 1)) x in
      match getCurrentTx x with
      | Err e => (Err e, x)
      | Panic e => (Panic e, x)
      | Ok (Some tx) => (Ok (Some tx), x)
      | Ok None => advance r x
      end
  end.

Definition getCursorInfo (x : XShardTxCursor) : result XShardTxCursorInfo :=
  max ← deref (maxRootBlockHeader x);
  let rootBlockHeight :=
    match rBlock x with
    | Some r => rb_number r
    | None => u64 (rb_number max + 1)
    end in
  Ok (mkInfo rootBlockHeight (mBlockIndex x) (xShardDepositIndex x)).

(** ** Executing the deposits of a minor block *)
Section run.
(** The state, the gas used in it, and the execution of a deposit; the flag is
    whether the root height has the fix for free deposits. *)
Context {St : Type} (gasUsed : St → Z) (apply : Deposit → bool → SE St unit).
Context (XShardGasDDOSFixRootHeight : Z).

Fixpoint run_loop (fuel : nat) (xShardGasLimit : Z) (x : XShardTxCursor) (s : St) (txList : list Deposit)
    : option (result (list Deposit) * XShardTxCursor * St) :=
  match fuel with
  | O => None
  | S fuel =>
      match getNextTx x with
      | (Err e, x) => Some (Err e, x, s)
      | (Panic e, x) => Some (Panic e, x, s)
      | (Ok None, x) => Some (Ok txList, x, s)
      | (Ok (Some tx), x) =>
          match rBlock x with
          | None => Some (nil_deref, x, s)
          | Some r =>
              let check := XShardGasDDOSFixRootHeight <=? rb_number r in
              match apply tx check s with
              | (Err e, s) => Some (Err e, x, s)
              | (Panic e, s) => Some (Panic e, x, s)
              | (Ok _, s) =>
                  let txList := txList ++ [tx] in
                  if xShardGasLimit <=? gasUsed s then Some (Ok txList, x, s)
                  else run_loop fuel xShardGasLimit x s txList
              end
          end
      end
  end.

(** The executed deposits and the cursor to save; None is out of fuel. *)
Definition RunCrossShardTxWithCursor (fuel : nat) (prevRootBlockHash : Z) (info : XShardTxCursorInfo)
    (xShardGasLimit : Z) (s : St) : option (result (list Deposit * XShardTxCursorInfo) * St) :=
  match NewXShardTxCursor prevRootBlockHash info with
  | Err e => Some (Err e, s)
  | Panic e => Some (Panic e, s)
  | Ok x =>
      match run_loop fuel xShardGasLimit x s [] with
      | None => None
      | Some (r, x, s) => Some (txList ← r; i ← getCursorInfo x; Ok (txList, i), s)
      end
  end.
End run.
End cursor.
