(* ===== verification/XShardCursorCorrect.v ===== *)
(** * core: the cross-shard transaction cursor, correctness

    The cursor of XShardCursor.v enumerates the deposits of the root chain in
    order, and saving it in one minor block and recovering it in the next, over
    a longer root chain, neither skips nor repeats a deposit. *)

From S2P Require Import Prelude Account Blocks XShardCursor.

Local Open Scope Z_scope.

Section correct.
Context `{Blockchain}.

(** ** The deposits of the root chain *)

(** A minor block of another, neighbouring shard. *)
Definition from_neighbour (r : RootBlock) (mh : MinorBlockHeader) : bool :=
  negb (bool_decide (Value (mh_branch mh) = Value GetBranch)) && isNeighbor (mh_branch mh) (rb_number r).

(** The deposits it brings: none until the neighbour has seen a root block
    after the shard's genesis. *)
Definition minor_deposits (r : RootBlock) (mh : MinorBlockHeader) : list Deposit :=
  if from_neighbour r mh then
    match GetRootBlockByHash (PrevRootBlockHash mh) with
    | Some p => if rb_number p <=? GetGenesisRootHeight then []
                else default [] (ReadCrossShardTxList (mh_hash mh))
    | None => []
    end
  else [].

(** The deposits of root block [r] from its minor block number [k] on, and all. *)
Definition minors_from (r : RootBlock) (k : nat) : list Deposit :=
  concat (minor_deposits r <$> drop k (MinorBlockHeaders r)).
Definition root_deposits (r : RootBlock) : list Deposit := coinbase_deposit r :: minors_from r 0.

(** ** What the chain provides

    [chain] lists the root blocks by height.  A neighbour's minor block that is
    included has its deposit list stored, unless it was made before the
    neighbour could send to this shard. *)
Class RootChain (chain : list RootBlock) : Prop := {
  chain_number i r : chain !! i = Some r → rb_number r = Z.of_nat i;
  chain_by_hash i r : chain !! i = Some r → GetRootBlockByHash (rb_hash r) = Some r;
  chain_by_height i r h :
    chain !! i = Some r → 0 <= h →
    GetRootBlockByHeight (rb_hash r) h = Ok (if Z.of_nat i <? h then None else chain !! Z.to_nat h);
  chain_lists i r mh :
    chain !! i = Some r → mh ∈ MinorBlockHeaders r → from_neighbour r mh = true →
    ∃ p, GetRootBlockByHash (PrevRootBlockHash mh) = Some p
         ∧ if rb_number p <=? GetGenesisRootHeight then ReadCrossShardTxList (mh_hash mh) = None
           else ∃ l, ReadCrossShardTxList (mh_hash mh) = Some l ∧ Z.of_nat (length l) < 2 ^ 63;
  chain_minors i r : chain !! i = Some r → Z.of_nat (length (MinorBlockHeaders r)) < 2 ^ 63;
  chain_length : Z.of_nat (length chain) < 2 ^ 63;
}.

Context (chain : list RootBlock) `{!RootChain chain}.

(** The deposits of the root blocks of heights [lo] to [hi]. *)
Definition deposits_between (lo hi : nat) : list Deposit :=
  concat (root_deposits <$> take (S hi - lo) (drop lo chain)).

(** ** Positions *)

(** What follows the cursor's position inside its root block. *)
Definition after (r : RootBlock) (x : XShardTxCursor) : list Deposit :=
  if mBlockIndex x =? 0 then
    if xShardDepositIndex x =? 0 then root_deposits r else minors_from r 0
  else drop (Z.to_nat (xShardDepositIndex x + 1)) (default [] (xTxList x))
       ++ minors_from r (Z.to_nat (mBlockIndex x)).

(** The position is the start of the block, its coinbase, or a deposit. *)
Definition placed (r : RootBlock) (x : XShardTxCursor) : Prop :=
  mBlockIndex x = 0 ∧ (xShardDepositIndex x = 0 ∨ xShardDepositIndex x = 1)
  ∨ ∃ k mh l, mBlockIndex x = Z.of_nat k + 1 ∧ MinorBlockHeaders r !! k = Some mh
      ∧ ReadCrossShardTxList (mh_hash mh) = Some l ∧ xTxList x = Some l
      ∧ 0 <= xShardDepositIndex x < Z.of_nat (length l) ∧ Z.of_nat (length l) < 2 ^ 63.

(** A cursor over the root blocks up to height [n]. *)
Record cursor_ok (n : nat) (x : XShardTxCursor) : Prop := {
  ok_max : ∃ m, maxRootBlockHeader x = Some m ∧ chain !! n = Some m;
  ok_eof : rBlock x = None → mBlockIndex x = 0 ∧ xShardDepositIndex x = 0;
  ok_block r : rBlock x = Some r → ∃ i, chain !! i = Some r ∧ (i ≤ n)%nat ∧ placed r x;
}.

(** The deposits still to come. *)
Definition remaining (n : nat) (x : XShardTxCursor) : list Deposit :=
  match rBlock x with
  | None => []
  | Some r => after r x ++ deposits_between (S (Z.to_nat (rb_number r))) n
  end.

Lemma minors_from_cons r k mh :
  MinorBlockHeaders r !! k = Some mh → minors_from r k = minor_deposits r mh ++ minors_from r (S k).
Proof. intros Hk. unfold minors_from. by rewrite (drop_S _ _ _ Hk). Qed.

Lemma minors_from_end r k : (length (MinorBlockHeaders r) ≤ k)%nat → minors_from r k = [].
Proof. intros Hk. unfold minors_from. by rewrite drop_ge. Qed.

Lemma deposits_between_cons lo hi r :
  chain !! lo = Some r → (lo ≤ hi)%nat →
  deposits_between lo hi = root_deposits r ++ deposits_between (S lo) hi.
Proof.
  intros Hlo Hle. unfold deposits_between. rewrite (drop_S _ _ _ Hlo).
  replace (S hi - lo)%nat with (S (S hi - S lo)) by lia. done.
Qed.
Lemma deposits_between_end lo hi : (hi < lo)%nat → deposits_between lo hi = [].
Proof. intros Hlt. unfold deposits_between. by replace (S hi - lo)%nat with 0%nat by lia. Qed.

Lemma u64_small z : 0 <= z < 2 ^ 63 + 1 → u64 z = z.
Proof. intros Hz. apply u64_id. unfold in_u64. lia. Qed.

(** ** One step *)

Lemma getCurrentTx_minor x k l d :
  mBlockIndex x = Z.of_nat k + 1 → xTxList x = Some l → xShardDepositIndex x = d → 0 <= d →
  getCurrentTx x = Ok (l !! Z.to_nat d).
Proof.
  intros Hm Hl Hd Hd0. unfold getCurrentTx. rewrite Hm, Hl, Hd.
  rewrite (proj2 (Z.eqb_neq _ _)) by lia. se_red. unfold deref.
  destruct (d <? Z.of_nat (length l)) eqn:E; [done|]. apply Z.ltb_ge in E.
  by rewrite lookup_ge_None_2 by lia.
Qed.

(** The loop finds the first deposit from minor block [k] on. *)
Lemma minor_loop_spec fuel i r k x :
  chain !! i = Some r → mBlockIndex x = Z.of_nat k + 1 → xShardDepositIndex x = 0 →
  (length (MinorBlockHeaders r) - k ≤ fuel)%nat → (k ≤ length (MinorBlockHeaders r))%nat →
  ∃ x', minor_loop fuel r x = (Ok (head (minors_from r k)), x')
    ∧ maxRootBlockHeader x' = maxRootBlockHeader x ∧ rBlock x' = rBlock x
    ∧ (minors_from r k ≠ [] → placed r x' ∧ after r x' = tail (minors_from r k)).
Proof.
  intros Hi. pose proof (chain_minors _ _ Hi) as Hmin.
  revert k x. induction fuel as [|fuel IH]; intros k x Hm Hd Hf Hk; cbn [minor_loop].
  { rewrite minors_from_end by lia. exists x. rewrite (proj2 (Z.ltb_lt _ _)) by lia. done. }
  destruct (decide (k = length (MinorBlockHeaders r))) as [Hend|Hlt].
  { rewrite minors_from_end by lia. exists x. rewrite (proj2 (Z.ltb_lt _ _)) by lia. done. }
  rewrite (proj2 (Z.ltb_ge _ _)) by lia. rewrite Hm. replace (Z.to_nat (Z.of_nat k + 1 - 1)) with k by lia.
  destruct (MinorBlockHeaders r !! k) as [mh|] eqn:Hmh; [|apply lookup_ge_None in Hmh; lia].
  rewrite (minors_from_cons r k mh Hmh). rewrite Hd. cbn [negb Z.eqb].
  rewrite (u64_small (Z.of_nat k + 1 + 1)) by lia.
  assert (∀ y, mBlockIndex y = Z.of_nat k + 1 + 1 → xShardDepositIndex y = 0 →
    maxRootBlockHeader y = maxRootBlockHeader x → rBlock y = rBlock x → minor_deposits r mh = [] →
    ∃ x', minor_loop fuel r y = (Ok (head (minor_deposits r mh ++ minors_from r (S k))), x')
    ∧ maxRootBlockHeader x' = maxRootBlockHeader x ∧ rBlock x' = rBlock x
    ∧ (minor_deposits r mh ++ minors_from r (S k) ≠ [] →
       placed r x' ∧ after r x' = tail (minor_deposits r mh ++ minors_from r (S k)))) as Hskip.
  { intros y Hy1 Hy2 Hy3 Hy4 Hnone. rewrite Hnone. cbn [app].
    destruct (IH (S k) y) as (x'&H1&H2&H3&H4); [lia|done|lia|lia|]. exists x'.
    split_and!; [done|congruence|congruence|done]. }
  assert (bool_decide (Value (mh_branch mh) = Value GetBranch) || negb (isNeighbor (mh_branch mh) (rb_number r))
          = negb (from_neighbour r mh)) as ->
    by (unfold from_neighbour; by rewrite negb_andb, negb_involutive).
  destruct (from_neighbour r mh) eqn:Hn; cbn [negb].
  2: { apply Hskip; [done|done|done|done|]. unfold minor_deposits. by rewrite Hn. }
  destruct (chain_lists i r mh Hi ltac:(by eapply list_elem_of_lookup_2) Hn) as (p&Hp&Hlist).
  assert (minor_deposits r mh = if rb_number p <=? GetGenesisRootHeight then []
    else default [] (ReadCrossShardTxList (mh_hash mh))) as Hdep by (unfold minor_deposits; by rewrite Hn, Hp).
  rewrite Hp. destruct (rb_number p <=? GetGenesisRootHeight) eqn:Hg.
  { rewrite bool_decide_false by (rewrite Hlist; apply is_Some_None). by apply Hskip. }
  destruct Hlist as (l&Hl&Hlen). rewrite Hl in Hdep |- *. cbn [default from_option id] in Hdep.
  rewrite (getCurrentTx_minor _ k l 0) by done. change (Z.to_nat 0) with 0%nat.
  destruct l as [|d l]; cbn [lookup list_lookup].
  { cbn [with_list xShardDepositIndex]. rewrite Hd. cbn [Z.eqb negb]. by apply Hskip. }
  exists (with_list (Some (d :: l)) x). rewrite Hdep. split_and!; [done|done|done|]. intros _. split.
  - right. exists k, mh, (d :: l). cbn [with_list mBlockIndex xTxList xShardDepositIndex]. rewrite Hd.
    split_and!; [done|done|done|done|lia|cbn; lia|done].
  - unfold after. cbn [with_list mBlockIndex xTxList xShardDepositIndex]. rewrite Hm, Hd.
    rewrite (proj2 (Z.eqb_neq _ _)) by lia. by replace (Z.to_nat (Z.of_nat k + 1)) with (S k) by lia.
Qed.

Lemma chain_next n i :
  chain !! n <> None → (i ≤ n)%nat → u64 (Z.of_nat i + 1) = Z.of_nat i + 1.
Proof.
  intros Hn Hi. pose proof chain_length as Hc. apply not_eq_None_Some in Hn as [m Hm].
  apply lookup_lt_Some in Hm. apply u64_small. lia.
Qed.

Lemma advance_spec n i r k x :
  (∃ m, maxRootBlockHeader x = Some m ∧ chain !! n = Some m) → rBlock x = Some r →
  chain !! i = Some r → (i ≤ n)%nat → mBlockIndex x = Z.of_nat k →
  (k ≤ length (MinorBlockHeaders r))%nat →
  ∃ x', advance r x = (Ok (head (minors_from r k ++ deposits_between (S i) n)), x')
    ∧ cursor_ok n x' ∧ remaining n x' = tail (minors_from r k ++ deposits_between (S i) n)
    ∧ (rBlock x' = None ↔ minors_from r k ++ deposits_between (S i) n = []).
Proof.
  intros (max&Hmax&Hcn) Hr Hi Hin Hm Hk. unfold advance. rewrite Hm.
  pose proof (chain_minors _ _ Hi) as Hmin. rewrite (u64_small (Z.of_nat k + 1)) by lia.
  destruct (minor_loop_spec (length (MinorBlockHeaders r)) i r k (at_ (Z.of_nat k + 1) 0 x))
    as (x'&Heq&Hmax'&Hr'&Hplaced); [done|done|done|lia|done|].
  rewrite Heq. cbn [maxRootBlockHeader rBlock at_] in Hmax', Hr'.
  pose proof (chain_number _ _ Hi) as Hnum.
  destruct (minors_from r k) as [|d ds] eqn:Hds; cbn [head app].
  - rewrite Hmax', Hmax, Hnum, (chain_next n i) by (by rewrite ?Hcn).
    rewrite (chain_by_height _ _ (Z.of_nat i + 1) Hcn) by lia.
    replace (Z.to_nat (Z.of_nat i + 1)) with (S i) by lia.
    destruct (Z.of_nat n <? Z.of_nat i + 1) eqn:Hlt; [apply Z.ltb_lt in Hlt|apply Z.ltb_ge in Hlt].
    + rewrite deposits_between_end by lia. eexists. split_and!; [done| |done|by split].
      constructor; cbn; [by exists max|done|done].
    + destruct (chain !! S i) as [r2|] eqn:Hi2.
      2: { apply lookup_ge_None in Hi2. apply lookup_lt_Some in Hcn. lia. }
      rewrite (chain_by_hash _ _ Hi2), (deposits_between_cons (S i) n r2 Hi2) by lia.
      eexists. split_and!; [done| | |split; [cbn; congruence|done]].
      * constructor; cbn; [by exists max|done|]. intros r' [= <-]. exists (S i).
        split_and!; [done|lia|]. left. cbn. split; [done|by right].
      * unfold remaining. cbn. rewrite (chain_number _ _ Hi2). by replace (Z.to_nat (Z.of_nat (S i))) with (S i) by lia.
  - destruct (Hplaced ltac:(done)) as [Hpl Haft]. exists x'. split_and!; [done| | |split; [cbn; congruence|done]].
    + constructor; [exists max; split; congruence|congruence|]. intros r' Hr2. exists i.
      assert (r' = r) as -> by congruence. done.
    + unfold remaining. rewrite Hr', Hr, Haft, Hnum. by rewrite Nat2Z.id.
Qed.

Lemma getNextTx_spec n x :
  cursor_ok n x →
  ∃ x', getNextTx x = (Ok (head (remaining n x)), x') ∧ cursor_ok n x'
    ∧ remaining n x' = tail (remaining n x) ∧ (rBlock x' = None ↔ remaining n x = []).
Proof.
  intros Hok. pose proof Hok as [Hmax Heof Hblk]. unfold getNextTx.
  destruct (rBlock x) as [r|] eqn:Hr; [|unfold remaining; rewrite Hr; exists x; rewrite Hr; split_and!; [done|done|done|by split]].
  destruct (Hblk r eq_refl) as (i&Hi&Hin&Hpl). pose proof (chain_number _ _ Hi) as Hnum.
  assert (remaining n x = after r x ++ deposits_between (S i) n) as Hrem
    by (unfold remaining; rewrite Hr, Hnum, Nat2Z.id; done). rewrite Hrem.
  destruct Hpl as [[Hm [Hd|Hd]]|(k&mh&l&Hm&Hmh&Hread&Hl&Hd&Hlen)].
  - assert (after r x = coinbase_deposit r :: minors_from r 0) as -> by (unfold after; by rewrite Hm, Hd).
    rewrite Hm, Hd. unfold getCurrentTx. cbn [at_ mBlockIndex xShardDepositIndex rBlock]. rewrite Hr.
    eexists. split_and!; [done| | |split; [cbn; congruence|done]].
    + constructor; cbn; [done|congruence|]. rewrite Hr. intros r' [= <-]. exists i.
      split_and!; [done|done|]. left. cbn. split; [done|by right].
    + unfold remaining. cbn [rBlock at_]. rewrite Hr, Hnum, Nat2Z.id. done.
  - assert (after r x = minors_from r 0) as -> by (unfold after; by rewrite Hm, Hd).
    rewrite Hm, Hd. unfold getCurrentTx at 1. cbn [at_ mBlockIndex xShardDepositIndex].
    change (u64 (1 + 1)) with 2. cbn. apply advance_spec; (done || lia).
  - assert (after r x = drop (Z.to_nat (xShardDepositIndex x + 1)) l ++ minors_from r (S k)) as ->.
    { unfold after. rewrite Hm, Hl, (proj2 (Z.eqb_neq _ _)) by lia.
      by replace (Z.to_nat (Z.of_nat k + 1)) with (S k) by lia. }
    rewrite (u64_small (xShardDepositIndex x + 1)) by lia.
    rewrite (getCurrentTx_minor _ k l (xShardDepositIndex x + 1)) by (done || lia).
    set (d := Z.to_nat (xShardDepositIndex x + 1)). destruct (l !! d) as [tx|] eqn:Htx.
    + rewrite (drop_S l tx d Htx). eexists. split_and!; [done| | |split; [cbn; congruence|done]].
      * constructor; cbn; [done|congruence|]. rewrite Hr. intros r' [= <-]. exists i.
        split_and!; [done|done|]. right. exists k, mh, l. cbn. apply lookup_lt_Some in Htx.
        split_and!; [done|done|done|done|lia|lia|done].
      * unfold remaining. cbn [rBlock at_]. rewrite Hr, Hnum, Nat2Z.id. cbn [tail app]. f_equal.
        unfold after. cbn [mBlockIndex xShardDepositIndex xTxList at_]. rewrite Hm, Hl, (proj2 (Z.eqb_neq _ _)) by lia.
        replace (Z.to_nat (Z.of_nat k + 1)) with (S k) by lia.
        by replace (Z.to_nat (xShardDepositIndex x + 1 + 1)) with (S d) by lia.
    + rewrite drop_ge by (by apply lookup_ge_None). cbn [app].
      apply advance_spec; [done|done|done|done|cbn; lia|]. apply lookup_lt_Some in Hmh. lia.
Qed.

(** ** Saving and recovering *)

Lemma deposits_between_app lo n n' :
  (lo ≤ S n)%nat → (n ≤ n')%nat →
  deposits_between lo n ++ deposits_between (S n) n' = deposits_between lo n'.
Proof.
  intros Hlo Hn. unfold deposits_between. rewrite <- concat_app, <- fmap_app. do 2 f_equal.
  replace (S n' - lo)%nat with ((S n - lo) + (S n' - S n))%nat by lia.
  rewrite <- take_take_drop, drop_drop. by replace (lo + (S n - lo))%nat with (S n) by lia.
Qed.

Lemma recover_start h n m :
  chain !! n = Some m → (h ≤ S n)%nat →
  ∃ x, NewXShardTxCursor (rb_hash m) (mkInfo (Z.of_nat h) 0 0) = Ok x ∧ cursor_ok n x
       ∧ remaining n x = deposits_between h n.
Proof.
  intros Hn Hh. unfold NewXShardTxCursor. cbn [RootBlockHeight MinorBlockIndex XShardDepositIndex].
  rewrite (chain_by_hash _ _ Hn), (chain_by_height _ _ (Z.of_nat h) Hn) by lia. se_red.
  destruct (Z.of_nat n <? Z.of_nat h) eqn:Hlt; [apply Z.ltb_lt in Hlt|apply Z.ltb_ge in Hlt].
  - eexists. split_and!; [done| |by rewrite deposits_between_end by lia].
    constructor; cbn; [by exists m|done|done].
  - rewrite Nat2Z.id. destruct (chain !! h) as [r|] eqn:Hr.
    2: { apply lookup_ge_None in Hr. apply lookup_lt_Some in Hn. lia. }
    rewrite (chain_by_hash _ _ Hr). cbn [Z.eqb negb]. eexists. split_and!; [done| |].
    + constructor; cbn; [by exists m|done|]. intros r' [= <-]. exists h. split_and!; [done|lia|].
      left. cbn. split; [done|by left].
    + unfold remaining. cbn. rewrite (chain_number _ _ Hr), Nat2Z.id.
      by rewrite (deposits_between_cons h n r Hr) by lia.
Qed.

Lemma recover_saved n n' m' x info :
  cursor_ok n x → getCursorInfo x = Ok info → chain !! n' = Some m' → (n ≤ n')%nat →
  ∃ x', NewXShardTxCursor (rb_hash m') info = Ok x' ∧ cursor_ok n' x'
        ∧ remaining n' x' = remaining n x ++ deposits_between (S n) n'.
Proof.
  intros [(max&Hmax&Hcn) Heof Hblk] Hinfo Hn' Hle. unfold getCursorInfo in Hinfo.
  rewrite Hmax in Hinfo. se_red_in Hinfo. cbn in Hinfo.
  unfold remaining at 2. destruct (rBlock x) as [r|] eqn:Hr.
  - destruct (Hblk r eq_refl) as (i&Hi&Hin&Hpl). pose proof (chain_number _ _ Hi) as Hnum.
    injection Hinfo as <-. unfold NewXShardTxCursor.
    cbn [RootBlockHeight MinorBlockIndex XShardDepositIndex]. rewrite Hnum.
    rewrite (chain_by_hash _ _ Hn'), (chain_by_height _ _ (Z.of_nat i) Hn') by lia. se_red.
    rewrite (proj2 (Z.ltb_ge _ _)) by lia. rewrite Nat2Z.id, Hi, (chain_by_hash _ _ Hi).
    rewrite <- app_assoc, (deposits_between_app (S i) n n') by lia.
    destruct Hpl as [[Hm Hd]|(k&mh&l&Hm&Hmh&Hread&Hl&Hd&Hlen)].
    + rewrite Hm. cbn [Z.eqb negb]. eexists. split_and!; [done| |].
      * constructor; cbn; [by exists m'|done|]. intros r' [= <-]. exists i. split_and!; [done|lia|].
        left. by cbn.
      * unfold remaining. cbn [rBlock]. rewrite Hnum, Nat2Z.id. f_equal. unfold after. cbn. by rewrite Hm.
    + rewrite (proj2 (Z.eqb_neq _ _)) by lia. cbn [negb deref].
      replace (Z.to_nat (mBlockIndex x - 1)) with k by lia. rewrite Hmh, Hread.
      eexists. split_and!; [done| |].
      * constructor; cbn; [by exists m'|done|]. intros r' [= <-]. exists i. split_and!; [done|lia|].
        right. exists k, mh, l. by cbn.
      * unfold remaining. cbn [rBlock]. rewrite Hnum, Nat2Z.id. f_equal. unfold after. cbn. by rewrite Hl.
  - destruct (Heof eq_refl) as [Hm Hd]. rewrite Hm, Hd in Hinfo.
    rewrite (chain_number _ _ Hcn), (chain_next n n) in Hinfo by (by rewrite ?Hcn).
    injection Hinfo as <-. replace (Z.of_nat n + 1) with (Z.of_nat (S n)) by lia.
    apply recover_start; [done|lia].
Qed.

Lemma getCursorInfo_total n x : cursor_ok n x → ∃ info, getCursorInfo x = Ok info.
Proof. intros [(m&Hm&_) _ _]. unfold getCursorInfo. rewrite Hm. by eexists. Qed.

(** ** Executing the deposits *)
Section run.
Context {St : Type} (gasUsed : St → Z) (apply : Deposit → bool → SE St unit) (fixHeight : Z).

(** Every round consumes a deposit, so the loop ends; what it executed is
    exactly what it consumed, and it stops early only on the gas limit. *)
Lemma run_loop_spec fuel limit n x s acc :
  cursor_ok n x → (length (remaining n x) < fuel)%nat →
  ∃ r x' s', run_loop gasUsed apply fixHeight fuel limit x s acc = Some (r, x', s')
    ∧ ((∀ tx b s, (apply tx b s).1 = Ok tt) → ∃ out, r = Ok out)
    ∧ ∀ out, r = Ok out → cursor_ok n x' ∧ ∃ executed, out = acc ++ executed
        ∧ executed ++ remaining n x' = remaining n x
        ∧ (remaining n x' = [] ∨ limit <= gasUsed s').
Proof.
  revert x s acc. induction fuel as [|fuel IH]; intros x s acc Hok Hf; [lia|]. cbn [run_loop].
  destruct (getNextTx_spec n x Hok) as (x'&Hnext&Hok'&Hrem&Hend). rewrite Hnext.
  destruct (remaining n x) as [|tx rest] eqn:Erem; cbn [head tail] in *.
  { eexists _, x', s. split_and!; [done|by eexists|]. intros out [= <-]. split; [done|].
    exists []. rewrite app_nil_r. split_and!; [done|done|by left]. }
  destruct (rBlock x') as [r'|] eqn:Hr'; [|discriminate (proj1 Hend eq_refl)].
  destruct (apply tx (fixHeight <=? rb_number r') s) as [[u|e|e] s'] eqn:Happ.
  2,3: eexists _, x', s'; split_and!; [done| |done]; intros Htot;
       specialize (Htot tx (fixHeight <=? rb_number r') s); by rewrite Happ in Htot.
  destruct (limit <=? gasUsed s') eqn:Hlim.
  { apply Z.leb_le in Hlim. eexists _, x', s'. split_and!; [done|by eexists|]. intros out [= <-].
    split; [done|]. exists [tx]. split_and!; [done|by rewrite Hrem|by right]. }
  destruct (IH x' s' (acc ++ [tx]) Hok') as (r&x2&s2&Heq&Htot&Hres); [rewrite Hrem; cbn in Hf; lia|].
  exists r, x2, s2. split_and!; [done|done|]. intros out Hout.
  destruct (Hres out Hout) as (Hok2&executed&->&Happ2&Hstop). split; [done|]. exists (tx :: executed).
  split_and!; [by rewrite <- app_assoc|cbn; congruence|done].
Qed.

(** A sequence of minor blocks: each continues from the cursor its parent
    saved, over the root chain of its own tip. *)
Fixpoint run_blocks (fuel : nat) (blocks : list (Z * Z)) (info : XShardTxCursorInfo) (s : St)
    (executed : list Deposit) : option (result (list Deposit * XShardTxCursorInfo) * St) :=
  match blocks with
  | [] => Some (Ok (executed, info), s)
  | (tip, limit) :: blocks =>
      match RunCrossShardTxWithCursor gasUsed apply fixHeight fuel tip info limit s with
      | None => None
      | Some (Ok (txs, info), s) => run_blocks fuel blocks info s (executed ++ txs)
      | Some (Err e, s) => Some (Err e, s)
      | Some (Panic e, s) => Some (Panic e, s)
      end
  end.

(** The tips' heights do not decrease along the blocks. *)
Fixpoint tips_ok (n : nat) (blocks : list (Z * Z)) (last : nat) : Prop :=
  match blocks with
  | [] => n = last
  | (tip, _) :: blocks =>
      ∃ n' m, (n ≤ n')%nat ∧ chain !! n' = Some m ∧ tip = rb_hash m ∧ tips_ok n' blocks last
  end.

Lemma tips_ok_le n blocks last : tips_ok n blocks last → (n ≤ last)%nat.
Proof.
  revert n. induction blocks as [|[tip limit] blocks IH]; intros n; cbn; [lia|].
  intros (n'&m&Hle&_&_&Ht). specialize (IH n' Ht). lia.
Qed.

Lemma run_block_spec fuel n x tip limit s :
  cursor_ok n x → (length (remaining n x) < fuel)%nat →
  NewXShardTxCursor tip.1 tip.2 = Ok x →
  ∃ r s', RunCrossShardTxWithCursor gasUsed apply fixHeight fuel tip.1 tip.2 limit s = Some (r, s')
    ∧ ((∀ tx b s, (apply tx b s).1 = Ok tt) → ∃ out, r = Ok out)
    ∧ ∀ out info, r = Ok (out, info) →
      ∃ x', cursor_ok n x' ∧ getCursorInfo x' = Ok info ∧ out ++ remaining n x' = remaining n x.
Proof.
  intros Hok Hf Hnew. unfold RunCrossShardTxWithCursor. rewrite Hnew.
  destruct (run_loop_spec fuel limit n x s [] Hok Hf) as (r&x'&s'&->&Htot&Hres).
  eexists _, s'. split_and!; [done| |].
  - intros Hap. destruct (Htot Hap) as (out&->). destruct (Hres out eq_refl) as [Hok' _].
    destruct (getCursorInfo_total n x' Hok') as [info Hinfo]. se_red. rewrite Hinfo. by eexists.
  - intros out info Heq. destruct r as [out'|e|e]; [|done|done]. se_red_in Heq.
    destruct (Hres out' eq_refl) as (Hok'&executed&->&Happ&_).
    destruct (getCursorInfo x') as [i|e|e] eqn:Hi; [|done|done]. injection Heq as <- <-.
    exists x'. by split_and!.
Qed.

(** From a saved cursor. *)
Lemma run_blocks_spec fuel blocks last n x info s acc :
  cursor_ok n x → getCursorInfo x = Ok info → tips_ok n blocks last →
  (length (remaining n x ++ deposits_between (S n) last) < fuel)%nat →
  ∃ r s', run_blocks fuel blocks info s acc = Some (r, s')
    ∧ ((∀ tx b s, (apply tx b s).1 = Ok tt) → ∃ out, r = Ok out)
    ∧ ∀ out info', r = Ok (out, info') →
      ∃ x' executed, cursor_ok last x' ∧ getCursorInfo x' = Ok info' ∧ out = acc ++ executed
        ∧ executed ++ remaining last x' = remaining n x ++ deposits_between (S n) last.
Proof.
  revert n x info s acc. induction blocks as [|[tip limit] blocks IH];
    intros n x info s acc Hok Hinfo Htips Hf; cbn [run_blocks tips_ok] in *.
  { subst last. eexists _, s. split_and!; [done|by eexists|]. intros out info' [= <- <-].
    exists x, []. rewrite app_nil_r, deposits_between_end, app_nil_r by lia. done. }
  destruct Htips as (n'&m&Hle&Hm&->&Htips). pose proof (tips_ok_le _ _ _ Htips) as Hle'.
  destruct (recover_saved n n' m x info Hok Hinfo Hm Hle) as (y&Hnew&Hoky&Hremy).
  rewrite <- (deposits_between_app (S n) n' last), app_assoc, <- Hremy in Hf by lia.
  rewrite length_app in Hf.
  destruct (run_block_spec fuel n' y (rb_hash m, info) limit s Hoky ltac:(lia) Hnew)
    as (r&s'&Hrun&Htot&Hres). cbn [fst snd] in Hrun. rewrite Hrun.
  destruct r as [[txs info2]|e|e].
  2,3: eexists _, s'; split_and!; [done| |done]; intros Hap; destruct (Htot Hap) as [? ?]; done.
  destruct (Hres txs info2 eq_refl) as (x'&Hok'&Hinfo'&Happ).
  destruct (IH n' x' info2 s' (acc ++ txs) Hok' Hinfo' Htips) as (r2&s2&Heq&Htot2&Hres2).
  { rewrite length_app. apply (f_equal length) in Happ. rewrite length_app in Happ. lia. }
  exists r2, s2. split_and!; [done|done|]. intros out info' Hout.
  destruct (Hres2 out info' Hout) as (x2&executed&Hok2&Hinfo2&->&Happ2).
  exists x2, (txs ++ executed). split_and!; [done|done|by rewrite app_assoc|].
  rewrite <- app_assoc, Happ2, app_assoc, Happ, Hremy, <- app_assoc.
  by rewrite (deposits_between_app (S n) n' last) by lia.
Qed.
End run.
End correct.

(** ** The shard's chain provides what the cursor needs *)
Section instance.
Context (genesisToken genesisRootHeight : Z) (branch : Branch).
Context (rootBlocks : gmap Z RootBlock) (depositLists : gmap Z (list Deposit)) (shardCount : Z → Z).

Abbreviation shard := (minor_block_chain genesisToken genesisRootHeight branch rootBlocks depositLists shardCount).

(** The stored root blocks of [chain] are linked by their parent hashes. *)
Definition linked (chain : list RootBlock) : Prop :=
  ∀ i r, chain !! i = Some r →
    rb_number r = Z.of_nat i ∧ rootBlocks !! rb_hash r = Some r
    ∧ ∀ j, i = S j → ∃ p, chain !! j = Some p ∧ rb_parent r = rb_hash p.

(** Deposit lists are stored for the neighbours' blocks that may send. *)
Definition lists_stored (chain : list RootBlock) : Prop :=
  ∀ i r mh, chain !! i = Some r → mh ∈ MinorBlockHeaders r → from_neighbour (H := shard) r mh = true →
    ∃ p, rootBlocks !! PrevRootBlockHash mh = Some p
         ∧ if rb_number p <=? genesisRootHeight then depositLists !! mh_hash mh = None
           else ∃ l, depositLists !! mh_hash mh = Some l ∧ Z.of_nat (length l) < 2 ^ 63.

Lemma walk_back_spec chain fuel i r h :
  linked chain → chain !! i = Some r → (h ≤ i)%nat → (i - h ≤ fuel)%nat →
  walk_back rootBlocks fuel r (Z.of_nat h) = Ok (chain !! h).
Proof.
  intros Hl. revert i r. induction fuel as [|fuel IH]; intros i r Hi Hh Hf; cbn [walk_back];
    destruct (Hl i r Hi) as (Hnum&_&Hpar); rewrite Hnum;
    (destruct (Z.eqb_spec (Z.of_nat h) (Z.of_nat i)) as [Heq|Hne];
     [replace h with i by lia; by rewrite Hi|]); [lia|].
  destruct i as [|i]; [lia|]. destruct (Hpar i eq_refl) as (p&Hp&->).
  destruct (Hl i p Hp) as (_&->&_). apply (IH i p Hp); lia.
Qed.

Lemma shard_RootChain chain :
  linked chain → lists_stored chain →
  (∀ i r, chain !! i = Some r → Z.of_nat (length (MinorBlockHeaders r)) < 2 ^ 63) →
  Z.of_nat (length chain) < 2 ^ 63 → RootChain (H := shard) chain.
Proof.
  intros Hl Hs Hm Hc. constructor; [| | |exact Hs|exact Hm|exact Hc].
  - intros i r Hi. by apply Hl.
  - intros i r Hi. by apply (Hl i r).
  - intros i r h Hi Hh. cbn. unfold chain_GetRootBlockByHeight. destruct (Hl i r Hi) as (Hnum&Hget&_).
    rewrite Hget, Hnum. destruct (Z.of_nat i <? h) eqn:E; [done|]. apply Z.ltb_ge in E.
    rewrite <- (Z2Nat.id h) by lia. rewrite Nat2Z.id at 1.
    rewrite (walk_back_spec chain i i r (Z.to_nat h) Hl Hi) by lia. by rewrite Nat2Z.id.
Qed.
End instance.

(** C10: every cross-shard deposit is executed exactly once, in the order of the
    root chain.  For any sequence of minor blocks whose root tips do not go
    back, each continuing from the cursor its parent saved and stopping at its
    own gas limit, what they executed together, followed by what the last
    cursor still has ahead, is precisely the deposits of the root blocks after
    the start; the loops end, and the cursor itself never fails. *)
Theorem xshard_exactly_once `{Blockchain} chain `{!RootChain chain} {St} (gasUsed : St → Z)
    (apply : Deposit → bool → SE St unit) fixHeight fuel n0 m0 blocks last s :
  chain !! n0 = Some m0 → tips_ok chain n0 blocks last →
  (length (deposits_between chain (S n0) last) < fuel)%nat →
  ∃ r s', run_blocks gasUsed apply fixHeight fuel blocks (mkInfo (Z.of_nat (S n0)) 0 0) s [] = Some (r, s')
    ∧ ((∀ tx b s, (apply tx b s).1 = Ok tt) → ∃ out, r = Ok out)
    ∧ ∀ executed info, r = Ok (executed, info) →
      ∃ x, cursor_ok chain last x ∧ getCursorInfo x = Ok info
           ∧ executed ++ remaining chain last x = deposits_between chain (S n0) last.
Proof.
  intros Hn0 Htips Hf. set (x0 := mkCursor (Some m0) 0 0 (Some []) None).
  assert (cursor_ok chain n0 x0) as Hok by (constructor; cbn; [by exists m0|done|done]).
  assert (getCursorInfo x0 = Ok (mkInfo (Z.of_nat (S n0)) 0 0)) as Hinfo.
  { unfold getCursorInfo, x0. se_red. cbn. rewrite (chain_number _ _ Hn0).
    rewrite (chain_next chain n0 n0) by (by rewrite ?Hn0). do 2 f_equal. lia. }
  destruct (run_blocks_spec chain gasUsed apply fixHeight fuel blocks last n0 x0 _ s [] Hok Hinfo Htips Hf)
    as (r&s'&Heq&Htot&Hres).
  exists r, s'. split_and!; [done|done|]. intros executed info Hr.
  destruct (Hres executed info Hr) as (x&ex&Hx&Hi&->&Happ). by exists x.
Qed.

Definition own : Branch := mkBranch 1.
Definition peer : Branch := mkBranch 65537.
Definition addr0 : Address := mkAddress [] 0.
Definition dep (n : Z) : Deposit := mkDeposit n addr0 addr0 n 0 0 0 false 0 [] false 100.
Definition minor_of (hash : Z) (branch : Branch) (prevRoot : Z) : MinorBlockHeader :=
  mkMinorHeader hash 0 branch 1 addr0 ∅ 0 prevRoot 0 0 0 0 0 [] [] 0.
Definition root_of (hash parent number : Z) (headers : list MinorBlockHeader) : RootBlock :=
  mkRootBlock hash 0 parent number 0 0 addr0 ∅ 0 0 0 0 [] 0 [] [] headers.
Definition root0 : RootBlock := root_of 100 0 0 [].
Definition root1 : RootBlock := root_of 101 100 1 [minor_of 11 own 100; minor_of 12 peer 100].
Definition root2 : RootBlock := root_of 102 101 2 [minor_of 13 peer 101].
Definition demo_roots : gmap Z RootBlock := <[100 := root0]> (<[101 := root1]> (<[102 := root2]> ∅)).
Definition demo_lists : gmap Z (list Deposit) := <[13 := [dep 1; dep 2; dep 3]]> ∅.
Definition demo_shard : Blockchain := minor_block_chain 0 0 own demo_roots demo_lists (fun _ => 2).

Lemma demo_RootChain : RootChain (H := demo_shard) [root0; root1; root2].
Proof.
  apply shard_RootChain.
  - intros [|[|[|i]]] r Hr; cbn in Hr; simplify_eq; (split_and!; [done|done|]);
      intros j Hj; simplify_eq; eexists; split; done.
  - intros [|[|[|i]]] r mh Hr Hin Hn; cbn in Hr; simplify_eq; cbn [MinorBlockHeaders] in Hin.
    + by apply not_elem_of_nil in Hin.
    + repeat (apply elem_of_cons in Hin as [->|Hin]); [done| |by apply not_elem_of_nil in Hin].
      exists root0. split; done.
    + apply elem_of_cons in Hin as [->|Hin]; [|by apply not_elem_of_nil in Hin].
      exists root1. split; [done|]. cbn. eexists. split; [done|]. done.
  - intros [|[|[|i]]] r Hr; cbn in Hr; simplify_eq; done.
  - done.
Qed.

Lemma xshard_exactly_once_witness :
  ∃ r s', run_blocks (H := demo_shard) (fun s : Z => s) (fun d _ s => (Ok tt, s + 1)) 0 10
            [(101, 5); (102, 3); (102, 9)] (mkInfo 1 0 0) 0 [] = Some (r, s')
    ∧ ((∀ (tx : Deposit) (b : bool) (s : Z), (Ok tt : result unit) = Ok tt) → ∃ out, r = Ok out)
    ∧ ∀ executed info, r = Ok (executed, info) →
      ∃ x, cursor_ok (H := demo_shard) [root0; root1; root2] 2 x ∧ getCursorInfo x = Ok info
           ∧ executed ++ remaining (H := demo_shard) [root0; root1; root2] 2 x
             = deposits_between (H := demo_shard) [root0; root1; root2] 1 2.
Proof.
  apply (xshard_exactly_once (H := demo_shard) [root0; root1; root2] (RootChain0 := demo_RootChain)
           (fun s : Z => s) (fun d _ s => (Ok tt, s + 1)) 0 10 0 root0); [done| |].
  - exists 1%nat, root1. split_and!; [lia|done|done|]. exists 2%nat, root2. split_and!; [lia|done|done|].
    exists 2%nat, root2. split_and!; [lia|done|done|]. done.
  - apply Nat.ltb_lt. vm_compute. reflexivity.
Defined.
