(* ===== verification/Lru.v ===== *)
(** * Caches

    The LRU cache of hashicorp/golang-lru, which the chains, the header chains
    and the proof-of-staked-work calculator use.  It is a library, so it is a
    class here: a cache may drop any entry when another is added. *)

From S2P Require Import Prelude.

Class Lru (V C : Type) := {
  lru_get : C → Z → option V;                  (* Contains, and the value of Get and Peek *)
  lru_touch : C → Z → C;                       (* the recency update of Get *)
  lru_add : C → Z → V → C;
  lru_remove : C → Z → C;
  lru_purge : C → C;
  lru_keys : C → list Z;
}.
Class LruLaws (V C : Type) `{Lru V C} : Prop := {
  lru_touch_get c k k' v : lru_get (lru_touch c k) k' = Some v → lru_get c k' = Some v;
  lru_add_get c k v k' v' :
    lru_get (lru_add c k v) k' = Some v' → k' = k ∧ v' = v ∨ lru_get c k' = Some v';
  lru_add_same c k v : lru_get (lru_add c k v) k = Some v;
  lru_purge_get c k : lru_get (lru_purge c) k = None;
}.

(** A cache of bounded size that drops the oldest entry. *)
Abbreviation fifo V := (list (Z * V)).

Section fifo.
Context {V : Type}.

Fixpoint fifo_get (c : fifo V) (k : Z) : option V :=
  match c with
  | [] => None
  | (k', v) :: c => if bool_decide (k' = k) then Some v else fifo_get c k
  end.
#[export] Instance fifo_lru : Lru V (fifo V) := {
  lru_get := fifo_get;
  lru_touch c _ := c;
  lru_add c k v := take 128 ((k, v) :: filter (fun e => e.1 ≠ k) c);
  lru_remove c k := filter (fun e => e.1 ≠ k) c;
  lru_purge _ := [];
  lru_keys c := rev (fst <$> c);
}.

Lemma fifo_get_take n c k v : fifo_get (take n c) k = Some v → fifo_get c k = Some v.
Proof.
  revert n. induction c as [|[a w] c IH]; intros [|n]; cbn [take fifo_get]; [done|done|done|].
  case_bool_decide; [done|apply IH].
Qed.
Lemma fifo_get_filter c k k' : k' ≠ k → fifo_get (filter (fun e => e.1 ≠ k) c) k' = fifo_get c k'.
Proof.
  intros Hne. induction c as [|[a w] c IH]; [done|]. destruct (decide (a = k)) as [->|Ha].
  - rewrite filter_cons_False by (cbn; tauto). cbn [fifo_get]. by rewrite bool_decide_false.
  - rewrite filter_cons_True by (cbn; tauto). cbn [fifo_get]. by rewrite IH.
Qed.

#[export] Instance fifo_laws : LruLaws V (fifo V).
Proof.
  constructor; cbn [lru_get lru_touch lru_add lru_purge fifo_lru]; [done| | |done].
  - intros c k v k' v' Hget. apply fifo_get_take in Hget. cbn [fifo_get] in Hget.
    case_bool_decide as E; [left; by simplify_eq|]. right. by rewrite fifo_get_filter in Hget.
  - intros c k v. cbn [take fifo_get]. by rewrite bool_decide_true.
Qed.
End fifo.
