(* ===== verification/Consensus.v ===== *)
(** * consensus: difficulty and proof of staked work

    Models src/consensus/difficulty.go, src/consensus/posw/posw.go, the
    configuration it reads (POSWConfig of src/cluster/config/config.go) and the
    balance check of src/core/evm.go.  The block database and the LRU cache of
    coinbase windows (Lru.v) are parameters.  Hashes and recipients are numbers. *)

From S2P Require Import Prelude Lru.

Local Open Scope Z_scope.

(** ** Difficulty *)

Record EthDifficultyCalculator := mkCalculator {
  AdjustmentCutoff : Z;
  AdjustmentFactor : Z;
  MinimumDifficulty : Z;
}.

Definition CalculateDifficulty (c : EthDifficultyCalculator) (parentTime parentDifficulty time : Z)
    : result Z :=
  if time <? parentTime then Err "parent time is smaller than time for CalculateDifficulty"
  else if AdjustmentCutoff c =? 0 then Panic "integer divide by zero"
  else
    let sign := 1 - (time - parentTime) / AdjustmentCutoff c in
    let sign := if sign <? -99 then -99 else sign in
    if AdjustmentFactor c =? 0 then Panic "division by zero"
    else
      let offset := parentDifficulty / AdjustmentFactor c in
      let diff := parentDifficulty + offset * sign in
      if diff <? MinimumDifficulty c then Ok (MinimumDifficulty c) else Ok diff.

(** ** Configuration *)

Record POSWConfig := mkPOSWConfig {
  Enabled : bool;
  EnableTimestamp : Z;
  DiffDivider : Z;
  WindowSize : Z;
  TotalStakePerBlock : Z;
  BoostTimestamp : Z;
  BoostMultiplierPerStep : Z;
  BoostSteps : Z;
  BoostStepInterval : Z;
}.

(** uint64 powers, with their wrap-around. *)
Fixpoint pow_loop (n : nat) (value r : Z) : Z :=
  match n with
  | O => r
  | S n => pow_loop n value (u64 (r * value))
  end.
Definition pow (value n : Z) : Z := pow_loop (Z.to_nat n) value 1.

Definition GetDiffDivider (c : POSWConfig) (blocktime : Z) : result Z :=
  if (0 <? BoostTimestamp c) && (BoostTimestamp c <=? blocktime) then
    if BoostStepInterval c =? 0 then Panic "integer divide by zero"
    else
      let steps := u64 ((blocktime - BoostTimestamp c) / BoostStepInterval c + 1) in
      let steps := if BoostSteps c <? steps then BoostSteps c else steps in
      Ok (u64 (DiffDivider c * pow (BoostMultiplierPerStep c) steps))
  else Ok (DiffDivider c).

(** ** Proof of staked work *)

Record Block := mkBlock { b_number : Z; b_parent : Z; b_coinbase : Z }.
Record Header := mkHeader {
  h_hash : Z; h_number : Z; h_time : Z; h_parent : Z; h_coinbase : Z; h_difficulty : Z }.

Section posw.
Context {C : Type} `{Lru (Z * list Z) C}.
Context (GetBlock : Z → option Block) (config : POSWConfig).

(** [n] rounds of the loop over the ancestors.  When the parent is missing, the
    error message itself reads the missing block's parent hash. *)
Fixpoint miss_loop (n : nat) (block : Block) (addrs : list Z) : result (list Z) :=
  match n with
  | O => Ok addrs
  | S n =>
      let addrs := addrs ++ [b_coinbase block] in
      if b_number block =? 0 then Ok addrs
      else
        match GetBlock (b_parent block) with
        | None => Panic "invalid memory address or nil pointer dereference"
        | Some p => miss_loop n p addrs
        end
  end.

(** In-place reversal by swapping ends. *)
Fixpoint revert_loop (fuel start end_ : nat) (arr : list Z) : list Z :=
  match fuel with
  | O => arr
  | S fuel =>
      if bool_decide (start < end_)%nat then
        revert_loop fuel (S start) (end_ - 1)
          (<[start := arr !!! end_]> (<[end_ := arr !!! start]> arr))
      else arr
  end.
Definition revertArr (arr : list Z) : list Z := revert_loop (length arr) 0 (length arr - 1) arr.

(** The window from the cached one of the parent. *)
Definition extend_window (window : Z) (addrs : list Z) (coinbase : Z) : result (list Z) :=
  if Z.of_nat (length addrs) =? window then
    match addrs with
    | [] => Panic "slice bounds out of range"
    | _ :: addrs => Ok (addrs ++ [coinbase])
    end
  else Ok (addrs ++ [coinbase]).

Definition getCoinbaseAddressUntilBlock (headerHash : Z) : SE C (list Z) := fun c =>
  match GetBlock headerHash with
  | None => (Err "curr block not found: hash %x", c)
  | Some block =>
      let window := i64 (WindowSize config) - 1 in
      if window + 10 <? 0 then (Panic "makeslice: cap out of range", c)
      else
        let '(addrs, c) :=
          match lru_get c (b_parent block) with
          | Some (_, cached) =>
              (extend_window window cached (b_coinbase block), lru_touch c (b_parent block))
          | None =>
              (a ← miss_loop (Z.to_nat window) block []; Ok (revertArr a), c)
          end in
        match addrs with
        | Err e => (Err e, c)
        | Panic e => (Panic e, c)
        | Ok addrs =>
            let c := lru_add c headerHash (b_number block, addrs) in
            if window <? Z.of_nat (length addrs)
            then (Panic "Unexpected result: len(addrs) > length", c)
            else (Ok addrs, c)
        end
  end.

Definition count_of (addr : Z) (l : list Z) : Z := Z.of_nat (length (filter (fun a => a = addr) l)).

Definition countCoinbaseBlockUntil (headerHash coinbase : Z) : SE C Z :=
  coinbases ← getCoinbaseAddressUntilBlock headerHash;
  mret (u64 (count_of coinbase coinbases)).

(** [new(big.Int).Div(stakes, stakePerBlock).Uint64()]: Euclidean division, then
    the low 64 bits of the absolute value. *)
Definition block_threshold (stakes stakePerBlock : Z) : result Z :=
  if stakePerBlock =? 0 then Panic "division by zero"
  else
    let t := u64 (Z.abs (Z.sgn stakePerBlock * (stakes / Z.abs stakePerBlock))) in
    Ok (if WindowSize config <? t then WindowSize config else t).

(** Dividing by a zero divider panics; the divider is read as an int64. *)
Definition div_difficulty (diff time : Z) : result Z :=
  d ← GetDiffDivider config time;
  if i64 d =? 0 then Panic "division by zero"
  else Ok (Z.sgn (i64 d) * (diff / Z.abs (i64 d))).

Definition PoSWDiffAdjust (header : Header) (stakes : option Z) (stakePerBlock : Z) : SE C Z :=
  match stakes with
  | None => mret (h_difficulty header)
  | Some stakes =>
      t ← se_lift (block_threshold stakes stakePerBlock);
      if (t : Z) =? 0 then mret (h_difficulty header)
      else
        cnt ← countCoinbaseBlockUntil (h_parent header) (h_coinbase header);
        if (cnt : Z) <? t then se_lift (div_difficulty (h_difficulty header) (h_time header))
        else mret (h_difficulty header)
  end.

Definition bump (k : Z) (m : gmap Z Z) : gmap Z Z := <[k := u64 (default 0 (m !! k) + 1)]> m.

Definition BuildSenderDisallowMap (headerHash : Z) (coinbase : option Z) : SE C (option (gmap Z Z)) :=
  if negb (Enabled config) then mret None
  else
    coinbaseAddrs ← getCoinbaseAddressUntilBlock headerHash;
    let counts := foldl (fun m ca => bump ca m) ∅ coinbaseAddrs in
    let counts := match coinbase with Some cb => bump cb counts | None => counts end in
    mret (Some ((fun v => i64 v * TotalStakePerBlock config) <$> counts)).

Definition IsPoSWEnabled (time height : Z) : bool :=
  Enabled config && (EnableTimestamp config <=? time) && (0 <? height).

(** Effective difficulty, blocks mineable, blocks mined. *)
Definition GetPoSWInfo (header : Header) (stakes : option Z) (address stakePerBlock : Z)
    : SE C (Z * Z * Z) :=
  cnt ← countCoinbaseBlockUntil (h_hash header) address;
  match stakes with
  | Some stakes =>
      if IsPoSWEnabled (h_time header) (h_number header) then
        t ← se_lift (block_threshold stakes stakePerBlock);
        if (cnt : Z) <? t
        then d ← se_lift (div_difficulty (h_difficulty header) (h_time header)); mret (d, t, cnt)
        else mret (h_difficulty header, t, cnt)
      else mret (h_difficulty header, 0, cnt)
  | None => mret (h_difficulty header, 0, cnt)
  end.
End posw.

(** ** The balance check of a transfer (core/evm.go)

    [disallow] is the state's sender map, [balance] the sender's balance in the
    default token. *)
Definition TransferFailureByPoswBalanceCheck (disallow : gmap Z Z) (balance addr amount : Z) : bool :=
  match disallow !! addr with
  | Some v => balance <? amount + v
  | None => false
  end.

(** ** Difficulty: bounds and direction *)

(** C26: the next difficulty is refused exactly for a time before the parent's;
    otherwise it is at least the minimum, within one step above and 99 steps
    below the parent's (a step is the parent's difficulty over the adjustment
    factor) unless the minimum cuts it, and a later block never has a higher
    difficulty than an earlier one. *)
Theorem CalculateDifficulty_correct c parentTime parentDifficulty time :
  0 < AdjustmentCutoff c → 0 < AdjustmentFactor c → 0 <= parentDifficulty →
  let step := parentDifficulty / AdjustmentFactor c in
  if time <? parentTime then is_ok (CalculateDifficulty c parentTime parentDifficulty time) = false
  else ∃ d, CalculateDifficulty c parentTime parentDifficulty time = Ok d
    ∧ MinimumDifficulty c <= d
    ∧ (d = MinimumDifficulty c ∨ parentDifficulty - 99 * step <= d <= parentDifficulty + step)
    ∧ ∀ time', time <= time' → ∃ d',
        CalculateDifficulty c parentTime parentDifficulty time' = Ok d' ∧ d' <= d.
Proof.
  intros Hc Hf Hp. cbn zeta. set (step := parentDifficulty / AdjustmentFactor c).
  assert (0 <= step) as Hstep by (apply Z.div_pos; lia).
  set (sgn := fun t => let s := 1 - (t - parentTime) / AdjustmentCutoff c in if s <? -99 then -99 else s).
  assert (∀ t, parentTime <= t → CalculateDifficulty c parentTime parentDifficulty t
    = Ok (Z.max (MinimumDifficulty c) (parentDifficulty + step * sgn t)) ∧ -99 <= sgn t <= 1) as Hval.
  { intros t Ht. unfold CalculateDifficulty. rewrite (proj2 (Z.ltb_ge _ _)) by lia.
    rewrite (proj2 (Z.eqb_neq _ _)), (proj2 (Z.eqb_neq _ _)) by lia. fold step. split.
    - change (if 1 - (t - parentTime) / AdjustmentCutoff c <? -99 then _ else _) with (sgn t).
      destruct (Z.ltb_spec (parentDifficulty + step * sgn t) (MinimumDifficulty c)); f_equal; lia.
    - pose proof (Z.div_pos (t - parentTime) (AdjustmentCutoff c)). unfold sgn.
      destruct (Z.ltb_spec (1 - (t - parentTime) / AdjustmentCutoff c) (-99)); lia. }
  destruct (Z.ltb_spec time parentTime) as [Hlt|Hge].
  { unfold CalculateDifficulty. by rewrite (proj2 (Z.ltb_lt _ _)) by lia. }
  destruct (Hval time Hge) as [-> Hs]. eexists. split_and!; [done|lia| |].
  - destruct (Z.max_spec (MinimumDifficulty c) (parentDifficulty + step * sgn time)) as [[_ ->]|[_ ->]];
      [right; nia|by left].
  - intros t' Ht'. destruct (Hval t' ltac:(lia)) as [-> Hs']. eexists. split; [done|].
    assert (sgn t' <= sgn time) as Hmono.
    { assert ((time - parentTime) / AdjustmentCutoff c <= (t' - parentTime) / AdjustmentCutoff c)
        by (apply Z.div_le_mono; lia).
      unfold sgn. destruct (Z.ltb_spec (1 - (t' - parentTime) / AdjustmentCutoff c) (-99));
      destruct (Z.ltb_spec (1 - (time - parentTime) / AdjustmentCutoff c) (-99)); lia. }
    apply Z.max_le_compat_l. nia.
Qed.

Definition demo_calculator : EthDifficultyCalculator := mkCalculator 7 512 10000.

Lemma CalculateDifficulty_witness :
  ∃ d, CalculateDifficulty demo_calculator 100 5120000 130 = Ok d ∧ 10000 <= d
    ∧ (d = 10000 ∨ 5120000 - 99 * 10000 <= d <= 5120000 + 10000)
    ∧ ∀ time', 130 <= time' → ∃ d', CalculateDifficulty demo_calculator 100 5120000 time' = Ok d' ∧ d' <= d.
Proof. apply (CalculateDifficulty_correct demo_calculator 100 5120000 130); cbn; lia. Defined.

(** ** The window of coinbases *)

Lemma list_eq_total (l k : list Z) :
  length l = length k → (∀ i, (i < length l)%nat → l !!! i = k !!! i) → l = k.
Proof.
  intros Hlen Heq. apply list_eq_same_length with (n := length k); [done|done|].
  intros i x y Hi Hx Hy. specialize (Heq i ltac:(lia)).
  by rewrite (list_lookup_total_correct _ _ _ Hx), (list_lookup_total_correct _ _ _ Hy) in Heq.
Qed.

Lemma lookup_total_insert (l : list Z) i x k :
  (i < length l)%nat → <[i := x]> l !!! k = if decide (k = i) then x else l !!! k.
Proof.
  intros Hi. rewrite !list_lookup_total_alt. case_decide as Hk.
  - subst. by rewrite list_lookup_insert_eq.
  - by rewrite list_lookup_insert_ne.
Qed.

Lemma revert_loop_spec fuel a b arr :
  (b < length arr)%nat → (b - a ≤ 2 * fuel)%nat →
  length (revert_loop fuel a b arr) = length arr
  ∧ ∀ i, (i < length arr)%nat →
      revert_loop fuel a b arr !!! i
      = if decide (a ≤ i ≤ b)%nat then arr !!! (a + b - i)%nat else arr !!! i.
Proof.
  revert a b arr. induction fuel as [|fuel IH]; intros a b arr Hb Hf; cbn [revert_loop].
  { split; [done|]. intros i Hi. case_decide; [|done]. f_equal. lia. }
  case_bool_decide as Hab.
  2: { split; [done|]. intros i Hi. case_decide; [|done]. f_equal. lia. }
  set (arr' := <[a := arr !!! b]> (<[b := arr !!! a]> arr)).
  assert (length arr' = length arr) as Hlen by (unfold arr'; by rewrite !length_insert).
  destruct (IH (S a) (b - 1)%nat arr') as [H1 H2]; [lia|lia|]. split; [lia|].
  intros i Hi. rewrite H2 by lia. unfold arr'.
  repeat rewrite lookup_total_insert by (rewrite ?length_insert; lia).
  repeat case_decide; try lia; f_equal; lia.
Qed.

Lemma revertArr_reverse arr : revertArr arr = reverse arr.
Proof.
  unfold revertArr. destruct arr as [|x l] eqn:E; [done|]. rewrite <- E.
  assert (0 < length arr)%nat as Hpos by (rewrite E; cbn; lia).
  destruct (revert_loop_spec (length arr) 0 (length arr - 1) arr) as [H1 H2]; [lia|lia|].
  apply list_eq_total; [by rewrite length_reverse|]. intros i Hi. rewrite H1 in Hi.
  rewrite H2 by done. rewrite decide_True by lia. rewrite !list_lookup_total_alt. f_equal.
  rewrite reverse_lookup by done. f_equal. lia.
Qed.

Section posw_correct.
Context {C : Type} `{LruLaws (Z * list Z) C}.
Context (GetBlock : Z → option Block) (config : POSWConfig).

(** Every block but the genesis has its parent in the database, one lower. *)
Definition complete : Prop :=
  ∀ h b, GetBlock h = Some b → 0 <= b_number b
    ∧ if b_number b =? 0 then GetBlock (b_parent b) = None
      else ∃ p, GetBlock (b_parent b) = Some p ∧ b_number p = b_number b - 1.

(** The coinbases of a block and its ancestors, newest first, at most [n]. *)
Fixpoint ancestors (n : nat) (b : Block) : list Z :=
  match n with
  | O => []
  | S n => b_coinbase b :: if b_number b =? 0 then []
                           else match GetBlock (b_parent b) with
                                | Some p => ancestors n p
                                | None => []
                                end
  end.

Definition window_len : nat := Z.to_nat (WindowSize config - 1).

(** The window of a block, oldest first. *)
Definition window_of (b : Block) : list Z := reverse (ancestors window_len b).

(** What is cached is right. *)
Definition coherent (c : C) : Prop :=
  ∀ h v, lru_get c h = Some v → ∃ b, GetBlock h = Some b ∧ v.2 = window_of b.

Lemma length_ancestors n b : (length (ancestors n b) ≤ n)%nat.
Proof.
  revert b. induction n as [|n IH]; intros b; cbn; [lia|].
  destruct (b_number b =? 0); [cbn; lia|]. destruct (GetBlock (b_parent b)) as [p|]; [|cbn; lia].
  specialize (IH p). lia.
Qed.

(** The shorter list of ancestors is a prefix. *)
Lemma ancestors_S n b : ancestors n b = take n (ancestors (S n) b).
Proof.
  revert b. induction n as [|n IH]; intros b; [done|].
  cbn [ancestors]. rewrite firstn_cons. f_equal. destruct (b_number b =? 0); [by rewrite take_nil|].
  destruct (GetBlock (b_parent b)) as [p|]; [apply IH|by rewrite take_nil].
Qed.

Lemma miss_loop_spec n b acc h :
  complete → GetBlock h = Some b → miss_loop GetBlock n b acc = Ok (acc ++ ancestors n b).
Proof.
  intros Hcomp. revert b acc h. induction n as [|n IH]; intros b acc h Hb; cbn [miss_loop ancestors];
    [by rewrite app_nil_r|].
  destruct (Hcomp h b Hb) as [Hn Hpar]. destruct (b_number b =? 0) eqn:E; [done|].
  destruct Hpar as (p&Hp&_). rewrite Hp, (IH p (acc ++ [b_coinbase b]) (b_parent b) Hp).
  by rewrite <- app_assoc.
Qed.

(** The window of a block from its parent's. *)
Lemma extend_window_spec h b p :
  complete → 2 <= WindowSize config → GetBlock h = Some b → GetBlock (b_parent b) = Some p →
  extend_window (WindowSize config - 1) (window_of p) (b_coinbase b) = Ok (window_of b).
Proof.
  intros Hcomp Hw Hb Hp. destruct (Hcomp h b Hb) as [Hn Hpar].
  destruct (b_number b =? 0) eqn:E; [congruence|].
  unfold window_of, extend_window. set (n := window_len).
  assert (Z.of_nat n = WindowSize config - 1 ∧ ∃ k, n = S k) as [Hnz [k Hk]]
    by (unfold n, window_len; split; [lia|]; exists (Z.to_nat (WindowSize config - 2)); lia).
  assert (ancestors n b = b_coinbase b :: ancestors k p) as Hanc by (rewrite Hk; cbn; by rewrite E, Hp).
  rewrite Hanc, reverse_cons. rewrite (ancestors_S k p), <- Hk, length_reverse.
  pose proof (length_ancestors n p) as Hlen. set (l := ancestors n p) in *.
  destruct (Z.eqb_spec (Z.of_nat (length l)) (WindowSize config - 1)) as [Heq|Hne].
  - assert (length l = S k) as Hlk by lia.
    assert (∃ z, drop k l = [z]) as [z Hz].
    { assert (length (drop k l) = 1%nat) by (rewrite length_drop; lia).
      destruct (drop k l) as [|z [|]]; [done|by exists z|done]. }
    rewrite <- (take_drop k l) at 1. by rewrite Hz, reverse_app.
  - by rewrite take_ge by lia.
Qed.

Lemma getCoinbase_spec h b c :
  complete → 2 <= WindowSize config < 2 ^ 63 → coherent c → GetBlock h = Some b →
  ∃ c', getCoinbaseAddressUntilBlock GetBlock config h c = (Ok (window_of b), c') ∧ coherent c'.
Proof.
  intros Hcomp Hw Hcoh Hb. unfold getCoinbaseAddressUntilBlock. rewrite Hb, i64_small by lia.
  rewrite (proj2 (Z.ltb_ge _ _)) by lia.
  assert ((WindowSize config - 1 <? Z.of_nat (length (window_of b))) = false) as Hlen.
  { apply Z.ltb_ge. unfold window_of. rewrite length_reverse.
    pose proof (length_ancestors window_len b). unfold window_len in *. lia. }
  assert (∀ c1, coherent c1 → coherent (lru_add c1 h (b_number b, window_of b))) as Hadd.
  { intros c1 Hc1 h' v Hv. apply lru_add_get in Hv as [[-> ->]|Hv]; [by exists b|by apply Hc1]. }
  destruct (lru_get c (b_parent b)) as [[hh cached]|] eqn:Hget.
  - destruct (Hcoh _ _ Hget) as (p&Hp&Hv). cbn in Hv. subst cached.
    rewrite (extend_window_spec h b p) by (done || lia). rewrite Hlen. eexists. split; [done|].
    apply Hadd. intros h' v Hv. apply lru_touch_get in Hv. by apply Hcoh.
  - rewrite (miss_loop_spec _ b [] h Hcomp Hb). se_red. cbn [app]. rewrite revertArr_reverse.
    change (reverse (ancestors (Z.to_nat (WindowSize config - 1)) b)) with (window_of b).
    rewrite Hlen. eexists. split; [done|]. by apply Hadd.
Qed.

(** The disallow map counts. *)
Lemma count_of_cons a x l : count_of a (x :: l) = (if decide (x = a) then 1 else 0) + count_of a l.
Proof.
  unfold count_of. rewrite filter_cons. case_decide; cbn [length]; lia.
Qed.
Lemma count_of_bounds a l : 0 <= count_of a l <= Z.of_nat (length l).
Proof. unfold count_of. pose proof (length_filter (fun x => x = a) l). lia. Qed.

Lemma fold_bump l m a :
  (∀ k v, m !! k = Some v → 0 < v ∧ v + Z.of_nat (length l) < 2 ^ 63) → Z.of_nat (length l) < 2 ^ 63 →
  foldl (fun m ca => bump ca m) m l !! a
  = if decide (m !! a = None ∧ count_of a l = 0) then None else Some (default 0 (m !! a) + count_of a l).
Proof.
  revert m. induction l as [|x l IH]; intros m Hm Hl; cbn [foldl].
  { change (count_of a []) with 0. destruct (m !! a) as [v|] eqn:E; cbn.
    - rewrite decide_False by (by intros [? _]). f_equal. lia.
    - by rewrite decide_True. }
  assert (bump x m !! x = Some (default 0 (m !! x) + 1)) as Hbx.
  { unfold bump. rewrite lookup_insert_eq. f_equal. apply u64_id. unfold in_u64. cbn [length] in *.
    destruct (m !! x) as [v|] eqn:E; cbn; [specialize (Hm x v E); lia|lia]. }
  rewrite IH.
  - rewrite count_of_cons. pose proof (count_of_bounds a l). destruct (decide (x = a)) as [->|Hne].
    + rewrite Hbx. rewrite (decide_False (P := Some _ = None ∧ _)) by (by intros [? _]).
      rewrite decide_False.
      * cbn. f_equal. lia.
      * intros [_ Hz]. lia.
    + assert (bump x m !! a = m !! a) as -> by (unfold bump; by rewrite lookup_insert_ne).
      by rewrite Z.add_0_l.
  - intros k v Hk. cbn [length] in Hm. destruct (decide (k = x)) as [->|Hne].
    + rewrite Hbx in Hk. injection Hk as <-. destruct (m !! x) as [w|] eqn:E; cbn.
      * specialize (Hm x w E). lia.
      * cbn [length] in Hl. lia.
    + unfold bump in Hk. rewrite lookup_insert_ne in Hk by done. specialize (Hm k v Hk). lia.
  - cbn [length] in Hl. lia.
Qed.
End posw_correct.

Section posw_theorems.
Context {C : Type} `{LruLaws (Z * list Z) C}.

(** The difficulty of a block is divided exactly when the miner's stake
    covers, at the stake required per block, this block and every block the
    miner has in the window before it; this does not depend on what the cache
    of windows holds or drops. *)
Theorem PoSWDiffAdjust_correct GetBlock config header b stakes stakePerBlock div c :
  complete GetBlock → 2 <= WindowSize config < 2 ^ 63 → coherent GetBlock config c →
  GetBlock (h_parent header) = Some b →
  0 < stakePerBlock → 0 <= stakes < 2 ^ 64 * stakePerBlock →
  GetDiffDivider config (h_time header) = Ok div → 0 < div < 2 ^ 63 →
  let mined := count_of (h_coinbase header) (window_of GetBlock config b) in
  ∃ c', PoSWDiffAdjust GetBlock config header (Some stakes) stakePerBlock c
        = (Ok (if decide ((mined + 1) * stakePerBlock <= stakes)
               then h_difficulty header / div else h_difficulty header), c')
        ∧ coherent GetBlock config c'.
Proof.
  intros Hcomp Hw Hcoh Hb Hspb Hst Hdiv Hd. cbn zeta.
  set (mined := count_of (h_coinbase header) (window_of GetBlock config b)).
  unfold PoSWDiffAdjust. se_red. unfold block_threshold.
  rewrite (proj2 (Z.eqb_neq stakePerBlock 0)) by lia. rewrite Z.sgn_pos, Z.mul_1_l by lia.
  rewrite (Z.abs_eq stakePerBlock) by lia. set (q := stakes / stakePerBlock).
  assert (0 <= q < 2 ^ 64) as Hq.
  { split; [apply Z.div_pos; lia|]. apply Z.div_lt_upper_bound; lia. }
  rewrite (Z.abs_eq q), (u64_id q) by (done || lia). cbv beta iota.
  assert (∀ k, k <= q ↔ k * stakePerBlock <= stakes) as Hqk.
  { intros k. unfold q. split; intros Hk.
    - pose proof (Z.mul_div_le stakes stakePerBlock Hspb). nia.
    - apply Z.div_le_lower_bound; lia. }
  assert (0 <= mined < WindowSize config) as Hmined.
  { unfold mined, window_of. pose proof (count_of_bounds (h_coinbase header) (reverse (ancestors GetBlock (window_len config) b))) as Hc.
    rewrite length_reverse in Hc. pose proof (length_ancestors GetBlock (window_len config) b).
    unfold window_len in *. lia. }
  set (t := if WindowSize config <? q then WindowSize config else q).
  assert (mined < t ↔ (mined + 1) * stakePerBlock <= stakes) as Hiff.
  { rewrite <- Hqk. unfold t. destruct (Z.ltb_spec (WindowSize config) q); lia. }
  destruct (Z.eqb_spec t 0) as [Ht|Ht].
  { exists c. rewrite decide_False by (rewrite <- Hiff; lia). done. }
  destruct (getCoinbase_spec GetBlock config (h_parent header) b c Hcomp Hw Hcoh Hb) as (c'&Hget&Hcoh').
  unfold countCoinbaseBlockUntil. se_red. rewrite Hget. fold mined.
  rewrite (u64_id mined) by (unfold in_u64; lia). exists c'. split; [|done].
  destruct (Z.ltb_spec mined t) as [Hlt|Hge].
  - rewrite decide_True by (by apply Hiff). unfold div_difficulty. rewrite Hdiv. se_red.
    rewrite i64_small, (proj2 (Z.eqb_neq _ _)), Z.sgn_pos, Z.mul_1_l, Z.abs_eq by lia. done.
  - rewrite decide_False by (rewrite <- Hiff; lia). done.
Qed.

(** With the sender map built for a block, a transfer passes the stake
    check exactly when the sender has no block in the window (the new block's
    coinbase included) or keeps, after the transfer, the full stake for each of
    its blocks. *)
Theorem posw_stake_locked GetBlock config h b coinbase c :
  complete GetBlock → 2 <= WindowSize config < 2 ^ 62 → coherent GetBlock config c →
  Enabled config = true → GetBlock h = Some b →
  ∃ m c', BuildSenderDisallowMap GetBlock config h (Some coinbase) c = (Ok (Some m), c')
    ∧ coherent GetBlock config c'
    ∧ ∀ addr balance amount,
        let blocks := count_of addr (window_of GetBlock config b ++ [coinbase]) in
        TransferFailureByPoswBalanceCheck m balance addr amount = false
        ↔ blocks = 0 ∨ blocks * TotalStakePerBlock config <= balance - amount.
Proof.
  intros Hcomp Hw Hcoh Hen Hb. unfold BuildSenderDisallowMap. rewrite Hen. cbn [negb].
  destruct (getCoinbase_spec GetBlock config h b c Hcomp ltac:(lia) Hcoh Hb) as (c'&Hget&Hcoh').
  se_red. rewrite Hget. eexists _, c'. split_and!; [done|done|]. intros addr balance amount. cbn zeta.
  set (w := window_of GetBlock config b).
  assert (Z.of_nat (length w) < 2 ^ 62) as Hlen.
  { unfold w, window_of. rewrite length_reverse.
    pose proof (length_ancestors GetBlock (window_len config) b). unfold window_len in *. lia. }
  assert (bump coinbase (foldl (fun m ca => bump ca m) ∅ w)
          = foldl (fun m ca => bump ca m) ∅ (w ++ [coinbase])) as -> by (by rewrite foldl_app).
  pose proof (count_of_bounds addr (w ++ [coinbase])) as Hcb. rewrite length_app in Hcb. cbn in Hcb.
  unfold TransferFailureByPoswBalanceCheck. rewrite lookup_fmap, fold_bump; cycle 1.
  { intros k v. by rewrite lookup_empty. }
  { rewrite length_app. cbn. lia. }
  rewrite lookup_empty. cbn [default from_option id]. rewrite Z.add_0_l.
  destruct (decide (count_of addr (w ++ [coinbase]) = 0)) as [Hz|Hnz].
  - rewrite decide_True by done. cbn. split; [by left|done].
  - rewrite decide_False by tauto. cbn. rewrite i64_small by lia. rewrite Z.ltb_ge. split; [right; lia|].
    intros [?|?]; [done|lia].
Qed.

(** A block whose parent is missing from the database makes the window
    computation panic: the error message dereferences the missing block, so the
    intended error is never returned. *)
Theorem missing_parent_panics GetBlock config h b (c : C) :
  2 <= WindowSize config < 2 ^ 63 → GetBlock h = Some b → b_number b ≠ 0 →
  GetBlock (b_parent b) = None → lru_get c (b_parent b) = None →
  is_panic (getCoinbaseAddressUntilBlock GetBlock config h c).1 = true.
Proof.
  intros Hw Hb Hn Hp Hc. unfold getCoinbaseAddressUntilBlock. rewrite Hb, i64_small by lia.
  rewrite (proj2 (Z.ltb_ge _ _)), Hc by lia.
  destruct (Z.to_nat (WindowSize config - 1)) as [|n] eqn:En; [lia|]. cbn [miss_loop].
  by rewrite (proj2 (Z.eqb_neq _ _)), Hp by done.
Qed.
End posw_theorems.

(** A chain of five blocks mined by 7, 8, 7, 9, 7. *)
Definition demo_block (h : Z) : option Block :=
  match h with
  | 1 => Some (mkBlock 0 0 7) | 2 => Some (mkBlock 1 1 8) | 3 => Some (mkBlock 2 2 7)
  | 4 => Some (mkBlock 3 3 9) | 5 => Some (mkBlock 4 4 7) | _ => None
  end.
Definition demo_posw : POSWConfig := mkPOSWConfig true 0 20 4 1000 0 2 10 100.

Lemma demo_complete : complete demo_block.
Proof.
  intros h b Hb. unfold demo_block in Hb.
  repeat case_match; simplify_eq; cbn; split; try lia; try done; eexists; split; done.
Qed.

Lemma PoSWDiffAdjust_witness :
  ∃ c', PoSWDiffAdjust demo_block demo_posw (mkHeader 6 5 50 5 7 4000) (Some 3000) 1000 ([] : fifo (Z * list Z))
        = (Ok (if decide ((count_of 7 (window_of demo_block demo_posw (mkBlock 4 4 7)) + 1) * 1000 <= 3000)
               then 4000 / 20 else 4000), c')
        ∧ coherent demo_block demo_posw c'.
Proof.
  apply (PoSWDiffAdjust_correct demo_block demo_posw (mkHeader 6 5 50 5 7 4000));
    [apply demo_complete|cbn; lia|by intros h v Hv|done|lia|lia|done|lia].
Defined.

Lemma posw_stake_locked_witness :
  ∃ m c', BuildSenderDisallowMap demo_block demo_posw 5 (Some 7) ([] : fifo (Z * list Z)) = (Ok (Some m), c')
    ∧ coherent demo_block demo_posw c'
    ∧ ∀ addr balance amount,
        let blocks := count_of addr (window_of demo_block demo_posw (mkBlock 4 4 7) ++ [7]) in
        TransferFailureByPoswBalanceCheck m balance addr amount = false
        ↔ blocks = 0 ∨ blocks * 1000 <= balance - amount.
Proof.
  apply (posw_stake_locked demo_block demo_posw 5 (mkBlock 4 4 7) 7);
    [apply demo_complete|cbn; lia|by intros h v Hv|done|done].
Defined.

Lemma missing_parent_witness :
  is_panic (getCoinbaseAddressUntilBlock
    (fun h => if h =? 9 then Some (mkBlock 4 8 7) else None) demo_posw 9 ([] : fifo (Z * list Z))).1 = true.
Proof. apply (missing_parent_panics _ _ 9 (mkBlock 4 8 7)); cbn; (done || lia). Defined.
