(* ===== verification/Engine.v ===== *)
(** * consensus: the common engine

    Models src/consensus/consensus.go and src/consensus/remote.go: the checks of
    a header that every engine shares, the seal check with its cache, the search
    for a nonce, and the goroutine that hands work to remote miners and takes
    their solutions.  The seal checks of src/consensus/qkchash/sealer.go and
    src/consensus/doublesha256/double256.go are here too.  A hash function is a
    parameter: QkcHash.v has the one of qkchash.  Channels are not modelled: the
    remote goroutine is a function from its state and an event to its next state
    and its answer, and the local search takes the number of tries until it is
    stopped. *)

From S2P Require Import Prelude Account Blocks Lru Consensus.

Local Open Scope Z_scope.

Definition two256 : Z := 2 ^ 256.
Definition staleThreshold : Z := 7.

(** [big.Int.Div] of a nonnegative number. *)
Definition big_Div (a b : Z) : result Z :=
  if b =? 0 then Panic "division by zero" else Ok (Z.sgn b * (a / Z.abs b)).
(** [common.BytesToHash] keeps the last 32 bytes. *)
Definition BytesToHash (b : list Z) : Z := be_value b mod two256.

(** What mining needs of a block: the hash its seal is over, and the block with
    a nonce, a digest and a signature filled in. *)
Class Minable (B : Type) := {
  SealHash : B → list Z;
  WithMingResult : B → Z → Z → option (list Z) → B;
}.
Class MinableLaws (B : Type) `{IBlock B, IHeader B, Minable B} : Prop := {
  seal_with b n d s : SealHash (WithMingResult b n d s) = SealHash b;
  number_with b n d s : NumberU64 (WithMingResult b n d s) = NumberU64 b;
  difficulty_with b n d s : GetDifficulty (WithMingResult b n d s) = GetDifficulty b;
  nonce_with b n d s : GetNonce (WithMingResult b n d s) = n;
  digest_with b n d s : GetMixDigest (WithMingResult b n d s) = d;
}.

(** ** Mining results in the two kinds of block *)

Section minable.
(** The hash of a header, whole and without the fields of the seal. *)
Context (minor_hash : MinorBlockHeader → Z) (minor_seal : MinorBlockHeader → list Z).
Context (root_hash : RootBlock → Z) (root_seal : RootBlock → list Z).

Definition minor_with (h : MinorBlockHeader) (hash nonce mixDigest : Z) : MinorBlockHeader :=
  mkMinorHeader hash (mh_version h) (mh_branch h) (mh_number h) (mh_coinbase h) (mh_coinbaseAmount h) (mh_parent h)
    (PrevRootBlockHash h) (mh_gasLimit h) (mh_metaHash h) (mh_time h) (mh_difficulty h) nonce (mh_bloom h)
    (mh_extra h) mixDigest.
Definition root_with (b : RootBlock) (hash nonce mixDigest : Z) (signature : list Z) : RootBlock :=
  mkRootBlock hash (rb_version b) (rb_parent b) (rb_number b) (rb_minorHeaderHash b) (rb_root b) (rb_coinbase b)
    (rb_coinbaseAmount b) (rb_time b) (rb_difficulty b) (rb_totalDifficulty b) nonce (rb_extra b) mixDigest
    signature (rb_trackingData b) (MinorBlockHeaders b).

Definition minor_WithMingResult (b : MinorBlock) (nonce mixDigest : Z) (_ : option (list Z)) : MinorBlock :=
  mkMinorBlock (minor_with (mb_header b) (minor_hash (minor_with (mb_header b) 0 nonce mixDigest)) nonce mixDigest)
    (mb_meta b) (mb_transactions b).
Definition root_WithMingResult (b : RootBlock) (nonce mixDigest : Z) (signature : option (list Z)) : RootBlock :=
  let s := default (rb_signature b) signature in
  root_with b (root_hash (root_with b 0 nonce mixDigest s)) nonce mixDigest s.

Instance minor_minable : Minable MinorBlock := {
  SealHash b := minor_seal (minor_with (mb_header b) 0 0 0);
  WithMingResult := minor_WithMingResult;
}.
Instance root_minable : Minable RootBlock := {
  SealHash b := root_seal (root_with b 0 0 0 []);
  WithMingResult := root_WithMingResult;
}.
Lemma minor_minable_laws : MinableLaws MinorBlock.
Proof. by constructor. Qed.
Lemma root_minable_laws : MinableLaws RootBlock.
Proof. by constructor. Qed.
End minable.

(** ** Headers and seals *)

Section engine.
Context {B : Type} `{IBlock B, IHeader B, Minable B}.

(** What an engine reads of a chain. *)
Record ChainReader := mkReader {
  cr_GetBlock : Z → option B;
  cr_BlockExtraDataSizeLimit : Z;
  cr_SkipDifficultyCheck : bool;
  cr_GetAdjustedDifficulty : B → result (Z * Z);
}.

(** A scheme of proof of work: height, seal hash and nonce give the digest and
    the result; the seal check takes the adjusted difficulty. *)
Record MiningSpec := mkSpec {
  HashAlgo : Z → list Z → Z → result (list Z * list Z);
  spec_VerifySeal : B → option Z → result unit;
}.

Context (spec : MiningSpec) (diffCalc : EthDifficultyCalculator).

Definition engine_CalcDifficulty (time : Z) (parent : B) : result Z :=
  CalculateDifficulty diffCalc (GetTime parent) (GetDifficulty parent) time.

(** VerifySeal; the cache has the difficulties under which a header's seal was
    verified. *)
Definition engine_VerifySeal {C} `{Lru Z C} (header : B) (adjustedDiff : Z) : SE C unit := fun c =>
  let c' := match lru_get c (Hash header) with Some _ => lru_touch c (Hash header) | None => c end in
  if bool_decide (lru_get c (Hash header) = Some adjustedDiff) then (Ok tt, c')
  else
    match spec_VerifySeal spec header (Some adjustedDiff) with
    | Ok _ => (Ok tt, lru_add c' (Hash header) adjustedDiff)
    | r => (r, c')
    end.

Definition engine_VerifyHeader {C} `{Lru Z C} (chain : ChainReader) (header : B) : SE C unit :=
  if negb (GetVersion header =? 0) then se_err "incorrect block's version"
  else
    match cr_GetBlock chain (ParentHash header) with
    | None => se_err "consensus: unknown ancestor"
    | Some parent =>
        if negb (NumberU64 parent =? u64 (NumberU64 header - 1)) then se_err "incorrect block height"
        else if bool_decide (cr_BlockExtraDataSizeLimit chain < u32 (Z.of_nat (length (GetExtra header))))
        then se_err "extra-data too long"
        else if bool_decide (GetTime header <= GetTime parent) then se_err "incorrect create time"
        else
          _ ← (if cr_SkipDifficultyCheck chain then mret tt
               else
                 expectedDiff ← se_lift (engine_CalcDifficulty (GetTime header) parent);
                 if negb ((expectedDiff : Z) =? GetDifficulty header) then se_err "invalid difficulty" else mret tt);
          d ← se_lift (cr_GetAdjustedDifficulty chain header);
          adjustedDiff ← se_lift (big_Div d.1 d.2);
          engine_VerifySeal header adjustedDiff
    end.

(** ** The seal checks of the schemes *)

Definition seal_difficulty (header : B) (adjustedDiff : option Z) : Z :=
  let diff := default (GetDifficulty header) adjustedDiff in if diff =? 0 then 1 else diff.

Definition qkchash_verifySeal (hashAlgo : Z → list Z → Z → result (list Z * list Z))
    (header : B) (adjustedDiff : option Z) : result unit :=
  if GetDifficulty header <=? 0 then Err "non-positive difficulty"
  else
    r ← hashAlgo (NumberU64 header) (SealHash header) (GetNonce header);
    if negb (bool_decide (be_bytes 32 (GetMixDigest header) = r.1)) then Err "invalid mix digest"
    else
      target ← big_Div two256 (seal_difficulty header adjustedDiff);
      if bool_decide (target < be_value r.2) then Err "invalid proof-of-work" else Ok tt.

(** [sha256] of the seal hash and the nonce, twice; there is no digest. *)
Definition double_hashAlgo (sha256 : list Z → list Z) (_ : Z) (hash : list Z) (nonce : Z) : result (list Z * list Z) :=
  Ok ([], sha256 (sha256 (take 32 (hash ++ replicate 32 0) ++ be_bytes 8 nonce))).
Definition double_verifySeal (sha256 : list Z → list Z) (header : B) (adjustedDiff : option Z) : result unit :=
  if GetDifficulty header <=? 0 then Err "non-positive difficulty"
  else
    target ← big_Div two256 (seal_difficulty header adjustedDiff);
    r ← double_hashAlgo sha256 0 (SealHash header) (GetNonce header);
    if bool_decide (target < be_value r.2) then Err "invalid proof-of-work" else Ok tt.

(** ** The search for a nonce *)

Record MiningWork := mkWork { HeaderHash : list Z; w_Number : Z; w_Difficulty : Z; OptionalDivider : Z }.
Record MiningResult := mkMiningResult { mr_Digest : Z; mr_Result : list Z; mr_Nonce : Z }.

(** [tries] rounds of the loop, after which it is stopped; a failing hash is
    tried again with the same nonce. *)
Fixpoint mine_loop (tries : nat) (target height : Z) (hash : list Z) (nonce : Z) : result (option MiningResult) :=
  match tries with
  | O => Ok None
  | S tries =>
      match HashAlgo spec height hash nonce with
      | Panic e => Panic e
      | Err _ => mine_loop tries target height hash nonce
      | Ok (digest, res) =>
          if bool_decide (be_value res <= target) then Ok (Some (mkMiningResult (BytesToHash digest) res nonce))
          else mine_loop tries target height hash (u64 (nonce + 1))
      end
  end.
Definition mine (tries : nat) (work : MiningWork) (startNonce : Z) : result (option MiningResult) :=
  let diff := if w_Difficulty work =? 0 then 1 else w_Difficulty work in
  target ← big_Div two256 diff;
  mine_loop tries target (w_Number work) (HeaderHash work) startNonce.

(** localSeal with one thread. *)
Definition localSeal (tries : nat) (block : B) (diff : option Z) (startNonce : Z) : result (option B) :=
  let work := mkWork (SealHash block) (NumberU64 block) (default (GetDifficulty block) diff) 0 in
  r ← mine tries work startNonce;
  Ok (match r with
      | Some res => Some (WithMingResult block (mr_Nonce res) (mr_Digest res) None)
      | None => None
      end).

(** ** Remote miners *)

Record Remote {C} := mkRemote {
  works : C;                            (* by seal hash *)
  currentWorks : gmap (list Z * Z) MiningWork;
  currentHeight : Z;
  results : bool;                       (* the channel for solutions is set *)
}.
#[global] Arguments Remote : clear implicits.
#[global] Arguments mkRemote {C}.

Context {C : Type} `{Lru B C}.
Context (VerifySignature : list Z → list Z → bool).  (* seal hash, signature *)

Definition address_of (a : Address) : list Z * Z := (Recipient a, FullShardKey a).

Definition setCurrentWork (block : B) (diff optionalDivider : Z) (s : Remote C) : Remote C :=
  mkRemote (works s)
    (<[address_of (GetCoinbase block) := mkWork (SealHash block) (NumberU64 block) diff optionalDivider]> (currentWorks s))
    (currentHeight s) (results s).
Definition getWorkByAddr (addr : Address) (s : Remote C) : result MiningWork :=
  match currentWorks s !! address_of addr with None => Err "no mining work available yet" | Some w => Ok w end.
Definition getWorkBySealHash (hash : list Z) (s : Remote C) : result MiningWork :=
  match list_find (fun e => HeaderHash e.2 = hash) (map_to_list (currentWorks s)) with
  | None => Err "no mining work available yet"
  | Some (_, (_, w)) => Ok w
  end.
Definition refresh (s : Remote C) : Remote C := mkRemote (works s) ∅ (currentHeight s) (results s).

Definition makeWork (block : B) (adjustedDiff : option Z) (optionalDivider : Z) (s : Remote C) : Remote C :=
  let key := be_value (SealHash block) in
  match lru_get (works s) key with
  | Some _ => s
  | None =>
      let s := setCurrentWork block (default (GetDifficulty block) adjustedDiff) optionalDivider s in
      mkRemote (lru_add (works s) key block) (currentWorks s) (NumberU64 block) (results s)
  end.

(** The difficulty a solution is checked against. *)
Definition solution_difficulty (work : MiningWork) (solution : B) (signature : option (list Z)) : result Z :=
  match signature with
  | Some sg =>
      if w_Difficulty work =? GetDifficulty solution then
        big_Div (GetDifficulty solution)
          (if VerifySignature (SealHash solution) (take 64 sg) then 1000 else OptionalDivider work)
      else Ok (w_Difficulty work)
  | None => Ok (w_Difficulty work)
  end.

(** Some solution is sent to the miner; [ready] tells whether it reads. *)
Definition submitWork (ready : bool) (nonce mixDigest : Z) (sealhash : list Z) (signature : option (list Z))
    : SE (Remote C) (option B) := fun s =>
  if bool_decide (size (currentWorks s) = 0%nat) then (Ok None, s)
  else
    match lru_get (works s) (be_value sealhash) with
    | None => (Ok None, s)
    | Some block =>
        let s := mkRemote (lru_touch (works s) (be_value sealhash)) (currentWorks s) (currentHeight s) (results s) in
        match getWorkBySealHash sealhash s with
        | Ok work =>
            if negb (results s) then (Ok None, s)
            else
              let solution := WithMingResult block nonce mixDigest signature in
              match solution_difficulty work solution signature with
              | Ok adjustedDiff =>
                  match spec_VerifySeal spec solution (Some adjustedDiff) with
                  | Panic e => (Panic e, s)
                  | Err _ => (Ok None, s)
                  | Ok _ =>
                      if bool_decide (currentHeight s < u64 (NumberU64 solution + staleThreshold))
                      then (Ok (if ready then Some solution else None), s)
                      else (Ok None, s)
                  end
              | Err e => (Err e, s)
              | Panic e => (Panic e, s)
              end
        | _ => (Ok None, s)
        end
    end.

Inductive event :=
| SetWork (block : B) (diff : option Z) (optionalDivider : Z)
| GetWork (addr : Address)
| SubmitWork (ready : bool) (nonce mixDigest : Z) (sealhash : list Z) (signature : option (list Z))
| RefreshWork.
Inductive answer := AnsNone | AnsWork (w : result MiningWork) | AnsSolution (b : option B).

Definition remote_step (e : event) : SE (Remote C) answer :=
  match e with
  | SetWork block diff divider =>
      _ ← se_mod (fun s => makeWork block diff divider (mkRemote (works s) (currentWorks s) (currentHeight s) true));
      mret AnsNone
  | GetWork addr => s ← se_get; mret (AnsWork (getWorkByAddr addr s))
  | SubmitWork ready nonce digest hash sg => r ← submitWork ready nonce digest hash sg; mret (AnsSolution r)
  | RefreshWork => _ ← se_mod refresh; mret AnsNone
  end.
End engine.

(** ** The cache of verified seals *)

Section seal_cache.
Context {B C : Type} `{IBlock B, IHeader B, Minable B, LruLaws Z C}.
Context (spec : @MiningSpec B).

(** The seal is a part of what the hash of a header covers. *)
Definition hash_covers_seal : Prop :=
  ∀ a b d, Hash a = Hash b → spec_VerifySeal spec a d = spec_VerifySeal spec b d.
(** Every entry was verified. *)
Definition seals_verified (c : C) : Prop :=
  ∀ b d, lru_get c (Hash b) = Some d → spec_VerifySeal spec b (Some d) = Ok tt.

(** The cache of verified seals never changes the outcome of a seal check:
    the check answers what the scheme answers for this header and difficulty,
    and every entry it leaves in the cache was verified. *)
Theorem engine_VerifySeal_transparent header d c :
  hash_covers_seal → seals_verified c →
  (engine_VerifySeal spec header d c).1 = spec_VerifySeal spec header (Some d) ∧
  seals_verified (engine_VerifySeal spec header d c).2.
Proof.
  intros Hh Hc. unfold engine_VerifySeal.
  set (c' := match lru_get c (Hash header) with Some _ => _ | None => _ end).
  assert (Hc' : seals_verified c').
  { intros b d' Hg. apply Hc. subst c'. destruct (lru_get c (Hash header)); [by eapply lru_touch_get|done]. }
  case_bool_decide as E; cbn [fst snd]; [split; [by rewrite (Hc _ _ E)|done]|].
  destruct (spec_VerifySeal spec header (Some d)) as [[]|e|e] eqn:Hs; cbn [fst snd]; split; try done.
  intros b d' Hg. apply lru_add_get in Hg as [[Hb ->]|Hg]; [|by apply Hc'].
  rewrite (Hh b header (Some d)); done.
Qed.
End seal_cache.

(** ** The search *)

Section search.
Context {B : Type} `{IBlock B, IHeader B, MinableLaws B}.
Context (spec : @MiningSpec B).

(** The hash never fails and has a digest of 32 bytes. *)
Definition hash_total : Prop :=
  ∀ height hash nonce, ∃ digest res,
    HashAlgo spec height hash nonce = Ok (digest, res) ∧ length digest = 32%nat ∧ bytes_ok digest.

Lemma digest_bytes l : length l = 32%nat → bytes_ok l → be_bytes 32 (BytesToHash l) = l.
Proof.
  intros Hl Hb. pose proof (be_value_bounds l Hb) as Hv. rewrite Hl in Hv.
  unfold BytesToHash, two256. rewrite Z.mod_small by (revert Hv; cbn; lia).
  rewrite <- Hl at 1. by apply be_bytes_value.
Qed.

(** The nonce of the [k]-th round solves the block. *)
Definition solves (target height : Z) (hash : list Z) (nonce : Z) : Prop :=
  ∃ digest res, HashAlgo spec height hash nonce = Ok (digest, res) ∧ be_value res <= target.

Lemma mine_loop_spec tries target height hash nonce :
  hash_total → in_u64 nonce →
  (∃ k digest res, (k < tries)%nat ∧ HashAlgo spec height hash (u64 (nonce + Z.of_nat k)) = Ok (digest, res) ∧
     be_value res <= target ∧
     mine_loop spec tries target height hash nonce =
       Ok (Some (mkMiningResult (BytesToHash digest) res (u64 (nonce + Z.of_nat k))))) ∨
  (mine_loop spec tries target height hash nonce = Ok None ∧
   ∀ k, (k < tries)%nat → ¬ solves target height hash (u64 (nonce + Z.of_nat k))).
Proof.
  intros Hh. revert nonce. induction tries as [|tries IH]; intros nonce Hn; [right; split; [done|lia]|].
  cbn [mine_loop]. destruct (Hh height hash nonce) as (digest & res & E & _). rewrite E.
  assert (E0 : u64 (nonce + Z.of_nat 0) = nonce) by (rewrite Z.add_0_r; by apply u64_id).
  assert (Es : ∀ k, u64 (u64 (nonce + 1) + Z.of_nat k) = u64 (nonce + Z.of_nat (S k))).
  { intros k. unfold u64. rewrite Z.add_mod_idemp_l by done. f_equal. lia. }
  case_bool_decide as Ht.
  - left. exists 0%nat, digest, res. rewrite E0. split_and!; [lia|done..].
  - destruct (IH (u64 (nonce + 1)) (u64_in _)) as [(k & d & r & Hk & Ek & Hr & Em)|[Em Hno]].
    + left. exists (S k), d, r. rewrite <- Es. split_and!; [lia|done..].
    + right. split; [done|]. intros [|k] Hk.
      * rewrite E0. intros (d & r & Er & Hr). rewrite E in Er. injection Er as <- <-. done.
      * rewrite <- Es. apply Hno. lia.
Qed.

Lemma target_div diff :
  0 <= diff → big_Div two256 (if diff =? 0 then 1 else diff) = Ok (two256 / (if diff =? 0 then 1 else diff)).
Proof.
  intros Hd. unfold big_Div. destruct (Z.eqb_spec diff 0) as [->|Hne]; [done|].
  rewrite (proj2 (Z.eqb_neq diff 0) Hne), Z.sgn_pos, Z.abs_eq by lia. f_equal. lia.
Qed.

Lemma verify_solution block nonce d diff digest res :
  hash_total → 0 < GetDifficulty block → 0 <= diff →
  HashAlgo spec (NumberU64 block) (SealHash block) nonce = Ok (digest, res) →
  qkchash_verifySeal (HashAlgo spec) (WithMingResult block nonce d None) (Some diff) = Ok tt ↔
  be_bytes 32 d = digest ∧ be_value res <= two256 / (if diff =? 0 then 1 else diff).
Proof.
  intros Hh Hd Hdiff E. unfold qkchash_verifySeal, seal_difficulty. cbn [default from_option id].
  rewrite difficulty_with, number_with, seal_with, nonce_with, digest_with, E.
  rewrite (proj2 (Z.leb_gt _ _)) by lia. cbn [mbind result_bind fst snd].
  rewrite (target_div diff) by done. cbn [mbind result_bind].
  case_bool_decide as E1; cbn [negb]; [|split; [done|by intros []]].
  case_bool_decide as E2; split; [done|lia|split; [done|lia]|done].
Qed.

(** The local search always returns; a block it finds passes the seal check
    at the difficulty it searched for, and it finds none exactly when none of
    the nonces it tried, from the first on and modulo 2^64, passes. *)
Theorem localSeal_correct tries block diff start :
  hash_total → 0 < GetDifficulty block → 0 <= diff → in_u64 start →
  let verifies b := qkchash_verifySeal (HashAlgo spec) b (Some diff) = Ok tt in
  (∃ b, localSeal spec tries block (Some diff) start = Ok (Some b) ∧ verifies b) ∨
  (localSeal spec tries block (Some diff) start = Ok None ∧
   ∀ k d, (k < tries)%nat → ¬ verifies (WithMingResult block (u64 (start + Z.of_nat k)) d None)).
Proof.
  intros Hh Hd Hdiff Hs verifies. unfold localSeal, mine.
  cbn [default from_option id w_Difficulty w_Number HeaderHash].
  rewrite (target_div diff) by done. cbn [mbind result_bind].
  destruct (mine_loop_spec tries (two256 / (if diff =? 0 then 1 else diff)) (NumberU64 block) (SealHash block) start Hh Hs)
    as [(k & digest & res & Hk & E & Hr & ->)|[-> Hno]]; cbn [mbind result_bind mr_Nonce mr_Digest].
  - left. eexists; split; [done|]. subst verifies. cbn beta. rewrite verify_solution by done.
    destruct (Hh (NumberU64 block) (SealHash block) (u64 (start + Z.of_nat k))) as (d' & r' & E' & Hl & Hb).
    rewrite E in E'. injection E' as <- <-. split; [by apply digest_bytes|done].
  - right. split; [done|]. intros k d Hk Hv.
    destruct (Hh (NumberU64 block) (SealHash block) (u64 (start + Z.of_nat k))) as (d' & r' & E' & Hl & Hb).
    destruct (proj1 (verify_solution _ _ _ _ _ _ Hh Hd Hdiff E') Hv) as [_ Hle]. apply (Hno k Hk). by exists d', r'.
Qed.
End search.

(** ** Remote miners *)

Section remote.
Context {B C : Type} `{IBlock B, IHeader B, Minable B, LruLaws B C}.
Context (spec : @MiningSpec B) (VerifySignature : list Z → list Z → bool).

(** The work of a task that was set. *)
Definition task_work (block : B) (diff : option Z) (divider : Z) : MiningWork :=
  mkWork (SealHash block) (NumberU64 block) (default (GetDifficulty block) diff) divider.
(** Every block and every work comes from a task. *)
Record from_tasks (evs : list event) (s : Remote C) : Prop := {
  works_from k b : lru_get (works s) k = Some b → be_value (SealHash b) = k ∧ ∃ d o, SetWork b d o ∈ evs;
  current_from a w : currentWorks s !! a = Some w → ∃ b d o, SetWork b d o ∈ evs ∧ w = task_work b d o;
}.

(** The state after a list of events. *)
Fixpoint remote_run (evs : list event) (s : Remote C) : Remote C :=
  match evs with [] => s | e :: evs => remote_run evs (remote_step spec VerifySignature e s).2 end.

Lemma from_tasks_mono evs evs' s : evs ⊆ evs' → from_tasks evs s → from_tasks evs' s.
Proof.
  intros Hsub [Hw Hc]. split.
  - intros k b Hg. destruct (Hw k b Hg) as (E & d & o & Hin). eauto 6.
  - intros a w Hg. destruct (Hc a w Hg) as (b & d & o & Hin & E). eauto 8.
Qed.

Lemma submitWork_from evs ready nonce digest hash sg s :
  from_tasks evs s → from_tasks evs (submitWork spec VerifySignature ready nonce digest hash sg s).2.
Proof.
  intros Hf. unfold submitWork. case_bool_decide; [done|]. destruct (lru_get _ _); [|done].
  set (s' := mkRemote (lru_touch _ _) _ _ _).
  assert (Hf' : from_tasks evs s').
  { destruct Hf as [Hw Hc]. split; [|done]. intros k b' Hg. cbn [works s'] in Hg. apply lru_touch_get in Hg. by apply Hw. }
  repeat first [done | dmatch; cbn [snd]].
Qed.

Lemma remote_step_from evs e s : e ∈ evs → from_tasks evs s → from_tasks evs (remote_step spec VerifySignature e s).2.
Proof.
  intros He Hf. destruct e as [b d o|a|ready n dg h sg|]; cbn [remote_step]; se_red; cbn [snd].
  - unfold makeWork. cbn [works]. destruct (lru_get (works s) _); [by destruct Hf|]. destruct Hf as [Hw Hc]. split.
    + intros k b' Hg. cbn [works setCurrentWork] in Hg. apply lru_add_get in Hg as [[-> ->]|Hg]; [eauto|by apply Hw].
    + intros a w Hg. cbn [currentWorks setCurrentWork] in Hg. apply lookup_insert_Some in Hg as [[_ <-]|[_ Hg]]; [|by eapply Hc].
      by exists b, d, o.
  - done.
  - pose proof (submitWork_from evs ready n dg h sg s Hf) as Hf'.
    destruct (submitWork spec VerifySignature ready n dg h sg s) as [[]]; done.
  - destruct Hf as [Hw Hc]. split; [done|]. intros a w Hg. cbn [refresh currentWorks] in Hg.
    by rewrite lookup_empty in Hg.
Qed.

Lemma remote_run_from evs evs' s : evs' ⊆ evs → from_tasks evs s → from_tasks evs (remote_run evs' s).
Proof.
  revert s. induction evs' as [|e evs' IH]; intros s Hsub Hf; [done|]. cbn [remote_run]. apply IH; [set_solver|].
  apply remote_step_from; [set_solver|done].
Qed.

Lemma from_tasks_new evs c : (∀ k, lru_get c k = None) → from_tasks evs (mkRemote c ∅ 0 false).
Proof.
  intros Hc. split; [intros k b; cbn [works]; by rewrite Hc|]. intros a w. cbn [currentWorks]. by rewrite lookup_empty.
Qed.

(** The cases of the difficulty a solution is checked against. *)
Lemma solution_difficulty_cases task d' divider solution sg adjusted :
  solution_difficulty VerifySignature (task_work task d' divider) solution sg = Ok adjusted →
  let difficulty := default (GetDifficulty task) d' in
  (sg = None → adjusted = difficulty) ∧
  (∀ g, sg = Some g → difficulty ≠ GetDifficulty solution → adjusted = difficulty) ∧
  (∀ g, sg = Some g → difficulty = GetDifficulty solution → VerifySignature (SealHash solution) (take 64 g) = true →
     adjusted = difficulty / 1000) ∧
  (∀ g, sg = Some g → difficulty = GetDifficulty solution → VerifySignature (SealHash solution) (take 64 g) = false →
     divider ≠ 0 ∧ (0 < divider → adjusted = difficulty / divider)).
Proof.
  unfold solution_difficulty. cbn [task_work w_Difficulty OptionalDivider]. destruct sg as [g|]; [|intros [= <-]; by split_and!].
  destruct (Z.eqb_spec (default (GetDifficulty task) d') (GetDifficulty solution)) as [E|E].
  - unfold big_Div. destruct (VerifySignature _ _) eqn:Hs; intros Hd; split_and!; try done; intros g' [= <-] _ Hs'; try congruence.
    + change (Ok (1 * (GetDifficulty solution / 1000)) = Ok adjusted) in Hd. injection Hd as <-. rewrite E. lia.
    + destruct (Z.eqb_spec divider 0) as [|Hne]; [done|]. split; [done|]. intros Hpos. injection Hd as <-.
      rewrite E, Z.sgn_pos, Z.abs_eq by lia. lia.
  - intros [= <-]. split_and!; try done; intros; congruence.
Qed.

(** The events after which the height is that of the newest work: the block of the
    last task whose seal hash the engine did not remember when it was set. *)
Definition newest_work (s0 : Remote C) (evs : list event) (block : B) : Prop :=
  ∃ before d o rest, evs = before ++ SetWork block d o :: rest
    ∧ lru_get (works (remote_run before s0)) (be_value (SealHash block)) = None
    ∧ ∀ mid b d' o' rest', rest = mid ++ SetWork b d' o' :: rest' →
        is_Some (lru_get (works (remote_run (before ++ SetWork block d o :: mid) s0)) (be_value (SealHash b))).

Lemma remote_run_app evs evs' s : remote_run (evs ++ evs') s = remote_run evs' (remote_run evs s).
Proof. revert s. induction evs as [|e evs IH]; intros s; [done|]. cbn [app remote_run]. apply IH. Qed.

Lemma submitWork_height ready nonce digest hash sg s :
  currentHeight (submitWork spec VerifySignature ready nonce digest hash sg s).2 = currentHeight s.
Proof. unfold submitWork. repeat first [done | dmatch; cbn [snd]]. Qed.

(** An event that sets no new work leaves the height. *)
Lemma remote_step_height e s :
  (∃ b d o, e = SetWork b d o ∧ lru_get (works s) (be_value (SealHash b)) = None
     ∧ currentHeight (remote_step spec VerifySignature e s).2 = NumberU64 b)
  ∨ (∀ b d o, e = SetWork b d o → is_Some (lru_get (works s) (be_value (SealHash b))))
     ∧ currentHeight (remote_step spec VerifySignature e s).2 = currentHeight s.
Proof.
  destruct e as [b d o|a|ready n dg h sg|]; cbn [remote_step]; se_red; cbn [snd].
  - unfold makeWork. cbn [works]. destruct (lru_get (works s) (be_value (SealHash b))) as [x|] eqn:E.
    + right. split; [|done]. intros ? ? ? [= <- _ _]. by rewrite E.
    + left. by exists b, d, o.
  - by right.
  - right. split; [done|]. pose proof (submitWork_height ready n dg h sg s) as Hh.
    by destruct (submitWork spec VerifySignature ready n dg h sg s) as [[]].
  - by right.
Qed.

Lemma currentHeight_newest evs s0 :
  (∀ b d o, SetWork b d o ∈ evs → False) ∧ currentHeight (remote_run evs s0) = currentHeight s0
  ∨ (∃ b, newest_work s0 evs b ∧ currentHeight (remote_run evs s0) = NumberU64 b)
  ∨ (∃ b d o rest mid, evs = mid ++ SetWork b d o :: rest ∧ is_Some (lru_get (works (remote_run mid s0)) (be_value (SealHash b)))
       ∧ ∀ b' d' o', SetWork b' d' o' ∈ mid → False).
Proof.
  induction evs as [|e evs IH] using rev_ind; [left; split; [intros b d o Hin; by apply not_elem_of_nil in Hin|done]|].
  rewrite remote_run_app. cbn [remote_run]. destruct (remote_step_height e (remote_run evs s0)) as [(b & d & o & -> & Hnew & Hh)|[Hold Hh]].
  { right. left. exists b. split; [|done]. exists evs, d, o, []. split_and!; [done|done|]. intros mid b' d' o' rest'. by destruct mid. }
  rewrite Hh. destruct IH as [[Hno Hc]|[(b & (before & d & o & rest & -> & Hnew & Hrest) & Hc)|(b & d & o & rest & mid & -> & Hk & Hmid)]].
  - destruct e as [b d o| | |]; [right; right|left..].
    + exists b, d, o, [], evs. split_and!; [done|by eapply Hold|done].
    + split; [|done]. intros b d o Hin. apply elem_of_app in Hin as [Hin|Hin]; [by eapply Hno|]. by apply list_elem_of_singleton in Hin.
    + split; [|done]. intros b d o Hin. apply elem_of_app in Hin as [Hin|Hin]; [by eapply Hno|]. by apply list_elem_of_singleton in Hin.
    + split; [|done]. intros b d o Hin. apply elem_of_app in Hin as [Hin|Hin]; [by eapply Hno|]. by apply list_elem_of_singleton in Hin.
  - right. left. exists b. split; [|done]. exists before, d, o, (rest ++ [e]). split_and!; [by rewrite <- app_assoc|done|].
    intros mid b' d' o' rest' Hr. destruct rest' as [|x rest' _] using rev_ind.
    + apply app_inj_tail in Hr as [<- ->]. by eapply Hold.
    + rewrite app_comm_cons, app_assoc in Hr. apply app_inj_tail in Hr as [-> _]. by eapply Hrest.
  - right. right. exists b, d, o, (rest ++ [e]), mid. split_and!; [by rewrite <- app_assoc|done|done].
Qed.

(** C38: whatever the miners and the chain ask for, a solution that is passed on
    is the block of a task that was set, with the miner's nonce, digest and
    signature, for a task with that seal hash.  Its seal holds at the task's
    difficulty; only for a solution that carries a signature, and a task whose
    difficulty is that of the block, it is checked at a thousandth of it, when the
    signature is the guardian's, or else at the fraction the task allows.  And it
    is not more than six blocks behind the newest work, the last task whose seal
    hash the engine did not remember when it was set. *)
Theorem remote_solution_sound evs c ready nonce digest hash sg solution s' :
  (∀ k, lru_get c k = None) →
  let s0 := mkRemote c ∅ 0 false in
  remote_step spec VerifySignature (SubmitWork ready nonce digest hash sg) (remote_run evs s0)
    = (Ok (AnsSolution (Some solution)), s') →
  ∃ block d o task d' divider adjusted newest,
    SetWork block d o ∈ evs ∧ be_value (SealHash block) = be_value hash ∧
    solution = WithMingResult block nonce digest sg ∧
    SetWork task d' divider ∈ evs ∧ SealHash task = hash ∧
    spec_VerifySeal spec solution (Some adjusted) = Ok tt ∧
    (let difficulty := default (GetDifficulty task) d' in
     (sg = None → adjusted = difficulty) ∧
     (∀ g, sg = Some g → difficulty ≠ GetDifficulty solution → adjusted = difficulty) ∧
     (∀ g, sg = Some g → difficulty = GetDifficulty solution → VerifySignature (SealHash solution) (take 64 g) = true →
        adjusted = difficulty / 1000) ∧
     (∀ g, sg = Some g → difficulty = GetDifficulty solution → VerifySignature (SealHash solution) (take 64 g) = false →
        divider ≠ 0 ∧ (0 < divider → adjusted = difficulty / divider))) ∧
    newest_work s0 evs newest ∧ NumberU64 newest < u64 (NumberU64 solution + 7).
Proof.
  intros Hc s0 Hstep. set (s := remote_run evs s0) in *.
  assert (Hf : from_tasks evs s) by (by apply remote_run_from, from_tasks_new).
  cbn [remote_step] in Hstep. se_red_in Hstep. revert Hstep. unfold submitWork.
  case_bool_decide; [done|]. destruct (lru_get (works s) (be_value hash)) as [block|] eqn:Hb; [|done].
  unfold getWorkBySealHash. cbn [currentWorks results currentHeight].
  destruct (list_find _ _) as [[i [a w]]|] eqn:Hfind; [|done].
  destruct (results s); cbn [negb]; [|done].
  destruct (solution_difficulty _ _ _ _) as [adj| |] eqn:Hadj; [|done..].
  destruct (spec_VerifySeal _ _ _) as [[]| |] eqn:Hver; [|done..]. case_bool_decide as Hst; [|done].
  destruct ready; [|done]. intros [= <- _].
  apply list_find_Some in Hfind as (Hi & Hw & _). cbn in Hw.
  apply list_elem_of_lookup_2, elem_of_map_to_list in Hi.
  destruct (works_from _ _ Hf _ _ Hb) as (Hseal & d & o & Hin).
  destruct (current_from _ _ Hf _ _ Hi) as (task & d' & o' & Hin' & ->).
  destruct (currentHeight_newest evs s0) as [[Hno _]|[(newest & Hnw & Hh)|(b & ? & ? & rest & mid & -> & Hk & Hmid)]].
  - by destruct (Hno _ _ _ Hin).
  - exists block, d, o, task, d', o', adj, newest. fold s in Hh. rewrite Hh in Hst.
    destruct (solution_difficulty_cases task d' o' _ _ _ Hadj) as (? & ? & ? & ?). by split_and!.
  - exfalso. destruct Hk as [known Hk].
    assert (from_tasks mid (remote_run mid s0)) as Hfm.
    { by apply remote_run_from, from_tasks_new. }
    destruct (works_from _ _ Hfm _ _ Hk) as (_ & d1 & o1 & Hin1). by eapply Hmid.
Qed.
End remote.

(** ** Witnesses *)

Definition demo_algo (_ : Z) (_ : list Z) (nonce : Z) : result (list Z * list Z) :=
  Ok (replicate 32 7, be_bytes 32 (nonce * 2 ^ 254)).
#[export] Instance demo_minable : Minable MinorBlock :=
  minor_minable (fun h => 100 + mh_nonce h) (fun h => be_bytes 32 (mh_number h)).
#[export] Instance demo_minable_laws : MinableLaws MinorBlock := minor_minable_laws _ _.
Definition demo_spec : @MiningSpec MinorBlock := mkSpec demo_algo (qkchash_verifySeal demo_algo).
Definition demo_mined (nonce digest : Z) : MinorBlock :=
  mkMinorBlock (mkMinorHeader (100 + nonce) 0 (mkBranch 1) 5 (mkAddress [] 0) ∅ 0 0 0 0 0 8 nonce [] [] digest)
    (mkMeta 0 0 0 0 0 None 0) [].

Lemma demo_total : hash_total demo_spec.
Proof. intros h s n. exists (replicate 32 7), (be_bytes 32 (n * 2 ^ 254)). split_and!; [done|done|]. by repeat constructor. Qed.

Lemma localSeal_witness :
  localSeal demo_spec 5 (demo_mined 0 0) (Some 8) 1 = Ok (Some (demo_mined 4 (be_value (replicate 32 7)))) ∧
  qkchash_verifySeal demo_algo (demo_mined 4 (be_value (replicate 32 7))) (Some 8) = Ok tt.
Proof.
  assert (E : localSeal demo_spec 5 (demo_mined 0 0) (Some 8) 1 = Ok (Some (demo_mined 4 (be_value (replicate 32 7)))))
    by (vm_compute; reflexivity).
  split; [exact E|].
  assert (Hd : 0 < GetDifficulty (demo_mined 0 0)) by reflexivity.
  assert (H8 : 0 <= 8) by lia. assert (Hn : in_u64 1) by (unfold in_u64; lia).
  destruct (localSeal_correct demo_spec 5 (demo_mined 0 0) 8 1 demo_total Hd H8 Hn)
    as [(b & Eb & Hv)|[Eb _]]; rewrite E in Eb; [|discriminate Eb].
  injection Eb as <-. exact Hv.
Defined.

(** A scheme that accepts every header; its seal check reads nothing. *)
Definition lenient_spec : @MiningSpec MinorBlock := mkSpec demo_algo (fun _ _ => Ok tt).
Lemma engine_VerifySeal_witness :
  (engine_VerifySeal lenient_spec (demo_mined 4 0) 8 ([] : fifo Z)).1 = Ok tt ∧
  seals_verified lenient_spec (engine_VerifySeal lenient_spec (demo_mined 4 0) 8 ([] : fifo Z)).2.
Proof.
  refine (engine_VerifySeal_transparent lenient_spec (demo_mined 4 0) 8 ([] : fifo Z) _ _); [intros a b d _; reflexivity|].
  intros b d Hg. discriminate Hg.
Defined.

Definition demo_events : list (@event MinorBlock) :=
  [SetWork (demo_mined 0 0) None 0; RefreshWork; SetWork (demo_mined 0 0) None 0;
   SetWork (mkMinorBlock (mkMinorHeader 7 0 (mkBranch 1) 6 (mkAddress [] 1) ∅ 0 0 0 0 0 8 0 [] [] 0) (mkMeta 0 0 0 0 0 None 0) [])
     (Some 4) 0].
Definition demo_solution : MinorBlock :=
  minor_WithMingResult (fun h => 100 + mh_nonce h)
    (mkMinorBlock (mkMinorHeader 7 0 (mkBranch 1) 6 (mkAddress [] 1) ∅ 0 0 0 0 0 8 0 [] [] 0) (mkMeta 0 0 0 0 0 None 0) [])
    1 (be_value (replicate 32 7)) None.
Definition demo_submit : event :=
  @SubmitWork MinorBlock true 1 (be_value (replicate 32 7)) (be_bytes 32 6) None.
Definition demo_remote : Remote (fifo MinorBlock) :=
  remote_run demo_spec (fun _ _ => false) demo_events (mkRemote [] ∅ 0 false).
Lemma demo_answer :
  remote_step demo_spec (fun _ _ => false) demo_submit demo_remote = (Ok (AnsSolution (Some demo_solution)), demo_remote).
Proof. vm_compute. reflexivity. Qed.
Lemma remote_solution_witness :
  ∃ adjusted, spec_VerifySeal demo_spec demo_solution (Some adjusted) = Ok tt.
Proof.
  assert (Hc : ∀ k, lru_get ([] : fifo MinorBlock) k = None) by reflexivity.
  destruct (remote_solution_sound demo_spec (fun _ _ => false) demo_events ([] : fifo MinorBlock) true 1 (be_value (replicate 32 7))
    (be_bytes 32 6) None demo_solution demo_remote Hc demo_answer)
    as (_ & _ & _ & _ & _ & _ & adjusted & _ & _ & _ & _ & _ & _ & Hv & _).
  exists adjusted. exact Hv.
Defined.
