(* ===== verification/ChainInsert.v ===== *)
(** * core: the iterator over the blocks to import

    Models src/core/blockchain_insert.go and the loops over it that the imports
    of src/core/minorblockchain.go and src/core/rootblockchain.go share: the
    queue of future blocks and the skipping of known ones.  Validating a block
    and queueing it are operations of the chain.  An error is the text of its
    message; [core.ErrUnknownAncestor] and [consensus.ErrUnknownAncestor] are
    different values: the first is the string unknown ancestor here, the second
    has its package's name in front. *)

From S2P Require Import Prelude Wp Account Blocks.

Local Open Scope Z_scope.

(** Running an operation and taking its error as a value. *)
Definition se_try {S A} (m : SE S A) : SE S (A + string) := fun s =>
  let '(r, s) := m s in
  (match r with Ok a => Ok (inl a) | Err e => Ok (inr e) | Panic e => Panic e end, s).

Lemma wp_try {S A} (op : SE S A) Q0 E0 m :
  wp op (fun a => Q0 (inl a)) (fun e => Q0 (inr e)) m → wp (se_try op) Q0 E0 m.
Proof. unfold wp, se_try. by destruct (op m) as [[a|e|e] m']. Qed.

(** The position in the blocks to import: those before the current one, last
    first, the current one, and the rest. *)
Record insertIterator {B} := mkIter {
  it_before : list B;
  it_current : option B;
  it_rest : list B;
}.
#[global] Arguments insertIterator : clear implicits.
#[global] Arguments mkIter {B}.

Section iterator.
Context {S B : Type} `{IBlock B}.

Definition it_index (it : insertIterator B) : Z := Z.of_nat (length (it_before it)).
Definition it_previous (it : insertIterator B) : option B := head (it_before it).
Definition it_first (it : insertIterator B) : option B :=
  match last (it_before it) with Some b => Some b | None => it_current it end.

(** The blocks follow each other. *)
Fixpoint contiguous (chain : list B) : bool :=
  match chain with
  | a :: (b :: _) as rest =>
      (NumberU64 b =? u64 (NumberU64 a + 1)) && bool_decide (ParentHash b = Hash a) && contiguous rest
  | _ => true
  end.

(** Validating a block gives its error; [addFutureBlock] queues it. *)
Context (validate : B → SE S (option string)) (addFutureBlock : B → SE S unit).

Abbreviation Position := (insertIterator B * option string)%type.

Definition it_next (it : insertIterator B) : SE S Position :=
  let before := match it_current it with Some c => c :: it_before it | None => it_before it end in
  match it_rest it with
  | [] => mret (mkIter before None [], None)
  | b :: rest => err ← validate b; mret (mkIter before (Some b) rest, err)
  end.

(** Queueing blocks while their parent is unknown; [first] admits the first one. *)
Fixpoint queue_loop (first : bool) (rest before : list B) (block : B) (err : option string) : SE S Position :=
  if first || bool_decide (err = Some "unknown ancestor"%string) then
    r ← se_try (addFutureBlock block);
    match r with
    | inr e => mret (mkIter before (Some block) rest, Some e)
    | inl _ =>
        match rest with
        | [] => mret (mkIter (block :: before) None [], None)
        | b :: rest => err ← validate b; queue_loop false rest (block :: before) b err
        end
    end
  else mret (mkIter before (Some block) rest, err).

(** Known blocks are skipped up to the head. *)
Fixpoint skip_known (current : Z) (rest before : list B) (block : B) : SE S Position :=
  if bool_decide (NumberU64 block <= current) then
    match rest with
    | [] => mret (mkIter (block :: before) None [], None)
    | b :: rest =>
        err ← validate b;
        if bool_decide (err = Some "block already known"%string) then skip_known current rest (block :: before) b
        else mret (mkIter (block :: before) (Some b) rest, err)
    end
  else mret (mkIter before (Some block) rest, Some "block already known"%string).

(** After the import: a future block and its children are queued.  The left
    value is an early return. *)
Fixpoint queue_rest (rest before : list B) (block : B) (err : option string) : SE S (Position + Position) :=
  if bool_decide (err = Some "unknown ancestor"%string) then
    r ← se_try (addFutureBlock block);
    match r with
    | inr e => mret (inl (mkIter before (Some block) rest, Some e))
    | inl _ =>
        match rest with
        | [] => mret (inr (mkIter (block :: before) None [], None))
        | b :: rest => err ← validate b; queue_rest rest (block :: before) b err
        end
    end
  else mret (inr (mkIter before (Some block) rest, err)).

Definition queue_future (it : insertIterator B) (err : option string) : SE S (Position + Position) :=
  match it_current it with
  | Some block =>
      if bool_decide (err = Some "block in the future"%string) then
        r ← se_try (addFutureBlock block);
        match r with
        | inr e => mret (inl (it, Some e))
        | inl _ =>
            n ← it_next it;
            let '(it, err) := (n : Position) in
            match it_current it with
            | Some b => queue_rest (it_rest it) (it_before it) b err
            | None => mret (inr (it, err))
            end
        end
      else mret (inr (it, err))
  | None => mret (inr (it, err))
  end.

(** ** What the loops keep

    [P] is an invariant of the chain, [G] holds of the blocks to import, and [R]
    is what the answer of the validation says about a block. *)
Context (P : S → Prop) (G : B → Prop) (R : B → option string → S → Prop).
Context (Hval : ∀ b s, P s → G b → wp (validate b) (fun err s' => P s' ∧ R b err s') (fun _ _ => False) s).
Context (Hadd : ∀ b, keeps P (addFutureBlock b)).

Definition at_position (r : Position) (s : S) : Prop :=
  P s ∧ Forall G (it_rest r.1) ∧ ∀ c, it_current r.1 = Some c → G c ∧ (r.2 = Some "block already known"%string ∨ R c r.2 s).

Lemma it_next_spec it s :
  P s → Forall G (it_rest it) → wp (it_next it) at_position (fun _ _ => False) s.
Proof.
  intros HP HF. unfold it_next. destruct (it_rest it) as [|b rest]; [apply wp_ret; by split_and!|].
  apply Forall_cons in HF as [Hb HF]. apply wp_bind. eapply wp_conseq; [by apply Hval| |done].
  intros err s' [HP' HR]. apply wp_ret. split_and!; [done..|]. intros c [= <-]. auto.
Qed.
Lemma queue_loop_spec first rest before b err s :
  P s → Forall G rest → wp (queue_loop first rest before b err) (fun _ => P) (fun _ _ => False) s.
Proof.
  revert first before b err s. induction rest as [|b' rest IH]; intros first before b err s HP HF; cbn [queue_loop];
    (destruct (first || bool_decide (err = Some "unknown ancestor"%string)); [|by apply wp_ret]).
  all: apply wp_bind, wp_try; eapply wp_conseq; [by apply Hadd| |by intros; apply wp_ret]; intros ? m' Hm'.
  - by apply wp_ret.
  - apply Forall_cons in HF as [Hb HF]. apply wp_bind. eapply wp_conseq; [by apply Hval| |done]. intros err' s' [HP' _]. by apply IH.
Qed.
Lemma queue_rest_spec rest before b err s :
  P s → Forall G rest → wp (queue_rest rest before b err) (fun _ => P) (fun _ _ => False) s.
Proof.
  revert before b err s. induction rest as [|b' rest IH]; intros before b err s HP HF; cbn [queue_rest];
    (case_bool_decide; [|by apply wp_ret]).
  all: apply wp_bind, wp_try; eapply wp_conseq; [by apply Hadd| |by intros; apply wp_ret]; intros ? m' Hm'.
  - by apply wp_ret.
  - apply Forall_cons in HF as [Hb HF]. apply wp_bind. eapply wp_conseq; [by apply Hval| |done]. intros err' s' [HP' _]. by apply IH.
Qed.
Lemma queue_future_spec it err s :
  P s → Forall G (it_rest it) → wp (queue_future it err) (fun _ => P) (fun _ _ => False) s.
Proof.
  intros HP HF. unfold queue_future. destruct (it_current it) as [b|]; [|by apply wp_ret]. case_bool_decide; [|by apply wp_ret].
  apply wp_bind, wp_try. eapply wp_conseq; [by apply Hadd| |by intros; apply wp_ret]. intros ? s' HP'.
  apply wp_bind. eapply wp_conseq; [by apply it_next_spec| |done]. intros [it' err'] s2 (HP2 & HF2 & _).
  destruct (it_current it'); [by apply queue_rest_spec|by apply wp_ret].
Qed.
Lemma skip_known_spec current rest before b s :
  P s → Forall G (b :: rest) → wp (skip_known current rest before b) at_position (fun _ _ => False) s.
Proof.
  revert before b s. induction rest as [|b' rest IH]; intros before b s HP HF; cbn [skip_known]; apply Forall_cons in HF as [Hb HF];
    (case_bool_decide; [|apply wp_ret; split_and!; [done|done|intros c [= <-]; auto]]).
  - by apply wp_ret.
  - apply Forall_cons in HF as [Hb' HF]. apply wp_bind. eapply wp_conseq; [by apply Hval| |done]. intros err s' [HP' HR].
    case_bool_decide; [apply IH; [done|by constructor]|]. apply wp_ret. split_and!; [done|done|intros c [= <-]; auto].
Qed.
End iterator.
#[global] Arguments at_position {S B} P G R r s.
