(* ===== verification/MinorChain.v ===== *)
(** * core: the chain of a shard

    Models src/core/minorblockchain.go and src/core/minorblockchain_addon.go: the
    store of a shard's blocks, its canonical chain and the choice of its head.
    The state of a MinorBlockChain is a record over the database of RawDb.v; the
    operations are SE computations on it, and the loops that walk the chain take
    fuel.  Locks are not modelled: an operation runs to its end.  The read caches
    of blocks, root blocks, confirmed headers and deposit lists hold what the
    database holds under the same hash and are left out; the cache of receipts,
    which does not, and the queue of future blocks are caches of Lru.v.  The
    state of accounts, the trie database and its reference queue are used
    through the classes [AccountState] and [TrieDb], the validator and the
    processor through [Engine]. *)

From S2P Require Import Prelude Utils StateDB Account Transaction Blocks BlockTree XShardCursor Lru Receipts RawDb Consensus Engine.

Local Open Scope Z_scope.

Definition maxCacheCountHeight2Hash : Z := 1024.
Definition maxTimeFutureBlocks : Z := 30.
Definition triesInMemory : Z := 256.
Definition triesInRootBlock : Z := 32.
Definition DefaultBlockGasLimit : Z := 30000 * 400.

(** ** What the chain uses *)

(** The in-memory trie database, and the priority queue of roots to collect:
    items are popped from the highest priority on. *)
Class TrieDb (T Q : Type) := {
  trie_has : T → Z → bool;                   (* OpenTrie succeeds *)
  trie_Commit : Z → SE T unit;
  trie_Reference : Z → T → T;
  trie_Dereference : Z → T → T;
  trie_Size : T → Z * Z;
  trie_Cap : Z → T → T;
  prque_Push : Z → Z → Q → Q;                (* item, priority *)
  prque_Pop : Q → option (Z * Z * Q);
}.

Class AccountState (S T : Type) := {
  state_New : Z → T → result S;
  state_Commit : S → SE T Z;                 (* the root *)
  IntermediateRoot : S → Z;
  GetXShardList : S → list Deposit;
  Preimages : S → gmap Z (list Z);
  GetTokenBalance : S → Z → Z → Z;           (* address, token *)
  state_GasUsed : S → Z;
  GetXShardReceiveGasUsed : S → Z;
  GetBlockFee : S → gmap Z Z;
  GetTxCursorInfo : S → option XShardTxCursorInfo;
}.

(** The configuration of the shard; [shardCount] is the number of shards
    initialised before a root height. *)
Record ChainConfig := mkChainConfig {
  c_branch : Branch;
  c_genesisRootHeight : Z;
  EnableTransactionHistory : bool;
  MaxBlocksPerShardInOneRootBlock : Z;
  NoPruning : bool;
  TrieDirtyLimit : Z;
  shardCount : Z → Z;
  SkipMinorDifficultyCheck : bool;
  DisablePowCheck : bool;
  BlockExtraDataSizeLimit : Z;
  gasLimit : Z;
  xShardGasLimit : Z;
  EpochInterval : Z;
  CoinbaseAmount : Z;
  FeeRate : Z * Z;                           (* LocalFeeRate *)
  BlockRewardDecayFactor : Z * Z;
  EnablePoswStakingDecayTimestamp : Z;
  PoswConfig : POSWConfig;
  DefaultChainTokenID : Z;
  MinTXPoolGasPrice : Z;
}.

(** What the chain is built with: its configuration, the hash and the bytes of a
    transaction, the sender recovered from its signature, the transactions of the
    pool, the hash of an empty header, the time, the scheme of proof of work, the
    difficulty calculator, and the hashes of transactions, receipts and meta data
    that a block commits to. *)
Class ShardEnv := {
  config : ChainConfig;
  txHash : Transaction → Z;
  txBytes : Transaction → list Z;
  recover : EvmTransaction → option Z;
  poolTx : Z → option Transaction;
  emptyHeaderHash : Z;
  now : Z;
  mining_spec : @MiningSpec MinorBlock;
  diffCalc : EthDifficultyCalculator;
  sha3_256 : list Z → list Z;
  keccak : list Z → list Z;
  DeriveSha : list Receipt → Z;
  metaHash : MinorBlockMeta → Z;
}.

Section minor_chain.
Context {St T Q CR CF : Type} `{TrieDb T Q} `{AccountState St T} `{Lru (list Receipt) CR} `{Lru MinorBlock CF}.

Record MinorBlockChain := mkChain {
  db : Db;
  genesisBlock : MinorBlock;
  currentBlock : option MinorBlock;
  rootTip : option RootBlock;
  confirmedHeaderTip : option MinorBlock;
  initialized : bool;
  lastDereferenceRoot : Z;
  tries : T;
  triegc : Q;
  receiptsCache : CR;
  futureBlocks : CF;
  minRecordMinorBlock : Z;
  heightToMinorBlockHashes : gmap Z (gset Z);
  heightToMBlockHashCount : gmap Z Z;
  currentEvmState : option St;
  procInterrupt : bool;
  subLogsFeed : list (list (list Log) * bool);
}.

Definition set_db (x : Db) (m : MinorBlockChain) : MinorBlockChain :=
  mkChain x (genesisBlock m) (currentBlock m) (rootTip m) (confirmedHeaderTip m) (initialized m)
    (lastDereferenceRoot m) (tries m) (triegc m) (receiptsCache m) (futureBlocks m) (minRecordMinorBlock m)
    (heightToMinorBlockHashes m) (heightToMBlockHashCount m) (currentEvmState m) (procInterrupt m)
    (subLogsFeed m).
Definition set_genesisBlock (x : MinorBlock) (m : MinorBlockChain) : MinorBlockChain :=
  mkChain (db m) x (currentBlock m) (rootTip m) (confirmedHeaderTip m) (initialized m) (lastDereferenceRoot m)
    (tries m) (triegc m) (receiptsCache m) (futureBlocks m) (minRecordMinorBlock m) (heightToMinorBlockHashes
    m) (heightToMBlockHashCount m) (currentEvmState m) (procInterrupt m) (subLogsFeed m).
Definition set_currentBlock (x : option MinorBlock) (m : MinorBlockChain) : MinorBlockChain :=
  mkChain (db m) (genesisBlock m) x (rootTip m) (confirmedHeaderTip m) (initialized m) (lastDereferenceRoot m)
    (tries m) (triegc m) (receiptsCache m) (futureBlocks m) (minRecordMinorBlock m) (heightToMinorBlockHashes
    m) (heightToMBlockHashCount m) (currentEvmState m) (procInterrupt m) (subLogsFeed m).
Definition set_rootTip (x : option RootBlock) (m : MinorBlockChain) : MinorBlockChain :=
  mkChain (db m) (genesisBlock m) (currentBlock m) x (confirmedHeaderTip m) (initialized m)
    (lastDereferenceRoot m) (tries m) (triegc m) (receiptsCache m) (futureBlocks m) (minRecordMinorBlock m)
    (heightToMinorBlockHashes m) (heightToMBlockHashCount m) (currentEvmState m) (procInterrupt m)
    (subLogsFeed m).
Definition set_confirmedHeaderTip (x : option MinorBlock) (m : MinorBlockChain) : MinorBlockChain :=
  mkChain (db m) (genesisBlock m) (currentBlock m) (rootTip m) x (initialized m) (lastDereferenceRoot m)
    (tries m) (triegc m) (receiptsCache m) (futureBlocks m) (minRecordMinorBlock m) (heightToMinorBlockHashes
    m) (heightToMBlockHashCount m) (currentEvmState m) (procInterrupt m) (subLogsFeed m).
Definition set_initialized (x : bool) (m : MinorBlockChain) : MinorBlockChain :=
  mkChain (db m) (genesisBlock m) (currentBlock m) (rootTip m) (confirmedHeaderTip m) x (lastDereferenceRoot
    m) (tries m) (triegc m) (receiptsCache m) (futureBlocks m) (minRecordMinorBlock m)
    (heightToMinorBlockHashes m) (heightToMBlockHashCount m) (currentEvmState m) (procInterrupt m)
    (subLogsFeed m).
Definition set_lastDereferenceRoot (x : Z) (m : MinorBlockChain) : MinorBlockChain :=
  mkChain (db m) (genesisBlock m) (currentBlock m) (rootTip m) (confirmedHeaderTip m) (initialized m) x (tries
    m) (triegc m) (receiptsCache m) (futureBlocks m) (minRecordMinorBlock m) (heightToMinorBlockHashes m)
    (heightToMBlockHashCount m) (currentEvmState m) (procInterrupt m) (subLogsFeed m).
Definition set_tries (x : T) (m : MinorBlockChain) : MinorBlockChain :=
  mkChain (db m) (genesisBlock m) (currentBlock m) (rootTip m) (confirmedHeaderTip m) (initialized m)
    (lastDereferenceRoot m) x (triegc m) (receiptsCache m) (futureBlocks m) (minRecordMinorBlock m)
    (heightToMinorBlockHashes m) (heightToMBlockHashCount m) (currentEvmState m) (procInterrupt m)
    (subLogsFeed m).
Definition set_triegc (x : Q) (m : MinorBlockChain) : MinorBlockChain :=
  mkChain (db m) (genesisBlock m) (currentBlock m) (rootTip m) (confirmedHeaderTip m) (initialized m)
    (lastDereferenceRoot m) (tries m) x (receiptsCache m) (futureBlocks m) (minRecordMinorBlock m)
    (heightToMinorBlockHashes m) (heightToMBlockHashCount m) (currentEvmState m) (procInterrupt m)
    (subLogsFeed m).
Definition set_receiptsCache (x : CR) (m : MinorBlockChain) : MinorBlockChain :=
  mkChain (db m) (genesisBlock m) (currentBlock m) (rootTip m) (confirmedHeaderTip m) (initialized m)
    (lastDereferenceRoot m) (tries m) (triegc m) x (futureBlocks m) (minRecordMinorBlock m)
    (heightToMinorBlockHashes m) (heightToMBlockHashCount m) (currentEvmState m) (procInterrupt m)
    (subLogsFeed m).
Definition set_futureBlocks (x : CF) (m : MinorBlockChain) : MinorBlockChain :=
  mkChain (db m) (genesisBlock m) (currentBlock m) (rootTip m) (confirmedHeaderTip m) (initialized m)
    (lastDereferenceRoot m) (tries m) (triegc m) (receiptsCache m) x (minRecordMinorBlock m)
    (heightToMinorBlockHashes m) (heightToMBlockHashCount m) (currentEvmState m) (procInterrupt m)
    (subLogsFeed m).
Definition set_minRecordMinorBlock (x : Z) (m : MinorBlockChain) : MinorBlockChain :=
  mkChain (db m) (genesisBlock m) (currentBlock m) (rootTip m) (confirmedHeaderTip m) (initialized m)
    (lastDereferenceRoot m) (tries m) (triegc m) (receiptsCache m) (futureBlocks m) x
    (heightToMinorBlockHashes m) (heightToMBlockHashCount m) (currentEvmState m) (procInterrupt m)
    (subLogsFeed m).
Definition set_heightToMinorBlockHashes (x : gmap Z (gset Z)) (m : MinorBlockChain) : MinorBlockChain :=
  mkChain (db m) (genesisBlock m) (currentBlock m) (rootTip m) (confirmedHeaderTip m) (initialized m)
    (lastDereferenceRoot m) (tries m) (triegc m) (receiptsCache m) (futureBlocks m) (minRecordMinorBlock m) x
    (heightToMBlockHashCount m) (currentEvmState m) (procInterrupt m) (subLogsFeed m).
Definition set_heightToMBlockHashCount (x : gmap Z Z) (m : MinorBlockChain) : MinorBlockChain :=
  mkChain (db m) (genesisBlock m) (currentBlock m) (rootTip m) (confirmedHeaderTip m) (initialized m)
    (lastDereferenceRoot m) (tries m) (triegc m) (receiptsCache m) (futureBlocks m) (minRecordMinorBlock m)
    (heightToMinorBlockHashes m) x (currentEvmState m) (procInterrupt m) (subLogsFeed m).
Definition set_currentEvmState (x : option St) (m : MinorBlockChain) : MinorBlockChain :=
  mkChain (db m) (genesisBlock m) (currentBlock m) (rootTip m) (confirmedHeaderTip m) (initialized m)
    (lastDereferenceRoot m) (tries m) (triegc m) (receiptsCache m) (futureBlocks m) (minRecordMinorBlock m)
    (heightToMinorBlockHashes m) (heightToMBlockHashCount m) x (procInterrupt m) (subLogsFeed m).
Definition set_procInterrupt (x : bool) (m : MinorBlockChain) : MinorBlockChain :=
  mkChain (db m) (genesisBlock m) (currentBlock m) (rootTip m) (confirmedHeaderTip m) (initialized m)
    (lastDereferenceRoot m) (tries m) (triegc m) (receiptsCache m) (futureBlocks m) (minRecordMinorBlock m)
    (heightToMinorBlockHashes m) (heightToMBlockHashCount m) (currentEvmState m) x (subLogsFeed m).
Definition set_subLogsFeed (x : list (list (list Log) * bool)) (m : MinorBlockChain) : MinorBlockChain :=
  mkChain (db m) (genesisBlock m) (currentBlock m) (rootTip m) (confirmedHeaderTip m) (initialized m)
    (lastDereferenceRoot m) (tries m) (triegc m) (receiptsCache m) (futureBlocks m) (minRecordMinorBlock m)
    (heightToMinorBlockHashes m) (heightToMBlockHashCount m) (currentEvmState m) (procInterrupt m) x.

Context `{ShardEnv}.

Abbreviation Op := (SE MinorBlockChain).
Abbreviation branch := (c_branch config).

Definition on_db (f : Db → Db) : Op unit := se_mod (fun m => set_db (f (db m)) m).
Definition store_current (b : option MinorBlock) : Op unit := se_mod (set_currentBlock b).

(** ** Reading the chain *)

Definition GetMinorBlock (hash : Z) (m : MinorBlockChain) : option MinorBlock := ReadMinorBlock hash (db m).
Definition mc_GetRootBlockByHash (hash : Z) (m : MinorBlockChain) : option RootBlock := ReadRootBlock hash (db m).
Definition GetBlockByNumber (number : Z) (m : MinorBlockChain) : option MinorBlock :=
  let hash := ReadCanonicalHash ChainTypeMinor number (db m) in
  if hash =? 0 then None else GetMinorBlock hash m.
Definition GetHashByHeight (height : option Z) (m : MinorBlockChain) : result Z :=
  match height with
  | Some h =>
      if ReadCanonicalHash ChainTypeMinor h (db m) =? 0 then Err "shard %v do no have this  height  %v"
      else c ← deref (currentBlock m); Ok (Hash c)
  | None => c ← deref (currentBlock m); Ok (Hash c)
  end.
Definition mc_HasBlock (hash : Z) (m : MinorBlockChain) : bool := HasBlock hash (db m).
Definition HasState (hash : Z) (m : MinorBlockChain) : bool := trie_has (tries m) hash.
Definition HasBlockAndState (hash : Z) (m : MinorBlockChain) : result bool :=
  if mc_HasBlock hash m then
    match GetMinorBlock hash m with
    | None => Panic "bug fix block can not be nil"
    | Some block => Ok (HasState (mm_root (mb_meta block)) m)
    end
  else Ok false.
Definition StateAt (root : Z) (m : MinorBlockChain) : result St := state_New root (tries m).
Definition GetParentHashByHash (hash : Z) (m : MinorBlockChain) : Z := parent_hash (fun h => GetMinorBlock h m) hash.

(** The root blocks of the database as the cursor of XShardCursor.v reads them. *)
Definition rootBlocks (m : MinorBlockChain) : gmap Z RootBlock :=
  omap (fun b => match b with inr r => Some r | inl _ => None end) (d_blocks (db m)).
Definition mc_GetRootBlockByHeight (h height : Z) (m : MinorBlockChain) : result (option RootBlock) :=
  chain_GetRootBlockByHeight (rootBlocks m) h height.

(** Up to [max] hashes towards the genesis block. *)
Fixpoint hashes_loop (max : nat) (block : MinorBlock) (m : MinorBlockChain) : list Z :=
  match max with
  | O => []
  | S max =>
      let next := ParentHash block in
      match GetMinorBlock next m with
      | None => []
      | Some block => next :: (if NumberU64 block =? 0 then [] else hashes_loop max block m)
      end
  end.
Definition GetBlockHashesFromHash (hash max : Z) (m : MinorBlockChain) : list Z :=
  match GetMinorBlock hash m with None => [] | Some block => hashes_loop (Z.to_nat max) block m end.

(** ** Receipts, through their cache *)

Definition GetReceiptsByHash (hash : Z) : Op (list Receipt) := fun m =>
  match lru_get (receiptsCache m) hash with
  | Some receipts => (Ok receipts, set_receiptsCache (lru_touch (receiptsCache m) hash) m)
  | None =>
      match GetMinorBlock hash m with
      | None => (Ok [], m)
      | Some _ =>
          let receipts := ReadReceipts hash (db m) in
          (Ok receipts, set_receiptsCache (lru_add (receiptsCache m) hash receipts) m)
      end
  end.
Definition GetLogs (hash : Z) : Op (list (list Log)) :=
  receipts ← GetReceiptsByHash hash;
  mret (Logs <$> receipts).

(** A transaction that is only in the pool is given in a block of its own. *)
Definition pending_block (tx : Transaction) : MinorBlock :=
  mkMinorBlock (mkMinorHeader emptyHeaderHash 0 (mkBranch 1) 0 (mkAddress [] 0) ∅ 0 0 DefaultBlockGasLimit 0 0 0 0 [] [] 0)
    (mkMeta 0 0 0 0 0 None DefaultBlockGasLimit) [tx].
Definition GetTransactionByHash (hash : Z) (m : MinorBlockChain) : option MinorBlock * Z :=
  let '(_, mHash, txIndex) := ReadTransaction hash (db m) in
  if mHash =? 0 then
    match poolTx hash with
    | None => (None, 0)
    | Some tx => (Some (pending_block tx), 0)
    end
  else (GetMinorBlock mHash m, txIndex).
Definition GetTransactionReceipt (hash : Z) : Op (option (MinorBlock * Z * Receipt)) := fun m =>
  let '(block, index) := GetTransactionByHash hash m in
  match block with
  | None => (Ok None, m)
  | Some block =>
      (receipts ← GetReceiptsByHash (Hash block);
       mret (match list_find (fun r => r_TxHash r = hash) receipts with
             | Some (_, r) => Some (block, index, r)
             | None => None
             end)) m
  end.

(** ** The head *)

(** MinorBlockChain.insert. *)
Definition chain_insert (block : MinorBlock) : Op unit :=
  _ ← on_db (WriteCanonicalHash ChainTypeMinor (Hash block) (NumberU64 block));
  _ ← on_db (WriteHeadBlockHash (Hash block));
  store_current (Some block).

(** ** Heads set by hand: the bodies above the new head are deleted *)

Definition Batch : Type := list (Db → Db).
Definition batch_Write (b : Batch) (d : Db) : Db := foldl (fun d f => f d) d b.

Fixpoint rewind_loop (fuel : nat) (head : Z) (batch : Batch) : Op Batch := fun m =>
  match currentBlock m with
  | Some block =>
      if bool_decide (head < NumberU64 block) then
        match fuel with
        | O => (no_fuel, m)
        | S fuel =>
            rewind_loop fuel head
              (batch ++ [DeleteMinorBlock (Hash block); DeleteCanonicalHash ChainTypeMinor (NumberU64 block)])
              (set_currentBlock (GetMinorBlock (ParentHash block) m) m)
        end
      else (Ok batch, m)
  | None => (Ok batch, m)
  end.

(** setHead up to its call of loadLastState. *)
Definition rewind (fuel : nat) (head : Z) : Op unit :=
  batch ← rewind_loop fuel head [];
  _ ← on_db (batch_Write batch);
  m ← se_get;
  _ ← match currentBlock m with
      | Some b => match StateAt (mm_root (mb_meta b)) m with
                  | Ok _ => mret tt
                  | Panic e => se_panic e
                  | Err _ => store_current (Some (genesisBlock m))
                  end
      | None => store_current (Some (genesisBlock m))
      end;
  m ← se_get;
  c ← se_lift (deref (currentBlock m));
  _ ← on_db (WriteHeadBlockHash (Hash c));
  se_mod (fun m => set_futureBlocks (lru_purge (futureBlocks m)) (set_receiptsCache (lru_purge (receiptsCache m)) m)).

(** loadLastState and setHead call each other through setHeadToGenesisBlock;
    [depth] bounds the nesting. *)
Definition head_to_genesis (set_head : Z → Op unit) (genesis : MinorBlock) : Op unit :=
  m ← se_get;
  newState ← se_lift (StateAt (mm_root (mb_meta genesis)) m);
  _ ← on_db (WriteMinorBlock genesis);
  _ ← set_head 0;
  _ ← se_mod (set_genesisBlock genesis);
  _ ← chain_insert genesis;
  se_mod (set_currentEvmState (Some newState)).
Fixpoint loadLastState (depth fuel : nat) : Op unit :=
  m ← se_get;
  let head := ReadHeadBlockHash (db m) in
  let reset :=
    match depth with
    | O => se_lift no_fuel
    | S depth => head_to_genesis (fun h => _ ← rewind fuel h; loadLastState depth fuel) (genesisBlock m)
    end in
  if head =? 0 then reset
  else
    match GetMinorBlock head m with
    | None => reset
    | Some b => store_current (Some b)
    end.
Definition setHead (depth fuel : nat) (head : Z) : Op unit := _ ← rewind fuel head; loadLastState depth fuel.
Definition setHeadToGenesisBlock (depth fuel : nat) (genesis : MinorBlock) : Op unit :=
  head_to_genesis (setHead depth fuel) genesis.
Definition Reset (depth fuel : nat) : Op unit := m ← se_get; setHeadToGenesisBlock depth fuel (genesisBlock m).

(** The last hash of the list first; a missing parent leaves the head. *)
Definition Rollback (chain : list Z) : Op unit :=
  foldr (fun hash rest =>
    _ ← (m ← se_get;
         c ← se_lift (deref (currentBlock m));
         if bool_decide (Hash c = hash) then
           match GetMinorBlock (ParentHash c) m with
           | None => mret tt
           | Some newBlock => _ ← store_current (Some newBlock); on_db (WriteHeadBlockHash (Hash newBlock))
           end
         else mret tt);
    rest) (mret tt) (rev chain).

(** ** The index of transactions *)

(** Operations on the database with a batch that is written later. *)
Abbreviation BOp := (SE (Db * Batch)).
Definition to_db (f : Db → Db) : BOp unit := se_mod (fun '(d, b) => (f d, b)).
Definition to_batch (f : Db → Db) : BOp unit := se_mod (fun '(d, b) => (d, b ++ [f])).

Definition putTxIndexDB (key : option Z * Z * bool * Z) : Db → Db := on_history (fun s => {[ key ]} ∪ s).
Definition deleteTxIndexDB (key : option Z * Z * bool * Z) : Db → Db := on_history (fun s => s ∖ {[ key ]}).
(** encodeAllTxKey and encodeAddressTxKey; RawDb.v has their bytes. *)
Definition all_key (height index : Z) (crossShard : bool) : option Z * Z * bool * Z :=
  (None, u32 height, crossShard, u32 index).
Definition address_key (addr height index : Z) (crossShard : bool) : option Z * Z * bool * Z :=
  (Some addr, u32 height, crossShard, u32 index).

Definition updateTxHistoryIndex (f : option Z * Z * bool * Z → Db → Db) (tx : Transaction) (height index : Z) : BOp unit :=
  if negb (EnableTransactionHistory config) then mret tt
  else
    _ ← to_db (f (all_key height index false));
    match recover (EvmTx tx) with
    | None => se_err "invalid sender"
    | Some sender =>
        _ ← to_db (f (address_key sender height index false));
        match Transaction.Recipient (data (EvmTx tx)) with
        | Some to =>
            if IsInBranch branch (d_ToFullShardKey (data (EvmTx tx)))
            then to_db (f (address_key to height index false)) else mret tt
        | None => mret tt
        end
    end.

(** The loop over the deposits of a block; [i] counts from the first. *)
Fixpoint deposit_index_loop (f : option Z * Z * bool * Z → Db → Db) (height : Z) (i : nat) (l : list Deposit) : BOp unit :=
  match l with
  | [] => mret tt
  | tx :: l =>
      _ ← (if IsFromRootChain tx && (DValue tx =? 0) then mret tt
           else
             _ ← to_db (f (address_key (be_value (Account.Recipient (To tx))) height (Z.of_nat i) true));
             if IsFromRootChain tx then mret tt else to_db (f (all_key height (Z.of_nat i) true)));
      deposit_index_loop f height (S i) l
  end.
Definition updateTxHistoryIndexFromBlock (f : option Z * Z * bool * Z → Db → Db) (block : MinorBlock) : BOp unit :=
  if negb (EnableTransactionHistory config) then mret tt
  else
    s ← se_get;
    l ← se_lift (deref (ReadConfirmedCrossShardTxList (Hash block) (s : Db * Batch).1));
    deposit_index_loop f (NumberU64 block) 0 l.

Fixpoint tx_index_loop (op : Transaction → Z → BOp unit) (i : nat) (l : list Transaction) : BOp unit :=
  match l with
  | [] => mret tt
  | tx :: l => _ ← op tx (Z.of_nat i); tx_index_loop op (S i) l
  end.

Definition Content (block : MinorBlock) : list Z := txHash <$> mb_transactions block.

(** [put] is where the lookup entries go: the batch or the database. *)
Definition putTxIndexFromBlock (put : (Db → Db) → BOp unit) (block : MinorBlock) : BOp unit :=
  s ← se_get;
  match GetXShardDepositHashList (Hash block) (s : Db * Batch).1 with
  | None => se_err "xShardDepositHashList err"
  | Some deposit =>
      _ ← put (WriteBlockContentLookupEntriesWithCrossShardHashList (Hash block) (Content block) (Some deposit));
      _ ← tx_index_loop (fun tx i => updateTxHistoryIndex putTxIndexDB tx (NumberU64 block) i) 0 (mb_transactions block);
      updateTxHistoryIndexFromBlock putTxIndexDB block
  end.

Definition removeTxIndexFromBlock (block : MinorBlock) : BOp unit :=
  _ ← tx_index_loop (fun tx i =>
        _ ← to_batch (DeleteBlockContentLookupEntry (txHash tx));
        updateTxHistoryIndex deleteTxIndexDB tx (NumberU64 block) i) 0 (mb_transactions block);
  s ← se_get;
  _ ← match GetXShardDepositHashList (Hash block) (s : Db * Batch).1 with
      | None => mret tt
      | Some hs => to_batch (fun d => foldl (fun d h => DeleteBlockContentLookupEntry h d) d hs)
      end;
  updateTxHistoryIndexFromBlock deleteTxIndexDB block.

(** Running such an operation on the database of the chain. *)
Definition with_batch {A} (op : BOp A) (b : Batch) : Op (A * Batch) := fun m =>
  let '(r, (d, b)) := op (db m, b) in (a ← r; Ok (a, b), set_db d m).

(** ** Reorganisation *)

(** Blocks are visited from the lowest of a list on. *)
Definition for_each {S} (op : MinorBlock → SE S unit) (l : list MinorBlock) : SE S unit :=
  foldr (fun b rest => _ ← rest; op b) (mret tt) l.

Definition remove_old (oldChain : list MinorBlock) : BOp unit :=
  for_each (fun b =>
    _ ← removeTxIndexFromBlock b;
    to_batch (DeleteCanonicalHash ChainTypeMinor (NumberU64 b))) oldChain.
Definition insert_new (newChain : list MinorBlock) : Op unit :=
  for_each (fun b =>
    _ ← chain_insert b;
    _ ← with_batch (putTxIndexFromBlock to_db b) [];
    mret tt) newChain.

Definition send (e : list (list Log) * bool) : Op unit := se_mod (fun m => set_subLogsFeed (subLogsFeed m ++ [e]) m).
(** The logs of the blocks, announced in the order of the list. *)
Definition announce (removed : bool) (l : list MinorBlock) : Op unit :=
  foldr (fun b rest => _ ← (logs ← GetLogs (Hash b); send (logs, removed)); rest) (mret tt) l.
(** collectLogs: the logs of the dropped blocks that are in the database. *)
Definition deleted_logs (l : list MinorBlock) (m : MinorBlockChain) : list Log :=
  concat ((fun b => match GetMinorBlock (Hash b) m with
                    | None => []
                    | Some _ => concat (Logs <$> ReadReceipts (Hash b) (db m))
                    end) <$> l).

Definition reorg (fuel : nat) (oldBlock newBlock : option MinorBlock) : Op unit :=
  match oldBlock, newBlock with
  | Some oldBlock, Some newBlock =>
      m ← se_get;
      r ← se_lift (fork_point (fun h => GetMinorBlock h m) true fuel oldBlock newBlock);
      let '(newBlock, oldChain, newChain) := (r : MinorBlock * list MinorBlock * list MinorBlock) in
      let deletedLogs := deleted_logs oldChain m in
      b ← with_batch (remove_old oldChain) [];
      _ ← on_db (batch_Write (b : unit * Batch).2);
      _ ← (if bool_decide (length newChain = 0%nat) then chain_insert newBlock else mret tt);
      _ ← insert_new newChain;
      _ ← (if bool_decide (0 < length deletedLogs)%nat then send ([deletedLogs], true) else mret tt);
      _ ← announce true oldChain;
      announce false newChain
  | _, _ => se_err "reorg err:block is nil"
  end.

Definition reWriteBlockIndexTo (fuel : nat) (oldBlock : option MinorBlock) (newBlock : MinorBlock) : Op unit :=
  m ← se_get;
  newState ← se_lift (StateAt (mm_root (mb_meta newBlock)) m);
  _ ← reorg fuel (match oldBlock with Some b => Some b | None => currentBlock m end) (Some newBlock);
  se_mod (set_currentEvmState (Some newState)).

(** ** Blocks and root blocks written *)

Definition putTotalTxCount (mBlock : MinorBlock) : Op unit :=
  m ← se_get;
  prevCount ← (if bool_decide (1 < NumberU64 mBlock) then
                 match ReadTotalTx (ParentHash mBlock) (db m) with
                 | None => se_err "get totalTx failed"
                 | Some c => mret (u32 (0 + c))
                 end
               else mret 0);
  on_db (WriteTotalTx (Hash mBlock) (u32 ((prevCount : Z) + u32 (Z.of_nat (length (mb_transactions mBlock)))))).

Definition putConfirmedCrossShardTransactionDepositList (hash : Z) (l : list Deposit) : Op unit :=
  if negb (EnableTransactionHistory config) then mret tt else on_db (WriteConfirmedCrossShardTxList hash l).

(** The record of the blocks seen at a height; old heights keep only a count. *)
Definition record_height (mBlock : MinorBlock) (m : MinorBlockChain) : MinorBlockChain :=
  let n := NumberU64 mBlock in
  let m :=
    match heightToMinorBlockHashes m !! n with
    | Some _ => m
    | None =>
        let m := set_heightToMinorBlockHashes (<[n := ∅]> (heightToMinorBlockHashes m)) m in
        if bool_decide (n < minRecordMinorBlock m) then set_minRecordMinorBlock n m else m
    end in
  let hs := <[n := {[ Hash mBlock ]} ∪ default ∅ (heightToMinorBlockHashes m !! n)]> (heightToMinorBlockHashes m) in
  if bool_decide (maxCacheCountHeight2Hash < Z.of_nat (size hs)) then
    let minNumber := u64 (n - maxCacheCountHeight2Hash / 2) in
    let old := filter (fun e => e.1 < minNumber) hs in
    let counts := (fun s : gset Z => Z.of_nat (size s)) <$> filter (fun e => (1 < size e.2)%nat) old in
    set_heightToMBlockHashCount (counts ∪ heightToMBlockHashCount m)
      (set_heightToMinorBlockHashes (filter (fun e => ¬ e.1 < minNumber) hs) m)
  else set_heightToMinorBlockHashes hs m.

Definition getBlockCountByHeight (height : Z) (m : MinorBlockChain) : result Z :=
  c ← deref (currentBlock m);
  Ok (if bool_decide (NumberU64 c < height) || bool_decide (height < minRecordMinorBlock m) then 0
      else
        match heightToMinorBlockHashes m !! height with
        | Some rs => Z.of_nat (size rs)
        | None => default 1 (heightToMBlockHashCount m !! height)
        end).

Definition putMinorBlock (mBlock : MinorBlock) (xShardReceiveTxList : list Deposit) : Op unit :=
  _ ← se_mod (record_height mBlock);
  m ← se_get;
  _ ← (if mc_HasBlock (Hash mBlock) m then mret tt else on_db (WriteMinorBlock mBlock));
  _ ← putTotalTxCount mBlock;
  _ ← putConfirmedCrossShardTransactionDepositList (Hash mBlock) xShardReceiveTxList;
  on_db (PutXShardDepositHashList (Hash mBlock) (Blocks.TxHash <$> xShardReceiveTxList)).

Definition putRootBlock (rBlock : RootBlock) (minorHeader : option MinorBlockHeader) : Op unit :=
  let mHash := match minorHeader with Some h => mh_hash h | None => 0 end in
  _ ← on_db (WriteLastConfirmedMinorBlockHeaderAtRootBlock (Hash rBlock) mHash);
  on_db (WriteRootBlock rBlock).

Definition getLastConfirmedMinorBlockHeaderAtRootBlock (hash : Z) (m : MinorBlockChain) : option MinorBlock :=
  let h := ReadLastConfirmedMinorBlockHeaderAtRootBlock hash (db m) in
  if h =? 0 then None else GetMinorBlock h m.

(** ** The choice of the head *)

Definition isSameRootChain (long short : option RootBlock) (m : MinorBlockChain) : result bool :=
  match long, short with
  | Some long, Some short =>
      if bool_decide (NumberU64 long < NumberU64 short) then Ok false
      else isSameChain (parent_hash (fun h => mc_GetRootBlockByHash h m)) long short
  | _, _ => Ok false
  end.

Definition isMinorBlockLinkedToRootTip (mBlock : MinorBlock) (m : MinorBlockChain) : result bool :=
  match confirmedHeaderTip m with
  | None => Ok true
  | Some confirmed =>
      if bool_decide (NumberU64 mBlock <= NumberU64 confirmed) then Ok false
      else isSameChain (fun h => GetParentHashByHash h m) mBlock confirmed
  end.

Definition updateTip (state : St) (block : MinorBlock) : Op bool :=
  m ← se_get;
  match mc_GetRootBlockByHash (PrevRootBlockHash (mb_header block)) m with
  | None => se_err "missing prev block"
  | Some preRootBlock =>
      currentTip ← se_lift (deref (currentBlock m));
      let tipPrevRootHeader := mc_GetRootBlockByHash (PrevRootBlockHash (mb_header currentTip)) m in
      same ← se_lift (isSameRootChain (rootTip m) (Some preRootBlock) m);
      if negb same then mret false
      else
        updateTip ←
          (if bool_decide (ParentHash block = Hash currentTip) then mret true
           else
             linked ← se_lift (isMinorBlockLinkedToRootTip block m);
             if negb linked then mret false
             else if bool_decide (NumberU64 currentTip < NumberU64 block) then mret true
             else if bool_decide (NumberU64 block = NumberU64 currentTip) then
               t ← se_lift (deref tipPrevRootHeader);
               mret (bool_decide (NumberU64 t < NumberU64 preRootBlock))
             else mret false);
        _ ← (if (updateTip : bool) then se_mod (set_currentEvmState (Some state)) else mret tt);
        mret updateTip
  end.

(** ** Writing an executed block *)

Inductive WriteStatus := NonStatTy | CanonStatTy | SideStatTy.

Fixpoint collect_loop (fuel : nat) (chosen : Z) (m : MinorBlockChain) : MinorBlockChain :=
  match fuel, prque_Pop (triegc m) with
  | S fuel, Some (root, number, q) =>
      if bool_decide (chosen < u64 (- number)) then set_triegc (prque_Push root number q) m
      else collect_loop fuel chosen (set_triegc q (set_tries (trie_Dereference root (tries m)) m))
  | _, _ => m
  end.

(** Keeping the trie of the new state and dropping the old ones; [fuel] bounds
    how many are dropped. *)
Definition keep_tries (fuel : nat) (block : MinorBlock) (root : Z) : Op unit :=
  if NoPruning config then
    m ← se_get;
    let '(r, t) := trie_Commit root (tries m) in
    _ ← se_mod (set_tries t);
    se_lift r
  else
    _ ← se_mod (fun m => set_triegc (prque_Push root (i64 (- i64 (NumberU64 block))) (triegc m))
                           (set_tries (trie_Reference root (tries m)) m));
    m ← se_get;
    tip ← se_lift (deref (rootTip m));
    let current := NumberU64 block in
    if bool_decide (triesInRootBlock < NumberU64 tip) && bool_decide (triesInMemory < current) then
      let '(nodes, imgs) := trie_Size (tries m) in
      let limit := TrieDirtyLimit config * 1024 * 1024 in
      _ ← (if bool_decide (limit < nodes) || bool_decide (4 * 1024 * 1024 < imgs)
           then se_mod (fun m => set_tries (trie_Cap (limit - 100 * 1024) (tries m)) m) else mret tt);
      _ ← match GetBlockByNumber (current - triesInMemory) m with
          | None => mret tt
          | Some mBlock =>
              if bool_decide (NumberU64 mBlock mod triesInMemory = 0)
              then se_mod (fun m => set_tries (trie_Commit (mm_root (mb_meta mBlock)) (tries m)).2 m) else mret tt
          end;
      if bool_decide (NumberU64 tip mod triesInRootBlock = 0) && bool_decide (Hash tip ≠ lastDereferenceRoot m) then
        _ ← se_mod (set_lastDereferenceRoot (Hash tip));
        pre ← se_lift (mc_GetRootBlockByHeight (Hash tip) (NumberU64 tip - triesInRootBlock) m);
        pre ← se_lift (deref pre);
        confirmed ← se_lift (deref (GetMinorBlock (ReadLastConfirmedMinorBlockHeaderAtRootBlock (Hash pre) (db m)) m));
        let chosen := Z.min (NumberU64 confirmed) (current - triesInMemory) in
        se_mod (collect_loop fuel chosen)
      else mret tt
    else mret tt.

Definition WriteBlockWithState (fuel : nat) (block : MinorBlock) (receipts : list Receipt) (state : St)
    (xShardList : list Deposit) (updateTip : bool) : Op WriteStatus :=
  m ← se_get;
  let current := currentBlock m in
  _ ← putMinorBlock block xShardList;
  m ← se_get;
  let '(r, t) := state_Commit state (tries m) in
  _ ← se_mod (set_tries t);
  root ← se_lift r;
  _ ← keep_tries fuel block root;
  let batch := [WriteReceipts (Hash block) receipts] in
  sb ← (if updateTip then
          c ← se_lift (deref current);
          _ ← (if bool_decide (ParentHash block = Hash c) then mret tt else reorg fuel current (Some block));
          m ← se_get;
          b ← match (putTxIndexFromBlock to_batch block (db m, batch)).1 with
              | Err e => se_panic e
              | _ => with_batch (putTxIndexFromBlock to_batch block) batch
              end;
          mret (CanonStatTy, (b : unit * Batch).2 ++ [WritePreimages (Preimages state)])
        else mret (SideStatTy, batch));
  let '(status, batch) := (sb : WriteStatus * Batch) in
  _ ← on_db (batch_Write batch);
  _ ← match status with CanonStatTy => chain_insert block | _ => mret tt end;
  _ ← se_mod (fun m => set_futureBlocks (lru_remove (futureBlocks m) (Hash block)) m);
  mret status.

Definition WriteBlockWithoutState (block : MinorBlock) : Op unit := on_db (WriteMinorBlock block).

End minor_chain.
