(* ===== verification/MinorValidator.v ===== *)
(** * core: validation of a shard's blocks

    Models src/core/minorblock_validator.go and the operations of
    src/core/minorblockchain.go and src/core/minorblockchain_addon.go it uses:
    the reward of a height, the difficulty adjusted by staked work.  The caches
    of seals and of coinbase windows do not change an answer (Engine.v and
    Consensus.v), so each check starts with an empty one; the reward of an epoch
    is computed anew instead of being kept. *)

From S2P Require Import Prelude Utils TokenBalances StateDB Account Transaction Blocks BlockTree XShardCursor Lru Receipts Merkle RawDb.
From S2P Require Import Consensus Engine MinorChain.

Local Open Scope Z_scope.

Definition ALLOWED_FUTURE_BLOCKS_TIME_VALIDATION : Z := 15.

(** ** Rewards *)

Fixpoint power_loop (n : nat) (data t : Z) : Z := match n with O => t | S n => power_loop n data (t * data) end.
(** The loop bound [int(p)-1] is not positive for a power that is negative as an int. *)
Definition powerBigInt (data p : Z) : Z :=
  if p =? 0 then 1 else power_loop (Z.to_nat (i64 p - 1)) data data.

Section validator.
Context {St T Q CR CF : Type} `{TrieDb T Q} `{AccountState St T} `{Lru (list Receipt) CR} `{Lru MinorBlock CF} `{ShardEnv}.

Abbreviation Chain := (@MinorBlockChain St T Q CR CF).

(** The reward and the stake per block of an epoch. *)
Definition calcCoinbaseAmountByHeight (epoch : Z) : result (TokenBalances * Z) :=
  let decayNumerator := powerBigInt (BlockRewardDecayFactor config).1 epoch in
  let decayDenominator := powerBigInt (BlockRewardDecayFactor config).2 epoch in
  let coinbaseAmount := BigIntMulBigRat (CoinbaseAmount config) (FeeRate config) in
  amount ← big_Div (coinbaseAmount * decayNumerator) decayDenominator;
  stake ← big_Div (TotalStakePerBlock (PoswConfig config) * decayNumerator) decayDenominator;
  Ok (NewTokenBalancesWithMap {[ DefaultChainTokenID config := amount ]}, stake).
Definition epoch_of (height : Z) : result Z :=
  if EpochInterval config =? 0 then Panic "integer divide by zero" else Ok (height / EpochInterval config).
Definition getCoinbaseAmount (height : Z) : result TokenBalances :=
  epoch ← epoch_of height;
  r ← calcCoinbaseAmountByHeight epoch;
  Ok (TB_Copy r.1).
Definition DecayByHeightAndTime (height time : Z) : result Z :=
  if (EnablePoswStakingDecayTimestamp config =? 0) || bool_decide (time < EnablePoswStakingDecayTimestamp config)
  then Ok (TotalStakePerBlock (PoswConfig config))
  else
    epoch ← epoch_of height;
    r ← calcCoinbaseAmountByHeight epoch;
    Ok r.2.

(** ** Difficulty adjusted by the stake of the miner *)

Definition getEvmStateByHash (hash : option Z) (m : Chain) : result St :=
  hash ← match hash with Some h => Ok h | None => c ← deref (currentBlock m); Ok (Hash c) end;
  match GetMinorBlock hash m with
  | None => Err "no such block:hash"
  | Some mBlock => StateAt (mm_root (mb_meta mBlock)) m
  end.

Definition coinbase_of (b : MinorBlock) : Z := be_value (Account.Recipient (mh_coinbase (mb_header b))).
(** A block as the calculator of Consensus.v reads it. *)
Definition posw_block (b : MinorBlock) : Block := mkBlock (NumberU64 b) (ParentHash b) (coinbase_of b).
Definition posw_header (b : MinorBlock) : Header :=
  mkHeader (Hash b) (NumberU64 b) (GetTime b) (ParentHash b) (coinbase_of b) (GetDifficulty b).

Definition mc_GetAdjustedDifficulty (m : Chain) (header : MinorBlock) : result (Z * Z) :=
  let diff := GetDifficulty header in
  if IsPoSWEnabled (PoswConfig config) (GetTime header) (NumberU64 header) then
    st ← getEvmStateByHash (Some (ParentHash header)) m;
    stakePreBlock ← DecayByHeightAndTime (NumberU64 header) (GetTime header);
    poswAdjusted ← (PoSWDiffAdjust (fun h => posw_block <$> GetMinorBlock h m) (PoswConfig config) (posw_header header)
                      (Some (GetTokenBalance st (coinbase_of header) (DefaultChainTokenID config))) stakePreBlock
                      ([] : fifo (Z * list Z))).1;
    Ok (if bool_decide (poswAdjusted < diff) then (poswAdjusted, 1) else (diff, 1))
  else Ok (diff, 1).

Definition chain_reader (m : Chain) : ChainReader :=
  mkReader (fun h => GetMinorBlock h m) (BlockExtraDataSizeLimit config) (SkipMinorDifficultyCheck config)
    (mc_GetAdjustedDifficulty m).
Definition VerifyHeader (m : Chain) (header : MinorBlock) : result unit :=
  (engine_VerifyHeader mining_spec diffCalc (chain_reader m) header ([] : fifo Z)).1.
Definition VerifySeal (header : MinorBlock) (adjustedDiff : Z) : result unit :=
  (engine_VerifySeal mining_spec header adjustedDiff ([] : fifo Z)).1.

(** ** Roots *)

Definition tx_root (txs : list Transaction) : Z :=
  match CalculateMerkleRoot sha3_256 (txBytes <$> txs) with
  | Some r => be_value r
  | None => 0
  end.

(** ** The checks before a block is executed *)

Definition ValidateSeal (m : Chain) (header : MinorBlock) (usePowsDiff : bool) : result unit :=
  if NumberU64 header =? 0 then Ok tt
  else
    adjustedDiff ←
      (if usePowsDiff then d ← mc_GetAdjustedDifficulty m header; Ok d.1
       else if Enabled (PoswConfig config) then
         d ← GetDiffDivider (PoswConfig config) (GetTime header);
         big_Div (GetDifficulty header) d
       else Ok (GetDifficulty header));
    VerifySeal header adjustedDiff.

(** The first part, which a block without its parent's state passes too. *)
Definition check_known (force : bool) (m : Chain) (block : MinorBlock) : result unit :=
  _ ← VerifyHeader m block;
  if negb (GetVersion block =? 0) then Err "incorrect minor block version"
  else if bool_decide (NumberU64 block < 1) then Err "block.Number <1"
  else
    known ← HasBlockAndState (Hash block) m;
    if (known : bool) && negb force then Err "block already known"
    else
      parent ← HasBlockAndState (ParentHash block) m;
      if (parent : bool) then Ok tt
      else if mc_HasBlock (ParentHash block) m then Err "pruned ancestor"
      else Err "consensus: unknown ancestor".

Definition check_fields (block prevBlock : MinorBlock) : result unit :=
  if negb (NumberU64 block =? u64 (NumberU64 prevBlock + 1)) then Err "block height not match"
  else if negb (Account.Value (mh_branch (mb_header block)) =? Account.Value (c_branch config)) then Err "branch not match"
  else if bool_decide (u64 (now + ALLOWED_FUTURE_BLOCKS_TIME_VALIDATION) < GetTime block)
  then Err "block too far into future"
  else if bool_decide (GetTime block <= GetTime prevBlock) then Err "time not match"
  else if negb (mh_metaHash (mb_header block) =? metaHash (mb_meta block)) then Err "meta hash not match"
  else if bool_decide (BlockExtraDataSizeLimit config < Z.of_nat (length (GetExtra block)))
  then Err "extra data exceeds limit"
  else if negb (mh_gasLimit (mb_header block) =? gasLimit config) then Err "incorrect gas limit"
  else if bool_decide (mh_gasLimit (mb_header block) <= mm_xshardGasLimit (mb_meta block))
  then Err "xshard_gas_limit %d should not exceed total gas_limit %d"
  else if negb (mm_xshardGasLimit (mb_meta block) =? xShardGasLimit config) then Err "incorrect xshard gas limit"
  else if negb (tx_root (mb_transactions block) =? mm_txHash (mb_meta block)) then Err "tx hash not match"
  else if negb (IsInBranch (c_branch config) (FullShardKey (GetCoinbase block)))
  then Err "coinbase full shard key not match"
  else if SkipMinorDifficultyCheck config then Ok tt
  else
    diff ← engine_CalcDifficulty diffCalc (GetTime block) prevBlock;
    if negb ((diff : Z) =? GetDifficulty block) then Err "diff not match" else Ok tt.

Definition check_roots (m : Chain) (block prevBlock : MinorBlock) : result unit :=
  let root := mc_GetRootBlockByHash (PrevRootBlockHash (mb_header block)) m in
  let prevRoot := mc_GetRootBlockByHash (PrevRootBlockHash (mb_header prevBlock)) m in
  match root, prevRoot with
  | Some r, Some p =>
      if bool_decide (NumberU64 r < NumberU64 p) then Err "pre root block height must be non-decreasing"
      else
        same ← match getLastConfirmedMinorBlockHeaderAtRootBlock (PrevRootBlockHash (mb_header block)) m with
               | None => Ok true
               | Some confirmed => isSameChain (fun h => GetParentHashByHash h m) prevBlock confirmed
               end;
        if negb (same : bool) then Err "prev root block's minor block is not in the same chain as the minor block"
        else
          same ← isSameRootChain root prevRoot m;
          if negb (same : bool) then Err "prev root blocks are not on the same chain" else Ok tt
  | _, _ => Err "root block is nil"
  end.

Definition ValidateBlock (block : MinorBlock) (force : bool) (m : Chain) : result unit :=
  _ ← check_known force m block;
  match GetMinorBlock (ParentHash block) m with
  | None => Err "minor block is invalid"
  | Some prevBlock =>
      _ ← check_fields block prevBlock;
      _ ← check_roots m block prevBlock;
      if DisablePowCheck config then Ok tt else ValidateSeal m block (Enabled (PoswConfig config))
  end.

(** ** The checks after a block is executed *)

Definition compareXshardTxCursor (a b : option XShardTxCursorInfo) : bool :=
  match a, b with
  | Some a, Some b =>
      if negb (XShardDepositIndex a =? XShardDepositIndex b) then false
      else if negb (MinorBlockIndex a =? MinorBlockIndex b) then false
      else RootBlockHeight a =? RootBlockHeight b
  | _, _ => false
  end.

Definition compareCoinbaseAmountMap (a b : gmap Z Z) : bool :=
  bool_decide (size a = size b) &&
  forallb (fun e => match b !! e.1 with None => false | Some data => data =? e.2 end) (map_to_list a).

Definition ValidateState (block : MinorBlock) (statedb : St) (receipts : list Receipt) : result unit :=
  if negb (mm_gasUsed (mb_meta block) =? state_GasUsed statedb) then Err "invalid gas used"
  else
  bloom ← CreateBloom keccak receipts;
  if negb (bool_decide (bloom = mh_bloom (mb_header block))) then Err "invalid bloom"
  else if negb (compareXshardTxCursor (GetTxCursorInfo statedb) (mm_cursor (mb_meta block)))
  then Err "cross-hard transaction cursor info mismatches!"
  else if negb (DeriveSha receipts =? mm_receiptHash (mb_meta block)) then Err "invalid receipt root hash"
  else if negb (state_GasUsed statedb =? mm_gasUsed (mb_meta block)) then Err "gas used not match"
  else
    coinbaseAmount ← getCoinbaseAmount (NumberU64 block);
    let coinbaseAmount := Add (GetBlockFee statedb) coinbaseAmount in
    if negb (compareCoinbaseAmountMap (GetBalanceMap coinbaseAmount) (mh_coinbaseAmount (mb_header block)))
    then Err "wrong coinbase amount"
    else if negb (GetXShardReceiveGasUsed statedb =? mm_crossShardGasUsed (mb_meta block))
    then Err "xShardReceivedGasUsed not match"
    else if negb (mm_root (mb_meta block) =? IntermediateRoot statedb) then Err "invalid merkle root"
    else Ok tt.
End validator.
