(* ===== verification/MinorInsert.v ===== *)
(** * core: blocks and root blocks inserted into the chain of a shard

    Models the import of blocks of src/core/minorblockchain.go (over the iterator
    of ChainInsert.v) and the handling of root blocks of
    src/core/minorblockchain_addon.go.  The execution of a block is used through
    the class [Execution].  An import returns its position, events, logs and
    deposits together with its error, as the code does. *)

From S2P Require Import Prelude Utils StateDB Account Transaction Blocks BlockTree XShardCursor Lru Receipts RawDb Engine.
From S2P Require Import ChainInsert MinorChain MinorValidator.

Local Open Scope Z_scope.

Inductive ChainEvent :=
| MinorChainEvent (block : MinorBlock) (logs : list Log)
| MinorChainSideEvent (block : MinorBlock)
| MinorChainHeadEvent (block : MinorBlock).

(** The five values an import returns. *)
Record Inserted := mkInserted {
  i_index : Z;
  i_events : list ChainEvent;
  i_logs : list Log;
  i_xShardList : list (list Deposit);
  i_err : option string;
}.

(** What a loop of the import has gathered. *)
Record Gathered := mkGathered {
  g_events : list ChainEvent;
  g_logs : list Log;
  g_lastCanon : option MinorBlock;
  g_xShardList : list (list Deposit);
}.

Section insert.
Context {St T Q CR CF : Type} `{TrieDb T Q} `{AccountState St T} `{Lru (list Receipt) CR} `{Lru MinorBlock CF} `{ShardEnv}.

Abbreviation Chain := (@MinorBlockChain St T Q CR CF).
Abbreviation Op := (SE Chain).

(** The execution of a block on its parent's state, giving the state, the
    receipts, the logs, the gas and the deposits received; the size of a block;
    the genesis block for a root block. *)
Class Execution := {
  runBlock : MinorBlock → Chain → result (St * list Receipt * list Log * Z * list Deposit);
  GetSize : MinorBlock → Z;
  CreateMinorBlock : RootBlock → SE T MinorBlock;
}.
Context `{Execution}.

(** ** Validation of the next block *)

Definition validate (force : bool) (b : MinorBlock) : Op (option string) := fun m =>
  (match ValidateBlock b force m with Ok _ => Ok None | Err e => Ok (Some e) | Panic e => Panic e end, m).

(** ** The queue of future blocks *)

Definition addFutureBlock (block : MinorBlock) : Op unit :=
  if bool_decide (u64 (now + maxTimeFutureBlocks) < GetTime block) then se_err "future block timestamp %v > allowed %v"
  else se_mod (fun m => set_futureBlocks (lru_add (futureBlocks m) (Hash block) block) m).

Definition gathered (it : insertIterator MinorBlock) (g : Gathered) (err : option string) : Inserted :=
  mkInserted (it_index it) (g_events g) (g_logs g) (g_xShardList g) err.

(** ** The import *)

Definition gather (block : MinorBlock) (logs : list Log) (status : WriteStatus) (xs : list Deposit) (g : Gathered) : Gathered :=
  match status with
  | CanonStatTy =>
      mkGathered (g_events g ++ [MinorChainEvent block logs]) (g_logs g ++ logs) (Some block) (g_xShardList g ++ [xs])
  | SideStatTy =>
      mkGathered (g_events g ++ [MinorChainSideEvent block]) (g_logs g) (g_lastCanon g) (g_xShardList g ++ [xs])
  | NonStatTy => mkGathered (g_events g) (g_logs g) (g_lastCanon g) (g_xShardList g ++ [xs])
  end.

(** One block: executed, checked and, unless [readOnly], written.  The right
    value is the error the import ends with. *)
Definition import_block (fuel : nat) (readOnly : bool) (block : MinorBlock) (g : Gathered) : Op (Gathered + string) :=
  se_try (
    m ← se_get;
    r ← se_lift (runBlock block m);
    let '(state, receipts, logs, usedGas, xShardReceiveTxList) := (r : St * list Receipt * list Log * Z * list Deposit) in
    _ ← se_lift (ValidateState block state receipts);
    if readOnly then
      mret (mkGathered (g_events g) (g_logs g) (g_lastCanon g) (g_xShardList g ++ [GetXShardList state]))
    else
      tip ← updateTip state block;
      status ← WriteBlockWithState fuel block receipts state xShardReceiveTxList tip;
      mret (gather block logs status (GetXShardList state) g)).

(** The left value is an early return, the right one is how the loop was left. *)
Fixpoint import_loop (fuel : nat) (force readOnly : bool) (rest before : list MinorBlock) (block : MinorBlock) (g : Gathered)
    : Op (Inserted + insertIterator MinorBlock * option string * Gathered) :=
  let it := mkIter before (Some block) rest in
  m ← se_get;
  if procInterrupt m then mret (inr (it, None, g))
  else
    match (match head before with Some p => Some p | None => GetMinorBlock (ParentHash block) m end) with
    | None => mret (inl (gathered it g None))
    | Some parent =>
        r ← import_block fuel readOnly block g;
        match r with
        | inr e => mret (inl (gathered it g (Some e)))
        | inl g =>
            match rest with
            | [] => mret (inr (mkIter (block :: before) None [], None, g))
            | b :: rest =>
                err ← validate force b;
                match err with
                | None => import_loop fuel force readOnly rest (block :: before) b g
                | Some e => mret (inr (mkIter (block :: before) (Some b) rest, Some e, g))
                end
            end
        end
    end.

(** The import from a block on; then the new head is announced. *)
Definition import_from (fuel : nat) (force readOnly : bool) (it : insertIterator MinorBlock) (err : option string) (g : Gathered) : Op Inserted :=
  r ← match it_current it, err with
      | Some block, None => import_loop fuel force readOnly (it_rest it) (it_before it) block g
      | _, _ => mret (inr (it, err, g))
      end;
  match r with
  | inl i => mret i
  | inr (it, err, g) =>
      r ← queue_future (validate force) addFutureBlock it err;
      match r with
      | inl (it, err) => mret (gathered it g err)
      | inr (it, err) =>
          m ← se_get;
          c ← se_lift (match g_lastCanon g with None => Ok None | Some _ => c ← deref (currentBlock m); Ok (Some c) end);
          let events :=
            match g_lastCanon g, (c : option MinorBlock) with
            | Some l, Some c => if bool_decide (Hash c = Hash l) then g_events g ++ [MinorChainHeadEvent l] else g_events g
            | _, _ => g_events g
            end in
          mret (mkInserted (it_index it) events (g_logs g) (g_xShardList g) err)
      end
  end.

(** ** Side chains on a parent without state *)

Definition side_result (index : Z) (err : option string) : Inserted := mkInserted index [] [] [] err.

Fixpoint side_loop (force : bool) (current : Z) (rest before : list MinorBlock) (block : MinorBlock)
    : Op (Inserted + insertIterator MinorBlock * option string * Z) :=
  let it := mkIter before (Some block) rest in
  m ← se_get;
  if bool_decide (NumberU64 block <= current) &&
     match GetBlockByNumber (NumberU64 block) m with
     | Some canonical => bool_decide (mm_root (mb_meta canonical) = mm_root (mb_meta block))
     | None => false
     end
  then mret (inl (side_result (it_index it) (Some "sidechain ghost-state attack"%string)))
  else
    _ ← (if mc_HasBlock (Hash block) m then mret tt else WriteBlockWithoutState block);
    match rest with
    | [] => mret (inr (mkIter (block :: before) None [], None, NumberU64 block))
    | b :: rest =>
        err ← validate force b;
        if bool_decide (err = Some "pruned ancestor"%string) then side_loop force current rest (block :: before) b
        else mret (inr (mkIter (block :: before) (Some b) rest, err, NumberU64 block))
    end.

(** The blocks without state below a block, highest first. *)
Fixpoint pruned_loop (fuel : nat) (parent : option MinorBlock) (m : Chain) (hashes : list Z) : result (option MinorBlock * list Z) :=
  match parent with
  | None => Ok (None, hashes)
  | Some p =>
      if HasState (mm_root (mb_meta p)) m then Ok (Some p, hashes)
      else
        match fuel with
        | O => no_fuel
        | S fuel => pruned_loop fuel (GetMinorBlock (ParentHash p) m) m (hashes ++ [Hash p])
        end
  end.

(** The blocks are imported in segments; [insert] imports one. *)
Fixpoint segments (insert : list MinorBlock → Op Inserted) (hashes : list Z) (blocks : list MinorBlock) (memory : Z) : Op Inserted :=
  match hashes with
  | [] => match blocks with [] => mret (side_result 0 None) | _ => insert blocks end
  | h :: hashes =>
      m ← se_get;
      block ← se_lift (deref (GetMinorBlock h m));
      let blocks := blocks ++ [block] in
      let memory := memory + GetSize block in
      if bool_decide (2048 <= length blocks)%nat || bool_decide (64 * 1024 * 1024 < memory) then
        r ← insert blocks;
        match i_err r with
        | Some e => mret (side_result 0 (Some e))
        | None =>
            m ← se_get;
            if procInterrupt m then mret (side_result 0 None) else segments insert hashes [] 0
        end
      else segments insert hashes blocks memory
  end.

Definition insertSidechain (fuel : nat) (insert : list MinorBlock → Op Inserted) (force : bool) (it : insertIterator MinorBlock) : Op Inserted :=
  m ← se_get;
  c ← se_lift (deref (currentBlock m));
  let current := NumberU64 c in
  match it_current it with
  | None => mret (side_result (it_index it) (Some "pruned ancestor"%string))
  | Some block =>
      r ← side_loop force current (it_rest it) (it_before it) block;
      match r with
      | inl i => mret i
      | inr (it, err, externHeight) =>
          if bool_decide (externHeight < current) then mret (side_result (it_index it) err)
          else
            m ← se_get;
            prev ← se_lift (deref (it_previous it));
            r ← se_lift (pruned_loop fuel (GetMinorBlock (Hash prev) m) m []);
            match r.1 with
            | None => mret (side_result (it_index it) (Some "missing parent"%string))
            | Some _ => segments insert (rev r.2) [] 0
            end
      end
  end.

(** ** insertChain

    [depth] bounds the nesting of side chains. *)
Fixpoint insertChain (depth fuel : nat) (chain : list MinorBlock) (force readOnly : bool) : Op Inserted :=
  let g := mkGathered [] [] None [] in
  m ← se_get;
  if procInterrupt m then mret (side_result 0 None)
  else
    n ← it_next (validate force) (mkIter [] None chain);
    let '(it, err) := (n : insertIterator MinorBlock * option string) in
    match it_current it, err with
    | Some block, Some e =>
        if bool_decide (e = "pruned ancestor"%string) then
          match depth with
          | O => se_lift no_fuel
          | S depth => insertSidechain fuel (fun blocks => insertChain depth fuel blocks force readOnly) force it
          end
        else if bool_decide (e = "block in the future"%string) ||
          (bool_decide (e = "unknown ancestor"%string) &&
           match lru_get (futureBlocks m) (ParentHash block) with Some _ => true | None => false end)
        then
          n ← queue_loop (validate force) addFutureBlock true (it_rest it) (it_before it) block err;
          let '(it, err) := (n : insertIterator MinorBlock * option string) in mret (gathered it g err)
        else if bool_decide (e = "block already known"%string) then
          c ← se_lift (deref (currentBlock m));
          n ← skip_known (validate force) (NumberU64 c) (it_rest it) (it_before it) block;
          import_from fuel force readOnly (n : insertIterator MinorBlock * option string).1 n.2 g
        else mret (gathered it g err)
    | _, _ => import_from fuel force readOnly it err g
    end.

(** PostChainEvents; of its feeds, only the one of logs is kept. *)
Definition PostChainEvents (logs : list Log) : Op unit :=
  match logs with [] => mret tt | _ => send ([logs], false) end.

Definition InsertChainForDeposits (depth fuel : nat) (chain : list MinorBlock) (force : bool) : Op (Z * list (list Deposit) * option string) :=
  match chain with
  | [] => mret (0, [], None)
  | _ =>
      if negb (contiguous chain) then mret (0, [], Some "non contiguous insert"%string)
      else
        r ← insertChain depth fuel chain force false;
        _ ← PostChainEvents (i_logs r);
        mret (i_index r, i_xShardList r, i_err r)
  end.
Definition InsertChain (depth fuel : nat) (chain : list MinorBlock) (force : bool) : Op (Z * option string) :=
  r ← InsertChainForDeposits depth fuel chain force;
  let '(n, _, err) := (r : Z * list (list Deposit) * option string) in mret (n, err).
Definition CheckMinorBlock (depth fuel : nat) (chain : list MinorBlock) : Op (option string) :=
  match chain with
  | [] => mret None
  | _ => r ← insertChain depth fuel chain true true; mret (i_err r)
  end.
End insert.
