(* ===== verification/MinorRoot.v ===== *)
(** * core: root blocks in a shard

    Models how the chain of a shard follows the root chain
    (src/core/minorblockchain_addon.go): a root block confirms blocks of the
    shard, moves the root tip when its chain is heavier, and the head of the
    shard with it; the chain is set up for a genesis root block or from a root
    block; the headers that no root block has confirmed are offered to the
    master. *)

From S2P Require Import Prelude Utils StateDB Account Transaction Blocks BlockTree XShardCursor Lru Receipts RawDb Engine.
From S2P Require Import ChainInsert MinorChain MinorValidator MinorInsert.

Local Open Scope Z_scope.

Section root.
Context {St T Q CR CF : Type} `{TrieDb T Q} `{AccountState St T} `{Lru (list Receipt) CR} `{Lru MinorBlock CF} `{ShardEnv}.
Context `{!@Execution St T Q CR CF}.

Abbreviation Chain := (@MinorBlockChain St T Q CR CF).
Abbreviation Op := (SE Chain).

Definition getMaxBlocksInOneRootBlock : Z := MaxBlocksPerShardInOneRootBlock config.

Definition isNeighbor (remoteBranch : Branch) (rootHeight : option Z) (m : Chain) : result bool :=
  h ← match rootHeight with Some h => Ok h | None => t ← deref (rootTip m); Ok (NumberU64 t) end;
  Ok (IsNeighbor (c_branch config) remoteBranch (u32 (shardCount config h))).

(** ** The headers of a root block: those of this shard, once the others are found in order *)
Fixpoint own_headers (headers : list MinorBlockHeader) (m : Chain) : result (list MinorBlockHeader) :=
  match headers with
  | [] => Ok []
  | mHeader :: headers =>
      if Account.Value (mh_branch mHeader) =? Account.Value (c_branch config) then
        if negb (mc_HasBlock (mh_hash mHeader) m) then Err "minor block is nil"
        else l ← own_headers headers m; Ok (mHeader :: l)
      else
        local ← match mc_GetRootBlockByHash (PrevRootBlockHash mHeader) m with
                | None => Ok false
                | Some r =>
                    if NumberU64 r =? u32 (c_genesisRootHeight config) then Ok false
                    else isNeighbor (mh_branch mHeader) (Some (NumberU64 r)) m
                end;
        match db_ReadCrossShardTxList (mh_hash mHeader) (db m) with
        | Some _ => if (local : bool) then own_headers headers m else Err "already have"
        | None => if (local : bool) then Err "not have" else own_headers headers m
        end
  end.

(** The last header of this shard that the root block or its parent confirms. *)
Definition confirmed_header (rBlock : RootBlock) (shardHeaders : list MinorBlockHeader) (m : Chain)
    : result (option MinorBlockHeader) :=
  let lastMinor := getLastConfirmedMinorBlockHeaderAtRootBlock (ParentHash rBlock) m in
  match shardHeaders with
  | [] => Ok (mb_header <$> lastMinor)
  | h :: _ =>
      linked ← (if mh_number h =? 0 then Ok true
                else l ← deref lastMinor; Ok (bool_decide (mh_parent h = Hash l)));
      if (linked : bool) then Ok (last shardHeaders) else Err "master should assure this check will not fail"
  end.

(** ** Moving back to a block on the chain of the root tip *)

(** The ancestor of a root block at a height. *)
Fixpoint genesis_root (fuel : nat) (r : RootBlock) (height : Z) (m : Chain) : result RootBlock :=
  if NumberU64 r =? height then Ok r
  else
    match mc_GetRootBlockByHash (ParentHash r) m with
    | None => Err "minor block is nil"
    | Some p => match fuel with O => no_fuel | S fuel => genesis_root fuel p height m end
    end.
Definition reset_genesis (depth fuel : nat) : Op unit :=
  m ← se_get;
  tip ← se_lift (deref (rootTip m));
  let height := u32 (c_genesisRootHeight config) in
  if bool_decide (NumberU64 tip < height) then se_err "genesis root height small than config"
  else
    g ← se_lift (genesis_root fuel tip height m);
    match ReadGenesis (Hash g) (db m) with
    | None => se_panic "get genesis block is nil"
    | Some newGenesis => setHeadToGenesisBlock depth fuel newGenesis
    end.

(** The loop over the head's ancestors; true when the chain was reset to a
    genesis block. *)
Fixpoint retreat (depth fuel0 fuel : nat) : Op bool :=
  m ← se_get;
  c ← se_lift (deref (currentBlock m));
  same ← se_lift (isSameRootChain (rootTip m) (mc_GetRootBlockByHash (PrevRootBlockHash (mb_header c)) m) m);
  if (same : bool) then mret false
  else if NumberU64 c =? 0 then _ ← reset_genesis depth fuel0; mret true
  else
    match fuel with
    | O => se_lift no_fuel
    | S fuel =>
        preBlock ← se_lift (deref (GetMinorBlock (ParentHash c) m));
        _ ← store_current (Some preBlock);
        retreat depth fuel0 fuel
    end.

(** ** AddRootBlock *)

(** The checks and the storing of the root block. *)
Definition store_root (rBlock : RootBlock) : Op (option MinorBlockHeader) :=
  m ← se_get;
  shardHeaders ← se_lift (own_headers (MinorBlockHeaders rBlock) m);
  if bool_decide (getMaxBlocksInOneRootBlock < Z.of_nat (length shardHeaders)) then se_err "shardHeaders big than config"
  else
    shardHeader ← se_lift (confirmed_header rBlock shardHeaders m);
    _ ← putRootBlock rBlock shardHeader;
    m ← se_get;
    match shardHeader with
    | None => mret None
    | Some h =>
        same ← se_lift (isSameRootChain (Some rBlock) (mc_GetRootBlockByHash (PrevRootBlockHash h) m) m);
        if (same : bool) then mret (Some h) else se_err "is not same root chain"
    end.

(** The new root tip and the head that follows it. *)
Definition switch_root (depth fuel : nat) (rBlock : RootBlock) (shardHeader : option MinorBlockHeader) : Op bool :=
  _ ← se_mod (set_rootTip (Some rBlock));
  m ← se_get;
  _ ← se_mod (set_confirmedHeaderTip (h ← shardHeader; GetMinorBlock (mh_hash h) m));
  origHeaderTip ← se_lift (deref (currentBlock m));
  _ ← match shardHeader with
      | None => mret tt
      | Some h =>
          let stays := match GetBlockByNumber (mh_number h) m with Some b => bool_decide (Hash b = mh_hash h) | None => false end in
          match GetMinorBlock (mh_hash h) m with
          | Some newTip => if (stays : bool) then mret tt else store_current (Some newTip)
          | None => mret tt
          end
      end;
  reset ← retreat depth fuel fuel;
  if (reset : bool) then mret true
  else
    m ← se_get;
    c ← se_lift (deref (currentBlock m));
    if bool_decide (Hash c = Hash origHeaderTip) then mret true
    else
      origBlock ← se_lift (deref (GetMinorBlock (Hash origHeaderTip) m));
      newBlock ← se_lift (deref (GetMinorBlock (Hash c) m));
      _ ← reWriteBlockIndexTo fuel (Some origBlock) newBlock;
      mret true.

Definition AddRootBlock (depth fuel : nat) (rBlock : RootBlock) : Op bool :=
  m ← se_get;
  if bool_decide (NumberU64 rBlock <= u32 (c_genesisRootHeight config)) then se_err "rBlock is small than config"
  else if negb (rb_version rBlock =? 0) then se_err "incorrect root block version"
  else
    match mc_GetRootBlockByHash (Hash rBlock) m with
    | Some _ => mret false
    | None =>
        match mc_GetRootBlockByHash (ParentHash rBlock) m with
        | None => se_err "root block is nil"
        | Some _ =>
            shardHeader ← store_root rBlock;
            m ← se_get;
            curRootTip ← se_lift (deref (rootTip m));
            if bool_decide (rb_totalDifficulty rBlock <= rb_totalDifficulty curRootTip) then
              c ← se_lift (deref (currentBlock m));
              same ← se_lift (isSameRootChain (Some curRootTip) (mc_GetRootBlockByHash (PrevRootBlockHash (mb_header c)) m) m);
              if (same : bool) then mret false else se_err "is not same root chain"
            else switch_root depth fuel rBlock shardHeader
        end
    end.

(** ** Setting up the chain *)

Definition InitGenesisState (rBlock : RootBlock) : Op MinorBlock :=
  m ← se_get;
  gBlock ← (if bool_decide (PrevRootBlockHash (mb_header (genesisBlock m)) = Hash rBlock) then mret (genesisBlock m)
            else
              let '(r, t) := CreateMinorBlock rBlock (tries m) in
              _ ← se_mod (set_tries t);
              se_lift r);
  if negb (NumberU64 rBlock =? c_genesisRootHeight config) then se_err "header number not match"
  else
    _ ← putMinorBlock gBlock [];
    _ ← putRootBlock rBlock None;
    _ ← on_db (WriteGenesisBlock (Hash rBlock) gBlock);
    m ← se_get;
    if initialized m then mret gBlock
    else
      _ ← se_mod (fun m => set_confirmedHeaderTip None (set_rootTip (Some rBlock) m));
      m ← se_get;
      match StateAt (mm_root (mb_meta gBlock)) m with
      | Panic e => se_panic e
      | Err e => _ ← se_mod (set_currentEvmState None); se_err e
      | Ok st =>
          _ ← se_mod (fun m => set_initialized true (set_currentEvmState (Some st) m));
          mret gBlock
      end.

(** Stopping: imports are interrupted and recent states are written. *)
Fixpoint dereference_all (fuel : nat) (m : Chain) : Chain :=
  match fuel, prque_Pop (triegc m) with
  | S fuel, Some (root, _, q) => dereference_all fuel (set_triegc q (set_tries (trie_Dereference root (tries m)) m))
  | _, _ => m
  end.
Definition Stop (fuel : nat) : Op unit :=
  m ← se_get;
  if procInterrupt m then mret tt
  else
    _ ← se_mod (set_procInterrupt true);
    if NoPruning config then mret tt
    else
      c ← se_lift (deref (currentBlock m));
      let commit offset m :=
        if bool_decide (offset < NumberU64 c) then
          match GetBlockByNumber (NumberU64 c - offset) m with
          | None => m
          | Some recent => set_tries (trie_Commit (mm_root (mb_meta recent)) (tries m)).2 m
          end
        else m in
      _ ← se_mod (fun m => commit (triesInMemory - 1) (commit 1 (commit 0 m)));
      se_mod (dereference_all fuel).

(** The blocks without a state down to one with a state are imported again. *)
Fixpoint stateless (fuel : nat) (block : MinorBlock) (m : Chain) (acc : list MinorBlock) : result (list MinorBlock) :=
  match StateAt (mm_root (mb_meta block)) m with
  | Panic e => Panic e
  | Ok _ => Ok acc
  | Err _ =>
      match GetMinorBlock (ParentHash block) m with
      | None => Err "missing parent block %x for child %d (%x)"
      | Some p => match fuel with O => no_fuel | S fuel => stateless fuel p m (block :: acc) end
      end
  end.
Definition reRunBlockWithState (depth fuel : nat) (block : MinorBlock) : Op unit :=
  m ← se_get;
  blocks ← se_lift (stateless fuel block m []);
  r ← InsertChain depth fuel blocks false;
  match (r : Z * option string).2 with None => mret tt | Some e => se_err e end.

Definition InitFromRootBlock (depth fuel : nat) (rBlock : RootBlock) : Op unit :=
  if bool_decide (NumberU64 rBlock <= u32 (c_genesisRootHeight config)) then se_err "rootBlock height small than config's height"
  else
    _ ← se_mod (set_initialized true);
    m ← se_get;
    confirmedHeaderTip ←
      match getLastConfirmedMinorBlockHeaderAtRootBlock (Hash rBlock) m, mc_GetRootBlockByHash (Hash rBlock) m with
      | Some c, Some _ => mret (Some c)
      | _, _ =>
          _ ← se_mod (set_rootTip (mc_GetRootBlockByHash (ParentHash rBlock) m));
          r ← se_try (AddRootBlock depth fuel rBlock);
          match r with
          | inr e => _ ← Stop fuel; se_err e
          | inl _ => m ← se_get; mret (getLastConfirmedMinorBlockHeaderAtRootBlock (Hash rBlock) m)
          end
      end;
    m ← se_get;
    headerTip ← match (confirmedHeaderTip : option MinorBlock) with
                | Some t => mret t
                | None => se_lift (deref (GetBlockByNumber 0 m))
                end;
    _ ← se_mod (fun m => set_confirmedHeaderTip confirmedHeaderTip (set_rootTip (Some rBlock) m));
    match ReadMinorBlock (Hash headerTip) (db m) with
    | None => se_err "minor block is nil"
    | Some block =>
        m ← se_get;
        _ ← match StateAt (mm_root (mb_meta block)) m with
            | Panic e => se_panic e
            | Ok _ => mret tt
            | Err _ =>
                c ← se_lift (deref (currentBlock m));
                _ ← reRunBlockWithState depth fuel c;
                reRunBlockWithState depth fuel block
            end;
        reWriteBlockIndexTo fuel None block
    end.

(** ** The headers to be confirmed *)

Definition checkEqual (a b : option MinorBlock) : bool :=
  match a, b with
  | None, None => true
  | Some a, Some b => bool_decide (Hash a = Hash b)
  | _, _ => false
  end.

(** [n] headers down from a block; a missing block is read as a nil pointer. *)
Fixpoint unconfirmed_loop (n : nat) (block : option MinorBlock) (m : Chain) (acc : list MinorBlockHeader)
    : result (option MinorBlock * list MinorBlockHeader) :=
  match n with
  | O => Ok (block, acc)
  | S n =>
      b ← deref block;
      unconfirmed_loop n (GetMinorBlock (ParentHash b) m) m (mb_header b :: acc)
  end.
Definition getAllUnconfirmedHeaderList (m : Chain) : result (option (list MinorBlockHeader)) :=
  block ← deref (currentBlock m);
  c ← match confirmedHeaderTip m with
      | None => Ok (None, -1)
      | Some t => c ← deref (GetMinorBlock (Hash t) m); Ok (Some c, i64 (NumberU64 c))
      end;
  let '(confirmedTip, startHeight) := (c : option MinorBlock * Z) in
  let allHeight := Z.max 0 (i64 (i64 (NumberU64 block) - startHeight)) in
  r ← unconfirmed_loop (Z.to_nat allHeight) (Some block) m [];
  Ok (if checkEqual r.1 confirmedTip then Some r.2 else None).
Definition GetUnconfirmedHeaderList (m : Chain) : result (option (list MinorBlockHeader)) :=
  headers ← getAllUnconfirmedHeaderList m;
  let n := Z.of_nat (length (default [] headers)) in
  if bool_decide (n < getMaxBlocksInOneRootBlock) then Ok headers
  else Ok (take (Z.to_nat getMaxBlocksInOneRootBlock) <$> headers).
End root.
