(* ===== verification/MinorChainCorrect.v ===== *)
(** * core: correctness of the chain of a shard

    What MinorChain.v, MinorInsert.v and MinorRoot.v keep true of a chain.  The
    facts are about its core: the blocks it stores, the canonical index, the
    head, the root tip and the last confirmed block. *)

From S2P Require Import Prelude Wp Utils StateDB Account Transaction Blocks BlockTree XShardCursor Lru Receipts RawDb Engine.
From S2P Require Import ChainInsert MinorChain MinorValidator MinorInsert MinorRoot.

Local Open Scope Z_scope.

(** ** The core of a chain *)

Record DbCore := mkDbCore {
  k_blocks : gmap Z (MinorBlock + RootBlock);
  k_canon : gmap Z Z;
  k_headHash : Z;
  k_lastConfirmed : gmap Z Z;
}.
Record Core := mkCore {
  k_db : DbCore;
  k_current : option MinorBlock;
  k_rootTip : option RootBlock;
  k_confirmed : option MinorBlock;
}.
Definition db_core (d : Db) : DbCore := mkDbCore (d_blocks d) (d_canonical d) (d_headBlock d) (d_lastConfirmed d).

Definition minor_of (bl : gmap Z (MinorBlock + RootBlock)) (h : Z) : option MinorBlock :=
  match bl !! h with Some (inl b) => Some b | _ => None end.
Definition root_of (bl : gmap Z (MinorBlock + RootBlock)) (h : Z) : option RootBlock :=
  match bl !! h with Some (inr b) => Some b | _ => None end.

(** ** Batches *)

(** What a batch does to the core of a database: it changes the canonical index only. *)
Definition effect (b : Batch) (f : gmap Z Z → gmap Z Z) : Prop :=
  ∀ d, db_core (batch_Write b d)
     = mkDbCore (d_blocks d) (f (d_canonical d)) (d_headBlock d) (d_lastConfirmed d).

Lemma effect_nil : effect [] id.
Proof. done. Qed.
Lemma effect_snoc b f g h :
  effect b g → (∀ d, db_core (f d) = mkDbCore (d_blocks d) (h (d_canonical d)) (d_headBlock d) (d_lastConfirmed d)) →
  effect (b ++ [f]) (fun c => h (g c)).
Proof.
  intros Hb Hf d. unfold batch_Write. rewrite foldl_app. cbn [foldl]. rewrite Hf.
  specialize (Hb d). unfold batch_Write in Hb. injection Hb as -> -> -> ->. done.
Qed.

Definition b_inv (k : DbCore) (f : gmap Z Z → gmap Z Z) (s : Db * Batch) : Prop := db_core s.1 = k ∧ effect s.2 f.

Lemma to_db_keeps k f g : (∀ d, db_core (g d) = db_core d) → keeps (b_inv k f) (to_db g).
Proof. intros Hg [d b] [Hd Hb]. change (b_inv k f (g d, b)). split; cbn [fst snd]; [by rewrite Hg|done]. Qed.
Lemma to_batch_keeps k f g : (∀ d, db_core (g d) = db_core d) → keeps (b_inv k f) (to_batch g).
Proof. 
  intros Hg [d b] [Hd Hb]. change (b_inv k f (d, b ++ [g])). split; [done|]. cbn [fst snd] in *.
  apply (effect_snoc _ _ f id); [done|]. intros d'. by rewrite Hg.
Qed.
Lemma history_core f d : db_core (on_history f d) = db_core d.
Proof. done. Qed.
Lemma delete_entries_core hs d : db_core (foldl (fun d h => DeleteBlockContentLookupEntry h d) d hs) = db_core d.
Proof. revert d. induction hs as [|h hs IH]; intros d; [done|]. cbn. by rewrite IH. Qed.
#[export] Hint Resolve to_db_keeps to_batch_keeps history_core delete_entries_core : keeps.

Section correct.
Context {St T Q CR CF : Type} `{TrieDb T Q} `{AccountState St T} `{Lru (list Receipt) CR} `{Lru MinorBlock CF} `{ShardEnv}.
Context `{!@Execution St T Q CR CF}.

Abbreviation Chain := (@MinorBlockChain St T Q CR CF).

Definition core (m : Chain) : Core := mkCore (db_core (db m)) (currentBlock m) (rootTip m) (confirmedHeaderTip m).
(** A fact about the core of a chain. *)
Abbreviation at_core k := (fun m : Chain => core m = k).

(** ** Operations that leave the core alone *)

Lemma history_keeps k f (g : option Z * Z * bool * Z → Db → Db) tx h i :
  (∀ key d, db_core (g key d) = db_core d) → keeps (b_inv k f) (updateTxHistoryIndex g tx h i).
Proof. intros Hg. unfold updateTxHistoryIndex. keeps. Qed.
Lemma deposits_keeps k f (g : option Z * Z * bool * Z → Db → Db) h i l :
  (∀ key d, db_core (g key d) = db_core d) → keeps (b_inv k f) (deposit_index_loop g h i l).
Proof. intros Hg. revert i. induction l as [|d l IH]; intros i; cbn [deposit_index_loop]; keeps. Qed.
Lemma block_history_keeps k f (g : option Z * Z * bool * Z → Db → Db) b :
  (∀ key d, db_core (g key d) = db_core d) → keeps (b_inv k f) (updateTxHistoryIndexFromBlock g b).
Proof. intros Hg. pose proof (deposits_keeps k f g). unfold updateTxHistoryIndexFromBlock. keeps. Qed.
Lemma tx_loop_keeps (P : Db * Batch → Prop) op i l : (∀ tx i, keeps P (op tx i)) → keeps P (tx_index_loop op i l).
Proof. intros Hop. revert i. induction l as [|tx l IH]; intros i; cbn [tx_index_loop]; keeps. Qed.

Lemma removeTxIndex_keeps k f b : keeps (b_inv k f) (removeTxIndexFromBlock b).
Proof.
  unfold removeTxIndexFromBlock. apply keeps_bind.
  - apply tx_loop_keeps. intros tx i. keeps. by apply history_keeps.
  - intros _. keeps. by apply block_history_keeps.
Qed.
Lemma putTxIndex_keeps k f put b :
  (∀ g, (∀ d, db_core (g d) = db_core d) → keeps (b_inv k f) (put g)) → keeps (b_inv k f) (putTxIndexFromBlock put b).
Proof.
  intros Hput. unfold putTxIndexFromBlock. keeps.
  - apply tx_loop_keeps. intros tx i. by apply history_keeps.
  - by apply block_history_keeps.
Qed.

Lemma on_db_keeps k f : (∀ d, db_core (f d) = db_core d) → keeps (at_core k) (on_db f).
Proof.
  intros Hf m Hm. change (core (set_db (f (db m)) m) = k). rewrite <- Hm. unfold core. cbn [db set_db]. by rewrite Hf.
Qed.
Lemma core_mod_keeps k (g : Chain → Chain) : (∀ m, core (g m) = core m) → keeps (at_core k) (se_mod g).
Proof. intros Hg m Hm. change (core (g m) = k). by rewrite Hg. Qed.

Lemma with_batch_wp {A} (op : SE (Db * Batch) A) b (m : Chain) Q0 E0 :
  wp op (fun a s => Q0 (a, s.2) (set_db s.1 m)) (fun e s => E0 e (set_db s.1 m)) (db m, b) →
  wp (with_batch op b) Q0 E0 m.
Proof. unfold wp, with_batch. destruct (op (db m, b)) as [[a|e|e] [d b']]; done. Qed.
Lemma set_db_core d (m : Chain) : db_core d = db_core (db m) → core (set_db d m) = core m.
Proof. intros Hd. unfold core. cbn [db set_db]. by rewrite Hd. Qed.

Lemma with_batch_core {A} (op : SE (Db * Batch) A) b f m :
  (∀ k, keeps (b_inv k f) op) → effect b f →
  wp (with_batch op b) (fun r m' => core m' = core m ∧ effect r.2 f) (fun _ m' => core m' = core m) m.
Proof.
  intros Hop Hb. apply with_batch_wp. eapply wp_keeps; [apply (Hop (db_core (db m)))|done| |].
  - intros a s [Hs Hf]. split; [by apply set_db_core|done].
  - intros e s [Hs Hf]. by apply set_db_core.
Qed.

Lemma receipts_keeps k h : keeps (at_core k) (GetReceiptsByHash h).
Proof.
  intros m Hm. unfold wp, GetReceiptsByHash. destruct (lru_get _ _); [done|]. by destruct (GetMinorBlock h m).
Qed.
Lemma logs_keeps k h : keeps (at_core k) (GetLogs h).
Proof. pose proof (receipts_keeps k). unfold GetLogs. keeps. Qed.
Lemma send_keeps k e : keeps (at_core k) (send e).
Proof. by apply core_mod_keeps. Qed.
Lemma announce_keeps k r l : keeps (at_core k) (announce r l).
Proof.
  pose proof (logs_keeps k). pose proof (send_keeps k).
  induction l as [|b l IH]; cbn [announce foldr]; [apply keeps_ret|].
  apply keeps_bind; [keeps|intros _; exact IH].
Qed.

Lemma collect_core fuel c (m : Chain) : core (collect_loop fuel c m) = core m.
Proof.
  revert m. induction fuel as [|fuel IH]; intros m; [done|]. cbn [collect_loop].
  destruct (prque_Pop (triegc m)) as [[[root number] q]|]; [|done]. case_bool_decide; [done|]. by rewrite IH.
Qed.
Lemma keep_tries_keeps k fuel b root : keeps (at_core k) (keep_tries fuel b root).
Proof.
  assert (∀ g, (∀ m : Chain, core (g m) = core m) → keeps (at_core k) (se_mod g)) by (intros; by apply core_mod_keeps).
  assert (∀ fuel c, keeps (at_core k) (se_mod (collect_loop fuel c)))
    by (intros; apply core_mod_keeps; intros; apply collect_core).
  unfold keep_tries. keeps; done.
Qed.

(** ** Operations that move the head *)

(** The core with another head and index. *)
Definition moved (k : Core) (b : MinorBlock) (canon : gmap Z Z) : Core :=
  mkCore (mkDbCore (k_blocks (k_db k)) canon (Hash b) (k_lastConfirmed (k_db k))) (Some b) (k_rootTip k) (k_confirmed k).

Lemma chain_insert_core b (m : Chain) :
  chain_insert b m = (Ok tt, (chain_insert b m).2) ∧
  core (chain_insert b m).2 = moved (core m) b (<[NumberU64 b := Hash b]> (k_canon (k_db (core m)))).
Proof. done. Qed.

Definition with_canon (k : Core) (canon : gmap Z Z) : Core :=
  mkCore (mkDbCore (k_blocks (k_db k)) canon (k_headHash (k_db k)) (k_lastConfirmed (k_db k))) (k_current k)
    (k_rootTip k) (k_confirmed k).

Lemma remove_old_core l m :
  wp (with_batch (remove_old l) [])
    (fun r m' => core m' = core m ∧ effect r.2 (erase_chain l)) (fun _ m' => core m' = core m) m.
Proof.
  assert (∀ k, ∀ s, db_core s.1 = k ∧ s.2 = [] →
    wp (remove_old l) (fun _ => b_inv k (erase_chain l)) (fun _ s' => db_core s'.1 = k) s) as Hr.
  { intros k. induction l as [|b l IH]; intros s [Hs1 Hs2].
    - destruct s as [d b]. cbn [snd] in Hs2. subst b. change (b_inv k (erase_chain []) (d, [])). by split.
    - cbn [remove_old for_each foldr]. apply wp_bind.
      eapply wp_conseq; [by apply IH| |done]. intros ? s' Hs'. apply wp_bind.
      eapply wp_conseq; [by apply (removeTxIndex_keeps k (erase_chain l))| |by intros ? ? []]. intros ? [d b'] [Hd Hb].
      change (b_inv k (erase_chain (b :: l)) (d, b' ++ [DeleteCanonicalHash ChainTypeMinor (NumberU64 b)])).
      split; [done|]. by apply (effect_snoc _ _ (erase_chain l) (delete (NumberU64 b))). }
  apply with_batch_wp. eapply wp_conseq; [by apply (Hr (db_core (db m)))| |].
  - intros a s [Hs Hf]. split; [by apply set_db_core|done].
  - intros e s Hs. by apply set_db_core.
Qed.

Lemma batch_write_core b f (m : Chain) : effect b f →
  core (set_db (batch_Write b (db m)) m) = with_canon (core m) (f (k_canon (k_db (core m)))).
Proof. intros Hb. unfold core, with_canon. cbn [db set_db currentBlock rootTip confirmedHeaderTip]. by rewrite (Hb (db m)). Qed.

(** Inserting a list of blocks, lowest first: an error leaves the head at one of
    them. *)
Lemma insert_new_core l m :
  l ≠ [] →
  let k := core m in
  wp (insert_new l) (fun _ m' => ∃ b, head l = Some b ∧ core m' = moved k b (write_chain l (k_canon (k_db k))))
    (fun _ m' => ∃ l' b, l' `suffix_of` l ∧ head l' = Some b ∧ core m' = moved k b (write_chain l' (k_canon (k_db k)))) m.
Proof.
  assert (∀ k b, keeps (at_core k) (with_batch (putTxIndexFromBlock to_db b) [])) as Hput.
  { intros k b m' Hm'. eapply wp_conseq; [apply (with_batch_core _ _ id)| |].
    - intros k'. apply putTxIndex_keeps. intros g Hg. by apply to_db_keeps.
    - apply effect_nil.
    - intros r m'' [E _]. by rewrite E.
    - intros e m'' E. by rewrite E. }
  induction l as [|b l IH]; intros Hl k; [done|]. cbn [insert_new for_each foldr].
  apply wp_bind. destruct (decide (l = [])) as [->|Hl'].
  - apply wp_ret. apply wp_bind. unfold wp at 1. rewrite (proj1 (chain_insert_core b m)).
    set (m1 := (chain_insert b m).2). pose proof (proj2 (chain_insert_core b m)) as Hm1. fold m1 in Hm1.
    apply wp_bind. eapply wp_keeps; [apply (Hput (core m1))|done| |].
    + intros [] m2 Hm2. apply wp_ret. exists b. split; [done|]. by rewrite Hm2, Hm1.
    + intros e m2 Hm2. exists [b], b. split_and!; [done|done|by rewrite Hm2, Hm1].
  - eapply wp_conseq; [by apply IH| |].
    + intros ? m0 (b0 & Hb0 & Hm0). apply wp_bind. unfold wp at 1. rewrite (proj1 (chain_insert_core b m0)).
      set (m1 := (chain_insert b m0).2). pose proof (proj2 (chain_insert_core b m0)) as Hm1. fold m1 in Hm1.
      rewrite Hm0 in Hm1. apply wp_bind. eapply wp_keeps; [apply (Hput (core m1))|done| |].
      * intros [] m2 Hm2. apply wp_ret. exists b. split; [done|]. by rewrite Hm2, Hm1.
      * intros e m2 Hm2. exists (b :: l), b. split_and!; [done|done|by rewrite Hm2, Hm1].
    + intros e m' (l' & b' & Hs & Hb' & Hm'). exists l', b'. split_and!; [|done|done]. by apply suffix_cons_r.
Qed.

(** ** The shape of a chain *)

(** The blocks that exist, by their hash: a hash determines its block.  Root
    blocks come from the master, which has checked their numbers.  The fuel of
    the operations exceeds the number of every block. *)
Context (block_of : Z → option (MinorBlock + RootBlock)) (fuel : nat).
Record hashes_ok : Prop := {
  g_zero : block_of 0 = None;
  g_minor h b : block_of h = Some (inl b) → Hash b = h ∧ 0 <= NumberU64 b < 2 ^ 63 - 1 ∧ (Z.to_nat (NumberU64 b) < fuel)%nat;
  g_root h r : block_of h = Some (inr r) → Hash r = h ∧ 0 <= NumberU64 r < 2 ^ 32;
  g_genesis h b : block_of h = Some (inl b) → NumberU64 b = 0 → block_of (ParentHash b) = None;
  g_root_link h r p : block_of h = Some (inr r) → block_of (ParentHash r) = Some (inr p) → NumberU64 r = NumberU64 p + 1;
}.
Context (Hg : hashes_ok).

(** Every stored block has all its ancestors stored, and the canonical index is
    the chain of the head: its ancestor at each height, and nothing above. *)
Record stored_ok (bl : gmap Z (MinorBlock + RootBlock)) : Prop := {
  s_genuine h x : bl !! h = Some x → block_of h = Some x;
  s_link h b p : minor_of bl h = Some b → minor_of bl (ParentHash b) = Some p → NumberU64 b = NumberU64 p + 1;
  s_rooted h b : minor_of bl h = Some b → is_Some (up (minor_of bl) (Z.to_nat (NumberU64 b)) b);
}.
Record indexed (d : DbCore) (c : MinorBlock) : Prop := {
  h_stored : minor_of (k_blocks d) (Hash c) = Some c;
  h_canon : canonical_upto (minor_of (k_blocks d)) (k_canon d) c;
  h_above : nothing_above (k_canon d) c;
}.
Record head_ok (k : Core) (c : MinorBlock) : Prop := {
  h_current : k_current k = Some c;
  h_index :> indexed (k_db k) c;
  h_hash : k_headHash (k_db k) = Hash c;
}.
Definition shape (k : Core) : Prop := stored_ok (k_blocks (k_db k)) ∧ ∃ c, head_ok k c.
Definition chain_ok (m : Chain) : Prop := shape (core m).

Lemma stored_block bl h b : stored_ok bl → minor_of bl h = Some b → bl !! h = Some (inl b) ∧ block_of h = Some (inl b).
Proof.
  intros Hs Hb. unfold minor_of in Hb. destruct (bl !! h) as [[b'|r]|] eqn:E; [|done..]. injection Hb as ->.
  split; [done|]. by apply (s_genuine _ Hs).
Qed.
Lemma stored_tree bl : stored_ok bl → tree_ok (minor_of bl).
Proof.
  intros Hs. constructor.
  - intros h b Hb. apply (g_minor Hg h). by eapply stored_block.
  - unfold minor_of. destruct (bl !! 0) eqn:E; [|done]. apply (s_genuine _ Hs) in E. by rewrite (g_zero Hg) in E.
  - intros h b Hb. apply stored_block in Hb as [_ Hb]; [|done]. apply (g_minor Hg h) in Hb. lia.
  - apply (s_link _ Hs).
Qed.
Lemma stored_rooted bl h b : stored_ok bl → minor_of bl h = Some b → rooted (minor_of bl) b.
Proof.
  intros Hs Hb. pose proof (t_hash _ (stored_tree _ Hs) _ _ Hb) as E. split; [by rewrite E|by apply (s_rooted _ Hs h)].
Qed.
Lemma stored_fuel bl h b : stored_ok bl → minor_of bl h = Some b → (Z.to_nat (NumberU64 b) < fuel)%nat.
Proof. intros Hs Hb. apply (g_minor Hg h). by eapply stored_block. Qed.

(** A moved head with its index is a head. *)
Lemma moved_head k b canon : minor_of (k_blocks (k_db k)) (Hash b) = Some b →
  canonical_upto (minor_of (k_blocks (k_db k))) canon b → nothing_above canon b → head_ok (moved k b canon) b.
Proof. intros Hb Hc Hn. constructor; [done| |done]. by constructor. Qed.

(** ** Reorganisation *)

Lemma reorg_tail_keeps k logs oldChain newChain :
  keeps (at_core k)
    (_ ← (if bool_decide (0 < length logs)%nat then send ([logs], true) else mret tt);
     _ ← announce true oldChain; announce false newChain).
Proof. pose proof (announce_keeps k). pose proof (send_keeps k). keeps. Qed.

Lemma reorg_core a b m :
  stored_ok (k_blocks (k_db (core m))) → indexed (k_db (core m)) a → minor_of (k_blocks (k_db (core m))) (Hash b) = Some b →
  wp (reorg fuel (Some a) (Some b))
    (fun _ m' => ∃ canon, core m' = moved (core m) b canon ∧ head_ok (core m') b)
    (fun _ m' => core m' = core m ∨ ∃ k b' canon, up (minor_of (k_blocks (k_db (core m)))) k b = Some b' ∧
       core m' = moved (core m) b' canon ∧ head_ok (core m') b') m.
Proof.
  intros Hs Ha Hb. set (bl := k_blocks (k_db (core m))) in *. pose proof (stored_tree _ Hs) as Ht.
  pose proof (stored_rooted _ _ _ Hs (h_stored _ _ Ha)) as Hra. pose proof (stored_rooted _ _ _ Hs Hb) as Hrb.
  destruct (fork_point_spec (minor_of bl) Ht true fuel a b (or_introl eq_refl) Hra Hrb) as (i & j & x & Hf & Hp & Hx);
    [by eapply stored_fuel; [|apply Ha]|by eapply stored_fuel|].
  cbn [reorg]. apply wp_bind, wp_get, wp_bind.
  change (fun h => GetMinorBlock h m) with (minor_of bl). rewrite Hf. apply wp_lift; [|done]. intros r [= <-]. cbn beta iota zeta.
  destruct (switch_canonical (minor_of bl) Ht (k_canon (k_db (core m))) a b i j Hra Hrb Hp (h_canon _ _ Ha) (h_above _ _ Ha))
    as [Hcan Hno].
  set (er := erase_chain (below (minor_of bl) i a) (k_canon (k_db (core m)))) in *.
  apply wp_bind. eapply wp_conseq; [apply remove_old_core| |by left]. intros [[] batch] m1 [Hm1 He]. cbn [snd] in *.
  apply wp_bind, wp_mod. set (m2 := set_db _ m1).
  assert (Hm2 : core m2 = with_canon (core m) er) by (subst m2; rewrite (batch_write_core _ _ _ He), Hm1; done).
  clearbody m2. clear m1 Hm1 He.
  assert (Hh : head_ok (moved (core m) b (write_chain (below (minor_of bl) j b) er)) b) by (by apply moved_head).
  destruct j as [|j].
  - rewrite (Hx eq_refl). cbn [below length] in *. rewrite (bool_decide_true (0%nat = 0%nat)) by done. apply wp_bind.
    unfold wp at 1. rewrite (proj1 (chain_insert_core b m2)).
    set (m3 := (chain_insert b m2).2). pose proof (proj2 (chain_insert_core b m2)) as Hm3. fold m3 in Hm3.
    rewrite Hm2 in Hm3. apply wp_bind. cbn [insert_new for_each foldr]. apply wp_ret.
    assert (Hm3' : core m3 = moved (core m) b er).
    { rewrite Hm3. unfold moved, with_canon. cbn [k_db k_canon k_blocks k_lastConfirmed k_rootTip k_confirmed]. do 2 f_equal.
      apply insert_id. rewrite (Hcan (NumberU64 b)) by (pose proof (t_number _ Ht _ _ Hb); lia).
      by rewrite Z.sub_diag. }
    eapply wp_keeps; [apply reorg_tail_keeps|exact Hm3'| |].
    + intros _ m' Hm'. exists er. by rewrite Hm'.
    + intros _ m' Hm'. right. exists 0%nat, b, er. by rewrite Hm'.
  - rewrite (bool_decide_false (length (below (minor_of bl) (S j) b) = 0%nat)) by done. apply wp_bind, wp_ret, wp_bind.
    eapply wp_conseq; [by apply insert_new_core| |].
    + intros ? m3 (b0 & [= <-] & Hm3). rewrite Hm2 in Hm3.
      eapply wp_keeps; [apply reorg_tail_keeps|exact Hm3| |].
      * intros _ m' Hm'. eexists. rewrite Hm'. by split.
      * intros _ m' Hm'. right. exists 0%nat, b. eexists. rewrite Hm'. by split_and!.
    + intros e m3 (l' & b' & Hsuf & Hb' & Hm3). rewrite Hm2 in Hm3. right.
      destruct (below_suffix (minor_of bl) Ht (S j) b l' b') as (k & Hk & Hup & ->); [|done|done|].
      { destruct Hp as [(c & _ & Hc)|[_ Hj]]; [left; by exists c|right; done]. }
      exists k, b'. eexists. split_and!; [done|exact Hm3|]. rewrite Hm3.
      assert (Hp' : parted (minor_of bl) a b' i (S j - k)).
      { pose proof (up_number _ Ht _ _ _ Hb Hup) as Hn. destruct Hp as [(c & Hc1 & Hc2)|[Hi Hj]].
        - left. exists c. split; [done|]. replace (S j) with (k + (S j - k))%nat in Hc2 by lia.
          by rewrite up_add, Hup in Hc2.
        - right. lia. }
      pose proof (rooted_up _ Ht _ _ _ Hrb Hup) as Hrb'.
      destruct (switch_canonical (minor_of bl) Ht (k_canon (k_db (core m))) a b' i (S j - k) Hra Hrb' Hp' (h_canon _ _ Ha) (h_above _ _ Ha))
        as [Hcan' Hno']. apply moved_head; [apply Hrb'|done|done].
Qed.

(** The errors of a reorganisation are those of the transaction index. *)
Definition index_error (e : string) : Prop := e = "xShardDepositHashList err"%string ∨ e = "invalid sender"%string.

Lemma deref_err {A} (o : option A) e : deref o ≠ Err e.
Proof. by destruct o. Qed.
Lemma history_errs g tx h i : errs index_error (updateTxHistoryIndex g tx h i).
Proof. unfold updateTxHistoryIndex, to_db. errs. by right. Qed.
Lemma deposits_errs g h i l : errs index_error (deposit_index_loop g h i l).
Proof. revert i. induction l as [|d l IH]; intros i; cbn [deposit_index_loop]; unfold to_db in *; errs. Qed.
Lemma block_history_errs g b : errs index_error (updateTxHistoryIndexFromBlock g b).
Proof.
  pose proof (deposits_errs g). unfold updateTxHistoryIndexFromBlock. errs. intros e He. by apply deref_err in He.
Qed.
Lemma tx_loop_errs op i l : (∀ tx i, errs index_error (op tx i)) → errs index_error (tx_index_loop op i l).
Proof. intros Hop. revert i. induction l as [|tx l IH]; intros i; cbn [tx_index_loop]; errs. Qed.
Lemma removeTx_errs b : errs index_error (removeTxIndexFromBlock b).
Proof.
  pose proof (fun g b => block_history_errs g b). unfold removeTxIndexFromBlock, to_batch. apply errs_bind.
  - apply tx_loop_errs. intros tx i. pose proof history_errs. errs.
  - intros _. errs.
Qed.
Lemma putTx_errs put b : (∀ g, errs index_error (put g)) → errs index_error (putTxIndexFromBlock put b).
Proof.
  intros Hput. pose proof (fun g b => block_history_errs g b). unfold putTxIndexFromBlock. errs; [|by left].
  apply tx_loop_errs. intros tx i. apply history_errs.
Qed.
Lemma with_batch_errs {A} (op : SE (Db * Batch) A) b :
  errs index_error op → errs index_error (with_batch op b : SE Chain _).
Proof.
  intros Hop m e m'. unfold with_batch. destruct (op (db m, b)) as [[a|e'|e'] [d b']] eqn:E; [done| |done].
  intros [= <- _]. by eapply Hop.
Qed.
Lemma for_each_errs {S} (op : MinorBlock → SE S unit) l : (∀ b, errs index_error (op b)) → errs index_error (for_each op l).
Proof. intros Hop. induction l as [|b l IH]; [apply errs_ret|]. cbn [for_each foldr]. apply errs_bind; [exact IH|intros; apply Hop]. Qed.
Lemma receipts_errs h : errs index_error (GetReceiptsByHash h : SE Chain _).
Proof. intros m e m'. unfold GetReceiptsByHash. destruct (lru_get _ _); [done|]. by destruct (GetMinorBlock h m). Qed.
Lemma announce_errs r l : errs index_error (announce r l : SE Chain _).
Proof.
  pose proof receipts_errs. induction l as [|b l IH]; [apply errs_ret|]. cbn [announce foldr].
  apply errs_bind; [|intros _; exact IH]. unfold GetLogs, send. errs.
Qed.
Lemma reorg_errs a b (m : Chain) :
  stored_ok (k_blocks (k_db (core m))) → minor_of (k_blocks (k_db (core m))) (Hash a) = Some a →
  minor_of (k_blocks (k_db (core m))) (Hash b) = Some b →
  ∀ e m', reorg fuel (Some a) (Some b) m = (Err e, m') → index_error e.
Proof.
  intros Hs Ha Hb e m'. pose proof (stored_tree _ Hs) as Ht. set (bl := k_blocks (k_db (core m))) in *.
  destruct (fork_point_spec (minor_of bl) Ht true fuel a b (or_introl eq_refl) (stored_rooted _ _ _ Hs Ha) (stored_rooted _ _ _ Hs Hb))
    as (i & j & x & Hf & _); [by eapply stored_fuel|by eapply stored_fuel|].
  cbn [reorg]. change (fun h => GetMinorBlock h m) with (minor_of bl).
  assert (∀ r, errs index_error (
    let '(newBlock, oldChain, newChain) := (r : MinorBlock * list MinorBlock * list MinorBlock) in
    b ← with_batch (remove_old oldChain) [];
    _ ← on_db (batch_Write (b : unit * Batch).2);
    _ ← (if bool_decide (length newChain = 0%nat) then chain_insert newBlock else mret tt);
    _ ← insert_new newChain;
    _ ← (if bool_decide (0 < length (deleted_logs oldChain m))%nat then send ([deleted_logs oldChain m], true) else mret tt);
    _ ← announce true oldChain;
    announce false newChain : SE Chain unit)) as He.
  { intros [[nb oc] nc]. pose proof announce_errs. unfold chain_insert, on_db, store_current, send.
    assert (errs index_error (with_batch (remove_old oc) [] : SE Chain _)).
    { apply with_batch_errs, for_each_errs. intros b0. pose proof removeTx_errs. unfold to_batch. errs. }
    assert (errs index_error (insert_new nc : SE Chain _)).
    { apply for_each_errs. intros b0. unfold chain_insert, on_db, store_current.
      assert (errs index_error (with_batch (putTxIndexFromBlock to_db b0) [] : SE Chain _)).
      { apply with_batch_errs, putTx_errs. intros g. unfold to_db. apply errs_mod. }
      errs. }
    errs. }
  se_red. change (fun h => GetMinorBlock h m) with (minor_of bl). rewrite Hf. intros E. eapply (He (x, _, _)). exact E.
Qed.

(** ** A block is added *)

Definition added (b : MinorBlock) (bl : gmap Z (MinorBlock + RootBlock)) : gmap Z (MinorBlock + RootBlock) :=
  if bool_decide (is_Some (bl !! Hash b)) then bl else <[Hash b := inl b]> bl.
Definition add_block (b : MinorBlock) (k : Core) : Core :=
  mkCore (mkDbCore (added b (k_blocks (k_db k))) (k_canon (k_db k))
    (k_headHash (k_db k)) (k_lastConfirmed (k_db k))) (k_current k) (k_rootTip k) (k_confirmed k).

(** A block that exists and fits on a stored parent. *)
Definition genuine (b : MinorBlock) : Prop := block_of (Hash b) = Some (inl b).
Definition linked (bl : gmap Z (MinorBlock + RootBlock)) (b : MinorBlock) : Prop :=
  ∃ p, minor_of bl (ParentHash b) = Some p ∧ NumberU64 b = NumberU64 p + 1.

Lemma record_height_core b (m : Chain) : core (record_height b m) = core m.
Proof.
  unfold record_height. destruct (heightToMinorBlockHashes m !! NumberU64 b); cbv zeta.
  - by case_bool_decide.
  - case_bool_decide; by case_bool_decide.
Qed.

Lemma putMinorBlock_core b xs m :
  wp (putMinorBlock b xs) (fun _ m' => core m' = add_block b (core m)) (fun _ m' => core m' = add_block b (core m)) m.
Proof.
  unfold putMinorBlock. apply wp_bind, wp_mod, wp_bind, wp_get. set (m1 := record_height b m).
  assert (E1 : core m1 = core m) by apply record_height_core. apply wp_bind.
  eapply (wp_conseq _ (fun _ m' => core m' = add_block b (core m)) _ (fun _ m' => core m' = add_block b (core m))); [| |done].
  { rewrite <- E1. unfold mc_HasBlock, HasBlock, add_block, added. cbn [core k_db k_blocks db_core].
    case_bool_decide; reflexivity. }
  intros ? m2 Hm2. set (k := add_block b (core m)) in *. apply (wp_keeps (at_core k)); [|exact Hm2|done|done].
  assert (∀ f, (∀ d, db_core (f d) = db_core d) → keeps (at_core k) (on_db f)) as Hdb by (intros; by apply on_db_keeps).
  unfold putTotalTxCount, putConfirmedCrossShardTransactionDepositList. keeps.
Qed.

Section add.
Context (bl : gmap Z (MinorBlock + RootBlock)) (b : MinorBlock) (Hs : stored_ok bl) (Hb : genuine b) (Hl : linked bl b).
Abbreviation bl' := (added b bl).

Lemma add_lookup : bl' !! Hash b = Some (inl b).
Proof.
  unfold added. case_bool_decide as E; [|by rewrite lookup_insert_eq].
  destruct E as [x E]. rewrite E. pose proof (s_genuine _ Hs _ _ E) as Hx. rewrite Hb in Hx. by injection Hx as <-.
Qed.
Lemma add_other h : h ≠ Hash b → bl' !! h = bl !! h.
Proof. intros Hne. unfold added. case_bool_decide; [done|]. by rewrite lookup_insert_ne. Qed.
Lemma add_sub h x : bl !! h = Some x → bl' !! h = Some x.
Proof. intros Hx. unfold added. case_bool_decide as E; [done|]. rewrite lookup_insert_ne; [done|]. intros <-. apply E. eauto. Qed.
Lemma add_minor h x : minor_of bl h = Some x → minor_of bl' h = Some x.
Proof.
  intros Hx. unfold minor_of in *. destruct (bl !! h) as [y|] eqn:E; [|done]. by rewrite (add_sub _ _ E).
Qed.
Lemma add_root h : root_of bl' h = root_of bl h.
Proof.
  unfold root_of. destruct (decide (h = Hash b)) as [->|Hne]; [|by rewrite add_other].
  rewrite add_lookup. destruct (bl !! Hash b) as [[]|] eqn:E; [done| |done].
  apply add_sub in E. by rewrite add_lookup in E.
Qed.
Lemma add_self : minor_of bl' (Hash b) = Some b.
Proof. unfold minor_of. by rewrite add_lookup. Qed.
Lemma add_inv h x : minor_of bl' h = Some x → x = b ∨ minor_of bl h = Some x.
Proof.
  destruct (decide (h = Hash b)) as [->|Hne]; [rewrite add_self; intros [= <-]; by left|].
  unfold minor_of. rewrite add_other by done. by right.
Qed.
Lemma add_stored : stored_ok bl'.
Proof.
  destruct Hl as (p & Hp & Hn). constructor.
  - intros h x Hx. destruct (decide (h = Hash b)) as [->|Hne]; [rewrite add_lookup in Hx; by injection Hx as <-|].
    rewrite add_other in Hx by done. by apply (s_genuine _ Hs).
  - intros h x q Hx Hq. destruct (decide (is_Some (bl !! Hash b))) as [Hin|Hin].
    { assert (E : bl' = bl) by (unfold added; by rewrite bool_decide_true). rewrite E in Hx, Hq. by apply (s_link _ Hs h). }
    apply add_inv in Hx as [->|Hx].
    + rewrite (add_minor _ _ Hp) in Hq. by injection Hq as <-.
    + destruct (decide (ParentHash x = Hash b)) as [E|Hne].
      * exfalso. pose proof (stored_rooted _ _ _ Hs Hx) as Hrx.
        destruct (decide (NumberU64 x = 0)) as [Hx0|Hx0].
        { pose proof (stored_block _ _ _ Hs Hx) as [_ Hgx]. pose proof (g_genesis Hg _ _ Hgx Hx0) as Hno.
          by rewrite E, Hb in Hno. }
        pose proof (t_number _ (stored_tree _ Hs) _ _ Hx) as Hnx.
        destruct (rooted_step _ (stored_tree _ Hs) x Hrx) as (y & Hy & _); [lia|]. rewrite E in Hy.
        apply stored_block in Hy as [Hy _]; [|done]. eauto.
      * unfold minor_of in Hq. rewrite add_other in Hq by done. by apply (s_link _ Hs h).
  - intros h x Hx. pose proof (up_mono (minor_of bl) (minor_of bl') add_minor) as Hmono.
    apply add_inv in Hx as [->|Hx].
    + destruct (s_rooted _ Hs _ _ Hp) as [g Hgp]. pose proof (t_number _ (stored_tree _ Hs) _ _ Hp) as Hnp.
      replace (Z.to_nat (NumberU64 b)) with (S (Z.to_nat (NumberU64 p))) by lia.
      rewrite (up_parent _ _ _ _ (add_minor _ _ Hp)). eauto.
    + destruct (s_rooted _ Hs _ _ Hx) as [g Hgx]. eauto.
Qed.
End add.

(** ** The root chain *)

(** The first root block a shard knows is at this height. *)
Definition base : Z := c_genesisRootHeight config.

Record roots_ok (bl : gmap Z (MinorBlock + RootBlock)) : Prop := {
  r_based h r : root_of bl h = Some r →
    base <= NumberU64 r ∧ is_Some (up (root_of bl) (Z.to_nat (NumberU64 r - base)) r);
}.
(** A root block that is the tip or an ancestor of it. *)
Definition on_root_chain (bl : gmap Z (MinorBlock + RootBlock)) (tip p : RootBlock) : Prop :=
  NumberU64 p <= NumberU64 tip ∧ up (root_of bl) (Z.to_nat (NumberU64 tip - NumberU64 p)) tip = Some p.
Definition on_chain (bl : gmap Z (MinorBlock + RootBlock)) (c t : MinorBlock) : Prop :=
  NumberU64 t <= NumberU64 c ∧ up (minor_of bl) (Z.to_nat (NumberU64 c - NumberU64 t)) c = Some t.

(** The head is on the last block the root tip confirms, and the root block the
    head refers to is on the chain of the root tip. *)
Record follows_at (k : Core) (c : MinorBlock) : Prop := {
  f_confirmed t : k_confirmed k = Some t → minor_of (k_blocks (k_db k)) (Hash t) = Some t ∧ on_chain (k_blocks (k_db k)) c t;
  f_root : ∃ r p, k_rootTip k = Some r ∧ root_of (k_blocks (k_db k)) (PrevRootBlockHash (mb_header c)) = Some p ∧
    on_root_chain (k_blocks (k_db k)) r p;
}.
Record follows (k : Core) : Prop := {
  f_roots : roots_ok (k_blocks (k_db k));
  f_tip : ∃ r, k_rootTip k = Some r ∧ root_of (k_blocks (k_db k)) (Hash r) = Some r;
  f_head c : k_current k = Some c → follows_at k c;
}.
Definition good (m : Chain) : Prop := chain_ok m ∧ follows (core m).

(** The headers of this shard in a root block, and the last of those in the root
    blocks from the one after the shard's first up to [r]: what [r] confirms. *)
Definition own_of (r : RootBlock) : list MinorBlockHeader :=
  filter (fun h => Account.Value (mh_branch h) = Account.Value (c_branch config)) (MinorBlockHeaders r).
Definition confirmed_by (bl : gmap Z (MinorBlock + RootBlock)) (r : RootBlock) : option MinorBlockHeader :=
  last (concat (own_of <$> rev (below (root_of bl) (Z.to_nat (NumberU64 r - base)) r))).

(** The database has, for every root block, the hash of the header it confirms,
    whose block is stored; the confirmed tip is that of the root tip. *)
Record entries_ok (k : Core) : Prop := {
  e_entry h r : root_of (k_blocks (k_db k)) h = Some r →
    default 0 (k_lastConfirmed (k_db k) !! h) = match confirmed_by (k_blocks (k_db k)) r with Some x => mh_hash x | None => 0 end;
  e_block h r x : root_of (k_blocks (k_db k)) h = Some r → confirmed_by (k_blocks (k_db k)) r = Some x →
    ∃ b, minor_of (k_blocks (k_db k)) (mh_hash x) = Some b ∧ mb_header b = x;
  e_tip r : k_rootTip k = Some r → mb_header <$> k_confirmed k = confirmed_by (k_blocks (k_db k)) r;
}.

Lemma root_block bl h r : stored_ok bl → root_of bl h = Some r → block_of h = Some (inr r) ∧ Hash r = h ∧ 0 <= NumberU64 r < 2 ^ 32.
Proof.
  intros Hs Hr. unfold root_of in Hr. destruct (bl !! h) as [[]|] eqn:E; [done| |done]. injection Hr as ->.
  apply (s_genuine _ Hs) in E. split; [done|]. by apply (g_root Hg).
Qed.
Lemma root_tree bl : stored_ok bl → tree_ok (root_of bl).
Proof.
  intros Hs. constructor.
  - intros h r E. by eapply root_block.
  - destruct (root_of bl 0) eqn:E; [|done]. apply root_block in E as (E & _); [|done]. by rewrite (g_zero Hg) in E.
  - intros h r E. apply root_block in E as (_ & _ & E); [|done]. lia.
  - intros h r p Hr Hp. apply root_block in Hr as (Hr & _); [|done]. apply root_block in Hp as (Hp & _); [|done].
    by apply (g_root_link Hg h).
Qed.

(** The ancestor of a root block at a height. *)
Lemma root_at bl h r n : roots_ok bl → root_of bl h = Some r → base <= n <= NumberU64 r →
  is_Some (up (root_of bl) (Z.to_nat (NumberU64 r - n)) r).
Proof.
  intros Hr E Hn. destruct (r_based _ Hr _ _ E) as [_ [g Hgr]].
  destruct (up_le (root_of bl) (Z.to_nat (NumberU64 r - n)) (Z.to_nat (NumberU64 r - base)) r g) as (d & Hd & _); [lia|done|].
  by exists d.
Qed.

Lemma same_root_spec long short (m : Chain) h h' :
  stored_ok (k_blocks (k_db (core m))) → roots_ok (k_blocks (k_db (core m))) →
  root_of (k_blocks (k_db (core m))) h = Some long → root_of (k_blocks (k_db (core m))) h' = Some short →
  ∃ r, isSameRootChain (Some long) (Some short) m = Ok r ∧ (r = true ↔ on_root_chain (k_blocks (k_db (core m))) long short).
Proof.
  intros Hs Hr Hl Hsh. set (bl := k_blocks (k_db (core m))) in *. pose proof (root_tree _ Hs) as Ht.
  destruct (root_block _ _ _ Hs Hl) as (_ & El & Hnl). destruct (root_block _ _ _ Hs Hsh) as (_ & Es & Hns).
  unfold isSameRootChain, on_root_chain. case_bool_decide as Hlt; [exists false; split; [done|]; split; [done|lia]|].
  change (fun h => mc_GetRootBlockByHash h m) with (root_of bl).
  destruct (root_at bl h long (NumberU64 short) Hr Hl) as [c Hc].
  { split; [by eapply r_based|lia]. }
  rewrite (isSameChain_up _ Ht _ _ c) by (done || lia). eexists; split; [done|]. rewrite bool_decide_eq_true, Hc. split.
  - intros E. split; [lia|]. f_equal. eapply stored_inj; [|by rewrite Es|done].
    eapply (up_stored _ Ht _ long c); [by rewrite El|exact Hc].
  - by intros [_ [= ->]].
Qed.

(** ** The choice of the head *)

(** The entries are kept where they were right, in case [P]. *)
Section tracked.
Context (P : Prop).
Record tracks (k : Core) : Prop := {
  k_follows :> follows k;
  k_entries : P → entries_ok k;
}.
Definition kept (m : Chain) : Prop := chain_ok m ∧ tracks (core m).

(** What makes a block a head that follows the root tip. *)
Definition fits_tip (k : Core) (b : MinorBlock) : Prop :=
  (∀ t, k_confirmed k = Some t → on_chain (k_blocks (k_db k)) b t) ∧
  ∃ r p, k_rootTip k = Some r ∧ root_of (k_blocks (k_db k)) (PrevRootBlockHash (mb_header b)) = Some p ∧
    on_root_chain (k_blocks (k_db k)) r p.

Lemma linked_at bl b n : stored_ok bl → linked bl b → 0 <= n < NumberU64 b →
  ∃ p c, minor_of bl (ParentHash b) = Some p ∧ up (minor_of bl) (Z.to_nat (NumberU64 b - n)) b = Some c ∧
    up (minor_of bl) (Z.to_nat (NumberU64 p - n)) p = Some c ∧ rooted (minor_of bl) c.
Proof.
  intros Hs (p & Hp & Hn) Hlt. pose proof (stored_rooted _ _ _ Hs Hp) as Hrp.
  destruct (rooted_at _ (stored_tree _ Hs) p n Hrp) as (c & Hc & _ & Hrc); [lia|]. exists p, c. split_and!; [done| |done|done].
  replace (Z.to_nat (NumberU64 b - n)) with (S (Z.to_nat (NumberU64 p - n))) by lia. by rewrite (up_parent _ _ _ _ Hp).
Qed.

Lemma linked_confirmed b m l :
  kept m → genuine b → linked (k_blocks (k_db (core m))) b →
  isMinorBlockLinkedToRootTip b m = Ok l → l = true → ∀ t, k_confirmed (core m) = Some t → on_chain (k_blocks (k_db (core m))) b t.
Proof.
  intros [[Hs [c Hc]] Hf] Hb Hl E -> t Ht. pose proof (f_confirmed _ _ (f_head _ Hf _ (h_current _ _ Hc)) _ Ht) as [Hst _].
  cbn [core k_confirmed] in Ht. unfold isMinorBlockLinkedToRootTip in E. rewrite Ht in E.
  case_bool_decide as Hle; [done|]. pose proof (t_number _ (stored_tree _ Hs) _ _ Hst) as Hnt.
  destruct (linked_at _ b (NumberU64 t) Hs Hl) as (p & x & _ & Hx & _ & Hrx); [lia|].
  change (fun h => GetParentHashByHash h m) with (parent_hash (minor_of (k_blocks (k_db (core m))))) in E.
  destruct (g_minor Hg _ _ Hb) as (_ & Hnb & _).
  rewrite (isSameChain_up _ (stored_tree _ Hs) _ _ x) in E by (done || lia). injection E as E. apply bool_decide_eq_true in E.
  split; [lia|]. rewrite Hx. f_equal. by eapply stored_inj; [apply Hrx|..].
Qed.

Lemma updateTip_spec state b m :
  kept m → genuine b → linked (k_blocks (k_db (core m))) b →
  wp (updateTip state b) (fun tip m' => core m' = core m ∧ (tip = true → fits_tip (core m) b)) (fun _ m' => core m' = core m) m.
Proof.
  intros Hgd Hb Hl. pose proof Hgd as [[Hs [c Hc]] Hf]. pose proof (f_head _ Hf _ (h_current _ _ Hc)) as Hfc.
  unfold updateTip. apply wp_bind, wp_get. destruct (mc_GetRootBlockByHash _ m) as [pre|] eqn:Hpre; [|by apply wp_err].
  change (root_of (k_blocks (k_db (core m))) (PrevRootBlockHash (mb_header b)) = Some pre) in Hpre.
  apply wp_bind, wp_lift; [|done]. intros cur Hcur. assert (cur = c) as ->.
  { pose proof (h_current _ _ Hc) as E. cbn [core k_current] in E. rewrite E in Hcur. by injection Hcur as <-. }
  destruct (f_tip _ Hf) as (r & Hr & Hsr). cbn [core k_rootTip] in Hr. rewrite Hr.
  destruct (same_root_spec r pre m _ _ Hs (f_roots _ Hf) Hsr Hpre) as (same & Esame & Hsame). rewrite Esame.
  apply wp_bind, wp_lift; [|done]. intros ? [= <-]. destruct same; cbn [negb]; [|by apply wp_ret].
  assert (∃ r p, k_rootTip (core m) = Some r ∧ root_of (k_blocks (k_db (core m))) (PrevRootBlockHash (mb_header b)) = Some p ∧
    on_root_chain (k_blocks (k_db (core m))) r p) as Hroot by (exists r, pre; split_and!; [done|done|by apply Hsame]).
  apply wp_bind. eapply (wp_conseq _ (fun tip m' => m' = m ∧ (tip = true → ∀ t, k_confirmed (core m) = Some t →
    on_chain (k_blocks (k_db (core m))) b t)) _ (fun _ m' => m' = m)); [| |by intros ? ? ->].
  - case_bool_decide as Hpar.
    + apply wp_ret. split; [done|]. intros _ t Ht. destruct (f_confirmed _ _ Hfc _ Ht) as [Hst [Hle Hup]].
      destruct Hl as (p & Hp & Hn). rewrite Hpar, (h_stored _ _ Hc) in Hp. injection Hp as <-. split; [lia|].
      replace (Z.to_nat (NumberU64 b - NumberU64 t)) with (S (Z.to_nat (NumberU64 c - NumberU64 t))) by lia.
      rewrite (up_parent _ _ _ c); [done|]. rewrite Hpar. apply Hc.
    + apply wp_bind, wp_lift; [|done]. intros l El. destruct l; cbn [negb]; [|by apply wp_ret].
      pose proof (linked_confirmed b m true Hgd Hb Hl El eq_refl) as Hconf.
      case_bool_decide; [by apply wp_ret|]. case_bool_decide; [|by apply wp_ret].
      apply wp_bind, wp_lift; [|done]. intros t Ht. by apply wp_ret.
  - intros tip m' [-> Htip]. apply wp_bind. destruct tip; [apply wp_mod|]; apply wp_ret; (split; [done|]); [|done].
    intros _. split; [by apply Htip|done].
Qed.

(** ** Writing an executed block *)

Section grow.
Context (k : Core) (b : MinorBlock) (Hs : stored_ok (k_blocks (k_db k))) (Hb : genuine b) (Hl : linked (k_blocks (k_db k)) b).
Abbreviation k' := (add_block b k).

Lemma grow_root h : root_of (k_blocks (k_db k')) h = root_of (k_blocks (k_db k)) h.
Proof. by apply add_root. Qed.
Lemma grow_root_up n r : up (root_of (k_blocks (k_db k'))) n r = up (root_of (k_blocks (k_db k))) n r.
Proof. revert r. induction n as [|n IH]; intros r; [done|]. cbn [up]. rewrite grow_root. by destruct (root_of _ _). Qed.
Lemma grow_head c : head_ok k c → head_ok k' c.
Proof.
  intros Hc. pose proof (stored_rooted _ _ _ Hs (h_stored _ _ Hc)) as Hrc. 
  constructor; [apply Hc| |apply Hc]. constructor; [| |apply Hc].
  - apply add_minor, Hc.
  - eapply canonical_mono; [apply add_minor|by apply stored_tree|done|apply Hc].
Qed.
Lemma grow_stored : stored_ok (k_blocks (k_db k')).
Proof. by apply add_stored. Qed.
Lemma grow_on_chain c t : on_chain (k_blocks (k_db k)) c t → on_chain (k_blocks (k_db k')) c t.
Proof. intros [Hle Hup]. split; [done|]. by apply (up_mono (minor_of (k_blocks (k_db k)))); [apply add_minor|]. Qed.
Lemma grow_on_root r p : on_root_chain (k_blocks (k_db k)) r p → on_root_chain (k_blocks (k_db k')) r p.
Proof. intros [Hle Hup]. split; [done|]. by rewrite grow_root_up. Qed.
Lemma grow_fits c : fits_tip k c → fits_tip k' c.
Proof.
  intros [Hc (r & p & Hr & Hp & Hon)]. split; [intros t Ht; by apply grow_on_chain, Hc|].
  exists r, p. split_and!; [done|by rewrite grow_root|by apply grow_on_root].
Qed.
Lemma grow_follows : follows k → follows k'.
Proof.
  intros Hf. constructor.
  - destruct (f_roots _ Hf) as [Hbased]. constructor.
    intros h r Hr. rewrite grow_root in Hr. destruct (Hbased h r Hr). split; [done|]. by rewrite grow_root_up.
  - destruct (f_tip _ Hf) as (r & Hr & Hsr). exists r. split; [done|]. by rewrite grow_root.
  - intros c Hc. destruct (f_head _ Hf c Hc) as [Hcf (r & p & Hr & Hp & Hon)]. constructor.
    + intros t Ht. destruct (Hcf t Ht). split; [by apply add_minor|by apply grow_on_chain].
    + exists r, p. split_and!; [done|by rewrite grow_root|by apply grow_on_root].
Qed.
Lemma grow_confirmed r : confirmed_by (k_blocks (k_db k')) r = confirmed_by (k_blocks (k_db k)) r.
Proof. unfold confirmed_by. by rewrite (below_ext _ _ grow_root). Qed.
Lemma grow_entries : entries_ok k → entries_ok k'.
Proof.
  intros He. constructor.
  - intros h r Hr. rewrite grow_confirmed. rewrite grow_root in Hr. by apply (e_entry _ He).
  - intros h r x Hr. rewrite grow_confirmed. rewrite grow_root in Hr. intros Hx.
    destruct (e_block _ He h r x Hr Hx) as (b0 & Hb0 & E). exists b0. split; [by apply add_minor|done].
  - intros r Hr. rewrite grow_confirmed. by apply (e_tip _ He).
Qed.
Lemma grow_tracks : tracks k → tracks k'.
Proof. intros [Hf He]. split; [by apply grow_follows|]. intros HP. by apply grow_entries, He. Qed.
End grow.

Lemma moved_follows k b canon : follows k → fits_tip k b → is_Some (k_current k) → follows (moved k b canon).
Proof.
  intros Hf [Hc Hr] [c0 Hc0]. constructor; [apply Hf|apply Hf|]. intros c [= <-]. constructor; [|done].
  intros t Ht. split; [|by apply Hc]. by apply (f_confirmed _ _ (f_head _ Hf _ Hc0)).
Qed.
Lemma moved_tracks k b canon : tracks k → fits_tip k b → is_Some (k_current k) → tracks (moved k b canon).
Proof. intros [Hf He] Hb Hc. split; [by apply moved_follows|]. intros HP. by destruct (He HP). Qed.

(** The next block on the head. *)
Lemma extend_head k c b :
  stored_ok (k_blocks (k_db k)) → head_ok k c → minor_of (k_blocks (k_db k)) (Hash b) = Some b → ParentHash b = Hash c →
  head_ok (moved k b (<[NumberU64 b := Hash b]> (k_canon (k_db k)))) b.
Proof.
  intros Hs Hc Hb Hp. set (bl := k_blocks (k_db k)) in *. pose proof (stored_tree _ Hs) as Ht.
  assert (Hpar : minor_of bl (ParentHash b) = Some c) by (rewrite Hp; apply Hc).
  destruct (switch_canonical (minor_of bl) Ht (k_canon (k_db k)) c b 0 1) as [H1' H2'];
    [by eapply stored_rooted; [|apply Hc]|by eapply stored_rooted| |apply Hc|apply Hc|].
  { left. exists c. split; [done|]. by rewrite (up_parent _ _ _ _ Hpar). }
  rewrite below_one in H1', H2'. by apply moved_head.
Qed.
(** Inserting the head again changes nothing. *)
Lemma reinsert_head k b : head_ok k b → 0 <= NumberU64 b → moved k b (<[NumberU64 b := Hash b]> (k_canon (k_db k))) = k.
Proof.
  intros Hb Hn. rewrite insert_id.
  - unfold moved. rewrite <- (h_current _ _ Hb), <- (h_hash _ _ Hb). by destruct k as [[] ? ? ?].
  - rewrite (h_canon _ _ Hb) by lia. by rewrite Z.sub_diag.
Qed.

Lemma batch_index_core b batch m :
  effect batch id →
  wp (match (putTxIndexFromBlock to_batch b (db m, batch)).1 with
      | Err e => se_panic e
      | _ => with_batch (putTxIndexFromBlock to_batch b) batch
      end) (fun r m' => core m' = core m ∧ effect r.2 id) (fun _ _ => False) m.
Proof.
  intros He. pose proof (with_batch_core (putTxIndexFromBlock to_batch b) batch id m) as Hw.
  unfold wp, with_batch in *. destruct (putTxIndexFromBlock to_batch b (db m, batch)) as [[u|e|e] [d b']] eqn:E;
    cbn [fst] in *; [|done|]; rewrite E; [|done]. cbn [mbind result_bind] in *. apply Hw; [|done].
  intros k. apply putTxIndex_keeps. intros g Hg'. by apply to_batch_keeps.
Qed.

Lemma WriteBlockWithState_good b receipts st xs tip m :
  kept m → genuine b → linked (k_blocks (k_db (core m))) b → (tip = true → fits_tip (core m) b) →
  wp (WriteBlockWithState fuel b receipts st xs tip) (fun _ => kept)
    (fun e m' => chain_ok m' ∧ (tracks (core m') ∨ index_error e)) m.
Proof.
  intros Hgd Hb Hl Htip. pose proof Hgd as [[Hs [c Hc]] Hf]. pose proof (h_current _ _ Hc) as Ecur. cbn [core k_current] in Ecur.
  set (k := core m) in *. set (k1 := add_block b k).
  pose proof (grow_stored k b Hs Hb Hl) as Hs1. pose proof (grow_head k b Hs c Hc) as Hc1. fold k1 in Hs1, Hc1.
  pose proof (grow_tracks k b Hs Hb Hf) as Hf1. fold k1 in Hf1.
  assert (Hb1 : minor_of (k_blocks (k_db k1)) (Hash b) = Some b) by (by apply add_self).
  assert (∀ m', core m' = k1 → kept m') as Hk1 by (intros m' E; unfold kept, chain_ok; rewrite E; split; [split; [done|by exists c]|done]).
  unfold WriteBlockWithState. apply wp_bind, wp_get. cbv zeta. apply wp_bind.
  eapply wp_conseq; [apply putMinorBlock_core| |]; cbn beta.
  2: { intros e m' Hm'. destruct (Hk1 m' Hm'). auto. }
  intros _ m1 Hm1. fold k k1 in Hm1. apply wp_bind, wp_get. destruct (state_Commit st (tries m1)) as [r t].
  apply wp_bind, wp_mod. set (m2 := set_tries t m1). assert (Hm2 : core m2 = k1) by done. clearbody m2.
  apply wp_bind, wp_lift; [|intros e _; destruct (Hk1 m2 Hm2); auto]. intros root _. apply wp_bind.
  eapply (wp_keeps (at_core k1)); [apply keep_tries_keeps|done| |intros e m' Hm'; destruct (Hk1 m' Hm'); auto].
  intros _ m3 Hm3. cbv zeta. apply wp_bind.
  assert (He0 : effect [WriteReceipts (Hash b) receipts] id) by done.
  (* the end of the operation, from a core where the batch has no effect on it *)
  assert (∀ batch m4, effect batch id → core m4 = k1 ∧ ¬ tip = true ∨
      tip = true ∧ kept (chain_insert b (set_db (batch_Write batch (db m4)) m4)).2 →
    wp (let '(status, batch) := ((if tip then CanonStatTy else SideStatTy), batch) in
        _ ← on_db (batch_Write batch);
        _ ← match status with CanonStatTy => chain_insert b | _ => mret tt end;
        _ ← se_mod (fun m => set_futureBlocks (lru_remove (futureBlocks m) (Hash b)) m);
        mret status) (fun _ => kept) (fun e m' => chain_ok m' ∧ (tracks (core m') ∨ index_error e)) m4) as Hend.
  { intros batch m4 He Hm4. cbn beta iota. apply wp_bind, wp_mod. apply wp_bind. destruct tip.
    - destruct Hm4 as [[_ []]|[_ Hgood]]; [done|]. unfold wp at 1. rewrite (proj1 (chain_insert_core b _)).
      apply wp_bind, wp_mod, wp_ret. done.
    - destruct Hm4 as [[Hm4 _]|[]]; [|done]. apply wp_ret, wp_bind, wp_mod, wp_ret.
      apply Hk1. change (core (set_db (batch_Write batch (db m4)) m4) = k1).
      rewrite (batch_write_core _ _ _ He), Hm4. by destruct k1 as [[] ? ? ?]. }
  destruct tip.
  2: { apply wp_ret. apply (Hend [WriteReceipts (Hash b) receipts] m3 He0). left. split; [done|by intros]. }
  specialize (Htip eq_refl). pose proof (grow_fits k b Hs Hb b Htip) as Hfit. fold k1 in Hfit.
  rewrite Ecur. apply wp_bind, wp_lift; [|done]. intros ? [= <-].
  assert (∀ m4, (∃ canon, core m4 = moved k1 b canon ∧ head_ok (core m4) b) → kept m4) as Hmoved.
  { intros m4 (canon & Hm4 & Hh). split.
    - split; [rewrite Hm4; exact Hs1|by exists b].
    - rewrite Hm4. apply moved_tracks; [done|done|]. rewrite (h_current _ _ Hc1). eauto. }
  apply wp_bind.
  eapply (wp_conseq _ (fun _ m4 => core m4 = k1 ∧ ParentHash b = Hash c ∨ ∃ canon, core m4 = moved k1 b canon ∧ head_ok (core m4) b) _
    (fun e m4 => chain_ok m4 ∧ (tracks (core m4) ∨ index_error e))); [| |done].
  - case_bool_decide as Hpar; [apply wp_ret; by left|].
    assert (Hr : wp (reorg fuel (Some c) (Some b))
      (fun _ m' => ∃ canon, core m' = moved (core m3) b canon ∧ head_ok (core m') b)
      (fun e m' => (core m' = core m3 ∨ ∃ k b' canon, up (minor_of (k_blocks (k_db (core m3)))) k b = Some b' ∧
         core m' = moved (core m3) b' canon ∧ head_ok (core m') b') ∧ index_error e) m3).
    { pose proof (reorg_core c b m3) as Hw. pose proof (reorg_errs c b m3) as Hi. rewrite Hm3 in Hw, Hi |- *.
      specialize (Hw Hs1 Hc1 Hb1). specialize (Hi Hs1 (h_stored _ _ Hc1) Hb1). unfold wp in *.
      destruct (reorg fuel (Some c) (Some b) m3) as [[u|e|e] m4] eqn:E; [done| |done]. split; [done|]. by eapply Hi. }
    eapply wp_conseq; [exact Hr| |]; rewrite Hm3.
    + intros _ m4 Hm4. by right.
    + intros e m4 [[Hm4|(n & b' & canon & Hup & Hm4 & Hh)] Hi]; [destruct (Hk1 m4 Hm4); auto|]. split; [|by right].
      split; [rewrite Hm4; exact Hs1|by exists b'].
  - intros _ m4 Hm4. apply wp_bind, wp_get, wp_bind.
    eapply wp_conseq; [by apply batch_index_core| |done]. intros [[] batch] m5 [Hm5 He5]. cbn [snd] in *. apply wp_ret.
    assert (He6 : effect (batch ++ [WritePreimages (Preimages st)]) id) by (by apply (effect_snoc _ _ id id)).
    apply (Hend _ m5 He6). right. split; [done|]. apply Hmoved. rewrite (proj2 (chain_insert_core _ _)).
    rewrite (batch_write_core _ _ _ He6), Hm5. destruct Hm4 as [[Hm4 Hpar]|(canon & Hm4 & Hh)].
    + eexists. rewrite Hm4. split; [done|]. by apply (extend_head k1 c b).
    + exists canon. rewrite Hm4 in Hh |- *.
      pose proof (reinsert_head _ _ Hh) as E. destruct (g_minor Hg _ _ Hb) as (_ & Hnb & _). specialize (E ltac:(lia)).
      unfold with_canon, moved in *. cbn [k_db k_blocks k_canon k_headHash k_lastConfirmed k_current k_rootTip k_confirmed id] in *.
      rewrite E. done.
Qed.

(** ** What validation guarantees *)

(** A block that passes, or fails only for want of its parent's state, fits on a
    stored parent. *)
Lemma validate_linked b force (m : Chain) :
  stored_ok (k_blocks (k_db (core m))) → genuine b →
  ValidateBlock b force m = Ok tt ∨ ValidateBlock b force m = Err "pruned ancestor" →
  linked (k_blocks (k_db (core m))) b.
Proof.
  intros Hs Hb Hv. destruct (g_minor Hg _ _ Hb) as (_ & Hnb & _).
  assert (He : (∃ u, VerifyHeader m b = Ok u) ∨ VerifyHeader m b = Err "pruned ancestor").
  { unfold ValidateBlock, check_known in Hv. destruct (VerifyHeader m b) as [u|e|e]; [by left; exists u| |by destruct Hv].
    right. destruct Hv as [Hv|Hv]; [done|]. by injection Hv as ->. }
  clear Hv. unfold VerifyHeader, engine_VerifyHeader in He.
  destruct (negb (GetVersion b =? 0)); [by destruct He as [[]|]|].
  cbn [chain_reader cr_GetBlock] in He. destruct (GetMinorBlock (ParentHash b) m) as [p|] eqn:Hp; [|by destruct He as [[]|]].
  destruct (negb (NumberU64 p =? u64 (NumberU64 b - 1))) eqn:En; [by destruct He as [[]|]|].
  exists p. split; [exact Hp|]. apply negb_false_iff, Z.eqb_eq in En.
  pose proof (t_number _ (stored_tree _ Hs) _ _ Hp) as Hnp. unfold u64 in En.
  destruct (decide (NumberU64 b = 0)) as [E0|E0].
  - rewrite E0 in En. change ((0 - 1) mod 2 ^ 64) with (2 ^ 64 - 1) in En. lia.
  - rewrite Z.mod_small in En by lia. lia.
Qed.

Lemma validate_wp b force m Q0 E0 :
  (∀ err, (err = None ∨ err = Some "pruned ancestor"%string → genuine b → kept m → linked (k_blocks (k_db (core m))) b) → Q0 err m) →
  wp (validate force b) Q0 E0 m.
Proof.
  intros HQ. unfold wp, validate. destruct (ValidateBlock b force m) as [u|e|e] eqn:E; [..|done]; apply HQ; intros He Hb [[Hs _] _];
    eapply validate_linked; eauto.
  - left. rewrite E. by destruct u.
  - right. destruct He as [|[= ->]]; done.
Qed.

(** ** The import of blocks *)

(** What an import leaves: a chain in shape, which also follows the root tip
    unless the transaction index could not be written. *)
Definition imported (err : option string) (m : Chain) : Prop :=
  chain_ok m ∧ (tracks (core m) ∨ ∃ e, err = Some e ∧ index_error e).
Definition after (r : Inserted) (m : Chain) : Prop := imported (i_err r) m.

Lemma good_imported err m : kept m → imported err m.
Proof. intros [Hc Hf]. split; [done|by left]. Qed.
Lemma imported_none m : imported None m → kept m.
Proof. intros [Hc [Hf|(e & [=] & _)]]. done. Qed.

Lemma good_core m m' : core m' = core m → kept m → kept m'.
Proof. intros E [Hc Hf]. unfold kept, chain_ok in *. by rewrite E. Qed.

Lemma import_block_good readOnly b g m :
  kept m → genuine b → linked (k_blocks (k_db (core m))) b →
  wp (import_block fuel readOnly b g)
    (fun r m' => match r with inl _ => kept m' | inr e => imported (Some e) m' end) (fun _ _ => False) m.
Proof.
  intros Hgd Hb Hl. unfold import_block. apply wp_try, wp_bind, wp_get, wp_bind, wp_lift; [|intros; by apply good_imported].
  intros [[[[st rs] lg] gas] xs] _. apply wp_bind, wp_lift; [|intros; by apply good_imported]. intros _ _.
  destruct readOnly; [by apply wp_ret|]. apply wp_bind. eapply wp_conseq; [by apply updateTip_spec| |].
  2: { intros e m' E. apply good_imported. exact (good_core _ _ E Hgd). }
  intros tip m' [Em Htip]. apply wp_bind. eapply wp_conseq; [apply WriteBlockWithState_good| |]; cbn beta; try rewrite Em; try done.
  - exact (good_core _ _ Em Hgd).
  - intros e m2 [Hc Hf]. split; [done|]. destruct Hf as [Hf|Hi]; [by left|right; eauto].
Qed.

Lemma futureBlock_keeps b : keeps kept (addFutureBlock b).
Proof. intros m Hm. unfold addFutureBlock. case_bool_decide; done. Qed.

Lemma import_loop_good force readOnly rest before b g m :
  kept m → Forall genuine (b :: rest) → linked (k_blocks (k_db (core m))) b →
  wp (import_loop fuel force readOnly rest before b g)
    (fun r m' => match r with inl i => after i m' | inr (it, err, _) => kept m' ∧ Forall genuine (it_rest it) ∧
       (∀ c, it_current it = Some c → genuine c) end) (fun _ _ => False) m.
Proof.
  revert before b g m. induction rest as [|b' rest IH]; intros before b g m Hgd HF Hl; cbn [import_loop];
    apply Forall_cons in HF as [Hb HF]; apply wp_bind, wp_get.
  all: destruct (procInterrupt m); [apply wp_ret; split_and!; [done|done|by intros c [= <-]]|].
  all: destruct (match head before with Some p => Some p | None => GetMinorBlock (ParentHash b) m end);
    [|apply wp_ret; by apply good_imported].
  all: apply wp_bind; eapply wp_conseq; [by apply import_block_good| |done]; intros [g'|e] m' Hm'; [|by apply wp_ret].
  - by apply wp_ret.
  - apply wp_bind, validate_wp. intros err Hlink. destruct err as [e|].
    + apply wp_ret. apply Forall_cons in HF as [Hb' HF]. split_and!; [done|done|by intros c [= <-]].
    + apply IH; [done|done|]. apply Hlink; [by left| |done]. by apply Forall_cons in HF as [].
Qed.

(** What the answer of the validation says of a block. *)
Definition answered (b : MinorBlock) (err : option string) (m : Chain) : Prop :=
  err = None ∨ err = Some "pruned ancestor"%string → linked (k_blocks (k_db (core m))) b.
Lemma validate_answer force b m :
  kept m → genuine b → wp (validate force b) (fun err m' => kept m' ∧ answered b err m') (fun _ _ => False) m.
Proof. intros Hgd Hb. apply validate_wp. intros err Hl. split; [done|]. intros He. by apply Hl. Qed.
Abbreviation positioned := (at_position kept genuine answered).

Lemma import_from_good force readOnly it err g m :
  positioned (it, err) m → wp (import_from fuel force readOnly it err g) after (fun _ _ => False) m.
Proof.
  intros (Hgd & HF & Hcur). cbn [fst snd] in *. unfold import_from. apply wp_bind.
  eapply (wp_conseq _ (fun r m' => match r with inl i => after i m' | inr (it, err, _) => kept m' ∧ Forall genuine (it_rest it) ∧
       (∀ c, it_current it = Some c → genuine c) end) _ (fun _ _ => False)); [| |done].
  { destruct (it_current it) as [b|] eqn:Ec; [destruct (Hcur b eq_refl) as [Hb Ha]; destruct err as [e|]|].
    - apply wp_ret. split_and!; [done..|]. rewrite Ec. by intros c [= <-].
    - apply import_loop_good; [done|by constructor|]. destruct Ha as [[=]|Ha]. apply Ha. by left.
    - apply wp_ret. by rewrite Ec. }
  intros [i|[[it' err'] g']] m' Hm'; [by apply wp_ret|]. destruct Hm' as (Hgd' & HF' & _).
  apply wp_bind. eapply wp_conseq; [apply (queue_future_spec (validate force) addFutureBlock kept genuine answered);
    eauto using validate_answer, futureBlock_keeps| |done].
  intros [[it2 err2]|[it2 err2]] m2 Hm2; [apply wp_ret; by apply good_imported|].
  apply wp_bind, wp_get, wp_bind, wp_lift.
  - intros c _. apply wp_ret. by apply good_imported.
  - intros e He. destruct (g_lastCanon g'); [|done]. by destruct (currentBlock m2).
Qed.

(** ** Side chains *)

Lemma write_side_good b m :
  kept m → genuine b → linked (k_blocks (k_db (core m))) b →
  wp (if mc_HasBlock (Hash b) m then mret tt else WriteBlockWithoutState b) (fun _ => kept) (fun _ _ => False) m.
Proof.
  intros Hgd Hb Hl. pose proof Hgd as [[Hs [c Hc]] Hf].
  destruct (mc_HasBlock (Hash b) m) eqn:E; [by apply wp_ret|].
  unfold mc_HasBlock, HasBlock in E. apply bool_decide_eq_false in E.
  assert (core (set_db (WriteMinorBlock b (db m)) m) = add_block b (core m)) as Em.
  { unfold add_block, added. cbn [core k_db k_blocks db_core]. by rewrite bool_decide_false. }
  unfold wp, WriteBlockWithoutState, on_db. cbn. unfold kept, chain_ok. rewrite Em.
  split; [split; [by apply grow_stored|exists c; by apply grow_head]|by apply grow_tracks].
Qed.

Lemma side_loop_good force current rest before b m :
  kept m → Forall genuine (b :: rest) → linked (k_blocks (k_db (core m))) b →
  wp (side_loop force current rest before b) (fun _ => kept) (fun _ _ => False) m.
Proof.
  revert before b m. induction rest as [|b' rest IH]; intros before b m Hgd HF Hl; cbn [side_loop]; apply Forall_cons in HF as [Hb HF];
    apply wp_bind, wp_get; (destruct (bool_decide (NumberU64 b <= current) && _); [by apply wp_ret|]);
    apply wp_bind; (eapply wp_conseq; [by apply write_side_good| |done]); intros ? m' Hm'.
  - by apply wp_ret.
  - apply wp_bind, validate_wp. intros err Hlink. case_bool_decide as E; [|by apply wp_ret].
    apply IH; [done|done|]. apply Hlink; [by right| |done]. by apply Forall_cons in HF as [].
Qed.

Definition imports (insert : list MinorBlock → SE Chain Inserted) : Prop :=
  ∀ blocks m, kept m → Forall genuine blocks → wp (insert blocks) after (fun _ _ => False) m.

Lemma segments_good insert hashes blocks memory m :
  imports insert → kept m → Forall genuine blocks → wp (segments insert hashes blocks memory) after (fun _ _ => False) m.
Proof.
  intros Hins. revert blocks memory m. induction hashes as [|h hashes IH]; intros blocks memory m Hgd HF; cbn [segments].
  - destruct blocks; [apply wp_ret; by apply good_imported|by apply Hins].
  - apply wp_bind, wp_get, wp_bind, wp_lift; [|by intros e He; apply deref_err in He]. intros b Hb.
    assert (Hgb : genuine b).
    { destruct (GetMinorBlock h m) as [b'|] eqn:E; [|done]. injection Hb as ->. pose proof (proj1 (proj1 Hgd)) as Hs.
      unfold genuine. rewrite (t_hash _ (stored_tree _ Hs) _ _ E). by eapply stored_block. }
    assert (HF' : Forall genuine (blocks ++ [b])) by (by apply Forall_app_2; [|constructor]).
    cbv zeta. destruct (bool_decide _ || bool_decide _); [|by apply IH].
    apply wp_bind. eapply wp_conseq; [by apply Hins| |done]. intros r m' Hr. unfold after in Hr. destruct (i_err r) as [e|]; [by apply wp_ret|].
    apply imported_none in Hr. apply wp_bind, wp_get. destruct (procInterrupt m'); [apply wp_ret; by apply good_imported|by apply IH].
Qed.

Lemma insertSidechain_good insert force it m :
  imports insert → kept m → Forall genuine (it_rest it) → (∀ c, it_current it = Some c → genuine c ∧ linked (k_blocks (k_db (core m))) c) →
  wp (insertSidechain fuel insert force it) after (fun _ _ => False) m.
Proof.
  intros Hins Hgd HF Hcur. unfold insertSidechain. apply wp_bind, wp_get, wp_bind, wp_lift; [|by intros e He; apply deref_err in He].
  intros c _. cbv zeta. destruct (it_current it) as [b|]; [|apply wp_ret; by apply good_imported].
  destruct (Hcur b eq_refl) as [Hb Hl]. apply wp_bind.
  eapply wp_conseq; [apply side_loop_good; [done|by constructor|done]| |done]. intros [i|[[it' err] ext]] m' Hm'; [apply wp_ret; by apply good_imported|].
  case_bool_decide; [apply wp_ret; by apply good_imported|]. apply wp_bind, wp_get, wp_bind, wp_lift; [|by intros e He; apply deref_err in He].
  intros prev _. apply wp_bind, wp_lift.
  - intros [[p|] hs] _; cbn [fst snd]; [by apply segments_good|apply wp_ret; by apply good_imported].
  - intros e He. exfalso. revert He. generalize (GetMinorBlock (Hash prev) m'), (@nil Z).
    clear. revert fuel. induction fuel as [|f IH]; intros [p|] l; cbn [pruned_loop]; try done;
      destruct (HasState _ _); try done. apply IH.
Qed.

Lemma insertChain_good depth chain force readOnly m :
  kept m → Forall genuine chain → wp (insertChain depth fuel chain force readOnly) after (fun _ _ => False) m.
Proof.
  revert chain m. induction depth as [|depth IH]; intros chain m Hgd HF; cbn [insertChain]; apply wp_bind, wp_get.
  all: destruct (procInterrupt m); [apply wp_ret; by apply good_imported|].
  all: apply wp_bind; eapply wp_conseq; [apply (it_next_spec (validate force) kept genuine answered); eauto using validate_answer| |done].
  all: intros [it err] m1 Hpos; pose proof Hpos as (Hgd1 & HF' & Hcur); cbn [fst snd] in Hcur.
  all: destruct (it_current it) as [b|] eqn:Ec; [destruct (Hcur b eq_refl) as [Hb Ha]; destruct err as [e|]|];
    [|apply import_from_good; exact Hpos..].
  all: case_bool_decide as Epr;
    [|destruct (_ || _);
      [apply wp_bind; eapply wp_conseq; [apply (queue_loop_spec (validate force) addFutureBlock kept genuine answered);
         eauto using validate_answer, futureBlock_keeps|intros [it' err'] m' Hm'; apply wp_ret; by apply good_imported|done]|];
      case_bool_decide; [|apply wp_ret; by apply good_imported];
      apply wp_bind, wp_lift; [|by intros e' He'; apply deref_err in He']; intros c _; apply wp_bind;
      (eapply wp_conseq; [apply (skip_known_spec (validate force) kept genuine answered); eauto using validate_answer| |done]);
      intros [it' err'] m' Hm'; by apply import_from_good].
  - by apply wp_lift.
  - apply insertSidechain_good; [|done|done|].
    + intros blocks m' Hm' HB. by apply IH.
    + intros c Hc. rewrite Ec in Hc. injection Hc as <-. split; [done|]. destruct Ha as [[=]|Ha]; [congruence|]. apply Ha. right. by rewrite Epr.
Qed.

(** ** A root block is added *)

Section new_root.
Context (k : Core) (r : RootBlock).
Context (Hs : stored_ok (k_blocks (k_db k))) (Hr : block_of (Hash r) = Some (inr r)) (Hnew : root_of (k_blocks (k_db k)) (Hash r) = None).
(** The core with the root block and the block it confirms last. *)
Definition with_root (h : Z) : Core :=
  mkCore (mkDbCore (<[Hash r := inr r]> (k_blocks (k_db k))) (k_canon (k_db k)) (k_headHash (k_db k))
    (<[Hash r := h]> (k_lastConfirmed (k_db k)))) (k_current k) (k_rootTip k) (k_confirmed k).
Abbreviation bl := (k_blocks (k_db k)).
Abbreviation bl' := (<[Hash r := inr r]> bl).

Lemma root_fresh : bl !! Hash r = None.
Proof.
  destruct (bl !! Hash r) as [x|] eqn:E; [|done]. pose proof (s_genuine _ Hs _ _ E) as Hx. rewrite Hr in Hx. injection Hx as <-.
  unfold root_of in Hnew. by rewrite E in Hnew.
Qed.
Lemma root_minor h : minor_of bl' h = minor_of bl h.
Proof.
  unfold minor_of. destruct (decide (h = Hash r)) as [->|Hne]; [by rewrite lookup_insert_eq, root_fresh|by rewrite lookup_insert_ne].
Qed.
Lemma root_minor_up n b : up (minor_of bl') n b = up (minor_of bl) n b.
Proof. revert b. induction n as [|n IH]; intros b; [done|]. cbn [up]. rewrite root_minor. by destruct (minor_of bl _). Qed.
Lemma root_sub h x : root_of bl h = Some x → root_of bl' h = Some x.
Proof. unfold root_of. intros Hx. rewrite lookup_insert_ne; [done|]. intros <-. by rewrite root_fresh in Hx. Qed.
Lemma root_self : root_of bl' (Hash r) = Some r.
Proof. unfold root_of. by rewrite lookup_insert_eq. Qed.
Lemma root_inv h x : root_of bl' h = Some x → x = r ∧ h = Hash r ∨ root_of bl h = Some x.
Proof.
  unfold root_of. destruct (decide (h = Hash r)) as [->|Hne]; [rewrite lookup_insert_eq; intros [= <-]; by left|].
  rewrite lookup_insert_ne by done. by right.
Qed.

Lemma root_stored h : stored_ok (k_blocks (k_db (with_root h))).
Proof.
  constructor; cbn [with_root k_db k_blocks].
  - intros x y. destruct (decide (x = Hash r)) as [->|Hne]; [rewrite lookup_insert_eq; by intros [= <-]|].
    rewrite lookup_insert_ne by done. apply (s_genuine _ Hs).
  - intros x b p. rewrite !root_minor. apply (s_link _ Hs).
  - intros x b. rewrite root_minor, root_minor_up. apply (s_rooted _ Hs).
Qed.
Lemma root_head h c : head_ok k c → head_ok (with_root h) c.
Proof.
  intros Hc. constructor; [apply Hc| |apply Hc]. constructor; cbn [with_root k_db k_blocks k_canon]; [| |apply Hc].
  - rewrite root_minor. apply Hc.
  - intros n Hn. rewrite (h_canon _ _ Hc n Hn). by rewrite root_minor_up.
Qed.
Lemma root_roots h p : roots_ok bl → root_of bl (ParentHash r) = Some p → roots_ok (k_blocks (k_db (with_root h))).
Proof.
  intros Hro Hp. pose proof (up_mono _ _ root_sub) as Hmono. constructor; cbn [with_root k_db k_blocks].
  intros x y Hy. apply root_inv in Hy as [[-> ->]|Hy].
  - destruct (r_based _ Hro _ _ Hp) as [Hb [g Hgp]]. apply root_block in Hp as Hp'; [|done]. destruct Hp' as (Hp' & _).
    pose proof (g_root_link Hg _ _ _ Hr Hp') as Hn. split; [lia|].
    replace (Z.to_nat (NumberU64 r - base)) with (S (Z.to_nat (NumberU64 p - base))) by lia.
    rewrite (up_parent _ _ _ _ (root_sub _ _ Hp)). eauto.
  - destruct (r_based _ Hro _ _ Hy) as [Hb [g Hgy]]. eauto.
Qed.
Lemma root_follows h p : follows k → root_of bl (ParentHash r) = Some p → follows (with_root h).
Proof.
  intros Hf Hp. pose proof (up_mono _ _ root_sub) as Hmono. constructor.
  - by eapply root_roots; [apply Hf|].
  - destruct (f_tip _ Hf) as (t & Ht & Hst). exists t. split; [done|by apply root_sub].
  - intros c Hc. destruct (f_head _ Hf c Hc) as [Hcf (t & q & Ht & Hq & Hle & Hup)]. constructor.
    + intros x Hx. destruct (Hcf x Hx) as [Hsx [Hlx Hux]]. split; [cbn [with_root k_db k_blocks]; by rewrite root_minor|].
      split; [done|]. cbn [with_root k_db k_blocks]. by rewrite root_minor_up.
    + exists t, q. split_and!; [done|by apply root_sub|]. split; [done|by apply Hmono].
Qed.
(** What the known root blocks and the new one confirm. *)
Lemma root_confirmed_old h x : roots_ok bl → root_of bl h = Some x → confirmed_by bl' x = confirmed_by bl x.
Proof. intros Hro Hx. unfold confirmed_by. rewrite (below_mono _ _ root_sub); [done|]. by eapply r_based. Qed.
Lemma root_confirmed_new p : roots_ok bl → root_of bl (ParentHash r) = Some p →
  confirmed_by bl' r = match last (own_of r) with Some h => Some h | None => confirmed_by bl p end.
Proof.
  intros Hro Hp. destruct (r_based _ Hro _ _ Hp) as [Hb _]. destruct (root_block _ _ _ Hs Hp) as (Hp' & _).
  pose proof (g_root_link Hg _ _ _ Hr Hp') as Hn. rewrite <- (root_confirmed_old _ _ Hro Hp). unfold confirmed_by.
  replace (Z.to_nat (NumberU64 r - base)) with (S (Z.to_nat (NumberU64 p - base))) by lia.
  rewrite (below_parent _ _ _ _ (root_sub _ _ Hp)). cbn [rev]. rewrite fmap_app, concat_app, last_app. cbn.
  by rewrite app_nil_r.
Qed.
Lemma root_tracks h p : tracks k → root_of bl (ParentHash r) = Some p →
  (P → h = match confirmed_by bl' r with Some x => mh_hash x | None => 0 end ∧
       ∀ x, confirmed_by bl' r = Some x → ∃ b, minor_of bl (mh_hash x) = Some b ∧ mb_header b = x) →
  tracks (with_root h).
Proof.
  intros [Hf He] Hp Hh. split; [by eapply root_follows|]. intros HP. specialize (He HP). destruct (Hh HP) as [E Hx].
  pose proof (f_roots _ Hf) as Hro. constructor; cbn [with_root k_db k_blocks k_lastConfirmed k_rootTip k_confirmed].
  - intros x y Hy. apply root_inv in Hy as [[-> ->]|Hy]; [by rewrite lookup_insert_eq|].
    rewrite lookup_insert_ne, (root_confirmed_old x) by (done || intros <-; by rewrite Hnew in Hy). by apply (e_entry _ He).
  - intros x y z Hy Hz. apply root_inv in Hy as [[-> ->]|Hy].
    + destruct (Hx z Hz) as (b & Hb & Eb). exists b. by rewrite root_minor.
    + rewrite (root_confirmed_old x) in Hz by done. destruct (e_block _ He _ _ _ Hy Hz) as (b & Hb & Eb). exists b. by rewrite root_minor.
  - intros t Ht. destruct (f_tip _ Hf) as (t' & Ht' & Hst). rewrite Ht in Ht'. injection Ht' as <-.
    rewrite (root_confirmed_old _ _ Hro Hst). by apply (e_tip _ He).
Qed.
End new_root.

(** A root block that exists, with headers of blocks that exist. *)
Definition root_genuine (r : RootBlock) : Prop :=
  block_of (Hash r) = Some (inr r) ∧
  ∀ h, h ∈ MinorBlockHeaders r → Account.Value (mh_branch h) = Account.Value (c_branch config) →
    ∃ b, block_of (mh_hash h) = Some (inl b) ∧ mb_header b = h.

Lemma own_headers_spec hs (m : Chain) l h :
  own_headers hs m = Ok l → h ∈ l →
  h ∈ hs ∧ Account.Value (mh_branch h) = Account.Value (c_branch config) ∧ mc_HasBlock (mh_hash h) m = true.
Proof.
  revert l. induction hs as [|x hs IH]; intros l E Hh; cbn [own_headers] in E; [injection E as <-; by apply not_elem_of_nil in Hh|].
  assert (∀ l, own_headers hs m = Ok l → h ∈ l → h ∈ x :: hs ∧ Account.Value (mh_branch h) = Account.Value (c_branch config) ∧
    mc_HasBlock (mh_hash h) m = true) as Htail.
  { intros l' E' Hl'. destruct (IH l' E' Hl') as (? & ? & ?). split_and!; [by apply elem_of_cons; right|done|done]. }
  destruct (Z.eqb_spec (Account.Value (mh_branch x)) (Account.Value (c_branch config))) as [Eb|Eb].
  - destruct (mc_HasBlock (mh_hash x) m) eqn:Ex; cbn [negb] in E; [|done].
    destruct (own_headers hs m) as [l'| |] eqn:El; [|done..]. injection E as <-.
    apply elem_of_cons in Hh as [->|Hh]; [|by apply (Htail l')]. split_and!; [by apply elem_of_cons; left|done|done].
  - revert E. destruct (match mc_GetRootBlockByHash _ _ with Some _ => _ | None => _ end) as [[]| |]; try done;
      cbn [mbind result_bind]; destruct (db_ReadCrossShardTxList _ _); try done; intros E; by apply (Htail l).
Qed.

Lemma own_headers_eq hs (m : Chain) l :
  own_headers hs m = Ok l → l = filter (fun h => Account.Value (mh_branch h) = Account.Value (c_branch config)) hs.
Proof.
  revert l. induction hs as [|x hs IH]; intros l E; cbn [own_headers] in E; [by injection E as <-|]. rewrite filter_cons.
  destruct (Z.eqb_spec (Account.Value (mh_branch x)) (Account.Value (c_branch config))) as [Eb|Eb].
  - rewrite decide_True by done. destruct (mc_HasBlock (mh_hash x) m); cbn [negb] in E; [|done].
    destruct (own_headers hs m) as [l'| |]; [|done..]. injection E as <-. f_equal. by apply IH.
  - rewrite decide_False by done. apply IH. revert E.
    destruct (match mc_GetRootBlockByHash _ _ with Some _ => _ | None => _ end) as [[]| |]; try done;
      cbn [mbind result_bind]; by destruct (db_ReadCrossShardTxList _ _).
Qed.
(** The header chosen is the last of the block's own, or what the parent confirms. *)
Lemma confirmed_header_by r p l (m : Chain) sh :
  stored_ok (k_blocks (k_db (core m))) → entries_ok (core m) → root_of (k_blocks (k_db (core m))) (ParentHash r) = Some p →
  own_headers (MinorBlockHeaders r) m = Ok l → confirmed_header r l m = Ok sh →
  sh = match last (own_of r) with Some h => Some h | None => confirmed_by (k_blocks (k_db (core m))) p end.
Proof.
  intros Hs He Hp El E. apply own_headers_eq in El. change (l = own_of r) in El. rewrite <- El. unfold confirmed_header in E.
  destruct l as [|h0 l].
  - cbn [last]. injection E as <-. unfold getLastConfirmedMinorBlockHeaderAtRootBlock, ReadLastConfirmedMinorBlockHeaderAtRootBlock.
    pose proof (e_entry _ He _ _ Hp) as Ee. change (k_lastConfirmed (k_db (core m))) with (d_lastConfirmed (db m)) in Ee.
    change (rb_parent r) with (ParentHash r). rewrite Ee.
    destruct (confirmed_by _ p) as [x|] eqn:Ex; [|done]. destruct (e_block _ He _ _ _ Hp Ex) as (b & Hb & Eb).
    destruct (Z.eqb_spec (mh_hash x) 0) as [E0|_].
    + rewrite E0 in Hb. apply stored_block in Hb as [_ Hb]; [|done]. by rewrite (g_zero Hg) in Hb.
    + change (GetMinorBlock (mh_hash x) m) with (minor_of (k_blocks (k_db (core m))) (mh_hash x)). rewrite Hb. cbn. by rewrite Eb.
  - destruct (last (h0 :: l)) as [y|] eqn:Ey; [|by apply last_None in Ey].
    revert E. destruct (if mh_number h0 =? 0 then _ else _) as [[]| |]; try done; cbn [mbind result_bind]. by intros [= <-].
Qed.

Lemma confirmed_header_spec r l (m : Chain) h :
  stored_ok (k_blocks (k_db (core m))) → root_genuine r → own_headers (MinorBlockHeaders r) m = Ok l →
  confirmed_header r l m = Ok (Some h) →
  ∃ b, minor_of (k_blocks (k_db (core m))) (mh_hash h) = Some b ∧ mb_header b = h.
Proof.
  intros Hs [_ Hr] El E. unfold confirmed_header in E. destruct l as [|h0 l].
  - unfold getLastConfirmedMinorBlockHeaderAtRootBlock in E. destruct (_ =? 0); [done|].
    destruct (GetMinorBlock _ m) as [b|] eqn:Eb; [|done]. injection E as <-. exists b. split; [|done].
    change (mh_hash (mb_header b)) with (Hash b). by rewrite (t_hash _ (stored_tree _ Hs) _ _ Eb).
  - assert (last (h0 :: l) = Some h) as Elast.
    { revert E. destruct (if mh_number h0 =? 0 then _ else _) as [[]| |]; try done; cbn [mbind result_bind]. by intros [= <-]. }
    apply last_Some_elem_of in Elast. destruct (own_headers_spec _ _ _ _ El Elast) as (Hin & Hbr & Hhas).
    destruct (Hr h Hin Hbr) as (b & Hgb & Hbh). unfold mc_HasBlock, HasBlock in Hhas. apply bool_decide_eq_true in Hhas as [x Hx].
    pose proof (s_genuine _ Hs _ _ Hx) as Hgx. rewrite Hgb in Hgx. injection Hgx as <-. exists b. split; [|done].
    unfold minor_of. change (k_blocks (k_db (core m))) with (d_blocks (db m)). by rewrite Hx.
Qed.

(** What the header that a root block confirms last tells: its block is stored,
    and refers to a root block on the chain of this one. *)
Definition confirmed_ok (bl : gmap Z (MinorBlock + RootBlock)) (r : RootBlock) (h : MinorBlockHeader) : Prop :=
  ∃ b p, minor_of bl (mh_hash h) = Some b ∧ mb_header b = h ∧ root_of bl (PrevRootBlockHash h) = Some p ∧ on_root_chain bl r p.

Lemma store_root_core r p m :
  kept m → root_genuine r → root_of (k_blocks (k_db (core m))) (Hash r) = None →
  root_of (k_blocks (k_db (core m))) (ParentHash r) = Some p →
  wp (store_root r) (fun sh m' => (∃ hz, core m' = with_root (core m) r hz) ∧ tracks (core m') ∧
    (∀ h, sh = Some h → confirmed_ok (k_blocks (k_db (core m'))) r h) ∧
    (P → sh = confirmed_by (k_blocks (k_db (core m'))) r)) (fun _ _ => True) m.
Proof.
  intros [[Hs [c Hc]] Hf] Hr Hnew Hp. pose proof Hr as [Hrg _]. unfold store_root.
  apply wp_bind, wp_get, wp_bind, wp_lift; [|done]. intros l El. case_bool_decide; [done|]. apply wp_bind, wp_lift; [|done].
  intros sh Esh. apply wp_bind. unfold putRootBlock. apply wp_bind, wp_mod, wp_mod.
  set (m1 := set_db (WriteRootBlock r _) _). apply wp_bind, wp_get.
  assert (core m1 = with_root (core m) r (match sh with Some h => mh_hash h | None => 0 end)) as Em1 by done. clearbody m1.
  assert (P → sh = confirmed_by (k_blocks (k_db (core m1))) r) as Hby.
  { intros HP. rewrite Em1. cbn [with_root k_db k_blocks]. rewrite (root_confirmed_new (core m) r Hs Hrg Hnew p (f_roots _ Hf) Hp).
    by apply (confirmed_header_by r p l m); [|apply Hf|..]. }
  assert (tracks (core m1)) as Htr1.
  { rewrite Em1 in Hby |- *. cbn [with_root k_db k_blocks] in Hby. apply (root_tracks (core m) r Hs Hrg Hnew _ p Hf Hp). intros HP. rewrite <- (Hby HP). split; [done|].
    intros x ->. by apply (confirmed_header_spec r l m x). }
  destruct sh as [h|]; [|apply wp_ret; split_and!; [by eexists|done|done|done]].
  pose proof (root_stored (core m) r Hs Hrg Hnew (mh_hash h)) as Hs1. rewrite <- Em1 in Hs1.
  pose proof (root_roots (core m) r Hs Hrg Hnew (mh_hash h) p (f_roots _ Hf) Hp) as Hro1. rewrite <- Em1 in Hro1.
  destruct (confirmed_header_spec r l m h Hs Hr El Esh) as (b & Hb & Hbh).
  apply wp_bind, wp_lift; [|done]. intros same Esame. destruct same; [|done]. apply wp_ret. split_and!; [by eexists|done| |done]. intros ? [= <-].
  destruct (mc_GetRootBlockByHash (PrevRootBlockHash h) m1) as [q|] eqn:Eq; [|done].
  change (root_of (k_blocks (k_db (core m1))) (PrevRootBlockHash h) = Some q) in Eq.
  assert (Hsr : root_of (k_blocks (k_db (core m1))) (Hash r) = Some r) by (rewrite Em1; apply root_self).
  destruct (same_root_spec r q m1 _ _ Hs1 Hro1 Hsr Eq) as (x & Ex & Hx). rewrite Ex in Esame. injection Esame as ->.
  exists b, q. split_and!; [|done|done|by apply Hx]. rewrite Em1. cbn [with_root k_db k_blocks]. by rewrite root_minor.
Qed.

(** ** The head follows the root tip *)

Definition with_current (k : Core) (x : MinorBlock) : Core := mkCore (k_db k) (Some x) (k_rootTip k) (k_confirmed k).
(** The genesis blocks stay on the chain of the root block. *)
Definition genesis_kept (bl : gmap Z (MinorBlock + RootBlock)) (r : RootBlock) : Prop :=
  ∀ h b, minor_of bl h = Some b → NumberU64 b = 0 → ∃ p, root_of bl (PrevRootBlockHash (mb_header b)) = Some p ∧ on_root_chain bl r p.

(** A block refers to a root block on the chain of [r]; the nearest such block on
    the way down from a block. *)
Definition refers (bl : gmap Z (MinorBlock + RootBlock)) (r : RootBlock) (x : MinorBlock) : Prop :=
  ∃ p, root_of bl (PrevRootBlockHash (mb_header x)) = Some p ∧ on_root_chain bl r p.
Definition nearest (bl : gmap Z (MinorBlock + RootBlock)) (r : RootBlock) (x x' : MinorBlock) : Prop :=
  ∃ n, up (minor_of bl) n x = Some x' ∧ refers bl r x' ∧
    ∀ i y, (i < n)%nat → up (minor_of bl) i x = Some y → ¬ refers bl r y.
Lemma nearest_parent bl r x p x' :
  minor_of bl (ParentHash x) = Some p → ¬ refers bl r x → nearest bl r p x' → nearest bl r x x'.
Proof.
  intros Hp Hx (n & Hn & Hr & Hi). exists (S n). split_and!; [by rewrite (up_parent _ _ _ _ Hp)|done|].
  intros [|i] y Hin Hy; [by injection Hy as <-|]. rewrite (up_parent _ _ _ _ Hp) in Hy. by apply (Hi i); [lia|].
Qed.

Lemma same_root_block r x (m : Chain) same :
  let bl := k_blocks (k_db (core m)) in
  stored_ok bl → roots_ok bl → root_of bl (Hash r) = Some r →
  isSameRootChain (Some r) (mc_GetRootBlockByHash (PrevRootBlockHash (mb_header x)) m) m = Ok same →
  (same = true ↔ refers bl r x).
Proof.
  intros bl Hs Hro Hsr E. change (mc_GetRootBlockByHash (PrevRootBlockHash (mb_header x)) m) with
    (root_of bl (PrevRootBlockHash (mb_header x))) in E.
  destruct (root_of bl (PrevRootBlockHash (mb_header x))) as [p|] eqn:Ep.
  - destruct (same_root_spec r p m (Hash r) (PrevRootBlockHash (mb_header x)) Hs Hro Hsr Ep) as (y & Ey & Hy).
    rewrite Ey in E. injection E as ->. rewrite Hy. unfold refers. rewrite Ep. split; [eauto|by intros (p' & [= ->] & ?)].
  - injection E as <-. unfold refers. rewrite Ep. split; [done|by intros (? & ? & _)].
Qed.

Lemma retreat_core depth n r k x m :
  core m = with_current k x → stored_ok (k_blocks (k_db k)) → roots_ok (k_blocks (k_db k)) → genesis_kept (k_blocks (k_db k)) r →
  k_rootTip k = Some r → root_of (k_blocks (k_db k)) (Hash r) = Some r → minor_of (k_blocks (k_db k)) (Hash x) = Some x →
  (∀ t, k_confirmed k = Some t → on_chain (k_blocks (k_db k)) x t ∧
     ∃ p, root_of (k_blocks (k_db k)) (PrevRootBlockHash (mb_header t)) = Some p ∧ on_root_chain (k_blocks (k_db k)) r p) →
  wp (retreat depth fuel n) (fun reset m' => reset = false ∧ ∃ x', core m' = with_current k x' ∧ fits_tip k x' ∧
     minor_of (k_blocks (k_db k)) (Hash x') = Some x' ∧ nearest (k_blocks (k_db k)) r x x') (fun _ _ => True) m.
Proof.
  intros Hm Hs Hro Hgen Htip Hsr. revert x m Hm. induction n as [|n IH]; intros x m Hm Hx Hconf; cbn [retreat].
  all: assert (currentBlock m = Some x) as Ecur by (change (k_current (core m) = Some x); by rewrite Hm).
  all: assert (rootTip m = Some r) as Etip by (change (k_rootTip (core m) = Some r); by rewrite Hm).
  all: apply wp_bind, wp_get; rewrite Ecur, Etip; apply wp_bind, wp_lift; [|done]; intros ? [= <-].
  all: apply wp_bind, wp_lift; [|done]; intros same Esame.
  all: pose proof (same_root_block r x m same) as Hsame; rewrite Hm in Hsame; specialize (Hsame Hs Hro Hsr Esame);
    cbn [with_current k_db] in Hsame.
  all: destruct same; [apply wp_ret; split; [done|]; exists x; split_and!; [done| |done|exists 0%nat; split_and!; [done|by apply Hsame|lia]];
    split; [intros t Ht; by apply Hconf|]; exists r; destruct (proj1 Hsame eq_refl) as (p & ? & ?); eauto|].
  all: destruct (Z.eqb_spec (NumberU64 x) 0) as [Ex0|Ex0]; [by pose proof (proj2 Hsame (Hgen _ _ Hx Ex0))|].
  { by apply wp_lift. }
  apply wp_bind, wp_lift; [|done]. intros pre Hpre.
  assert (Hp : minor_of (k_blocks (k_db k)) (ParentHash x) = Some pre).
  { replace (k_blocks (k_db k)) with (k_blocks (k_db (core m))) by (by rewrite Hm).
    change (GetMinorBlock (ParentHash x) m = Some pre). destruct (GetMinorBlock (ParentHash x) m); [|done]. by injection Hpre as ->. }
  pose proof (stored_tree _ Hs) as Ht. pose proof (t_link _ Ht _ _ _ Hx Hp) as Hn.
  apply wp_bind, wp_mod. eapply wp_conseq; [apply (IH pre)| |done]; [|by rewrite (t_hash _ Ht _ _ Hp)| |].
  - change (mkCore (k_db (core m)) (Some pre) (k_rootTip (core m)) (k_confirmed (core m)) = with_current k pre). by rewrite Hm.
  - intros t Htc. destruct (Hconf t Htc) as [[Hle Hup] Hpr]. split; [|done].
    destruct (decide (NumberU64 t = NumberU64 x)) as [E|E].
    { rewrite E, Z.sub_diag in Hup. injection Hup as ->. by apply Hsame in Hpr. }
    split; [lia|]. replace (Z.to_nat (NumberU64 x - NumberU64 t)) with (S (Z.to_nat (NumberU64 pre - NumberU64 t))) in Hup by lia.
    by rewrite (up_parent _ _ _ _ Hp) in Hup.
  - intros reset m' (-> & x' & Em' & Hfit & Hx' & Hnear). split; [done|]. exists x'. split_and!; [done..|].
    apply (nearest_parent _ _ _ _ _ Hp); [|done]. intros Hx0. by apply Hsame in Hx0.
Qed.

(** GetBlockByNumber, on the core. *)
Definition by_number (k : Core) (n : Z) : option MinorBlock :=
  let h := default 0 (k_canon (k_db k) !! n) in if h =? 0 then None else minor_of (k_blocks (k_db k)) h.

Lemma on_chain_refl bl b : on_chain bl b b.
Proof. split; [done|]. by rewrite Z.sub_diag. Qed.

(** The block of the index at a height of the chain is an ancestor of the head. *)
Lemma canonical_on_chain k c b n :
  stored_ok (k_blocks (k_db k)) → indexed (k_db k) c → minor_of (k_blocks (k_db k)) (Hash b) = Some b →
  k_canon (k_db k) !! n = Some (Hash b) → n = NumberU64 b → on_chain (k_blocks (k_db k)) c b.
Proof.
  intros Hs Hc Hb Hn ->. pose proof (stored_tree _ Hs) as Ht. pose proof (t_number _ Ht _ _ Hb) as Hnb.
  assert (NumberU64 b <= NumberU64 c) as Hle.
  { destruct (decide (NumberU64 b <= NumberU64 c)) as [|Hgt]; [done|]. rewrite (h_above _ _ Hc) in Hn by lia. done. }
  split; [done|]. rewrite (h_canon _ _ Hc) in Hn by lia.
  destruct (up (minor_of (k_blocks (k_db k))) _ c) as [x|] eqn:E; [|done]. f_equal. injection Hn as Hn.
  eapply stored_inj; [by eapply up_stored; [|apply Hc|]|done|done].
Qed.

(** The index has a block at its height exactly if it is on the head's chain. *)
Lemma canonical_stays k c b :
  stored_ok (k_blocks (k_db k)) → head_ok k c → minor_of (k_blocks (k_db k)) (Hash b) = Some b →
  match by_number k (NumberU64 b) with Some b0 => bool_decide (Hash b0 = Hash b) | None => false end = true ↔
  on_chain (k_blocks (k_db k)) c b.
Proof.
  intros Hs Hc Hb. pose proof (stored_tree _ Hs) as Ht. unfold by_number. cbv zeta. split.
  - destruct (Z.eqb_spec (default 0 (k_canon (k_db k) !! NumberU64 b)) 0) as [|Hne]; [done|].
    destruct (k_canon (k_db k) !! NumberU64 b) as [hc|] eqn:Ehc; [|done]. cbn [default from_option id] in *.
    destruct (minor_of (k_blocks (k_db k)) hc) as [b0|] eqn:E0; [|done]. intros Eh. apply bool_decide_eq_true in Eh.
    apply (canonical_on_chain k c b (NumberU64 b)); [done|apply Hc|done| |done]. by rewrite Ehc, <- Eh, (t_hash _ Ht _ _ E0).
  - intros [Hle Hup]. pose proof (t_number _ Ht _ _ Hb).
    assert (default 0 (k_canon (k_db k) !! NumberU64 b) = Hash b) as -> by (rewrite (h_canon _ _ Hc), Hup by lia; done).
    rewrite (proj2 (Z.eqb_neq _ _) (stored_hash_ne _ Ht b Hb)), Hb. by apply bool_decide_eq_true.
Qed.

(** Where the head starts when the root tip moves: it stays if the confirmed block
    is on its chain, and is the confirmed block otherwise. *)
Definition starts (bl : gmap Z (MinorBlock + RootBlock)) (c : MinorBlock) (t : option MinorBlock) (x : MinorBlock) : Prop :=
  match t with
  | Some t => on_chain bl c t ∧ x = c ∨ ¬ on_chain bl c t ∧ x = t
  | None => x = c
  end.

Lemma switch_root_good depth r sh c m :
  let k := core m in
  stored_ok (k_blocks (k_db k)) → head_ok k c → roots_ok (k_blocks (k_db k)) → genesis_kept (k_blocks (k_db k)) r →
  root_of (k_blocks (k_db k)) (Hash r) = Some r → (∀ h, sh = Some h → confirmed_ok (k_blocks (k_db k)) r h) →
  (P → entries_ok k ∧ sh = confirmed_by (k_blocks (k_db k)) r) →
  wp (switch_root depth fuel r sh) (fun b m' => b = true ∧ kept m' ∧ rootTip m' = Some r ∧
    mb_header <$> confirmedHeaderTip m' = sh ∧ ∃ x x', currentBlock m' = Some x' ∧ k_blocks (k_db (core m')) = k_blocks (k_db k) ∧
    starts (k_blocks (k_db k)) c (confirmedHeaderTip m') x ∧ nearest (k_blocks (k_db k)) r x x') (fun _ _ => True) m.
Proof.
  intros k Hs Hc Hro Hgen Hsr Hsh He. unfold switch_root. apply wp_bind, wp_mod, wp_bind, wp_get, wp_bind, wp_mod.
  cbn [currentBlock set_rootTip set_confirmedHeaderTip].
  pose proof (h_current _ _ Hc) as Ecur. change (currentBlock m = Some c) in Ecur. rewrite Ecur.
  apply wp_bind, wp_lift; [|done]. intros ? [= <-].
  set (t := match sh with Some h => GetMinorBlock (mh_hash h) (set_rootTip (Some r) m) | None => None end).
  change (sh ≫= _) with t. set (m1 := set_confirmedHeaderTip t _). set (k1 := mkCore (k_db k) (Some c) (Some r) t).
  assert (Em1 : core m1 = k1) by (unfold k1; rewrite <- Ecur; done).
  assert (Ht : mb_header <$> t = sh ∧ ∀ b, t = Some b → ∃ h, sh = Some h ∧ mb_header b = h ∧ minor_of (k_blocks (k_db k)) (Hash b) = Some b).
  { subst t. destruct sh as [h|]; [|done]. destruct (Hsh h eq_refl) as (b & p & Hb & Hh & _).
    change (GetMinorBlock (mh_hash h) (set_rootTip (Some r) m)) with (minor_of (k_blocks (k_db k)) (mh_hash h)). rewrite Hb. split; [by rewrite <- Hh|].
    intros ? [= <-]. exists h. split_and!; [done|done|]. change (Hash b) with (mh_hash (mb_header b)). by rewrite Hh. }
  (* the head starts from a block on the confirmed one *)
  apply wp_bind. eapply (wp_conseq _ (fun _ m2 => ∃ x, core m2 = with_current k1 x ∧ minor_of (k_blocks (k_db k)) (Hash x) = Some x ∧
    (∀ b, t = Some b → on_chain (k_blocks (k_db k)) x b) ∧ starts (k_blocks (k_db k)) c t x) _ (fun _ _ => True)); [| |done].
  { destruct sh as [h|]; [|apply wp_ret; exists c; split_and!; [done|apply Hc|subst t; done|done]].
    destruct (Hsh h eq_refl) as (b & p & Hb & Hh & _).
    assert (Et : t = Some b) by (subst t; exact Hb). 
    assert (Hb' : minor_of (k_blocks (k_db k)) (Hash b) = Some b) by (change (Hash b) with (mh_hash (mb_header b)); by rewrite Hh).
    change (GetMinorBlock (mh_hash h) (set_rootTip (Some r) m)) with (minor_of (k_blocks (k_db k)) (mh_hash h)). rewrite Hb.
    pose proof (canonical_stays k c b Hs Hc Hb') as Hst. rewrite Et.
    change (GetBlockByNumber (mh_number h) (set_rootTip (Some r) m)) with (by_number k (mh_number h)).
    rewrite <- Hh in *. change (mh_number (mb_header b)) with (NumberU64 b). change (mh_hash (mb_header b)) with (Hash b).
    destruct (match by_number k (NumberU64 b) with Some b0 => bool_decide (Hash b0 = Hash b) | None => false end).
    - pose proof (proj1 Hst eq_refl) as Hon. apply wp_ret. exists c. split_and!; [done|apply Hc| |by left]. by intros ? [= <-].
    - assert (¬ on_chain (k_blocks (k_db k)) c b) as Hoff by (intros Hon; by apply Hst in Hon).
      apply wp_mod. exists b. split_and!; [done|done| |by right]. intros ? [= <-]. apply on_chain_refl. }
  intros _ m2 (x & Em2 & Hx & Hxt & Hstart). apply wp_bind.
  eapply wp_conseq; [eapply (retreat_core depth fuel r k1 x); try done| |done].
  { intros b Hb. split; [by apply Hxt|]. destruct (proj2 Ht b Hb) as (h & Esh & Hh & _).
    destruct (Hsh h Esh) as (b' & p & _ & _ & Hp & Hon). rewrite <- Hh in Hp. eauto. }
  intros reset m3 (-> & x' & Em3 & Hfit & Hx' & Hnear). apply wp_bind, wp_get.
  assert (∀ m4 canon, core m4 = moved k1 x' canon → head_ok (core m4) x' →
    kept m4 ∧ rootTip m4 = Some r ∧ mb_header <$> confirmedHeaderTip m4 = sh ∧
    ∃ x x', currentBlock m4 = Some x' ∧ k_blocks (k_db (core m4)) = k_blocks (k_db k) ∧
      starts (k_blocks (k_db k)) c (confirmedHeaderTip m4) x ∧ nearest (k_blocks (k_db k)) r x x') as Hdone.
  { intros m4 canon Em4 Hh4. split_and!.
    - split; [split; [rewrite Em4; exact Hs|by exists x']|]. rewrite Em4. split.
      2:{ intros HP. destruct (He HP) as [[He1 He2 _] Esh]. constructor; [exact He1|exact He2|].
          intros ? [= <-]. etrans; [apply Ht|exact Esh]. }
      constructor; [exact Hro|by exists r|].
      intros y [= <-]. destruct Hfit as [Hfc Hfr]. constructor; [|done]. intros b Hb. split; [|by apply Hfc].
      destruct (proj2 Ht b Hb) as (_ & _ & _ & Hsb). exact Hsb.
    - change (k_rootTip (core m4) = Some r). by rewrite Em4.
    - change (mb_header <$> k_confirmed (core m4) = sh). rewrite Em4. apply Ht.
    - change (confirmedHeaderTip m4) with (k_confirmed (core m4)). change (currentBlock m4) with (k_current (core m4)).
      rewrite Em4. by exists x, x'. }
  assert (Ecur3 : currentBlock m3 = Some x') by (change (k_current (core m3) = Some x'); by rewrite Em3).
  rewrite Ecur3. apply wp_bind, wp_lift; [|done]. intros ? [= <-].
  assert (Hix : indexed (k_db (core m3)) c) by (rewrite Em3; apply Hc). 
  case_bool_decide as Eh.
  - apply wp_ret. split; [done|]. assert (x' = c) as -> by (eapply stored_inj; [exact Hx'|apply Hc|done]).
    apply (Hdone m3 (k_canon (k_db k))).
    + rewrite Em3. unfold moved, with_current. rewrite <- (h_hash _ _ Hc). by destruct k as [[] ? ? ?].
    + rewrite Em3. constructor; [done|apply Hc|apply Hc].
  - assert (Hs3 : stored_ok (k_blocks (k_db (core m3)))) by (rewrite Em3; exact Hs).
    assert (Hx3 : minor_of (k_blocks (k_db (core m3))) (Hash x') = Some x') by (rewrite Em3; exact Hx').
    change (GetMinorBlock (Hash c) m3) with (minor_of (k_blocks (k_db (core m3))) (Hash c)).
    change (GetMinorBlock (Hash x') m3) with (minor_of (k_blocks (k_db (core m3))) (Hash x')).
    rewrite (h_stored _ _ Hix), Hx3. apply wp_bind, wp_lift; [|done]. intros ? [= <-]. apply wp_bind, wp_lift; [|done]. intros ? [= <-].
    apply wp_bind. unfold reWriteBlockIndexTo. apply wp_bind, wp_get, wp_bind, wp_lift; [|done]. intros st _. apply wp_bind.
    eapply wp_conseq; [by apply reorg_core| |done]. intros _ m4 (canon & Em4 & Hh4). apply wp_mod. apply wp_ret. split; [done|].
    apply (Hdone _ canon); [|exact Hh4]. change (core m4 = moved k1 x' canon). rewrite Em4, Em3. done.
Qed.

End tracked.

(** ** Reorganisation returns *)

(** With the history index off, the index of a block needs its list of deposits only. *)
Definition lists_kept (D : gmap Z (list Z)) (m : Chain) : Prop := d_depositHashes (db m) = D.
Definition b_lists (D : gmap Z (list Z)) (s : Db * Batch) : Prop := d_depositHashes s.1 = D.

Section total.
Context (Hhist : EnableTransactionHistory config = false) (D : gmap Z (list Z)).

Lemma history_off g tx h i : updateTxHistoryIndex g tx h i = mret tt.
Proof. unfold updateTxHistoryIndex. by rewrite Hhist. Qed.
Lemma block_history_off g b : updateTxHistoryIndexFromBlock g b = mret tt.
Proof. unfold updateTxHistoryIndexFromBlock. by rewrite Hhist. Qed.
Lemma tx_loop_oks P op i l : (∀ tx i, oks P (op tx i)) → oks P (tx_index_loop op i l).
Proof.
  intros Hop. revert i. induction l as [|tx l IH]; intros i; cbn [tx_index_loop]; [apply oks_ret|].
  apply oks_bind; [apply Hop|intros _; apply IH].
Qed.
Lemma batch_oks f : oks (b_lists D) (to_batch f).
Proof. apply oks_mod. by intros [d b]. Qed.
Lemma remove_oks b : oks (b_lists D) (removeTxIndexFromBlock b).
Proof.
  unfold removeTxIndexFromBlock. apply oks_bind.
  - apply tx_loop_oks. intros tx i. apply oks_bind; [apply batch_oks|]. intros _. rewrite history_off. apply oks_ret.
  - intros _. apply oks_get_bind. intros s Hs. apply oks_bind.
    + destruct (GetXShardDepositHashList _ _); [apply batch_oks|apply oks_ret].
    + intros _. rewrite block_history_off. apply oks_ret.
Qed.
Lemma for_each_oks {S} (P : S → Prop) (op : MinorBlock → SE S unit) l : Forall (fun b => oks P (op b)) l → oks P (for_each op l).
Proof. induction 1 as [|b l Hb Hl IH]; [apply oks_ret|]. cbn [for_each foldr]. apply oks_bind; [exact IH|by intros _]. Qed.
Lemma with_batch_oks {A} (op : SE (Db * Batch) A) b : oks (b_lists D) op → oks (lists_kept D) (with_batch op b).
Proof.
  intros Hop m Hm. destruct (Hop (db m, b) Hm) as (a & [d b'] & E & Hs). unfold with_batch. rewrite E.
  eexists _, _. split; [done|]. exact Hs.
Qed.
Lemma put_oks b : is_Some (D !! Hash b) → oks (b_lists D) (putTxIndexFromBlock to_db b).
Proof.
  intros [l Hl]. unfold putTxIndexFromBlock. apply oks_get_bind. intros s Hs. unfold GetXShardDepositHashList.
  rewrite Hs, Hl. apply oks_bind; [apply oks_mod; by intros [d b']|]. intros _. apply oks_bind.
  - apply tx_loop_oks. intros tx i. rewrite history_off. apply oks_ret.
  - intros _. rewrite block_history_off. apply oks_ret.
Qed.
Lemma insert_oks b : oks (lists_kept D) (chain_insert b).
Proof. intros m Hm. eexists _, _. split; [apply chain_insert_core|]. exact Hm. Qed.
Lemma announce_oks r l : oks (lists_kept D) (announce r l).
Proof.
  induction l as [|b l IH]; [apply oks_ret|]. cbn [announce foldr]. apply oks_bind; [|intros _; exact IH].
  unfold GetLogs. apply oks_bind; [apply oks_bind|].
  - intros m Hm. unfold GetReceiptsByHash. destruct (lru_get _ _); [|destruct (GetMinorBlock _ m)]; eexists _, _; (split; [reflexivity|exact Hm]).
  - intros; apply oks_ret.
  - intros logs. apply oks_mod. done.
Qed.
Lemma batch_write_lists l (m : Chain) b m1 :
  with_batch (remove_old l) [] m = (Ok (tt, b), m1) → ∀ d, d_depositHashes (batch_Write b d) = d_depositHashes d.
Proof.
  unfold with_batch. destruct (remove_old l (@pair Db Batch (db m) [])) as [r [d b']] eqn:E.
  destruct r as [u|e|e]; cbn [mbind result_bind]; [|done..]. intros [= _ <- _].
  assert (keeps (fun s : Db * Batch => ∀ d, d_depositHashes (batch_Write s.2 d) = d_depositHashes d) (remove_old l)) as Hk.
  { assert (∀ f, (∀ d, d_depositHashes (f d) = d_depositHashes d) →
      keeps (fun s : Db * Batch => ∀ d, d_depositHashes (batch_Write s.2 d) = d_depositHashes d) (to_batch f)) as Hb.
    { intros f Hf [d0 b0] Hs. intros d1. cbn [snd]. unfold batch_Write in *. rewrite foldl_app. cbn [foldl]. by rewrite Hf, Hs. }
    clear E. induction l as [|b l IH]; [apply keeps_ret|]. cbn [remove_old for_each foldr]. apply keeps_bind; [exact IH|]. intros _.
    apply keeps_bind; [|intros _; by apply Hb]. unfold removeTxIndexFromBlock. apply keeps_bind.
    - apply tx_loop_keeps. intros tx i. rewrite history_off. apply keeps_bind; [by apply Hb|intros; apply keeps_ret].
    - intros _. rewrite block_history_off. apply keeps_bind; [apply keeps_get|]. intros s. apply keeps_bind; [|intros; apply keeps_ret].
      destruct (GetXShardDepositHashList _ _) as [hs|]; [|apply keeps_ret]. apply Hb.
      induction hs as [|h hs IHh]; intros d1; [done|]. cbn [foldl]. by rewrite IHh. }
  specialize (Hk (@pair Db Batch (db m) [])). unfold wp in Hk. rewrite E in Hk. apply Hk. done.
Qed.

Lemma reorg_returns a b m :
  stored_ok (k_blocks (k_db (core m))) → minor_of (k_blocks (k_db (core m))) (Hash a) = Some a →
  minor_of (k_blocks (k_db (core m))) (Hash b) = Some b → d_depositHashes (db m) = D →
  (∀ n x, up (minor_of (k_blocks (k_db (core m)))) n b = Some x → is_Some (D !! Hash x)) →
  ∃ m', reorg fuel (Some a) (Some b) m = (Ok tt, m').
Proof.
  intros Hs Ha Hb HD Hl. pose proof (stored_tree _ Hs) as Ht. set (bl := k_blocks (k_db (core m))) in *.
  destruct (fork_point_spec (minor_of bl) Ht true fuel a b (or_introl eq_refl) (stored_rooted _ _ _ Hs Ha) (stored_rooted _ _ _ Hs Hb))
    as (i & j & x & Hf & Hp & _); [by eapply stored_fuel|by eapply stored_fuel|].
  cbn [reorg]. se_red. change (fun h => GetMinorBlock h m) with (minor_of bl). rewrite Hf.
  destruct (with_batch_oks (remove_old (below (minor_of bl) i a)) []) with (s := m) as ([[] batch] & m1 & E1 & Hm1); [|done|].
  { apply for_each_oks, Forall_forall. intros y _. apply oks_bind; [apply remove_oks|intros; apply batch_oks]. }
  rewrite E1. cbn [snd]. pose proof (batch_write_lists _ _ _ _ E1) as Hbw.
  assert (oks (lists_kept D) (
    _ ← (if bool_decide (length (below (minor_of bl) j b) = 0%nat) then chain_insert x else mret tt);
    _ ← insert_new (below (minor_of bl) j b);
    _ ← (if bool_decide (0 < length (deleted_logs (below (minor_of bl) i a) m))%nat
         then send ([deleted_logs (below (minor_of bl) i a) m], true) else mret tt);
    _ ← announce true (below (minor_of bl) i a);
    announce false (below (minor_of bl) j b))) as Hrest.
  { apply oks_bind; [case_bool_decide; [apply insert_oks|apply oks_ret]|]. intros _. apply oks_bind; [|intros _].
    - apply for_each_oks, Forall_forall. intros y Hy.
      assert (is_Some (D !! Hash y)) as HDy.
      { destruct (below_elem _ _ _ _ Hy) as (n & _ & Hn). by apply (Hl n). }
      apply oks_bind; [apply insert_oks|]. intros _. apply oks_bind; [|intros; apply oks_ret].
      by apply with_batch_oks, put_oks.
    - apply oks_bind; [case_bool_decide; [by apply oks_mod|apply oks_ret]|]. intros _.
      apply oks_bind; [apply announce_oks|intros _; apply announce_oks]. }
  destruct (Hrest (set_db (batch_Write batch (db m1)) m1)) as ([] & m2 & E2 & _).
  { unfold lists_kept. cbn [db set_db]. rewrite Hbw. exact Hm1. }
  exists m2. revert E2. se_red. done.
Qed.
End total.

(** ** The theorems *)

(** C36: with enough fuel a reorganisation always returns, and turns the canonical
    index of the old head into that of the new one, whichever of the two is
    higher: each height up to the new head's has the hash of the new head's
    ancestor, no height above has an entry, the head block in memory and in the
    database is the new one, and no block is lost.  (The history index is off;
    every block of the new chain has its list of deposits.) *)
Theorem reorg_correct a b m :
  EnableTransactionHistory config = false →
  chain_ok m → currentBlock m = Some a → GetMinorBlock (Hash b) m = Some b →
  (∀ n x, up (fun h => GetMinorBlock h m) n b = Some x → is_Some (d_depositHashes (db m) !! Hash x)) →
  ∃ m', reorg fuel (Some a) (Some b) m = (Ok tt, m') ∧
    currentBlock m' = Some b ∧ ReadHeadBlockHash (db m') = Hash b ∧
    (∀ n, 0 <= n <= NumberU64 b →
       GetBlockByNumber n m' = up (fun h => GetMinorBlock h m) (Z.to_nat (NumberU64 b - n)) b ∧ is_Some (GetBlockByNumber n m')) ∧
    (∀ n, NumberU64 b < n → GetBlockByNumber n m' = None) ∧
    (∀ h, GetMinorBlock h m' = GetMinorBlock h m).
Proof.
  intros Hhist [Hs [c Hc]] Ha Hb Hl. assert (c = a) as -> by (pose proof (h_current _ _ Hc) as E; change (currentBlock m = Some c) in E; congruence).
  destruct (reorg_returns Hhist _ a b m Hs (h_stored _ _ Hc) Hb eq_refl Hl) as [m' E].
  pose proof (reorg_core a b m Hs Hc Hb) as Hw. unfold wp in Hw. rewrite E in Hw. destruct Hw as (canon & Em & Hh).
  assert (∀ h, GetMinorBlock h m' = GetMinorBlock h m) as Hget.
  { intros h. change (minor_of (k_blocks (k_db (core m'))) h = minor_of (k_blocks (k_db (core m))) h). by rewrite Em. }
  pose proof (stored_tree _ Hs) as Ht. pose proof (stored_rooted _ _ _ Hs Hb) as Hrb.
  pose proof (h_canon _ _ Hh) as Hcan. pose proof (h_above _ _ Hh) as Habove.
  exists m'. split_and!; [done|apply Hh|apply Hh| | |done].
  - intros n Hn. destruct (rooted_at _ Ht b n Hrb Hn) as (x & Hx & _ & Hrx).
    change (up (fun h => GetMinorBlock h m) (Z.to_nat (NumberU64 b - n)) b) with
      (up (minor_of (k_blocks (k_db (core m)))) (Z.to_nat (NumberU64 b - n)) b). rewrite Hx.
    assert (GetBlockByNumber n m' = Some x) as ->; [|done].
    unfold GetBlockByNumber, ReadCanonicalHash. change (d_canonical (db m')) with (k_canon (k_db (core m'))).
    rewrite (Hcan n Hn), Em. cbn [moved k_db k_blocks]. rewrite Hx. cbn [fmap option_fmap option_map default from_option id].
    pose proof (stored_hash_ne _ Ht x (r_stored _ _ Hrx)) as Hne. rewrite (proj2 (Z.eqb_neq _ _) Hne), Hget. apply Hrx.
  - intros n Hn. unfold GetBlockByNumber, ReadCanonicalHash. change (d_canonical (db m')) with (k_canon (k_db (core m'))).
    by rewrite (Habove n) by lia.
Qed.

(** C34: whatever blocks are imported, in whatever order, forced or checked only,
    with whatever errors: the chain stays in shape (the stored blocks form
    complete chains, and the canonical index, the head in memory and the head in
    the database agree), and the head stays on the last block the root tip
    confirms and refers to a root block on the chain of the root tip, unless the
    transaction index of a block could not be written; and the entries that say
    what each root block confirms stay right if they were.  (This is for an
    import that does not panic.) *)
Theorem insertChain_keeps_chain depth chain force readOnly m r m' :
  good m → Forall genuine chain →
  insertChain depth fuel chain force readOnly m = (r, m') → (∀ e, r ≠ Panic e) →
  ∃ i, r = Ok i ∧ chain_ok m' ∧
    (follows (core m') ∧ (entries_ok (core m) → entries_ok (core m')) ∨ ∃ e, i_err i = Some e ∧ index_error e).
Proof.
  intros [Hc Hf] HF E Hr.
  pose proof (insertChain_good (entries_ok (core m)) depth chain force readOnly m (conj Hc (Build_tracks _ _ Hf id)) HF) as Hw.
  unfold wp in Hw. rewrite E in Hw. destruct r as [i|e|e]; [|done|by destruct (Hr e)].
  exists i. destruct Hw as [Hc' [[Hf' He']|Hi]]; split_and!; [done|done|by left|done|done|by right].
Qed.

(** C35: what a root block does to a shard, when AddRootBlock returns without an
    error.  The root block is stored, the chain stays in shape and following the
    root tip, and the database has for every root block the header it confirms.
    The result is true exactly if the root block was new and heavier than the root
    tip.  Then it is the root tip, the confirmed tip is the last block of this
    shard among the headers of the root blocks from the shard's first up to it,
    and the head is the nearest block that refers to a root block on its chain, on
    the way down from the old head if the confirmed block is an ancestor of it (or
    no block is confirmed), from the confirmed block otherwise.  Else root tip,
    head and confirmed tip stay.  (The root block and the blocks whose headers it
    has are genuine, and every genesis block of the shard that is stored refers to
    a root block on the chain of the root block, so that the chain is not reset to
    another one.) *)
Theorem AddRootBlock_follows depth r m c b m' :
  good m → entries_ok (core m) → root_genuine r →
  genesis_kept (<[Hash r := inr r]> (d_blocks (db m))) r → currentBlock m = Some c →
  AddRootBlock depth fuel r m = (Ok b, m') →
  let bl := d_blocks (db m') in
  good m' ∧ entries_ok (core m') ∧ mc_GetRootBlockByHash (Hash r) m' = Some r ∧
  (b = true ↔ mc_GetRootBlockByHash (Hash r) m = None ∧ ∃ t, rootTip m = Some t ∧ rb_totalDifficulty t < rb_totalDifficulty r) ∧
  (b = true → rootTip m' = Some r ∧ mb_header <$> confirmedHeaderTip m' = confirmed_by bl r ∧
     ∃ x c', starts bl c (confirmedHeaderTip m') x ∧ nearest bl r x c' ∧ currentBlock m' = Some c') ∧
  (b = false → rootTip m' = rootTip m ∧ currentBlock m' = currentBlock m ∧ confirmedHeaderTip m' = confirmedHeaderTip m).
Proof.
  intros Hgd He Hr Hgen Ec E. pose proof Hgd as [[Hs [c0 Hc]] Hf]. pose proof Hr as [Hrg _].
  assert (c0 = c) as -> by (pose proof (h_current _ _ Hc) as E0; change (currentBlock m = Some c0) in E0; congruence).
  assert (kept True m) as Hk by (split; [apply Hgd|by split]).
  assert (wp (AddRootBlock depth fuel r) (fun b m' => kept True m' ∧ root_of (k_blocks (k_db (core m'))) (Hash r) = Some r ∧
    (b = true ↔ mc_GetRootBlockByHash (Hash r) m = None ∧ ∃ t, rootTip m = Some t ∧ rb_totalDifficulty t < rb_totalDifficulty r) ∧
    (b = true → rootTip m' = Some r ∧ ∃ x c', starts (k_blocks (k_db (core m'))) c (confirmedHeaderTip m') x ∧
       nearest (k_blocks (k_db (core m'))) r x c' ∧ currentBlock m' = Some c') ∧
    (b = false → rootTip m' = rootTip m ∧ currentBlock m' = currentBlock m ∧ confirmedHeaderTip m' = confirmedHeaderTip m))
    (fun _ _ => True) m) as Hw.
  { clear E. unfold AddRootBlock. apply wp_bind, wp_get. case_bool_decide; [done|]. destruct (negb _); [done|].
    destruct (mc_GetRootBlockByHash (Hash r) m) as [r0|] eqn:Enew.
    { apply wp_ret. change (root_of (k_blocks (k_db (core m))) (Hash r) = Some r0) in Enew.
      destruct (root_block _ _ _ Hs Enew) as (Hg0 & _). rewrite Hrg in Hg0. injection Hg0 as <-.
      split_and!; [done|done| |done|done]. split; [done|by intros [? _]]. }
    destruct (mc_GetRootBlockByHash (ParentHash r) m) as [p|] eqn:Ep; [|done].
    apply wp_bind. eapply wp_conseq; [by eapply store_root_core|cbn beta|done]. intros sh m1 ((hz & Em1) & Htr1 & Hsh & Hby).
    pose proof (root_stored (core m) r Hs Hrg Enew hz) as Hs1. pose proof (root_head (core m) r Hs Hrg Enew hz c Hc) as Hc1.
    assert (Hsr : root_of (k_blocks (k_db (core m1))) (Hash r) = Some r) by (rewrite Em1; apply root_self).
    assert (Hgen1 : genesis_kept (k_blocks (k_db (core m1))) r) by (rewrite Em1; exact Hgen).
    assert (rootTip m1 = rootTip m ∧ currentBlock m1 = currentBlock m ∧ confirmedHeaderTip m1 = confirmedHeaderTip m) as Hsame
      by (split_and!; [change (k_rootTip (core m1) = k_rootTip (core m))|change (k_current (core m1) = k_current (core m))
        |change (k_confirmed (core m1) = k_confirmed (core m))]; by rewrite Em1).
    rewrite <- Em1 in Hs1, Hc1. apply wp_bind, wp_get, wp_bind, wp_lift; [|done]. intros tip Etip.
    assert (rootTip m = Some tip) as Etip' by (rewrite <- (proj1 Hsame); destruct (rootTip m1); [by injection Etip as <-|done]).
    case_bool_decide as Ed.
    - apply wp_bind, wp_lift; [|done]. intros c' _. apply wp_bind, wp_lift; [|done]. intros [] _; [|done]. apply wp_ret.
      split_and!; [split; [split; [done|by exists c]|done]|done| |done|done].
      split; [done|]. intros (_ & t & Et & Hlt). rewrite Etip' in Et. injection Et as <-. lia.
    - eapply wp_conseq; [apply (switch_root_good True depth r sh c m1 Hs1 Hc1 (f_roots _ Htr1) Hgen1 Hsr Hsh)| |done].
      { intros _. split; [by apply Htr1|by apply Hby]. }
      intros b' m2 (-> & Hgd2 & Htip2 & _ & x & x' & Hx' & Ebl & Hst & Hne). rewrite Ebl. split_and!; [done|done| |eauto 6|done].
      split; [intros _; split; [done|exists tip; split; [done|lia]]|done]. }
  unfold wp in Hw. rewrite E in Hw. destruct Hw as ([Hc' [Hf' He']] & Hst' & Hb & Ht & Hfl). specialize (He' I).
  split_and!; [by split|done|exact Hst'|done| |done].
  intros Etrue. destruct (Ht Etrue) as [Htip Hpos]. split_and!; [done| |exact Hpos]. by apply (e_tip _ He').
Qed.

(** ** The headers that no root block has confirmed *)

Lemma unconfirmed_loop_spec n c (m : Chain) acc :
  (∀ k, (k < n)%nat → is_Some (up (fun h => GetMinorBlock h m) k c)) →
  ∃ e, unconfirmed_loop n (Some c) m acc = Ok (e, rev (mb_header <$> below (fun h => GetMinorBlock h m) n c) ++ acc) ∧
    e = up (fun h => GetMinorBlock h m) n c.
Proof.
  revert c acc. induction n as [|n IH]; intros c acc Hup; cbn [unconfirmed_loop]; [by eexists|].
  cbn [deref mbind result_bind]. destruct n as [|n].
  { exists (GetMinorBlock (ParentHash c) m). rewrite below_one. split; [done|]. cbn [up]. by destruct (GetMinorBlock (ParentHash c) m). }
  destruct (GetMinorBlock (ParentHash c) m) as [p|] eqn:Ep; [|destruct (Hup 1%nat ltac:(lia)) as [x Hx]; cbn [up] in Hx; by rewrite Ep in Hx].
  destruct (IH p (mb_header c :: acc)) as (e & He & Hee).
  { intros k Hk. destruct (Hup (S k) ltac:(lia)) as [x Hx]. cbn [up] in Hx. rewrite Ep in Hx. eauto. }
  exists e. rewrite He, (below_parent (fun h => GetMinorBlock h m) _ _ _ Ep), (up_parent (fun h => GetMinorBlock h m) _ _ _ Ep). split; [|done].
  cbn [fmap list_fmap rev]. by rewrite <- app_assoc.
Qed.

(** C37: the headers offered for the next root block are exactly those of the
    blocks from the one after the confirmed tip (from the genesis block when
    there is none) to the head, in order, cut to the number a root block takes. *)
Theorem GetUnconfirmedHeaderList_exact m c :
  good m → currentBlock m = Some c →
  let n := match confirmedHeaderTip m with Some t => NumberU64 c - NumberU64 t | None => NumberU64 c + 1 end in
  let headers := rev (mb_header <$> below (fun h => GetMinorBlock h m) (Z.to_nat n) c) in
  Z.of_nat (length headers) = n ∧ getAllUnconfirmedHeaderList m = Ok (Some headers) ∧
  GetUnconfirmedHeaderList m =
    Ok (Some (if bool_decide (n < getMaxBlocksInOneRootBlock) then headers else take (Z.to_nat getMaxBlocksInOneRootBlock) headers)).
Proof.
  intros [[Hs [c' Hc]] Hf] Ec n headers.
  assert (c' = c) as -> by (pose proof (h_current _ _ Hc) as E; change (currentBlock m = Some c') in E; congruence).
  pose proof (stored_tree _ Hs) as Ht. pose proof (stored_rooted _ _ _ Hs (h_stored _ _ Hc)) as Hrc.
  destruct (g_minor Hg _ _ (proj2 (stored_block _ _ _ Hs (h_stored _ _ Hc)))) as (_ & Hnc & _). set (get := fun h => GetMinorBlock h m) in *.
  assert (∀ t, confirmedHeaderTip m = Some t → get (Hash t) = Some t ∧ 0 <= NumberU64 t <= NumberU64 c ∧
    up get (Z.to_nat (NumberU64 c - NumberU64 t)) c = Some t) as Hconf.
  { intros t Et. destruct (f_confirmed _ _ (f_head _ Hf c Ec) t Et) as [Hst [Hle Hup]].
    pose proof (t_number _ Ht _ _ Hst). split_and!; [done|lia|lia|done]. }
  assert (Hn : 0 <= n <= NumberU64 c + 1) by (unfold n; destruct (confirmedHeaderTip m) as [t|]; [destruct (Hconf t eq_refl) as (_ & ? & _)|]; lia).
  assert (Hups : ∀ k, (k < Z.to_nat n)%nat → is_Some (up get k c)).
  { intros k Hk. destruct (rooted_at _ Ht c (NumberU64 c - Z.of_nat k) Hrc) as (x & Hx & _); [lia|].
    replace (Z.to_nat (NumberU64 c - (NumberU64 c - Z.of_nat k))) with k in Hx by lia. by exists x. }
  destruct (unconfirmed_loop_spec (Z.to_nat n) c m [] Hups) as (e & Eloop & Ee). rewrite app_nil_r in Eloop.
  assert (Hlen : length headers = Z.to_nat n).
  { unfold headers. rewrite length_rev, length_fmap. by apply below_full. }
  assert (Hall : getAllUnconfirmedHeaderList m = Ok (Some headers)).
  { unfold getAllUnconfirmedHeaderList. rewrite Ec. cbn [deref mbind result_bind]. destruct (confirmedHeaderTip m) as [t|] eqn:Et.
    - destruct (Hconf t eq_refl) as (Hst & Hnt & Hup). unfold get in Hst. rewrite Hst.
      assert (En : n = NumberU64 c - NumberU64 t) by (unfold n; by rewrite ?Et). cbn [deref mbind result_bind].
      rewrite (i64_small (NumberU64 c)), (i64_small (NumberU64 t)) by lia. rewrite i64_small by lia. rewrite Z.max_r by lia. rewrite <- En, Eloop. cbn [mbind result_bind fst snd].
      rewrite Ee, En. fold get. rewrite Hup. cbn [checkEqual]. by rewrite bool_decide_true.
    - cbn [mbind result_bind]. rewrite (i64_small (NumberU64 c)) by lia. rewrite i64_small, Z.max_r by lia.
      assert (En : n = NumberU64 c + 1) by (unfold n; by rewrite ?Et). replace (NumberU64 c - -1) with n by lia. rewrite Eloop. cbn [mbind result_bind fst snd]. rewrite Ee.
      fold get. assert (up get (Z.to_nat n) c = None) as ->; [|done].
      destruct (rooted_at _ Ht c 0 Hrc) as (g & Hgu & Hg0 & Hrg); [lia|]. rewrite Z.sub_0_r in Hgu.
      replace (Z.to_nat n) with (S (Z.to_nat (NumberU64 c))) by lia. rewrite (up_succ get _ _ _ Hgu).
      destruct (stored_block _ _ _ Hs (r_stored _ _ Hrg)) as [_ Hgb]. pose proof (g_genesis Hg _ _ Hgb Hg0) as Hno.
      destruct (get (ParentHash g)) as [x|] eqn:Ex; [|done]. destruct (stored_block _ _ _ Hs Ex) as [_ Hgx]. by rewrite Hno in Hgx. }
  split_and!; [rewrite Hlen; lia|done|]. unfold GetUnconfirmedHeaderList. rewrite Hall. cbn [mbind result_bind default from_option id].
  rewrite Hlen, Z2Nat.id by lia. by case_bool_decide.
Qed.
End correct.
