(* ===== verification/MinorChainDemo.v ===== *)
(** * core: a small shard chain

    A concrete chain of MinorChain.v with a genesis block, two blocks on it that
    compete and a root block that confirms one of them.  The theorems of
    MinorChainCorrect.v are applied to it. *)

From S2P Require Import Prelude Wp Utils StateDB Account Transaction Blocks BlockTree XShardCursor Lru Receipts RawDb Consensus Engine.
From S2P Require Import ChainInsert MinorChain MinorValidator MinorInsert MinorRoot MinorChainCorrect.

Local Open Scope Z_scope.

(** A state is its root; the trie database is the set of the roots it has. *)
#[export] Instance demo_tries : TrieDb (gset Z) (list (Z * Z)) := {
  trie_has t h := bool_decide (h ∈ t);
  trie_Commit _ t := (Ok tt, t);
  trie_Reference r t := {[ r ]} ∪ t;
  trie_Dereference r t := t ∖ {[ r ]};
  trie_Size _ := (0, 0);
  trie_Cap _ t := t;
  prque_Push x p q := (x, p) :: q;
  prque_Pop q := match q with [] => None | (x, p) :: q => Some (x, p, q) end;
}.
#[export] Instance demo_states : AccountState Z (gset Z) := {
  state_New r t := if bool_decide (r ∈ t) then Ok r else Err "missing trie node";
  state_Commit s t := (Ok s, {[ s ]} ∪ t);
  IntermediateRoot s := s;
  GetXShardList _ := [];
  Preimages _ := ∅;
  MinorChain.GetTokenBalance _ _ _ := 0;
  state_GasUsed _ := 0;
  GetXShardReceiveGasUsed _ := 0;
  GetBlockFee _ := ∅;
  GetTxCursorInfo _ := Some (mkInfo 0 0 0);
}.
Definition demo_config : ChainConfig :=
  mkChainConfig (mkBranch 1) 0 false 10 true 128 (fun _ => 1) true true 100 1000 500 100 5 (1, 1) (1, 1) 0
    (mkPOSWConfig false 0 20 4 1000 0 2 10 100) 7 1.
#[export] Instance demo_env : ShardEnv := {
  config := demo_config;
  txHash _ := 0;
  txBytes _ := [];
  recover _ := None;
  poolTx _ := None;
  emptyHeaderHash := 999;
  now := 1000;
  mining_spec := mkSpec (fun _ _ _ => Ok ([], [])) (fun _ _ => Ok tt);
  diffCalc := mkCalculator 7 512 10000;
  sha3_256 l := l;
  keccak l := l;
  DeriveSha _ := 0;
  metaHash _ := 0;
}.
#[export] Instance demo_execution : @Execution Z (gset Z) (list (Z * Z)) (fifo (list Receipt)) (fifo MinorBlock) := {
  runBlock b _ := Ok (mm_root (mb_meta b), [], [], 0, []);
  GetSize _ := 1;
  CreateMinorBlock _ _ := (Err "no genesis", ∅);
}.
Abbreviation DemoChain := (@MinorBlockChain Z (gset Z) (list (Z * Z)) (fifo (list Receipt)) (fifo MinorBlock)).

Definition demo_minor (hash number parent root stateRoot : Z) : MinorBlock :=
  mkMinorBlock
    (mkMinorHeader hash 0 (mkBranch 1) number (mkAddress (replicate 20 0) 0) {[ 7 := 5 ]} parent root 1000 0 (100 + number) 1 0
       (replicate 256 0) [] 0)
    (mkMeta (tx_root []) stateRoot 0 0 0 (Some (mkInfo 0 0 0)) 500) [].
Definition root0 : RootBlock := mkRootBlock 1 0 0 0 0 0 (mkAddress [] 0) ∅ 0 0 10 0 [] 0 [] [] [].
Definition genesis0 : MinorBlock := demo_minor 10 0 0 1 50.
Definition block1 : MinorBlock := demo_minor 11 1 10 1 51.
Definition block1' : MinorBlock := demo_minor 12 1 10 1 52.
Definition root1 : RootBlock := mkRootBlock 2 0 1 1 0 0 (mkAddress [] 0) ∅ 0 0 20 0 [] 0 [] [] [mb_header genesis0; mb_header block1'].

Definition demo_blocks : gmap Z (MinorBlock + RootBlock) :=
  <[1 := inr root0]> (<[2 := inr root1]> (<[10 := inl genesis0]> (<[11 := inl block1]> (<[12 := inl block1']> ∅)))).
Definition demo_of (h : Z) : option (MinorBlock + RootBlock) := demo_blocks !! h.
Definition demo_fuel : nat := 5.

(** The chain with the genesis block only. *)
Definition demo_start : DemoChain :=
  mkChain
    (on_totalTx (fun _ => {[ 10 := 0 ]}) (on_lastConfirmed (fun _ => {[ 1 := 0 ]}) (on_depositHashes (fun _ => {[ 10 := [] ]})
      (on_headBlock (fun _ => 10) (on_canonical (fun _ => {[ 0 := 10 ]})
        (on_blocks (fun _ => <[1 := inr root0]> (<[10 := inl genesis0]> ∅)) empty_db))))))
    genesis0 (Some genesis0) (Some root0) None true 0 {[ 50 ]} [] [] [] (2 ^ 64 - 1) ∅ ∅ (Some 50) false [].

(** The entries of a map that is written out, one goal for each. *)
Ltac entries H :=
  repeat (apply lookup_insert_Some in H as [[<- H]|[_ H]]; [try discriminate H; try (injection H as <-)|]);
  [..|rewrite lookup_empty in H; discriminate H].

Lemma demo_hashes : hashes_ok demo_of demo_fuel.
Proof.
  constructor; unfold demo_of.
  - reflexivity.
  - intros h b Hb. unfold demo_blocks in Hb. entries Hb; unfold demo_fuel; cbn; lia.
  - intros h r Hr. unfold demo_blocks in Hr. entries Hr; cbn; lia.
  - intros h b Hb Hn. unfold demo_blocks in Hb. entries Hb; cbn in Hn; try lia; reflexivity.
  - intros h r p Hr Hp. unfold demo_blocks in Hr. entries Hr; vm_compute in Hp; [discriminate Hp|]. injection Hp as <-. reflexivity.
Qed.

(** The first block on the genesis block becomes the head; then the other one is
    stored beside it. *)
Definition demo_run : result Inserted * DemoChain := insertChain 1 demo_fuel [block1] false false demo_start.
Definition demo_fork : result Inserted * DemoChain := insertChain 1 demo_fuel [block1'] false false demo_run.2.
Definition demo_root : result bool * DemoChain := AddRootBlock 1 demo_fuel root1 demo_fork.2.

Lemma demo_run_ok : demo_run.1 = Ok (mkInserted 1 [MinorChainEvent block1 []; MinorChainHeadEvent block1] [] [[]] None).
Proof. vm_compute. reflexivity. Qed.
Lemma demo_fork_ok : demo_fork.1 = Ok (mkInserted 1 [MinorChainSideEvent block1'] [] [[]] None).
Proof. vm_compute. reflexivity. Qed.
Lemma demo_root_ok : demo_root.1 = Ok true ∧ currentBlock demo_root.2 = Some block1'.
Proof. vm_compute. split; reflexivity. Qed.

Abbreviation start_blocks := (k_blocks (k_db (core demo_start))).
Lemma start_minor h b : minor_of start_blocks h = Some b → h = 10 ∧ b = genesis0.
Proof.
  unfold minor_of. destruct (start_blocks !! h) as [x|] eqn:E; [|done]. intros Hx. change start_blocks with (<[1 := inr root0]> (<[10 := inl genesis0]> ∅) : gmap Z (MinorBlock + RootBlock)) in E.
  apply lookup_insert_Some in E as [[<- <-]|[_ E]]; [done|]. apply lookup_insert_Some in E as [[<- <-]|[_ E]]; [by injection Hx as <-|].
  by rewrite lookup_empty in E.
Qed.
Lemma start_root h r : root_of start_blocks h = Some r → h = 1 ∧ r = root0.
Proof.
  unfold root_of. destruct (start_blocks !! h) as [x|] eqn:E; [|done]. intros Hx. change start_blocks with (<[1 := inr root0]> (<[10 := inl genesis0]> ∅) : gmap Z (MinorBlock + RootBlock)) in E.
  apply lookup_insert_Some in E as [[<- <-]|[_ E]]; [by injection Hx as <-|]. apply lookup_insert_Some in E as [[<- <-]|[_ E]]; [done|].
  by rewrite lookup_empty in E.
Qed.
Lemma start_good : good demo_of demo_start.
Proof.
  split; [split|].
  - constructor.
    + intros h x Hx. change start_blocks with (<[1 := inr root0]> (<[10 := inl genesis0]> ∅) : gmap Z (MinorBlock + RootBlock)) in Hx.
      apply lookup_insert_Some in Hx as [[<- <-]|[_ Hx]]; [reflexivity|]. apply lookup_insert_Some in Hx as [[<- <-]|[_ Hx]]; [reflexivity|].
      by rewrite lookup_empty in Hx.
    + intros h b p Hb Hp. apply start_minor in Hb as [-> ->]. vm_compute in Hp. discriminate Hp.
    + intros h b Hb. apply start_minor in Hb as [-> ->]. vm_compute. eauto.
  - exists genesis0. constructor; [reflexivity| |reflexivity]. constructor; [reflexivity| |].
    + intros n Hn. cbn in Hn. assert (n = 0) as -> by lia. reflexivity.
    + intros n Hn. cbn in Hn. change (({[ 0 := 10 ]} : gmap Z Z) !! n = None). apply lookup_singleton_ne. lia.
  - constructor.
    + constructor. intros h r Hr. apply start_root in Hr as [-> ->]. split; [done|]. vm_compute. eauto.
    + exists root0. split; reflexivity.
    + intros c Hc. injection Hc as <-. constructor; [intros t [=]|]. exists root0, root0. split; [reflexivity|]. split; [reflexivity|].
      split; [done|reflexivity].
Qed.

Lemma start_entries : entries_ok (core demo_start).
Proof.
  constructor.
  - intros h r Hr. apply start_root in Hr as [-> ->]. reflexivity.
  - intros h r x Hr. apply start_root in Hr as [-> ->]. discriminate.
  - intros r [= <-]. reflexivity.
Qed.

(** The chains after the first and the second import keep everything. *)
Lemma run_kept : kept demo_of True demo_run.2.
Proof.
  assert (Forall (genuine demo_of) [block1]) as HF by (constructor; [reflexivity|constructor]).
  assert (kept demo_of True demo_start) as Hk by (split; [apply start_good|split; [apply start_good|intros _; exact start_entries]]).
  pose proof (insertChain_good demo_of demo_fuel demo_hashes True 1 [block1] false false demo_start Hk HF) as Hw.
  unfold wp in Hw. change (insertChain 1 demo_fuel [block1] false false demo_start) with demo_run in Hw.
  pose proof demo_run_ok as E. destruct demo_run as [r m]. cbn [fst snd] in *. rewrite E in Hw. by apply imported_none.
Qed.
Lemma fork_kept : kept demo_of True demo_fork.2.
Proof.
  assert (Forall (genuine demo_of) [block1']) as HF by (constructor; [reflexivity|constructor]).
  pose proof (insertChain_good demo_of demo_fuel demo_hashes True 1 [block1'] false false demo_run.2 run_kept HF) as Hw.
  unfold wp in Hw. change (insertChain 1 demo_fuel [block1'] false false demo_run.2) with demo_fork in Hw.
  pose proof demo_fork_ok as E. destruct demo_fork as [r m]. cbn [fst snd] in *. rewrite E in Hw. by apply imported_none.
Qed.
Lemma demo_kept_good (m : DemoChain) : kept demo_of True m → good demo_of m ∧ entries_ok (core m).
Proof. intros [Hc [Hf He]]. split; [by split|by apply He]. Qed.
Lemma run_good : good demo_of demo_run.2.
Proof. apply demo_kept_good, run_kept. Qed.
Lemma fork_good : good demo_of demo_fork.2.
Proof. apply demo_kept_good, fork_kept. Qed.

Lemma insertChain_keeps_witness :
  ∃ i, demo_run.1 = Ok i ∧ chain_ok demo_of demo_run.2 ∧
    (follows (core demo_run.2) ∧ (entries_ok (core demo_start) → entries_ok (core demo_run.2)) ∨ ∃ e, i_err i = Some e ∧ index_error e).
Proof.
  apply (insertChain_keeps_chain demo_of demo_fuel demo_hashes 1 [block1] false false demo_start demo_run.1 demo_run.2).
  - exact start_good.
  - constructor; [reflexivity|constructor].
  - apply surjective_pairing.
  - rewrite demo_run_ok. discriminate.
Defined.

Lemma reorg_witness : ∃ m', reorg demo_fuel (Some block1) (Some block1') demo_fork.2 = (Ok tt, m') ∧ currentBlock m' = Some block1'.
Proof.
  destruct (reorg_correct demo_of demo_fuel demo_hashes block1 block1' demo_fork.2) as (m' & E & Hc & _).
  - reflexivity.
  - apply fork_good.
  - vm_compute. reflexivity.
  - vm_compute. reflexivity.
  - intros n x Hx. destruct n as [|[|n]].
    + injection Hx as <-. vm_compute. eauto.
    + vm_compute in Hx. injection Hx as <-. vm_compute. eauto.
    + cbn [up] in Hx. change (GetMinorBlock (ParentHash block1') demo_fork.2) with (Some genesis0) in Hx.
      cbn [up] in Hx. change (GetMinorBlock (ParentHash genesis0) demo_fork.2) with (@None MinorBlock) in Hx. discriminate Hx.
  - exists m'. split; [exact E|exact Hc].
Defined.

Lemma fork_genesis h b :
  minor_of (<[Hash root1 := inr root1]> (d_blocks (db demo_fork.2))) h = Some b → NumberU64 b = 0 → b = genesis0.
Proof.
  destruct fork_good as [[Hs _] _]. unfold minor_of. intros Hb Hn.
  destruct (decide (h = Hash root1)) as [->|Hne]; [by rewrite lookup_insert_eq in Hb|]. rewrite lookup_insert_ne in Hb by done.
  destruct (d_blocks (db demo_fork.2) !! h) as [x|] eqn:E; [|done]. apply (s_genuine _ _ Hs) in E. unfold demo_of, demo_blocks in E.
  destruct x as [b'|]; [|done]. injection Hb as ->. entries E; [reflexivity|discriminate Hn..].
Qed.
(** The root block confirms the block that is not the head: the head moves to it. *)
Lemma AddRootBlock_witness :
  good demo_of demo_root.2 ∧ rootTip demo_root.2 = Some root1 ∧ mb_header <$> confirmedHeaderTip demo_root.2 = Some (mb_header block1')
  ∧ currentBlock demo_fork.2 = Some block1 ∧ currentBlock demo_root.2 = Some block1'.
Proof.
  destruct (AddRootBlock_follows demo_of demo_fuel demo_hashes 1 root1 demo_fork.2 block1 true demo_root.2) as (Hgd & _ & _ & _ & Ht & _).
  - exact fork_good.
  - apply demo_kept_good, fork_kept.
  - split; [reflexivity|]. intros h Hh _. apply elem_of_cons in Hh as [->|Hh]; [exists genesis0; split; reflexivity|].
    apply list_elem_of_singleton in Hh as ->. exists block1'. split; reflexivity.
  - intros h b Hb Hn. exists root0. split; [|split; [done|vm_compute; reflexivity]].
    rewrite (fork_genesis h b Hb Hn). vm_compute. reflexivity.
  - vm_compute. reflexivity.
  - rewrite <- (proj1 demo_root_ok). apply surjective_pairing.
  - split; [exact Hgd|]. destruct (Ht eq_refl) as (Et & Ec & _). split; [exact Et|]. split; [rewrite Ec; vm_compute; reflexivity|].
    split; [vm_compute; reflexivity|apply demo_root_ok].
Defined.

Lemma unconfirmed_witness : GetUnconfirmedHeaderList demo_run.2 = Ok (Some [mb_header genesis0; mb_header block1]).
Proof.
  destruct (GetUnconfirmedHeaderList_exact demo_of demo_fuel demo_hashes demo_run.2 block1) as (_ & _ & E).
  - exact run_good.
  - vm_compute. reflexivity.
  - rewrite E. vm_compute. reflexivity.
Defined.
