(* ===== verification/RootChain.v ===== *)
(** * core: the root chain

    Models src/core/rootblockchain.go: the chain of root blocks that the master
    keeps, with the minor block headers each of them confirms.  The state has the
    database, the head, the queue of future blocks and the flags; the cache of
    blocks is left out, since every block in it is also in the database.  The
    head is kept in an atomic value: reading it before it is set, and storing a
    nil interface, panic. *)

From S2P Require Import Prelude Utils Codec TokenBalances Account Config Transaction Blocks BlockTree XShardCursor Lru Receipts RawDb.
From S2P Require Import Consensus Engine MinorValidator.

Local Open Scope Z_scope.

(** The fields of QuarkChainConfig and RootConfig that the root chain reads. *)
Record RootChainConfig := mkRootChainConfig {
  quarkchain : QuarkChainConfig;
  c_root : RootConfig;
  SkipRootDifficultyCheck : bool;
  SkipRootCoinbaseCheck : bool;
  rc_ExtraDataSizeLimit : Z;
  RewardCalculateRate : Z * Z;
  rc_DefaultChainTokenID : Z;
  rc_EpochInterval : Z;
  rc_CoinbaseAmount : Z;
  rc_RewardDecayFactor : Z * Z;
  rc_PoSWConfig : POSWConfig;
}.

(** What the chain is built with: its configuration, the time, the scheme of proof
    of work, the difficulty calculator, the hash function and the bytes of a
    header, the hash of the empty trie, whether the guardian signed a block, the
    address recovered from its signature, and the stakes of an address with their
    signer as of a minor block, which a slave is asked for. *)
Class RootEnv := {
  rconfig : RootChainConfig;
  r_now : Z;
  r_spec : @MiningSpec RootBlock;
  r_diffCalc : EthDifficultyCalculator;
  r_sha3 : list Z → list Z;
  headerBytes : MinorBlockHeader → list Z;
  EmptyTrieHash : Z;
  guardianSigned : RootBlock → bool;
  sigToAddr : RootBlock → result Z;
  getStakes : Address → Z → result (Z * option Z);
}.

Section root_chain.
Context {CF : Type} `{Lru RootBlock CF}.

Record RootBlockChain := mkRootChain {
  rc_db : Db;
  rc_genesisBlock : RootBlock;
  rc_currentBlock : option RootBlock;
  rc_futureBlocks : CF;
  rc_procInterrupt : bool;
  countMinorBlocks : bool;
  isCheckDB : bool;
}.

Definition rc_set_db (d : Db) (m : RootBlockChain) : RootBlockChain :=
  mkRootChain d (rc_genesisBlock m) (rc_currentBlock m) (rc_futureBlocks m) (rc_procInterrupt m) (countMinorBlocks m) (isCheckDB m).
Definition rc_set_genesis (g : RootBlock) (m : RootBlockChain) : RootBlockChain :=
  mkRootChain (rc_db m) g (rc_currentBlock m) (rc_futureBlocks m) (rc_procInterrupt m) (countMinorBlocks m) (isCheckDB m).
Definition rc_set_current (b : RootBlock) (m : RootBlockChain) : RootBlockChain :=
  mkRootChain (rc_db m) (rc_genesisBlock m) (Some b) (rc_futureBlocks m) (rc_procInterrupt m) (countMinorBlocks m) (isCheckDB m).
Definition rc_set_future (f : CF) (m : RootBlockChain) : RootBlockChain :=
  mkRootChain (rc_db m) (rc_genesisBlock m) (rc_currentBlock m) f (rc_procInterrupt m) (countMinorBlocks m) (isCheckDB m).
Definition rc_stop (m : RootBlockChain) : RootBlockChain :=
  mkRootChain (rc_db m) (rc_genesisBlock m) (rc_currentBlock m) (rc_futureBlocks m) true (countMinorBlocks m) (isCheckDB m).
Definition SetIsCheckDB (b : bool) (m : RootBlockChain) : RootBlockChain :=
  mkRootChain (rc_db m) (rc_genesisBlock m) (rc_currentBlock m) (rc_futureBlocks m) (rc_procInterrupt m) (countMinorBlocks m) b.
Definition SetEnableCountMinorBlocks (b : bool) (m : RootBlockChain) : RootBlockChain :=
  mkRootChain (rc_db m) (rc_genesisBlock m) (rc_currentBlock m) (rc_futureBlocks m) (rc_procInterrupt m) b (isCheckDB m).

Abbreviation ROp := (SE RootBlockChain).
Definition rc_on_db (f : Db → Db) : ROp unit := se_mod (fun m => rc_set_db (f (rc_db m)) m).

(** ** Reading *)

Definition rc_GetBlock (hash : Z) (m : RootBlockChain) : option RootBlock := ReadRootBlock hash (rc_db m).
Definition rc_HasBlock (hash : Z) (m : RootBlockChain) : bool := HasBlock hash (rc_db m).
Definition rc_GetBlockByNumber (number : Z) (m : RootBlockChain) : option RootBlock :=
  let hash := ReadCanonicalHash ChainTypeRoot number (rc_db m) in
  if hash =? 0 then None else rc_GetBlock hash m.
Definition rc_GetParentHashByHash (m : RootBlockChain) (hash : Z) : Z :=
  match rc_GetBlock hash m with None => 0 | Some b => ParentHash b end.
Definition rc_isSameChain (longer shorter : RootBlock) (m : RootBlockChain) : result bool :=
  isSameChain (rc_GetParentHashByHash m) longer shorter.

(** CurrentBlock: the type assertion fails before a block is stored. *)
Definition rc_CurrentBlock (m : RootBlockChain) : result RootBlock :=
  match rc_currentBlock m with Some b => Ok b | None => Panic "interface conversion: interface is nil" end.
(** currentBlock.Store of what GetBlock returned. *)
Definition rc_store_current (b : option RootBlock) : ROp unit :=
  match b with
  | Some b => se_mod (rc_set_current b)
  | None => se_panic "sync/atomic: store of nil value into Value"
  end.

Fixpoint rc_hashes_loop (n : nat) (block : RootBlock) (m : RootBlockChain) (chain : list Z) : list Z :=
  match n with
  | O => chain
  | S n =>
      let next := ParentHash block in
      match rc_GetBlock next m with
      | None => chain
      | Some block =>
          if NumberU64 block =? 0 then chain ++ [next] else rc_hashes_loop n block m (chain ++ [next])
      end
  end.
Definition rc_GetBlockHashesFromHash (hash max : Z) (m : RootBlockChain) : list Z :=
  match rc_GetBlock hash m with None => [] | Some block => rc_hashes_loop (Z.to_nat max) block m [] end.

(** The third value is the counter that GetAncestor counts down. *)
Fixpoint ancestor_loop (ancestor : nat) (hash number : Z) (maxNonCanonical : Z) (m : RootBlockChain) : Z * Z * Z :=
  match ancestor with
  | O => (hash, number, maxNonCanonical)
  | S n =>
      if ReadCanonicalHash ChainTypeRoot number (rc_db m) =? hash then
        let number := u64 (number - Z.of_nat ancestor) in
        (ReadCanonicalHash ChainTypeRoot number (rc_db m), number, maxNonCanonical)
      else if maxNonCanonical =? 0 then (0, 0, 0)
      else
        match rc_GetBlock hash m with
        | None => (0, 0, maxNonCanonical - 1)
        | Some block => ancestor_loop n (ParentHash block) (u64 (number - 1)) (maxNonCanonical - 1) m
        end
  end.
Definition GetAncestor (hash number ancestor maxNonCanonical : Z) (m : RootBlockChain) : Z * Z * Z :=
  if bool_decide (number < ancestor) then (0, 0, maxNonCanonical)
  else if ancestor =? 1 then
    match rc_GetBlock hash m with
    | Some block => (ParentHash block, u64 (number - 1), maxNonCanonical)
    | None => (0, 0, maxNonCanonical)
    end
  else ancestor_loop (Z.to_nat ancestor) hash number maxNonCanonical m.

(** ** The latest minor headers of a root block, by shard *)

Definition GetLatestMinorBlockHeaders (hash : Z) (m : RootBlockChain) : gmap Z MinorBlockHeader :=
  foldl (fun hs h => <[GetFullShardID (mh_branch h) := h]> hs) ∅ (ReadLatestMinorBlockHeaders hash (rc_db m)).
Definition SetLatestMinorBlockHeaders (hash : Z) (headerMap : gmap Z MinorBlockHeader) : ROp unit :=
  rc_on_db (WriteLatestMinorBlockHeaders hash (map_to_list headerMap).*2).
Definition GetLastConfirmedMinorBlockHeader (prevBlock fullShardId : Z) (m : RootBlockChain) : option MinorBlockHeader :=
  GetLatestMinorBlockHeaders prevBlock m !! fullShardId.

Context `{RootEnv}.

(** ** The index of the canonical chain, with the blocks of each miner *)

Definition miner (h : MinorBlockHeader) : Z := be_value (Account.Recipient (mh_coinbase h)).

Definition GetBlockCount (rootHeight : Z) (m : RootBlockChain) : gmap Z (gmap Z Z) :=
  if negb (countMinorBlocks m) then ∅
  else
    foldl (fun cnt id =>
        match GetMinorBlockCnt id rootHeight (rc_db m) with
        | None => cnt
        | Some infoList => <[id := infoList]> cnt
        end) ∅ (GetInitializedShardIdsBeforeRootHeight (quarkchain rconfig) rootHeight).
Definition count_header (cnt : gmap Z (gmap Z Z)) (h : MinorBlockHeader) : gmap Z (gmap Z Z) :=
  let fullShardID := GetFullShardID (mh_branch h) in
  let counts := default ∅ (cnt !! fullShardID) in
  <[fullShardID := <[miner h := u32 (default 0 (counts !! miner h) + 1)]> counts]> cnt.
Definition PutRootBlockIndex (block : RootBlock) : ROp unit :=
  _ ← rc_on_db (WriteCanonicalHash ChainTypeRoot (Hash block) (NumberU64 block));
  m ← se_get;
  if negb (countMinorBlocks m) then mret tt
  else
    let cnt := if bool_decide (0 < NumberU64 block) then GetBlockCount (u32 (NumberU64 block - 1)) m else ∅ in
    let cnt := foldl count_header cnt (MinorBlockHeaders block) in
    _ ← rc_on_db (fun d => foldl (fun d h =>
          db_PutRootBlockConfirmingMinorBlock (mh_hash h, GetFullShardID (mh_branch h)) (Hash block) d) d (MinorBlockHeaders block));
    rc_on_db (fun d => foldl (fun d e => WriteMinorBlockCnt e.1 (NumberU64 block) e.2 d) d (map_to_list cnt)).

Definition rc_insert (block : RootBlock) : ROp unit :=
  _ ← PutRootBlockIndex block;
  _ ← rc_on_db (WriteHeadBlockHash (Hash block));
  se_mod (rc_set_current block).

(** ** The head *)

(** SetHead up to its call of loadLastState. *)
Fixpoint rc_rewind_loop (fuel : nat) (head : Z) (batch : list (Db → Db)) : ROp (list (Db → Db)) :=
  m ← se_get;
  block ← se_lift (rc_CurrentBlock m);
  if bool_decide (head < NumberU64 block) then
    match fuel with
    | O => se_lift no_fuel
    | S fuel =>
        _ ← rc_store_current (rc_GetBlock (ParentHash block) m);
        rc_rewind_loop fuel head (batch ++ [DeleteRootBlock (Hash block); DeleteCanonicalHash ChainTypeRoot (NumberU64 block)])
    end
  else mret batch.
Definition rc_rewind (fuel : nat) (head : Z) : ROp unit :=
  batch ← rc_rewind_loop fuel head [];
  _ ← rc_on_db (fun d => foldl (fun d f => f d) d batch);
  _ ← se_mod (fun m => rc_set_future (lru_purge (rc_futureBlocks m)) m);
  m ← se_get;
  c ← se_lift (rc_CurrentBlock m);
  rc_on_db (WriteHeadBlockHash (Hash c)).

(** loadLastState resets the chain when its head is missing.  SetHead calls it
    with the mutex that the reset waits for: [locked] says that it is held. *)
Definition rc_loadLastState (locked : bool) (reset : ROp unit) : ROp unit :=
  m ← se_get;
  let head := ReadHeadBlockHash (rc_db m) in
  match (if head =? 0 then None else rc_GetBlock head m) with
  | Some c => se_mod (rc_set_current c)
  | None => if locked then se_panic "deadlock" else reset
  end.
Definition rc_SetHead (fuel : nat) (head : Z) : ROp unit :=
  _ ← rc_rewind fuel head;
  rc_loadLastState true (mret tt).
Definition ResetWithGenesisBlock (fuel : nat) (genesis : RootBlock) : ROp unit :=
  _ ← rc_SetHead fuel 0;
  _ ← rc_on_db (WriteRootBlock genesis);
  _ ← se_mod (rc_set_genesis genesis);
  _ ← rc_insert genesis;
  se_mod (rc_set_current genesis).
Definition rc_Reset (fuel : nat) : ROp unit :=
  m ← se_get;
  ResetWithGenesisBlock fuel (rc_genesisBlock m).
Definition NewRootBlockChain (fuel : nat) (d : Db) (future : CF) : result (unit + string) * RootBlockChain :=
  let empty := mkRootBlock 0 0 0 0 0 0 (mkAddress [] 0) ∅ 0 0 0 0 [] 0 [] [] [] in
  let m := mkRootChain d empty None future false false false in
  match rc_GetBlockByNumber 0 m with
  | None => (Ok (inr "Genesis not found in chain"%string), m)
  | Some g =>
      let '(r, m) := rc_loadLastState false (rc_Reset fuel) (rc_set_genesis g m) in
      (match r with Ok _ => Ok (inl tt) | Err e => Ok (inr e) | Panic e => Panic e end, m)
  end.

(** repair ends only when a block is missing. *)
Fixpoint repair (fuel : nat) (head : RootBlock) (m : RootBlockChain) : result RootBlock :=
  match rc_GetBlock (ParentHash head) m with
  | None => Err "missing block %d [%x]"
  | Some block => match fuel with O => no_fuel | S fuel => repair fuel block m end
  end.

Fixpoint rc_rollback_loop (chain : list Z) : ROp unit :=
  match chain with
  | [] => mret tt
  | hash :: chain =>
      m ← se_get;
      c ← se_lift (rc_CurrentBlock m);
      _ ← (if bool_decide (Hash c = hash) then
             _ ← rc_store_current (rc_GetBlock (ParentHash c) m);
             m ← se_get;
             c ← se_lift (rc_CurrentBlock m);
             rc_on_db (WriteHeadBlockHash (Hash c))
           else mret tt);
      rc_rollback_loop chain
  end.
Definition rc_Rollback (chain : list Z) : ROp unit := rc_rollback_loop (rev chain).

(** ** Writing a block *)

Definition root_Content (b : RootBlock) : list Z := mh_hash <$> MinorBlockHeaders b.

Fixpoint rc_insert_new (blocks : list RootBlock) : ROp unit :=
  match blocks with
  | [] => mret tt
  | b :: blocks =>
      _ ← rc_insert b;
      _ ← rc_on_db (WriteBlockContentLookupEntriesWithCrossShardHashList (Hash b) (root_Content b) None);
      rc_insert_new blocks
  end.
(** reorg: only the headers of the blocks by which the old chain is longer are
    looked at for entries to delete, and no canonical hash is deleted. *)
Definition rc_reorg (fuel : nat) (oldBlock newBlock : RootBlock) : ROp unit :=
  m ← se_get;
  r ← se_lift (fork_point (fun h => rc_GetBlock h m) false fuel oldBlock newBlock);
  let '(_, oldChain, newChain) := (r : RootBlock * list RootBlock * list RootBlock) in
  _ ← rc_insert_new (rev newChain);
  let longer := filter (fun b => NumberU64 newBlock < NumberU64 b) oldChain in
  let deletedHeaders := concat (MinorBlockHeaders <$> longer) in
  let addedHeaders := concat (MinorBlockHeaders <$> rev newChain) in
  rc_on_db (fun d => foldl (fun d h => DeleteBlockContentLookupEntry (mh_hash h) d) d
                       (MinorHeaderDifference deletedHeaders addedHeaders)).

Inductive RootWriteStatus := RootCanonStatTy | RootSideStatTy.

Definition rc_WriteBlockWithoutState (block : RootBlock) : ROp unit := rc_on_db (WriteRootBlock block).
Definition heavier (block current : RootBlock) : bool :=
  bool_decide (rb_totalDifficulty current < rb_totalDifficulty block) ||
  (bool_decide (rb_totalDifficulty block = rb_totalDifficulty current) && bool_decide (NumberU64 block < NumberU64 current)).
(** The chain is reorganised if the parent is not the head. *)
Definition rc_switch (fuel : nat) (current block : RootBlock) : ROp unit :=
  if bool_decide (ParentHash block = Hash current) then mret tt else rc_reorg fuel current block.
Definition rc_WriteBlockWithState (fuel : nat) (block : RootBlock) : ROp RootWriteStatus :=
  m ← se_get;
  current ← se_lift (rc_CurrentBlock m);
  _ ← rc_on_db (WriteRootBlock block);
  status ← (if heavier block current then
              _ ← rc_switch fuel current block;
              _ ← rc_on_db (WriteBlockContentLookupEntriesWithCrossShardHashList (Hash block) (root_Content block) None);
              _ ← rc_insert block;
              mret RootCanonStatTy
            else mret RootSideStatTy);
  _ ← se_mod (fun m => rc_set_future (lru_remove (rc_futureBlocks m) (Hash block)) m);
  mret status.
End root_chain.
#[global] Arguments RootBlockChain : clear implicits.
#[global] Arguments mkRootChain {CF}.
