(* ===== verification/RootValidator.v ===== *)
(** * core: validation of root blocks

    Models src/core/rootblock_validator.go and the parts of
    src/core/rootblockchain.go it uses: the difficulty adjusted by the stake of
    the miner, and the reward of a root block; and the making of a new root block.
    The caches of seals and of coinbase windows do not change an answer
    (Engine.v, Consensus.v), so each check starts with an empty one; the reward of
    an epoch is computed anew instead of being kept.  The maps over shards and
    root blocks are traversed in the order in which their entries were made; Go's
    order is not specified, which is seen in the error of a block with several. *)

From S2P Require Import Prelude Utils Codec TokenBalances Account Config Transaction Blocks BlockTree XShardCursor Lru Receipts Merkle RawDb.
From S2P Require Import Consensus Engine MinorValidator RootChain.

Local Open Scope Z_scope.

Section root_validator.
Context {CF : Type} `{Lru RootBlock CF} `{RootEnv}.

Abbreviation Chain := (RootBlockChain CF).
Abbreviation ROp := (SE Chain).

(** ** Difficulty adjusted by the stake of the miner *)

Definition root_coinbase (b : RootBlock) : Z := be_value (Account.Recipient (rb_coinbase b)).
Definition root_posw_block (b : RootBlock) : Block := mkBlock (NumberU64 b) (ParentHash b) (root_coinbase b).
Definition root_posw_header (b : RootBlock) : Header :=
  mkHeader (Hash b) (NumberU64 b) (GetTime b) (ParentHash b) (root_coinbase b) (GetDifficulty b).

Definition rc_PoSWDiffAdjust (header : RootBlock) (stakes : option Z) (m : Chain) : result Z :=
  (PoSWDiffAdjust (fun h => root_posw_block <$> rc_GetBlock h m) (rc_PoSWConfig rconfig) (root_posw_header header) stakes
     (TotalStakePerBlock (rc_PoSWConfig rconfig)) ([] : fifo (Z * list Z))).1.

Definition getSignedPoSWStakes (header : RootBlock) (m : Chain) : result Z :=
  match GetLastConfirmedMinorBlockHeader (ParentHash header) 1 m with
  | None => Err "no shard block has been confirmed"
  | Some h =>
      r ← getStakes (rb_coinbase header) (mh_hash h);
      match r.2 with
      | None => Err "stakes signer not found"
      | Some signer =>
          if signer =? 0 then Err "stakes signer not found"
          else
            recovered ← sigToAddr header;
            if negb (recovered =? signer) then Err "stakes signer not match" else Ok r.1
      end
  end.
Definition getPoSWStakes (header : RootBlock) (m : Chain) : result Z :=
  match GetLastConfirmedMinorBlockHeader (ParentHash header) 1 m with
  | None => Err "no shard block has been confirmed"
  | Some h => r ← getStakes (rb_coinbase header) (mh_hash h); Ok r.1
  end.
Definition getPoSWAdjustedDiff (header : RootBlock) (m : Chain) : result Z :=
  stakes ← getSignedPoSWStakes header m;
  rc_PoSWDiffAdjust header (Some stakes) m.

(** The divider applies when the adjusted difficulty is lower; its error means
    that it is not adjusted. *)
Definition with_divider (header : RootBlock) (adjusted : result Z) : result (Z * Z) :=
  match adjusted with
  | Panic e => Panic e
  | Err _ => Ok (GetDifficulty header, 1)
  | Ok poswAdjusted =>
      if bool_decide (poswAdjusted < GetDifficulty header) then
        d ← GetDiffDivider (rc_PoSWConfig rconfig) (GetTime header);
        Ok (GetDifficulty header, d)
      else Ok (GetDifficulty header, 1)
  end.
Definition rc_GetAdjustedDifficulty (m : Chain) (header : RootBlock) : result (Z * Z) :=
  if guardianSigned header then Ok (GetDifficulty header / 1000, 1)
  else if IsPoSWEnabled (rc_PoSWConfig rconfig) (GetTime header) (NumberU64 header)
  then with_divider header (getPoSWAdjustedDiff header m)
  else Ok (GetDifficulty header, 1).
(** A failing query of the stakes leaves them nil. *)
Definition GetAdjustedDifficultyToMine (m : Chain) (header : RootBlock) : result (Z * Z) :=
  if guardianSigned header then Ok (GetDifficulty header / 1000, 1)
  else if IsPoSWEnabled (rc_PoSWConfig rconfig) (GetTime header) (NumberU64 header) then
    match getPoSWStakes header m with
    | Panic e => Panic e
    | Err _ => with_divider header (rc_PoSWDiffAdjust header None m)
    | Ok stakes => with_divider header (rc_PoSWDiffAdjust header (Some stakes) m)
    end
  else Ok (GetDifficulty header, 1).

Definition rc_reader (m : Chain) : ChainReader :=
  mkReader (fun h => rc_GetBlock h m) (rc_ExtraDataSizeLimit rconfig) (SkipRootDifficultyCheck rconfig) (rc_GetAdjustedDifficulty m).
Definition rc_VerifyHeader (m : Chain) (header : RootBlock) : result unit :=
  (engine_VerifyHeader r_spec r_diffCalc (rc_reader m) header ([] : fifo Z)).1.
Definition rc_ValidateSeal (m : Chain) (header : RootBlock) (usePosw : bool) : result unit :=
  if NumberU64 header =? 0 then Ok tt
  else
    adjustedDiff ←
      (if usePosw then d ← rc_GetAdjustedDifficulty m header; big_Div d.1 d.2
       else if guardianSigned header then Ok (GetDifficulty header / 1000)
       else if Enabled (rc_PoSWConfig rconfig) then
         d ← GetDiffDivider (rc_PoSWConfig rconfig) (GetTime header);
         big_Div (GetDifficulty header) d
       else Ok (GetDifficulty header));
    (engine_VerifySeal r_spec header adjustedDiff ([] : fifo Z)).1.

(** ** The reward *)

Definition rc_getCoinbaseAmount (height : Z) : result Z :=
  if rc_EpochInterval rconfig =? 0 then Panic "integer divide by zero"
  else
    let epoch := height / rc_EpochInterval rconfig in
    let numerator := powerBigInt (rc_RewardDecayFactor rconfig).1 epoch in
    let denominator := powerBigInt (rc_RewardDecayFactor rconfig).2 epoch in
    big_Div (rc_CoinbaseAmount rconfig * numerator) denominator.

Fixpoint set_values (l : list (Z * Z)) (t : TokenBalances) : result TokenBalances :=
  match l with
  | [] => Ok t
  | (token, value) :: l =>
      t ← SetValue (BigIntMulBigRat value (RewardCalculateRate rconfig)) token t;
      set_values l t
  end.
Definition CalculateRootBlockCoinBase (rootBlock : RootBlock) (m : Chain) : result TokenBalances :=
  let hs := mh_hash <$> MinorBlockHeaders rootBlock in
  if existsb (fun h => negb (db_ContainMinorBlockByHash h (rc_db m))) hs then Err "rootBlockChain not contain minorBlock hash"
  else
    let rewards := foldl (fun t h => Add (default ∅ (GetMinorBlockCoinbaseToken h (rc_db m))) t) NewEmptyTokenBalances hs in
    t ← set_values (map_to_list (GetBalanceMap rewards)) rewards;
    amount ← rc_getCoinbaseAmount (NumberU64 rootBlock);
    (* the balances have no trie *)
    SetValue (default 0 (balances t !! rc_DefaultChainTokenID rconfig) + amount) (rc_DefaultChainTokenID rconfig) t.

(** ** ValidateBlock *)

Definition headers_root (headers : list MinorBlockHeader) : Z :=
  match CalculateMerkleRoot r_sha3 (headerBytes <$> headers) with Some r => be_value r | None => 0 end.

(** The state of the loop over the minor headers: the current shard, the header
    before, the root blocks referred to and the headers of each shard. *)
Record Scan := mkScan {
  fullShardId : Z;
  parentHeader : option MinorBlockHeader;
  prevRootBlockHashList : list Z;
  shardIdToMinorHeaders : list (Z * list MinorBlockHeader);
}.
Definition add_header (h : MinorBlockHeader) (l : list (Z * list MinorBlockHeader)) : list (Z * list MinorBlockHeader) :=
  match last l with
  | Some (id, hs) => removelast l ++ [(id, hs ++ [h])]
  | None => []
  end.
Definition scan_header (rootBlock : RootBlock) (m : Chain) (s : Scan) (h : MinorBlockHeader) : result Scan :=
  let id := GetFullShardID (mh_branch h) in
  if negb (db_ContainMinorBlockByHash (mh_hash h) (rc_db m)) then Err "minor block is not validated"
  else if bool_decide (rb_time rootBlock < mh_time h) then Err "minor block create time is larger than root block"
  else if bool_decide (id < fullShardId s) then Err "shard id must be ordered"
  else
    shards ← (if bool_decide (fullShardId s < id) then Ok (shardIdToMinorHeaders s ++ [(id, [])])
              else
                p ← deref (parentHeader s);
                if negb (mh_number h =? u64 (mh_number p + 1)) then Err "mheader.Number must equal to prev header + 1"
                else if negb (mh_parent h =? mh_hash p) then Err "minor block does not link to previous block"
                else Ok (shardIdToMinorHeaders s));
    Ok (mkScan id (Some h) (list_union (prevRootBlockHashList s) [PrevRootBlockHash h]) (add_header h shards)).
Fixpoint scan_headers (rootBlock : RootBlock) (m : Chain) (hs : list MinorBlockHeader) (s : Scan) : result Scan :=
  match hs with
  | [] => Ok s
  | h :: hs => s ← scan_header rootBlock m s h; scan_headers rootBlock m hs s
  end.

Fixpoint check_prev_roots (rootBlock : RootBlock) (m : Chain) (keys : list Z) : result unit :=
  match keys with
  | [] => Ok tt
  | key :: keys =>
      match rc_GetBlock key m with
      | None => Err "root block not found"
      | Some b =>
          same ← rc_isSameChain rootBlock b m;
          if (same : bool) then check_prev_roots rootBlock m keys
          else Err "minor block's prev root block must be in the same chain"
      end
  end.

(** The headers of one shard, after the latest one of the parent. *)
Definition check_shard (number : Z) (latest : gmap Z MinorBlockHeader) (e : Z * list MinorBlockHeader) : result (gmap Z MinorBlockHeader) :=
  let '(id, hs) := e in
  s ← deref (GetShardConfigByFullShardID (quarkchain rconfig) id);
  max ← MaxBlocksPerShardInOneRootBlock s;
  if bool_decide (max < u32 (Z.of_nat (length hs))) then Err "too many minor blocks in the root block for shard"
  else if negb (bool_decide (id ∈ GetInitializedShardIdsBeforeRootHeight (quarkchain rconfig) number))
  then Err "found minor block header in root block for uninitialized shard"
  else
    first ← deref (head hs);
    last ← deref (last hs);
    match latest !! id with
    | None => if mh_number first =? 0 then Ok (<[id := last]> latest) else Err "genesis block height is not 0 for shard"
    | Some prev =>
        if (u64 (mh_number prev + 1) =? mh_number first) && (mh_hash prev =? mh_parent first) then Ok (<[id := last]> latest)
        else Err "minor block does not link to previous block"
    end.
Fixpoint check_shards (number : Z) (latest : gmap Z MinorBlockHeader) (l : list (Z * list MinorBlockHeader))
    : result (gmap Z MinorBlockHeader) :=
  match l with
  | [] => Ok latest
  | e :: l => latest ← check_shard number latest e; check_shards number latest l
  end.

(** The checks on the block itself. *)
Definition rc_check_header (force : bool) (m : Chain) (block : RootBlock) : result unit :=
  if bool_decide (NumberU64 block < 1) then Err "unexpected height"
  else if rc_HasBlock (Hash block) m && negb force then Err "block already known"
  else
    _ ← rc_VerifyHeader m block;
    match rc_GetBlock (ParentHash block) m with
    | None => Err "no such root block"
    | Some parent =>
        if negb (GetDifficulty block + rb_totalDifficulty parent =? rb_totalDifficulty block) then Err "error total diff"
        else if bool_decide (rc_ExtraDataSizeLimit rconfig < u32 (Z.of_nat (length (rb_trackingData block))))
        then Err "tracking data in block is too large"
        else if negb (headers_root (MinorBlockHeaders block) =? rb_minorHeaderHash block) then Err "incorrect merkle root"
        else if negb (rb_root block =? EmptyTrieHash) then Err "incorrect evm state root"
        else if SkipRootCoinbaseCheck rconfig then Ok tt
        else
          expected ← CalculateRootBlockCoinBase block m;
          if compareCoinbaseAmountMap (GetBalanceMap expected) (rb_coinbaseAmount block) then Ok tt
          else Err "bad coinbase amount for root block"
    end.
(** The checks on the minor headers; the latest header of each shard. *)
Definition rc_check_minors (m : Chain) (block : RootBlock) : result (gmap Z MinorBlockHeader) :=
  s ← scan_headers block m (MinorBlockHeaders block) (mkScan 0 None [] []);
  _ ← check_prev_roots block m (prevRootBlockHashList s);
  check_shards (NumberU64 block) (GetLatestMinorBlockHeaders (ParentHash block) m) (shardIdToMinorHeaders s).
Definition rc_ValidateBlock (force : bool) (block : RootBlock) : ROp unit :=
  m ← se_get;
  _ ← se_lift (rc_check_header force m block);
  latest ← se_lift (rc_check_minors m block);
  SetLatestMinorBlockHeaders (Hash block) latest.

(** ** Making a root block *)

(** CreateBlockToAppend, ExtendMinorBlockHeaderList and Finalize; the hash of the
    block is given by [hashOf]. *)
Definition root_CreateBlockToAppend (h : RootBlock) (createTime difficulty : Z) (address : Address) : RootBlock :=
  mkRootBlock 0 (rb_version h) (Hash h) (u32 (NumberU64 h + 1)) 0 0 address ∅ createTime difficulty
    (rb_totalDifficulty h + difficulty) 0 [] 0 (replicate 65 0) [] [].
Definition ExtendMinorBlockHeaderList (headers : list MinorBlockHeader) (createTime : Z) (b : RootBlock) : RootBlock :=
  mkRootBlock (rb_hash b) (rb_version b) (rb_parent b) (rb_number b) (rb_minorHeaderHash b) (rb_root b) (rb_coinbase b)
    (rb_coinbaseAmount b) (rb_time b) (rb_difficulty b) (rb_totalDifficulty b) (rb_nonce b) (rb_extra b) (rb_mixDigest b)
    (rb_signature b) (rb_trackingData b) (MinorBlockHeaders b ++ filter (fun h => mh_time h <= createTime) headers).
Definition root_Finalize (hashOf : RootBlock → Z) (coinbaseAmount : gmap Z Z) (address : Address) (b : RootBlock) : RootBlock :=
  let b' h := mkRootBlock h (rb_version b) (rb_parent b) (rb_number b) (headers_root (MinorBlockHeaders b)) EmptyTrieHash address
    coinbaseAmount (rb_time b) (rb_difficulty b) (rb_totalDifficulty b) (rb_nonce b) (rb_extra b) (rb_mixDigest b)
    (rb_signature b) (rb_trackingData b) (MinorBlockHeaders b) in
  b' (hashOf (b' 0)).
(** [sign] is SignWithPrivateKey with the key of the configuration, if there is one. *)
Definition rc_CreateBlockToMine (hashOf : RootBlock → Z) (sign : RootBlock → result RootBlock) (mHeaderList : list MinorBlockHeader)
    (address : option Address) (createTime : option Z) (m : Chain) : result RootBlock :=
  let address := default (CreatEmptyAddress 0) address in
  current ← rc_CurrentBlock m;
  let createTime := match createTime with
                    | Some t => t
                    | None => if bool_decide (r_now < u64 (rb_time current + 1)) then u64 (rb_time current + 1) else r_now
                    end in
  difficulty ← engine_CalcDifficulty r_diffCalc createTime current;
  let block := ExtendMinorBlockHeaderList mHeaderList createTime (root_CreateBlockToAppend current createTime difficulty address) in
  coinbase ← CalculateRootBlockCoinBase block m;
  sign (root_Finalize hashOf (balances coinbase) address block).
End root_validator.
