(* ===== verification/RootInsert.v ===== *)
(** * core: blocks inserted into the root chain

    Models the import of src/core/rootblockchain.go over the iterator of
    ChainInsert.v.  An import returns its position and events together with its
    error, as the code does. *)

From S2P Require Import Prelude Utils Account Config Transaction Blocks BlockTree XShardCursor Lru Receipts RawDb Engine.
From S2P Require Import ChainInsert RootChain RootValidator.

Local Open Scope Z_scope.

Inductive RootEvent :=
| RootChainEvent (block : RootBlock)
| RootChainSideEvent (block : RootBlock)
| RootChainHeadEvent (block : RootBlock).

Record RootInserted := mkRootInserted {
  ri_index : Z;
  ri_events : list RootEvent;
  ri_err : option string;
}.

Section root_insert.
Context {CF : Type} `{Lru RootBlock CF} `{RootEnv}.

Abbreviation Chain := (RootBlockChain CF).
Abbreviation ROp := (SE Chain).
Abbreviation Iter := (insertIterator RootBlock).

Definition rc_validate (force : bool) (b : RootBlock) : ROp (option string) :=
  r ← se_try (rc_ValidateBlock force b);
  mret (match r with inl _ => None | inr e => Some e end).

Definition rc_addFutureBlock (block : RootBlock) : ROp unit :=
  if bool_decide (u64 (r_now + 30) < rb_time block) then se_err "future block timestamp %v > allowed %v"
  else se_mod (fun m => rc_set_future (lru_add (rc_futureBlocks m) (Hash block) block) m).

Definition absUint64 (a b : Z) : Z := if bool_decide (b < a) then a - b else b - a.

(** One block; the right value is the error the import ends with. *)
Definition rc_import_block (fuel : nat) (block : RootBlock) : ROp (RootWriteStatus + string) :=
  se_try (
    m ← se_get;
    current ← se_lift (rc_CurrentBlock m);
    if negb (isCheckDB m) &&
       bool_decide (MaxStaleRootBlockHeightDiff (c_root rconfig) < absUint64 (NumberU64 current) (NumberU64 block))
    then se_err "block is too old %v %v"
    else rc_WriteBlockWithState fuel block).

Definition rc_event (block : RootBlock) (status : RootWriteStatus) : RootEvent :=
  match status with RootCanonStatTy => RootChainEvent block | RootSideStatTy => RootChainSideEvent block end.
Definition rc_canon (block : RootBlock) (status : RootWriteStatus) (lastCanon : option RootBlock) : option RootBlock :=
  match status with RootCanonStatTy => Some block | RootSideStatTy => lastCanon end.

(** The left value is an early return, the right one is how the loop was left:
    the position, the error, the events and the last block on the chain. *)
Fixpoint rc_import_loop (fuel : nat) (force : bool) (rest before : list RootBlock) (block : RootBlock)
    (events : list RootEvent) (lastCanon : option RootBlock)
    : ROp (RootInserted + Iter * option string * list RootEvent * option RootBlock) :=
  let it := mkIter before (Some block) rest in
  m ← se_get;
  if rc_procInterrupt m then mret (inr (it, None, events, lastCanon))
  else
    r ← rc_import_block fuel block;
    match r with
    | inr e => mret (inl (mkRootInserted (it_index it) events (Some e)))
    | inl status =>
        let events := events ++ [rc_event block status] in
        let lastCanon := rc_canon block status lastCanon in
        match rest with
        | [] => mret (inr (mkIter (block :: before) None [], None, events, lastCanon))
        | b :: rest =>
            err ← rc_validate force b;
            match err with
            | None => rc_import_loop fuel force rest (block :: before) b events lastCanon
            | Some e => mret (inr (mkIter (block :: before) (Some b) rest, Some e, events, lastCanon))
            end
        end
    end.

(** The import from a block on; then the new head is announced. *)
Definition rc_import_from (fuel : nat) (force : bool) (it : Iter) (err : option string) : ROp RootInserted :=
  r ← match it_current it, err with
      | Some block, None => rc_import_loop fuel force (it_rest it) (it_before it) block [] None
      | _, _ => mret (inr (it, err, [], None))
      end;
  match r with
  | inl i => mret i
  | inr (it, err, events, lastCanon) =>
      r ← queue_future (rc_validate force) rc_addFutureBlock it err;
      match r with
      | inl (it, err) => mret (mkRootInserted (it_index it) events err)
      | inr (it, err) =>
          match lastCanon with
          | None => mret (mkRootInserted (it_index it) events err)
          | Some l =>
              m ← se_get;
              c ← se_lift (rc_CurrentBlock m);
              mret (mkRootInserted (it_index it) (if bool_decide (Hash c = Hash l) then events ++ [RootChainHeadEvent l] else events) err)
          end
      end
  end.

(** ** Side chains *)

Fixpoint rc_side_loop (force : bool) (current : Z) (rest before : list RootBlock) (block : RootBlock)
    : ROp (RootInserted + Iter * option string * Z) :=
  let it := mkIter before (Some block) rest in
  m ← se_get;
  if bool_decide (NumberU64 block <= current) &&
     match rc_GetBlockByNumber (NumberU64 block) m with Some canonical => bool_decide (Hash canonical = Hash block) | None => false end
  then mret (inl (mkRootInserted (it_index it) [] (Some "sidechain ghost-state attack"%string)))
  else
    _ ← (if rc_HasBlock (Hash block) m then mret tt else rc_WriteBlockWithoutState block);
    match rest with
    | [] => mret (inr (mkIter (block :: before) None [], None, rb_totalDifficulty block))
    | b :: rest =>
        err ← rc_validate force b;
        if bool_decide (err = Some "pruned ancestor"%string) then rc_side_loop force current rest (block :: before) b
        else mret (inr (mkIter (block :: before) (Some b) rest, err, rb_totalDifficulty block))
    end.
(** The loop over the parents ends when there is none, which the code then takes
    for a missing parent; what follows it is never reached. *)
Fixpoint rc_parents (fuel : nat) (hash : Z) (m : Chain) : result unit :=
  match rc_GetBlock hash m with
  | None => Ok tt
  | Some b => match fuel with O => no_fuel | S fuel => rc_parents fuel (ParentHash b) m end
  end.
Definition rc_insertSidechain (fuel : nat) (force : bool) (it : Iter) : ROp RootInserted :=
  m ← se_get;
  c ← se_lift (rc_CurrentBlock m);
  match it_current it with
  | None => se_panic "invalid memory address or nil pointer dereference"
  | Some block =>
      r ← rc_side_loop force (NumberU64 c) (it_rest it) (it_before it) block;
      match r with
      | inl i => mret i
      | inr (it, err, externTd) =>
          m ← se_get;
          c ← se_lift (rc_CurrentBlock m);
          if bool_decide (externTd < rb_totalDifficulty c) then mret (mkRootInserted (it_index it) [] err)
          else
            prev ← se_lift (deref (it_previous it));
            _ ← se_lift (rc_parents fuel (Hash prev) m);
            mret (mkRootInserted (it_index it) [] (Some "missing parent"%string))
      end
  end.

(** ** insertChain *)

Definition rc_insertChain (fuel : nat) (chain : list RootBlock) : ROp RootInserted :=
  m ← se_get;
  if rc_procInterrupt m then mret (mkRootInserted 0 [] None)
  else
    let force := isCheckDB m in
    n ← it_next (rc_validate force) (mkIter [] None chain);
    let '(it, err) := (n : Iter * option string) in
    match it_current it, err with
    | Some block, Some e =>
        if bool_decide (e = "pruned ancestor"%string) then rc_insertSidechain fuel force it
        else if bool_decide (e = "block in the future"%string) ||
          (bool_decide (e = "unknown ancestor"%string) &&
           match lru_get (rc_futureBlocks m) (ParentHash block) with Some _ => true | None => false end)
        then
          n ← queue_loop (rc_validate force) rc_addFutureBlock true (it_rest it) (it_before it) block err;
          let '(it, err) := (n : Iter * option string) in mret (mkRootInserted (it_index it) [] err)
        else if bool_decide (e = "block already known"%string) then
          m ← se_get;
          c ← se_lift (rc_CurrentBlock m);
          n ← skip_known (rc_validate force) (NumberU64 c) (it_rest it) (it_before it) block;
          rc_import_from fuel force (n : Iter * option string).1 n.2
        else mret (mkRootInserted (it_index it) [] err)
    | _, _ => rc_import_from fuel force it err
    end.

Definition rc_InsertChain (fuel : nat) (chain : list RootBlock) : ROp (Z * option string) :=
  match chain with
  | [] => mret (0, None)
  | _ =>
      if negb (contiguous chain) then mret (0, Some "non contiguous insert"%string)
      else r ← rc_insertChain fuel chain; mret (ri_index r, ri_err r)
  end.

(** The queued blocks are imported one by one, lowest first. *)
Fixpoint proc_loop (fuel : nat) (blocks : list RootBlock) : ROp unit :=
  match blocks with
  | [] => mret tt
  | b :: blocks => _ ← rc_InsertChain fuel [b]; proc_loop fuel blocks
  end.
Fixpoint insert_by_number (b : RootBlock) (l : list RootBlock) : list RootBlock :=
  match l with
  | [] => [b]
  | x :: l => if bool_decide (NumberU64 x < NumberU64 b) then x :: insert_by_number b l else b :: x :: l
  end.
Definition rc_procFutureBlocks (fuel : nat) : ROp unit :=
  m ← se_get;
  proc_loop fuel (foldr insert_by_number [] (omap (lru_get (rc_futureBlocks m)) (lru_keys (rc_futureBlocks m)))).
End root_insert.
