(* ===== verification/RootChainCorrect.v ===== *)
(** * core: correctness of the root chain

    What RootChain.v, RootValidator.v and RootInsert.v keep true of the root
    chain: the stored blocks descend from the genesis block, the head is the
    heaviest of them and its chain is in the canonical index, and the minor block
    headers that a block and its ancestors confirm form one chain per shard. *)

From S2P Require Import Prelude Wp Utils Codec TokenBalances Account Config Transaction Blocks BlockTree XShardCursor Lru Receipts RawDb.
From S2P Require Import Consensus Engine ChainInsert MinorValidator RootChain RootValidator RootInsert.

Local Open Scope Z_scope.

(** ** Chains of headers *)

Definition shard_of (h : MinorBlockHeader) : Z := GetFullShardID (mh_branch h).

(** The header after [prev], or the first one. *)
Definition follow (prev : option MinorBlockHeader) (h : MinorBlockHeader) : Prop :=
  match prev with
  | None => mh_number h = 0
  | Some p => mh_number h = u64 (mh_number p + 1) ∧ mh_parent h = mh_hash p
  end.
Fixpoint follows_from (prev : option MinorBlockHeader) (hs : list MinorBlockHeader) : Prop :=
  match hs with [] => True | h :: hs => follow prev h ∧ follows_from (Some h) hs end.
Definition last_or (prev : option MinorBlockHeader) (hs : list MinorBlockHeader) : option MinorBlockHeader :=
  match last hs with Some h => Some h | None => prev end.

Lemma last_or_app prev l1 l2 : last_or prev (l1 ++ l2) = last_or (last_or prev l1) l2.
Proof. unfold last_or. rewrite last_app. by destruct (last l2). Qed.
Lemma last_or_cons prev h l : last_or prev (h :: l) = last_or (Some h) l.
Proof. exact (last_or_app prev [h] l). Qed.
Lemma last_or_None l : last_or None l = last l.
Proof. unfold last_or. by destruct (last l). Qed.
Lemma follows_from_app prev l1 l2 : follows_from prev (l1 ++ l2) ↔ follows_from prev l1 ∧ follows_from (last_or prev l1) l2.
Proof.
  revert prev. induction l1 as [|h l1 IH]; intros prev; cbn [app follows_from]; [cbn; tauto|]. rewrite IH, last_or_cons. tauto.
Qed.
(** A chain from the first header on has the numbers 0, 1, 2, ... *)
Lemma follows_number hs i h : follows_from None hs → hs !! i = Some h → mh_number h = u64 (Z.of_nat i).
Proof.
  intros Hf. revert h. induction i as [|i IH]; intros h Hi.
  - destruct hs as [|h0 hs]; [done|]. injection Hi as ->. by destruct Hf as [-> _].
  - destruct (lookup_lt_is_Some_2 hs i) as [p Hp]; [apply lookup_lt_Some in Hi; lia|].
    rewrite <- (take_drop_middle hs i p Hp) in Hf. apply follows_from_app in Hf as [_ [_ Hf]].
    destruct (drop (S i) hs) as [|h' r] eqn:E; [|assert (h' = h) as ->].
    + assert (drop (S i) hs !! 0%nat = Some h) as Hx by (rewrite lookup_drop; by rewrite Nat.add_0_r). by rewrite E in Hx.
    + assert (drop (S i) hs !! 0%nat = Some h) as Hx by (rewrite lookup_drop; by rewrite Nat.add_0_r). rewrite E in Hx. by injection Hx.
    + destruct Hf as [[Hn _] _]. rewrite Hn, (IH p Hp). unfold u64. rewrite Zplus_mod_idemp_l. f_equal. lia.
Qed.
Lemma follows_parent prev hs i a b : follows_from prev hs → hs !! i = Some a → hs !! S i = Some b → mh_parent b = mh_hash a.
Proof.
  revert prev i. induction hs as [|h hs IH]; intros prev i Hf Ha Hb; [done|]. destruct Hf as [_ Hf]. destruct i as [|i].
  - injection Ha as ->. destruct hs as [|h' hs]; [done|]. injection Hb as ->. destruct Hf as [[_ Hp] _]. done.
  - by eapply IH.
Qed.

(** ** The scan of the headers of a block *)

Definition inner (hs : list MinorBlockHeader) : Prop := match hs with [] => False | h :: t => follows_from (Some h) t end.
Abbreviation groups_of := (list (Z * list MinorBlockHeader)).
Record groups_ok (l : groups_of) : Prop := {
  p_nodup : NoDup l.*1;
  p_group e : e ∈ l → inner e.2 ∧ ∀ h, h ∈ e.2 → shard_of h = e.1;
}.
Record scan_ok (seen : list MinorBlockHeader) (s : Scan) : Prop := {
  n_groups : groups_ok (shardIdToMinorHeaders s);
  n_seen : concat (shardIdToMinorHeaders s).*2 = seen;
  n_max e : e ∈ shardIdToMinorHeaders s → e.1 <= fullShardId s;
  n_last : match last (shardIdToMinorHeaders s) with
           | None => parentHeader s = None
           | Some e => fullShardId s = e.1 ∧ parentHeader s = last e.2
           end;
  n_roots h : h ∈ seen → PrevRootBlockHash h ∈ prevRootBlockHashList s;
}.

Lemma inner_snoc hs h p : inner hs → last hs = Some p → follow (Some p) h → inner (hs ++ [h]).
Proof.
  destruct hs as [|h0 hs]; [done|]. cbn [inner app]. intros Hi Hl Hf. apply follows_from_app. split; [done|].
  assert (last_or (Some h0) hs = Some p) as ->; [|done]. rewrite <- last_or_cons with (prev := None). by rewrite last_or_None.
Qed.
Lemma add_header_snoc h l id hs : add_header h (l ++ [(id, hs)]) = l ++ [(id, hs ++ [h])].
Proof. unfold add_header. by rewrite last_snoc, removelast_last. Qed.

Lemma concat_snoc {A} (l : list (list A)) (x : list A) : concat (l ++ [x]) = concat l ++ x.
Proof. rewrite concat_app. cbn. by rewrite app_nil_r. Qed.

Section scan.
Context {CF : Type} `{Lru RootBlock CF} `{RootEnv}.

Lemma scan_header_ok (b : RootBlock) (m : RootBlockChain CF) seen s h s' :
  scan_ok seen s → scan_header b m s h = Ok s' → scan_ok (seen ++ [h]) s'.
Proof.
  intros [Hgr Hs Hmax Hlast Hroots]. destruct Hgr as [Hnd Hgr]. unfold scan_header. cbv zeta. change (GetFullShardID (mh_branch h)) with (shard_of h).
  destruct (negb _); [done|]. case_bool_decide; [done|]. case_bool_decide as Hlt; [done|].
  assert (∀ h', h' ∈ seen ++ [h] → PrevRootBlockHash h' ∈ list_union (prevRootBlockHashList s) [PrevRootBlockHash h]) as Hr'.
  { intros h' Hh'. apply list_elem_of_union. apply elem_of_app in Hh' as [Hh'|Hh']; [left; auto|].
    apply list_elem_of_singleton in Hh' as ->. right. by left. }
  case_bool_decide as Hgt.
  - cbn [mbind result_bind]. intros [= <-]. constructor; cbn [shardIdToMinorHeaders fullShardId parentHeader prevRootBlockHashList];
      rewrite ?add_header_snoc; cbn [app]; [| | | |by apply Hr'].
    + constructor.
      * rewrite fmap_app. apply NoDup_app. split_and!; [done| |apply NoDup_singleton]. intros id Hid Hin.
        apply list_elem_of_singleton in Hin as ->. apply list_elem_of_fmap in Hid as (e & He & Hin'). cbn in He. specialize (Hmax e Hin'). lia.
      * intros e He. apply elem_of_app in He as [He|He]; [by apply Hgr|]. apply list_elem_of_singleton in He as ->. cbn. split; [done|].
        intros h' Hh'. by apply list_elem_of_singleton in Hh' as ->.
    + rewrite fmap_app. cbn [fmap list_fmap snd]. by rewrite concat_snoc, Hs.
    + intros e He. apply elem_of_app in He as [He|He]; [specialize (Hmax e He); lia|]. apply list_elem_of_singleton in He as ->. cbn. lia.
    + rewrite last_snoc. done.
  - destruct (parentHeader s) as [p|] eqn:Ep; [|done]. cbn [deref mbind result_bind].
    destruct (mh_number h =? u64 (mh_number p + 1)) eqn:En; [|done]. destruct (mh_parent h =? mh_hash p) eqn:Eh; [|done].
    cbn [negb mbind result_bind]. apply Z.eqb_eq in En, Eh. intros [= <-].
    destruct (last (shardIdToMinorHeaders s)) as [[id hs]|] eqn:El; [|done]. destruct Hlast as [Hid Hp]. cbn [fst snd] in *.
    apply last_Some in El as [l El]. rewrite El in *.
    assert (shard_of h = id) as Hsh by lia.
    constructor; cbn [shardIdToMinorHeaders fullShardId parentHeader prevRootBlockHashList]; rewrite ?add_header_snoc; [| | | |by apply Hr'].
    + constructor.
      * rewrite fmap_app in *. exact Hnd.
      * intros e He. apply elem_of_app in He as [He|He]; [apply Hgr; set_solver|]. apply list_elem_of_singleton in He as ->. cbn [fst snd].
        destruct (Hgr (id, hs)) as [Hi Hall]; [set_solver|]. cbn [fst snd] in *. split; [by eapply inner_snoc|].
        intros h' Hh'. apply elem_of_app in Hh' as [Hh'|Hh']; [auto|]. by apply list_elem_of_singleton in Hh' as ->.
    + rewrite fmap_app in *. cbn [fmap list_fmap snd] in *. rewrite concat_snoc in *. by rewrite app_assoc, Hs.
    + intros e He. rewrite Hsh. apply elem_of_app in He as [He|He]; [rewrite <- Hid; apply Hmax; set_solver|].
      by apply list_elem_of_singleton in He as ->.
    + rewrite last_snoc. cbn [fst snd]. by rewrite last_snoc.
Qed.
Lemma scan_headers_ok (b : RootBlock) (m : RootBlockChain CF) hs seen s s' :
  scan_ok seen s → scan_headers b m hs s = Ok s' → scan_ok (seen ++ hs) s'.
Proof.
  revert seen s. induction hs as [|h hs IH]; intros seen s Hs E; cbn [scan_headers] in E.
  { injection E as <-. by rewrite app_nil_r. }
  destruct (scan_header b m s h) as [s1|e|e] eqn:E1; [|done|done]. cbn [mbind result_bind] in E.
  apply (scan_header_ok _ _ _ _ _ _ Hs) in E1. apply (IH _ _ E1) in E. by rewrite <- app_assoc in E.
Qed.

(** The headers of a shard are its group. *)
Lemma groups_filter (l : groups_of) s :
  groups_ok l →
  (∃ hs, (s, hs) ∈ l ∧ filter (fun h => shard_of h = s) (concat l.*2) = hs) ∨
  ((s ∉ l.*1) ∧ filter (fun h => shard_of h = s) (concat l.*2) = []).
Proof.
  intros [Hnd Hgr]. induction l as [|[id hs] l IH]; [right; split; [by apply not_elem_of_nil|done]|].
  cbn [fmap list_fmap fst snd concat] in *. apply NoDup_cons in Hnd as [Hn Hnd]. rewrite filter_app.
  destruct (Hgr (id, hs)) as [_ Hall]; [by left|]. cbn [fst snd] in Hall.
  destruct (decide (s = id)) as [->|Hne].
  - left. exists hs. split; [by left|]. destruct IH as [(hs' & Hin & _)|[_ ->]]; [done|intros e He; apply Hgr; by right| |].
    + exfalso. apply Hn. apply list_elem_of_fmap. by exists (id, hs').
    + rewrite app_nil_r. apply filter_all. by apply Forall_forall.
  - rewrite (filter_none _ hs); [|apply Forall_forall; intros h Hh He; apply Hne; rewrite <- He; auto]. cbn [app].
    destruct IH as [(hs' & Hin & Hf)|[Hnin Hf]]; [done|intros e He; apply Hgr; by right| |].
    + left. exists hs'. split; [by right|done].
    + right. split; [|done]. intros Hin. apply elem_of_cons in Hin as [|]; [done|by apply Hnin].
Qed.

Lemma check_shards_ok number latest l latest' :
  groups_ok l → check_shards number latest l = Ok latest' →
  (∀ s hs, (s, hs) ∈ l → follows_from (latest !! s) hs ∧ latest' !! s = last hs) ∧ (∀ s, s ∉ l.*1 → latest' !! s = latest !! s).
Proof.
  revert latest. induction l as [|[id hs] l IH]; intros latest [Hnd Hgr] E; cbn [check_shards] in E.
  { injection E as <-. split; [intros s hs Hin; by apply not_elem_of_nil in Hin|done]. }
  destruct (check_shard number latest (id, hs)) as [latest1|e|e] eqn:E1; [|done|done]. cbn [mbind result_bind] in E.
  cbn [fmap list_fmap fst] in Hnd. apply NoDup_cons in Hnd as [Hn Hnd].
  assert (groups_ok l) as Hl by (constructor; [done|intros e He; apply Hgr; by right]).
  destruct (IH _ Hl E) as [Hin Hout].
  assert (follows_from (latest !! id) hs ∧ latest1 = match last hs with Some h => <[id := h]> latest | None => latest end) as [Hf ->].
  { clear E IH Hin Hout. destruct (Hgr (id, hs)) as [Hi _]; [by left|]. cbn [snd] in Hi. unfold check_shard in E1. cbv beta iota in E1.
    destruct (GetShardConfigByFullShardID _ id) as [sc|]; [|done]. cbn [deref mbind result_bind] in E1.
    destruct (MaxBlocksPerShardInOneRootBlock sc) as [mx|e|e]; [|done|done]. cbn [mbind result_bind] in E1.
    case_bool_decide; [done|]. destruct (negb _); [done|]. destruct hs as [|h0 hs]; [done|]. cbn [head deref mbind result_bind] in E1.
    destruct (last (h0 :: hs)) as [lh|] eqn:El; [|done]. cbn [deref mbind result_bind] in E1. cbn [inner] in Hi.
    destruct (latest !! id) as [p|] eqn:Ep.
    - destruct (u64 (mh_number p + 1) =? mh_number h0) eqn:E2; [|done]. destruct (mh_hash p =? mh_parent h0) eqn:E3; [|done].
      cbn [andb] in E1. apply Z.eqb_eq in E2, E3. injection E1 as <-. cbn [follows_from follow]. split_and!; congruence.
    - destruct (mh_number h0 =? 0) eqn:E2; [|done]. apply Z.eqb_eq in E2. injection E1 as <-. by split. }
  assert (∃ lh, last hs = Some lh) as [lh Hlh].
  { destruct (Hgr (id, hs)) as [Hi _]; [by left|]. cbn [snd] in Hi. destruct hs as [|h0 hs]; [done|].
    apply last_is_Some. done. }
  rewrite Hlh in *. split.
  - intros s hs' Hs. apply elem_of_cons in Hs as [[= -> ->]|Hs].
    + split; [done|]. rewrite Hout by done. by rewrite lookup_insert_eq.
    + assert (s ≠ id) as Hne by (intros ->; apply Hn; apply list_elem_of_fmap; by exists (id, hs')).
      destruct (Hin s hs' Hs) as [Hf' Hl']. by rewrite lookup_insert_ne in Hf'.
  - intros s Hs. cbn [fmap list_fmap fst] in Hs. apply not_elem_of_cons in Hs as [Hne Hs]. rewrite Hout by done. by rewrite lookup_insert_ne.
Qed.

(** What the checks on the minor headers of a block ensure, for each shard. *)
Lemma check_minors_ok (m : RootBlockChain CF) b latest' :
  rc_check_minors m b = Ok latest' →
  (∀ s, let own := filter (fun h => shard_of h = s) (MinorBlockHeaders b) in
     let latest := GetLatestMinorBlockHeaders (ParentHash b) m in
     follows_from (latest !! s) own ∧ latest' !! s = last_or (latest !! s) own) ∧
  (∀ h, h ∈ MinorBlockHeaders b → ∃ r, rc_GetBlock (PrevRootBlockHash h) m = Some r ∧ rc_isSameChain b r m = Ok true).
Proof.
  unfold rc_check_minors. destruct (scan_headers b m (MinorBlockHeaders b) (mkScan 0 None [] [])) as [s|e|e] eqn:Es; [|done|done].
  cbn [mbind result_bind]. destruct (check_prev_roots b m (prevRootBlockHashList s)) as [[]|e|e] eqn:Ep; [|done|done]. cbn [mbind result_bind].
  assert (scan_ok [] (mkScan 0 None [] [])) as Hx0.
  { constructor; cbn; [constructor; [apply NoDup_nil_2|]|done| |done|]; intros x Hx; by apply not_elem_of_nil in Hx. }
  apply (scan_headers_ok _ _ _ _ _ _ Hx0) in Es. cbn [app] in Es. destruct Es as [Hgr Hseen _ _ Hroots]. intros E.
  apply (check_shards_ok _ _ _ _ Hgr) in E as [Hin Hout]. split.
  - intros sh. cbv zeta. rewrite <- Hseen. destruct (groups_filter _ sh Hgr) as [(hs & Hhs & ->)|[Hn ->]].
    + destruct (Hin _ _ Hhs) as [Hf Hl]. split; [done|]. rewrite Hl. unfold last_or.
      destruct (p_group _ Hgr _ Hhs) as [Hi _]. cbn [snd] in Hi. destruct hs as [|h0 hs]; [done|]. by destruct (last_is_Some (h0 :: hs)) as [_ [x ->]].
    + split; [done|]. cbn. by apply Hout.
  - intros h Hh. apply Hroots in Hh. clear -Ep Hh. induction (prevRootBlockHashList s) as [|key keys IH]; [by apply not_elem_of_nil in Hh|].
    cbn [check_prev_roots] in Ep. destruct (rc_GetBlock key m) as [r|] eqn:Er; [|done].
    destruct (rc_isSameChain b r m) as [[|]|e|e] eqn:Ei; [|done..]. cbn [mbind result_bind] in Ep.
    apply elem_of_cons in Hh as [->|Hh]; [eauto|by apply IH].
Qed.
End scan.

(** ** The core of the chain *)

Record RCore := mkRCore {
  x_blocks : gmap Z (MinorBlock + RootBlock);
  x_canon : gmap Z Z;
  x_head : Z;
  x_latest : gmap Z (list MinorBlockHeader);
  x_current : option RootBlock;
}.
Definition stored (bl : gmap Z (MinorBlock + RootBlock)) (h : Z) : option RootBlock :=
  match bl !! h with Some (inr r) => Some r | _ => None end.
Definition latest_map (l : list MinorBlockHeader) : gmap Z MinorBlockHeader := foldl (fun hs h => <[shard_of h := h]> hs) ∅ l.
Definition latest_at (lt : gmap Z (list MinorBlockHeader)) (hash s : Z) : option MinorBlockHeader :=
  latest_map (default [] (lt !! hash)) !! s.

(** The headers of a shard that a block confirms, and those that the block and
    its ancestors confirm. *)
Definition own (s : Z) (b : RootBlock) : list MinorBlockHeader := filter (fun h => shard_of h = s) (MinorBlockHeaders b).
Definition confirmed (bl : gmap Z (MinorBlock + RootBlock)) (s : Z) (b : RootBlock) : list MinorBlockHeader :=
  concat (own s <$> rev (below (stored bl) (S (Z.to_nat (NumberU64 b))) b)).
(** A root block that is [b] or an ancestor of it. *)
Definition on_chain_of (bl : gmap Z (MinorBlock + RootBlock)) (b r : RootBlock) : Prop :=
  NumberU64 r <= NumberU64 b ∧ up (stored bl) (Z.to_nat (NumberU64 b - NumberU64 r)) b = Some r.

Lemma latest_map_roundtrip (hs : gmap Z MinorBlockHeader) :
  (∀ s h, hs !! s = Some h → shard_of h = s) → latest_map (map_to_list hs).*2 = hs.
Proof.
  intros Hk. assert (∀ l m, (∀ e, e ∈ l → shard_of e.2 = e.1) →
    foldl (fun hs h => <[shard_of h := h]> hs) m l.*2 = foldl (fun (hs : gmap Z MinorBlockHeader) e => <[e.1 := e.2]> hs) m l) as Hf.
  { induction l as [|e l IH]; intros m Hl; [done|]. cbn [fmap list_fmap foldl]. rewrite (Hl e) by (by left). apply IH. intros e' He'. apply Hl. by right. }
  unfold latest_map. rewrite Hf; [|intros [s h] He; apply elem_of_map_to_list in He; by apply Hk]. clear Hf Hk.
  assert (∀ (l : list (Z * MinorBlockHeader)) m, foldl (fun (hs : gmap Z MinorBlockHeader) e => <[e.1 := e.2]> hs) m l = list_to_map (rev l) ∪ m) as Hf.
  { induction l as [|e l IH]; intros m; [symmetry; apply (left_id_L ∅ (∪))|]. cbn [foldl rev]. rewrite IH, list_to_map_app, <- (assoc_L (∪)). f_equal. destruct e as [i x].
    by rewrite insert_union_singleton_l. }
  rewrite Hf, (right_id_L ∅ (∪)). rewrite <- (list_to_map_to_list hs) at 2. apply list_to_map_proper; [|symmetry; apply Permutation_rev].
  rewrite <- (Permutation_rev (map_to_list hs)). apply NoDup_fst_map_to_list.
Qed.

Section root_correct.
Context {CF : Type} `{Lru RootBlock CF} `{RootEnv}.
Abbreviation Chain := (RootBlockChain CF).

Definition rcore (m : Chain) : RCore :=
  mkRCore (d_blocks (rc_db m)) (d_rootCanonical (rc_db m)) (d_headBlock (rc_db m)) (d_latestMHeaders (rc_db m)) (rc_currentBlock m).

(** The root blocks that exist, by their hash, and the genesis block among them;
    the fuel exceeds the number of every block. *)
Context (block_of : Z → option RootBlock) (g : RootBlock) (fuel : nat).
Record roots_exist : Prop := {
  o_zero : block_of 0 = None;
  o_block h b : block_of h = Some b → Hash b = h ∧ 0 <= NumberU64 b < 2 ^ 32 ∧ (Z.to_nat (NumberU64 b) < fuel)%nat;
  o_genesis : block_of (Hash g) = Some g;
  o_number : NumberU64 g = 0;
  o_first : block_of (ParentHash g) = None;
  o_empty : MinorBlockHeaders g = [];
}.
Context (Ho : roots_exist).

(** The parent of every stored block but the genesis block is stored. *)
Record blocks_ok (bl : gmap Z (MinorBlock + RootBlock)) : Prop := {
  b_genuine h x : bl !! h = Some x → ∃ r, x = inr r ∧ block_of h = Some r;
  b_genesis : stored bl (Hash g) = Some g;
  b_parent h b : stored bl h = Some b → b = g ∨ ∃ p, stored bl (ParentHash b) = Some p ∧ NumberU64 b = NumberU64 p + 1 ∧
    rb_totalDifficulty b = rb_totalDifficulty p + rb_difficulty b;
}.
(** The head is the heaviest stored block, and its chain is in the index. *)
Record top_ok (k : RCore) (c : RootBlock) : Prop := {
  t_current : x_current k = Some c;
  t_stored : stored (x_blocks k) (Hash c) = Some c;
  t_hash_of : x_head k = Hash c;
  t_canon : canonical_upto (stored (x_blocks k)) (x_canon k) c;
  t_heaviest h b : stored (x_blocks k) h = Some b → rb_totalDifficulty b <= rb_totalDifficulty c;
}.
(** The headers that a block and its ancestors confirm are one chain per shard,
    and its latest header is known; each refers to a root block on the chain. *)
Record confirmed_at (bl : gmap Z (MinorBlock + RootBlock)) (lt : gmap Z (list MinorBlockHeader)) (b : RootBlock) : Prop := {
  f_chain s : follows_from None (confirmed bl s b);
  f_latest s : latest_at lt (Hash b) s = last (confirmed bl s b);
  f_prev s h : h ∈ confirmed bl s b → ∃ r, stored bl (PrevRootBlockHash h) = Some r ∧ on_chain_of bl b r;
}.
Record rgood (k : RCore) : Prop := {
  w_blocks : blocks_ok (x_blocks k);
  w_top : ∃ c, top_ok k c;
  w_confirmed h b : stored (x_blocks k) h = Some b → confirmed_at (x_blocks k) (x_latest k) b;
}.

Section blocks.
Context (bl : gmap Z (MinorBlock + RootBlock)) (Hb : blocks_ok bl).

Lemma stored_genuine h b : stored bl h = Some b → block_of h = Some b ∧ Hash b = h ∧ 0 <= NumberU64 b < 2 ^ 32.
Proof.
  unfold stored. destruct (bl !! h) as [x|] eqn:E; [|done]. destruct (b_genuine _ Hb _ _ E) as (r & -> & Hr). intros [= ->].
  destruct (o_block Ho _ _ Hr) as (? & ? & _). done.
Qed.
Lemma stored_tree_ok : tree_ok (stored bl).
Proof.
  constructor.
  - intros h b E. by apply stored_genuine in E as (_ & ? & _).
  - destruct (stored bl 0) eqn:E; [|done]. apply stored_genuine in E as (E & _). by rewrite (o_zero Ho) in E.
  - intros h b E. apply stored_genuine in E as (_ & _ & ?). lia.
  - intros h b p E Ep. destruct (b_parent _ Hb _ _ E) as [->|(p' & Ep' & Hn & _)]; [|congruence].
    apply stored_genuine in Ep as (Ep & _). by rewrite (o_first Ho) in Ep.
Qed.
Lemma stored_up h b : stored bl h = Some b → up (stored bl) (Z.to_nat (NumberU64 b)) b = Some g.
Proof.
  intros E. remember (Z.to_nat (NumberU64 b)) as n eqn:Hn. revert h b E Hn. induction n as [|n IH]; intros h b E Hn.
  all: pose proof (stored_genuine _ _ E) as (_ & _ & Hnum); destruct (b_parent _ Hb _ _ E) as [->|(p & Ep & Hp & _)].
  - done.
  - pose proof (stored_genuine _ _ Ep) as (_ & _ & Hnum'). lia.
  - rewrite (o_number Ho) in Hn. lia.
  - rewrite (up_parent _ _ _ _ Ep). apply (IH _ _ Ep). pose proof (stored_genuine _ _ Ep) as (_ & _ & Hnum'). lia.
Qed.
Lemma stored_rooted_at h b : stored bl h = Some b → rooted (stored bl) b.
Proof.
  intros E. constructor; [by destruct (stored_genuine _ _ E) as (_ & -> & _)|]. rewrite (stored_up _ _ E). eauto.
Qed.
Lemma stored_one_root : one_root (stored bl).
Proof.
  intros a b [Ha _] [Hb' _] Ea Eb. pose proof (stored_up _ _ Ha) as Hua. pose proof (stored_up _ _ Hb') as Hub.
  rewrite Ea in Hua. rewrite Eb in Hub. injection Hua as ->. by injection Hub as ->.
Qed.

Lemma confirmed_parent s b p :
  stored bl (ParentHash b) = Some p → NumberU64 b = NumberU64 p + 1 → confirmed bl s b = confirmed bl s p ++ own s b.
Proof.
  intros Ep Hn. pose proof (stored_genuine _ _ Ep) as (_ & _ & Hnum). unfold confirmed.
  rewrite (below_parent _ _ _ _ Ep). replace (Z.to_nat (NumberU64 b)) with (S (Z.to_nat (NumberU64 p))) by lia.
  cbn [rev]. rewrite fmap_app. cbn [fmap list_fmap]. by rewrite concat_snoc.
Qed.
Lemma confirmed_genesis s : confirmed bl s g = [].
Proof. unfold confirmed. rewrite (o_number Ho). cbn [Z.to_nat]. rewrite below_one. cbn. unfold own. by rewrite (o_empty Ho). Qed.
End blocks.

(** ** A block more *)

Section extend.
Context (bl : gmap Z (MinorBlock + RootBlock)) (Hb : blocks_ok bl) (b p : RootBlock).
Context (Hgb : block_of (Hash b) = Some b) (Hp : stored bl (ParentHash b) = Some p) (Hn : NumberU64 b = NumberU64 p + 1).
Context (Htd : rb_totalDifficulty b = rb_totalDifficulty p + rb_difficulty b).
Abbreviation bl' := (<[Hash b := inr b]> bl).

Lemma stored_new : stored bl' (Hash b) = Some b.
Proof. unfold stored. by rewrite lookup_insert_eq. Qed.
Lemma stored_mono h x : stored bl h = Some x → stored bl' h = Some x.
Proof.
  intros E. destruct (decide (h = Hash b)) as [->|Hne]; [|unfold stored; by rewrite lookup_insert_ne].
  destruct (stored_genuine _ Hb _ _ E) as (E' & _). rewrite stored_new. congruence.
Qed.
Lemma stored_inv h x : stored bl' h = Some x → h = Hash b ∧ x = b ∨ stored bl h = Some x.
Proof.
  clear Hp Hn Htd Hgb Hb. unfold stored. destruct (decide (h = Hash b)) as [->|Hne]; [rewrite lookup_insert_eq; intros [= ->]; by left|].
  rewrite lookup_insert_ne by done. by right.
Qed.
Lemma blocks_ok_new : blocks_ok bl'.
Proof.
  constructor.
  - intros h x. destruct (decide (h = Hash b)) as [->|Hne]; [rewrite lookup_insert_eq; intros [= <-]; eauto|].
    rewrite lookup_insert_ne by done. apply Hb.
  - apply stored_mono, Hb.
  - intros h x E. apply stored_inv in E as [[-> ->]|E].
    + right. exists p. split_and!; [by apply stored_mono|done|done].
    + destruct (b_parent _ Hb _ _ E) as [|(q & Eq & ?)]; [by left|right]. exists q. split; [by apply stored_mono|done].
Qed.
Lemma below_stored k x : is_Some (up (stored bl) k x) → below (stored bl') (S k) x = below (stored bl) (S k) x.
Proof.
  revert x. induction k as [|k IH]; intros x Hx; [by rewrite !below_one|]. cbn [up] in Hx.
  destruct (stored bl (ParentHash x)) as [q|] eqn:Eq; [|by destruct Hx]. rewrite (below_parent _ _ _ _ Eq), (below_parent _ _ _ _ (stored_mono _ _ Eq)).
  f_equal. by apply IH.
Qed.
Lemma confirmed_stored s h x : stored bl h = Some x → confirmed bl' s x = confirmed bl s x.
Proof. intros E. unfold confirmed. rewrite below_stored; [done|]. rewrite (stored_up _ Hb _ _ E). eauto. Qed.
Lemma on_chain_mono x r : on_chain_of bl x r → on_chain_of bl' x r.
Proof. intros [? Hu]. split; [done|]. exact (up_mono _ _ stored_mono _ _ _ Hu). Qed.
Lemma confirmed_at_stored lt h x : stored bl h = Some x → confirmed_at bl lt x → confirmed_at bl' lt x.
Proof.
  intros E [H1 H2 H3]. constructor; intros s; rewrite (confirmed_stored s h x E); [auto|auto|].
  intros hd Hhd. destruct (H3 s hd Hhd) as (r & Er & Hr). exists r. split; [by apply stored_mono|by apply on_chain_mono].
Qed.
(** The new block itself. *)
Lemma confirmed_at_new lt :
  confirmed_at bl lt p →
  (∀ s, follows_from (last (confirmed bl s p)) (own s b)) →
  (∀ s, latest_at lt (Hash b) s = last_or (last (confirmed bl s p)) (own s b)) →
  (∀ h, h ∈ MinorBlockHeaders b → ∃ r, stored bl' (PrevRootBlockHash h) = Some r ∧ on_chain_of bl' b r) →
  confirmed_at bl' lt b.
Proof.
  intros [H1 H2 H3] Hf Hl Hr. pose proof blocks_ok_new as Hb'. pose proof (stored_mono _ _ Hp) as Hp'.
  assert (∀ s, confirmed bl' s b = confirmed bl s p ++ own s b) as E.
  { intros s. rewrite (confirmed_parent _ Hb' s b p Hp' Hn). by rewrite (confirmed_stored s _ _ Hp). }
  constructor; intros s; rewrite E.
  - apply follows_from_app. split; [done|]. by rewrite last_or_None.
  - rewrite Hl, <- !last_or_None. by rewrite last_or_app.
  - intros h Hh. apply elem_of_app in Hh as [Hh|Hh].
    + destruct (H3 s h Hh) as (r & Er & [Hle Hu]). exists r. split; [by apply stored_mono|]. split; [lia|].
      replace (Z.to_nat (NumberU64 b - NumberU64 r)) with (S (Z.to_nat (NumberU64 p - NumberU64 r))) by lia.
      rewrite (up_parent _ _ _ _ Hp'). exact (up_mono _ _ stored_mono _ _ _ Hu).
    + apply Hr. unfold own in Hh. by apply list_elem_of_filter in Hh as [_ Hh].
Qed.

(** The index of a head whose parent was the head. *)
Lemma canonical_child canon c :
  stored bl (Hash c) = Some c → ParentHash b = Hash c → canonical_upto (stored bl) canon c →
  canonical_upto (stored bl') (<[NumberU64 b := Hash b]> canon) b.
Proof.
  intros Hc E Hcan n Hrange. rewrite E, Hc in Hp. injection Hp as <-. assert (stored bl' (ParentHash b) = Some c) as Hc' by (rewrite E; by apply stored_mono).
  destruct (decide (n = NumberU64 b)) as [->|Hne]; [rewrite lookup_insert_eq, Z.sub_diag; done|]. rewrite lookup_insert_ne by done.
  replace (Z.to_nat (NumberU64 b - n)) with (S (Z.to_nat (NumberU64 c - n))) by lia. rewrite (up_parent _ _ _ _ Hc').
  rewrite <- (canonical_mono _ _ stored_mono canon c (stored_tree_ok _ Hb) (stored_rooted_at _ Hb _ _ Hc) Hcan) by lia. done.
Qed.
End extend.

(** ** The effect of the operations on the core *)

Definition at_top (b : RootBlock) (k : RCore) : RCore :=
  mkRCore (x_blocks k) (<[NumberU64 b := Hash b]> (x_canon k)) (Hash b) (x_latest k) (Some b).

Lemma foldl_core {A} (f : Db → A → Db) (P : Db → Prop) (l : list A) d : (∀ d x, P d → P (f d x)) → P d → P (foldl f d l).
Proof. intros Hf. revert d. induction l as [|x l IH]; intros d Hd; [done|]. cbn. by apply IH, Hf. Qed.

(** The database as far as the core is concerned. *)
Definition rdb_core (d : Db) := (d_blocks d, d_rootCanonical d, d_headBlock d, d_latestMHeaders d).

Lemma rc_insert_core b m : ∃ m', rc_insert b m = (Ok tt, m') ∧ rcore m' = at_top b (rcore m).
Proof.
  unfold rc_insert, PutRootBlockIndex, rc_on_db. se_red.
  destruct (countMinorBlocks _) eqn:Ec; cbn [negb]; se_red; eexists; (split; [reflexivity|]); [|reflexivity].
  set (m1 := rc_set_db _ m). set (cnt := foldl count_header _ _).
  assert (∀ d, rdb_core (foldl (fun d h => db_PutRootBlockConfirmingMinorBlock (mh_hash h, GetFullShardID (mh_branch h)) (Hash b) d) d (MinorBlockHeaders b)) = rdb_core d) as E1.
  { intros d. apply (foldl_core _ (fun d' => rdb_core d' = rdb_core d)); [|done]. intros d' x <-. done. }
  assert (∀ d, rdb_core (foldl (fun d e => WriteMinorBlockCnt e.1 (NumberU64 b) e.2 d) d (map_to_list cnt)) = rdb_core d) as E2.
  { intros d. apply (foldl_core _ (fun d' => rdb_core d' = rdb_core d)); [|done]. intros d' x <-. done. }
  pose proof (E2 (foldl (fun d h => db_PutRootBlockConfirmingMinorBlock (mh_hash h, GetFullShardID (mh_branch h)) (Hash b) d) (rc_db m1) (MinorBlockHeaders b))) as E3.
  rewrite E1 in E3. unfold rdb_core in E3. injection E3 as X1 X2 X3 X4.
  unfold rcore, at_top. cbn. f_equal; [exact X1|exact X2|exact X4].
Qed.
Lemma rc_insert_new_core l m :
  ∃ m', rc_insert_new (rev l) m = (Ok tt, m') ∧
    rcore m' = mkRCore (x_blocks (rcore m)) (write_chain l (x_canon (rcore m)))
      (match l with [] => x_head (rcore m) | b :: _ => Hash b end) (x_latest (rcore m))
      (match l with [] => x_current (rcore m) | b :: _ => Some b end).
Proof.
  revert m. assert (∀ l' m, ∃ m', rc_insert_new l' m = (Ok tt, m') ∧
    rcore m' = foldl (fun k b => at_top b k) (rcore m) l') as Hl.
  { induction l' as [|b l' IH]; intros m; [by exists m|]. cbn [rc_insert_new foldl]. destruct (rc_insert_core b m) as (m1 & E1 & C1).
    se_red. rewrite E1. unfold rc_on_db. se_red. destruct (IH (rc_set_db (WriteBlockContentLookupEntriesWithCrossShardHashList (Hash b) (root_Content b) None (rc_db m1)) m1)) as (m2 & E2 & C2).
    exists m2. rewrite E2. split; [done|]. rewrite C2. f_equal. rewrite <- C1. reflexivity. }
  intros m. destruct (Hl (rev l) m) as (m' & E & C). exists m'. split; [done|]. rewrite C. clear.
  induction l as [|b l IH]; [by destruct (rcore m)|]. cbn [rev]. rewrite foldl_app. cbn [foldl]. rewrite IH. done.
Qed.

(** A block that the validation accepts. *)
Record acceptable (k : RCore) (b : RootBlock) : Prop := {
  y_genuine : block_of (Hash b) = Some b;
  y_parent : ∃ p, stored (x_blocks k) (ParentHash b) = Some p ∧ NumberU64 b = NumberU64 p + 1 ∧
    rb_totalDifficulty b = rb_totalDifficulty p + rb_difficulty b ∧
    (∀ s, follows_from (last (confirmed (x_blocks k) s p)) (own s b)) ∧
    (∀ s, latest_at (x_latest k) (Hash b) s = last_or (last (confirmed (x_blocks k) s p)) (own s b));
  y_prev h : h ∈ MinorBlockHeaders b → ∃ r, stored (<[Hash b := inr b]> (x_blocks k)) (PrevRootBlockHash h) = Some r ∧
    on_chain_of (<[Hash b := inr b]> (x_blocks k)) b r;
}.

Lemma rc_reorg_core c b m :
  let bl := x_blocks (rcore m) in
  blocks_ok bl → stored bl (Hash c) = Some c → stored bl (Hash b) = Some b → canonical_upto (stored bl) (x_canon (rcore m)) c →
  ∃ m', rc_reorg fuel c b m = (Ok tt, m') ∧ x_blocks (rcore m') = bl ∧ x_latest (rcore m') = x_latest (rcore m) ∧
    canonical_upto (stored bl) (x_canon (rcore m')) b ∧
    (∀ n, NumberU64 b < n → x_canon (rcore m') !! n = x_canon (rcore m) !! n).
Proof.
  intros bl Hb Hc Hs Hcan. pose proof (stored_tree_ok _ Hb) as Ht. pose proof (stored_rooted_at _ Hb _ _ Hc) as Hrc.
  pose proof (stored_rooted_at _ Hb _ _ Hs) as Hrb.
  pose proof (stored_genuine _ Hb _ _ Hc) as (Hgc & _). pose proof (stored_genuine _ Hb _ _ Hs) as (Hgb & _).
  destruct (fork_point_spec (stored bl) Ht false fuel c b (or_intror (stored_one_root _ Hb)) Hrc Hrb) as (i & j & x & Hf & Hp & _);
    [apply (o_block Ho _ _ Hgc)|apply (o_block Ho _ _ Hgb)|].
  unfold rc_reorg. change (fun h => rc_GetBlock h m) with (stored bl). se_red.
  change (fork_point (λ h : Z, rc_GetBlock h m)) with (fork_point (stored bl)). rewrite Hf. se_red.
  destruct (rc_insert_new_core (below (stored bl) j b) m) as (m1 & E1 & C1). rewrite E1. unfold rc_on_db. se_red.
  eexists. split; [reflexivity|]. set (hs := MinorHeaderDifference _ _).
  assert (∀ d, rdb_core (foldl (fun d h => DeleteBlockContentLookupEntry (mh_hash h) d) d hs) = rdb_core d) as E2.
  { intros d. apply (foldl_core _ (fun d' => rdb_core d' = rdb_core d)); [|done]. intros d' y <-. done. }
  pose proof (E2 (rc_db m1)) as E3. unfold rdb_core in E3. injection E3 as X1 X2 X3 X4.
  assert (x_blocks (rcore m1) = bl ∧ x_latest (rcore m1) = x_latest (rcore m) ∧ x_canon (rcore m1) = write_chain (below (stored bl) j b) (x_canon (rcore m)))
    as (B1 & B2 & B3) by (by rewrite C1).
  split_and!; [rewrite <- B1; exact X1|rewrite <- B2; exact X4| |].
  all: match goal with |- context [x_canon ?k] => assert (x_canon k = x_canon (rcore m1)) as -> by exact X2 end; rewrite B3.
  - exact (write_canonical _ Ht _ c b i j Hrc Hrb Hp Hcan).
  - intros n Hn. destruct (parted_bounds _ Ht _ _ _ _ Hrc Hrb Hp) as (_ & Hj & _).
    rewrite (write_below _ Ht) by done. by rewrite decide_False by lia.
Qed.

Lemma at_top_good k b c :
  blocks_ok (x_blocks k) → stored (x_blocks k) (Hash b) = Some b → canonical_upto (stored (x_blocks k)) (x_canon k) b →
  (∀ h x, stored (x_blocks k) h = Some x → x = b ∨ rb_totalDifficulty x <= rb_totalDifficulty c) →
  rb_totalDifficulty c <= rb_totalDifficulty b → top_ok (at_top b k) b.
Proof.
  intros Hb Hs Hcan Hall Hle. constructor; [done|done|done| |].
  - intros n Hn. cbn [at_top x_canon x_blocks]. destruct (decide (n = NumberU64 b)) as [->|Hne]; [|rewrite lookup_insert_ne by done; by apply Hcan].
    by rewrite lookup_insert_eq, Z.sub_diag.
  - intros h x Hx. destruct (Hall h x Hx) as [->|]; lia.
Qed.

Lemma rc_on_db_core f m : rdb_core (f (rc_db m)) = rdb_core (rc_db m) → rcore (rc_set_db (f (rc_db m)) m) = rcore m.
Proof. unfold rdb_core, rcore. cbn. intros [= -> -> -> ->]. done. Qed.

(** Writing a block: it becomes the head exactly if it is heavier. *)
Lemma rc_WriteBlock_good b m c :
  rgood (rcore m) → acceptable (rcore m) b → rc_currentBlock m = Some c →
  ∃ st m', rc_WriteBlockWithState fuel b m = (Ok st, m') ∧ rgood (rcore m') ∧
    stored (x_blocks (rcore m')) (Hash b) = Some b ∧
    (st = if heavier b c then RootCanonStatTy else RootSideStatTy) ∧
    rc_currentBlock m' = Some (if heavier b c then b else c) ∧
    x_blocks (rcore m') = <[Hash b := inr b]> (x_blocks (rcore m)) ∧
    (∀ n, NumberU64 b < n → x_canon (rcore m') !! n = x_canon (rcore m) !! n).
Proof.
  intros [Hb [c' Hc] Hconf] [Hgb (p & Hp & Hn & Htd & Hf & Hl) Hprev] Ec.
  assert (c' = c) as -> by (pose proof (t_current _ _ Hc) as E; cbn in E; congruence).
  set (bl' := <[Hash b := inr b]> (x_blocks (rcore m))). set (m1 := rc_set_db (WriteRootBlock b (rc_db m)) m).
  assert (rcore m1 = mkRCore bl' (x_canon (rcore m)) (x_head (rcore m)) (x_latest (rcore m)) (x_current (rcore m))) as C1 by reflexivity.
  pose proof (blocks_ok_new _ Hb b p Hgb Hp Hn Htd) as Hb'. pose proof (stored_mono _ Hb b Hgb) as Hmono.
  pose proof (stored_new (x_blocks (rcore m)) b) as Hnew.
  assert (∀ h x, stored bl' h = Some x → confirmed_at bl' (x_latest (rcore m)) x) as Hconf'.
  { intros h x Hx. apply stored_inv in Hx as [[-> ->]|Hx].
    - eapply confirmed_at_new; eauto.
    - eapply confirmed_at_stored; eauto. }
  assert (∀ h x, stored bl' h = Some x → x = b ∨ rb_totalDifficulty x <= rb_totalDifficulty c) as Hheavy.
  { intros h x Hx. apply stored_inv in Hx as [[-> ->]|Hx]; [by left|right]. by eapply t_heaviest. }
  pose proof (canonical_mono _ _ Hmono (x_canon (rcore m)) c (stored_tree_ok _ Hb) (stored_rooted_at _ Hb _ _ (t_stored _ _ Hc)) (t_canon _ _ Hc)) as Hcan'.
  unfold rc_WriteBlockWithState, rc_CurrentBlock, rc_on_db. se_red. rewrite Ec. se_red. fold m1.
  destruct (heavier b c) eqn:Eh.
  - assert (rb_totalDifficulty c <= rb_totalDifficulty b) as Hle.
    { unfold heavier in Eh. apply orb_true_iff in Eh as [Eh|Eh]; [apply bool_decide_eq_true in Eh; lia|].
      apply andb_true_iff in Eh as [Eh _]. apply bool_decide_eq_true in Eh. lia. }
    assert (∃ m2, rc_switch fuel c b m1 = (Ok tt, m2) ∧
      x_blocks (rcore m2) = bl' ∧ x_latest (rcore m2) = x_latest (rcore m) ∧
      canonical_upto (stored bl') (<[NumberU64 b := Hash b]> (x_canon (rcore m2))) b ∧
      (∀ n, NumberU64 b < n → x_canon (rcore m2) !! n = x_canon (rcore m) !! n)) as (m2 & E2 & B2 & L2 & Hcan2 & Habove).
    { unfold rc_switch. case_bool_decide as Epar.
      - exists m1. split_and!; [done|done|done| |done]. eapply canonical_child; eauto. apply Hc. apply Hc.
      - destruct (rc_reorg_core c b m1) as (m2 & E2 & B2 & L2 & Hcan2 & Habove); [exact Hb'|apply Hmono, Hc|exact Hnew|exact Hcan'|].
        exists m2. split_and!; [done|exact B2|exact L2| |exact Habove]. intros n Hrange.
        destruct (decide (n = NumberU64 b)) as [->|Hne]; [by rewrite lookup_insert_eq, Z.sub_diag|]. rewrite lookup_insert_ne by done. by apply Hcan2. }
    rewrite E2. se_red. set (m3 := rc_set_db _ m2). assert (rcore m3 = rcore m2) as C3 by (by apply rc_on_db_core).
    destruct (rc_insert_core b m3) as (m4 & E4 & C4). rewrite E4. se_red.
    eexists _, _. split; [reflexivity|]. assert (∀ f, rcore (rc_set_future f m4) = at_top b (rcore m2)) as C5 by (intros f; rewrite <- C3, <- C4; reflexivity).
    rewrite C5. split_and!; [|change (x_blocks (at_top b (rcore m2))) with (x_blocks (rcore m2)); rewrite B2; exact Hnew|done| |exact B2|].
    + constructor; cbn [at_top x_blocks x_latest]; rewrite ?B2, ?L2; [done| |done]. exists b.
      constructor; cbn [at_top x_blocks x_current x_head x_canon]; rewrite ?B2; try done.
      intros h x Hx. destruct (Hheavy h x Hx) as [->|]; lia.
    + change (x_current (rcore (rc_set_future (lru_remove (rc_futureBlocks m4) (Hash b)) m4)) = Some b). by rewrite C5.
    + intros n Hn'. cbn [at_top x_canon]. rewrite lookup_insert_ne by lia. by apply Habove.
  - se_red. eexists _, _. split; [reflexivity|]. split_and!; [|exact Hnew|done|exact Ec|reflexivity|done].
    change (rcore (rc_set_future (lru_remove (rc_futureBlocks m1) (Hash b)) m1)) with (rcore m1). rewrite C1.
    constructor; cbn [x_blocks x_latest]; [done| |done]. exists c. constructor; cbn [x_blocks x_current x_head x_canon]; [apply Hc|apply Hmono, Hc|apply Hc|done|].
    intros h x Hx. destruct (Hheavy h x Hx) as [->|]; [|done]. unfold heavier in Eh. apply orb_false_iff in Eh as [Eh _].
    apply bool_decide_eq_false in Eh. lia.
Qed.

(** ** What the validation ensures *)

Lemma latest_map_key l s h : latest_map l !! s = Some h → shard_of h = s.
Proof.
  unfold latest_map. assert (∀ l m, (∀ s h, m !! s = Some h → shard_of h = s) →
    ∀ s h, foldl (fun (hs : gmap Z MinorBlockHeader) h => <[shard_of h := h]> hs) m l !! s = Some h → shard_of h = s) as Hx.
  { clear. induction l as [|x l IH]; intros m Hm s h; [apply Hm|]. cbn [foldl]. apply IH. intros s' h' Hs.
    apply lookup_insert_Some in Hs as [[<- <-]|[_ Hs]]; [done|by apply Hm]. }
  apply Hx. intros ?? Hs. by rewrite lookup_empty in Hs.
Qed.
Lemma own_shard s b h : last (own s b) = Some h → shard_of h = s.
Proof.
  intros Hl. apply last_Some_elem_of in Hl. unfold own in Hl. by apply list_elem_of_filter in Hl as [? _].
Qed.

Lemma check_header_ok force m b :
  rgood (rcore m) → block_of (Hash b) = Some b → rc_check_header force m b = Ok tt →
  ∃ p, stored (x_blocks (rcore m)) (ParentHash b) = Some p ∧ NumberU64 b = NumberU64 p + 1 ∧
    rb_totalDifficulty b = rb_totalDifficulty p + rb_difficulty b.
Proof.
  intros Hgd Hgb. unfold rc_check_header. case_bool_decide as H1; [done|]. destruct (_ && _); [done|].
  destruct (rc_VerifyHeader m b) as [u|e|e] eqn:Ev; [|done|done]. cbn [mbind result_bind].
  destruct (rc_GetBlock (ParentHash b) m) as [p|] eqn:Ep; [|done].
  destruct (GetDifficulty b + rb_totalDifficulty p =? rb_totalDifficulty b) eqn:Et; [|done]. intros _. apply Z.eqb_eq in Et. cbn [GetDifficulty root_header] in Et.
  exists p. split_and!; [done| |lia]. unfold rc_VerifyHeader, engine_VerifyHeader in Ev. destruct (negb (GetVersion b =? 0)); [done|].
  cbn [rc_reader cr_GetBlock] in Ev. rewrite Ep in Ev. destruct (NumberU64 p =? u64 (NumberU64 b - 1)) eqn:En; [|done].
  apply Z.eqb_eq in En. destruct (o_block Ho _ _ Hgb) as (_ & Hn & _). rewrite u64_id in En by (unfold in_u64; lia). lia.
Qed.

Lemma same_chain_ok bl b p r :
  blocks_ok bl → block_of (Hash b) = Some b → stored bl (ParentHash b) = Some p → NumberU64 b = NumberU64 p + 1 →
  stored bl (Hash r) = Some r → isSameChain (parent_hash (stored bl)) b r = Ok true →
  on_chain_of (<[Hash b := inr b]> bl) b r.
Proof.
  intros Hb Hgb Hp Hn Hr E. destruct (o_block Ho _ _ Hgb) as (_ & Hnb & _). pose proof (stored_genuine _ Hb _ _ Hr) as (Hgr & _ & Hnr).
  pose proof (stored_tree_ok _ Hb) as Ht.
  destruct (decide (NumberU64 b < NumberU64 r)) as [Hlt|Hle]; [unfold isSameChain in E; by rewrite bool_decide_true in E|].
  destruct (decide (NumberU64 r = NumberU64 b)) as [Heq|Hne].
  - unfold isSameChain in E. rewrite bool_decide_false, bool_decide_true in E by done. injection E as E. apply bool_decide_eq_true in E.
    change (Hash r = Hash b) in E. rewrite E, Hgb in Hgr. injection Hgr as <-. split; [lia|]. by rewrite Z.sub_diag.
  - destruct (rooted_at _ Ht p (NumberU64 r) (stored_rooted_at _ Hb _ _ Hp)) as (c & Hc & _ & Hrc); [lia|].
    assert (up (stored bl) (Z.to_nat (NumberU64 b - NumberU64 r)) b = Some c) as Hu.
    { replace (Z.to_nat (NumberU64 b - NumberU64 r)) with (S (Z.to_nat (NumberU64 p - NumberU64 r))) by lia. by rewrite (up_parent _ _ _ _ Hp). }
    rewrite (isSameChain_up _ Ht b r c) in E; [|lia|lia|done]. injection E as E. apply bool_decide_eq_true in E.
    assert (c = r) as -> by (apply (stored_inj (stored bl) c r); [apply Hrc|done|done]).
    split; [lia|]. exact (up_mono _ _ (stored_mono _ Hb b Hgb) _ _ _ Hu).
Qed.

(** ** No block is on a pruned parent *)

Definition no_pruned {A} (r : result A) : Prop := r ≠ Err "pruned ancestor".
Lemma no_pruned_bind {A B} (r : result A) (k : A → result B) : no_pruned r → (∀ a, no_pruned (k a)) → no_pruned (r ≫= k).
Proof. intros Hr Hk. destruct r as [a|e|e]; [apply Hk|intros [= ->]; by apply Hr|done]. Qed.
Ltac no_pruned_step :=
  lazymatch goal with
  | |- no_pruned (_ ≫= _) => apply no_pruned_bind; [|intros ?]
  | |- no_pruned (match ?x with _ => _ end) => destruct x eqn:?
  | |- no_pruned (let '_ := ?x in _) => destruct x eqn:?
  | |- no_pruned _ => first [assumption | discriminate | by auto]
  end.
Ltac no_pruned := repeat no_pruned_step.

(** The check of a seal has its own errors. *)
Context (Hseal : ∀ b d, spec_VerifySeal r_spec b d ≠ Err "pruned ancestor").

Lemma deref_no_pruned {A} (o : option A) : no_pruned (deref o).
Proof. by destruct o. Qed.
Lemma scan_no_pruned b (m : Chain) hs s : no_pruned (scan_headers b m hs s).
Proof.
  revert s. induction hs as [|h hs IH]; intros s; cbn [scan_headers]; [done|]. apply no_pruned_bind; [|by intros; apply IH].
  unfold scan_header. cbv zeta. pose proof @deref_no_pruned. no_pruned.
Qed.
Lemma prev_no_pruned b (m : Chain) keys : no_pruned (check_prev_roots b m keys).
Proof.
  induction keys as [|k keys IH]; cbn [check_prev_roots]; [done|]. destruct (rc_GetBlock k m); [|done].
  apply no_pruned_bind; [|by intros []]. unfold rc_isSameChain, isSameChain. no_pruned.
  generalize (Z.to_nat (u64 (u64 (NumberU64 b - NumberU64 r) - 1))), (ParentHash b). intros n. induction n as [|n IHn]; intros h; cbn [climb]; [done|].
  destruct (bool_decide (_ = 0)); [discriminate|apply IHn].
Qed.
Lemma shards_no_pruned n l latest : no_pruned (check_shards n latest l).
Proof.
  revert latest. induction l as [|e l IH]; intros latest; cbn [check_shards]; [done|]. apply no_pruned_bind; [|by intros; apply IH].
  unfold check_shard. pose proof @deref_no_pruned. destruct e as [id hs]. unfold MaxBlocksPerShardInOneRootBlock, div32. no_pruned.
Qed.
Lemma coinbase_no_pruned b (m : Chain) : no_pruned (CalculateRootBlockCoinBase b m).
Proof.
  unfold CalculateRootBlockCoinBase. destruct (existsb _ _); [done|]. apply no_pruned_bind.
  - generalize (map_to_list (GetBalanceMap (foldl (λ (t : TokenBalances) (h : Z), Add (default ∅ (GetMinorBlockCoinbaseToken h (rc_db m))) t)
      NewEmptyTokenBalances (mh_hash <$> MinorBlockHeaders b)))). intros l. generalize (foldl (λ (t : TokenBalances) (h : Z), Add (default ∅ (GetMinorBlockCoinbaseToken h (rc_db m))) t)
      NewEmptyTokenBalances (mh_hash <$> MinorBlockHeaders b)). induction l as [|[k v] l IH]; intros t; cbn [set_values]; [done|].
    apply no_pruned_bind; [|by intros; apply IH]. unfold SetValue. no_pruned.
  - intros t. unfold rc_getCoinbaseAmount, big_Div, SetValue. no_pruned.
Qed.
Lemma adjusted_no_pruned b (m : Chain) : no_pruned (rc_GetAdjustedDifficulty m b).
Proof. unfold rc_GetAdjustedDifficulty, with_divider, GetDiffDivider. no_pruned. Qed.
Definition never_pruned {St A} (m : SE St A) : Prop := ∀ s, no_pruned (m s).1.
Lemma never_bind {St A B} (m : SE St A) (k : A → SE St B) : never_pruned m → (∀ a, never_pruned (k a)) → never_pruned (m ≫= k).
Proof. intros Hm Hk s. specialize (Hm s). se_red. destruct (m s) as [[a|e|e] s']; [apply Hk|intros [= ->]; by apply Hm|done]. Qed.
Lemma never_lift {St A} (r : result A) : no_pruned r → never_pruned (se_lift r : SE St A).
Proof. by intros Hr s. Qed.
Lemma header_no_pruned (m : Chain) b : no_pruned (rc_VerifyHeader m b).
Proof.
  unfold rc_VerifyHeader, engine_VerifyHeader. revert m. assert (∀ (m : Chain), never_pruned (engine_VerifyHeader r_spec r_diffCalc (rc_reader m) b (C := fifo Z))) as Hn; [|intros m; apply Hn].
  intros m. unfold engine_VerifyHeader. destruct (negb _); [by intros s|]. destruct (cr_GetBlock _ _) as [p|]; [|by intros s].
  destruct (negb _); [by intros s|]. case_bool_decide; [by intros s|]. case_bool_decide; [by intros s|].
  apply never_bind.
  - destruct (cr_SkipDifficultyCheck _); [by intros s|]. apply never_bind.
    + apply never_lift. unfold engine_CalcDifficulty, CalculateDifficulty. no_pruned.
    + intros d. destruct (negb _); by intros s.
  - intros _. apply never_bind; [apply never_lift, adjusted_no_pruned|]. intros d. apply never_bind; [apply never_lift; unfold big_Div; no_pruned|].
    intros d' s. unfold engine_VerifySeal. case_bool_decide; [done|]. specialize (Hseal b (Some d')). by destruct (spec_VerifySeal r_spec b (Some d')).
Qed.
Lemma check_header_no_pruned force (m : Chain) b : no_pruned (rc_check_header force m b).
Proof.
  unfold rc_check_header. pose proof (header_no_pruned m b). pose proof (coinbase_no_pruned b m). no_pruned.
Qed.
Lemma check_minors_no_pruned (m : Chain) b : no_pruned (rc_check_minors m b).
Proof. unfold rc_check_minors. eauto using no_pruned_bind, scan_no_pruned, prev_no_pruned, shards_no_pruned. Qed.

(** What validation tells of a block. *)
Definition chosen (b : RootBlock) (err : option string) (m : Chain) : Prop :=
  (err = None → acceptable (rcore m) b) ∧ err ≠ Some "pruned ancestor"%string.
Lemma validate_accept force b m :
  rgood (rcore m) → block_of (Hash b) = Some b →
  wp (rc_validate force b) (fun err m' => rgood (rcore m') ∧ chosen b err m') (fun _ _ => False) m.
Proof.
  intros Hgd Hgb. unfold rc_validate, rc_ValidateBlock.
  assert (∀ A (r : result A) e, no_pruned r → r = Err e → rgood (rcore m) ∧ chosen b (Some e) m) as Herr.
  { intros A r e Hr ->. split; [done|]. split; [done|]. intros [= ->]. by apply Hr. }
  apply wp_bind, wp_try, wp_bind, wp_get, wp_bind, wp_lift; [|by intros e He; apply wp_ret; eapply Herr; [apply check_header_no_pruned|exact He]].
  intros [] Eh. apply wp_bind, wp_lift; [|by intros e He; apply wp_ret; eapply Herr; [apply check_minors_no_pruned|exact He]]. intros latest El.
  destruct (check_header_ok _ _ _ Hgd Hgb Eh) as (p & Hp & Hn & Htd). destruct (check_minors_ok m b latest El) as [Hsh Hpr].
  pose proof Hgd as [Hb [c Hc] Hconf]. pose proof (Hconf _ _ Hp) as Hcp. pose proof (stored_genuine _ Hb _ _ Hp) as (_ & Hhp & _).
  assert (∀ s, GetLatestMinorBlockHeaders (ParentHash b) m !! s = last (confirmed (x_blocks (rcore m)) s p)) as Hlast.
  { intros s. rewrite <- Hhp, <- (f_latest _ _ _ Hcp). reflexivity. }
  set (lt' := <[Hash b := (map_to_list latest).*2]> (x_latest (rcore m))).
  assert (∀ s, latest_at lt' (Hash b) s = last_or (last (confirmed (x_blocks (rcore m)) s p)) (own s b)) as Hnew.
  { intros s. unfold latest_at, lt'. rewrite lookup_insert_eq. cbn [default from_option id]. rewrite latest_map_roundtrip.
    - destruct (Hsh s) as [_ ->]. by rewrite Hlast.
    - intros s' h Hs'. destruct (Hsh s') as [_ E]. rewrite E in Hs'. unfold last_or in Hs'. fold (own s' b) in Hs'.
      destruct (last (own s' b)) as [h'|] eqn:Eo; [injection Hs' as <-; by eapply own_shard|]. by apply (latest_map_key _ _ _ Hs'). }
  unfold SetLatestMinorBlockHeaders, rc_on_db. apply wp_mod, wp_ret.
  set (m' := rc_set_db _ m). assert (rcore m' = mkRCore (x_blocks (rcore m)) (x_canon (rcore m)) (x_head (rcore m)) lt' (x_current (rcore m))) as -> by reflexivity.
  split.
  - constructor; cbn [x_blocks x_latest]; [done|exists c; constructor; apply Hc|]. intros h x Hx. pose proof (Hconf _ _ Hx) as [F1 F2 F3].
    constructor; [done| |done]. intros s. destruct (decide (Hash x = Hash b)) as [E|Hne].
    + assert (x = b) as -> by (destruct (stored_genuine _ Hb _ _ Hx) as (Hgx & Ehx & _); congruence).
      rewrite Hnew, (confirmed_parent _ Hb s b p Hp Hn). rewrite <- !last_or_None. by rewrite last_or_app.
    + unfold latest_at, lt'. rewrite lookup_insert_ne by done. apply F2.
  - split; [|done]. intros _. constructor; cbn [x_blocks x_latest]; [done| |].
    + exists p. split_and!; [done|done|done| |done]. intros s. rewrite <- Hlast. apply (Hsh s).
    + intros h Hh. destruct (Hpr h Hh) as (r & Er & Es). pose proof (stored_genuine _ Hb _ _ Er) as (_ & Hhr & _).
      exists r. split; [by apply (stored_mono _ Hb b Hgb)|]. apply (same_chain_ok _ b p r Hb Hgb Hp Hn); [by rewrite Hhr|exact Es].
Qed.

(** ** The import *)

Definition known (b : RootBlock) : Prop := block_of (Hash b) = Some b.
Abbreviation rc_good := (fun m : Chain => rgood (rcore m)).

Lemma rc_future_keeps b : keeps rc_good (rc_addFutureBlock b).
Proof. intros m Hm. unfold rc_addFutureBlock. case_bool_decide; done. Qed.

Lemma rc_import_block_good b m :
  rgood (rcore m) → acceptable (rcore m) b → wp (rc_import_block fuel b) (fun _ m' => rgood (rcore m')) (fun _ _ => False) m.
Proof.
  intros Hgd Ha. unfold rc_import_block. apply wp_try, wp_bind, wp_get, wp_bind, wp_lift; [|by unfold rc_CurrentBlock; intros e; destruct (rc_currentBlock m)].
  intros c Hc. destruct (_ && _); [by apply wp_err|].
  assert (rc_currentBlock m = Some c) as Ec by (unfold rc_CurrentBlock in Hc; destruct (rc_currentBlock m); [by injection Hc as ->|done]).
  destruct (rc_WriteBlock_good b m c Hgd Ha Ec) as (st & m' & E & Hm' & _). unfold wp. by rewrite E.
Qed.
Lemma rc_import_loop_good force rest before b events lc m :
  rgood (rcore m) → Forall known (b :: rest) → acceptable (rcore m) b →
  wp (rc_import_loop fuel force rest before b events lc)
    (fun r m' => rgood (rcore m') ∧ match r with inl _ => True | inr (it, _, _, _) => Forall known (it_rest it) end) (fun _ _ => False) m.
Proof.
  revert before b events lc m. induction rest as [|b' rest IH]; intros before b events lc m Hgd HF Ha; cbn [rc_import_loop];
    apply Forall_cons in HF as [Hb HF]; apply wp_bind, wp_get.
  all: destruct (rc_procInterrupt m); [by apply wp_ret|].
  all: apply wp_bind; eapply wp_conseq; [by apply rc_import_block_good| |done]; intros [st|e] m' Hm'; [|by apply wp_ret].
  - by apply wp_ret.
  - apply Forall_cons in HF as [Hb' HF]. apply wp_bind. eapply wp_conseq; [by apply validate_accept| |done]. intros err m2 [Hm2 Hacc].
    destruct err as [e|]; [by apply wp_ret|]. apply IH; [done|by constructor|by apply Hacc].
Qed.
Lemma rc_import_from_good force it err m :
  at_position rc_good known chosen (it, err) m → wp (rc_import_from fuel force it err) (fun _ m' => rgood (rcore m')) (fun _ _ => False) m.
Proof.
  intros (Hgd & HF & Hcur). cbn [fst snd] in *. unfold rc_import_from. apply wp_bind.
  eapply (wp_conseq _ (fun r m' => rgood (rcore m') ∧ match r with inl _ => True | inr (it, _, _, _) => Forall known (it_rest it) end) _ (fun _ _ => False)); [| |done].
  { destruct (it_current it) as [b|] eqn:Ec; [destruct (Hcur b eq_refl) as [Hb Ha]; destruct err as [e|]|]; [by apply wp_ret| |by apply wp_ret].
    destruct Ha as [[=]|Ha]. apply rc_import_loop_good; [done|by constructor|by apply Ha]. }
  intros [i|[[[it' err'] events] lc]] m' [Hm' HF']; [by apply wp_ret|].
  apply wp_bind. eapply wp_conseq; [apply (queue_future_spec (rc_validate force) rc_addFutureBlock rc_good known chosen);
    eauto using validate_accept, rc_future_keeps| |done].
  intros [[it2 err2]|[it2 err2]] m2 Hm2; [by apply wp_ret|]. destruct lc; [|by apply wp_ret].
  apply wp_bind, wp_get, wp_bind, wp_lift; [by intros; apply wp_ret|]. intros e. unfold rc_CurrentBlock. by destruct (rc_currentBlock m2).
Qed.
Lemma rc_insertChain_good chain m :
  rgood (rcore m) → Forall known chain → wp (rc_insertChain fuel chain) (fun _ m' => rgood (rcore m')) (fun _ _ => False) m.
Proof.
  intros Hgd HF. unfold rc_insertChain. apply wp_bind, wp_get. destruct (rc_procInterrupt m); [by apply wp_ret|].
  apply wp_bind. eapply wp_conseq; [apply (it_next_spec (rc_validate (isCheckDB m)) rc_good known chosen); eauto using validate_accept| |done].
  intros [it err] m1 Hpos; pose proof Hpos as (Hgd1 & HF' & Hcur); cbn [fst snd] in Hcur.
  destruct (it_current it) as [b|] eqn:Ec; [destruct (Hcur b eq_refl) as [Hb Ha]; destruct err as [e|]|]; [|apply rc_import_from_good; exact Hpos..].
  case_bool_decide as Epr; [subst e; by destruct Ha as [[=]|[_ Ha]]|].
  destruct (_ || _).
  { apply wp_bind; eapply wp_conseq; [apply (queue_loop_spec (rc_validate (isCheckDB m)) rc_addFutureBlock rc_good known chosen);
      eauto using validate_accept, rc_future_keeps|intros [it' err'] m' Hm'; by apply wp_ret|done]. }
  case_bool_decide; [|by apply wp_ret]. apply wp_bind, wp_get, wp_bind, wp_lift; [|by unfold rc_CurrentBlock; intros e'; destruct (rc_currentBlock m1)].
  intros c _. apply wp_bind. eapply wp_conseq; [apply (skip_known_spec (rc_validate (isCheckDB m)) rc_good known chosen); eauto using validate_accept| |done].
  intros [it' err'] m' Hm'; by apply rc_import_from_good.
Qed.
Lemma rc_InsertChain_good chain m :
  rgood (rcore m) → Forall known chain → wp (rc_InsertChain fuel chain) (fun _ m' => rgood (rcore m')) (fun _ _ => False) m.
Proof.
  intros Hgd HF. unfold rc_InsertChain. destruct chain as [|b0 chain]; [by apply wp_ret|].
  destruct (negb _); [by apply wp_ret|]. apply wp_bind. eapply wp_conseq; [by apply rc_insertChain_good|intros i m' Hm'; by apply wp_ret|done].
Qed.
(** What the index says of the heights up to the head. *)
Lemma top_by_number m c n :
  blocks_ok (x_blocks (rcore m)) → top_ok (rcore m) c → 0 <= n <= NumberU64 c →
  rc_GetBlockByNumber n m = up (fun h => rc_GetBlock h m) (Z.to_nat (NumberU64 c - n)) c ∧ is_Some (rc_GetBlockByNumber n m).
Proof.
  intros Hb Hc Hn. pose proof (stored_rooted_at _ Hb _ _ (t_stored _ _ Hc)) as Hr. pose proof (stored_tree_ok _ Hb) as Ht.
  destruct (rooted_at (stored (x_blocks (rcore m))) Ht c n Hr Hn) as (x & Hx & Hrx).
  assert (rc_GetBlockByNumber n m = Some x) as E.
  { unfold rc_GetBlockByNumber, ReadCanonicalHash. change (d_rootCanonical (rc_db m)) with (x_canon (rcore m)).
    rewrite (t_canon _ _ Hc n Hn), Hx. cbn [fmap option_fmap option_map default from_option id].
    pose proof (stored_hash_ne _ Ht x (r_stored _ _ (proj2 Hrx))) as Hne. rewrite (proj2 (Z.eqb_neq _ _) Hne). apply (r_stored _ _ (proj2 Hrx)). }
  change (fun h => rc_GetBlock h m) with (stored (x_blocks (rcore m))). rewrite E. split; [by rewrite Hx|eauto].
Qed.

(** ** The theorems *)

Lemma heavier_spec b c :
  heavier b c = bool_decide (rb_totalDifficulty c < rb_totalDifficulty b ∨
    rb_totalDifficulty b = rb_totalDifficulty c ∧ NumberU64 b < NumberU64 c).
Proof. clear Hseal. unfold heavier. repeat case_bool_decide; try done; lia. Qed.

(** C29: storing a validated root block always returns and is the fork choice: the
    block becomes the head exactly when its total difficulty is larger, or equal at
    a smaller height; then every height up to the head's has the head's ancestor
    in the index, whatever branch the head was on before, the head in the database
    is the one in memory, and no stored block has a larger total difficulty. *)
Theorem root_fork_choice b m c :
  rgood (rcore m) → acceptable (rcore m) b → rc_currentBlock m = Some c →
  ∃ st m', rc_WriteBlockWithState fuel b m = (Ok st, m') ∧
    let wins := bool_decide (rb_totalDifficulty c < rb_totalDifficulty b ∨
      rb_totalDifficulty b = rb_totalDifficulty c ∧ NumberU64 b < NumberU64 c) in
    let head := if wins then b else c in
    (st = if wins then RootCanonStatTy else RootSideStatTy) ∧
    rc_CurrentBlock m' = Ok head ∧ ReadHeadBlockHash (rc_db m') = Hash head ∧ rc_GetBlock (Hash b) m' = Some b ∧
    (∀ n, 0 <= n <= NumberU64 head →
       rc_GetBlockByNumber n m' = up (fun h => rc_GetBlock h m') (Z.to_nat (NumberU64 head - n)) head ∧ is_Some (rc_GetBlockByNumber n m')) ∧
    (∀ h x, rc_GetBlock h m' = Some x → rb_totalDifficulty x <= rb_totalDifficulty head).
Proof.
  clear Hseal. intros Hgd Ha Ec. destruct (rc_WriteBlock_good b m c Hgd Ha Ec) as (st & m' & E & [Hb [c' Hc] _] & Hst & -> & Ec' & _).
  exists (if heavier b c then RootCanonStatTy else RootSideStatTy), m'. split; [exact E|]. cbv zeta. rewrite <- heavier_spec.
  assert (c' = if heavier b c then b else c) as <- by (pose proof (t_current _ _ Hc) as E2; cbn in E2; congruence).
  split_and!; [done| |apply (t_hash_of _ _ Hc)|exact Hst| |apply (t_heaviest _ _ Hc)].
  - unfold rc_CurrentBlock. pose proof (t_current _ _ Hc) as E2. change (rc_currentBlock m' = Some c') in E2. by rewrite E2.
  - intros n Hn. by apply top_by_number.
Qed.

(** C32: the switch to a heavier root block leaves the index above it as it was.
    When a validated root block that is lower than the head outweighs it, storing
    it always returns and makes it the head, and every height above the new head
    up to the old one still has the ancestor of the old head in the index, so
    GetBlockByNumber answers with blocks that are not on the chain of the head. *)
Theorem root_index_stale b m c n :
  rgood (rcore m) → acceptable (rcore m) b → rc_currentBlock m = Some c →
  rb_totalDifficulty c <= rb_totalDifficulty b → NumberU64 b < n <= NumberU64 c →
  ∃ m' x, rc_WriteBlockWithState fuel b m = (Ok RootCanonStatTy, m') ∧
    rc_CurrentBlock m' = Ok b ∧
    rc_GetBlockByNumber n m' = Some x ∧ NumberU64 x = n ∧
    up (fun h => rc_GetBlock h m') (Z.to_nat (NumberU64 c - n)) c = Some x ∧
    (∀ k, up (fun h => rc_GetBlock h m') k b ≠ Some x).
Proof.
  clear Hseal. intros Hgd Ha Ec Htd Hn.
  destruct (rc_WriteBlock_good b m c Hgd Ha Ec) as (st & m' & E & Hgd' & Hst & -> & Ec' & Hbl & Hab).
  assert (heavier b c = true) as Hh by (rewrite heavier_spec; apply bool_decide_eq_true; lia). rewrite Hh in E, Ec'.
  destruct Hgd as [Hb [c' Hc] _]. assert (c' = c) as -> by (pose proof (t_current _ _ Hc) as E2; cbn in E2; congruence).
  pose proof (stored_rooted_at _ Hb _ _ (t_stored _ _ Hc)) as Hr. pose proof (stored_tree_ok _ Hb) as Ht.
  assert (0 <= NumberU64 b) as Hnb by apply (o_block Ho _ _ (y_genuine _ _ Ha)).
  destruct (rooted_at (stored (x_blocks (rcore m))) Ht c n Hr) as (x & Hx & Hnx & Hrx); [lia|].
  assert (∀ h y, stored (x_blocks (rcore m)) h = Some y → stored (x_blocks (rcore m')) h = Some y) as Hmono
    by (rewrite Hbl; apply stored_mono; [done|apply Ha]).
  exists m', x. split_and!; [exact E|unfold rc_CurrentBlock; by rewrite Ec'| |exact Hnx| |].
  - unfold rc_GetBlockByNumber, ReadCanonicalHash. change (d_rootCanonical (rc_db m')) with (x_canon (rcore m')).
    rewrite Hab, (t_canon _ _ Hc n), Hx by lia. cbn [fmap option_fmap option_map default from_option id].
    rewrite (proj2 (Z.eqb_neq _ _) (stored_hash_ne _ Ht x (r_stored _ _ Hrx))). apply Hmono, (r_stored _ _ Hrx).
  - change (fun h => rc_GetBlock h m') with (stored (x_blocks (rcore m'))). by eapply up_mono.
  - intros k Hk. change (fun h => rc_GetBlock h m') with (stored (x_blocks (rcore m'))) in Hk.
    pose proof (up_number _ (stored_tree_ok _ (w_blocks _ Hgd')) _ _ _ Hst Hk). lia.
Qed.

(** C30: whatever blocks are imported into the root chain, with whatever errors, it
    stays in shape: every stored block descends from the genesis block through
    stored blocks whose numbers and total difficulties add up, the index of
    heights, the head in memory and the head in the database agree, the head is
    the heaviest block stored, and the minor headers each block and its ancestors
    confirm are one chain per shard.  (This is for an import that does not
    panic.) *)
Theorem root_InsertChain_keeps chain m r m' :
  rgood (rcore m) → Forall known chain →
  rc_InsertChain fuel chain m = (r, m') → (∀ e, r ≠ Panic e) →
  ∃ i, r = Ok i ∧ rgood (rcore m').
Proof.
  intros Hgd HF E Hr. pose proof (rc_InsertChain_good chain m Hgd HF) as Hw. unfold wp in Hw. rewrite E in Hw.
  destruct r as [i|e|e]; [by exists i|done|by destruct (Hr e)].
Qed.

(** C31: after any import, the headers of a shard that a root block and its
    ancestors confirm are numbered from zero without a gap and each names the one
    before as its parent; the last of them is the one
    GetLastConfirmedMinorBlockHeader returns; and the root block each of them
    refers to is on the chain of the root block that confirms it. *)
Theorem confirmed_headers_chain chain m r m' :
  rgood (rcore m) → Forall known chain → rc_InsertChain fuel chain m = (Ok r, m') →
  ∀ hash b s, rc_GetBlock hash m' = Some b →
    let hs := confirmed (d_blocks (rc_db m')) s b in
    (∀ i h, hs !! i = Some h → mh_number h = u64 (Z.of_nat i)) ∧
    (∀ i a h, hs !! i = Some a → hs !! S i = Some h → mh_parent h = mh_hash a) ∧
    GetLastConfirmedMinorBlockHeader hash s m' = last hs ∧
    (∀ h, h ∈ hs → ∃ prev, rc_GetBlock (PrevRootBlockHash h) m' = Some prev ∧ on_chain_of (d_blocks (rc_db m')) b prev).
Proof.
  intros Hgd HF E hash b s Hb hs. pose proof (rc_InsertChain_good chain m Hgd HF) as Hw. unfold wp in Hw. rewrite E in Hw.
  destruct Hw as [Hbl _ Hconf]. pose proof (Hconf _ _ Hb) as [Hf Hl Hp]. split_and!.
  - intros i h. exact (follows_number _ i h (Hf s)).
  - intros i a h. exact (follows_parent None _ i a h (Hf s)).
  - pose proof (stored_genuine _ Hbl _ _ Hb) as (_ & <- & _). apply (Hl s).
  - intros h Hh. by apply (Hp s).
Qed.
End root_correct.
