(* ===== verification/RootChainDemo.v ===== *)
(** * core: a small root chain

    A concrete root chain of RootChain.v: two blocks on the genesis block, the
    first of which confirms two minor headers, and a heavier block that competes
    with both.  The theorems of RootChainCorrect.v are applied to it, and it shows
    what the index of heights keeps of an abandoned longer chain. *)

From S2P Require Import Prelude Wp Utils Account Config Transaction Blocks BlockTree XShardCursor Lru Receipts RawDb Consensus Engine.
From S2P Require Import ChainInsert RootChain RootValidator RootInsert RootChainCorrect.

Local Open Scope Z_scope.

#[export] Instance demo_root_env : RootEnv := {
  rconfig := mkRootChainConfig demo_quark demo_root_config true true 100 (1, 2) 7 1000 50 (1, 1) (mkPOSWConfig false 0 20 4 1000 0 2 10 100);
  r_now := 1000;
  r_spec := mkSpec (fun _ _ _ => Ok ([], [])) (fun _ _ => Ok tt);
  r_diffCalc := mkCalculator 7 512 10000;
  r_sha3 l := l;
  headerBytes h := [mh_hash h];
  EmptyTrieHash := 0;
  guardianSigned _ := false;
  sigToAddr _ := Err "no signature";
  getStakes _ _ := Err "no slave";
}.
Abbreviation DemoRoots := (RootBlockChain (fifo RootBlock)).

Definition demo_header (hash number parent : Z) : MinorBlockHeader :=
  mkMinorHeader hash 0 (mkBranch 2) number (mkAddress (replicate 20 0) 0) {[ 7 := 5 ]} parent 1 1000 0 (10 + number) 1 0 [] [] 0.
Definition minor0 : MinorBlockHeader := demo_header 101 0 0.
Definition minor1 : MinorBlockHeader := demo_header 102 1 101.
Definition demo_rootblock (hash number parent difficulty totalDifficulty : Z) (hs : list MinorBlockHeader) : RootBlock :=
  mkRootBlock hash 0 parent number (headers_root hs) 0 (mkAddress (replicate 20 0) 0) ∅ (100 + number) difficulty totalDifficulty 0 [] 0 [] [] hs.
Definition rgenesis : RootBlock := demo_rootblock 1 0 0 10 10 [].
Definition rootA1 : RootBlock := demo_rootblock 2 1 1 10 20 [minor0; minor1].
Definition rootA2 : RootBlock := demo_rootblock 3 2 2 10 30 [].
Definition rootB1 : RootBlock := demo_rootblock 4 1 1 25 35 [minor0].
Definition demo_rootblocks : gmap Z RootBlock := <[1 := rgenesis]> (<[2 := rootA1]> (<[3 := rootA2]> (<[4 := rootB1]> ∅))).
Definition roots_of (h : Z) : option RootBlock := demo_rootblocks !! h.
Definition roots_fuel : nat := 5.

(** The chain with the genesis block only; the slave has validated the two minor
    blocks. *)
Definition roots_start : DemoRoots :=
  mkRootChain
    (on_coinbase (fun _ => {[ 101 := ∅; 102 := ∅ ]}) (on_headBlock (fun _ => 1) (on_rootCanonical (fun _ => {[ 0 := 1 ]})
      (on_blocks (fun _ => {[ 1 := inr rgenesis ]}) empty_db))))
    rgenesis (Some rgenesis) [] false false false.

Definition roots_run : result (Z * option string) * DemoRoots := rc_InsertChain roots_fuel [rootA1; rootA2] roots_start.
Definition roots_switch : result (Z * option string) * DemoRoots := rc_InsertChain roots_fuel [rootB1] roots_run.2.

Lemma roots_run_ok : roots_run.1 = Ok (2, None) ∧ rc_currentBlock roots_run.2 = Some rootA2.
Proof. vm_compute. split; reflexivity. Qed.
Lemma roots_switch_ok : roots_switch.1 = Ok (1, None) ∧ rc_currentBlock roots_switch.2 = Some rootB1.
Proof. vm_compute. split; reflexivity. Qed.

Lemma roots_exist_ok : roots_exist roots_of rgenesis roots_fuel.
Proof.
  constructor; unfold roots_of; [reflexivity| |reflexivity..].
  intros h b Hb. unfold demo_rootblocks in Hb.
  repeat (apply lookup_insert_Some in Hb as [[<- Hb]|[_ Hb]]; [subst b; split_and!; [reflexivity|apply (bool_decide_unpack _); vm_compute; exact I..]|]). by rewrite lookup_empty in Hb.
Qed.
Lemma demo_seal b d : spec_VerifySeal (@r_spec demo_root_env) b d ≠ Err "pruned ancestor".
Proof. discriminate. Qed.

Abbreviation roots_blocks := ({[ 1 := inr rgenesis ]} : gmap Z (MinorBlock + RootBlock)).
Lemma roots_stored h b : stored roots_blocks h = Some b → h = 1 ∧ b = rgenesis.
Proof.
  unfold stored. destruct (roots_blocks !! h) as [x|] eqn:E; [|done]. apply lookup_singleton_Some in E as [<- <-]. by intros [= <-].
Qed.
Lemma roots_start_good : rgood roots_of rgenesis (rcore roots_start).
Proof.
  constructor; change (x_blocks (rcore roots_start)) with roots_blocks.
  - constructor; [|reflexivity|].
    + intros h x Hx. apply lookup_singleton_Some in Hx as [<- <-]. exists rgenesis. split; reflexivity.
    + intros h b Hb. apply roots_stored in Hb as [-> ->]. by left.
  - exists rgenesis. constructor; [reflexivity..| |].
    + intros n Hn. cbn in Hn. assert (n = 0) as -> by lia. reflexivity.
    + intros h b Hb. apply roots_stored in Hb as [-> ->]. done.
  - intros h b Hb. apply roots_stored in Hb as [-> ->]. constructor; [intros s; exact I|reflexivity|].
    intros s x Hx. by apply not_elem_of_nil in Hx.
Qed.

Lemma roots_A_known : Forall (known roots_of) [rootA1; rootA2].
Proof. repeat (constructor; [reflexivity|]). constructor. Qed.

Lemma root_InsertChain_keeps_witness : ∃ i m', rc_InsertChain roots_fuel [rootA1; rootA2] roots_start = (Ok i, m') ∧ rgood roots_of rgenesis (rcore m').
Proof.
  destruct (root_InsertChain_keeps roots_of rgenesis roots_fuel roots_exist_ok demo_seal [rootA1; rootA2] roots_start roots_run.1 roots_run.2)
    as (i & Hi & Hg).
  - exact roots_start_good.
  - exact roots_A_known.
  - change (roots_run = (roots_run.1, roots_run.2)). apply surjective_pairing.
  - intros e. rewrite (proj1 roots_run_ok). discriminate.
  - exists i, roots_run.2. split; [|exact Hg]. rewrite <- Hi. change (roots_run = (roots_run.1, roots_run.2)). apply surjective_pairing.
Defined.

Lemma confirmed_headers_witness :
  GetLastConfirmedMinorBlockHeader 3 2 roots_run.2 = Some minor1 ∧
  last (confirmed (d_blocks (rc_db roots_run.2)) 2 rootA2) = Some minor1.
Proof.
  destruct (confirmed_headers_chain roots_of rgenesis roots_fuel roots_exist_ok demo_seal [rootA1; rootA2] roots_start (2, None) roots_run.2)
    with (hash := 3) (b := rootA2) (s := 2) as (_ & _ & Hl & _).
  - exact roots_start_good.
  - exact roots_A_known.
  - rewrite <- (proj1 roots_run_ok). change (roots_run = (roots_run.1, roots_run.2)). apply surjective_pairing.
  - vm_compute. reflexivity.
  - assert (GetLastConfirmedMinorBlockHeader 3 2 roots_run.2 = Some minor1) as E by (vm_compute; reflexivity).
    split; [exact E|]. rewrite <- Hl. exact E.
Defined.

(** The heavier block is validated on the chain whose head is higher. *)
Definition roots_validated : result unit * DemoRoots := rc_ValidateBlock false rootB1 roots_run.2.
Lemma roots_validated_ok : roots_validated.1 = Ok tt ∧ rc_currentBlock roots_validated.2 = Some rootA2.
Proof. vm_compute. split; reflexivity. Qed.
Lemma roots_run_good : rgood roots_of rgenesis (rcore roots_run.2).
Proof.
  pose proof (rc_InsertChain_good roots_of rgenesis roots_fuel roots_exist_ok demo_seal _ _ roots_start_good roots_A_known) as Hw.
  unfold wp in Hw. change (rc_InsertChain roots_fuel [rootA1; rootA2] roots_start) with roots_run in Hw.
  pose proof (proj1 roots_run_ok) as E. destruct roots_run as [r m]. cbn [fst snd] in *. by rewrite E in Hw.
Qed.
Lemma roots_validated_good :
  rgood roots_of rgenesis (rcore roots_validated.2) ∧ acceptable roots_of (rcore roots_validated.2) rootB1.
Proof.
  pose proof (validate_accept roots_of rgenesis roots_fuel roots_exist_ok demo_seal false rootB1 _ roots_run_good eq_refl) as Hw.
  pose proof (proj1 roots_validated_ok) as E. unfold wp, rc_validate, se_try in Hw. revert Hw. se_red. intros Hw.
  change (rc_ValidateBlock false rootB1 roots_run.2) with roots_validated in Hw. destruct roots_validated as [r m]. cbn [fst snd] in *. subst r.
  destruct Hw as [Hg [Ha _]]. split; [exact Hg|]. by apply Ha.
Qed.
Lemma root_fork_choice_witness :
  ∃ m', rc_WriteBlockWithState roots_fuel rootB1 roots_validated.2 = (Ok RootCanonStatTy, m') ∧ rc_CurrentBlock m' = Ok rootB1 ∧
    rc_GetBlockByNumber 0 m' = Some rgenesis.
Proof.
  destruct (root_fork_choice roots_of rgenesis roots_fuel roots_exist_ok rootB1 roots_validated.2 rootA2) as (st & m' & E & Hst & Hc & _ & _ & Hn & _).
  - exact (proj1 roots_validated_good).
  - exact (proj2 roots_validated_good).
  - exact (proj2 roots_validated_ok).
  - exists m'. rewrite Hst in E. split; [exact E|]. split; [exact Hc|]. destruct (Hn 0) as [E0 _]; [vm_compute; split; discriminate|]. rewrite E0.
    assert (m' = (rc_WriteBlockWithState roots_fuel rootB1 roots_validated.2).2) as -> by (rewrite E; reflexivity). vm_compute. reflexivity.
Defined.

Lemma root_index_stale_witness :
  ∃ m', rc_WriteBlockWithState roots_fuel rootB1 roots_validated.2 = (Ok RootCanonStatTy, m') ∧ rc_CurrentBlock m' = Ok rootB1 ∧
    NumberU64 rootB1 = 1 ∧ rc_GetBlockByNumber 2 m' = Some rootA2.
Proof.
  destruct (root_index_stale roots_of rgenesis roots_fuel roots_exist_ok rootB1 roots_validated.2 rootA2 2) as (m' & x & E & Hc & Hx & _ & Hup & _).
  - exact (proj1 roots_validated_good).
  - exact (proj2 roots_validated_good).
  - exact (proj2 roots_validated_ok).
  - vm_compute. discriminate.
  - vm_compute. split; [reflexivity|discriminate].
  - exists m'. split; [exact E|]. split; [exact Hc|]. split; [reflexivity|]. rewrite Hx, <- Hup. reflexivity.
Defined.

(** GetAncestor answers from the stale entry: the second ancestor of a block at
    height 3 on the abandoned chain is taken from the new chain. *)
Example root_stale_ancestor :
  let m := roots_switch.2 in
  up (fun h => rc_GetBlock h m) 2 (demo_rootblock 5 3 3 10 40 []) = Some rootA1 ∧
  GetAncestor 5 3 2 1 (rc_set_db (WriteRootBlock (demo_rootblock 5 3 3 10 40 []) (rc_db m)) m) = (Hash rootB1, 1, 0).
Proof. vm_compute. repeat split. Qed.
