(* ===== verification/Transition.v ===== *)
(** * core: the state transition of a transaction

    Models src/core/gaspool.go and src/core/state_transition.go: the gas pool of
    a block, the intrinsic gas, buying gas, the call, refund and fee, and the
    deposit of a cross-shard transaction.  The state is used through the part of
    the vm.StateDB interface the code calls, a class here.  The EVM's Create and
    Call, the gas constants of go-ethereum and the hash of a contract address
    are parameters; addresses are numbers. *)

From S2P Require Import Prelude Utils Account Blocks XShardCursor Consensus.

Local Open Scope Z_scope.

(** ** The gas pool: an SE computation on the pool's uint64 *)

Definition AddGas (amount : Z) : SE Z unit := fun gp =>
  if max_u64 - amount <? gp then (Panic "gas pool pushed above uint64", gp)
  else (Ok tt, gp + amount).
Definition SubGas (amount : Z) : SE Z unit := fun gp =>
  if gp <? amount then (Err "gas limit reached", gp) else (Ok tt, gp - amount).

(** ** Intrinsic gas *)

Record GasParams := mkGasParams {
  TxGas : Z;
  TxGasContractCreation : Z;
  TxDataNonZeroGas : Z;
  TxDataZeroGas : Z;
}.

Definition GtxxShardCost : Z := 9000.

Definition nonzero_bytes (data : list Z) : Z := Z.of_nat (length (filter (fun b => b ≠ 0) data)).

Definition IntrinsicGas (p : GasParams) (data : list Z) (contractCreation isCrossShard : bool) : result Z :=
  let gas := if contractCreation then TxGasContractCreation p else TxGas p in
  gas ← (if bool_decide (0 < length data)%nat then
           let nz := nonzero_bytes data in
           if (max_u64 - gas) / TxDataNonZeroGas p <? nz then Err "out of gas"
           else
             let gas := u64 (gas + u64 (nz * TxDataNonZeroGas p)) in
             let z := u64 (Z.of_nat (length data) - nz) in
             if (max_u64 - gas) / TxDataZeroGas p <? z then Err "out of gas"
             else Ok (u64 (gas + u64 (z * TxDataZeroGas p)))
         else Ok gas);
  Ok (if isCrossShard then u64 (gas + GtxxShardCost) else gas).

(** ** Messages, the EVM context, the configuration *)

Record Message := mkMessage {
  msg_from : Z;
  msg_to : option Z;                  (* nil: contract creation *)
  msg_gasPrice : Z;
  msg_gas : Z;
  msg_value : Z;
  msg_nonce : Z;
  msg_checkNonce : bool;
  msg_data : list Z;
  msg_isCrossShard : bool;
  msg_fromFullShardKey : Z;
  msg_toFullShardKey : Z;
  msg_txHash : Z;
  msg_transferTokenID : Z;
  msg_refundRate : Z;
}.

Record Context := mkContext {
  GasPriceInGasToken : Z;
  ctx_GasTokenID : Z;
  IsApplyXShard : bool;
  XShardGasUsedStart : Z;
  ContractAddress : option Z;
  Coinbase : Z;
}.

Record QuarkChainConfig := mkConfig {
  LocalFeeRate : Z * Z;               (* numerator, denominator *)
  DefaultChainTokenID : Z;
  EnableEvmTimeStamp : Z;
  TimeStamp : Z;                      (* of the state *)
  SenderDisallowMap : gmap Z Z;       (* of the state *)
}.

Inductive VMError :=
| ErrInsufficientBalance
| ErrPoSWSenderNotAllowed
| ErrExecutionReverted
| ErrCodeStoreOutOfGas
| OtherVMError (msg : string).
#[export] Instance VMError_eq_dec : EqDecision VMError.
Proof. solve_decision. Defined.

(** ** The state, as the transition uses it *)
Class StateOps (St : Type) := {
  GetBalance : Z → Z → SE St Z;
  AddBalance : Z → Z → Z → SE St unit;     (* address, amount, token *)
  SubBalance : Z → Z → Z → SE St unit;
  GetNonce : Z → SE St Z;
  SetNonce : Z → Z → SE St unit;
  GetRefund : SE St Z;
  SubRefund : Z → SE St unit;
  AddBlockFee : Z → Z → SE St unit;        (* token, amount *)
  AddGasUsed : Z → SE St unit;
  GetGasUsed : SE St Z;
  AppendXShardList : Deposit → SE St unit;
}.

(** [StateTransition]: the pool and the state are shared with the caller. *)
Record Transition (St : Type) := mkTransition {
  st_gp : Z;
  st_gas : Z;
  st_initialGas : Z;
  st_state : St;
}.
Arguments mkTransition {St}.
Arguments st_gp {St}.
Arguments st_gas {St}.
Arguments st_initialGas {St}.
Arguments st_state {St}.

Section transition.
Context {St : Type} `{StateOps St}.
Context (params : GasParams) (config : QuarkChainConfig) (evm : Context) (msg : Message).
(** The EVM: sender, input, gas, value and the contract or called address give
    the returned bytes, the gas left and the error. *)
Context (evm_Create : Z → list Z → Z → Z → option Z → SE St (list Z * Z * option VMError)).
Context (evm_Call : Z → Z → list Z → Z → Z → SE St (list Z * Z * option VMError)).
Context (CreateAddress : Z → Z → Z → Z).

Abbreviation T := (SE (Transition St)).

(** Running an operation of the state or of the pool. *)
Definition on_state {A} (m : SE St A) : T A := fun st =>
  let '(r, s) := m (st_state st) in (r, mkTransition (st_gp st) (st_gas st) (st_initialGas st) s).
Definition on_pool {A} (m : SE Z A) : T A := fun st =>
  let '(r, gp) := m (st_gp st) in (r, mkTransition gp (st_gas st) (st_initialGas st) (st_state st)).
Definition set_gas (gas : Z) : T unit :=
  se_mod (fun st => mkTransition (st_gp st) gas (st_initialGas st) (st_state st)).
Definition set_initialGas (gas : Z) : T unit :=
  se_mod (fun st => mkTransition (st_gp st) (st_gas st) gas (st_state st)).

Definition useGas (amount : Z) : T unit :=
  st ← se_get;
  if bool_decide (st_gas st < amount) then se_err "out of gas" else set_gas (st_gas st - amount).

Definition buyGas : T unit :=
  let mgval := msg_gas msg * GasPriceInGasToken evm in
  bal ← on_state (GetBalance (msg_from msg) (ctx_GasTokenID evm));
  if bool_decide ((bal : Z) < mgval) then se_err "insufficient balance to pay for gas"
  else
    _ ← on_pool (SubGas (msg_gas msg));
    st ← se_get;
    _ ← set_gas (u64 (st_gas st + msg_gas msg));
    _ ← set_initialGas (msg_gas msg);
    on_state (SubBalance (msg_from msg) mgval (ctx_GasTokenID evm)).

Definition preCheck : T unit :=
  if msg_checkNonce msg then
    nonce ← on_state (GetNonce (msg_from msg));
    if bool_decide ((nonce : Z) < msg_nonce msg) then se_err "nonce too high"
    else if bool_decide (msg_nonce msg < nonce) then se_err "nonce too low"
    else buyGas
  else buyGas.

(** gasUsed, of the fields. *)
Definition gas_used (st : Transition St) : Z := u64 (st_initialGas st - st_gas st).

Definition refund (total : Z) : T unit :=
  if bool_decide (msg_refundRate msg = 100)
  then on_state (AddBalance (msg_from msg) total (DefaultChainTokenID config))
  else
    let toRefund := total * msg_refundRate msg / 100 in
    let toburn := total - toRefund in
    _ ← on_state (AddBalance (msg_from msg) toRefund (DefaultChainTokenID config));
    if bool_decide (0 <= toburn) then on_state (AddBalance 0 toburn (DefaultChainTokenID config))
    else mret tt.

Definition refundGas (vmerr : option VMError) : T unit :=
  _ ← match vmerr with
      | None =>
          st ← se_get;
          r ← on_state GetRefund;
          let half := gas_used st / 2 in
          let refund := if bool_decide ((r : Z) < half) then r else half in
          set_gas (u64 (st_gas st + refund))
      | Some _ => mret tt
      end;
  r ← on_state GetRefund;
  _ ← on_state (SubRefund r);
  st ← se_get;
  _ ← refund (st_gas st * msg_gasPrice msg);
  on_pool (AddGas (st_gas st)).

Definition preFill : T unit :=
  st ← se_get;
  let gas := u64 (st_gas st + u64 (msg_gas msg + XShardGasUsedStart evm)) in
  _ ← set_gas gas;
  set_initialGas gas.

Definition chargeFee (gasUsed : Z) : T unit :=
  let rateFee := BigIntMulBigRat (gasUsed * msg_gasPrice msg) (LocalFeeRate config) in
  _ ← on_state (AddBalance (Coinbase evm) rateFee (DefaultChainTokenID config));
  _ ← on_state (AddBlockFee (DefaultChainTokenID config) rateFee);
  if bool_decide (EnableEvmTimeStamp config <= TimeStamp config)
  then on_state (AddGasUsed gasUsed)
  else st ← se_get; on_state (AddGasUsed (gas_used st)).

Definition transferFailureByPoSWBalanceCheck : T bool :=
  match SenderDisallowMap config !! msg_from msg with
  | None => mret false
  | Some _ =>
      bal ← on_state (GetBalance (msg_from msg) (DefaultChainTokenID config));
      mret (TransferFailureByPoswBalanceCheck (SenderDisallowMap config) bal (msg_from msg) (msg_value msg))
  end.

(** The deposit sent to the other shard. *)
Definition make_deposit (to gasRemained : Z) (create : bool) : Deposit :=
  mkDeposit (msg_txHash msg) (mkAddress (be_bytes 20 (msg_from msg)) (msg_fromFullShardKey msg))
    (mkAddress (be_bytes 20 to) (msg_toFullShardKey msg)) (msg_value msg) (msg_gasPrice msg)
    (DefaultChainTokenID config) (msg_transferTokenID msg) false gasRemained (msg_data msg) create
    (msg_refundRate msg).

(** Its two sending branches: the gas reserved for the other shard, not failed. *)
Definition send_deposit (intrinsicGas : Z) : T (Z * bool) :=
  match msg_to msg with
  | None =>
      _ ← on_state (SubBalance (msg_from msg) (msg_value msg) (msg_transferTokenID msg));
      nonce ← on_state (GetNonce (msg_from msg));
      let reserved := u64 (msg_gas msg - intrinsicGas) in
      _ ← on_state (AppendXShardList (make_deposit
            (CreateAddress (msg_from msg) (msg_fromFullShardKey msg) nonce) reserved true));
      mret (reserved, false)
  | Some to =>
      _ ← on_state (SubBalance (msg_from msg) (msg_value msg) (msg_transferTokenID msg));
      let reserved := if bool_decide (EnableEvmTimeStamp config <= TimeStamp config)
                      then u64 (msg_gas msg - intrinsicGas) else 0 in
      _ ← on_state (AppendXShardList (make_deposit to reserved false));
      mret (reserved, false)
  end.

Definition AddCrossShardTxDeposit (intrinsicGas : Z) : T (list Z * Z * bool) :=
  bal ← on_state (GetBalance (msg_from msg) (msg_transferTokenID msg));
  if bool_decide ((bal : Z) < msg_value msg) then se_err "insufficient balance for transfer"
  else
    notAllowed ← transferFailureByPoSWBalanceCheck;
    rf ← (if (notAllowed : bool) then _ ← set_gas 0; mret (0, true)
          else
            send_deposit intrinsicGas);
    let '(reserved, failed) := (rf : Z * bool) in
    st ← se_get;
    let localGasUsed := gas_used st in
    let gasRemained := u64 (u64 (msg_gas msg - localGasUsed) - reserved) in
    _ ← refund (gasRemained * msg_gasPrice msg);
    let localGasUsed := if failed then localGasUsed else u64 (localGasUsed - GtxxShardCost) in
    _ ← chargeFee localGasUsed;
    used ← on_state GetGasUsed;
    mret ([], u64 used, failed).

Definition TransitionDb : T (list Z * Z * bool) :=
  gas ← (if IsApplyXShard evm then _ ← preFill; mret (XShardGasUsedStart evm)
         else
           _ ← preCheck;
           se_lift (IntrinsicGas params (msg_data msg) (bool_decide (msg_to msg = None))
                      (msg_isCrossShard msg)));
  _ ← useGas gas;
  if msg_isCrossShard msg then
    nonce ← on_state (GetNonce (msg_from msg));
    _ ← on_state (SetNonce (msg_from msg) (u64 (nonce + 1)));
    AddCrossShardTxDeposit gas
  else
    out ← (if bool_decide (msg_to msg = None) || bool_decide (is_Some (ContractAddress evm)) then
             st ← se_get;
             on_state (evm_Create (msg_from msg) (msg_data msg) (st_gas st) (msg_value msg)
                         (ContractAddress evm))
           else
             _ ← (if IsApplyXShard evm then mret tt
                  else
                    nonce ← on_state (GetNonce (msg_from msg));
                    on_state (SetNonce (msg_from msg) (u64 (nonce + 1))));
             notAllowed ← transferFailureByPoSWBalanceCheck;
             if (notAllowed : bool) then mret ([], 0, Some ErrPoSWSenderNotAllowed)
             else
               st ← se_get;
               on_state (evm_Call (msg_from msg) (default 0 (msg_to msg)) (msg_data msg)
                           (st_gas st) (msg_value msg)));
    let '(ret, leftOverGas, vmerr) := (out : list Z * Z * option VMError) in
    _ ← set_gas leftOverGas;
    match vmerr with
    | Some ErrInsufficientBalance => se_err "insufficient balance for transfer"
    | _ =>
        _ ← refundGas vmerr;
        st ← se_get;
        _ ← chargeFee (gas_used st);
        match vmerr with
        | Some ErrPoSWSenderNotAllowed => mret ([], gas_used st, true)
        | Some _ => mret (ret, gas_used st, true)
        | None => mret (ret, gas_used st, false)
        end
    end.
End transition.
