(* ===== verification/TransitionCorrect.v ===== *)
(** * core: the state transition of a transaction, correctness

    What the transition of Transition.v does to balances, nonce, fee, pool and
    cross-shard list, for any state that implements the interface and any EVM
    behaviour that does not return more gas than it got. *)

From S2P Require Import Prelude Utils Account Blocks XShardCursor Consensus Transition.

Local Open Scope Z_scope.

(** ** What a state shows *)
Record view := mkView {
  v_bal : Z → Z → Z;              (* address, token *)
  v_nonce : Z → Z;
  v_refund : Z;
  v_gasUsed : Z;
  v_fee : Z → Z;                  (* token *)
  v_xlist : list Deposit;
}.

Definition add_bal (a t x : Z) (v : view) : view :=
  mkView (fun a' t' => v_bal v a' t' + if decide (a' = a ∧ t' = t) then x else 0)
    (v_nonce v) (v_refund v) (v_gasUsed v) (v_fee v) (v_xlist v).
Definition with_nonce (a n : Z) (v : view) : view :=
  mkView (v_bal v) (fun a' => if decide (a' = a) then n else v_nonce v a')
    (v_refund v) (v_gasUsed v) (v_fee v) (v_xlist v).
Definition with_refund (r : Z) (v : view) : view :=
  mkView (v_bal v) (v_nonce v) r (v_gasUsed v) (v_fee v) (v_xlist v).
Definition add_gas_used (g : Z) (v : view) : view :=
  mkView (v_bal v) (v_nonce v) (v_refund v) (v_gasUsed v + g) (v_fee v) (v_xlist v).
Definition add_fee (t x : Z) (v : view) : view :=
  mkView (v_bal v) (v_nonce v) (v_refund v) (v_gasUsed v)
    (fun t' => v_fee v t' + if decide (t' = t) then x else 0) (v_xlist v).
Definition add_deposit (d : Deposit) (v : view) : view :=
  mkView (v_bal v) (v_nonce v) (v_refund v) (v_gasUsed v) (v_fee v) (v_xlist v ++ [d]).

(** What the interface promises: [reads s v] says that the state shows [v]. *)
Class StateLaws (St : Type) `{StateOps St} := {
  reads : St → view → Prop;
  reads_balance s v a t :
    reads s v → ∃ s', GetBalance a t s = (Ok (v_bal v a t), s') ∧ reads s' v;
  reads_nonce s v a : reads s v → ∃ s', GetNonce a s = (Ok (v_nonce v a), s') ∧ reads s' v;
  reads_refund s v : reads s v → ∃ s', GetRefund s = (Ok (v_refund v), s') ∧ reads s' v;
  reads_gasUsed s v : reads s v → ∃ s', GetGasUsed s = (Ok (v_gasUsed v), s') ∧ reads s' v;
  add_balance s v a x t :
    reads s v → 0 <= x → ∃ s', AddBalance a x t s = (Ok tt, s') ∧ reads s' (add_bal a t x v);
  sub_balance s v a x t :
    reads s v → 0 <= x <= v_bal v a t →
    ∃ s', SubBalance a x t s = (Ok tt, s') ∧ reads s' (add_bal a t (- x) v);
  set_nonce s v a n :
    reads s v → 0 <= n < 2 ^ 64 → ∃ s', SetNonce a n s = (Ok tt, s') ∧ reads s' (with_nonce a n v);
  sub_refund s v r :
    reads s v → 0 <= r <= v_refund v →
    ∃ s', SubRefund r s = (Ok tt, s') ∧ reads s' (with_refund (v_refund v - r) v);
  block_fee s v t x : reads s v → ∃ s', AddBlockFee t x s = (Ok tt, s') ∧ reads s' (add_fee t x v);
  gas_used_law s v g : reads s v → ∃ s', AddGasUsed g s = (Ok tt, s') ∧ reads s' (add_gas_used g v);
  deposit_law s v d : reads s v → ∃ s', AppendXShardList d s = (Ok tt, s') ∧ reads s' (add_deposit d v);
  reads_bounds s v : reads s v → 0 <= v_refund v < 2 ^ 64 ∧ ∀ a, 0 <= v_nonce v a < 2 ^ 64;
}.

(** ** Intrinsic gas *)

Definition params_ok (p : GasParams) : Prop :=
  0 < TxGas p < 2 ^ 32 ∧ 0 < TxGasContractCreation p < 2 ^ 32
  ∧ 0 < TxDataNonZeroGas p < 2 ^ 16 ∧ 0 < TxDataZeroGas p < 2 ^ 16.

Definition intrinsic (p : GasParams) (data : list Z) (create cross : bool) : Z :=
  (if create then TxGasContractCreation p else TxGas p)
  + nonzero_bytes data * TxDataNonZeroGas p
  + (Z.of_nat (length data) - nonzero_bytes data) * TxDataZeroGas p
  + (if cross then GtxxShardCost else 0).

Lemma nonzero_bytes_bounds data : 0 <= nonzero_bytes data <= Z.of_nat (length data).
Proof. unfold nonzero_bytes. pose proof (length_filter (fun b => b ≠ 0) data). lia. Qed.

Lemma IntrinsicGas_value p data create cross :
  params_ok p → Z.of_nat (length data) < 2 ^ 40 →
  IntrinsicGas p data create cross = Ok (intrinsic p data create cross)
  ∧ 0 < intrinsic p data create cross < 2 ^ 63.
Proof.
  intros (H1&H2&H3&H4) Hlen. unfold IntrinsicGas, intrinsic. cbn zeta.
  pose proof (nonzero_bytes_bounds data) as Hnz. set (nz := nonzero_bytes data) in *.
  set (base := if create then TxGasContractCreation p else TxGas p).
  assert (0 < base < 2 ^ 32) as Hb by (unfold base; destruct create; lia).
  set (n := Z.of_nat (length data)) in *.
  assert (0 <= nz * TxDataNonZeroGas p < 2 ^ 56) as Hm by nia.
  assert (0 <= (n - nz) * TxDataZeroGas p < 2 ^ 56) as Hm2 by nia.
  unfold GtxxShardCost. split; [|destruct cross; lia].
  case_bool_decide as Hd.
  - rewrite (proj2 (Z.ltb_ge _ _)) by (apply Z.div_le_lower_bound; unfold max_u64; lia).
    rewrite (u64_id (nz * _)), (u64_id (base + _)), (u64_id (n - nz)) by (unfold in_u64; lia).
    rewrite (proj2 (Z.ltb_ge _ _)) by (apply Z.div_le_lower_bound; unfold max_u64; lia).
    rewrite (u64_id ((n - nz) * _)), (u64_id (_ + (n - nz) * _)) by (unfold in_u64; lia).
    se_red. destruct cross; f_equal; [|lia]. rewrite u64_id by (unfold in_u64; lia). lia.
  - assert (n = 0) by (unfold n; lia). assert (nz = 0) as -> by lia. se_red.
    destruct cross; f_equal; [rewrite u64_id by (unfold in_u64; lia)|]; nia.
Qed.

Section correct.
Context {St : Type} `{StateLaws St}.
Context (params : GasParams) (config : QuarkChainConfig) (evm : Context) (msg : Message).
Context (evm_Create : Z → list Z → Z → Z → option Z → SE St (list Z * Z * option VMError)).
Context (evm_Call : Z → Z → list Z → Z → Z → SE St (list Z * Z * option VMError)).
Context (CreateAddress : Z → Z → Z → Z).
(** The panics the EVM may run into. *)
Context (may_panic : string → Prop).

Abbreviation from := (msg_from msg).
Abbreviation token := (DefaultChainTokenID config).
Abbreviation price := (msg_gasPrice msg).

(** The message and the configuration are sensible. *)
Record sensible : Prop := {
  gas_range : 0 <= msg_gas msg < 2 ^ 64;
  price_pos : 0 <= price;
  token_price_pos : 0 <= GasPriceInGasToken evm;
  value_pos : 0 <= msg_value msg;
  rate_range : 0 <= msg_refundRate msg <= 100;
  fee_rate : 0 <= (LocalFeeRate config).1 ∧ 0 < (LocalFeeRate config).2;
  data_len : Z.of_nat (length (msg_data msg)) < 2 ^ 40;
  params_wf : params_ok params;
}.
Context (Hsen : sensible).

(** ** Effects *)

Definition refunded (total : Z) (v : view) : view :=
  if bool_decide (msg_refundRate msg = 100) then add_bal from token total v
  else
    let toRefund := total * msg_refundRate msg / 100 in
    add_bal 0 token (total - toRefund) (add_bal from token toRefund v).

Definition fee_of (gas : Z) : Z := BigIntMulBigRat (gas * price) (LocalFeeRate config).

(** [gas] is charged for; [used] is what the block counts before EVM time. *)
Definition charged (gas used : Z) (v : view) : view :=
  add_gas_used (if bool_decide (EnableEvmTimeStamp config <= TimeStamp config) then gas else used)
    (add_fee token (fee_of gas) (add_bal (Coinbase evm) token (fee_of gas) v)).

Definition prepaid (v : view) : view :=
  add_bal from (ctx_GasTokenID evm) (- (msg_gas msg * GasPriceInGasToken evm)) v.

Definition bumped_nonce (v : view) : view := with_nonce from (u64 (v_nonce v from + 1)) v.

Definition blocked (v : view) : bool :=
  TransferFailureByPoswBalanceCheck (SenderDisallowMap config) (v_bal v from token) from (msg_value msg).

Lemma fee_nonneg gas : 0 <= gas → 0 <= fee_of gas.
Proof.
  intros Hg. pose proof (price_pos Hsen). destruct (fee_rate Hsen). unfold fee_of, BigIntMulBigRat.
  apply Z.div_pos; [|lia]. apply Z.mul_nonneg_nonneg; [nia|lia].
Qed.

(** ** The steps *)

Lemma on_state_run {A} (m : SE St A) gp g i s r s' :
  m s = (r, s') → on_state m (mkTransition gp g i s) = (r, mkTransition gp g i s').
Proof. intros Hm. unfold on_state. cbn. by rewrite Hm. Qed.

Lemma refund_spec gp g i s v total :
  reads s v → 0 <= total →
  ∃ s', refund config msg total (mkTransition gp g i s) = (Ok tt, mkTransition gp g i s')
        ∧ reads s' (refunded total v).
Proof.
  intros Hs Ht. unfold refund, refunded. case_bool_decide as Hr.
  - destruct (add_balance s v from total token Hs Ht) as (s'&Heq&Hs'). exists s'.
    split; [|done]. by apply on_state_run.
  - cbn zeta. pose proof (rate_range Hsen) as Hrate. set (r := total * msg_refundRate msg / 100).
    assert (0 <= r <= total) as Hr2.
    { unfold r. split; [apply Z.div_pos; nia|]. apply Z.div_le_upper_bound; nia. }
    destruct (add_balance s v from r token Hs ltac:(lia)) as (s1&Heq1&Hs1).
    destruct (add_balance s1 _ 0 (total - r) token Hs1 ltac:(lia)) as (s2&Heq2&Hs2).
    exists s2. split; [|done]. se_red. rewrite (on_state_run _ _ _ _ _ _ _ Heq1).
    rewrite bool_decide_true by lia. by apply on_state_run.
Qed.

Lemma chargeFee_spec gp g i s v gas :
  reads s v → 0 <= gas → 0 <= g <= i → i < 2 ^ 64 →
  ∃ s', chargeFee config evm msg gas (mkTransition gp g i s) = (Ok tt, mkTransition gp g i s')
        ∧ reads s' (charged gas (i - g) v).
Proof.
  intros Hs Hg Hgi Hi. unfold chargeFee, charged. fold (fee_of gas).
  destruct (add_balance s v (Coinbase evm) (fee_of gas) token Hs (fee_nonneg gas Hg)) as (s1&Heq1&Hs1).
  destruct (block_fee s1 _ token (fee_of gas) Hs1) as (s2&Heq2&Hs2).
  se_red. rewrite (on_state_run _ _ _ _ _ _ _ Heq1), (on_state_run _ _ _ _ _ _ _ Heq2).
  assert (gas_used (mkTransition gp g i s2) = i - g) as Hu
    by (unfold gas_used; cbn; apply u64_id; unfold in_u64; lia).
  case_bool_decide as He.
  - destruct (gas_used_law s2 _ gas Hs2) as (s3&Heq3&Hs3). exists s3. split; [|done]. by apply on_state_run.
  - rewrite Hu. destruct (gas_used_law s2 _ (i - g) Hs2) as (s3&Heq3&Hs3). exists s3. split; [|done].
    by apply on_state_run.
Qed.

(** The gas left after the refund counter is applied. *)
Definition refunded_gas (vmerr : option VMError) (i g : Z) (v : view) : Z :=
  match vmerr with
  | None => g + Z.min (v_refund v) ((i - g) / 2)
  | Some _ => g
  end.

Lemma refunded_gas_bounds vmerr i g v s :
  reads s v → 0 <= g <= i → g <= refunded_gas vmerr i g v <= i.
Proof.
  intros Hs Hg. destruct (reads_bounds s v Hs) as [Hr _]. unfold refunded_gas. destruct vmerr; [lia|].
  pose proof (Z.div_pos (i - g) 2 ltac:(lia) ltac:(lia)).
  assert ((i - g) / 2 <= i - g) by (apply Z.div_le_upper_bound; lia). lia.
Qed.

Lemma refundGas_spec vmerr gp g i s v :
  reads s v → 0 <= g <= i → i < 2 ^ 64 → 0 <= gp → gp + i <= max_u64 →
  let g' := refunded_gas vmerr i g v in
  ∃ s', refundGas config msg vmerr (mkTransition gp g i s) = (Ok tt, mkTransition (gp + g') g' i s')
        ∧ reads s' (refunded (g' * price) (with_refund 0 v)).
Proof.
  intros Hs Hg Hi Hgp Hsum g'. pose proof (refunded_gas_bounds vmerr i g v s Hs Hg) as Hg'. fold g' in Hg'.
  assert (∀ s, reads s v → ∃ s',
    (r ← on_state GetRefund; _ ← on_state (SubRefund r); st ← se_get;
     _ ← refund config msg (st_gas st * price); on_pool (AddGas (st_gas st)))
      (mkTransition gp g' i s) = (Ok tt, mkTransition (gp + g') g' i s')
    ∧ reads s' (refunded (g' * price) (with_refund 0 v))) as Hrest.
  { intros s0 Hs0. destruct (reads_refund s0 v Hs0) as (s1&Heq1&Hs1).
    destruct (reads_bounds s1 v Hs1) as [Hr _].
    destruct (sub_refund s1 v (v_refund v) Hs1 ltac:(lia)) as (s2&Heq2&Hs2). rewrite Z.sub_diag in Hs2.
    pose proof (price_pos Hsen) as Hp.
    destruct (refund_spec gp g' i s2 _ (g' * price) Hs2 ltac:(nia)) as (s3&Heq3&Hs3).
    exists s3. split; [|done]. se_red. rewrite (on_state_run _ _ _ _ _ _ _ Heq1).
    rewrite (on_state_run _ _ _ _ _ _ _ Heq2). cbn [st_gas]. rewrite Heq3.
    unfold on_pool, AddGas. cbn. rewrite (proj2 (Z.ltb_ge _ _)) by lia. done. }
  unfold refundGas. destruct vmerr as [e|].
  - destruct (Hrest s Hs) as (s'&Heq&Hs'). exists s'. split; [|done]. exact Heq.
  - destruct (reads_refund s v Hs) as (s1&Heq1&Hs1). destruct (Hrest s1 Hs1) as (s'&Heq&Hs').
    exists s'. split; [|done]. se_red. rewrite (on_state_run _ _ _ _ _ _ _ Heq1).
    assert (gas_used (mkTransition gp g i s) = i - g) as Hu
      by (unfold gas_used; cbn; apply u64_id; unfold in_u64; lia). rewrite Hu. cbn [st_gas].
    assert ((if bool_decide (v_refund v < (i - g) / 2) then v_refund v else (i - g) / 2)
            = Z.min (v_refund v) ((i - g) / 2)) as -> by (case_bool_decide; lia).
    rewrite u64_id by (unfold in_u64, g', refunded_gas in *; lia). exact Heq.
Qed.

Lemma posw_check_spec gp g i s v :
  reads s v → ∃ s', transferFailureByPoSWBalanceCheck config msg (mkTransition gp g i s)
                    = (Ok (blocked v), mkTransition gp g i s') ∧ reads s' v.
Proof.
  intros Hs. unfold transferFailureByPoSWBalanceCheck, blocked, TransferFailureByPoswBalanceCheck.
  destruct (SenderDisallowMap config !! from) as [x|]; [|by exists s].
  destruct (reads_balance s v from token Hs) as (s'&Heq&Hs'). exists s'. split; [|done].
  se_red. by rewrite (on_state_run _ _ _ _ _ _ _ Heq).
Qed.

Lemma bump_nonce_spec gp g i s v :
  reads s v → ∃ s',
    (nonce ← on_state (GetNonce from); on_state (SetNonce from (u64 (nonce + 1)))) (mkTransition gp g i s)
    = (Ok tt, mkTransition gp g i s') ∧ reads s' (bumped_nonce v).
Proof.
  intros Hs. destruct (reads_nonce s v from Hs) as (s1&Heq1&Hs1).
  destruct (set_nonce s1 v from (u64 (v_nonce v from + 1)) Hs1 ltac:(apply u64_in)) as (s2&Heq2&Hs2).
  exists s2. split; [|done]. se_red. rewrite (on_state_run _ _ _ _ _ _ _ Heq1).
  by apply on_state_run.
Qed.

(** A message is let in exactly when its nonce is the account's, the account
    can prepay the gas and the pool has it; otherwise nothing changed. *)
Definition admitted (gp : Z) (v : view) : Prop :=
  (msg_checkNonce msg = true → v_nonce v from = msg_nonce msg)
  ∧ msg_gas msg * GasPriceInGasToken evm <= v_bal v from (ctx_GasTokenID evm) ∧ msg_gas msg <= gp.

Lemma buyGas_spec gp s v :
  reads s v →
  (msg_gas msg * GasPriceInGasToken evm <= v_bal v from (ctx_GasTokenID evm) ∧ msg_gas msg <= gp
   ∧ ∃ s', buyGas evm msg (mkTransition gp 0 0 s)
           = (Ok tt, mkTransition (gp - msg_gas msg) (msg_gas msg) (msg_gas msg) s') ∧ reads s' (prepaid v))
  ∨ (¬ (msg_gas msg * GasPriceInGasToken evm <= v_bal v from (ctx_GasTokenID evm) ∧ msg_gas msg <= gp)
     ∧ ∃ e s', buyGas evm msg (mkTransition gp 0 0 s) = (Err e, mkTransition gp 0 0 s') ∧ reads s' v).
Proof.
  intros Hs. unfold buyGas. destruct (reads_balance s v from (ctx_GasTokenID evm) Hs) as (s1&Heq1&Hs1).
  se_red. rewrite (on_state_run _ _ _ _ _ _ _ Heq1). case_bool_decide as Hb.
  { right. split; [lia|]. by eexists _, s1. }
  unfold on_pool, SubGas. cbn [st_gp]. destruct (Z.ltb_spec gp (msg_gas msg)) as [Hp|Hp].
  { right. split; [lia|]. by eexists _, s1. }
  left. split_and!; [lia|done|]. pose proof (gas_range Hsen) as Hg. pose proof (token_price_pos Hsen) as Hpr.
  destruct (sub_balance s1 v from (msg_gas msg * GasPriceInGasToken evm) (ctx_GasTokenID evm) Hs1
              ltac:(nia)) as (s2&Heq2&Hs2).
  exists s2. split; [|done]. unfold set_gas, set_initialGas. se_red. cbn.
  rewrite u64_id by done. by apply on_state_run.
Qed.

Lemma preCheck_spec gp s v :
  reads s v →
  (admitted gp v ∧ ∃ s', preCheck evm msg (mkTransition gp 0 0 s)
     = (Ok tt, mkTransition (gp - msg_gas msg) (msg_gas msg) (msg_gas msg) s') ∧ reads s' (prepaid v))
  ∨ (¬ admitted gp v
     ∧ ∃ e s', preCheck evm msg (mkTransition gp 0 0 s) = (Err e, mkTransition gp 0 0 s') ∧ reads s' v).
Proof.
  intros Hs. unfold preCheck, admitted. destruct (msg_checkNonce msg).
  - destruct (reads_nonce s v from Hs) as (s1&Heq1&Hs1). se_red. rewrite (on_state_run _ _ _ _ _ _ _ Heq1).
    case_bool_decide as H1; [right; split; [intros [Hn _]; specialize (Hn eq_refl); lia|by eexists _, s1]|].
    case_bool_decide as H2; [right; split; [intros [Hn _]; specialize (Hn eq_refl); lia|by eexists _, s1]|].
    destruct (buyGas_spec gp s1 v Hs1) as [(Ha&Hb&Hr)|(Hno&Hr)]; [left|right].
    + split; [|exact Hr]. split_and!; [lia|done|done].
    + split; [tauto|exact Hr].
  - destruct (buyGas_spec gp s v Hs) as [(Ha&Hb&Hr)|(Hno&Hr)]; [left|right]; (split; [|exact Hr]).
    + by split_and!.
    + tauto.
Qed.

Lemma useGas_spec gp g i s gas :
  useGas gas (mkTransition gp g i s)
  = if bool_decide (g < gas) then (Err "out of gas", mkTransition gp g i s : Transition St)
    else (Ok tt, mkTransition gp (g - gas) i s).
Proof. unfold useGas. se_red. cbn. case_bool_decide; done. Qed.

(** ** In-shard transactions *)

(** The counters of the block. *)
Definition same_counters (v v' : view) : Prop :=
  v_gasUsed v' = v_gasUsed v ∧ (∀ t, v_fee v' t = v_fee v t) ∧ v_xlist v' = v_xlist v.

(** The EVM returns, with no more gas than it got, and leaves a state with the
    counters of the block as they were, where a failed call has moved nothing; or
    it panics in an expected way. *)
Definition evm_ok : Prop :=
  (∀ g s v, reads s v → 0 <= g <= msg_gas msg →
     match evm_Create from (msg_data msg) g (msg_value msg) (ContractAddress evm) s with
     | (Ok (_, left_, _), s') => 0 <= left_ <= g ∧ ∃ v', reads s' v' ∧ same_counters v v'
     | (Err _, _) => False
     | (Panic p, _) => may_panic p
     end)
  ∧ (∀ to g s v, msg_to msg = Some to → reads s v → 0 <= g <= msg_gas msg →
     match evm_Call from to (msg_data msg) g (msg_value msg) s with
     | (Ok (_, left_, vmerr), s') =>
         0 <= left_ <= g ∧ ∃ v', reads s' v' ∧ same_counters v v' ∧ (vmerr ≠ None → ∀ a t, v_bal v' a t = v_bal v a t)
     | (Err _, _) => False
     | (Panic p, _) => may_panic p
     end).

(** How the EVM was entered with [g] gas from a message prepaid in [v]: a
    creation, a call after the nonce was counted up, or a sender held back by
    its stake, whose gas is gone. *)
Inductive ran (v : view) (g : Z) : list Z * Z * option VMError → view → St → Prop :=
| ran_create s1 out s2 v2 :
    msg_to msg = None ∨ is_Some (ContractAddress evm) → reads s1 (prepaid v) →
    evm_Create from (msg_data msg) g (msg_value msg) (ContractAddress evm) s1 = (Ok out, s2) →
    reads s2 v2 → same_counters v v2 → ran v g out v2 s2
| ran_call to s1 out s2 v2 :
    msg_to msg = Some to → ContractAddress evm = None → reads s1 (bumped_nonce (prepaid v)) →
    blocked (bumped_nonce (prepaid v)) = false →
    evm_Call from to (msg_data msg) g (msg_value msg) s1 = (Ok out, s2) →
    (out.2 ≠ None → ∀ a t, v_bal v2 a t = v_bal (prepaid v) a t) →
    reads s2 v2 → same_counters v v2 → ran v g out v2 s2
| ran_blocked to s2 :
    msg_to msg = Some to → ContractAddress evm = None → reads s2 (bumped_nonce (prepaid v)) →
    blocked (bumped_nonce (prepaid v)) = true →
    ran v g ([], 0, Some ErrPoSWSenderNotAllowed) (bumped_nonce (prepaid v)) s2.

Lemma ran_reads v g out v2 s2 : ran v g out v2 s2 → reads s2 v2.
Proof. by destruct 1. Qed.
Lemma ran_counters v g out v2 s2 : ran v g out v2 s2 → same_counters v v2.
Proof. by destruct 1. Qed.

Abbreviation run := (TransitionDb params config evm msg evm_Create evm_Call CreateAddress).
Abbreviation intrinsic_gas :=
  (intrinsic params (msg_data msg) (bool_decide (msg_to msg = None)) (msg_isCrossShard msg)).

(** The part of TransitionDb after the EVM. *)
Definition finish (ret : list Z) (vmerr : option VMError) : SE (Transition St) (list Z * Z * bool) :=
  match vmerr with
  | Some ErrInsufficientBalance => se_err "insufficient balance for transfer"
  | _ =>
      _ ← refundGas config msg vmerr;
      st ← se_get;
      _ ← chargeFee config evm msg (gas_used st);
      match vmerr with
      | Some ErrPoSWSenderNotAllowed => mret ([], gas_used st, true)
      | Some _ => mret (ret, gas_used st, true)
      | None => mret (ret, gas_used st, false)
      end
  end.

Lemma finish_spec ret vmerr gp left_ s2 v2 :
  reads s2 v2 → 0 <= left_ <= msg_gas msg → msg_gas msg <= gp → gp <= max_u64 →
  vmerr ≠ Some ErrInsufficientBalance →
  let g' := refunded_gas vmerr (msg_gas msg) left_ v2 in
  let used := msg_gas msg - g' in
  ∃ ret' s', finish ret vmerr (mkTransition (gp - msg_gas msg) left_ (msg_gas msg) s2)
    = (Ok (ret', used, bool_decide (is_Some vmerr)), mkTransition (gp - used) g' (msg_gas msg) s')
    ∧ reads s' (charged used used (refunded (g' * price) (with_refund 0 v2))).
Proof.
  intros Hs2 Hleft Hgp Hmax Hne g' used. pose proof (gas_range Hsen) as Hg.
  pose proof (refunded_gas_bounds vmerr (msg_gas msg) left_ v2 s2 Hs2 Hleft) as Hg'. fold g' in Hg'.
  destruct (refundGas_spec vmerr (gp - msg_gas msg) left_ (msg_gas msg) s2 v2 Hs2 Hleft)
    as (s3&Heq3&Hs3); [lia|lia|lia|]. fold g' in Heq3, Hs3.
  destruct (chargeFee_spec (gp - msg_gas msg + g') g' (msg_gas msg) s3 _ used Hs3) as (s4&Heq4&Hs4);
    [unfold used; lia|lia|lia|].
  assert (gas_used (mkTransition (gp - msg_gas msg + g') g' (msg_gas msg) s3) = used) as Hu
    by (unfold gas_used, used; cbn; apply u64_id; unfold in_u64; lia).
  replace (gp - used) with (gp - msg_gas msg + g') by (unfold used; lia).
  unfold finish. se_red.
  destruct vmerr as [[| | | |e]|]; [done|..]; rewrite Heq3, Hu, Heq4; by eexists _, s4.
Qed.

Lemma run_in_shard_spec gp s v :
  evm_ok → IsApplyXShard evm = false → msg_isCrossShard msg = false → reads s v → 0 <= gp <= max_u64 →
  (¬ admitted gp v ∧ ∃ e s', run (mkTransition gp 0 0 s) = (Err e, mkTransition gp 0 0 s') ∧ reads s' v)
  ∨ (admitted gp v ∧ msg_gas msg < intrinsic_gas ∧ ∃ s', run (mkTransition gp 0 0 s)
       = (Err "out of gas", mkTransition (gp - msg_gas msg) (msg_gas msg) (msg_gas msg) s')
       ∧ reads s' (prepaid v))
  ∨ (admitted gp v ∧ intrinsic_gas <= msg_gas msg ∧
     ∃ p st', may_panic p ∧ run (mkTransition gp 0 0 s) = (Panic p, st'))
  ∨ (admitted gp v ∧ intrinsic_gas <= msg_gas msg ∧
     ∃ ret left_ vmerr v2 s2, ran v (msg_gas msg - intrinsic_gas) (ret, left_, vmerr) v2 s2
       ∧ 0 <= left_ <= msg_gas msg - intrinsic_gas
       ∧ run (mkTransition gp 0 0 s)
         = finish ret vmerr (mkTransition (gp - msg_gas msg) left_ (msg_gas msg) s2)).
Proof.
  intros Hevm Hx Hc Hs Hgp. unfold TransitionDb. rewrite Hx.
  destruct (IntrinsicGas_value params (msg_data msg) (bool_decide (msg_to msg = None)) (msg_isCrossShard msg)
              (params_wf Hsen) (data_len Hsen)) as [Hig Hib]. se_red.
  destruct (preCheck_spec gp s v Hs) as [(Hadm&s1&Heq1&Hs1)|(Hno&e&s1&Heq1&Hs1)]; rewrite Heq1.
  2: { left. split; [done|]. by eexists _, s1. }
  right. rewrite Hig, useGas_spec.
  destruct (bool_decide (msg_gas msg < intrinsic_gas)) eqn:Hlt;
    [left; apply bool_decide_eq_true in Hlt|right; apply bool_decide_eq_false in Hlt].
  { split_and!; [done|done|]. by exists s1. }
  set (g := msg_gas msg - intrinsic_gas).
  assert (0 <= g <= msg_gas msg) as Hg by (unfold g; lia).
  assert (intrinsic_gas <= msg_gas msg) as Hle by lia. rewrite Hc in Hle |- *.
  destruct (bool_decide (msg_to msg = None) || bool_decide (is_Some (ContractAddress evm))) eqn:Hcase.
  - pose proof (proj1 Hevm g s1 _ Hs1 Hg) as Hok.
    destruct (evm_Create _ _ _ _ _ s1) as [[[[ret left_] vmerr]|er|p] s2] eqn:Hev; [|done|].
    2: { left. split_and!; [done|done|]. eexists p, _. split; [done|]. by rewrite (on_state_run _ _ _ _ _ _ _ Hev). }
    right. split_and!; [done|done|]. destruct Hok as [Hleft (v2&Hs2&Hcnt)].
    rewrite (on_state_run _ _ _ _ _ _ _ Hev).
    exists ret, left_, vmerr, v2, s2. split; [|done]. eapply ran_create; [|done..].
    apply orb_true_iff in Hcase as [Ht%bool_decide_eq_true|Ht%bool_decide_eq_true]; auto.
  - apply orb_false_iff in Hcase as [Ht Hca]. apply bool_decide_eq_false in Ht, Hca.
    destruct (msg_to msg) as [to|] eqn:Hto; [|done].
    assert (ContractAddress evm = None) as Hca' by (by apply eq_None_not_Some).
    destruct (bump_nonce_spec (gp - msg_gas msg) g (msg_gas msg) s1 _ Hs1) as (s2&Heq2&Hs2).
    se_red_in Heq2. rewrite Heq2.
    destruct (posw_check_spec (gp - msg_gas msg) g (msg_gas msg) s2 _ Hs2) as (s3&Heq3&Hs3). rewrite Heq3.
    destruct (blocked (bumped_nonce (prepaid v))) eqn:Hbl.
    { right. split_and!; [done|done|].
      exists [], 0, (Some ErrPoSWSenderNotAllowed), (bumped_nonce (prepaid v)), s3.
      split_and!; [by eapply ran_blocked|lia|lia|done]. }
    pose proof (proj2 Hevm to g s3 _ Hto Hs3 Hg) as Hok. cbn [default from_option id].
    destruct (evm_Call _ _ _ _ _ s3) as [[[[ret left_] vmerr]|er|p] s4] eqn:Hev; [|done|].
    2: { left. split_and!; [done|done|]. eexists p, _. split; [done|]. by rewrite (on_state_run _ _ _ _ _ _ _ Hev). }
    right. split_and!; [done|done|]. destruct Hok as [Hleft (v4&Hs4&Hcnt&Hbal)].
    rewrite (on_state_run _ _ _ _ _ _ _ Hev).
    exists ret, left_, vmerr, v4, s4. split; [|done]. by eapply ran_call.
Qed.

Lemma used_positive vmerr left_ v2 s2 :
  reads s2 v2 → 0 <= left_ <= msg_gas msg - intrinsic_gas → 0 < intrinsic_gas →
  0 < msg_gas msg - refunded_gas vmerr (msg_gas msg) left_ v2 <= msg_gas msg.
Proof.
  intros Hs2 Hleft Hib. unfold refunded_gas. destruct (reads_bounds s2 v2 Hs2) as [Hr _]. destruct vmerr; [lia|].
  pose proof (Z.div_lt (msg_gas msg - left_) 2 ltac:(lia) ltac:(lia)).
  pose proof (Z.div_pos (msg_gas msg - left_) 2 ltac:(lia) ltac:(lia)). lia.
Qed.

(** C3: a transaction of one shard, on every branch.  If its nonce, its balance
    for the gas or the gas left in the block do not admit it, it fails and
    nothing changed; if its gas does not cover the intrinsic gas it fails with
    the prepayment taken; otherwise it panics only if the EVM does, and the EVM
    runs once, on the prepaid state with
    the nonce counted up for a call, with exactly the gas above the intrinsic
    gas; only a call of a sender held back by its stake does not enter the EVM:
    its nonce is counted up and its gas is gone.  When the EVM reports that the balance does not cover the transfer the
    transition fails and keeps the prepayment, the nonce and the block's gas.
    In every other case it succeeds: the unused gas, with the refund counter up
    to half of the gas used, is paid back to the sender and to the block's
    pool, the refund counter is reset, and the coinbase, the block fee and the
    block's gas counter get the fee of the gas used. *)
Theorem TransitionDb_in_shard gp s v :
  evm_ok → IsApplyXShard evm = false → msg_isCrossShard msg = false → reads s v → 0 <= gp <= max_u64 →
  (¬ admitted gp v ∧ ∃ e s', run (mkTransition gp 0 0 s) = (Err e, mkTransition gp 0 0 s') ∧ reads s' v)
  ∨ (admitted gp v ∧ msg_gas msg < intrinsic_gas ∧ ∃ s', run (mkTransition gp 0 0 s)
       = (Err "out of gas", mkTransition (gp - msg_gas msg) (msg_gas msg) (msg_gas msg) s')
       ∧ reads s' (prepaid v))
  ∨ (admitted gp v ∧ intrinsic_gas <= msg_gas msg ∧
     ∃ p st', may_panic p ∧ run (mkTransition gp 0 0 s) = (Panic p, st'))
  ∨ (admitted gp v ∧ intrinsic_gas <= msg_gas msg ∧
     ∃ ret left_ vmerr v2 s2, ran v (msg_gas msg - intrinsic_gas) (ret, left_, vmerr) v2 s2
       ∧ 0 <= left_ <= msg_gas msg - intrinsic_gas
       ∧ ((vmerr = Some ErrInsufficientBalance ∧
             run (mkTransition gp 0 0 s) = (Err "insufficient balance for transfer",
                mkTransition (gp - msg_gas msg) left_ (msg_gas msg) s2) ∧ reads s2 v2)
          ∨ (vmerr ≠ Some ErrInsufficientBalance ∧
             let g' := refunded_gas vmerr (msg_gas msg) left_ v2 in
             let used := msg_gas msg - g' in
             0 < used <= msg_gas msg ∧
             ∃ ret' s', run (mkTransition gp 0 0 s)
               = (Ok (ret', used, bool_decide (is_Some vmerr)), mkTransition (gp - used) g' (msg_gas msg) s')
               ∧ reads s' (charged used used (refunded (g' * price) (with_refund 0 v2)))))).
Proof.
  intros Hevm Hx Hc Hs Hgp.
  destruct (run_in_shard_spec gp s v Hevm Hx Hc Hs Hgp)
    as [Hno|[Hog|[Hp|(Hadm&Hint&ret&left_&vmerr&v2&s2&Hran&Hleft&Hrun)]]]; [by auto..|].
  right; right; right. split_and!; [done|done|]. exists ret, left_, vmerr, v2, s2. split_and!; [done|lia|lia|].
  pose proof (ran_reads _ _ _ _ _ Hran) as Hs2. destruct Hadm as (_&_&Hpool).
  destruct (decide (vmerr = Some ErrInsufficientBalance)) as [->|Hne]; [by left|right].
  destruct (IntrinsicGas_value params (msg_data msg) (bool_decide (msg_to msg = None)) (msg_isCrossShard msg)
              (params_wf Hsen) (data_len Hsen)) as [_ Hib].
  split; [done|]. cbn zeta. rewrite Hrun. split.
  - apply (used_positive vmerr left_ v2 s2 Hs2); lia.
  - apply finish_spec; [done|lia|done|lia|done].
Qed.

(** ** Supply *)

Definition total (A : list Z) (t : Z) (v : view) : Z := foldr Z.add 0 ((fun a => v_bal v a t) <$> A).

Lemma total_add_bal A a t x t' v :
  NoDup A → a ∈ A → total A t' (add_bal a t x v) = total A t' v + if decide (t' = t) then x else 0.
Proof.
  intros HA Ha. unfold total.
  assert (∀ A, a ∉ A → foldr Z.add 0 ((fun a' => v_bal (add_bal a t x v) a' t') <$> A)
            = foldr Z.add 0 ((fun a' => v_bal v a' t') <$> A)) as Hout.
  { induction A0 as [|b A0 IH]; [done|]. intros [Hb Hn]%not_elem_of_cons.
    rewrite !fmap_cons. cbn [foldr]. rewrite IH by done. cbn. rewrite decide_False by naive_solver. lia. }
  induction A as [|b A IH]; [by apply not_elem_of_nil in Ha|].
  apply NoDup_cons in HA as [Hb HA]. rewrite !fmap_cons. cbn [foldr].
  destruct (decide (a = b)) as [->|Hne].
  - rewrite Hout by done. cbn. destruct (decide (t' = t));
      [rewrite decide_True by done|rewrite decide_False by naive_solver]; lia.
  - apply elem_of_cons in Ha as [?|Ha]; [done|]. rewrite (IH HA Ha). cbn.
    rewrite (decide_False (P := b = a ∧ _)) by naive_solver. lia.
Qed.

Lemma total_same_bal A t v v' : (∀ a, v_bal v a t = v_bal v' a t) → total A t v = total A t v'.
Proof. intros Hv. unfold total. f_equal. apply list_fmap_ext. intros i a _. apply Hv. Qed.

Lemma total_refunded A t x v :
  NoDup A → from ∈ A → 0 ∈ A → total A t (refunded x v) = total A t v + if decide (t = token) then x else 0.
Proof.
  intros HA Hf H0'. unfold refunded. case_bool_decide; [by rewrite total_add_bal|].
  cbn zeta. rewrite !total_add_bal by done. case_decide; lia.
Qed.

Lemma total_charged A t gas used v :
  NoDup A → Coinbase evm ∈ A →
  total A t (charged gas used v) = total A t v + if decide (t = token) then fee_of gas else 0.
Proof. intros HA Hc. unfold charged. by rewrite <- total_add_bal with (a := Coinbase evm). Qed.

(** What a transaction that succeeded went through. *)
Lemma run_success gp s v ret used failed st' :
  evm_ok → IsApplyXShard evm = false → msg_isCrossShard msg = false → reads s v → 0 <= gp <= max_u64 →
  run (mkTransition gp 0 0 s) = (Ok (ret, used, failed), st') →
  ∃ out v2 s2, ran v (msg_gas msg - intrinsic_gas) out v2 s2 ∧ failed = bool_decide (is_Some out.2)
    ∧ reads (st_state st') (charged used used (refunded ((msg_gas msg - used) * price) (with_refund 0 v2))).
Proof.
  intros Hevm Hx Hc Hs Hgp Hok.
  destruct (run_in_shard_spec gp s v Hevm Hx Hc Hs Hgp)
    as [(_&e&s'&He&_)|[(_&_&s'&He&_)|[(_&_&p&s'&_&He)|(Hadm&Hint&r&left_&vmerr&v2&s2&Hran&Hleft&Hrun)]]];
    [congruence..|].
  pose proof (ran_reads _ _ _ _ _ Hran) as Hs2. destruct Hadm as (_&_&Hpool).
  assert (vmerr ≠ Some ErrInsufficientBalance) as Hne
    by (intros ->; rewrite Hrun in Hok; done).
  destruct (IntrinsicGas_value params (msg_data msg) (bool_decide (msg_to msg = None)) (msg_isCrossShard msg)
              (params_wf Hsen) (data_len Hsen)) as [_ Hib].
  destruct (finish_spec r vmerr gp left_ s2 v2 Hs2 ltac:(lia) Hpool ltac:(lia) Hne) as (ret'&s'&Heq&Hs').
  rewrite Hrun, Heq in Hok. injection Hok as _ <- <- <-.
  eexists _, v2, s2. split_and!; [exact Hran|done|]. cbn [st_state].
  by replace (msg_gas msg - (msg_gas msg - _)) with (refunded_gas vmerr (msg_gas msg) left_ v2) by lia.
Qed.

(** And what it did to the pool and to the gas the block counts. *)
Lemma run_success_gas gp s v ret used failed st' :
  evm_ok → IsApplyXShard evm = false → msg_isCrossShard msg = false → reads s v → 0 <= gp <= max_u64 →
  run (mkTransition gp 0 0 s) = (Ok (ret, used, failed), st') →
  st_gp st' = gp - used ∧ 0 < used <= msg_gas msg ∧ msg_gas msg <= gp ∧
  ∃ v', reads (st_state st') v' ∧ v_gasUsed v' = v_gasUsed v + used.
Proof.
  intros Hevm Hx Hc Hs Hgp Hok.
  destruct (run_in_shard_spec gp s v Hevm Hx Hc Hs Hgp)
    as [(_&e&s'&He&_)|[(_&_&s'&He&_)|[(_&_&p&s'&_&He)|(Hadm&Hint&r&left_&vmerr&v2&s2&Hran&Hleft&Hrun)]]];
    [congruence..|].
  pose proof (ran_reads _ _ _ _ _ Hran) as Hs2. destruct (ran_counters _ _ _ _ _ Hran) as (Hcnt&_). destruct Hadm as (_&_&Hpool).
  assert (vmerr ≠ Some ErrInsufficientBalance) as Hne
    by (intros ->; rewrite Hrun in Hok; done).
  destruct (IntrinsicGas_value params (msg_data msg) (bool_decide (msg_to msg = None)) (msg_isCrossShard msg)
              (params_wf Hsen) (data_len Hsen)) as [_ Hib].
  destruct (finish_spec r vmerr gp left_ s2 v2 Hs2 ltac:(lia) Hpool ltac:(lia) Hne) as (ret'&s'&Heq&Hs').
  pose proof (used_positive vmerr left_ v2 s2 Hs2 ltac:(lia) ltac:(lia)) as Hused.
  rewrite Hrun, Heq in Hok. injection Hok as _ <- <- <-. split_and!; [done|lia|lia|done|].
  eexists. split; [exact Hs'|]. unfold charged, refunded. rewrite <- Hcnt.
  destruct (bool_decide (msg_refundRate msg = 100)), (bool_decide (EnableEvmTimeStamp config <= TimeStamp config)); cbn; lia.
Qed.

(** C7: the supply of every token across a transaction of one shard whose gas
    is paid in the default token: over any list of accounts that holds the
    sender, the coinbase and the zero address, the total changes by what the
    EVM itself changed, minus, for the default token, the part of the price of
    the used gas that the fee rate does not give the coinbase.  Prepayment,
    refund, burnt refund and fee create nothing. *)
Theorem in_shard_supply gp s v A t ret used failed st' :
  evm_ok → IsApplyXShard evm = false → msg_isCrossShard msg = false → reads s v → 0 <= gp <= max_u64 →
  ctx_GasTokenID evm = token → GasPriceInGasToken evm = price →
  NoDup A → from ∈ A → Coinbase evm ∈ A → 0 ∈ A →
  run (mkTransition gp 0 0 s) = (Ok (ret, used, failed), st') →
  ∃ out v2 s2 v', ran v (msg_gas msg - intrinsic_gas) out v2 s2 ∧ reads (st_state st') v'
    ∧ total A t v' - total A t v
      = (total A t v2 - total A t (prepaid v))
        - (if decide (t = token) then used * price - fee_of used else 0).
Proof.
  intros Hevm Hx Hc Hs Hgp Htok Hprice HA Hf Hcb Hz Hok.
  destruct (run_success gp s v ret used failed st' Hevm Hx Hc Hs Hgp Hok) as (out&v2&s2&Hran&_&Hs').
  eexists out, v2, s2, _. split_and!; [exact Hran|exact Hs'|].
  rewrite total_charged, total_refunded, (total_same_bal A t (with_refund 0 v2) v2) by done.
  unfold prepaid. rewrite total_add_bal, Htok, Hprice by done. case_decide; nia.
Qed.

(** What is paid back for the gas left: to the sender, and to the zero address. *)
Definition sender_share (used : Z) : Z := (msg_gas msg - used) * price * msg_refundRate msg / 100.
Definition burnt_share (used : Z) : Z := (msg_gas msg - used) * price - sender_share used.

Lemma refunded_bal used v a t :
  v_bal (refunded ((msg_gas msg - used) * price) v) a t = v_bal v a t
    + (if decide (a = from ∧ t = token) then sender_share used else 0)
    + (if decide (a = 0 ∧ t = token) then burnt_share used else 0).
Proof.
  unfold refunded, burnt_share. set (x := (msg_gas msg - used) * price). case_bool_decide as Hr.
  - assert (sender_share used = x) as -> by (unfold sender_share; fold x; rewrite Hr; by apply Z.div_mul).
    cbn. repeat case_decide; lia.
  - unfold sender_share. fold x. cbn. repeat case_decide; lia.
Qed.

(** A call that fails costs its gas and nothing else. *)
Lemma failed_call_balances gp s v to ret used st' :
  evm_ok → IsApplyXShard evm = false → msg_isCrossShard msg = false →
  msg_to msg = Some to → ContractAddress evm = None → reads s v → 0 <= gp <= max_u64 →
  run (mkTransition gp 0 0 s) = (Ok (ret, used, true), st') →
  ∃ v', reads (st_state st') v' ∧ ∀ a t,
    v_bal v' a t = v_bal v a t
      - (if decide (a = from ∧ t = ctx_GasTokenID evm) then msg_gas msg * GasPriceInGasToken evm else 0)
      + (if decide (a = from ∧ t = token) then sender_share used else 0)
      + (if decide (a = 0 ∧ t = token) then burnt_share used else 0)
      + (if decide (a = Coinbase evm ∧ t = token) then fee_of used else 0).
Proof.
  intros Hevm Hx Hc Hto Hca Hs Hgp Hok.
  destruct (run_success gp s v ret used true st' Hevm Hx Hc Hs Hgp Hok) as (out&v2&s2&Hran&Hfail&Hs').
  symmetry in Hfail. apply bool_decide_eq_true in Hfail.
  eexists. split; [exact Hs'|]. intros a t.
  assert (v_bal v2 a t = v_bal (prepaid v) a t) as Hv2.
  { destruct Hran as [s1 out s2 v2 Hn|to' s1 out s2 v2 ? ? ? ? ? Hsame|]; [|rewrite Hsame|]; [|done| |done].
    - exfalso. destruct Hn as [Hn|Hn]; [congruence|]. rewrite Hca in Hn. by apply is_Some_None in Hn.
    - intros Hn. rewrite Hn in Hfail. by apply is_Some_None in Hfail. }
  change (v_bal (charged used used ?w) a t) with (v_bal (add_bal (Coinbase evm) token (fee_of used) w) a t).
  cbn [v_bal add_bal]. rewrite refunded_bal. cbn [v_bal with_refund]. rewrite Hv2. unfold prepaid. cbn. repeat case_decide; lia.
Qed.

(** ** Cross-shard transactions *)

(** The gas the other shard gets to run the transaction with. *)
Definition reserved_gas : Z :=
  if bool_decide (msg_to msg = None) || bool_decide (EnableEvmTimeStamp config <= TimeStamp config)
  then msg_gas msg - intrinsic_gas else 0.

(** The deposit of a message whose sender has nonce [n] by now. *)
Definition sent_deposit (n : Z) : Deposit :=
  match msg_to msg with
  | None => make_deposit config msg (CreateAddress from (msg_fromFullShardKey msg) n) reserved_gas true
  | Some to => make_deposit config msg to reserved_gas false
  end.

(** The state after the value has left and the deposit is listed. *)
Definition deposited (v : view) : view :=
  add_deposit (sent_deposit (v_nonce v from))
    (add_bal from (msg_transferTokenID msg) (- msg_value msg) v).

Abbreviation deposit_tx := (AddCrossShardTxDeposit config evm msg CreateAddress).

(** The end of a deposit: refund, fee, and the gas the block counts. *)
Lemma settle_spec gp g s v gasRemained fee_gas (failed : bool) :
  reads s v → 0 <= gasRemained → 0 <= fee_gas → 0 <= g <= msg_gas msg →
  let v' := charged fee_gas (msg_gas msg - g) (refunded (gasRemained * price) v) in
  ∃ s', (_ ← refund config msg (gasRemained * price); _ ← chargeFee config evm msg fee_gas;
         used ← on_state GetGasUsed; mret ([] : list Z, u64 used, failed)) (mkTransition gp g (msg_gas msg) s)
    = (Ok ([], u64 (v_gasUsed v'), failed), mkTransition gp g (msg_gas msg) s') ∧ reads s' v'.
Proof.
  intros Hs Hr Hf Hg v'. pose proof (price_pos Hsen) as Hp. pose proof (gas_range Hsen) as Hgas.
  destruct (refund_spec gp g (msg_gas msg) s v (gasRemained * price) Hs ltac:(nia)) as (s1&Heq1&Hs1).
  destruct (chargeFee_spec gp g (msg_gas msg) s1 _ fee_gas Hs1 Hf Hg ltac:(lia)) as (s2&Heq2&Hs2).
  destruct (reads_gasUsed s2 _ Hs2) as (s3&Heq3&Hs3). exists s3. split; [|done].
  se_red. rewrite Heq1, Heq2. by rewrite (on_state_run _ _ _ _ _ _ _ Heq3).
Qed.

(** Sending the value away. *)
Lemma send_spec gp g i s v :
  reads s v → msg_value msg <= v_bal v from (msg_transferTokenID msg) → intrinsic_gas <= msg_gas msg →
  0 < intrinsic_gas →
  ∃ s', send_deposit config msg CreateAddress intrinsic_gas (mkTransition gp g i s)
    = (Ok (reserved_gas, false), mkTransition gp g i s') ∧ reads s' (deposited v).
Proof.
  intros Hs Hv Hint Hpos. pose proof (value_pos Hsen) as Hv0. pose proof (gas_range Hsen) as Hgas.
  destruct (sub_balance s v from (msg_value msg) (msg_transferTokenID msg) Hs ltac:(lia)) as (s1&Heq1&Hs1).
  assert (u64 (msg_gas msg - intrinsic_gas) = msg_gas msg - intrinsic_gas) as Hu
    by (apply u64_id; unfold in_u64; lia).
  assert (∀ to, bool_decide (Some to = @None Z) = false) as Hbd by done.
  assert (bool_decide (@None Z = None) = true) as Hbd' by done.
  unfold send_deposit, deposited, sent_deposit, reserved_gas in *.
  destruct (msg_to msg) as [to|]; rewrite ?Hbd, ?Hbd' in *; cbn [orb]; se_red;
    rewrite (on_state_run _ _ _ _ _ _ _ Heq1), Hu.
  - destruct (deposit_law s1 _ (make_deposit config msg to
      (if bool_decide (EnableEvmTimeStamp config <= TimeStamp config)
       then msg_gas msg - intrinsic params (msg_data msg) false (msg_isCrossShard msg)
       else 0) false) Hs1) as (s2&Heq2&Hs2).
    exists s2. by rewrite (on_state_run _ _ _ _ _ _ _ Heq2).
  - destruct (reads_nonce s1 _ from Hs1) as (s2&Heq2&Hs2). rewrite (on_state_run _ _ _ _ _ _ _ Heq2).
    destruct (deposit_law s2 _ (make_deposit config msg
      (CreateAddress from (msg_fromFullShardKey msg) (v_nonce v from))
      (msg_gas msg - intrinsic params (msg_data msg) true (msg_isCrossShard msg)) true) Hs2) as (s3&Heq3&Hs3).
    exists s3. cbn in Heq3 |- *. by rewrite (on_state_run _ _ _ _ _ _ _ Heq3).
Qed.

Lemma deposit_spec gp s v :
  msg_isCrossShard msg = true → reads s v → intrinsic_gas <= msg_gas msg →
  let st s' := mkTransition gp (msg_gas msg - intrinsic_gas) (msg_gas msg) s' in
  (v_bal v from (msg_transferTokenID msg) < msg_value msg ∧
     ∃ s', deposit_tx intrinsic_gas (st s) = (Err "insufficient balance for transfer", st s') ∧ reads s' v)
  ∨ (msg_value msg <= v_bal v from (msg_transferTokenID msg) ∧ blocked v = true ∧
     let v' := charged (msg_gas msg) (msg_gas msg) (refunded 0 v) in
     ∃ s', deposit_tx intrinsic_gas (st s)
       = (Ok ([], u64 (v_gasUsed v'), true), mkTransition gp 0 (msg_gas msg) s') ∧ reads s' v')
  ∨ (msg_value msg <= v_bal v from (msg_transferTokenID msg) ∧ blocked v = false ∧
     let v' := charged (intrinsic_gas - GtxxShardCost) intrinsic_gas
                 (refunded ((msg_gas msg - intrinsic_gas - reserved_gas) * price) (deposited v)) in
     ∃ s', deposit_tx intrinsic_gas (st s) = (Ok ([], u64 (v_gasUsed v'), false), st s') ∧ reads s' v').
Proof.
  intros Hcross Hs Hint st. pose proof (gas_range Hsen) as Hgas.
  destruct (IntrinsicGas_value params (msg_data msg) (bool_decide (msg_to msg = None)) (msg_isCrossShard msg)
              (params_wf Hsen) (data_len Hsen)) as [_ Hib].
  assert (GtxxShardCost <= intrinsic_gas) as Hcost.
  { pose proof (nonzero_bytes_bounds (msg_data msg)). destruct (params_wf Hsen) as (?&?&?&?).
    unfold intrinsic. rewrite Hcross. destruct (bool_decide (msg_to msg = None)); nia. }
  assert (0 <= reserved_gas <= msg_gas msg - intrinsic_gas) as Hres
    by (unfold reserved_gas; destruct (_ || _); lia).
  destruct (reads_balance s v from (msg_transferTokenID msg) Hs) as (s1&Heq1&Hs1).
  destruct (posw_check_spec gp (msg_gas msg - intrinsic_gas) (msg_gas msg) s1 v Hs1) as (s2&Heq2&Hs2).
  destruct (decide (v_bal v from (msg_transferTokenID msg) < msg_value msg)) as [Hb|Hb].
  { left. split; [done|]. exists s1. split; [|done]. unfold AddCrossShardTxDeposit, st. se_red.
    rewrite (on_state_run _ _ _ _ _ _ _ Heq1). by rewrite bool_decide_true by done. }
  right. assert (∃ r, deposit_tx intrinsic_gas (st s) = r) as [r Hr] by eauto. rewrite Hr.
  revert Hr. unfold AddCrossShardTxDeposit, st. se_red.
  rewrite (on_state_run _ _ _ _ _ _ _ Heq1), bool_decide_false, Heq2 by done.
  destruct (blocked v); intros <-; [left|right]; (split_and!; [lia|done|]).
  - destruct (settle_spec gp 0 s2 v 0 (msg_gas msg) true Hs2) as (s3&Heq3&Hs3); [lia..|].
    se_red_in Heq3. exists s3. split; [|by rewrite Z.sub_0_r in Hs3].
    unfold set_gas, gas_used. se_red. cbn [st_gas st_gp st_initialGas st_state].
    rewrite !Z.sub_0_r, (u64_id (msg_gas msg)), Z.sub_diag by done.
    change (u64 (u64 0)) with 0. rewrite Z.sub_0_r in Heq3. by rewrite Heq3.
  - destruct (send_spec gp (msg_gas msg - intrinsic_gas) (msg_gas msg) s2 v Hs2) as (s3&Heq3&Hs3); [lia..|].
    rewrite Heq3. unfold gas_used. cbn [st_gas st_gp st_initialGas st_state].
    replace (msg_gas msg - (msg_gas msg - intrinsic_gas)) with intrinsic_gas by lia.
    rewrite (u64_id intrinsic_gas), (u64_id (msg_gas msg - intrinsic_gas)),
      (u64_id (_ - reserved_gas)), (u64_id (intrinsic_gas - GtxxShardCost)) by (unfold in_u64, GtxxShardCost in *; lia).
    destruct (settle_spec gp (msg_gas msg - intrinsic_gas) s3 _ (msg_gas msg - intrinsic_gas - reserved_gas)
                (intrinsic_gas - GtxxShardCost) false Hs3) as (s4&Heq4&Hs4); [lia..|].
    replace (msg_gas msg - (msg_gas msg - intrinsic_gas)) with intrinsic_gas in Heq4, Hs4 by lia.
    se_red_in Heq4. exists s4. by rewrite Heq4.
Qed.

(** C8: a cross-shard transaction, on every branch.  As an in-shard one it is
    admitted or leaves the state alone, and must cover the intrinsic gas.  Then
    the nonce is counted up; a sender without the value fails with the
    prepayment taken; a sender held back by its stake pays for all its gas and
    sends nothing; otherwise exactly the value leaves the sender, one deposit
    with that value and the reserved gas is appended to the cross-shard list,
    the gas that is neither intrinsic nor reserved is refunded and the coinbase
    gets the fee of the intrinsic gas without the 9000 kept for the target
    shard.  The gas reported for the transaction is the gas the whole block has
    used so far. *)
Theorem TransitionDb_cross_shard gp s v :
  IsApplyXShard evm = false → msg_isCrossShard msg = true → reads s v →
  let v1 := bumped_nonce (prepaid v) in
  let st s' := mkTransition (gp - msg_gas msg) (msg_gas msg - intrinsic_gas) (msg_gas msg) s' in
  (¬ admitted gp v ∧ ∃ e s', run (mkTransition gp 0 0 s) = (Err e, mkTransition gp 0 0 s') ∧ reads s' v)
  ∨ (admitted gp v ∧ msg_gas msg < intrinsic_gas ∧ ∃ s', run (mkTransition gp 0 0 s)
       = (Err "out of gas", mkTransition (gp - msg_gas msg) (msg_gas msg) (msg_gas msg) s')
       ∧ reads s' (prepaid v))
  ∨ (admitted gp v ∧ intrinsic_gas <= msg_gas msg ∧ v_bal v1 from (msg_transferTokenID msg) < msg_value msg ∧
     ∃ s', run (mkTransition gp 0 0 s) = (Err "insufficient balance for transfer", st s') ∧ reads s' v1)
  ∨ (admitted gp v ∧ intrinsic_gas <= msg_gas msg ∧ msg_value msg <= v_bal v1 from (msg_transferTokenID msg) ∧
     blocked v1 = true ∧
     let v' := charged (msg_gas msg) (msg_gas msg) (refunded 0 v1) in
     ∃ s', run (mkTransition gp 0 0 s)
       = (Ok ([], u64 (v_gasUsed v'), true), mkTransition (gp - msg_gas msg) 0 (msg_gas msg) s') ∧ reads s' v')
  ∨ (admitted gp v ∧ intrinsic_gas <= msg_gas msg ∧ msg_value msg <= v_bal v1 from (msg_transferTokenID msg) ∧
     blocked v1 = false ∧
     let v' := charged (intrinsic_gas - GtxxShardCost) intrinsic_gas
                 (refunded ((msg_gas msg - intrinsic_gas - reserved_gas) * price) (deposited v1)) in
     ∃ s', run (mkTransition gp 0 0 s) = (Ok ([], u64 (v_gasUsed v'), false), st s') ∧ reads s' v').
Proof.
  intros Hx Hc Hs v1 st.
  assert (∃ r, run (mkTransition gp 0 0 s) = r) as [r Hr] by eauto. rewrite Hr. revert Hr.
  unfold TransitionDb. rewrite Hx.
  destruct (IntrinsicGas_value params (msg_data msg) (bool_decide (msg_to msg = None)) (msg_isCrossShard msg)
              (params_wf Hsen) (data_len Hsen)) as [Hig Hib]. se_red.
  destruct (preCheck_spec gp s v Hs) as [(Hadm&s1&Heq1&Hs1)|(Hno&e&s1&Heq1&Hs1)]; rewrite Heq1.
  2: { intros <-. left. split; [done|]. by eexists _, s1. }
  rewrite Hig, useGas_spec.
  destruct (bool_decide (msg_gas msg < intrinsic_gas)) eqn:Hlt.
  { apply bool_decide_eq_true in Hlt. intros <-. right; left. split_and!; [done|done|]. by exists s1. }
  apply bool_decide_eq_false in Hlt.
  assert (∀ A (a b : A), (if msg_isCrossShard msg then a else b) = a) as Hif by (intros; by rewrite Hc).
  rewrite Hif.
  destruct (bump_nonce_spec (gp - msg_gas msg) (msg_gas msg - intrinsic_gas) (msg_gas msg) s1 _ Hs1)
    as (s2&Heq2&Hs2). se_red_in Heq2.
  destruct (on_state (GetNonce from) _) as [[n| |] st2]; [|done..].
  destruct (on_state (SetNonce from (u64 (n + 1))) st2) as [[[]| |] st3]; [|done..]. injection Heq2 as ->.
  pose proof (deposit_spec (gp - msg_gas msg) s2 v1 Hc Hs2 ltac:(lia)) as Hdep. cbn zeta in Hdep.
  destruct Hdep as [(Hb&s3&Heq3&Hs3)|[(Hb&Hbl&s3&Heq3&Hs3)|(Hb&Hbl&s3&Heq3&Hs3)]];
    rewrite Heq3; intros <-; right; right.
  - left. split_and!; [done|lia|done|]. by exists s3.
  - right; left. split_and!; [done|lia|done|done|]. by exists s3.
  - right; right. split_and!; [done|lia|done|done|]. by exists s3.
Qed.
End correct.
