(* ===== verification/EvmBase.v ===== *)
(** * core/vm: words, stack, memory, code analysis and contracts

    Models src/core/vm/common.go, stack.go, stack_table.go, memory.go,
    memory_table.go, gas.go, analysis.go, opcodes.go and contract.go.  A word is
    a [Z] in [0, 2^256); addresses are numbers below 2^160 and hashes numbers
    below 2^256, so that BigToAddress and BigToHash are remainders.  The pool of
    big integers is not modelled: no two stack slots share an integer, so a
    slot is its value.  The cache of jump-destination analyses is not modelled
    either: the analysis is recomputed.  The helpers of go-ethereum's common and
    common/math are a class with their documented behaviour. *)

From S2P Require Import Prelude Utils.

Local Open Scope Z_scope.

(** ** go-ethereum's arithmetic helpers *)
Class EthMath := {
  U256 : Z → Z;
  S256 : Z → Z;
  SafeAdd : Z → Z → Z * bool;
  SafeMul : Z → Z → Z * bool;
  math_Exp : Z → Z → Z;
  math_Byte : Z → Z → Z;                      (* of a 32-byte word, from the left *)
  RightPadBytes : list Z → Z → list Z;
  LeftPadBytes : list Z → Z → list Z;
}.

Class EthMathLaws `{EthMath} := {
  U256_spec x : U256 x = x mod 2 ^ 256;
  S256_spec x : 0 <= x < 2 ^ 256 → S256 x = if bool_decide (x < 2 ^ 255) then x else x - 2 ^ 256;
  SafeAdd_spec x y : in_u64 x → in_u64 y → SafeAdd x y = (u64 (x + y), bool_decide (max_u64 < x + y));
  SafeMul_spec x y : in_u64 x → in_u64 y → SafeMul x y = (u64 (x * y), bool_decide (max_u64 < x * y));
  math_Exp_spec b e : 0 <= b → 0 <= e → math_Exp b e = (b ^ e) mod 2 ^ 256;
  math_Byte_spec w n : 0 <= w → 0 <= n < 32 → math_Byte w n = (w / 256 ^ (31 - n)) mod 256;
  RightPadBytes_spec b l : RightPadBytes b l = b ++ repeat 0 (Z.to_nat l - length b);
  LeftPadBytes_spec b l : LeftPadBytes b l = repeat 0 (Z.to_nat l - length b) ++ b;
}.

(** The behaviour the documentation gives. *)
#[export] Instance eth_math : EthMath := {|
  U256 x := x mod 2 ^ 256;
  S256 x := if bool_decide (x < 2 ^ 255) then x else x - 2 ^ 256;
  SafeAdd x y := (u64 (x + y), bool_decide (max_u64 < x + y));
  SafeMul x y := (u64 (x * y), bool_decide (max_u64 < x * y));
  math_Exp b e := Z.modulo (b ^ e) (2 ^ 256);
  math_Byte w n := (w / 256 ^ (31 - n)) mod 256;
  RightPadBytes b l := b ++ repeat 0 (Z.to_nat l - length b);
  LeftPadBytes b l := repeat 0 (Z.to_nat l - length b) ++ b;
|}.
#[export] Instance eth_math_laws : EthMathLaws.
Proof. by split. Qed.

Definition in_word (z : Z) : Prop := 0 <= z < 2 ^ 256.
Definition BigToAddress (z : Z) : Z := z mod 2 ^ 160.
Definition BigToHash (z : Z) : Z := z mod 2 ^ 256.

(** [data[s:e]], where both are ints. *)
Definition slice (data : list Z) (s e : Z) : result (list Z) :=
  if bool_decide (0 <= s ∧ s <= e ∧ e <= Z.of_nat (length data))
  then Ok (take (Z.to_nat (e - s)) (drop (Z.to_nat s) data))
  else Panic "slice bounds out of range".

Section base.
Context `{EthMath}.

(** ** common.go *)

Definition calcMemSize (off l : Z) : Z := if bool_decide (l = 0) then 0 else off + l.

Definition getData (data : list Z) (start size : Z) : result (list Z) :=
  let length := Z.of_nat (length data) in
  let start := if bool_decide (length < start) then length else start in
  let end_ := u64 (start + size) in
  let end_ := if bool_decide (length < end_) then length else end_ in
  d ← slice data start end_;
  Ok (RightPadBytes d (i64 size)).

Definition getDataBig (data : list Z) (start size : Z) : result (list Z) :=
  let dlen := Z.of_nat (length data) in
  let s := Z.min start dlen in
  let e := Z.min (s + size) dlen in
  d ← slice data s e;                 (* Uint64() of at most a length is exact *)
  Ok (RightPadBytes d (i64 (u64 size))).

Definition bigUint64 (v : Z) : Z * bool := (u64 v, bool_decide (64 < BitLen v)).

Definition toWordSize (size : Z) : Z :=
  if bool_decide (max_u64 - 31 < size) then max_u64 / 32 + 1 else (size + 31) / 32.

Definition allZero (b : list Z) : bool := forallb (fun x => bool_decide (x = 0)) b.

(** ** stack.go: the top of the stack is the head of the list *)

Definition pop (st : list Z) : result (Z * list Z) :=
  match st with
  | [] => Panic "index out of range"
  | x :: st => Ok (x, st)
  end.
Definition Back (st : list Z) (n : nat) : result Z :=
  match st !! n with
  | Some x => Ok x
  | None => Panic "index out of range"
  end.
(** [swap(n)] exchanges the top with the [n]th, [dup(n)] copies the [n]th, both from 1. *)
Definition swap (n : nat) (st : list Z) : result (list Z) :=
  match n with
  | O => Panic "index out of range"
  | S m => a ← Back st 0; b ← Back st m; Ok (<[m := a]> (<[O := b]> st))
  end.
Definition dup (n : nat) (st : list Z) : result (list Z) :=
  match n with
  | O => Panic "index out of range"
  | S m => a ← Back st m; Ok (a :: st)
  end.
Definition require (n : nat) (st : list Z) : result unit :=
  if bool_decide (length st < n)%nat then Err "stack underflow (%d <=> %d)" else Ok tt.

(** ** stack_table.go *)
Definition makeStackFunc (StackLimit : Z) (pop push : nat) (st : list Z) : result unit :=
  _ ← require pop st;
  if bool_decide (StackLimit < Z.of_nat (length st) + Z.of_nat push - Z.of_nat pop)
  then Err "stack limit reached %d (%d)" else Ok tt.

(** ** memory.go *)
Record Memory := mkMemory {
  store : list Z;
  lastGasCost : Z;
}.
Definition NewMemory : Memory := mkMemory [] 0.
Definition mem_Len (m : Memory) : Z := Z.of_nat (length (store m)).

(** [copy(dst[offset:offset+size], value)] *)
Definition copy_at (dst : list Z) (offset size : nat) (value : list Z) : list Z :=
  let n := Nat.min size (length value) in
  take offset dst ++ take n value ++ drop (offset + n) dst.

Definition mem_Set (offset size : Z) (value : list Z) (m : Memory) : result Memory :=
  if bool_decide (0 < size) then
    if bool_decide (mem_Len m < u64 (offset + size)) then Panic "invalid memory: store empty"
    else if bool_decide (u64 (offset + size) < offset) then Panic "slice bounds out of range"
    else Ok (mkMemory (copy_at (store m) (Z.to_nat offset) (Z.to_nat size) value) (lastGasCost m))
  else Ok m.

Definition mem_Set32 (offset val : Z) (m : Memory) : result Memory :=
  if bool_decide (mem_Len m < u64 (offset + 32)) then Panic "invalid memory: store empty"
  else if bool_decide (u64 (offset + 32) < offset) then Panic "slice bounds out of range"
  else Ok (mkMemory (copy_at (store m) (Z.to_nat offset) 32 (be_bytes 32 val)) (lastGasCost m)).

Definition mem_Resize (size : Z) (m : Memory) : Memory :=
  if bool_decide (mem_Len m < size)
  then mkMemory (store m ++ repeat 0 (Z.to_nat (size - mem_Len m))) (lastGasCost m) else m.

(** [Get] and [GetPtr] differ in aliasing only. *)
Definition mem_Get (offset size : Z) (m : Memory) : result (list Z) :=
  if bool_decide (size = 0) then Ok []
  else if bool_decide (offset < mem_Len m) then slice (store m) offset (i64 (offset + size))
  else Ok [].
Definition mem_GetPtr (offset size : Z) (m : Memory) : result (list Z) :=
  if bool_decide (size = 0) then Ok []
  else if bool_decide (offset < mem_Len m) then slice (store m) offset (i64 (offset + size))
  else Ok [].

(** ** memory_table.go *)
Definition mem_size_of (off len : nat) (st : list Z) : result Z :=
  o ← Back st off; l ← Back st len; Ok (calcMemSize o l).
Definition memorySha3 : list Z → result Z := mem_size_of 0 1.
Definition memoryCallDataCopy : list Z → result Z := mem_size_of 0 2.
Definition memoryReturnDataCopy : list Z → result Z := mem_size_of 0 2.
Definition memoryCodeCopy : list Z → result Z := mem_size_of 0 2.
Definition memoryExtCodeCopy : list Z → result Z := mem_size_of 1 3.
Definition memoryMLoad (st : list Z) : result Z := o ← Back st 0; Ok (calcMemSize o 32).
Definition memoryMStore8 (st : list Z) : result Z := o ← Back st 0; Ok (calcMemSize o 1).
Definition memoryMStore (st : list Z) : result Z := o ← Back st 0; Ok (calcMemSize o 32).
Definition memoryCreate : list Z → result Z := mem_size_of 1 2.
Definition memoryCreate2 : list Z → result Z := mem_size_of 1 2.
Definition memoryCall (st : list Z) : result Z :=
  x ← mem_size_of 5 6 st; y ← mem_size_of 3 4 st; Ok (Z.max x y).
Definition memoryDelegateCall (st : list Z) : result Z :=
  x ← mem_size_of 4 5 st; y ← mem_size_of 2 3 st; Ok (Z.max x y).
Definition memoryStaticCall (st : list Z) : result Z :=
  x ← mem_size_of 4 5 st; y ← mem_size_of 2 3 st; Ok (Z.max x y).
Definition memoryReturn : list Z → result Z := mem_size_of 0 1.
Definition memoryRevert : list Z → result Z := mem_size_of 0 1.
Definition memoryLog : list Z → result Z := mem_size_of 0 1.

(** ** gas.go *)
Definition GasQuickStep : Z := 2.
Definition GasFastestStep : Z := 3.
Definition GasFastStep : Z := 5.
Definition GasMidStep : Z := 8.
Definition GasSlowStep : Z := 10.
Definition GasExtStep : Z := 20.

(** go-ethereum's params.GasTable. *)
Record GasTable := mkGasTable {
  gt_ExtcodeSize : Z;
  gt_ExtcodeCopy : Z;
  gt_ExtcodeHash : Z;
  gt_Balance : Z;
  gt_SLoad : Z;
  gt_Calls : Z;
  gt_Suicide : Z;
  gt_ExpByte : Z;
  gt_CreateBySuicide : Z;
}.

Definition callGas (gasTable : GasTable) (availableGas base callCost : Z) : result Z :=
  let availableGas := if bool_decide (0 < gt_CreateBySuicide gasTable)
                      then u64 (availableGas - base) else availableGas in
  let gas := u64 (availableGas - availableGas / 64) in
  if bool_decide (0 < gt_CreateBySuicide gasTable)
     && (bool_decide (64 < BitLen callCost) || bool_decide (gas < u64 callCost))
  then Ok gas
  else if bool_decide (64 < BitLen callCost) then Err "gas uint64 overflow"
  else Ok (u64 callCost).

(** ** opcodes.go *)
Inductive OpCode :=
| STOP | ADD | MUL | SUB | DIV | SDIV | MOD | SMOD | ADDMOD | MULMOD | EXP | SIGNEXTEND
| LT | GT | SLT | SGT | EQ | ISZERO | AND | OR | XOR | NOT | BYTE | SHL | SHR | SAR
| SHA3
| ADDRESS | BALANCE | ORIGIN | CALLER | CALLVALUE | CALLDATALOAD | CALLDATASIZE | CALLDATACOPY
| CODESIZE | CODECOPY | GASPRICE | EXTCODESIZE | EXTCODECOPY | RETURNDATASIZE | RETURNDATACOPY
| EXTCODEHASH
| BLOCKHASH | COINBASE | TIMESTAMP | NUMBER | DIFFICULTY | GASLIMIT
| POP | MLOAD | MSTORE | MSTORE8 | SLOAD | SSTORE | JUMP | JUMPI | PC | MSIZE | GAS | JUMPDEST
| PUSH (n : nat)      (* PUSH1 .. PUSH32 *)
| DUP (n : nat)       (* DUP1 .. DUP16 *)
| SWAP (n : nat)      (* SWAP1 .. SWAP16 *)
| LOG (n : nat)       (* LOG0 .. LOG4 *)
| CREATE | CALL | CALLCODE | RETURN | DELEGATECALL | CREATE2 | STATICCALL | REVERT | SELFDESTRUCT
| UNKNOWN (b : Z).
#[export] Instance OpCode_eq_dec : EqDecision OpCode.
Proof. solve_decision. Defined.

Definition arith_ops : list OpCode :=
  [STOP; ADD; MUL; SUB; DIV; SDIV; MOD; SMOD; ADDMOD; MULMOD; EXP; SIGNEXTEND].
Definition compare_ops : list OpCode :=
  [LT; GT; SLT; SGT; EQ; ISZERO; AND; OR; XOR; NOT; BYTE; SHL; SHR; SAR].
Definition closure_ops : list OpCode :=
  [ADDRESS; BALANCE; ORIGIN; CALLER; CALLVALUE; CALLDATALOAD; CALLDATASIZE; CALLDATACOPY;
   CODESIZE; CODECOPY; GASPRICE; EXTCODESIZE; EXTCODECOPY; RETURNDATASIZE; RETURNDATACOPY;
   EXTCODEHASH].
Definition block_ops : list OpCode := [BLOCKHASH; COINBASE; TIMESTAMP; NUMBER; DIFFICULTY; GASLIMIT].
Definition storage_ops : list OpCode :=
  [POP; MLOAD; MSTORE; MSTORE8; SLOAD; SSTORE; JUMP; JUMPI; PC; MSIZE; GAS; JUMPDEST].
Definition call_ops : list OpCode := [CREATE; CALL; CALLCODE; RETURN; DELEGATECALL; CREATE2].

(** The opcode of a byte. *)
Definition OpCode_of (b : Z) : OpCode :=
  let at_ ops base := nth (Z.to_nat (b - base)) ops (UNKNOWN b) in
  if b <? 0x10 then at_ arith_ops 0
  else if b <? 0x20 then at_ compare_ops 0x10
  else if b =? 0x20 then SHA3
  else if b <? 0x30 then UNKNOWN b
  else if b <? 0x40 then at_ closure_ops 0x30
  else if b <? 0x50 then at_ block_ops 0x40
  else if b <? 0x60 then at_ storage_ops 0x50
  else if b <? 0x80 then PUSH (Z.to_nat (b - 0x60 + 1))
  else if b <? 0x90 then DUP (Z.to_nat (b - 0x80 + 1))
  else if b <? 0xa0 then SWAP (Z.to_nat (b - 0x90 + 1))
  else if b <? 0xa5 then LOG (Z.to_nat (b - 0xa0))
  else if b <? 0xf0 then UNKNOWN b
  else if b <? 0xf6 then at_ call_ops 0xf0
  else if b =? 0xfa then STATICCALL
  else if b =? 0xfd then REVERT
  else if b =? 0xff then SELFDESTRUCT
  else UNKNOWN b.

(** ** analysis.go: a bit vector is a list of bytes *)

Definition set_or (bits : list Z) (i : nat) (mask : Z) : result (list Z) :=
  match bits !! i with
  | None => Panic "index out of range"
  | Some b => Ok (<[i := Z.lor b mask]> bits)
  end.
Definition set1 (bits : list Z) (pos : Z) : result (list Z) :=
  set_or bits (Z.to_nat (pos / 8)) (Z.shiftr 0x80 (pos mod 8)).
Definition set8 (bits : list Z) (pos : Z) : result (list Z) :=
  bits ← set_or bits (Z.to_nat (pos / 8)) (Z.shiftr 0xFF (pos mod 8));
  set_or bits (Z.to_nat (pos / 8 + 1)) (u8 (Z.lnot (Z.shiftr 0xFF (pos mod 8)))).
Definition codeSegment (bits : list Z) (pos : Z) : result bool :=
  match bits !! Z.to_nat (pos / 8) with
  | None => Panic "index out of range"
  | Some b => Ok (bool_decide (Z.land b (Z.shiftr 0x80 (pos mod 8)) = 0))
  end.

(** The two inner loops: [n] operand bytes from [pc]. *)
Fixpoint set_many (n : nat) (bits : list Z) (pc : Z) : result (list Z * Z) :=
  match n with
  | O => Ok (bits, pc)
  | S n' => bits ← set1 bits pc; set_many n' bits (pc + 1)
  end.
Fixpoint set_eights (k : nat) (bits : list Z) (pc : Z) : result (list Z * Z) :=
  match k with
  | O => Ok (bits, pc)
  | S k' => bits ← set8 bits pc; set_eights k' bits (pc + 8)
  end.
Definition mark_push (numbits : nat) (bits : list Z) (pc : Z) : result (list Z * Z) :=
  r ← set_eights (numbits / 8)%nat bits pc;
  set_many (numbits mod 8)%nat r.1 r.2.

(** The main loop; it advances at every turn, so the length of the code bounds it. *)
Fixpoint bitmap_loop (fuel : nat) (code : list Z) (bits : list Z) (pc : Z) : result (list Z) :=
  match fuel with
  | O => Ok bits
  | S fuel' =>
      match code !! Z.to_nat pc with
      | None => Ok bits
      | Some b =>
          match OpCode_of b with
          | PUSH n => r ← mark_push n bits (pc + 1); bitmap_loop fuel' code r.1 r.2
          | _ => bitmap_loop fuel' code bits (pc + 1)
          end
      end
  end.
Definition codeBitmap (code : list Z) : result (list Z) :=
  bitmap_loop (length code) code (repeat 0 (length code / 8 + 1 + 4)) 0.

(** ** contract.go *)

(** Who calls: an account, or a running contract with its caller and value. *)
Inductive ContractRef :=
| AccountRef (a : Z)
| ContractOf (self callerAddress value : Z).
Definition ref_Address (r : ContractRef) : Z :=
  match r with AccountRef a => a | ContractOf a _ _ => a end.

Record Contract := mkContract {
  CallerAddress : Z;
  caller : ContractRef;
  self : Z;
  Code : list Z;
  CodeHash : Z;
  CodeAddr : option Z;
  Input : list Z;
  c_Gas : Z;
  c_value : Z;
  TokenIDQueried : bool;
  IsStaticCall : bool;
}.

Definition NewContract (caller : ContractRef) (object value gas : Z) : Contract :=
  mkContract (ref_Address caller) caller object [] 0 None [] gas value false false.
Definition with_gas (g : Z) (c : Contract) : Contract :=
  mkContract (CallerAddress c) (caller c) (self c) (Code c) (CodeHash c) (CodeAddr c) (Input c) g
    (c_value c) (TokenIDQueried c) (IsStaticCall c).
Definition with_input (i : list Z) (c : Contract) : Contract :=
  mkContract (CallerAddress c) (caller c) (self c) (Code c) (CodeHash c) (CodeAddr c) i (c_Gas c)
    (c_value c) (TokenIDQueried c) (IsStaticCall c).
Definition with_queried (c : Contract) : Contract :=
  mkContract (CallerAddress c) (caller c) (self c) (Code c) (CodeHash c) (CodeAddr c) (Input c) (c_Gas c)
    (c_value c) true (IsStaticCall c).
Definition SetCallCode (addr hash : Z) (code : list Z) (c : Contract) : Contract :=
  mkContract (CallerAddress c) (caller c) (self c) code hash (Some addr) (Input c) (c_Gas c)
    (c_value c) (TokenIDQueried c) (IsStaticCall c).
Definition SetIsStaticCall (b : bool) (c : Contract) : Contract :=
  mkContract (CallerAddress c) (caller c) (self c) (Code c) (CodeHash c) (CodeAddr c) (Input c) (c_Gas c)
    (c_value c) (TokenIDQueried c) b.
Definition AsDelegate (c : Contract) : result Contract :=
  match caller c with
  | AccountRef _ => Panic "interface conversion"
  | ContractOf _ callerAddress value =>
      Ok (mkContract callerAddress (caller c) (self c) (Code c) (CodeHash c) (CodeAddr c) (Input c)
            (c_Gas c) value (TokenIDQueried c) (IsStaticCall c))
  end.
(** The reference a running contract passes on. *)
Definition ref_of (c : Contract) : ContractRef := ContractOf (self c) (CallerAddress c) (c_value c).

Definition GetByte (c : Contract) (n : Z) : Z :=
  if bool_decide (n < Z.of_nat (length (Code c))) then Code c !!! Z.to_nat n else 0.
Definition GetOp (c : Contract) (n : Z) : OpCode := OpCode_of (GetByte c n).
Definition UseGas (gas : Z) (c : Contract) : bool * Contract :=
  if bool_decide (c_Gas c < gas) then (false, c) else (true, with_gas (c_Gas c - gas) c).

Definition validJumpdest (c : Contract) (dest : Z) : result bool :=
  let udest := u64 dest in
  if bool_decide (63 <= BitLen dest) || bool_decide (Z.of_nat (length (Code c)) <= udest) then Ok false
  else if negb (bool_decide (OpCode_of (Code c !!! Z.to_nat udest) = JUMPDEST)) then Ok false
  else bits ← codeBitmap (Code c); codeSegment bits udest.
End base.
