(* ===== verification/EvmAnalysis.v ===== *)
(** * core/vm: the jump-destination analysis is right

    The bit vector of src/core/vm/analysis.go against a reference that scans the
    code byte by byte. *)

From S2P Require Import Prelude Utils EvmBase.

Local Open Scope Z_scope.

(** Which bytes are operands of a push: [skip] operand bytes are due. *)
Fixpoint push_data (skip : nat) (code : list Z) : list bool :=
  match code with
  | [] => []
  | b :: rest =>
      match skip with
      | S k => true :: push_data k rest
      | O => false :: push_data (match OpCode_of b with PUSH n => n | _ => O end) rest
      end
  end.

(** The bit of a position. *)
Definition bit_at (bits : list Z) (q : Z) : bool :=
  Z.testbit (bits !!! Z.to_nat (q / 8)) (7 - q mod 8).

Lemma testbit_80 k i : 0 <= k < 8 → 0 <= i < 8 → Z.testbit (Z.shiftr 0x80 k) i = bool_decide (i = 7 - k).
Proof.
  intros Hk Hi.
  assert (k = 0 ∨ k = 1 ∨ k = 2 ∨ k = 3 ∨ k = 4 ∨ k = 5 ∨ k = 6 ∨ k = 7) as Hk' by lia.
  assert (i = 0 ∨ i = 1 ∨ i = 2 ∨ i = 3 ∨ i = 4 ∨ i = 5 ∨ i = 6 ∨ i = 7) as Hi' by lia.
  destruct_or! Hk'; subst k; destruct_or! Hi'; subst i; reflexivity.
Qed.
Lemma testbit_FF k i : 0 <= k < 8 → 0 <= i < 8 → Z.testbit (Z.shiftr 0xFF k) i = bool_decide (i <= 7 - k).
Proof.
  intros Hk Hi.
  assert (k = 0 ∨ k = 1 ∨ k = 2 ∨ k = 3 ∨ k = 4 ∨ k = 5 ∨ k = 6 ∨ k = 7) as Hk' by lia.
  assert (i = 0 ∨ i = 1 ∨ i = 2 ∨ i = 3 ∨ i = 4 ∨ i = 5 ∨ i = 6 ∨ i = 7) as Hi' by lia.
  destruct_or! Hk'; subst k; destruct_or! Hi'; subst i; reflexivity.
Qed.
Lemma testbit_not_FF k i :
  0 <= k < 8 → 0 <= i < 8 → Z.testbit (u8 (Z.lnot (Z.shiftr 0xFF k))) i = bool_decide (7 - k < i).
Proof.
  intros Hk Hi. unfold u8. rewrite Z.mod_pow2_bits_low, Z.lnot_spec, testbit_FF by lia.
  repeat case_bool_decide; lia || done.
Qed.

(** Or-ing a mask into a byte. *)
Lemma set_or_spec bits i mask :
  (i < length bits)%nat →
  ∃ bits', set_or bits i mask = Ok bits' ∧ length bits' = length bits ∧
    ∀ q, 0 <= q → bit_at bits' q
      = bit_at bits q || (bool_decide (Z.to_nat (q / 8) = i) && Z.testbit mask (7 - q mod 8)).
Proof.
  intros Hi. unfold set_or. destruct (lookup_lt_is_Some_2 bits i Hi) as [b Hb]. rewrite Hb.
  eexists. split; [done|]. split; [by rewrite length_insert|]. intros q Hq. unfold bit_at.
  pose proof (Z.mod_pos_bound q 8 ltac:(lia)). case_bool_decide as Hqi.
  - subst i. rewrite list_lookup_total_insert_eq by done. rewrite Z.lor_spec.
    by rewrite (list_lookup_total_correct _ _ _ Hb).
  - rewrite list_lookup_total_insert_ne by done. by rewrite orb_false_r.
Qed.

Lemma set1_spec bits pos :
  0 <= pos → (Z.to_nat (pos / 8) < length bits)%nat →
  ∃ bits', set1 bits pos = Ok bits' ∧ length bits' = length bits ∧
    ∀ q, 0 <= q → bit_at bits' q = bit_at bits q || bool_decide (q = pos).
Proof.
  intros Hp Hl. destruct (set_or_spec bits _ (Z.shiftr 0x80 (pos mod 8)) Hl) as (b&Heq&Hlen&Hb).
  exists b. split_and!; [done|done|]. intros q Hq. rewrite Hb by done. f_equal.
  pose proof (Z.mod_pos_bound q 8 ltac:(lia)). pose proof (Z.mod_pos_bound pos 8 ltac:(lia)).
  rewrite testbit_80 by lia.
  pose proof (Z.div_mod q 8 ltac:(lia)). pose proof (Z.div_mod pos 8 ltac:(lia)).
  pose proof (Z.div_pos q 8 ltac:(lia) ltac:(lia)). pose proof (Z.div_pos pos 8 ltac:(lia) ltac:(lia)).
  repeat case_bool_decide; try done; lia.
Qed.

Lemma set8_spec bits pos :
  0 <= pos → (Z.to_nat (pos / 8 + 1) < length bits)%nat →
  ∃ bits', set8 bits pos = Ok bits' ∧ length bits' = length bits ∧
    ∀ q, 0 <= q → bit_at bits' q = bit_at bits q || bool_decide (pos <= q < pos + 8).
Proof.
  intros Hp Hl. pose proof (Z.div_pos pos 8 ltac:(lia) ltac:(lia)).
  pose proof (Z.mod_pos_bound pos 8 ltac:(lia)) as Hm. unfold set8.
  destruct (set_or_spec bits (Z.to_nat (pos / 8)) (Z.shiftr 0xFF (pos mod 8)) ltac:(lia)) as (b1&Heq1&Hl1&Hb1).
  rewrite Heq1. cbn [mbind result_bind].
  destruct (set_or_spec b1 (Z.to_nat (pos / 8 + 1)) (u8 (Z.lnot (Z.shiftr 0xFF (pos mod 8)))) ltac:(lia))
    as (b2&Heq2&Hl2&Hb2).
  exists b2. split_and!; [done|congruence|]. intros q Hq. rewrite Hb2, Hb1 by done.
  pose proof (Z.mod_pos_bound q 8 ltac:(lia)). rewrite testbit_FF, testbit_not_FF by lia.
  pose proof (Z.div_mod q 8 ltac:(lia)). pose proof (Z.div_mod pos 8 ltac:(lia)).
  pose proof (Z.div_pos q 8 ltac:(lia) ltac:(lia)).
  destruct (bit_at bits q); [done|]. cbn [orb]. repeat case_bool_decide; try done; lia.
Qed.

Lemma set_many_spec n bits pc :
  0 <= pc → (Z.to_nat ((pc + Z.of_nat n) / 8) < length bits)%nat →
  ∃ bits', set_many n bits pc = Ok (bits', pc + Z.of_nat n) ∧ length bits' = length bits ∧
    ∀ q, 0 <= q → bit_at bits' q = bit_at bits q || bool_decide (pc <= q < pc + Z.of_nat n).
Proof.
  revert bits pc. induction n as [|n IH]; intros bits pc Hp Hl; cbn [set_many].
  - exists bits. replace (pc + Z.of_nat 0) with pc by lia. split_and!; [done|done|]. intros q Hq.
    by rewrite bool_decide_false, orb_false_r by lia.
  - destruct (set1_spec bits pc Hp) as (b1&Heq1&Hl1&Hb1).
    { assert (pc / 8 <= (pc + Z.of_nat (S n)) / 8) by (apply Z.div_le_mono; lia). lia. }
    rewrite Heq1. cbn [mbind result_bind].
    destruct (IH b1 (pc + 1) ltac:(lia)) as (b2&Heq2&Hl2&Hb2).
    { rewrite Hl1. by replace (pc + 1 + Z.of_nat n) with (pc + Z.of_nat (S n)) by lia. }
    exists b2. rewrite Heq2. split_and!; [do 2 f_equal; lia|congruence|].
    intros q Hq. rewrite Hb2, Hb1 by done. rewrite <- orb_assoc. f_equal.
    repeat case_bool_decide; try done; lia.
Qed.

Lemma set_eights_spec k bits pc :
  0 <= pc → (Z.to_nat ((pc + 8 * Z.of_nat k) / 8) < length bits)%nat →
  ∃ bits', set_eights k bits pc = Ok (bits', pc + 8 * Z.of_nat k) ∧ length bits' = length bits ∧
    ∀ q, 0 <= q → bit_at bits' q = bit_at bits q || bool_decide (pc <= q < pc + 8 * Z.of_nat k).
Proof.
  revert bits pc. induction k as [|k IH]; intros bits pc Hp Hl; cbn [set_eights].
  - exists bits. replace (pc + 8 * Z.of_nat 0) with pc by lia. split_and!; [done|done|]. intros q Hq.
    by rewrite bool_decide_false, orb_false_r by lia.
  - destruct (set8_spec bits pc Hp) as (b1&Heq1&Hl1&Hb1).
    { assert ((pc + 1 * 8) / 8 <= (pc + 8 * Z.of_nat (S k)) / 8) as Hle by (apply Z.div_le_mono; lia).
      rewrite Z.div_add in Hle by lia. lia. }
    rewrite Heq1. cbn [mbind result_bind].
    destruct (IH b1 (pc + 8) ltac:(lia)) as (b2&Heq2&Hl2&Hb2).
    { rewrite Hl1. by replace (pc + 8 + 8 * Z.of_nat k) with (pc + 8 * Z.of_nat (S k)) by lia. }
    exists b2. rewrite Heq2. split_and!; [do 2 f_equal; lia|congruence|].
    intros q Hq. rewrite Hb2, Hb1 by done. rewrite <- orb_assoc. f_equal.
    repeat case_bool_decide; try done; lia.
Qed.

(** The operands of a push are marked. *)
Lemma mark_push_spec n bits pc :
  0 <= pc → (Z.to_nat ((pc + Z.of_nat n) / 8) < length bits)%nat →
  ∃ bits', mark_push n bits pc = Ok (bits', pc + Z.of_nat n) ∧ length bits' = length bits ∧
    ∀ q, 0 <= q → bit_at bits' q = bit_at bits q || bool_decide (pc <= q < pc + Z.of_nat n).
Proof.
  intros Hp Hl. unfold mark_push. pose proof (Nat.div_mod_eq n 8) as Hn.
  destruct (set_eights_spec (n / 8)%nat bits pc Hp) as (b1&Heq1&Hl1&Hb1).
  { assert ((pc + 8 * Z.of_nat (n / 8)) / 8 <= (pc + Z.of_nat n) / 8) by (apply Z.div_le_mono; lia). lia. }
  rewrite Heq1. cbn [mbind result_bind fst snd].
  destruct (set_many_spec (n mod 8)%nat b1 (pc + 8 * Z.of_nat (n / 8)) ltac:(lia)) as (b2&Heq2&Hl2&Hb2).
  { rewrite Hl1. by replace (pc + 8 * Z.of_nat (n / 8) + Z.of_nat (n mod 8)) with (pc + Z.of_nat n) by lia. }
  exists b2. rewrite Heq2. split_and!; [do 2 f_equal; lia|congruence|].
  intros q Hq. rewrite Hb2, Hb1 by done. rewrite <- orb_assoc. f_equal.
  repeat case_bool_decide; try done; lia.
Qed.

Lemma OpCode_of_push b n : OpCode_of b = PUSH n → (1 ≤ n ≤ 32)%nat.
Proof.
  unfold OpCode_of. cbv zeta.
  assert (∀ ops k, (∀ m, PUSH m ∉ ops) → nth k ops (UNKNOWN b) ≠ PUSH n) as Hnth.
  { intros ops k Hops Hk. destruct (nth_in_or_default k ops (UNKNOWN b)) as [Hin|Hd]; [|congruence].
    rewrite Hk in Hin. apply (Hops n). by apply list_elem_of_In. }
  repeat (case_match; try (by intros ?); try (intros Hk; exfalso; eapply Hnth; [|exact Hk]; set_solver)).
  all: try (intros [= <-]; lia).
Qed.

Lemma push_data_skip k code :
  push_data k code = repeat true (Nat.min k (length code)) ++ push_data 0 (drop k code).
Proof.
  revert code. induction k as [|k IH]; intros [|b code]; cbn; [done..|].
  by rewrite IH.
Qed.

Lemma lookup_total_repeat {A} `{Inhabited A} (b : A) n i : (i < n)%nat → repeat b n !!! i = b.
Proof. revert i. induction n as [|n IH]; intros [|i] Hi; [lia..|done|]. apply IH. lia. Qed.

(** One byte of the reference. *)
Lemma push_data_0 code pc b :
  code !! pc = Some b →
  let n := match OpCode_of b with PUSH n => n | _ => O end in
  push_data 0 (drop pc code)
  = false :: repeat true (Nat.min n (length (drop (S pc) code))) ++ push_data 0 (drop (S pc + n) code).
Proof.
  intros Hb n. rewrite (drop_S _ _ _ Hb). cbn [push_data]. fold n. f_equal.
  rewrite push_data_skip, drop_drop. done.
Qed.

(** The bits of the reference from [pc] on. *)
Definition data_from (code : list Z) (pc : nat) (q : Z) : bool :=
  bool_decide (Z.of_nat pc <= q) && push_data 0 (drop pc code) !!! Z.to_nat (q - Z.of_nat pc).

Lemma data_from_step code pc b q :
  code !! pc = Some b → 0 <= q < Z.of_nat (length code) →
  let n := match OpCode_of b with PUSH n => n | _ => O end in
  data_from code pc q
  = bool_decide (Z.of_nat pc + 1 <= q < Z.of_nat pc + 1 + Z.of_nat n) || data_from code (S pc + n) q.
Proof.
  intros Hb Hq n. unfold data_from. rewrite (push_data_0 _ _ _ Hb). fold n.
  set (r := repeat true (Nat.min n (length (drop (S pc) code)))).
  assert (length r = Nat.min n (length code - S pc)) as Hlr
    by (unfold r; by rewrite repeat_length, length_drop).
  destruct (decide (q < Z.of_nat pc)) as [H1|H1].
  { by rewrite !bool_decide_false by lia. }
  rewrite (bool_decide_true (Z.of_nat pc <= q)) by lia. cbn [andb].
  destruct (decide (q = Z.of_nat pc)) as [->|H2].
  { rewrite Z.sub_diag. cbn. by rewrite !bool_decide_false by lia. }
  replace (Z.to_nat (q - Z.of_nat pc)) with (S (Z.to_nat (q - Z.of_nat pc - 1))) by lia.
  match goal with |- (_ :: ?l) !!! S ?i = _ => change ((false :: l) !!! S i) with (l !!! i) end.
  destruct (decide (q < Z.of_nat pc + 1 + Z.of_nat n)) as [H3|H3].
  - rewrite (bool_decide_true (_ ∧ _)) by lia. cbn [orb].
    rewrite lookup_total_app_l by lia. unfold r. apply lookup_total_repeat. rewrite length_drop. lia.
  - rewrite (bool_decide_false (_ ∧ _)), bool_decide_true by lia. cbn [orb andb].
    rewrite lookup_total_app_r by lia. f_equal. lia.
Qed.

Lemma bitmap_loop_spec fuel code bits pc :
  (length code - pc ≤ fuel)%nat → length bits = (length code / 8 + 5)%nat →
  ∃ bits', bitmap_loop fuel code bits (Z.of_nat pc) = Ok bits' ∧ length bits' = length bits ∧
    ∀ q, 0 <= q < Z.of_nat (length code) → bit_at bits' q = bit_at bits q || data_from code pc q.
Proof.
  revert bits pc. induction fuel as [|fuel IH]; intros bits pc Hfuel Hlen.
  - exists bits. split_and!; [done|done|]. intros q Hq. unfold data_from.
    by rewrite bool_decide_false, orb_false_r by lia.
  - cbn [bitmap_loop]. rewrite Nat2Z.id. destruct (code !! pc) as [b|] eqn:Hb.
    2: { apply lookup_ge_None in Hb. exists bits. split_and!; [done|done|]. intros q Hq. unfold data_from.
         by rewrite bool_decide_false, orb_false_r by lia. }
    pose proof (lookup_lt_Some _ _ _ Hb) as Hpc.
    assert ((∃ n, OpCode_of b = PUSH n) ∨ ¬ ∃ n, OpCode_of b = PUSH n) as [[n Hn]|Hn]
      by (destruct (OpCode_of b); try (right; by intros [? ?]); eauto).
    + rewrite Hn. pose proof (OpCode_of_push b n Hn) as Hn32.
      destruct (mark_push_spec n bits (Z.of_nat pc + 1) ltac:(lia)) as (b1&Heq1&Hl1&Hb1).
      { rewrite Hlen.
        assert ((Z.of_nat pc + 1 + Z.of_nat n) / 8 <= (Z.of_nat (length code) + 4 * 8) / 8) as Hle
          by (apply Z.div_le_mono; lia).
        rewrite Z.div_add in Hle by lia. rewrite Nat2Z.inj_lt, Z2Nat.id, Nat2Z.inj_add, Nat2Z.inj_div
          by (apply Z.div_pos; lia). lia. }
      rewrite Heq1. cbn [mbind result_bind fst snd].
      replace (Z.of_nat pc + 1 + Z.of_nat n) with (Z.of_nat (S pc + n)) by lia.
      destruct (IH b1 (S pc + n)%nat ltac:(lia) ltac:(lia)) as (b2&Heq2&Hl2&Hb2).
      exists b2. split_and!; [done|congruence|]. intros q Hq.
      rewrite Hb2, Hb1, (data_from_step _ _ _ _ Hb Hq), Hn by lia. by rewrite orb_assoc.
    + assert (match OpCode_of b with PUSH n => n | _ => O end = O) as Hz
        by (destruct (OpCode_of b); try done; exfalso; eauto).
      destruct (IH bits (S pc) ltac:(lia) Hlen) as (b2&Heq2&Hl2&Hb2).
      exists b2. split_and!; [|done|].
      * replace (Z.of_nat pc + 1) with (Z.of_nat (S pc)) by lia.
        destruct (OpCode_of b); try done. exfalso. eauto.
      * intros q Hq. rewrite Hb2 by done. rewrite (data_from_step _ _ _ _ Hb Hq), Hz, Nat.add_0_r.
        by rewrite bool_decide_false by lia.
Qed.

Lemma codeBitmap_spec code :
  ∃ bits, codeBitmap code = Ok bits ∧ length bits = (length code / 8 + 5)%nat ∧
    ∀ q, 0 <= q < Z.of_nat (length code) → bit_at bits q = push_data 0 code !!! Z.to_nat q.
Proof.
  unfold codeBitmap.
  destruct (bitmap_loop_spec (length code) code (repeat 0 (length code / 8 + 1 + 4)) 0) as (bits&Heq&Hl&Hb);
    [lia|rewrite repeat_length; lia|]. rewrite repeat_length in Hl.
  exists bits. split_and!; [done|lia|]. intros q Hq. rewrite Hb by done.
  assert (bit_at (repeat 0 (length code / 8 + 1 + 4)) q = false) as ->.
  { unfold bit_at. pose proof (Z.div_mod q 8 ltac:(lia)). pose proof (Z.mod_pos_bound q 8 ltac:(lia)).
    rewrite lookup_total_repeat; [apply Z.bits_0|].
    assert (q / 8 <= Z.of_nat (length code) / 8) by (apply Z.div_le_mono; lia).
    rewrite Nat2Z.inj_lt, Z2Nat.id, !Nat2Z.inj_add, Nat2Z.inj_div by (apply Z.div_pos; lia). lia. }
  cbn [orb]. unfold data_from. rewrite bool_decide_true, drop_0 by lia. cbn [andb]. f_equal. lia.
Qed.

Lemma codeSegment_spec bits q :
  0 <= q → (Z.to_nat (q / 8) < length bits)%nat → codeSegment bits q = Ok (negb (bit_at bits q)).
Proof.
  intros Hq Hl. unfold codeSegment, bit_at. destruct (lookup_lt_is_Some_2 bits _ Hl) as [b Hb].
  rewrite Hb, (list_lookup_total_correct _ _ _ Hb). f_equal.
  pose proof (Z.mod_pos_bound q 8 ltac:(lia)) as Hm. set (k := q mod 8) in *.
  assert (Z.land b (Z.shiftr 128 k) = 0 ↔ Z.testbit b (7 - k) = false) as Hiff.
  { assert (Z.shiftr 128 k = 2 ^ (7 - k)) as ->.
    { assert (k = 0 ∨ k = 1 ∨ k = 2 ∨ k = 3 ∨ k = 4 ∨ k = 5 ∨ k = 6 ∨ k = 7) as Hk by lia.
      destruct_or! Hk; by rewrite Hk. }
    split.
    - intros Hz. assert (Z.testbit (Z.land b (2 ^ (7 - k))) (7 - k) = false) as Ht by (by rewrite Hz, Z.bits_0).
      rewrite Z.land_spec, Z.pow2_bits_true in Ht by lia. by rewrite andb_true_r in Ht.
    - intros Ht. apply Z.bits_inj'. intros i Hi. rewrite Z.bits_0, Z.land_spec.
      destruct (decide (i = 7 - k)) as [->|Hne]; [by rewrite Ht|].
      by rewrite Z.pow2_bits_false, andb_false_r by lia. }
  destruct (Z.testbit b (7 - k)) eqn:Ht; cbn [negb].
  - apply bool_decide_eq_false. rewrite Hiff. done.
  - apply bool_decide_eq_true. by rewrite Hiff.
Qed.

Lemma validJumpdest_spec c dest :
  0 <= dest →
  validJumpdest c dest
  = Ok (bool_decide (dest < 2 ^ 62 ∧ dest < Z.of_nat (length (Code c))
          ∧ OpCode_of (Code c !!! Z.to_nat dest) = JUMPDEST)
        && negb (push_data 0 (Code c) !!! Z.to_nat dest)).
Proof.
  intros Hd. unfold validJumpdest.
  assert (63 <= BitLen dest ↔ 2 ^ 62 <= dest) as Hbl.
  { unfold BitLen. case_bool_decide; [subst; lia|]. rewrite Z.log2_le_pow2 by lia. lia. }
  destruct (bool_decide (63 <= BitLen dest)) eqn:H1; cbn [orb].
  { apply bool_decide_eq_true in H1. rewrite Hbl in H1.
    by rewrite bool_decide_false by (intros (?&_); lia). }
  apply bool_decide_eq_false in H1. rewrite Hbl in H1. rewrite (u64_id dest) by (unfold in_u64; lia).
  destruct (bool_decide (Z.of_nat (length (Code c)) <= dest)) eqn:H2; cbn [orb].
  { apply bool_decide_eq_true in H2. by rewrite bool_decide_false by (intros (_&?&_); lia). }
  apply bool_decide_eq_false in H2.
  destruct (bool_decide (OpCode_of (Code c !!! Z.to_nat dest) = JUMPDEST)) eqn:H3; cbn [negb].
  2: { apply bool_decide_eq_false in H3. by rewrite bool_decide_false by tauto. }
  apply bool_decide_eq_true in H3. rewrite bool_decide_true by (split_and!; [lia|lia|done]).
  destruct (codeBitmap_spec (Code c)) as (bits&Heq&Hl&Hb). rewrite Heq. cbn [mbind result_bind andb].
  rewrite codeSegment_spec, Hb by
    (try lia; rewrite Hl; assert (dest / 8 <= Z.of_nat (length (Code c)) / 8) by (apply Z.div_le_mono; lia);
     rewrite Nat2Z.inj_lt, Z2Nat.id, Nat2Z.inj_add, Nat2Z.inj_div by (apply Z.div_pos; lia); lia).
  done.
Qed.

(** C25: the analysis of a contract's code never goes out of its bit vector, and
    a position is a code segment exactly when the byte-by-byte scan does not
    count it as an operand of a push; so a jump is allowed exactly to a
    JUMPDEST byte that is not such an operand. *)
Theorem validJumpdest_correct c dest :
  0 <= dest →
  validJumpdest c dest
  = Ok (bool_decide (dest < 2 ^ 62 ∧ dest < Z.of_nat (length (Code c))
          ∧ OpCode_of (Code c !!! Z.to_nat dest) = JUMPDEST)
        && negb (push_data 0 (Code c) !!! Z.to_nat dest)).
Proof. apply validJumpdest_spec. Qed.

(** [PUSH2 0x5b 0x00; JUMPDEST]: 3 is a destination, 1 is an operand. *)
Definition sample_contract : Contract :=
  SetCallCode 7 0 [0x61; 0x5b; 0x00; 0x5b] (NewContract (AccountRef 1) 7 0 100).
Lemma validJumpdest_witness :
  validJumpdest sample_contract 3 = Ok true ∧ validJumpdest sample_contract 1 = Ok false.
Proof. by rewrite !validJumpdest_correct. Defined.
