(* ===== verification/EvmOps.v ===== *)
(** * core/vm: gas costs and instructions

    Models src/core/vm/gas_table.go and src/core/vm/instructions.go.  An
    instruction works on a frame: the program counter, the contract, the memory,
    the stack and the machine state shared by all frames.  The calls between
    contracts are a record of functions, closed by the recursion of EvmRun.v.
    The state is a class (src/core/vm/interface.go); the gas constants of
    go-ethereum and the hash functions are parameters. *)

From S2P Require Import Prelude Utils Account Blocks XShardCursor Consensus Transition EvmBase.

Local Open Scope Z_scope.

(** ** The state, as the virtual machine uses it besides [StateOps] *)
Class VmState (St : Type) `{StateOps St} := {
  CreateAccount : Z → SE St unit;
  GetCodeHash : Z → SE St Z;
  GetCode : Z → SE St (list Z);
  SetCode : Z → list Z → SE St unit;
  GetCodeSize : Z → SE St Z;
  AddRefund : Z → SE St unit;
  GetState : Z → Z → SE St Z;
  SetState : Z → Z → Z → SE St unit;
  Suicide : Z → SE St bool;
  HasSuicided : Z → SE St bool;
  Exist : Z → SE St bool;
  Empty : Z → SE St bool;
  Snapshot : SE St Z;
  RevertToSnapshot : Z → SE St unit;
  AddLog : Z → list Z → list Z → Z → SE St unit;      (* recipient, topics, data, block number *)
  AddPreimage : Z → list Z → SE St unit;
}.

(** go-ethereum's params. *)
Record VmParams := mkVmParams {
  StackLimit : Z;
  CallCreateDepth : Z;
  MaxCodeSize : Z;
  MemoryGas : Z;
  QuadCoeffDiv : Z;
  CopyGas : Z;
  SstoreSetGas : Z;
  SstoreClearGas : Z;
  SstoreResetGas : Z;
  SstoreRefundGas : Z;
  LogGas : Z;
  LogTopicGas : Z;
  LogDataGas : Z;
  Sha3Gas : Z;
  Sha3WordGas : Z;
  CreateGas : Z;
  Create2Gas : Z;
  CreateDataGas : Z;
  CallNewAccountGas : Z;
  CallValueTransferGas : Z;
  CallStipend : Z;
  SuicideRefundGas : Z;
  JumpdestGas : Z;
  EcrecoverGas : Z;
  Sha256PerWordGas : Z;
  Sha256BaseGas : Z;
  Ripemd160PerWordGas : Z;
  Ripemd160BaseGas : Z;
  IdentityPerWordGas : Z;
  IdentityBaseGas : Z;
  ModExpQuadCoeffDiv : Z;
  Bn256AddGas : Z;
  Bn256ScalarMulGas : Z;
  Bn256PairingBaseGas : Z;
  Bn256PairingPerPointGas : Z;
}.

(** What does not change while a transaction runs: the chain rules at its block,
    the machine's configuration, the context, and the constants of the state. *)
Record VmEnv := mkVmEnv {
  vparams : VmParams;
  gasTable : GasTable;
  IsHomestead : bool;
  IsEIP150 : bool;
  IsEIP158 : bool;
  IsByzantium : bool;
  IsConstantinople : bool;
  NoRecursion : bool;
  EnablePreimageRecording : bool;
  Origin : Z;
  GasPrice : Z;
  env_Coinbase : Z;
  GasLimit : Z;
  BlockNumber : Z;
  Time : Z;
  Difficulty : Z;
  ToFullShardKey : option Z;
  env_IsApplyXShard : bool;
  GetHash : Z → Z;
  env_DefaultToken : Z;                  (* GetQuarkChainConfig().GetDefaultChainTokenID() *)
  env_TimeStamp : Z;                     (* GetTimeStamp() *)
  env_ChainID : Z;                       (* GetChainID() *)
  env_DisallowMap : gmap Z Z;            (* GetSenderDisallowMap() *)
  EnableTime : Z → Z;                    (* GetEnableTime() of the precompile at an address *)
  SystemBytecode : Z → list Z;           (* the bytecodes of contracts.go, by address *)
  SystemTimestamp : Z → Z;
}.

(** The machine and its interpreter, shared by all frames. *)
Record Machine (St : Type) := mkMachine {
  m_state : St;
  m_depth : Z;
  m_readOnly : bool;
  m_returnData : list Z;
  m_callGasTemp : Z;
  m_TransferTokenID : Z;
}.
Arguments mkMachine {St}.
Arguments m_state {St}.
Arguments m_depth {St}.
Arguments m_readOnly {St}.
Arguments m_returnData {St}.
Arguments m_callGasTemp {St}.
Arguments m_TransferTokenID {St}.

Record Frame (St : Type) := mkFrame {
  f_pc : Z;
  f_contract : Contract;
  f_mem : Memory;
  f_stack : list Z;
  f_machine : Machine St;
}.
Arguments mkFrame {St}.
Arguments f_pc {St}.
Arguments f_contract {St}.
Arguments f_mem {St}.
Arguments f_stack {St}.
Arguments f_machine {St}.

(** The results of calls and creations. *)
Definition call_result : Type := list Z * Z * option VMError.
Definition create_result : Type := list Z * Z * Z * option VMError.

(** The calls: caller, address, input, gas and value where there is one. *)
Record Calls (St : Type) := mkCalls {
  c_Call : ContractRef → Z → list Z → Z → Z → SE (Machine St) call_result;
  c_CallCode : ContractRef → Z → list Z → Z → Z → SE (Machine St) call_result;
  c_DelegateCall : ContractRef → Z → list Z → Z → SE (Machine St) call_result;
  c_StaticCall : ContractRef → Z → list Z → Z → SE (Machine St) call_result;
  c_Create : ContractRef → list Z → Z → Z → option Z → SE (Machine St) create_result;
  c_Create2 : ContractRef → list Z → Z → Z → Z → SE (Machine St) create_result;
}.
Arguments mkCalls {St}.
Arguments c_Call {St}.
Arguments c_CallCode {St}.
Arguments c_DelegateCall {St}.
Arguments c_StaticCall {St}.
Arguments c_Create {St}.
Arguments c_Create2 {St}.

Definition currentMntIDAddr : Z := 0x514b430001.
Definition transferMntAddr : Z := 0x514b430002.
Definition deploySystemContractAddr : Z := 0x514b430003.
Definition MintMNTAddr : Z := 0x514b430004.
Definition BalanceMNTAddr : Z := 0x514b430005.
Definition rootChainPoSWContractAddr : Z := 0x514b430000000000000000000000000000000001.
Definition NonReservedNativeTokenContractAddr : Z := 0x514b430000000000000000000000000000000002.
Definition generalNativeTokenContractAddr : Z := 0x514b430000000000000000000000000000000003.

Section ops.
Context `{EthMath} {St : Type} `{VmState St}.
Context (env : VmEnv) (Keccak256Hash : list Z → Z).
Abbreviation P := (vparams env).
Abbreviation F := (SE (Frame St)).

(** ** Working on a frame *)
Definition on_machine {A} (m : SE (Machine St) A) : F A := fun f =>
  let '(r, e) := m (f_machine f) in (r, mkFrame (f_pc f) (f_contract f) (f_mem f) (f_stack f) e).
Definition machine_state {A} (m : SE St A) : SE (Machine St) A := fun e =>
  let '(r, s) := m (m_state e) in
  (r, mkMachine s (m_depth e) (m_readOnly e) (m_returnData e) (m_callGasTemp e) (m_TransferTokenID e)).
Definition state {A} (m : SE St A) : F A := on_machine (machine_state m).
Definition set_callGasTemp (g : Z) : F unit := on_machine (se_mod (fun e =>
  mkMachine (m_state e) (m_depth e) (m_readOnly e) (m_returnData e) g (m_TransferTokenID e))).
Definition set_pc (pc : Z) : F unit :=
  se_mod (fun f => mkFrame pc (f_contract f) (f_mem f) (f_stack f) (f_machine f)).
Definition set_contract (c : Contract) : F unit :=
  se_mod (fun f => mkFrame (f_pc f) c (f_mem f) (f_stack f) (f_machine f)).
Definition set_mem (m : Memory) : F unit :=
  se_mod (fun f => mkFrame (f_pc f) (f_contract f) m (f_stack f) (f_machine f)).
Definition set_stack (st : list Z) : F unit :=
  se_mod (fun f => mkFrame (f_pc f) (f_contract f) (f_mem f) st (f_machine f)).

Definition fpop : F Z :=
  f ← se_get; r ← se_lift (pop (f_stack f)); _ ← set_stack r.2; mret r.1.
Definition fpush (x : Z) : F unit := f ← se_get; set_stack (x :: f_stack f).
Definition fback (n : nat) : F Z := f ← se_get; se_lift (Back (f_stack f) n).
Definition memory_Set (offset size : Z) (value : list Z) : F unit :=
  f ← se_get; m ← se_lift (mem_Set offset size value (f_mem f)); set_mem m.
Definition memory_Get (offset size : Z) : F (list Z) :=
  f ← se_get; se_lift (mem_Get offset size (f_mem f)).

(** ** gas_table.go *)

(** A sum with its overflow check. *)
Definition safe_add (x y : Z) : F Z :=
  let '(z, overflow) := SafeAdd x y in
  if (overflow : bool) then se_err "gas uint64 overflow" else mret z.
Definition safe_mul (x y : Z) : F Z :=
  let '(z, overflow) := SafeMul x y in
  if (overflow : bool) then se_err "gas uint64 overflow" else mret z.
Definition uint64_of (z : Z) : F Z :=
  let '(x, overflow) := bigUint64 z in
  if (overflow : bool) then se_err "gas uint64 overflow" else mret x.

Definition memoryGasCost (newMemSize : Z) : F Z :=
  if bool_decide (newMemSize = 0) then mret 0
  else if bool_decide (0xffffffffe0 < newMemSize) then se_err "gas uint64 overflow"
  else
    let newMemSizeWords := toWordSize newMemSize in
    let newMemSize := u64 (newMemSizeWords * 32) in
    f ← se_get;
    let m := f_mem f in
    if bool_decide (mem_Len m < newMemSize) then
      let square := u64 (newMemSizeWords * newMemSizeWords) in
      let linCoef := u64 (newMemSizeWords * MemoryGas P) in
      let quadCoef := square / QuadCoeffDiv P in
      let newTotalFee := u64 (linCoef + quadCoef) in
      let fee := u64 (newTotalFee - lastGasCost m) in
      _ ← set_mem (mkMemory (store m) newTotalFee);
      mret fee
    else mret 0.

Abbreviation gasFunc := (Z → F Z).

Definition constGasFunc (gas : Z) : gasFunc := fun _ => mret gas.

(** Memory, a constant, and a cost per word of the size at [Back(n)]. *)
Definition copy_gas (base : Z) (n : nat) (perWord : Z) : gasFunc := fun memorySize =>
  gas ← memoryGasCost memorySize;
  gas ← safe_add gas base;
  l ← fback n;
  words ← uint64_of l;
  words ← safe_mul (toWordSize words) perWord;
  safe_add gas words.
Definition gasCallDataCopy : gasFunc := copy_gas GasFastestStep 2 (CopyGas P).
Definition gasReturnDataCopy : gasFunc := copy_gas GasFastestStep 2 (CopyGas P).
Definition gasCodeCopy : gasFunc := copy_gas GasFastestStep 2 (CopyGas P).
Definition gasExtCodeCopy : gasFunc := copy_gas (gt_ExtcodeCopy (gasTable env)) 3 (CopyGas P).
Definition gasSha3 : gasFunc := copy_gas (Sha3Gas P) 1 (Sha3WordGas P).
Definition gasCreate2 : gasFunc := copy_gas (Create2Gas P) 2 (Sha3WordGas P).

(** The branch that is taken: [if true]. *)
Definition gasSStore : gasFunc := fun _ =>
  y ← fback 1;
  x ← fback 0;
  f ← se_get;
  current ← state (GetState (self (f_contract f)) (BigToHash x));
  if bool_decide ((current : Z) = 0) && negb (bool_decide (y = 0)) then mret (SstoreSetGas P)
  else if negb (bool_decide ((current : Z) = 0)) && bool_decide (y = 0) then
    _ ← state (AddRefund (SstoreRefundGas P)); mret (SstoreClearGas P)
  else mret (SstoreResetGas P).

Definition makeGasLog (n : Z) : gasFunc := fun memorySize =>
  l ← fback 1;
  requestedSize ← uint64_of l;
  gas ← memoryGasCost memorySize;
  gas ← safe_add gas (LogGas P);
  gas ← safe_add gas (u64 (n * LogTopicGas P));
  memorySizeGas ← safe_mul requestedSize (LogDataGas P);
  safe_add gas memorySizeGas.

Definition gasExtCodeHash : gasFunc := constGasFunc (gt_ExtcodeHash (gasTable env)).
Definition gasBalance : gasFunc := constGasFunc (gt_Balance (gasTable env)).
Definition gasExtCodeSize : gasFunc := constGasFunc (gt_ExtcodeSize (gasTable env)).
Definition gasSLoad : gasFunc := constGasFunc (gt_SLoad (gasTable env)).
Definition gasPush : gasFunc := constGasFunc GasFastestStep.
Definition gasSwap : gasFunc := constGasFunc GasFastestStep.
Definition gasDup : gasFunc := constGasFunc GasFastestStep.

Definition mem_gas (base : Z) : gasFunc := fun memorySize =>
  gas ← memoryGasCost memorySize; safe_add gas base.
Definition gasMLoad : gasFunc := mem_gas GasFastestStep.
Definition gasMStore8 : gasFunc := mem_gas GasFastestStep.
Definition gasMStore : gasFunc := mem_gas GasFastestStep.
Definition gasCreate : gasFunc := mem_gas (CreateGas P).
Definition gasReturn : gasFunc := memoryGasCost.
Definition gasRevert : gasFunc := memoryGasCost.

Definition gasExp : gasFunc := fun _ =>
  e ← fback 1;
  let expByteLen := (BitLen e + 7) / 8 in
  safe_add (u64 (expByteLen * gt_ExpByte (gasTable env))) GasSlowStep.

(** The gas passed on by a call, and the whole cost. *)
Definition call_cost (gas : Z) : F Z :=
  f ← se_get;
  requested ← fback 0;
  temp ← se_lift (callGas (gasTable env) (c_Gas (f_contract f)) gas requested);
  _ ← set_callGasTemp temp;
  safe_add gas temp.

Definition gasCall : gasFunc := fun memorySize =>
  v ← fback 2;
  let transfersValue := negb (bool_decide ((v : Z) = 0)) in
  a ← fback 1;
  let address := BigToAddress a in
  new ← (if IsEIP158 env then
           if transfersValue then state (Empty address) else mret false
         else b ← state (Exist address); mret (negb b));
  let gas := if (new : bool) then u64 (gt_Calls (gasTable env) + CallNewAccountGas P)
             else gt_Calls (gasTable env) in
  let gas := if (transfersValue : bool) then u64 (gas + CallValueTransferGas P) else gas in
  memoryGas ← memoryGasCost memorySize;
  gas ← safe_add gas memoryGas;
  call_cost gas.

Definition gasCallCode : gasFunc := fun memorySize =>
  v ← fback 2;
  let gas := if bool_decide ((v : Z) = 0) then gt_Calls (gasTable env)
             else u64 (gt_Calls (gasTable env) + CallValueTransferGas P) in
  memoryGas ← memoryGasCost memorySize;
  gas ← safe_add gas memoryGas;
  call_cost gas.

Definition gasDelegateCall : gasFunc := fun memorySize =>
  gas ← memoryGasCost memorySize;
  gas ← safe_add gas (gt_Calls (gasTable env));
  call_cost gas.
Definition gasStaticCall : gasFunc := fun memorySize =>
  gas ← memoryGasCost memorySize;
  gas ← safe_add gas (gt_Calls (gasTable env));
  call_cost gas.

Definition gasSuicide : gasFunc := fun _ =>
  f ← se_get;
  let me := self (f_contract f) in
  gas ← (if IsEIP150 env then
           b ← fback 0;
           let address := BigToAddress b in
           extra ← (if IsEIP158 env then
                      e ← state (Empty address);
                      if (e : bool) then
                        bal ← state (GetBalance me (env_DefaultToken env));
                        mret (negb (bool_decide ((bal : Z) = 0)))
                      else mret false
                    else b ← state (Exist address); mret (negb b));
           mret (if (extra : bool) then u64 (gt_Suicide (gasTable env) + gt_CreateBySuicide (gasTable env))
                 else gt_Suicide (gasTable env))
         else mret 0);
  dead ← state (HasSuicided me);
  _ ← (if (dead : bool) then mret tt else state (AddRefund (SuicideRefundGas P)));
  mret gas.

(** ** instructions.go *)

Abbreviation executionFunc := (F (list Z)).

(** Two operands, the first on top, give one result. *)
Definition binop (g : Z → Z → Z) : executionFunc :=
  x ← fpop; y ← fpop; _ ← fpush (g x y); mret [].
Definition unop (g : Z → Z) : executionFunc := x ← fpop; _ ← fpush (g x); mret [].
Definition pushval (x : Z) : executionFunc := _ ← fpush x; mret [].
Definition b2z (b : bool) : Z := if b then 1 else 0.

Definition opAdd : executionFunc := binop (fun x y => U256 (x + y)).
Definition opSub : executionFunc := binop (fun x y => U256 (x - y)).
Definition opMul : executionFunc := binop (fun x y => U256 (x * y)).
Definition opDiv : executionFunc :=
  binop (fun x y => if negb (bool_decide (y = 0)) then U256 (x / y) else 0).
Definition opSdiv : executionFunc := binop (fun x y =>
  let x := S256 x in let y := S256 y in
  if bool_decide (y = 0) || bool_decide (x = 0) then 0
  else if negb (bool_decide (Z.sgn x = Z.sgn y)) then U256 (- (Z.abs x / Z.abs y))
  else U256 (Z.abs x / Z.abs y)).
Definition opMod : executionFunc :=
  binop (fun x y => if bool_decide (y = 0) then 0 else U256 (x mod y)).
Definition opSmod : executionFunc := binop (fun x y =>
  let x := S256 x in let y := S256 y in
  if bool_decide (y = 0) then 0
  else if bool_decide (x < 0) then U256 (- (Z.abs x mod Z.abs y))
  else U256 (Z.abs x mod Z.abs y)).
Definition opExp : executionFunc := binop (fun base exponent =>
  if bool_decide (exponent < 1) then 1
  else if bool_decide (base = 0) then 0
  else if bool_decide (exponent = 1) then base
  else math_Exp base exponent).
Definition opSignExtend : executionFunc :=
  back ← fpop;
  if bool_decide (back < 31) then
    let bit := back * 8 + 7 in
    num ← fpop;
    let mask := Z.shiftl 1 bit - 1 in
    let num := if Z.testbit num bit then Z.lor num (Z.lnot mask) else Z.land num mask in
    _ ← fpush (U256 num); mret []
  else mret [].
Definition opNot : executionFunc := unop (fun x => U256 (Z.lnot x)).
Definition opLt : executionFunc := binop (fun x y => b2z (bool_decide (x < y))).
Definition opGt : executionFunc := binop (fun x y => b2z (bool_decide (y < x))).
Definition tt255 : Z := 2 ^ 255.
Definition opSlt : executionFunc := binop (fun x y =>
  if bool_decide (tt255 <= x) && bool_decide (y < tt255) then 1
  else if bool_decide (x < tt255) && bool_decide (tt255 <= y) then 0
  else b2z (bool_decide (x < y))).
Definition opSgt : executionFunc := binop (fun x y =>
  if bool_decide (tt255 <= x) && bool_decide (y < tt255) then 0
  else if bool_decide (x < tt255) && bool_decide (tt255 <= y) then 1
  else b2z (bool_decide (y < x))).
Definition opEq : executionFunc := binop (fun x y => b2z (bool_decide (x = y))).
Definition opIszero : executionFunc := unop (fun x => if bool_decide (0 < x) then 0 else 1).
Definition opAnd : executionFunc := binop Z.land.
Definition opOr : executionFunc := binop Z.lor.
Definition opXor : executionFunc := binop Z.lxor.
Definition opByte : executionFunc :=
  binop (fun th val => if bool_decide (th < 32) then math_Byte val (i64 th) else 0).
Definition opAddmod : executionFunc :=
  x ← fpop; y ← fpop; z ← fpop;
  _ ← fpush (if bool_decide (0 < z) then U256 ((x + y) mod z) else 0); mret [].
Definition opMulmod : executionFunc :=
  x ← fpop; y ← fpop; z ← fpop;
  _ ← fpush (if bool_decide (0 < z) then U256 ((x * y) mod z) else 0); mret [].
Definition opSHL : executionFunc := binop (fun shift value =>
  let shift := U256 shift in let value := U256 value in
  if bool_decide (256 <= shift) then 0 else U256 (Z.shiftl value (u64 shift))).
Definition opSHR : executionFunc := binop (fun shift value =>
  let shift := U256 shift in let value := U256 value in
  if bool_decide (256 <= shift) then 0 else U256 (Z.shiftr value (u64 shift))).
Definition opSAR : executionFunc := binop (fun shift value =>
  let shift := U256 shift in let value := S256 value in
  if bool_decide (256 <= shift) then U256 (if bool_decide (0 <= value) then 0 else -1)
  else U256 (Z.shiftr value (u64 shift))).

Definition opSha3 : executionFunc :=
  offset ← fpop; size ← fpop;
  data ← memory_Get (i64 offset) (i64 size);
  let h := Keccak256Hash data in
  _ ← (if EnablePreimageRecording env then state (AddPreimage h data) else mret tt);
  pushval h.

Definition opAddress : executionFunc := f ← se_get; pushval (self (f_contract f)).
Definition opBalance : executionFunc :=
  slot ← fpop;
  b ← state (GetBalance (BigToAddress slot) (env_DefaultToken env));
  pushval b.
Definition opOrigin : executionFunc := pushval (Origin env).
Definition opCaller : executionFunc := f ← se_get; pushval (CallerAddress (f_contract f)).
Definition opCallValue : executionFunc := f ← se_get; pushval (c_value (f_contract f)).
Definition opCallDataLoad : executionFunc :=
  off ← fpop;
  f ← se_get;
  d ← se_lift (getDataBig (Input (f_contract f)) off 32);
  pushval (be_value d).
Definition opCallDataSize : executionFunc :=
  f ← se_get; pushval (Z.of_nat (length (Input (f_contract f)))).
(** Copying [length] bytes of [data] from an offset into the memory. *)
Definition copy_data (data : list Z) : executionFunc :=
  memOffset ← fpop; dataOffset ← fpop; length ← fpop;
  d ← se_lift (getDataBig data dataOffset length);
  _ ← memory_Set (u64 memOffset) (u64 length) d;
  mret [].
Definition opCallDataCopy : executionFunc := f ← se_get; copy_data (Input (f_contract f)).
Definition opReturnDataSize : executionFunc :=
  f ← se_get; pushval (Z.of_nat (length (m_returnData (f_machine f)))).
Definition opReturnDataCopy : executionFunc :=
  memOffset ← fpop; dataOffset ← fpop; len ← fpop;
  let end_ := dataOffset + len in
  f ← se_get;
  let rd := m_returnData (f_machine f) in
  if bool_decide (64 < BitLen end_) || bool_decide (Z.of_nat (length rd) < u64 end_)
  then se_err "evm: return data out of bounds"
  else
    d ← se_lift (slice rd (u64 dataOffset) (u64 end_));
    _ ← memory_Set (u64 memOffset) (u64 len) d;
    mret [].
Definition opExtCodeSize : executionFunc :=
  slot ← fpop; n ← state (GetCodeSize (BigToAddress slot)); pushval (u64 n).
Definition opCodeSize : executionFunc :=
  f ← se_get; pushval (Z.of_nat (length (Code (f_contract f)))).
Definition opCodeCopy : executionFunc := f ← se_get; copy_data (Code (f_contract f)).
Definition opExtCodeCopy : executionFunc :=
  a ← fpop; memOffset ← fpop; codeOffset ← fpop; length ← fpop;
  code ← state (GetCode (BigToAddress a));
  d ← se_lift (getDataBig code codeOffset length);
  _ ← memory_Set (u64 memOffset) (u64 length) d;
  mret [].
Definition opExtCodeHash : executionFunc :=
  slot ← fpop;
  let address := BigToAddress slot in
  e ← state (Empty address);
  if (e : bool) then pushval 0 else h ← state (GetCodeHash address); pushval h.
Definition opGasprice : executionFunc := pushval (GasPrice env).
Definition opBlockhash : executionFunc := unop (fun num =>
  if bool_decide (BlockNumber env - 257 < num) && bool_decide (num < BlockNumber env)
  then GetHash env (u64 num) else 0).
Definition opCoinbase : executionFunc := pushval (env_Coinbase env).
Definition opTimestamp : executionFunc := pushval (U256 (Time env)).
Definition opNumber : executionFunc := pushval (U256 (BlockNumber env)).
Definition opDifficulty : executionFunc := pushval (U256 (Difficulty env)).
Definition opGasLimit : executionFunc := pushval (U256 (GasLimit env)).

Definition opPop : executionFunc := _ ← fpop; mret [].
Definition opMload : executionFunc :=
  offset ← fpop; d ← memory_Get (i64 offset) 32; pushval (be_value d).
Definition opMstore : executionFunc :=
  mStart ← fpop; val ← fpop;
  f ← se_get; m ← se_lift (mem_Set32 (u64 mStart) val (f_mem f));
  _ ← set_mem m; mret [].
Definition opMstore8 : executionFunc :=
  off ← fpop; val ← fpop;
  f ← se_get;
  let off := i64 off in
  if bool_decide (0 <= off ∧ off < mem_Len (f_mem f)) then
    _ ← set_mem (mkMemory (<[Z.to_nat off := Z.land (i64 val) 0xff]> (store (f_mem f)))
                   (lastGasCost (f_mem f)));
    mret []
  else se_panic "index out of range".
Definition opSload : executionFunc :=
  loc ← fpop; f ← se_get;
  val ← state (GetState (self (f_contract f)) (BigToHash loc)); pushval val.
Definition opSstore : executionFunc :=
  loc ← fpop; val ← fpop; f ← se_get;
  _ ← state (SetState (self (f_contract f)) (BigToHash loc) (BigToHash val)); mret [].

Definition jump_to (pos : Z) : executionFunc :=
  f ← se_get;
  ok ← se_lift (validJumpdest (f_contract f) pos);
  if (ok : bool) then _ ← set_pc (u64 pos); mret []
  else se_err "invalid jump destination (%v) %v".
Definition opJump : executionFunc := pos ← fpop; jump_to pos.
Definition opJumpi : executionFunc :=
  pos ← fpop; cond ← fpop;
  if negb (bool_decide (cond = 0)) then jump_to pos
  else f ← se_get; _ ← set_pc (u64 (f_pc f + 1)); mret [].
Definition opJumpdest : executionFunc := mret [].
Definition opPc : executionFunc := f ← se_get; pushval (f_pc f).
Definition opMsize : executionFunc := f ← se_get; pushval (mem_Len (f_mem f)).
Definition opGas : executionFunc := f ← se_get; pushval (c_Gas (f_contract f)).
Definition opStop : executionFunc := mret [].
Definition opReturn : executionFunc :=
  offset ← fpop; size ← fpop;
  f ← se_get; se_lift (mem_GetPtr (i64 offset) (i64 size) (f_mem f)).
Definition opRevert : executionFunc :=
  offset ← fpop; size ← fpop;
  f ← se_get; se_lift (mem_GetPtr (i64 offset) (i64 size) (f_mem f)).
Definition opSuicide : executionFunc :=
  f ← se_get;
  let me := self (f_contract f) in
  balance ← state (GetBalance me (env_DefaultToken env));
  a ← fpop;
  _ ← state (AddBalance (BigToAddress a) balance (env_DefaultToken env));
  _ ← state (Suicide me);
  mret [].

Fixpoint pop_topics (n : nat) : F (list Z) :=
  match n with
  | O => mret []
  | S n' => t ← fpop; ts ← pop_topics n'; mret (BigToHash t :: ts)
  end.
Definition makeLog (size : nat) : executionFunc :=
  mStart ← fpop; mSize ← fpop;
  topics ← pop_topics size;
  d ← memory_Get (i64 mStart) (i64 mSize);
  f ← se_get;
  _ ← state (AddLog (self (f_contract f)) topics d (u64 (BlockNumber env)));
  mret [].
Definition makePush (size pushByteSize : nat) : executionFunc :=
  f ← se_get;
  let code := Code (f_contract f) in
  let codeLen := Z.of_nat (length code) in
  let startMin := Z.min codeLen (f_pc f + 1) in      (* a pc in the code is an int *)
  let endMin := Z.min codeLen (startMin + Z.of_nat pushByteSize) in
  d ← se_lift (slice code startMin endMin);
  _ ← fpush (be_value (RightPadBytes d (Z.of_nat pushByteSize)));
  _ ← set_pc (u64 (f_pc f + Z.of_nat size));
  mret [].
Definition makeDup (size : nat) : executionFunc :=
  f ← se_get; st ← se_lift (dup size (f_stack f)); _ ← set_stack st; mret [].
Definition makeSwap (size : nat) : executionFunc :=
  f ← se_get; st ← se_lift (swap (S size) (f_stack f)); _ ← set_stack st; mret [].

(** *** Calls *)

Section calls.
Context (calls : Calls St).

Definition fUseGas (gas : Z) : F bool :=
  f ← se_get;
  let '(ok, c) := UseGas gas (f_contract f) in
  _ ← set_contract c; mret ok.
Definition add_gas (gas : Z) : F unit :=
  f ← se_get; set_contract (with_gas (u64 (c_Gas (f_contract f) + gas)) (f_contract f)).
Definition ModifyTokenIDQueried (toAddr : Z) : F unit :=
  f ← se_get;
  if bool_decide (toAddr = currentMntIDAddr) then set_contract (with_queried (f_contract f)) else mret tt.

Definition opCreate : executionFunc :=
  value ← fpop; offset ← fpop; size ← fpop;
  input ← memory_Get (i64 offset) (i64 size);
  f ← se_get;
  let gas := c_Gas (f_contract f) in
  let gas := if IsEIP150 env then u64 (gas - gas / 64) else gas in
  _ ← fUseGas gas;
  r ← on_machine (c_Create calls (ref_of (f_contract f)) input gas value None);
  let '(res, addr, returnGas, suberr) := (r : create_result) in
  _ ← fpush (if IsHomestead env && bool_decide (suberr = Some ErrCodeStoreOutOfGas) then 0
             else if negb (bool_decide (suberr = None))
                     && negb (bool_decide (suberr = Some ErrCodeStoreOutOfGas)) then 0
             else addr);
  _ ← add_gas returnGas;
  _ ← match CodeAddr (f_contract f) with
      | None => se_panic "invalid memory address or nil pointer dereference"
      | Some a => ModifyTokenIDQueried a
      end;
  mret (if bool_decide (suberr = Some ErrExecutionReverted) then res else []).

Definition opCreate2 : executionFunc :=
  endowment ← fpop; offset ← fpop; size ← fpop; salt ← fpop;
  input ← memory_Get (i64 offset) (i64 size);
  f ← se_get;
  let gas := c_Gas (f_contract f) in
  let gas := u64 (gas - gas / 64) in
  _ ← fUseGas gas;
  r ← on_machine (c_Create2 calls (ref_of (f_contract f)) input gas endowment salt);
  let '(res, addr, returnGas, suberr) := (r : create_result) in
  _ ← fpush (if negb (bool_decide (suberr = None)) then 0 else addr);
  _ ← add_gas returnGas;
  mret (if bool_decide (suberr = Some ErrExecutionReverted) then res else []).

(** What the four calls do with the result. *)
Definition finish_call (toAddr retOffset retSize : Z) (r : call_result) : executionFunc :=
  let '(ret, returnGas, err) := r in
  _ ← fpush (if bool_decide (err = None) then 1 else 0);
  _ ← (if bool_decide (err = None) || bool_decide (err = Some ErrExecutionReverted)
       then memory_Set (u64 retOffset) (u64 retSize) ret else mret tt);
  _ ← add_gas returnGas;
  _ ← ModifyTokenIDQueried toAddr;
  mret ret.

Definition opCall : executionFunc :=
  _ ← fpop;
  f ← se_get;
  let gas := m_callGasTemp (f_machine f) in
  addr ← fpop; value ← fpop; inOffset ← fpop; inSize ← fpop; retOffset ← fpop; retSize ← fpop;
  let toAddr := BigToAddress addr in
  let value := U256 value in
  args ← memory_Get (i64 inOffset) (i64 inSize);
  let gas := if bool_decide (value = 0) then gas else u64 (gas + CallStipend P) in
  r ← on_machine (c_Call calls (ref_of (f_contract f)) toAddr args gas value);
  finish_call toAddr retOffset retSize r.
Definition opCallCode : executionFunc :=
  _ ← fpop;
  f ← se_get;
  let gas := m_callGasTemp (f_machine f) in
  addr ← fpop; value ← fpop; inOffset ← fpop; inSize ← fpop; retOffset ← fpop; retSize ← fpop;
  let toAddr := BigToAddress addr in
  let value := U256 value in
  args ← memory_Get (i64 inOffset) (i64 inSize);
  let gas := if bool_decide (value = 0) then gas else u64 (gas + CallStipend P) in
  r ← on_machine (c_CallCode calls (ref_of (f_contract f)) toAddr args gas value);
  finish_call toAddr retOffset retSize r.
Definition opDelegateCall : executionFunc :=
  _ ← fpop;
  f ← se_get;
  let gas := m_callGasTemp (f_machine f) in
  addr ← fpop; inOffset ← fpop; inSize ← fpop; retOffset ← fpop; retSize ← fpop;
  let toAddr := BigToAddress addr in
  args ← memory_Get (i64 inOffset) (i64 inSize);
  r ← on_machine (c_DelegateCall calls (ref_of (f_contract f)) toAddr args gas);
  finish_call toAddr retOffset retSize r.
Definition opStaticCall : executionFunc :=
  _ ← fpop;
  f ← se_get;
  let gas := m_callGasTemp (f_machine f) in
  addr ← fpop; inOffset ← fpop; inSize ← fpop; retOffset ← fpop; retSize ← fpop;
  let toAddr := BigToAddress addr in
  args ← memory_Get (i64 inOffset) (i64 inSize);
  r ← on_machine (c_StaticCall calls (ref_of (f_contract f)) toAddr args gas);
  finish_call toAddr retOffset retSize r.
End calls.
End ops.
