(* ===== verification/EvmRun.v ===== *)
(** * core/vm: precompiled contracts, jump table, interpreter and calls

    Models src/core/vm/contracts.go, jump_table.go, interpreter.go, evm.go and
    the transfer functions of src/core/evm.go.  Hash functions, the elliptic
    curves and the address of a created contract are parameters.  Tracing,
    cancelling and the choice between several interpreters are not modelled.
    The recursion between frames runs on fuel: [evm_calls n] is the machine with
    [n] levels, and its loops take at most [n] steps; EvmCalls.v shows how
    much is enough. *)

From S2P Require Import Prelude Utils Codec Account Blocks XShardCursor Consensus Transition EvmBase EvmOps.

Local Open Scope Z_scope.

(** The libraries the precompiled contracts call. *)
Class Crypto := {
  sha256 : list Z → list Z;
  ripemd160 : list Z → list Z;
  ValidateSignatureValues : Z → Z → Z → bool;
  Ecrecover : list Z → list Z → option (list Z);
  G1 : Type;
  G2 : Type;
  G1_Unmarshal : list Z → option G1;
  G2_Unmarshal : list Z → option G2;
  G1_Add : G1 → G1 → G1;
  G1_ScalarMult : G1 → Z → G1;
  G1_Marshal : G1 → list Z;
  PairingCheck : list G1 → list G2 → bool;
}.

(** A failed computation as a value. *)
Definition catch {S A} (m : SE S A) : SE S (A + string) := fun s =>
  match m s with
  | (Ok a, s') => (Ok (inl a), s')
  | (Err e, s') => (Ok (inr e), s')
  | (Panic e, s') => (Panic e, s')
  end.

Inductive Precompile :=
| ecrecover | sha256hash | ripemd160hash | dataCopy | bigModExp | bn256Add | bn256ScalarMul | bn256Pairing
| currentMntID | transferMnt | deploySystemContract | mintMNT | balanceMNT.

Definition PrecompiledContractsHomestead (a : Z) : option Precompile :=
  match a with
  | 1 => Some ecrecover | 2 => Some sha256hash | 3 => Some ripemd160hash | 4 => Some dataCopy
  | _ => None
  end.
Definition PrecompiledContractsByzantium (a : Z) : option Precompile :=
  match a with
  | 1 => Some ecrecover | 2 => Some sha256hash | 3 => Some ripemd160hash | 4 => Some dataCopy
  | 5 => Some bigModExp | 6 => Some bn256Add | 7 => Some bn256ScalarMul | 8 => Some bn256Pairing
  | _ =>
      if a =? currentMntIDAddr then Some currentMntID
      else if a =? transferMntAddr then Some transferMnt
      else if a =? deploySystemContractAddr then Some deploySystemContract
      else if a =? MintMNTAddr then Some mintMNT
      else if a =? BalanceMNTAddr then Some balanceMNT
      else None
  end.

(** The system contracts: address, bytecode, timestamp; the scope of each. *)
Definition SystemContracts (env : VmEnv) : list (Z * list Z * Z) :=
  (0, [], 0) :: map (fun a => (a, SystemBytecode env a, SystemTimestamp env a))
    [rootChainPoSWContractAddr; NonReservedNativeTokenContractAddr; generalNativeTokenContractAddr].
Definition ContractScopeGlobal : Z := 1.
Definition ContractScopeLocalChain0 : Z := 2.
Definition SystemContractScopeMap (i : Z) : Z :=
  match i with 1 => ContractScopeGlobal | 2 => ContractScopeLocalChain0 | 3 => ContractScopeGlobal | _ => 0 end.

Section machine.
Context `{EthMath} {St : Type} `{VmState St} `{Crypto}.
Context (env : VmEnv) (Keccak256Hash : list Z → Z).
Context (CreateAddress : Z → option Z → Z → Z) (CreateAddress2 : Z → Z → list Z → Z).
Abbreviation P := (vparams env).
Abbreviation M := (SE (Machine St)).

(** What running a contract gives: the bytes, the error and the contract. *)
Definition run_result : Type := list Z * option VMError * Contract.

(** Addresses and other 32-byte arguments of an input. *)
Definition word_at (input : list Z) (start : Z) : M Z :=
  d ← se_lift (getData input start 32); mret (be_value d).

(** ** contracts.go *)

Definition modexp_lens (input : list Z) : M (Z * Z * Z) :=
  b ← word_at input 0; e ← word_at input 32; m ← word_at input 64; mret (b, e, m).

Definition modexp_gas (input : list Z) : M Z :=
  lens ← modexp_lens input;
  let '(baseLen, expLen, modLen) := (lens : Z * Z * Z) in
  let input := drop 96 input in
  expHead ← (if bool_decide (Z.of_nat (length input) <= baseLen) then mret 0
             else
               d ← se_lift (getData input (u64 baseLen) (if bool_decide (32 < expLen) then 32 else u64 expLen));
               mret (be_value d));
  let msb := if bool_decide (0 < BitLen expHead) then BitLen expHead - 1 else 0 in
  let adjExpLen := (if bool_decide (32 < expLen) then 8 * (expLen - 32) else 0) + msb in
  let gas := Z.max modLen baseLen in
  let gas := if bool_decide (gas <= 64) then gas * gas
             else if bool_decide (gas <= 1024) then gas * gas / 4 + (96 * gas - 3072)
             else gas * gas / 16 + (480 * gas - 199680) in
  let gas := gas * Z.max adjExpLen 1 / ModExpQuadCoeffDiv P in
  mret (if bool_decide (64 < BitLen gas) then max_u64 else u64 gas).

(** [uint64(len(input)+31)/32*perWord + base] *)
Definition words_gas (perWord base : Z) (input : list Z) : Z :=
  u64 (u64 ((Z.of_nat (length input) + 31) / 32 * perWord) + base).

Definition RequiredGas (p : Precompile) (input : list Z) : M Z :=
  match p with
  | ecrecover => mret (EcrecoverGas P)
  | sha256hash => mret (words_gas (Sha256PerWordGas P) (Sha256BaseGas P) input)
  | ripemd160hash => mret (words_gas (Ripemd160PerWordGas P) (Ripemd160BaseGas P) input)
  | dataCopy => mret (words_gas (IdentityPerWordGas P) (IdentityBaseGas P) input)
  | bigModExp => modexp_gas input
  | bn256Add => mret (Bn256AddGas P)
  | bn256ScalarMul => mret (Bn256ScalarMulGas P)
  | bn256Pairing =>
      mret (u64 (Bn256PairingBaseGas P + u64 (Z.of_nat (length input) / 192 * Bn256PairingPerPointGas P)))
  | currentMntID => mret 3
  | transferMnt => mret 0
  | deploySystemContract => mret 3
  | mintMNT => mret 9000
  | balanceMNT => mret 400
  end.

Definition ok_run (ret : list Z) (c : Contract) : M run_result := mret (ret, None, c).
Definition fail_run (e : VMError) (c : Contract) : M run_result := mret ([], Some e, c).
(** [contract.Gas = 0] and an error. *)
Definition burn (msg : string) (c : Contract) : M run_result :=
  fail_run (OtherVMError msg) (with_gas 0 c).

Definition ecrecover_Run (input : list Z) (c : Contract) : M run_result :=
  let input := RightPadBytes input 128 in
  let part a b := take (b - a) (drop a input) in
  let r := be_value (part 64 96)%nat in
  let s := be_value (part 96 128)%nat in
  let v := u8 (input !!! 63%nat - 27) in
  if negb (allZero (part 32 63)%nat) || negb (ValidateSignatureValues v r s) then ok_run [] c
  else match Ecrecover (part 0 32)%nat (part 64 128 ++ [v])%nat with
       | None => ok_run [] c
       | Some pubKey =>
           ok_run (LeftPadBytes (drop 12 (be_bytes 32 (Keccak256Hash (drop 1 pubKey)))) 32) c
       end.

Definition bigModExp_Run (input : list Z) (c : Contract) : M run_result :=
  lens ← modexp_lens input;
  let '(b, e, m) := (lens : Z * Z * Z) in
  let baseLen := u64 b in let expLen := u64 e in let modLen := u64 m in
  let input := drop 96 input in
  if bool_decide (baseLen = 0) && bool_decide (modLen = 0) then ok_run [] c
  else
    base ← se_lift (getData input 0 baseLen);
    exp ← se_lift (getData input baseLen expLen);
    mod_ ← se_lift (getData input (u64 (baseLen + expLen)) modLen);
    let mod_ := be_value mod_ in
    if bool_decide (mod_ = 0) then ok_run (LeftPadBytes [] (i64 modLen)) c
    else
      let z := Z.modulo (be_value base ^ be_value exp) mod_ in
      ok_run (LeftPadBytes (be_bytes (Z.to_nat ((BitLen z + 7) / 8)) z) (i64 modLen)) c.

Definition bn256Add_Run (input : list Z) (c : Contract) : M run_result :=
  bx ← se_lift (getData input 0 64);
  match G1_Unmarshal bx with
  | None => fail_run (OtherVMError "bn256") c
  | Some x =>
      by_ ← se_lift (getData input 64 64);
      match G1_Unmarshal by_ with
      | None => fail_run (OtherVMError "bn256") c
      | Some y => ok_run (G1_Marshal (G1_Add x y)) c
      end
  end.
Definition bn256ScalarMul_Run (input : list Z) (c : Contract) : M run_result :=
  bx ← se_lift (getData input 0 64);
  match G1_Unmarshal bx with
  | None => fail_run (OtherVMError "bn256") c
  | Some p =>
      k ← word_at input 64; ok_run (G1_Marshal (G1_ScalarMult p k)) c
  end.

(** The pairs of points, 192 bytes each. *)
Fixpoint points (n : nat) (input : list Z) : option (list G1 * list G2) :=
  match n with
  | O => Some ([], [])
  | S n' =>
      c ← G1_Unmarshal (take 64 input);
      t ← G2_Unmarshal (take 128 (drop 64 input));
      r ← points n' (drop 192 input);
      Some (c :: r.1, t :: r.2)
  end.
Definition bn256Pairing_Run (input : list Z) (c : Contract) : M run_result :=
  if bool_decide (0 < length input mod 192)%nat
  then fail_run (OtherVMError "bad elliptic curve pairing size") c
  else match points (length input / 192) input with
       | None => fail_run (OtherVMError "bn256") c
       | Some (cs, ts) => ok_run (be_bytes 32 (if PairingCheck cs ts then 1 else 0)) c
       end.

Definition currentMntID_Run (c : Contract) : M run_result :=
  e ← se_get; ok_run (repeat 0 24 ++ be_bytes 8 (m_TransferTokenID e)) (with_queried c).

Definition set_token (t : Z) : M unit := se_mod (fun e =>
  mkMachine (m_state e) (m_depth e) (m_readOnly e) (m_returnData e) (m_callGasTemp e) t).

Definition checkTokenIDQueried (err : option VMError) (c : Contract) (transferTokenID : Z) : option VMError :=
  if bool_decide (err = None) && negb (bool_decide (Code c = [])) && negb (TokenIDQueried c)
     && negb (bool_decide (transferTokenID = env_DefaultToken env)) && negb (bool_decide (c_value c = 0))
  then Some ErrExecutionReverted else err.

Section calls.
Context (calls : Calls St).

Definition transferMnt_Run (input : list Z) (c : Contract) : M run_result :=
  if bool_decide (length input < 96)%nat then burn "should 96" c
  else if IsStaticCall c then burn "transferMnt Run: static call not allowed " c
  else
    to ← word_at input 0;
    let toAddr := BigToAddress to in
    tokenID ← word_at input 32;
    value ← word_at input 64;
    data ← se_lift (getData input 96 (Z.of_nat (length input) - 96));
    if bool_decide (TokenCodec.TOKENIDMAX < tokenID) then burn "tokenid %v > TOKENIDMAX %v" c
    else if bool_decide (toAddr = transferMntAddr) then burn "re call toAddr %v" c
    else
      gasCost ← (if bool_decide (0 < value) then
                   e ← machine_state (Exist toAddr);
                   mret (if (e : bool) then CallValueTransferGas P
                         else u64 (CallValueTransferGas P + CallNewAccountGas P))
                 else mret 0);
      if bool_decide (c_Gas c < gasCost) then burn "run transferMnt failed contracr.gas %v < gasCost %v" c
      else
        bal ← machine_state (GetBalance (CallerAddress c) (u64 tokenID));
        e ← se_get;
        if bool_decide ((bal : Z) < value) || bool_decide (CallCreateDepth P <= m_depth e)
        then fail_run ErrExecutionReverted (UseGas gasCost c).2
        else
          let t := m_TransferTokenID e in
          _ ← set_token (u64 tokenID);
          let gasToCall := u64 (c_Gas c - gasCost) in
          let gasToCall := if bool_decide (0 < value) then u64 (gasToCall + CallStipend P) else gasToCall in
          let c := (UseGas gasCost c).2 in
          r ← c_Call calls (caller c) toAddr data gasToCall value;
          let '(ret, remainedGas, err) := (r : call_result) in
          e ← se_get;
          let err := checkTokenIDQueried err c (m_TransferTokenID e) in
          _ ← set_token t;
          mret (ret, err, with_gas remainedGas c).

Definition scope_panic : string :=
  "bug fix : SystemContractScopeMap Must ContractScopeGlobal or  ContractScopeLocalChain0 ".

Definition deploySystemContract_Run (input : list Z) (c : Contract) : M run_result :=
  w ← word_at input 0;
  let index := u64 w in
  let contractIndex := if bool_decide (0 < index) then i64 index else 1 in
  if bool_decide (Z.of_nat (length (SystemContracts env)) <= contractIndex)
  then burn "invalid system contract index" c
  else
    let scope := SystemContractScopeMap contractIndex in
    if negb (bool_decide (scope = ContractScopeGlobal)) && negb (bool_decide (scope = ContractScopeLocalChain0))
    then se_panic scope_panic
    else if negb (bool_decide (scope = ContractScopeGlobal)) && negb (bool_decide (env_ChainID env = 0))
    then burn "deploySystemContract chainID %v should 0" c
    else
      match SystemContracts env !! Z.to_nat contractIndex with
      | None => se_panic "index out of range"
      | Some (targetAddr, bytecode, ts) =>
          if bool_decide (u64 (Time env) < ts) then burn "timestamp not match" c
          else
            r ← c_Create calls (AccountRef (self c)) bytecode (c_Gas c) 0 (Some targetAddr);
            let '(_, addr, leftover, err) := (r : create_result) in
            match err with
            | Some e => fail_run e (with_gas 0 c)
            | None => ok_run (be_bytes 20 addr) (with_gas leftover c)
            end
      end.

Definition mintMNT_Run (input : list Z) (c : Contract) : M run_result :=
  m ← word_at input 0;
  let minter := BigToAddress m in
  mnt ← word_at input 32;
  value ← word_at input 64;
  if bool_decide (value = 0) then burn "mint 0 amount MNT" c
  else if bool_decide (TokenCodec.TOKENIDMAX < u64 mnt) then fail_run (OtherVMError "tokenid %v > TOKENIDMAX %v") c
  else if negb (bool_decide (env_ChainID env = 0)) then burn "deploySystemContract chainID %v should 0" c
  else if bool_decide (u64 mnt = env_DefaultToken env) then burn "default token %v is not mintable" c
  else
    e ← machine_state (Exist minter);
    let '(ok, c') := if (e : bool) then (true, c) else UseGas (CallNewAccountGas P) c in
    if negb ok then burn "out of gas" c
    else if negb (bool_decide (NonReservedNativeTokenContractAddr = CallerAddress c'))
    then burn "invalid sender" c'
    else
      _ ← machine_state (AddBalance minter value (u64 mnt));
      ok_run (be_bytes 32 1) c'.

Definition balanceMNT_Run (input : list Z) (c : Contract) : M run_result :=
  a ← word_at input 0;
  mnt ← word_at input 32;
  if bool_decide (TokenCodec.TOKENIDMAX < u64 mnt) then fail_run (OtherVMError "tokenid %v > TOKENIDMAX %v") c
  else
    b ← machine_state (GetBalance (BigToAddress a) (u64 mnt));
    d ← se_lift (BigToByte32 b);
    ok_run d c.

Definition precompile_Run (p : Precompile) (input : list Z) (c : Contract) : M run_result :=
  match p with
  | ecrecover => ecrecover_Run input c
  | sha256hash => ok_run (sha256 input) c
  | ripemd160hash => ok_run (LeftPadBytes (ripemd160 input) 32) c
  | dataCopy => ok_run input c
  | bigModExp => bigModExp_Run input c
  | bn256Add => bn256Add_Run input c
  | bn256ScalarMul => bn256ScalarMul_Run input c
  | bn256Pairing => bn256Pairing_Run input c
  | currentMntID => currentMntID_Run c
  | transferMnt => transferMnt_Run input c
  | deploySystemContract => deploySystemContract_Run input c
  | mintMNT => mintMNT_Run input c
  | balanceMNT => balanceMNT_Run input c
  end.

Definition RunPrecompiledContract (p : Precompile) (input : list Z) (c : Contract) : M run_result :=
  gas ← RequiredGas p input;
  let '(ok, c) := UseGas gas c in
  if (ok : bool) then precompile_Run p input c else fail_run (OtherVMError "out of gas") c.

(** ** jump_table.go *)
Record operation := mkOperation {
  execute : SE (Frame St) (list Z);
  gasCost : Z → SE (Frame St) Z;
  stack_pops : nat;                       (* validateStack is makeStackFunc(pops, pushes) *)
  stack_pushes : nat;
  memorySize : option (list Z → result Z);
  halts : bool;
  jumps : bool;
  writes : bool;
  reverts : bool;
  returns : bool;
}.
(** The rows of the tables; an opcode without a row is not valid. *)
Definition row (ex : SE (Frame St) (list Z)) (g : Z → SE (Frame St) Z) (p q : nat) : operation :=
  mkOperation ex g p q None false false false false false.
Definition with_mem (ms : list Z → result Z) (o : operation) : operation :=
  mkOperation (execute o) (gasCost o) (stack_pops o) (stack_pushes o) (Some ms)
    (halts o) (jumps o) (writes o) (reverts o) (returns o).
Definition that_halts (o : operation) : operation :=
  mkOperation (execute o) (gasCost o) (stack_pops o) (stack_pushes o) (memorySize o)
    true (jumps o) (writes o) (reverts o) (returns o).
Definition that_jumps (o : operation) : operation :=
  mkOperation (execute o) (gasCost o) (stack_pops o) (stack_pushes o) (memorySize o)
    (halts o) true (writes o) (reverts o) (returns o).
Definition that_writes (o : operation) : operation :=
  mkOperation (execute o) (gasCost o) (stack_pops o) (stack_pushes o) (memorySize o)
    (halts o) (jumps o) true (reverts o) (returns o).
Definition that_reverts (o : operation) : operation :=
  mkOperation (execute o) (gasCost o) (stack_pops o) (stack_pushes o) (memorySize o)
    (halts o) (jumps o) (writes o) true (returns o).
Definition that_returns (o : operation) : operation :=
  mkOperation (execute o) (gasCost o) (stack_pops o) (stack_pushes o) (memorySize o)
    (halts o) (jumps o) (writes o) (reverts o) true.

(** The rows from STOP to SHA3. *)
Definition frontier_arith (op : OpCode) : option operation :=
  match op with
  | STOP => Some (that_halts (row opStop (constGasFunc 0) 0 0))
  | ADD => Some (row opAdd (constGasFunc GasFastestStep) 2 1)
  | MUL => Some (row opMul (constGasFunc GasFastStep) 2 1)
  | SUB => Some (row opSub (constGasFunc GasFastestStep) 2 1)
  | DIV => Some (row opDiv (constGasFunc GasFastStep) 2 1)
  | SDIV => Some (row opSdiv (constGasFunc GasFastStep) 2 1)
  | MOD => Some (row opMod (constGasFunc GasFastStep) 2 1)
  | SMOD => Some (row opSmod (constGasFunc GasFastStep) 2 1)
  | ADDMOD => Some (row opAddmod (constGasFunc GasMidStep) 3 1)
  | MULMOD => Some (row opMulmod (constGasFunc GasMidStep) 3 1)
  | EXP => Some (row opExp (gasExp env) 2 1)
  | SIGNEXTEND => Some (row opSignExtend (constGasFunc GasFastStep) 2 1)
  | LT => Some (row opLt (constGasFunc GasFastestStep) 2 1)
  | GT => Some (row opGt (constGasFunc GasFastestStep) 2 1)
  | SLT => Some (row opSlt (constGasFunc GasFastestStep) 2 1)
  | SGT => Some (row opSgt (constGasFunc GasFastestStep) 2 1)
  | EQ => Some (row opEq (constGasFunc GasFastestStep) 2 1)
  | ISZERO => Some (row opIszero (constGasFunc GasFastestStep) 1 1)
  | AND => Some (row opAnd (constGasFunc GasFastestStep) 2 1)
  | XOR => Some (row opXor (constGasFunc GasFastestStep) 2 1)
  | OR => Some (row opOr (constGasFunc GasFastestStep) 2 1)
  | NOT => Some (row opNot (constGasFunc GasFastestStep) 1 1)
  | BYTE => Some (row opByte (constGasFunc GasFastestStep) 2 1)
  | SHA3 => Some (with_mem memorySha3 (row (opSha3 env Keccak256Hash) (gasSha3 env) 2 1))
  | _ => None
  end.

(** From ADDRESS to GASLIMIT. *)
Definition frontier_context (op : OpCode) : option operation :=
  match op with
  | ADDRESS => Some (row opAddress (constGasFunc GasQuickStep) 0 1)
  | BALANCE => Some (row (opBalance env) (gasBalance env) 1 1)
  | ORIGIN => Some (row (opOrigin env) (constGasFunc GasQuickStep) 0 1)
  | CALLER => Some (row opCaller (constGasFunc GasQuickStep) 0 1)
  | CALLVALUE => Some (row opCallValue (constGasFunc GasQuickStep) 0 1)
  | CALLDATALOAD => Some (row opCallDataLoad (constGasFunc GasFastestStep) 1 1)
  | CALLDATASIZE => Some (row opCallDataSize (constGasFunc GasQuickStep) 0 1)
  | CALLDATACOPY => Some (with_mem memoryCallDataCopy (row opCallDataCopy (gasCallDataCopy env) 3 0))
  | CODESIZE => Some (row opCodeSize (constGasFunc GasQuickStep) 0 1)
  | CODECOPY => Some (with_mem memoryCodeCopy (row opCodeCopy (gasCodeCopy env) 3 0))
  | GASPRICE => Some (row (opGasprice env) (constGasFunc GasQuickStep) 0 1)
  | EXTCODESIZE => Some (row opExtCodeSize (gasExtCodeSize env) 1 1)
  | EXTCODECOPY => Some (with_mem memoryExtCodeCopy (row opExtCodeCopy (gasExtCodeCopy env) 4 0))
  | BLOCKHASH => Some (row (opBlockhash env) (constGasFunc GasExtStep) 1 1)
  | COINBASE => Some (row (opCoinbase env) (constGasFunc GasQuickStep) 0 1)
  | TIMESTAMP => Some (row (opTimestamp env) (constGasFunc GasQuickStep) 0 1)
  | NUMBER => Some (row (opNumber env) (constGasFunc GasQuickStep) 0 1)
  | DIFFICULTY => Some (row (opDifficulty env) (constGasFunc GasQuickStep) 0 1)
  | GASLIMIT => Some (row (opGasLimit env) (constGasFunc GasQuickStep) 0 1)
  | _ => None
  end.
(** From POP to JUMPDEST. *)
Definition frontier_storage (op : OpCode) : option operation :=
  match op with
  | POP => Some (row opPop (constGasFunc GasQuickStep) 1 0)
  | MLOAD => Some (with_mem memoryMLoad (row opMload (gasMLoad env) 1 1))
  | MSTORE => Some (with_mem memoryMStore (row opMstore (gasMStore env) 2 0))
  | MSTORE8 => Some (with_mem memoryMStore8 (row opMstore8 (gasMStore8 env) 2 0))
  | SLOAD => Some (row opSload (gasSLoad env) 1 1)
  | SSTORE => Some (that_writes (row opSstore (gasSStore env) 2 0))
  | JUMP => Some (that_jumps (row opJump (constGasFunc GasMidStep) 1 0))
  | JUMPI => Some (that_jumps (row opJumpi (constGasFunc GasSlowStep) 2 0))
  | PC => Some (row opPc (constGasFunc GasQuickStep) 0 1)
  | MSIZE => Some (row opMsize (constGasFunc GasQuickStep) 0 1)
  | GAS => Some (row opGas (constGasFunc GasQuickStep) 0 1)
  | JUMPDEST => Some (row opJumpdest (constGasFunc (JumpdestGas P)) 0 0)
  | _ => None
  end.
Definition frontier_push (op : OpCode) : option operation :=
  match op with
  | PUSH n => if bool_decide (1 ≤ n ≤ 32)%nat then Some (row (makePush n n) gasPush 0 1) else None
  | _ => None
  end.
Definition frontier_copy (op : OpCode) : option operation :=
  match op with
  | DUP n => if bool_decide (1 ≤ n ≤ 16)%nat then Some (row (makeDup n) gasDup n (n + 1)) else None
  | SWAP n => if bool_decide (1 ≤ n ≤ 16)%nat then Some (row (makeSwap n) gasSwap (n + 1) (n + 1)) else None
  | _ => None
  end.

(** From LOG0 to SELFDESTRUCT. *)
Definition frontier_calls (op : OpCode) : option operation :=
  match op with
  | LOG n => if bool_decide (n ≤ 4)%nat
             then Some (that_writes (with_mem memoryLog
                    (row (makeLog env n) (makeGasLog env (Z.of_nat n)) (n + 2) 0)))
             else None
  | CREATE => Some (that_returns (that_writes (with_mem memoryCreate (row (opCreate env calls) (gasCreate env) 3 1))))
  | CALL => Some (that_returns (with_mem memoryCall (row (opCall env calls) (gasCall env) 7 1)))
  | CALLCODE => Some (that_returns (with_mem memoryCall (row (opCallCode env calls) (gasCallCode env) 7 1)))
  | RETURN => Some (that_halts (with_mem memoryReturn (row opReturn (gasReturn env) 2 0)))
  | SELFDESTRUCT => Some (that_writes (that_halts (row (opSuicide env) (gasSuicide env) 1 0)))
  | _ => None
  end.

(** The first row there is. *)
Definition or_else {A} (x y : option A) : option A := match x with Some _ => x | None => y end.
Definition newFrontierInstructionSet (op : OpCode) : option operation :=
  or_else (frontier_arith op) (or_else (frontier_context op) (or_else (frontier_storage op)
    (or_else (frontier_push op) (or_else (frontier_copy op) (frontier_calls op))))).
Definition newHomesteadInstructionSet (op : OpCode) : option operation :=
  match op with
  | DELEGATECALL =>
      Some (that_returns (with_mem memoryDelegateCall (row (opDelegateCall calls) (gasDelegateCall env) 6 1)))
  | _ => newFrontierInstructionSet op
  end.
Definition newByzantiumInstructionSet (op : OpCode) : option operation :=
  match op with
  | STATICCALL =>
      Some (that_returns (with_mem memoryStaticCall (row (opStaticCall calls) (gasStaticCall env) 6 1)))
  | RETURNDATASIZE => Some (row opReturnDataSize (constGasFunc GasQuickStep) 0 1)
  | RETURNDATACOPY =>
      Some (with_mem memoryReturnDataCopy (row opReturnDataCopy (gasReturnDataCopy env) 3 0))
  | REVERT => Some (that_returns (that_reverts (with_mem memoryRevert (row opRevert (gasRevert env) 2 0))))
  | _ => newHomesteadInstructionSet op
  end.
Definition newConstantinopleInstructionSet (op : OpCode) : option operation :=
  match op with
  | SHL => Some (row opSHL (constGasFunc GasFastestStep) 2 1)
  | SHR => Some (row opSHR (constGasFunc GasFastestStep) 2 1)
  | SAR => Some (row opSAR (constGasFunc GasFastestStep) 2 1)
  | EXTCODEHASH => Some (row opExtCodeHash (gasExtCodeHash env) 1 1)
  | CREATE2 => Some (that_returns (that_writes (with_mem memoryCreate2 (row (opCreate2 calls) (gasCreate2 env) 4 1))))
  | _ => newByzantiumInstructionSet op
  end.

(** NewEVMInterpreter's choice. *)
Definition JumpTable (op : OpCode) : option operation :=
  if IsConstantinople env then newConstantinopleInstructionSet op
  else if IsByzantium env then newByzantiumInstructionSet op
  else if IsHomestead env then newHomesteadInstructionSet op
  else newFrontierInstructionSet op.

(** ** interpreter.go *)

Abbreviation F := (SE (Frame St)).

Definition enforceRestrictions (op : OpCode) (o : operation) : F bool :=
  f ← se_get;
  if IsByzantium env && m_readOnly (f_machine f) then
    if writes o then mret false
    else if bool_decide (op = CALL) then
      v ← fback 2; mret (negb (bool_decide (0 < BitLen v)))
    else mret true
  else mret true.

(** The size the memory must have: [None] when it does not fit. *)
Definition memory_needed (o : operation) : F (option Z) :=
  match memorySize o with
  | None => mret (Some 0)
  | Some ms =>
      f ← se_get;
      z ← se_lift (ms (f_stack f));
      let '(memSize, overflow) := bigUint64 z in
      if (overflow : bool) then mret None
      else
        let '(size, overflow) := SafeMul (toWordSize memSize) 32 in
        mret (if (overflow : bool) then None else Some size)
  end.

Definition stop_with (ret : list Z) (err : option VMError) : F (option (list Z * option VMError)) :=
  mret (Some (ret, err)).
Definition vm_error (msg : string) : F (option (list Z * option VMError)) :=
  stop_with [] (Some (OtherVMError msg)).

(** After the operation ran. *)
Definition after_execute (o : operation) (r : list Z + string) : F (option (list Z * option VMError)) :=
  _ ← (if returns o then
         on_machine (se_mod (fun e => mkMachine (m_state e) (m_depth e) (m_readOnly e)
           (match r with inl res => res | inr _ => [] end) (m_callGasTemp e) (m_TransferTokenID e)))
       else mret tt);
  match r with
  | inr e => vm_error e
  | inl res =>
      if reverts o then stop_with res (Some ErrExecutionReverted)
      else if halts o then stop_with res None
      else
        _ ← (if jumps o then mret tt else f ← se_get; set_pc (u64 (f_pc f + 1)));
        mret None
  end.

(** One turn of the loop: [None] to go on, or what Run returns. *)
Definition step : F (option (list Z * option VMError)) :=
  f ← se_get;
  let op := GetOp (f_contract f) (f_pc f) in
  match JumpTable op with
  | None => vm_error "invalid opcode 0x%x"
  | Some o =>
      match makeStackFunc (StackLimit P) (stack_pops o) (stack_pushes o) (f_stack f) with
      | Err e => vm_error e
      | Panic e => se_panic e
      | Ok _ =>
          allowed ← enforceRestrictions op o;
          if negb allowed then vm_error "evm: write protection"
          else
            size ← memory_needed o;
            match (size : option Z) with
            | None => vm_error "gas uint64 overflow"
            | Some size =>
                cost ← catch (gasCost o size);
                match (cost : Z + string) with
                | inr _ => vm_error "out of gas"
                | inl cost =>
                    ok ← fUseGas cost;
                    if negb ok then vm_error "out of gas"
                    else
                      f ← se_get;
                      _ ← (if bool_decide (0 < size) then set_mem (mem_Resize size (f_mem f)) else mret tt);
                      r ← catch (execute o);
                      after_execute o r
                end
            end
      end
  end.

Fixpoint run_loop (fuel : nat) : F (list Z * option VMError) :=
  match fuel with
  | O => se_panic "fuel"
  | S n =>
      r ← step;
      match (r : option (list Z * option VMError)) with
      | Some out => mret out
      | None => run_loop n
      end
  end.

Definition set_depth (d : Z) (e : Machine St) : Machine St :=
  mkMachine (m_state e) d (m_readOnly e) (m_returnData e) (m_callGasTemp e) (m_TransferTokenID e).
Definition set_readOnly (b : bool) (e : Machine St) : Machine St :=
  mkMachine (m_state e) (m_depth e) b (m_returnData e) (m_callGasTemp e) (m_TransferTokenID e).
Definition clear_returnData (e : Machine St) : Machine St :=
  mkMachine (m_state e) (m_depth e) (m_readOnly e) [] (m_callGasTemp e) (m_TransferTokenID e).

Definition interpreter_Run (fuel : nat) (c : Contract) (input : list Z) (readOnly : bool) : M run_result :=
  e0 ← se_get;
  let entered := readOnly && negb (m_readOnly e0) in
  _ ← se_mod (set_depth (m_depth e0 + 1));
  _ ← (if entered then se_mod (set_readOnly true) else mret tt);
  _ ← se_mod clear_returnData;
  r ← (if bool_decide (Code c = []) then mret ([], None, c)
       else
         e ← se_get;
         let '(r, f) := catch (run_loop fuel) (mkFrame 0 (with_input input c) NewMemory [] e) in
         _ ← se_put (f_machine f);
         out ← se_lift r;
         mret (match out with inl out => out | inr msg => ([], Some (OtherVMError msg)) end, f_contract f));
  _ ← (if entered then se_mod (set_readOnly false) else mret tt);
  _ ← se_mod (fun e => set_depth (m_depth e - 1) e);
  mret (r : run_result).

(** ** evm.go *)

Definition run (fuel : nat) (c : Contract) (input : list Z) (readOnly : bool) : M run_result :=
  match CodeAddr c with
  | Some a =>
      match PrecompiledContractsByzantium a with
      | Some p =>
          if bool_decide (EnableTime env a < env_TimeStamp env) then RunPrecompiledContract p input c
          else interpreter_Run fuel c input readOnly
      | None => interpreter_Run fuel c input readOnly
      end
  | None => interpreter_Run fuel c input readOnly
  end.

(** *** core/evm.go *)
Definition CanTransfer (addr amount tokenID : Z) : M bool :=
  b ← machine_state (GetBalance addr tokenID); mret (bool_decide (amount <= b)).
Definition Transfer (sender recipient amount tokenID : Z) : M unit :=
  _ ← machine_state (SubBalance sender amount tokenID);
  machine_state (AddBalance recipient amount tokenID).
Definition posw_blocks (addr amount : Z) : M bool :=
  match env_DisallowMap env !! addr with
  | None => mret false
  | Some v =>
      b ← machine_state (GetBalance addr (env_DefaultToken env));
      mret (bool_decide (b < amount + v))
  end.

(** The end of the calls: check, revert on error, burn the gas unless reverted. *)
Definition settle_call (snapshot : Z) (r : run_result) : M call_result :=
  let '(ret, err, c) := r in
  e ← se_get;
  let err := checkTokenIDQueried err c (m_TransferTokenID e) in
  match err with
  | None => mret (ret, c_Gas c, None)
  | Some er =>
      _ ← machine_state (RevertToSnapshot snapshot);
      let c := if bool_decide (er = ErrExecutionReverted) then c else (UseGas (c_Gas c) c).2 in
      mret (ret, c_Gas c, Some er)
  end.

(** The guards the calls share. *)
Definition too_deep : M bool := e ← se_get; mret (bool_decide (CallCreateDepth P < m_depth e)).
Definition not_recursive : M bool := e ← se_get; mret (NoRecursion env && bool_decide (0 < m_depth e)).

Definition callee_code (addr : Z) (c : Contract) : M Contract :=
  h ← machine_state (GetCodeHash addr);
  code ← machine_state (GetCode addr);
  mret (SetCallCode addr h code c).

Definition Call (fuel : nat) (caller : ContractRef) (addr : Z) (input : list Z) (gas value : Z) : M call_result :=
  nr ← not_recursive;
  if (nr : bool) then mret ([], gas, None) else
  deep ← too_deep;
  if (deep : bool) then mret ([], gas, Some (OtherVMError "max call depth exceeded")) else
  e ← se_get;
  can ← CanTransfer (ref_Address caller) value (m_TransferTokenID e);
  if negb can then mret ([], gas, Some ErrInsufficientBalance) else
  blocked ← posw_blocks (ref_Address caller) value;
  if (blocked : bool) then mret ([], 0, Some ErrPoSWSenderNotAllowed) else
  snapshot ← machine_state Snapshot;
  exists_ ← machine_state (Exist addr);
  let pre := if IsByzantium env then PrecompiledContractsByzantium addr else PrecompiledContractsHomestead addr in
  if negb exists_ && (match pre with None => true | Some _ => false end) && IsEIP158 env && bool_decide (value = 0)
  then mret ([], gas, None)
  else
    _ ← (if (exists_ : bool) then mret tt else machine_state (CreateAccount addr));
    e ← se_get;
    _ ← Transfer (ref_Address caller) addr value (m_TransferTokenID e);
    c ← callee_code addr (NewContract caller addr value gas);
    r ← run fuel c input false;
    settle_call snapshot r.

Definition CallCode (fuel : nat) (caller : ContractRef) (addr : Z) (input : list Z) (gas value : Z) : M call_result :=
  nr ← not_recursive;
  if (nr : bool) then mret ([], gas, None) else
  deep ← too_deep;
  if (deep : bool) then mret ([], gas, Some (OtherVMError "max call depth exceeded")) else
  e ← se_get;
  can ← CanTransfer (ref_Address caller) value (m_TransferTokenID e);
  if negb can then mret ([], gas, Some ErrInsufficientBalance) else
  blocked ← posw_blocks (ref_Address caller) value;
  if (blocked : bool) then mret ([], 0, Some ErrPoSWSenderNotAllowed) else
  snapshot ← machine_state Snapshot;
  c ← callee_code addr (NewContract caller (ref_Address caller) value gas);
  r ← run fuel c input false;
  settle_call snapshot r.

Definition DelegateCall (fuel : nat) (caller : ContractRef) (addr : Z) (input : list Z) (gas : Z) : M call_result :=
  nr ← not_recursive;
  if (nr : bool) then mret ([], gas, None) else
  deep ← too_deep;
  if (deep : bool) then mret ([], gas, Some (OtherVMError "max call depth exceeded")) else
  snapshot ← machine_state Snapshot;
  c ← se_lift (AsDelegate (NewContract caller (ref_Address caller) 0 gas));
  c ← callee_code addr c;
  blocked ← posw_blocks (ref_Address caller) (c_value c);
  if (blocked : bool) then mret ([], 0, Some ErrPoSWSenderNotAllowed) else
  r ← run fuel c input false;
  settle_call snapshot r.

Definition StaticCall (fuel : nat) (caller : ContractRef) (addr : Z) (input : list Z) (gas : Z) : M call_result :=
  nr ← not_recursive;
  if (nr : bool) then mret ([], gas, None) else
  deep ← too_deep;
  if (deep : bool) then mret ([], gas, Some (OtherVMError "max call depth exceeded")) else
  snapshot ← machine_state Snapshot;
  c ← callee_code addr (NewContract caller addr 0 gas);
  let c := SetIsStaticCall true c in
  blocked ← posw_blocks (ref_Address caller) (c_value c);
  if (blocked : bool) then mret ([], 0, Some ErrPoSWSenderNotAllowed) else
  _ ← machine_state (AddBalance addr 0 (env_DefaultToken env));
  r ← run fuel c input true;
  settle_call snapshot r.

(** [create]: the code's hash is known only to Create2. *)
Definition create (fuel : nat) (caller : ContractRef) (code : list Z) (hash gas value address : Z) : M create_result :=
  deep ← too_deep;
  if (deep : bool) then mret ([], 0, gas, Some (OtherVMError "max call depth exceeded")) else
  e ← se_get;
  can ← CanTransfer (ref_Address caller) value (m_TransferTokenID e);
  if negb can then mret ([], 0, gas, Some ErrInsufficientBalance) else
  _ ← (if negb (env_IsApplyXShard env) || negb (bool_decide (Origin env = ref_Address caller)) then
         nonce ← machine_state (GetNonce (ref_Address caller));
         machine_state (SetNonce (ref_Address caller) (u64 (nonce + 1)))
       else mret tt);
  if negb (bool_decide (m_TransferTokenID e = env_DefaultToken env))
  then mret ([], 0, gas, Some (OtherVMError "evm:create only support defalut token id %v")) else
  contractHash ← machine_state (GetCodeHash address);
  nonce ← machine_state (GetNonce address);
  if negb (bool_decide ((nonce : Z) = 0))
     || (negb (bool_decide ((contractHash : Z) = 0)) && negb (bool_decide (contractHash = Keccak256Hash [])))
  then mret ([], 0, 0, Some (OtherVMError "contract address collision")) else
  blocked ← posw_blocks (ref_Address caller) value;
  if (blocked : bool) then mret ([], 0, 0, Some ErrPoSWSenderNotAllowed) else
  snapshot ← machine_state Snapshot;
  _ ← machine_state (CreateAccount address);
  _ ← machine_state (SetNonce address 1);
  _ ← Transfer (ref_Address caller) address value (m_TransferTokenID e);
  let c := SetCallCode address hash code (NewContract caller address value gas) in
  nr ← not_recursive;
  if (nr : bool) then mret ([], address, gas, None) else
  r ← run fuel c [] false;
  let '(ret, err, c) := (r : run_result) in
  e ← se_get;
  let err := checkTokenIDQueried err c (m_TransferTokenID e) in
  let maxCodeSizeExceeded := IsEIP158 env && bool_decide (MaxCodeSize P < Z.of_nat (length ret)) in
  ec ← (if bool_decide (err = None) && negb maxCodeSizeExceeded then
          let createDataGas := u64 (Z.of_nat (length ret) * CreateDataGas P) in
          let '(ok, c) := UseGas createDataGas c in
          if (ok : bool) then _ ← machine_state (SetCode address ret); mret (err, c)
          else mret (Some ErrCodeStoreOutOfGas, c)
        else mret (err, c));
  let '(err, c) := (ec : option VMError * Contract) in
  c ← (if maxCodeSizeExceeded
          || (negb (bool_decide (err = None))
              && (IsHomestead env || negb (bool_decide (err = Some ErrCodeStoreOutOfGas))))
       then
         _ ← machine_state (RevertToSnapshot snapshot);
         mret (if bool_decide (err = Some ErrExecutionReverted) then c else (UseGas (c_Gas c) c).2)
       else mret c);
  let err := if maxCodeSizeExceeded && bool_decide (err = None)
             then Some (OtherVMError "evm: max code size exceeded") else err in
  mret (ret, address, c_Gas c, err).

Definition Create (fuel : nat) (caller : ContractRef) (code : list Z) (gas value : Z)
    (contractRecipient : option Z) : M create_result :=
  contractAddr ← match contractRecipient with
                 | Some a => mret a
                 | None =>
                     nonce ← machine_state (GetNonce (ref_Address caller));
                     mret (CreateAddress (ref_Address caller) (ToFullShardKey env) nonce)
                 end;
  create fuel caller code 0 gas value contractAddr.

Definition Create2 (fuel : nat) (caller : ContractRef) (code : list Z) (gas endowment salt : Z) : M create_result :=
  let hash := Keccak256Hash code in
  create fuel caller code hash gas endowment
    (CreateAddress2 (ref_Address caller) (BigToHash salt) (be_bytes 32 hash)).
End calls.

(** ** The recursion *)
Definition no_fuel {A} : M A := se_panic "fuel".
Fixpoint evm_calls (n : nat) : Calls St :=
  match n with
  | O => mkCalls (fun _ _ _ _ _ => no_fuel) (fun _ _ _ _ _ => no_fuel) (fun _ _ _ _ => no_fuel)
           (fun _ _ _ _ => no_fuel) (fun _ _ _ _ _ => no_fuel) (fun _ _ _ _ _ => no_fuel)
  | S n =>
      let calls := evm_calls n in
      mkCalls (Call calls n) (CallCode calls n) (DelegateCall calls n) (StaticCall calls n)
        (Create calls n) (Create2 calls n)
  end.

(** ** The entries of a transaction: a new machine for each *)
Definition NewEVM (s : St) (TransferTokenID : Z) : Machine St := mkMachine s 0 false [] 0 TransferTokenID.
Definition with_evm {A} (TransferTokenID : Z) (m : SE (Machine St) A) : SE St A := fun s =>
  let '(r, e) := m (NewEVM s TransferTokenID) in (r, m_state e).

(** [evm.Call] and [evm.Create] as TransitionDb uses them. *)
Definition tx_Call (n : nat) (TransferTokenID from to : Z) (data : list Z) (gas value : Z) : SE St call_result :=
  with_evm TransferTokenID (c_Call (evm_calls n) (AccountRef from) to data gas value).
Definition tx_Create (n : nat) (TransferTokenID from : Z) (data : list Z) (gas value : Z)
    (contractAddr : option Z) : SE St call_result :=
  with_evm TransferTokenID
    (r ← c_Create (evm_calls n) (AccountRef from) data gas value contractAddr;
     let '(ret, _, left_, err) := (r : create_result) in mret (ret, left_, err)).
End machine.
