(* ===== verification/EvmLaws.v ===== *)
(** * core/vm: what the machine relies on

    The laws of the state interface the virtual machine's theorems are proved
    against (EvmState.v discharges them for the StateDB), the assumptions on the
    constants of go-ethereum, and the invariants of frames and machines. *)

From S2P Require Import Prelude Utils Account Blocks XShardCursor Consensus Transition TransitionCorrect EvmBase EvmOps EvmRun.

Local Open Scope Z_scope.

Create HintDb evm.

(** The part of a view that a revert restores, with the block's counters of [v']. *)
Definition restored (v v' : view) : view :=
  mkView (v_bal v) (v_nonce v) (v_refund v) (v_gasUsed v') (v_fee v') (v_xlist v').

Abbreviation nonneg := (Forall (fun z => 0 <= z)).
(** A slice of bytes: its length is an int. *)
Definition data_ok (d : list Z) : Prop := nonneg d ∧ Z.of_nat (length d) < 2 ^ 63.

(** [ext s s']: [s'] was reached from [s], every snapshot that was valid in [s] is
    still there, and the counters of the block are what they were. [equiv]: the machine cannot tell two states apart. *)
Class VmLaws (St : Type) `{StateLaws St} `{!VmState St} := {
  ext : St → St → Prop;
  equiv : St → St → Prop;
  ext_refl s : ext s s;
  ext_trans s1 s2 s3 : ext s1 s2 → ext s2 s3 → ext s1 s3;
  equiv_equivalence :: Equivalence equiv;
  bal_nonneg s v a t : reads s v → 0 <= v_bal v a t;
  ext_counters s s' v v' : ext s s' → reads s v → reads s' v' →
    v_gasUsed v' = v_gasUsed v ∧ (∀ t, v_fee v' t = v_fee v t) ∧ v_xlist v' = v_xlist v;

  vm_GetBalance s v a t : reads s v → ∃ s', GetBalance a t s = (Ok (v_bal v a t), s') ∧ reads s' v ∧ ext s s';
  vm_GetNonce s v a : reads s v → ∃ s', GetNonce a s = (Ok (v_nonce v a), s') ∧ reads s' v ∧ ext s s';
  vm_AddBalance s v a x t : reads s v → 0 <= x →
    ∃ s', AddBalance a x t s = (Ok tt, s') ∧ reads s' (add_bal a t x v) ∧ ext s s';
  vm_SubBalance s v a x t : reads s v → 0 <= x <= v_bal v a t →
    ∃ s', SubBalance a x t s = (Ok tt, s') ∧ reads s' (add_bal a t (- x) v) ∧ ext s s';
  vm_SetNonce s v a n : reads s v → 0 <= n < 2 ^ 64 →
    ∃ s', SetNonce a n s = (Ok tt, s') ∧ reads s' (with_nonce a n v) ∧ ext s s';
  vm_CreateAccount s v a : reads s v →
    ∃ s', CreateAccount a s = (Ok tt, s') ∧ reads s' (with_nonce a 0 v) ∧ ext s s';
  vm_GetCodeHash s v a : reads s v →
    ∃ h s', GetCodeHash a s = (Ok h, s') ∧ 0 <= h ∧ reads s' v ∧ ext s s';
  vm_GetCode s v a : reads s v →
    ∃ c s', GetCode a s = (Ok c, s') ∧ nonneg c ∧ reads s' v ∧ ext s s';
  vm_SetCode s v a c : reads s v → ∃ s', SetCode a c s = (Ok tt, s') ∧ reads s' v ∧ ext s s';
  vm_GetCodeSize s v a : reads s v → ∃ n s', GetCodeSize a s = (Ok n, s') ∧ reads s' v ∧ ext s s';
  vm_AddRefund s v g : reads s v →
    ∃ s', AddRefund g s = (Ok tt, s') ∧ reads s' (with_refund (u64 (v_refund v + g)) v) ∧ ext s s';
  vm_GetState s v a k : reads s v →
    ∃ x s', GetState a k s = (Ok x, s') ∧ 0 <= x ∧ reads s' v ∧ ext s s';
  vm_SetState s v a k x : reads s v → ∃ s', SetState a k x s = (Ok tt, s') ∧ reads s' v ∧ ext s s';
  vm_Suicide s v a : reads s v → ∃ b v' s', Suicide a s = (Ok b, s') ∧ reads s' v' ∧ ext s s';
  vm_HasSuicided s v a : reads s v → ∃ b s', HasSuicided a s = (Ok b, s') ∧ reads s' v ∧ ext s s';
  vm_Exist s v a : reads s v → ∃ b s', Exist a s = (Ok b, s') ∧ reads s' v ∧ ext s s';
  vm_Empty s v a : reads s v → ∃ b s', Empty a s = (Ok b, s') ∧ reads s' v ∧ ext s s';
  vm_AddLog s v a ts d n : reads s v → ∃ s', AddLog a ts d n s = (Ok tt, s') ∧ reads s' v ∧ ext s s';
  vm_AddPreimage s v h d : reads s v → ∃ s', AddPreimage h d s = (Ok tt, s') ∧ reads s' v ∧ ext s s';
  equiv_bal s s' v v' a t : equiv s s' → reads s v → reads s' v' → v_bal v a t = v_bal v' a t;
  (** Reading changes nothing that can be seen. *)
  GetBalance_equiv s v a t : reads s v → equiv (GetBalance a t s).2 s;
  GetCodeHash_equiv s v a : reads s v → equiv (GetCodeHash a s).2 s;
  GetCode_equiv s v a : reads s v → equiv (GetCode a s).2 s;
  Snapshot_equiv s v : reads s v → equiv (Snapshot s).2 s;
  (** A snapshot can be reverted to as long as it is there. *)
  vm_Snapshot s v : reads s v →
    ∃ id s', Snapshot s = (Ok id, s') ∧ reads s' v ∧ ext s s' ∧
      ∀ s2 v2, ext s' s2 → reads s2 v2 →
        ∃ s3, RevertToSnapshot id s2 = (Ok tt, s3) ∧ equiv s3 s ∧ reads s3 (restored v v2) ∧ ext s s3;
}.

(** ** The constants: their documented values satisfy this *)
Record params_sensible (p : VmParams) : Prop := {
  limit_pos : 0 < StackLimit p;
  pay_stipend : 0 <= CallStipend p <= CallValueTransferGas p;
  small_call_gas : CallValueTransferGas p < 2 ^ 32 ∧ 0 <= CallNewAccountGas p < 2 ^ 32;
  pos_sha3 : 0 < Sha3Gas p < 2 ^ 64;
  pos_create : 0 < CreateGas p < 2 ^ 64 ∧ 0 < Create2Gas p < 2 ^ 64;
  pos_log : 0 < LogGas p < 2 ^ 64;
  pos_jumpdest : 0 < JumpdestGas p;
  pos_sstore : 0 < SstoreSetGas p ∧ 0 < SstoreClearGas p ∧ 0 < SstoreResetGas p;
  word_gas : 0 <= Sha3WordGas p < 2 ^ 64 ∧ 0 <= CopyGas p < 2 ^ 64 ∧ 0 <= LogDataGas p < 2 ^ 64;
  modexp_div : 0 < ModExpQuadCoeffDiv p <= 20;
  nonneg_gas : 0 <= EcrecoverGas p ∧ 0 <= Bn256AddGas p ∧ 0 <= Bn256ScalarMulGas p;
}.
Record table_sensible (env : VmEnv) : Prop := {
  pos_extcode : 0 < gt_ExtcodeSize (gasTable env) ∧ 0 < gt_ExtcodeCopy (gasTable env) < 2 ^ 64;
  pos_exthash : IsConstantinople env = true → 0 < gt_ExtcodeHash (gasTable env);
  pos_balance : 0 < gt_Balance (gasTable env);
  pos_sload : 0 < gt_SLoad (gasTable env);
  pos_calls : 0 < gt_Calls (gasTable env) < 2 ^ 32;
  nonneg_suicide : 0 <= gt_Suicide (gasTable env);
}.

(** The hashes and the context are numbers. *)
Record env_sensible (env : VmEnv) (Keccak256Hash : list Z → Z) : Prop := {
  env_params : params_sensible (vparams env);
  env_table : table_sensible env;
  env_origin : 0 <= Origin env;
  env_price : 0 <= GasPrice env;
  env_coinbase : 0 <= env_Coinbase env;
  env_hash n : 0 <= GetHash env n;
  env_keccak d : 0 <= Keccak256Hash d;
  env_bytecode a : nonneg (SystemBytecode env a);
}.
Record crypto_sensible `{Crypto} : Prop := {
  sha256_bytes d : nonneg (sha256 d);
  ripemd160_bytes d : nonneg (ripemd160 d);
  G1_Marshal_bytes p : nonneg (G1_Marshal p);
}.

(** ** Invariants *)
Definition max_mem : Z := 0xffffffffe0.
(** Gas no block can hold: twice this would reach the overflows of [getData]. *)
Definition max_gas : Z := 2 ^ 62.

Definition ref_ok (r : ContractRef) : Prop :=
  match r with
  | AccountRef a => 0 <= a
  | ContractOf a ca v => 0 <= a ∧ 0 <= ca ∧ 0 <= v
  end.

Record contract_ok (c : Contract) : Prop := {
  co_code : nonneg (Code c);
  co_input : nonneg (Input c);
  co_gas : 0 <= c_Gas c < max_gas;
  co_value : 0 <= c_value c;
  co_self : 0 <= self c;
  co_caller : 0 <= CallerAddress c;
  co_ref : ref_ok (caller c);
  co_addr : is_Some (CodeAddr c);
}.

Record mem_ok (m : Memory) : Prop := {
  mo_bytes : nonneg (store m);
  mo_len : mem_Len m <= max_mem;
}.

(** Two contracts that differ in gas and in the token flag at most. *)
Record same_contract (c c' : Contract) : Prop := {
  sc_caller : CallerAddress c' = CallerAddress c;
  sc_ref : caller c' = caller c;
  sc_self : self c' = self c;
  sc_code : Code c' = Code c;
  sc_addr : CodeAddr c' = CodeAddr c;
  sc_value : c_value c' = c_value c;
  sc_input : Input c' = Input c;
}.
#[export] Instance same_contract_preorder : PreOrder same_contract.
Proof. split; [by intros c|intros c1 c2 c3 [] []; split; congruence]. Qed.

Section invariants.
Context {St : Type} `{VmLaws St}.

Record machine_ok (e : Machine St) : Prop := {
  ma_reads : ∃ v, reads (m_state e) v;
  ma_data : nonneg (m_returnData e);
  ma_temp : 0 <= m_callGasTemp e;
}.
Record same_machine (e e' : Machine St) : Prop := {
  sm_ext : ext (m_state e) (m_state e');
  sm_depth : m_depth e' = m_depth e;
  sm_readOnly : m_readOnly e' = m_readOnly e;
  sm_token : m_TransferTokenID e' = m_TransferTokenID e;
}.
#[export] Instance same_machine_preorder : PreOrder same_machine.
Proof.
  split; [intros e; split; [apply ext_refl|done..]|].
  intros e1 e2 e3 [] []. split; [by eapply ext_trans|congruence..].
Qed.

Record frame_ok (f : Frame St) : Prop := {
  fo_pc : in_u64 (f_pc f);
  fo_contract : contract_ok (f_contract f);
  fo_mem : mem_ok (f_mem f);
  fo_stack : nonneg (f_stack f);
  fo_machine : machine_ok (f_machine f);
}.
Record same_frame (f f' : Frame St) : Prop := {
  sf_contract : same_contract (f_contract f) (f_contract f');
  sf_machine : same_machine (f_machine f) (f_machine f');
}.
#[export] Instance same_frame_preorder : PreOrder same_frame.
Proof.
  split; [intros f; split; reflexivity|].
  intros f1 f2 f3 [] []. split; by etrans.
Qed.
End invariants.
#[export] Hint Resolve co_code co_input co_gas co_value co_self co_caller co_ref co_addr mo_bytes mo_len
  ma_reads ma_data ma_temp fo_pc fo_contract fo_mem fo_stack fo_machine : evm.
