(* ===== verification/EvmInstr.v ===== *)
(** * core/vm: every instruction keeps the frame's invariant

    From a frame in order, with the operands its row of the jump table asks for
    and the memory its size function asks for, an instruction does not panic:
    it ends in a frame in order, with the number of results of its row. *)

From S2P Require Import Prelude Utils Account Blocks XShardCursor Consensus Transition TransitionCorrect EvmBase EvmAnalysis EvmOps EvmRun EvmLaws.

Local Open Scope Z_scope.

(** ** Words, slices and memory *)

Lemma BitLen_over z k : 0 <= z → 0 < k → k < BitLen z ↔ 2 ^ k <= z.
Proof.
  intros Hz Hk. unfold BitLen. case_bool_decide as H0.
  - subst. assert (0 < 2 ^ k) by (apply Z.pow_pos_nonneg; lia). lia.
  - rewrite Z.log2_le_pow2 by lia. lia.
Qed.

Lemma bigUint64_spec z : 0 <= z → bigUint64 z = (u64 z, bool_decide (max_u64 < z)).
Proof.
  intros Hz. unfold bigUint64. f_equal. apply bool_decide_ext. rewrite BitLen_over by lia.
  unfold max_u64. lia.
Qed.

Lemma toWordSize_spec z : 0 <= z <= max_u64 → 0 <= toWordSize z ∧ z <= 32 * toWordSize z ∧ toWordSize z <= 2 ^ 59.
Proof.
  unfold max_u64. intros Hz. unfold toWordSize, max_u64. case_bool_decide as Hc.
  - change ((2 ^ 64 - 1) / 32 + 1) with (2 ^ 59). lia.
  - pose proof (Z.div_mod (z + 31) 32 ltac:(lia)). pose proof (Z.mod_pos_bound (z + 31) 32 ltac:(lia)).
    assert ((z + 31) / 32 <= 2 ^ 59) by (apply Z.div_le_upper_bound; lia). lia.
Qed.

Lemma data_slice_ok data s e :
  nonneg data → 0 <= s <= e → e <= Z.of_nat (length data) →
  ∃ d, slice data s e = Ok d ∧ nonneg d ∧ Z.of_nat (length d) = e - s.
Proof.
  intros Hd Hs He. unfold slice. rewrite bool_decide_true by lia. eexists. split; [done|].
  split; [by apply Forall_take, Forall_drop|]. rewrite length_take, length_drop. lia.
Qed.

Lemma nonneg_repeat n : nonneg (repeat 0 n).
Proof. induction n; cbn; by constructor. Qed.
Lemma nonneg_be_bytes n z : nonneg (be_bytes n z).
Proof. eapply Forall_impl; [apply be_bytes_ok|]. intros x [Hx _]. done. Qed.
Lemma be_value_nonneg l : nonneg l → 0 <= be_value l.
Proof.
  induction l as [|x l IH] using rev_ind; [done|]. intros [Hl [Hx _]%Forall_cons]%Forall_app.
  rewrite be_value_snoc. specialize (IH Hl). lia.
Qed.
#[export] Hint Resolve nonneg_repeat nonneg_be_bytes be_value_nonneg : evm.

Section padding.
Context `{EthMathLaws}.

Lemma nonneg_RightPad d l : nonneg d → nonneg (RightPadBytes d l).
Proof. intros Hd. rewrite RightPadBytes_spec. apply Forall_app. split; [done|apply nonneg_repeat]. Qed.
Lemma nonneg_LeftPad d l : nonneg d → nonneg (LeftPadBytes d l).
Proof. intros Hd. rewrite LeftPadBytes_spec. apply Forall_app. split; [apply nonneg_repeat|done]. Qed.

Lemma getDataBig_ok data start size :
  nonneg data → 0 <= start → 0 <= size → ∃ d, getDataBig data start size = Ok d ∧ nonneg d.
Proof.
  intros Hd Hs Hz. unfold getDataBig.
  destruct (data_slice_ok data (Z.min start (Z.of_nat (length data)))
    (Z.min (Z.min start (Z.of_nat (length data)) + size) (Z.of_nat (length data))) Hd) as (d&Heq&Hn&_); [lia..|].
  rewrite Heq. eexists. split; [reflexivity|]. by apply nonneg_RightPad.
Qed.

Lemma getData_ok data start size :
  nonneg data → 0 <= start → 0 <= size → start + size < 2 ^ 64 →
  ∃ d, getData data start size = Ok d ∧ nonneg d.
Proof.
  intros Hd Hs Hz Hlim. unfold getData. set (n := Z.of_nat (length data)).
  set (s := if bool_decide (n < start) then n else start).
  assert (0 <= s <= n ∧ s <= start) as Hsn by (unfold s, n; case_bool_decide; lia).
  rewrite u64_id by (unfold in_u64; lia).
  destruct (data_slice_ok data s (if bool_decide (n < s + size) then n else s + size) Hd) as (d&Heq&Hn&_);
    [case_bool_decide; lia|case_bool_decide; lia|].
  rewrite Heq. eexists. split; [reflexivity|]. by apply nonneg_RightPad.
Qed.
End padding.

Lemma nonneg_copy_at dst off n v : nonneg dst → nonneg v → nonneg (copy_at dst off n v).
Proof.
  intros Hd Hv. unfold copy_at. apply Forall_app. split; [by apply Forall_take|].
  apply Forall_app. split; [by apply Forall_take|by apply Forall_drop].
Qed.
Lemma length_copy_at dst off n v :
  (off + n ≤ length dst)%nat → length (copy_at dst off n v) = length dst.
Proof. intros Hl. unfold copy_at. rewrite !length_app, !length_take, length_drop. lia. Qed.

(** The memory holds what an access of [l] bytes at [off] needs. *)
Definition holds (m : Memory) (off l : Z) : Prop := calcMemSize off l <= mem_Len m.

Lemma holds_inv m off l : holds m off l → mem_ok m → 0 <= off → 0 < l → 0 <= off + l <= mem_Len m ∧ off + l <= 2 ^ 40.
Proof.
  unfold holds, calcMemSize. intros Hh [_ Hl] Ho Hp. rewrite bool_decide_false in Hh by lia.
  unfold max_mem in Hl. lia.
Qed.

Lemma mem_Set_ok m off l v :
  mem_ok m → 0 <= off → 0 <= l → holds m off l → nonneg v →
  ∃ m', mem_Set (u64 off) (u64 l) v m = Ok m' ∧ mem_ok m' ∧ mem_Len m' = mem_Len m.
Proof.
  intros Hm Ho Hl Hh Hv. destruct (decide (l = 0)) as [->|Hl0].
  { exists m. by change (u64 0) with 0. }
  destruct (holds_inv m off l Hh Hm Ho ltac:(lia)) as [Hb1 Hb2].
  rewrite !u64_id by (unfold in_u64; lia). unfold mem_Set. rewrite bool_decide_true by lia.
  rewrite u64_id by (unfold in_u64; lia). rewrite !bool_decide_false by lia.
  assert (length (copy_at (store m) (Z.to_nat off) (Z.to_nat l) v) = length (store m)) as Hlen
    by (apply length_copy_at; unfold mem_Len in *; lia).
  eexists. split; [reflexivity|]. destruct Hm as [Hmb Hml]. unfold mem_Len in *. cbn. rewrite Hlen. split; [|done].
  split; [by apply nonneg_copy_at|]. unfold mem_Len. cbn. by rewrite Hlen.
Qed.

Lemma mem_Set32_ok m off val :
  mem_ok m → 0 <= off → holds m off 32 →
  ∃ m', mem_Set32 (u64 off) val m = Ok m' ∧ mem_ok m' ∧ mem_Len m' = mem_Len m.
Proof.
  intros Hm Ho Hh. destruct (holds_inv m off 32 Hh Hm Ho ltac:(lia)) as [Hb1 Hb2].
  unfold mem_Set32. rewrite !u64_id by (unfold in_u64; rewrite ?u64_id by (unfold in_u64; lia); lia).
  rewrite !bool_decide_false by lia.
  assert (length (copy_at (store m) (Z.to_nat off) 32 (be_bytes 32 val)) = length (store m)) as Hlen
    by (apply length_copy_at; unfold mem_Len in *; lia).
  eexists. split; [reflexivity|]. destruct Hm as [Hmb Hml]. unfold mem_Len in *. cbn [store]. rewrite Hlen.
  split; [|done]. split; [apply nonneg_copy_at; [done|apply nonneg_be_bytes]|].
  unfold mem_Len. cbn [store]. by rewrite Hlen.
Qed.

Lemma mem_Get_ok m off l :
  mem_ok m → 0 <= off → 0 <= l → holds m off l →
  ∃ d, mem_Get (i64 off) (i64 l) m = Ok d ∧ data_ok d.
Proof.
  intros Hm Ho Hl Hh. unfold mem_Get. destruct (decide (l = 0)) as [->|Hl0].
  { exists []. by split_and!. }
  destruct (holds_inv m off l Hh Hm Ho ltac:(lia)) as [Hb1 Hb2].
  rewrite !i64_small by lia. rewrite bool_decide_false, bool_decide_true by lia.
  destruct (data_slice_ok (store m) off (off + l)) as (d&Heq&Hd&Hlen); [apply Hm|lia|unfold mem_Len in *; lia|].
  exists d. split; [done|]. split; [done|lia].
Qed.

(** ** Reasoning about frames *)

(** The panics of the precompiled contracts that an input can reach. *)
Definition known_panic (env : VmEnv) (p : string) : Prop :=
  (EnableTime env deploySystemContractAddr < env_TimeStamp env ∧ p = scope_panic)
  ∨ (EnableTime env BalanceMNTAddr < env_TimeStamp env ∧ p = "data's len should <= 32"%string).

Section hoare.
Context `{EthMathLaws} {St : Type} `{VmLaws St}.
Context (env : VmEnv) (Keccak256Hash : list Z → Z) (Henv : env_sensible env Keccak256Hash).
Abbreviation F := (SE (Frame St)).

(** From [f], [m] keeps the frame in order and at most [G] gas, or panics in a
    known way; with a result it establishes [Q]. *)
Definition hoare {A} (m : F A) (f : Frame St) (G : Z) (Q : A → Frame St → Prop) : Prop :=
  match m f with
  | (Ok a, f') => frame_ok f' ∧ same_frame f f' ∧ c_Gas (f_contract f') <= G ∧ Q a f'
  | (Err _, f') => frame_ok f' ∧ same_frame f f' ∧ c_Gas (f_contract f') <= G
  | (Panic p, _) => known_panic env p
  end.

Lemma hoare_ret {A} (a : A) f G Q :
  frame_ok f → c_Gas (f_contract f) <= G → Q a f → hoare (mret a) f G Q.
Proof. intros Hf HG HQ. unfold hoare. se_red. split_and!; [done|reflexivity|done|done]. Qed.

Lemma hoare_err {A} msg f G (Q : A → Frame St → Prop) :
  frame_ok f → c_Gas (f_contract f) <= G → hoare (se_err msg) f G Q.
Proof. intros Hf HG. unfold hoare. se_red. split_and!; [done|reflexivity|done]. Qed.

Lemma hoare_bind {A B} (m : F A) (k : A → F B) f G (Q : A → Frame St → Prop) (R : B → Frame St → Prop) :
  hoare m f G Q →
  (∀ a f', frame_ok f' → same_frame f f' → c_Gas (f_contract f') <= G → Q a f' → hoare (k a) f' G R) →
  hoare (m ≫= k) f G R.
Proof.
  unfold hoare. intros Hm Hk. se_red. destruct (m f) as [[a|e|p] f']; [|done|done].
  destruct Hm as (Hf&Hs&HG&HQ). specialize (Hk a f' Hf Hs HG HQ).
  destruct (k a f') as [[b|e|p] f'']; [| |done].
  - destruct Hk as (?&?&?&?). split_and!; [done|by etrans|done|done].
  - destruct Hk as (?&?&?). split_and!; [done|by etrans|done].
Qed.

Lemma hoare_weaken {A} (m : F A) f G G' (Q R : A → Frame St → Prop) :
  hoare m f G Q → G <= G' → (∀ a f', frame_ok f' → Q a f' → R a f') → hoare m f G' R.
Proof.
  unfold hoare. intros Hm HG HQ. destruct (m f) as [[a|e|p] f']; [| |done].
  - destruct Hm as (?&?&?&?). split_and!; [done|done|lia|by apply HQ].
  - destruct Hm as (?&?&?). split_and!; [done|done|lia].
Qed.

Lemma hoare_get {A} (k : Frame St → F A) f G Q : hoare (k f) f G Q → hoare (g ← se_get; k g) f G Q.
Proof. done. Qed.

(** A step that changes neither contract nor machine. *)
Lemma hoare_local {A B} (m : F A) (k : A → F B) f f' a G Q :
  m f = (Ok a, f') → f_contract f' = f_contract f → f_machine f' = f_machine f →
  hoare (k a) f' G Q → hoare (m ≫= k) f G Q.
Proof.
  unfold hoare. intros Hm Hc He Hk. se_red. rewrite Hm.
  assert (∀ g, same_frame f' g → same_frame f g) as Hs by (intros g []; split; congruence).
  destruct (k a f') as [[b|e|p] f'']; [| |done].
  - destruct Hk as (?&?&?&?). split_and!; [done|by apply Hs|done|done].
  - destruct Hk as (?&?&?). split_and!; [done|by apply Hs|done].
Qed.

Lemma hoare_lift {A B} (r : result A) (k : A → F B) f a G Q :
  r = Ok a → hoare (k a) f G Q → hoare (x ← se_lift r; k x) f G Q.
Proof. intros ->. by apply hoare_local. Qed.

Lemma stack_ok pc c m st st' e :
  frame_ok (mkFrame pc c m st e) → nonneg st' → frame_ok (mkFrame pc c m st' e : Frame St).
Proof. intros [] ?. by split. Qed.
Lemma stack_tail_ok pc c m x st e :
  frame_ok (mkFrame pc c m (x :: st) e) → 0 <= x ∧ frame_ok (mkFrame pc c m st e : Frame St).
Proof.
  intros Hf. pose proof (fo_stack _ Hf) as [Hx Hst]%Forall_cons. split; [done|]. by eapply stack_ok.
Qed.

Lemma hoare_pop {A} (k : Z → F A) pc c m x st e G Q :
  frame_ok (mkFrame pc c m (x :: st) e) →
  (0 <= x → frame_ok (mkFrame pc c m st e) → hoare (k x) (mkFrame pc c m st e) G Q) →
  hoare (y ← fpop; k y) (mkFrame pc c m (x :: st) e) G Q.
Proof.
  intros Hf Hk. destruct (stack_tail_ok _ _ _ _ _ _ Hf) as [Hx Hf'].
  eapply hoare_local; [reflexivity|done|done|by apply Hk].
Qed.

Lemma hoare_push {A} (k : unit → F A) pc c m x st e G Q :
  frame_ok (mkFrame pc c m st e) → 0 <= x →
  (frame_ok (mkFrame pc c m (x :: st) e) → hoare (k tt) (mkFrame pc c m (x :: st) e) G Q) →
  hoare (u ← fpush x; k u) (mkFrame pc c m st e) G Q.
Proof.
  intros Hf Hx Hk. eapply hoare_local; [reflexivity|done|done|]. apply Hk.
  eapply stack_ok; [done|]. constructor; [done|apply Hf].
Qed.

Lemma hoare_pushval pc c m x st e G Q :
  frame_ok (mkFrame pc c m st e) → 0 <= x → c_Gas c <= G →
  (∀ f', f_stack f' = x :: st → Q [] f') →
  hoare (pushval x) (mkFrame pc c m st e) G Q.
Proof.
  intros Hf Hx HG HQ. unfold pushval. apply hoare_push; [done|done|]. intros Hf'.
  by apply hoare_ret; [| |apply HQ].
Qed.

(** The machine with another state. *)
Definition with_state (s : St) (e : Machine St) : Machine St :=
  mkMachine s (m_depth e) (m_readOnly e) (m_returnData e) (m_callGasTemp e) (m_TransferTokenID e).

Lemma machine_state_run {A} (op : SE St A) e r s' :
  op (m_state e) = (r, s') → machine_state op e = (r, with_state s' e).
Proof. intros Hop. unfold machine_state. by rewrite Hop. Qed.

Lemma with_state_ok e s' v : machine_ok e → reads s' v → machine_ok (with_state s' e).
Proof. intros [Hr Hd Ht] Hs. split; [by exists v|done|done]. Qed.

Lemma with_state_same e s' : ext (m_state e) s' → same_machine e (with_state s' e).
Proof. by split. Qed.

Lemma hoare_state {A B} (op : SE St A) (k : A → F B) pc c m st e a s' v G Q :
  frame_ok (mkFrame pc c m st e) →
  op (m_state e) = (Ok a, s') → reads s' v → ext (m_state e) s' →
  (frame_ok (mkFrame pc c m st (with_state s' e)) → hoare (k a) (mkFrame pc c m st (with_state s' e)) G Q) →
  hoare (x ← state op; k x) (mkFrame pc c m st e) G Q.
Proof.
  intros Hf Hop Hs Hx Hk.
  assert (frame_ok (mkFrame pc c m st (with_state s' e))) as Hf'.
  { destruct Hf. split; try done. by eapply with_state_ok. }
  specialize (Hk Hf'). unfold hoare in *. unfold state, on_machine. se_red.
  cbn [f_machine f_pc f_contract f_mem f_stack]. rewrite (machine_state_run _ _ _ _ Hop).
  assert (∀ g, same_frame (mkFrame pc c m st (with_state s' e)) g → same_frame (mkFrame pc c m st e) g) as Hsame.
  { intros g [Hg1 Hg2]. split; [exact Hg1|]. etrans; [|exact Hg2]. by apply with_state_same. }
  destruct (k a _) as [[b|er|p] f'']; [| |done].
  - destruct Hk as (?&?&?&?). split_and!; [done|by apply Hsame|done|done].
  - destruct Hk as (?&?&?). split_and!; [done|by apply Hsame|done].
Qed.

Lemma hoare_mem {A} (k : unit → F A) pc c m m' st e G Q :
  frame_ok (mkFrame pc c m st e) → mem_ok m' →
  (frame_ok (mkFrame pc c m' st e) → hoare (k tt) (mkFrame pc c m' st e) G Q) →
  hoare (u ← set_mem m'; k u) (mkFrame pc c m st e) G Q.
Proof.
  intros Hf Hm Hk. eapply hoare_local; [reflexivity|done|done|]. apply Hk. destruct Hf. by split.
Qed.

Lemma hoare_memory_Set {A} (k : unit → F A) pc c m st e off l v G Q :
  frame_ok (mkFrame pc c m st e) → 0 <= off → 0 <= l → holds m off l → nonneg v →
  (∀ m', frame_ok (mkFrame pc c m' st e) → hoare (k tt) (mkFrame pc c m' st e) G Q) →
  hoare (u ← memory_Set (u64 off) (u64 l) v; k u) (mkFrame pc c m st e) G Q.
Proof.
  intros Hf Ho Hl Hh Hv Hk. destruct (mem_Set_ok m off l v (fo_mem _ Hf) Ho Hl Hh Hv) as (m'&Heq&Hm'&_).
  assert (memory_Set (u64 off) (u64 l) v (mkFrame pc c m st e) = (Ok tt, mkFrame pc c m' st e)) as Hrun.
  { unfold memory_Set. se_red. cbn [f_mem]. by rewrite Heq. }
  eapply hoare_local; [exact Hrun|done|done|]. apply Hk. destruct Hf. by split.
Qed.

Lemma hoare_memory_Get {A} (k : list Z → F A) pc c m st e off l G Q :
  frame_ok (mkFrame pc c m st e) → 0 <= off → 0 <= l → holds m off l →
  (∀ d, data_ok d → hoare (k d) (mkFrame pc c m st e) G Q) →
  hoare (d ← memory_Get (i64 off) (i64 l); k d) (mkFrame pc c m st e) G Q.
Proof.
  intros Hf Ho Hl Hh Hk. destruct (mem_Get_ok m off l (fo_mem _ Hf) Ho Hl Hh) as (d&Heq&Hd).
  eapply hoare_local; [|done|done|by apply (Hk d)]. unfold memory_Get. se_red. cbn [f_mem]. by rewrite Heq.
Qed.

End hoare.

(** Take the operands off the stack by name. *)
Ltac operands H :=
  repeat match type of H with
  | (S _ ≤ length ?s)%nat => destruct s as [|? s]; [by inversion H|]; cbn [length] in H; apply le_S_n in H
  end.
(** Run the pops. *)
Ltac pops := repeat (apply hoare_pop; [done|intros ? ?]).
(** End with a push, or without. *)
Ltac finish_push := apply hoare_pushval; [done| |done|
  intros ?f' ?Hst; split; [done|]; rewrite ?Hst; cbn [length]; lia].
Ltac finish_ret := apply hoare_ret; [done|done|split; [done|cbn [f_stack length]; lia]].
(** The start of every instruction. *)
Ltac op_start := let Hf := fresh "Hf" in let Hlen := fresh "Hlen" in let Hmem := fresh "Hmem" in
  intros pc c m st e Hf Hlen Hmem; operands Hlen; cbn [length].

Ltac op_get := apply hoare_get; cbn [f_pc f_contract f_mem f_stack f_machine].
(** What the row's size function says about the memory. *)
Ltac mem_holds H := let z := fresh "z" in let Hz := fresh "Hz" in
  destruct H as (z&Hz&H); injection Hz as <-.

Section instr.
Context `{EthMathLaws} {St : Type} `{VmLaws St}.
Context (env : VmEnv) (Keccak256Hash : list Z → Z) (Henv : env_sensible env Keccak256Hash).
Abbreviation F := (SE (Frame St)).
Abbreviation hoare := (hoare env).

(** ** The instructions *)

(** What the memory must hold, from the row's size function. *)
Definition mem_fits (ms : option (list Z → result Z)) (st : list Z) (m : Memory) : Prop :=
  match ms with None => True | Some g => ∃ z, g st = Ok z ∧ z <= mem_Len m end.

Definition op_ok (p q : nat) (ms : option (list Z → result Z)) (ex : F (list Z)) : Prop :=
  ∀ pc c m st e, frame_ok (mkFrame pc c m st e) → (p ≤ length st)%nat → mem_fits ms st m →
  hoare ex (mkFrame pc c m st e) (c_Gas c)
    (fun ret f' => nonneg ret ∧ (length (f_stack f') + p = length st + q)%nat).

Lemma binop_ok g : (∀ x y, 0 <= x → 0 <= y → 0 <= g x y) → op_ok 2 1 None (binop g).
Proof. intros Hg. op_start. unfold binop. pops. finish_push. by apply Hg. Qed.
Lemma unop_ok g : (∀ x, 0 <= x → 0 <= g x) → op_ok 1 1 None (unop g).
Proof. intros Hg. op_start. unfold unop. pops. finish_push. by apply Hg. Qed.
Lemma pushval_ok x : 0 <= x → op_ok 0 1 None (pushval x).
Proof. intros Hx. op_start. by finish_push. Qed.

Lemma U256_nonneg x : 0 <= U256 x.
Proof. rewrite U256_spec. apply Z.mod_pos_bound. lia. Qed.
Lemma b2z_nonneg b : 0 <= b2z b.
Proof. by destruct b. Qed.
Hint Resolve U256_nonneg b2z_nonneg : evm.

Ltac nonneg_cases := intros; cbv zeta; repeat first [case_bool_decide | case_match]; auto with evm; try lia.

Lemma opAdd_ok : op_ok 2 1 None opAdd.
Proof. apply binop_ok. nonneg_cases. Qed.
Lemma opSub_ok : op_ok 2 1 None opSub.
Proof. apply binop_ok. nonneg_cases. Qed.
Lemma opMul_ok : op_ok 2 1 None opMul.
Proof. apply binop_ok. nonneg_cases. Qed.
Lemma opDiv_ok : op_ok 2 1 None opDiv.
Proof. apply binop_ok. nonneg_cases. Qed.
Lemma opSdiv_ok : op_ok 2 1 None opSdiv.
Proof. apply binop_ok. nonneg_cases. Qed.
Lemma opMod_ok : op_ok 2 1 None opMod.
Proof. apply binop_ok. nonneg_cases. Qed.
Lemma opSmod_ok : op_ok 2 1 None opSmod.
Proof. apply binop_ok. nonneg_cases. Qed.
Lemma opExp_ok : op_ok 2 1 None opExp.
Proof.
  apply binop_ok. nonneg_cases. rewrite math_Exp_spec by lia. apply Z.mod_pos_bound. lia.
Qed.
Lemma opNot_ok : op_ok 1 1 None opNot.
Proof. apply unop_ok. nonneg_cases. Qed.
Lemma opLt_ok : op_ok 2 1 None opLt.
Proof. apply binop_ok. auto with evm. Qed.
Lemma opGt_ok : op_ok 2 1 None opGt.
Proof. apply binop_ok. auto with evm. Qed.
Lemma opSlt_ok : op_ok 2 1 None opSlt.
Proof. apply binop_ok. intros x y _ _. repeat case_match; auto with evm; lia. Qed.
Lemma opSgt_ok : op_ok 2 1 None opSgt.
Proof. apply binop_ok. intros x y _ _. repeat case_match; auto with evm; lia. Qed.
Lemma opEq_ok : op_ok 2 1 None opEq.
Proof. apply binop_ok. auto with evm. Qed.
Lemma opIszero_ok : op_ok 1 1 None opIszero.
Proof. apply unop_ok. nonneg_cases. Qed.
Lemma opAnd_ok : op_ok 2 1 None opAnd.
Proof. apply binop_ok. intros x y Hx Hy. apply Z.land_nonneg. lia. Qed.
Lemma opOr_ok : op_ok 2 1 None opOr.
Proof. apply binop_ok. intros x y Hx Hy. by apply Z.lor_nonneg. Qed.
Lemma opXor_ok : op_ok 2 1 None opXor.
Proof. apply binop_ok. intros x y Hx Hy. apply Z.lxor_nonneg. lia. Qed.
Lemma opByte_ok : op_ok 2 1 None opByte.
Proof.
  apply binop_ok. intros x y Hx Hy. case_bool_decide; [|lia].
  rewrite i64_small, math_Byte_spec by lia. apply Z.mod_pos_bound. lia.
Qed.
Lemma opSHL_ok : op_ok 2 1 None opSHL.
Proof. apply binop_ok. nonneg_cases. Qed.
Lemma opSHR_ok : op_ok 2 1 None opSHR.
Proof. apply binop_ok. nonneg_cases. Qed.
Lemma opSAR_ok : op_ok 2 1 None opSAR.
Proof. apply binop_ok. nonneg_cases. Qed.
Lemma opAddmod_ok : op_ok 3 1 None opAddmod.
Proof. op_start. unfold opAddmod. pops. finish_push. nonneg_cases. Qed.
Lemma opMulmod_ok : op_ok 3 1 None opMulmod.
Proof. op_start. unfold opMulmod. pops. finish_push. nonneg_cases. Qed.
Lemma opSignExtend_ok : op_ok 2 1 None opSignExtend.
Proof.
  op_start. unfold opSignExtend. apply hoare_pop; [done|intros ? ?]. case_bool_decide.
  - pops. finish_push. auto with evm.
  - finish_ret.
Qed.
Lemma opPop_ok : op_ok 1 0 None opPop.
Proof. op_start. unfold opPop. pops. finish_ret. Qed.
Lemma opStop_ok : op_ok 0 0 None opStop.
Proof. op_start. unfold opStop. finish_ret. Qed.
Lemma opJumpdest_ok : op_ok 0 0 None opJumpdest.
Proof. op_start. unfold opJumpdest. finish_ret. Qed.

(** *** What the frame and the context say *)
Lemma opAddress_ok : op_ok 0 1 None opAddress.
Proof. op_start. unfold opAddress. op_get. finish_push. apply Hf. Qed.
Lemma opCaller_ok : op_ok 0 1 None opCaller.
Proof. op_start. unfold opCaller. op_get. finish_push. apply Hf. Qed.
Lemma opCallValue_ok : op_ok 0 1 None opCallValue.
Proof. op_start. unfold opCallValue. op_get. finish_push. apply Hf. Qed.
Lemma opCallDataSize_ok : op_ok 0 1 None opCallDataSize.
Proof. op_start. unfold opCallDataSize. op_get. finish_push. lia. Qed.
Lemma opReturnDataSize_ok : op_ok 0 1 None opReturnDataSize.
Proof. op_start. unfold opReturnDataSize. op_get. finish_push. lia. Qed.
Lemma opCodeSize_ok : op_ok 0 1 None opCodeSize.
Proof. op_start. unfold opCodeSize. op_get. finish_push. lia. Qed.
Lemma opPc_ok : op_ok 0 1 None opPc.
Proof. op_start. unfold opPc. op_get. finish_push. apply (fo_pc _ Hf). Qed.
Lemma opMsize_ok : op_ok 0 1 None opMsize.
Proof. op_start. unfold opMsize. op_get. finish_push. unfold mem_Len. lia. Qed.
Lemma opGas_ok : op_ok 0 1 None opGas.
Proof. op_start. unfold opGas. op_get. finish_push. apply (fo_contract _ Hf). Qed.
Lemma opOrigin_ok : op_ok 0 1 None (opOrigin env).
Proof. apply pushval_ok, (env_origin _ _ Henv). Qed.
Lemma opGasprice_ok : op_ok 0 1 None (opGasprice env).
Proof. apply pushval_ok, (env_price _ _ Henv). Qed.
Lemma opCoinbase_ok : op_ok 0 1 None (opCoinbase env).
Proof. apply pushval_ok, (env_coinbase _ _ Henv). Qed.
Lemma opTimestamp_ok : op_ok 0 1 None (opTimestamp env).
Proof. apply pushval_ok. auto with evm. Qed.
Lemma opNumber_ok : op_ok 0 1 None (opNumber env).
Proof. apply pushval_ok. auto with evm. Qed.
Lemma opDifficulty_ok : op_ok 0 1 None (opDifficulty env).
Proof. apply pushval_ok. auto with evm. Qed.
Lemma opGasLimit_ok : op_ok 0 1 None (opGasLimit env).
Proof. apply pushval_ok. auto with evm. Qed.
Lemma opBlockhash_ok : op_ok 1 1 None (opBlockhash env).
Proof. apply unop_ok. intros x Hx. case_match; [apply (env_hash _ _ Henv)|lia]. Qed.

(** *** Memory and data *)
Lemma opSha3_ok : op_ok 2 1 (Some memorySha3) (opSha3 env Keccak256Hash).
Proof.
  op_start. mem_holds Hmem. unfold opSha3. pops.
  apply hoare_memory_Get; [done..|]. intros d [Hd _].
  destruct (EnablePreimageRecording env).
  - destruct (ma_reads _ (fo_machine _ Hf)) as [v Hv]. cbn [f_machine] in Hv.
    destruct (vm_AddPreimage _ _ (Keccak256Hash d) d Hv) as (s'&Heq&Hs'&Hx).
    eapply hoare_state; [done|done|done|done|intros ?]. finish_push. apply (env_keccak _ _ Henv).
  - eapply hoare_local; [reflexivity|done|done|]. finish_push. apply (env_keccak _ _ Henv).
Qed.

Lemma opCallDataLoad_ok : op_ok 1 1 None opCallDataLoad.
Proof.
  op_start. unfold opCallDataLoad. pops. op_get.
  destruct (getDataBig_ok (Input c) z 32) as (d&Heq&Hd); [apply (fo_contract _ Hf)|done|lia|].
  eapply hoare_lift; [exact Heq|]. finish_push. auto with evm.
Qed.

Lemma copy_data_ok data : nonneg data → op_ok 3 0 (Some memoryCodeCopy) (copy_data data).
Proof.
  intros Hdata. op_start. mem_holds Hmem. unfold copy_data. pops.
  match goal with |- hoare (_ ← se_lift (getDataBig _ ?o ?l); _) _ _ _ =>
    destruct (getDataBig_ok data o l Hdata) as (d&Heq&Hd); [done|done|] end.
  eapply hoare_lift; [exact Heq|]. apply hoare_memory_Set; [done..|]. intros m' Hm'. finish_ret.
Qed.
Lemma opCallDataCopy_ok : op_ok 3 0 (Some memoryCallDataCopy) opCallDataCopy.
Proof.
  intros pc c m st e Hf Hlen Hmem. unfold opCallDataCopy. op_get.
  apply copy_data_ok; [apply (fo_contract _ Hf)|done..].
Qed.
Lemma opCodeCopy_ok : op_ok 3 0 (Some memoryCodeCopy) opCodeCopy.
Proof.
  intros pc c m st e Hf Hlen Hmem. unfold opCodeCopy. op_get.
  apply copy_data_ok; [apply (fo_contract _ Hf)|done..].
Qed.

Lemma opReturnDataCopy_ok : op_ok 3 0 (Some memoryReturnDataCopy) opReturnDataCopy.
Proof.
  op_start. mem_holds Hmem. unfold opReturnDataCopy. pops. op_get.
  match goal with |- context [BitLen ?en] => set (en_ := en) end.
  destruct (bool_decide (64 < BitLen en_)) eqn:Hb; [by apply hoare_err|].
  apply bool_decide_eq_false in Hb. rewrite BitLen_over in Hb by (unfold en_; lia).
  match goal with |- context [Z.of_nat ?n] => destruct (bool_decide (Z.of_nat n < u64 en_)) eqn:Hn end;
    [by apply hoare_err|]. apply bool_decide_eq_false in Hn.
  rewrite (u64_id en_) in Hn |- * by (unfold in_u64, en_ in *; lia).
  match goal with |- context [slice ?l (u64 ?o) _] =>
    destruct (data_slice_ok l o en_) as (d&Heq&Hd&_); [apply (fo_machine _ Hf)|unfold en_; lia|lia|];
    rewrite (u64_id o) by (unfold in_u64, en_ in *; lia) end.
  eapply hoare_lift; [exact Heq|]. apply hoare_memory_Set; [done..|]. intros m' Hm'. finish_ret.
Qed.

Lemma opMload_ok : op_ok 1 1 (Some memoryMLoad) opMload.
Proof.
  op_start. mem_holds Hmem. unfold opMload. pops.
  change 32 with (i64 32). apply hoare_memory_Get; [done|done|lia|done|]. intros d [Hd _].
  finish_push. auto with evm.
Qed.
Lemma opMstore_ok : op_ok 2 0 (Some memoryMStore) opMstore.
Proof.
  op_start. mem_holds Hmem. unfold opMstore. pops. op_get.
  match goal with |- context [mem_Set32 (u64 ?o) ?v _] =>
    destruct (mem_Set32_ok m o v) as (m'&Heq&Hm'&_); [apply Hf|done|done|] end.
  eapply hoare_lift; [exact Heq|]. apply hoare_mem; [done|done|]. intros Hf'. finish_ret.
Qed.
Lemma opMstore8_ok : op_ok 2 0 (Some memoryMStore8) opMstore8.
Proof.
  op_start. mem_holds Hmem. unfold opMstore8. pops. op_get.
  match goal with |- context [mem_Len ?m] => pose proof (holds_inv m z 1 Hmem (fo_mem _ Hf)) as Hh end.
  rewrite i64_small, bool_decide_true by lia. apply hoare_mem; [done| |].
  - destruct (fo_mem _ Hf) as [Hb Hl]. cbn [f_mem] in *. split; cbn [store].
    + apply Forall_insert; [done|]. apply Z.land_nonneg. lia.
    + unfold mem_Len in *. cbn [store]. by rewrite length_insert.
  - intros Hf'. finish_ret.
Qed.
Lemma mem_GetPtr_Get m off l : mem_GetPtr off l m = mem_Get off l m.
Proof. done. Qed.
Lemma opReturn_ok : op_ok 2 0 (Some memoryReturn) opReturn.
Proof.
  op_start. mem_holds Hmem. unfold opReturn. pops. op_get.
  rewrite mem_GetPtr_Get. destruct (mem_Get_ok m z z0) as (d&Heq&Hd&_); [apply Hf|done..|].
  rewrite Heq. unfold hoare. se_red. split_and!; [done|reflexivity|done|done|cbn; lia].
Qed.
Lemma opRevert_ok : op_ok 2 0 (Some memoryRevert) opRevert.
Proof. exact opReturn_ok. Qed.

(** *** Jumps, pushes, copies and logs *)
Lemma hoare_pc {A} (k : unit → F A) pc pc' c m st e G Q :
  frame_ok (mkFrame pc c m st e) → in_u64 pc' →
  (frame_ok (mkFrame pc' c m st e) → hoare (k tt) (mkFrame pc' c m st e) G Q) →
  hoare (u ← set_pc pc'; k u) (mkFrame pc c m st e) G Q.
Proof.
  intros Hf Hp Hk. eapply hoare_local; [reflexivity|done|done|]. apply Hk. destruct Hf. by split.
Qed.

Lemma jump_to_ok pc c m st e pos :
  frame_ok (mkFrame pc c m st e) → 0 <= pos →
  hoare (jump_to pos) (mkFrame pc c m st e) (c_Gas c)
    (fun ret f' => nonneg ret ∧ length (f_stack f') = length st).
Proof.
  intros Hf Hp. unfold jump_to. op_get. eapply hoare_lift; [by apply validJumpdest_spec|].
  match goal with |- hoare (if ?b then _ else _) _ _ _ => destruct b end; [|by apply hoare_err].
  apply hoare_pc; [done|apply u64_in|]. intros Hf'. by apply hoare_ret.
Qed.
Lemma opJump_ok : op_ok 1 0 None opJump.
Proof.
  op_start. unfold opJump. pops. eapply hoare_weaken; [by apply jump_to_ok|done|].
  intros ret f' _ [Hr Hl]. split; [done|lia].
Qed.
Lemma opJumpi_ok : op_ok 2 0 None opJumpi.
Proof.
  op_start. unfold opJumpi. pops. case_bool_decide; cbn [negb].
  - op_get. apply hoare_pc; [done|apply u64_in|]. intros Hf'. finish_ret.
  - eapply hoare_weaken; [by apply jump_to_ok|done|]. intros ret f' _ [Hr Hl]. split; [done|lia].
Qed.

Lemma makePush_ok size n : op_ok 0 1 None (makePush size n).
Proof.
  op_start. unfold makePush. op_get. pose proof (fo_pc _ Hf) as Hpc. cbn [f_pc] in Hpc. unfold in_u64 in Hpc.
  match goal with |- context [slice ?l ?a ?b] =>
    destruct (data_slice_ok l a b) as (d&Heq&Hd&_); [apply (fo_contract _ Hf)|lia|lia|] end.
  eapply hoare_lift; [exact Heq|]. apply hoare_push; [done|apply be_value_nonneg; by apply nonneg_RightPad|].
  intros Hf'. apply hoare_pc; [done|apply u64_in|]. intros Hf''. finish_ret.
Qed.

Lemma Back_ok st n : (n < length st)%nat → ∃ x, Back st n = Ok x ∧ st !! n = Some x.
Proof. intros Hn. unfold Back. destruct (lookup_lt_is_Some_2 st n Hn) as [x Hx]. rewrite Hx. eauto. Qed.

Lemma hoare_stack {A} (k : unit → F A) pc c m st st' e G Q :
  frame_ok (mkFrame pc c m st e) → nonneg st' →
  (frame_ok (mkFrame pc c m st' e) → hoare (k tt) (mkFrame pc c m st' e) G Q) →
  hoare (u ← set_stack st'; k u) (mkFrame pc c m st e) G Q.
Proof.
  intros Hf Hst Hk. eapply hoare_local; [reflexivity|done|done|]. apply Hk. by eapply stack_ok.
Qed.

Lemma makeDup_ok n : (1 ≤ n)%nat → op_ok n (n + 1) None (makeDup n).
Proof.
  intros Hn pc c m st e Hf Hlen _. unfold makeDup. op_get. destruct n as [|n]; [lia|].
  destruct (Back_ok st n ltac:(lia)) as (x&Heq&Hx).
  eapply hoare_lift; [unfold dup; rewrite Heq; reflexivity|].
  pose proof (fo_stack _ Hf) as Hst. cbn [f_stack] in Hst.
  apply hoare_stack; [done| |].
  - constructor; [|done]. rewrite Forall_lookup in Hst. by eapply Hst.
  - intros Hf'. apply hoare_ret; [done|done|]. split; [done|]. cbn. lia.
Qed.

Lemma makeSwap_ok n : (1 ≤ n)%nat → op_ok (n + 1) (n + 1) None (makeSwap n).
Proof.
  intros Hn pc c m st e Hf Hlen _. unfold makeSwap. op_get.
  destruct (Back_ok st 0 ltac:(lia)) as (x&Heqx&Hx). destruct (Back_ok st n ltac:(lia)) as (y&Heqy&Hy).
  eapply hoare_lift; [unfold swap; rewrite Heqx, Heqy; reflexivity|].
  pose proof (fo_stack _ Hf) as Hst. cbn [f_stack] in Hst. pose proof Hst as Hst'. rewrite Forall_lookup in Hst'.
  apply hoare_stack; [done| |].
  - apply Forall_insert; [apply Forall_insert; [done|by eapply Hst']|by eapply Hst'].
  - intros Hf'. apply hoare_ret; [done|done|]. split; [done|]. cbn [f_stack]. by rewrite !length_insert.
Qed.

Lemma pop_topics_ok n pc c m st e G :
  frame_ok (mkFrame pc c m st e) → (n ≤ length st)%nat → c_Gas c <= G →
  hoare (pop_topics n) (mkFrame pc c m st e) G (fun _ f' => f' = mkFrame pc c m (drop n st) e).
Proof.
  revert st. induction n as [|n IH]; intros st Hf Hlen HG; cbn [pop_topics].
  - rewrite drop_0. by apply hoare_ret.
  - operands Hlen. apply hoare_pop; [done|intros Hz Hf'].
    eapply hoare_bind; [by apply IH|]. intros ts f'' _ _ _ ->. cbn [drop].
    apply hoare_ret; [|done|done]. eapply stack_ok; [done|]. apply Forall_drop, Hf'.
Qed.

Lemma makeLog_ok n : op_ok (n + 2) 0 (Some memoryLog) (makeLog env n).
Proof.
  intros pc c m st e Hf Hlen Hmem. rewrite Nat.add_comm in Hlen |- *. cbn [Nat.add] in Hlen |- *.
  operands Hlen. mem_holds Hmem. unfold makeLog. pops.
  eapply hoare_bind; [by apply pop_topics_ok|]. intros ts f' Hf' _ _ ->.
  apply hoare_memory_Get; [done..|]. intros d [Hd _]. op_get.
  destruct (ma_reads _ (fo_machine _ Hf)) as [v Hv]. cbn [f_machine] in Hv.
  destruct (vm_AddLog _ _ (self c) ts d (u64 (BlockNumber env)) Hv) as (s'&Heq&Hs'&Hx).
  eapply hoare_state; [done|done|done|done|intros ?]. apply hoare_ret; [done|done|].
  split; [done|]. cbn [f_stack length]. rewrite length_drop. lia.
Qed.

(** *** The state *)
Lemma opBalance_ok : op_ok 1 1 None (opBalance env).
Proof.
  op_start. unfold opBalance. pops. destruct (ma_reads _ (fo_machine _ Hf)) as [v Hv].
  destruct (vm_GetBalance _ _ (BigToAddress z) (env_DefaultToken env) Hv) as (s'&Heq&Hs'&Hx).
  eapply hoare_state; [done|done|done|done|intros ?]. finish_push. by eapply bal_nonneg.
Qed.
Lemma opExtCodeSize_ok : op_ok 1 1 None opExtCodeSize.
Proof.
  op_start. unfold opExtCodeSize. pops. destruct (ma_reads _ (fo_machine _ Hf)) as [v Hv].
  destruct (vm_GetCodeSize _ _ (BigToAddress z) Hv) as (n&s'&Heq&Hs'&Hx).
  eapply hoare_state; [done|done|done|done|intros ?]. finish_push. apply u64_in.
Qed.
Lemma opExtCodeCopy_ok : op_ok 4 0 (Some memoryExtCodeCopy) opExtCodeCopy.
Proof.
  op_start. mem_holds Hmem. unfold opExtCodeCopy. pops. destruct (ma_reads _ (fo_machine _ Hf)) as [v Hv].
  destruct (vm_GetCode _ _ (BigToAddress z) Hv) as (code&s'&Heq&Hcode&Hs'&Hx).
  eapply hoare_state; [done|done|done|done|intros ?].
  destruct (getDataBig_ok code z1 z2 Hcode) as (d&Hdeq&Hd); [done|done|].
  eapply hoare_lift; [exact Hdeq|]. apply hoare_memory_Set; [done..|]. intros m' Hm'. finish_ret.
Qed.
Lemma opExtCodeHash_ok : op_ok 1 1 None opExtCodeHash.
Proof.
  op_start. unfold opExtCodeHash. pops. destruct (ma_reads _ (fo_machine _ Hf)) as [v Hv].
  destruct (vm_Empty _ _ (BigToAddress z) Hv) as (b&s'&Heq&Hs'&Hx).
  eapply hoare_state; [done|done|done|done|intros Hf']. destruct b; [by finish_push|].
  destruct (vm_GetCodeHash _ _ (BigToAddress z) Hs') as (h&s2&Heq2&Hh&Hs2&Hx2).
  eapply hoare_state; [done|done|done|done|intros ?]. by finish_push.
Qed.
Lemma opSload_ok : op_ok 1 1 None opSload.
Proof.
  op_start. unfold opSload. pops. op_get. destruct (ma_reads _ (fo_machine _ Hf)) as [v Hv].
  destruct (vm_GetState _ _ (self c) (BigToHash z) Hv) as (x&s'&Heq&Hx0&Hs'&Hx).
  eapply hoare_state; [done|done|done|done|intros ?]. by finish_push.
Qed.
Lemma opSstore_ok : op_ok 2 0 None opSstore.
Proof.
  op_start. unfold opSstore. pops. op_get. destruct (ma_reads _ (fo_machine _ Hf)) as [v Hv].
  destruct (vm_SetState _ _ (self c) (BigToHash z) (BigToHash z0) Hv) as (s'&Heq&Hs'&Hx).
  eapply hoare_state; [done|done|done|done|intros ?]. finish_ret.
Qed.
Lemma opSuicide_ok : op_ok 1 0 None (opSuicide env).
Proof.
  op_start. unfold opSuicide. op_get. destruct (ma_reads _ (fo_machine _ Hf)) as [v Hv].
  destruct (vm_GetBalance _ _ (self c) (env_DefaultToken env) Hv) as (s1&Heq1&Hs1&Hx1).
  eapply hoare_state; [done|done|done|done|intros Hf1]. pops.
  destruct (vm_AddBalance _ _ (BigToAddress z) (v_bal v (self c) (env_DefaultToken env))
              (env_DefaultToken env) Hs1) as (s2&Heq2&Hs2&Hx2); [by eapply bal_nonneg|].
  eapply hoare_state; [done|done|done|done|intros Hf2].
  destruct (vm_Suicide _ _ (self c) Hs2) as (b&v'&s3&Heq3&Hs3&Hx3).
  eapply hoare_state; [done|done|done|done|intros Hf3]. finish_ret.
Qed.
End instr.
(** The instructions, for the rows of the jump table. *)
Create HintDb evm_ops.
#[export] Hint Resolve
  opAdd_ok opSub_ok opMul_ok opDiv_ok opSdiv_ok opMod_ok opSmod_ok opExp_ok opNot_ok opLt_ok opGt_ok
  opSlt_ok opSgt_ok opEq_ok opIszero_ok opAnd_ok opOr_ok opXor_ok opByte_ok opSHL_ok opSHR_ok opSAR_ok
  opAddmod_ok opMulmod_ok opSignExtend_ok opPop_ok opStop_ok opJumpdest_ok opAddress_ok opCaller_ok
  opCallValue_ok opCallDataSize_ok opReturnDataSize_ok opCodeSize_ok opPc_ok opMsize_ok opGas_ok
  opOrigin_ok opGasprice_ok opCoinbase_ok opTimestamp_ok opNumber_ok opDifficulty_ok opGasLimit_ok
  opBlockhash_ok opSha3_ok opCallDataLoad_ok opCallDataCopy_ok opCodeCopy_ok opReturnDataCopy_ok
  opMload_ok opMstore_ok opMstore8_ok opReturn_ok opRevert_ok opJump_ok opJumpi_ok makePush_ok
  makeDup_ok makeSwap_ok makeLog_ok opBalance_ok opExtCodeSize_ok opExtCodeCopy_ok opExtCodeHash_ok
  opSload_ok opSstore_ok opSuicide_ok : evm_ops.
