(* ===== verification/EvmGas.v ===== *)
(** * core/vm: what every gas function charges

    From a frame in order, with the operands of its row, a gas function changes
    nothing but the memory's running fee and the gas set aside for a call.  It
    charges at least the minimum given here, and refuses memory beyond the
    limit of [memoryGasCost]. *)

From S2P Require Import Prelude Utils Account Blocks XShardCursor Consensus Transition TransitionCorrect EvmBase EvmAnalysis EvmOps EvmRun EvmLaws EvmInstr.

Local Open Scope Z_scope.

Section gas.
Context `{EthMathLaws} {St : Type} `{VmLaws St}.
Context (env : VmEnv) (Keccak256Hash : list Z → Z) (Henv : env_sensible env Keccak256Hash).
Abbreviation F := (SE (Frame St)).
Abbreviation P := (vparams env).

(** All of the frame but the fee of its memory and the machine. *)
Record kept (f f' : Frame St) : Prop := {
  kp_pc : f_pc f' = f_pc f;
  kp_contract : f_contract f' = f_contract f;
  kp_store : store (f_mem f') = store (f_mem f);
  kp_stack : f_stack f' = f_stack f;
}.
#[local] Instance kept_preorder : PreOrder kept.
Proof. split; [by intros f|]. intros f1 f2 f3 [] []. split; congruence. Qed.

(** With [mem], the size is within the limit. *)
Definition gas_ok (p : nat) (lo : Z) (mem : bool) (g : Z → F Z) : Prop :=
  ∀ f size, frame_ok f → (p ≤ length (f_stack f))%nat → in_u64 size →
  hoare env (g size) f (c_Gas (f_contract f))
    (fun cost f' => kept f f' ∧ lo <= cost ∧ (mem = true → size <= max_mem)).

(** ** Pieces *)
Lemma hoare_back {A} (k : Z → F A) f n G Q :
  (n < length (f_stack f))%nat → frame_ok f →
  (∀ x, f_stack f !! n = Some x → 0 <= x → hoare env (k x) f G Q) →
  hoare env (x ← fback n; k x) f G Q.
Proof.
  intros Hn Hf Hk. destruct (Back_ok (f_stack f) n Hn) as (x&Heq&Hx).
  eapply hoare_local; [unfold fback; se_red; by rewrite Heq|done|done|]. apply Hk; [done|].
  pose proof (fo_stack _ Hf) as Hst. rewrite Forall_lookup in Hst. by eapply Hst.
Qed.

(** A piece that leaves the frame alone. *)
Definition pure_ok {A} (m : F A) (f : Frame St) (Q : A → Prop) : Prop :=
  ∀ G, frame_ok f → c_Gas (f_contract f) <= G → hoare env m f G (fun a f' => f' = f ∧ Q a).

Lemma hoare_pure {A B} (m : F A) (k : A → F B) f G Q R :
  pure_ok m f Q → frame_ok f → c_Gas (f_contract f) <= G →
  (∀ a, Q a → hoare env (k a) f G R) → hoare env (a ← m; k a) f G R.
Proof.
  intros Hm Hf HG Hk. eapply hoare_bind; [by apply Hm|]. intros a f' _ _ _ [-> HQ]. by apply Hk.
Qed.

Lemma safe_add_ok x y f : in_u64 x → in_u64 y → pure_ok (safe_add x y) f (fun z => z = x + y ∧ in_u64 z).
Proof.
  unfold in_u64. intros Hx Hy G Hf HG. unfold safe_add. rewrite SafeAdd_spec by done. unfold max_u64.
  case_bool_decide; [by apply hoare_err|]. apply hoare_ret; [done|done|].
  rewrite u64_id by (unfold in_u64; lia). split_and!; [done|done|lia|lia].
Qed.
Lemma safe_mul_ok x y f : in_u64 x → in_u64 y → pure_ok (safe_mul x y) f (fun z => z = x * y ∧ in_u64 z).
Proof.
  unfold in_u64. intros Hx Hy G Hf HG. unfold safe_mul. rewrite SafeMul_spec by done. unfold max_u64.
  case_bool_decide; [by apply hoare_err|]. apply hoare_ret; [done|done|].
  rewrite u64_id by (unfold in_u64; nia). split_and!; [done|done|nia|lia].
Qed.
Lemma uint64_of_ok z f : 0 <= z → pure_ok (uint64_of z) f (fun x => x = z ∧ in_u64 x).
Proof.
  intros Hz G Hf HG. unfold uint64_of. rewrite bigUint64_spec by done. unfold max_u64.
  case_bool_decide; [by apply hoare_err|]. apply hoare_ret; [done|done|].
  rewrite u64_id by (unfold in_u64; lia). split_and!; [done|done|unfold in_u64; lia].
Qed.

Lemma memoryGasCost_ok size f G :
  frame_ok f → in_u64 size → c_Gas (f_contract f) <= G →
  hoare env (memoryGasCost env size) f G
    (fun fee f' => kept f f' ∧ f_machine f' = f_machine f ∧ in_u64 fee ∧ size <= max_mem).
Proof.
  intros Hf Hs HG. unfold memoryGasCost, max_mem. case_bool_decide.
  { apply hoare_ret; [done|done|]. split_and!; [done|done|unfold in_u64; lia|lia]. }
  case_bool_decide; [by apply hoare_err|]. apply hoare_get. destruct f as [pc c m st e].
  cbn [f_mem f_contract f_machine] in *. case_bool_decide.
  - apply hoare_mem; [done| |]. { split; apply (fo_mem _ Hf). }
    intros Hf'. apply hoare_ret; [done|done|]. split_and!; [by split|done|apply u64_in|lia].
  - apply hoare_ret; [done|done|]. split_and!; [done|done|unfold in_u64; lia|lia].
Qed.

Lemma kept_frame f f' p :
  kept f f' → (p ≤ length (f_stack f))%nat → (p ≤ length (f_stack f'))%nat ∧ c_Gas (f_contract f') = c_Gas (f_contract f).
Proof. intros [] ?. split; congruence. Qed.

(** ** Memory, a constant, words *)
Lemma const_gas_ok p lo g : lo <= g → gas_ok p lo false (constGasFunc g).
Proof. intros Hlo f size Hf Hp Hs. unfold constGasFunc. by apply hoare_ret. Qed.

Lemma mem_gas_ok p base : in_u64 base → gas_ok p base true (mem_gas env base).
Proof.
  unfold in_u64. intros Hb f size Hf Hp Hs. unfold mem_gas.
  eapply hoare_bind; [by apply memoryGasCost_ok|]. intros fee f' Hf' _ HG (Hk&_&Hfee&Hsz).
  eapply hoare_weaken; [by apply safe_add_ok|done|].
  intros z f'' _ (->&->&Hz). unfold in_u64 in *. split_and!; [done|lia|done].
Qed.

Lemma copy_gas_ok p base n w :
  in_u64 base → in_u64 w → (n < p)%nat → gas_ok p base true (copy_gas env base n w).
Proof.
  intros Hb Hw Hn f size Hf Hp Hs. unfold copy_gas.
  eapply hoare_bind; [by apply memoryGasCost_ok|]. intros fee f' Hf' _ HG (Hk&_&Hfee&Hsz).
  destruct (kept_frame _ _ _ Hk Hp) as [Hp' Hg].
  eapply hoare_pure; [by apply safe_add_ok|done|done|intros s1 [-> Hs1]].
  apply hoare_back; [lia|done|intros x _ Hx].
  eapply hoare_pure; [by apply uint64_of_ok|done|done|intros x' [-> Hx']].
  eapply hoare_pure; [apply safe_mul_ok; [|done]|done|done|intros wg [-> Hwg]].
  { pose proof (toWordSize_spec x ltac:(unfold in_u64, max_u64 in *; lia)). unfold in_u64. lia. }
  eapply hoare_weaken; [by apply safe_add_ok|done|].
  intros z f'' _ (->&->&Hz). unfold in_u64 in *. split_and!; [done|lia|done].
Qed.

Lemma makeGasLog_ok n k : (2 ≤ k)%nat → gas_ok k 1 true (makeGasLog env n).
Proof.
  intros Hk f size Hf Hp Hs. pose proof (env_params _ _ Henv) as HP.
  pose proof (pos_log _ HP). pose proof (word_gas _ HP) as (_&_&?). unfold makeGasLog.
  apply hoare_back; [lia|done|intros x _ Hx].
  eapply hoare_pure; [by apply uint64_of_ok|done|done|intros x' [-> Hx']].
  eapply hoare_bind; [by apply memoryGasCost_ok|]. intros fee f' Hf' _ HG (Hkp&_&Hfee&Hsz).
  eapply hoare_pure; [apply safe_add_ok; [done|unfold in_u64; lia]|done|done|intros s1 [-> Hs1]].
  eapply hoare_pure; [apply safe_add_ok; [done|apply u64_in]|done|done|intros s2 [-> Hs2]].
  eapply hoare_pure; [apply safe_mul_ok; [done|unfold in_u64; lia]|done|done|intros s3 [-> Hs3]].
  eapply hoare_weaken; [by apply safe_add_ok|done|].
  intros z f'' _ (->&->&Hz). pose proof (u64_in (n * LogTopicGas P)). unfold in_u64 in *.
  split_and!; [done|lia|done].
Qed.

Lemma gasExp_ok : gas_ok 2 1 false (gasExp env).
Proof.
  intros f size Hf Hp Hs. unfold gasExp. apply hoare_back; [lia|done|intros x _ Hx].
  eapply hoare_weaken; [apply safe_add_ok; [apply u64_in|by unfold in_u64|done|done]|done|].
  intros z f'' _ (->&->&Hz). pose proof (u64_in ((BitLen x + 7) / 8 * gt_ExpByte (gasTable env))).
  unfold in_u64, GasSlowStep in *. split_and!; [done|lia|done].
Qed.

Lemma memory_only_ok p : gas_ok p 0 true (memoryGasCost env).
Proof.
  intros f size Hf Hp Hs. eapply hoare_weaken; [by apply memoryGasCost_ok|done|].
  intros fee f' _ (Hk&_&Hfee&Hsz). unfold in_u64 in *. split_and!; [done|lia|done].
Qed.

(** ** Storage and suicide *)
(** An operation of the state within a frame. *)
Lemma hoare_state_of {A B} (op : SE St A) (k : A → F B) f a s' v G Q :
  frame_ok f → op (m_state (f_machine f)) = (Ok a, s') → reads s' v → ext (m_state (f_machine f)) s' →
  (∀ f', frame_ok f' → kept f f' → m_state (f_machine f') = s' → hoare env (k a) f' G Q) →
  hoare env (x ← state op; k x) f G Q.
Proof.
  destruct f as [pc c m st e]. intros Hf Hop Hs Hx Hk. eapply hoare_state; [done..|]. intros Hf'. by apply Hk.
Qed.

Lemma gasSStore_ok : gas_ok 2 1 false (gasSStore env).
Proof.
  intros f size Hf Hp Hs. pose proof (pos_sstore _ (env_params _ _ Henv)) as (?&?&?). unfold gasSStore.
  apply hoare_back; [lia|done|intros y _ _]. apply hoare_back; [lia|done|intros x _ _]. apply hoare_get.
  destruct (ma_reads _ (fo_machine _ Hf)) as [v Hv].
  destruct (vm_GetState _ _ (self (f_contract f)) (BigToHash x) Hv) as (cur&s'&Heq&_&Hs'&Hx).
  eapply hoare_state_of; [done|done|done|done|]. intros f' Hf' Hk Hst. case_match.
  { apply hoare_ret; [done|by rewrite (kp_contract _ _ Hk)|]. split_and!; [done|lia|done]. }
  case_match.
  - subst s'. destruct (vm_AddRefund _ _ (SstoreRefundGas P) Hs') as (s2&Heq2&Hs2&Hx2).
    eapply hoare_state_of; [done|done|done|done|]. intros f2 Hf2 Hk2 _.
    assert (kept f f2) as Hk' by (by etrans).
    apply hoare_ret; [done|by rewrite (kp_contract _ _ Hk')|]. split_and!; [done|lia|done].
  - apply hoare_ret; [done|by rewrite (kp_contract _ _ Hk)|]. split_and!; [done|lia|done].
Qed.

(** A question to the state. *)
Lemma ask_ok {A} (op : SE St A) f G :
  (∀ s v, reads s v → ∃ a s', op s = (Ok a, s') ∧ reads s' v ∧ ext s s') →
  frame_ok f → c_Gas (f_contract f) <= G →
  hoare env (state op) f G (fun _ f' => kept f f').
Proof.
  intros Hop Hf HG. destruct (ma_reads _ (fo_machine _ Hf)) as [v Hv].
  destruct (Hop _ _ Hv) as (a&s'&Heq&Hs'&Hx).
  assert (hoare env (x ← state op; mret x) f G (fun _ f' => kept f f')) as Hh.
  { eapply hoare_state_of; [done..|]. intros f' Hf' Hk _.
    apply hoare_ret; [done|by rewrite (kp_contract _ _ Hk)|done]. }
  revert Hh. unfold hoare. se_red. by destruct (state op f) as [[] ?].
Qed.
Lemma hoare_ask {A B} (op : SE St A) (k : A → F B) f G Q :
  (∀ s v, reads s v → ∃ a s', op s = (Ok a, s') ∧ reads s' v ∧ ext s s') →
  frame_ok f → c_Gas (f_contract f) <= G →
  (∀ a f', frame_ok f' → kept f f' → c_Gas (f_contract f') <= G → hoare env (k a) f' G Q) →
  hoare env (x ← state op; k x) f G Q.
Proof. intros Hop Hf HG Hk. eapply hoare_bind; [by apply ask_ok|]. intros a f' Hf' _ HG' Hkp. by apply Hk. Qed.

Lemma Exist_total a s v : reads s v → ∃ b s', Exist a s = (Ok b, s') ∧ reads s' v ∧ ext s s'.
Proof. apply vm_Exist. Qed.
Lemma Empty_total a s v : reads s v → ∃ b s', Empty a s = (Ok b, s') ∧ reads s' v ∧ ext s s'.
Proof. apply vm_Empty. Qed.
Lemma GetBalance_total a t s v : reads s v → ∃ b s', GetBalance a t s = (Ok b, s') ∧ reads s' v ∧ ext s s'.
Proof. intros Hs. eexists. by apply vm_GetBalance. Qed.

(** The account a call or a suicide would create. *)
Lemma suicide_extra_ok address me f G :
  frame_ok f → c_Gas (f_contract f) <= G →
  hoare env (if IsEIP158 env then
               e ← state (Empty address);
               if (e : bool) then
                 bal ← state (GetBalance me (env_DefaultToken env));
                 mret (negb (bool_decide ((bal : Z) = 0)))
               else mret false
             else b ← state (Exist address); mret (negb b)) f G (fun _ f' => kept f f').
Proof.
  intros Hf HG. case_match.
  - apply hoare_ask; [apply Empty_total|done|done|]. intros b f' Hf' Hk HG'. destruct b; [|by apply hoare_ret].
    apply hoare_ask; [apply GetBalance_total|done|done|]. intros x f2 Hf2 Hk2 HG2.
    apply hoare_ret; [done|done|by etrans].
  - apply hoare_ask; [apply Exist_total|done|done|]. intros b f' Hf' Hk HG'. by apply hoare_ret.
Qed.

Lemma suicide_base_ok me f G :
  frame_ok f → c_Gas (f_contract f) <= G → (1 ≤ length (f_stack f))%nat →
  hoare env (if IsEIP150 env then
           b ← fback 0;
           let address := BigToAddress b in
           extra ← (if IsEIP158 env then
                      e ← state (Empty address);
                      if (e : bool) then
                        bal ← state (GetBalance me (env_DefaultToken env));
                        mret (negb (bool_decide ((bal : Z) = 0)))
                      else mret false
                    else b ← state (Exist address); mret (negb b));
           mret (if (extra : bool) then u64 (gt_Suicide (gasTable env) + gt_CreateBySuicide (gasTable env))
                 else gt_Suicide (gasTable env))
         else mret 0) f G (fun gas f' => kept f f' ∧ 0 <= gas).
Proof.
  intros Hf HG Hp. case_match; [|by apply hoare_ret].
  apply hoare_back; [lia|done|intros x _ _]. eapply hoare_bind; [by apply suicide_extra_ok|].
  intros extra f' Hf' _ HG' Hk. apply hoare_ret; [done|done|]. split; [done|].
  destruct extra; [apply u64_in|apply (env_table _ _ Henv)].
Qed.

Lemma gasSuicide_ok : gas_ok 1 0 false (gasSuicide env).
Proof.
  intros f size Hf Hp Hs. unfold gasSuicide. apply hoare_get.
  eapply hoare_bind; [by apply suicide_base_ok|]. intros gas f' Hf' _ HG' [Hk Hgas].
  apply hoare_ask; [intros s v Hv; by apply vm_HasSuicided|done|done|]. intros dead f2 Hf2 Hk2 HG2.
  assert (kept f f2) by (by etrans). destruct dead.
  { apply hoare_ret; [done|done|]. by split_and!. }
  destruct (ma_reads _ (fo_machine _ Hf2)) as [v Hv].
  destruct (vm_AddRefund _ _ (SuicideRefundGas P) Hv) as (s'&Heq&Hs'&Hx).
  eapply hoare_state_of; [done..|]. intros f3 Hf3 Hk3 _. assert (kept f f3) as Hk' by (by etrans).
  apply hoare_ret; [done|by rewrite (kp_contract _ _ Hk')|by split_and!].
Qed.

(** ** Calls *)
(** The gas set aside is part of the cost, besides the call's own price. *)
Definition call_gas_ok (p : nat) (fee : list Z → Z) (g : Z → F Z) : Prop :=
  ∀ f size, frame_ok f → (p ≤ length (f_stack f))%nat → in_u64 size →
  hoare env (g size) f (c_Gas (f_contract f))
    (fun cost f' => kept f f' ∧ size <= max_mem ∧ 0 <= m_callGasTemp (f_machine f')
       ∧ gt_Calls (gasTable env) + fee (f_stack f) + m_callGasTemp (f_machine f') <= cost).

Lemma callGas_ok avail base cost : 0 <= cost →
  match callGas (gasTable env) avail base cost with Ok t => in_u64 t | Err _ => True | Panic _ => False end.
Proof.
  intros Hc. unfold callGas. repeat case_match; try done;
    match goal with H : Ok _ = Ok _ |- _ => injection H as <- end; apply u64_in.
Qed.

Lemma hoare_temp {A} (k : unit → F A) f t G Q :
  frame_ok f → 0 <= t →
  (∀ f', frame_ok f' → kept f f' → m_callGasTemp (f_machine f') = t → hoare env (k tt) f' G Q) →
  hoare env (u ← set_callGasTemp t; k u) f G Q.
Proof.
  intros Hf Ht Hk. destruct f as [pc c m st e].
  set (e' := mkMachine (m_state e) (m_depth e) (m_readOnly e) (m_returnData e) t (m_TransferTokenID e)).
  assert (frame_ok (mkFrame pc c m st e')) as Hf'.
  { destruct Hf as [? ? ? ? [? ? ?]]. by split. }
  specialize (Hk (mkFrame pc c m st e') Hf' ltac:(by split) eq_refl).
  assert (∀ g, same_frame (mkFrame pc c m st e') g → same_frame (mkFrame pc c m st e) g) as Hsame.
  { intros g [Hg1 Hg2]. split; [exact Hg1|]. etrans; [|exact Hg2]. split; [apply ext_refl|done..]. }
  unfold hoare in *. se_red. unfold set_callGasTemp, on_machine, se_mod. se_red. cbn [f_machine f_pc f_contract f_mem f_stack].
  fold e'. destruct (k tt _) as [[b|er|p] f'']; [| |done].
  - destruct Hk as (?&?&?&?). split_and!; [done|by apply Hsame|done|done].
  - destruct Hk as (?&?&?). split_and!; [done|by apply Hsame|done].
Qed.

Lemma call_cost_ok gas f G :
  frame_ok f → c_Gas (f_contract f) <= G → in_u64 gas → (1 ≤ length (f_stack f))%nat →
  hoare env (call_cost env gas) f G
    (fun cost f' => kept f f' ∧ 0 <= m_callGasTemp (f_machine f') ∧ cost = gas + m_callGasTemp (f_machine f')).
Proof.
  intros Hf HG Hgas Hp. unfold call_cost. apply hoare_get. apply hoare_back; [lia|done|intros x _ Hx].
  pose proof (callGas_ok (c_Gas (f_contract f)) gas x Hx) as Ht.
  destruct (callGas (gasTable env) (c_Gas (f_contract f)) gas x) as [t|er|] eqn:Heq; [| |done].
  - eapply hoare_lift; [done|]. apply hoare_temp; [done|apply Ht|]. intros f' Hf' Hk Htemp.
    eapply hoare_weaken; [apply safe_add_ok; [done|done|done|by rewrite (kp_contract _ _ Hk)]|done|].
    intros z f'' _ (->&->&_). rewrite Htemp. split_and!; [done|apply Ht|done].
  - unfold hoare. se_red. by split_and!.
Qed.

Lemma mem_call_cost_ok base f0 f size :
  frame_ok f → kept f0 f → (1 ≤ length (f_stack f))%nat → in_u64 size → in_u64 base →
  ∀ add : Z → Z → F Z, (∀ x y g, in_u64 x → in_u64 y → pure_ok (add x y) g (fun z => z = x + y ∧ in_u64 z)) →
  hoare env (memoryGas ← memoryGasCost env size; gas ← add base memoryGas; call_cost env gas) f (c_Gas (f_contract f0))
    (fun cost f' => kept f0 f' ∧ size <= max_mem ∧ 0 <= m_callGasTemp (f_machine f')
       ∧ base + m_callGasTemp (f_machine f') <= cost).
Proof.
  intros Hf Hk0 Hp Hs Hb add Hadd.
  eapply hoare_bind; [apply memoryGasCost_ok; [done|done|by rewrite (kp_contract _ _ Hk0)]|].
  intros fee f' Hf' _ HG (Hk&_&Hfee&Hsz). destruct (kept_frame _ _ _ Hk Hp) as [Hp' Hg].
  eapply hoare_pure; [by apply Hadd|done|done|intros z [-> Hz]].
  eapply hoare_weaken; [by apply call_cost_ok|done|]. intros cost f'' _ (Hk2&Ht&->).
  unfold in_u64 in *. split_and!; [by do 2 (etrans; [eassumption|])|done|done|lia].
Qed.

Lemma gasStaticCall_ok p : (1 ≤ p)%nat → call_gas_ok p (fun _ => 0) (gasStaticCall env).
Proof.
  intros Hp1 f size Hf Hp Hs. pose proof (pos_calls _ (env_table _ _ Henv)).
  eapply hoare_weaken; [apply (mem_call_cost_ok (gt_Calls (gasTable env)) f f size) with (add := fun x y => safe_add y x);
    [done|done|lia|done|unfold in_u64; lia|]|done|].
  - intros x y g Hx Hy. rewrite (Z.add_comm x y). by apply safe_add_ok.
  - intros cost f' _ (?&?&?&?). split_and!; [done|done|done|lia].
Qed.
Lemma gasDelegateCall_ok p : (1 ≤ p)%nat → call_gas_ok p (fun _ => 0) (gasDelegateCall env).
Proof. apply gasStaticCall_ok. Qed.

(** The price of passing a value on. *)
Definition value_fee (st : list Z) : Z := if bool_decide (st !!! 2%nat = 0) then 0 else CallValueTransferGas P.

Lemma value_at st (v : Z) : st !! 2%nat = Some v → value_fee st = if bool_decide (v = 0) then 0 else CallValueTransferGas P.
Proof. intros Hv. unfold value_fee. by rewrite (list_lookup_total_correct _ _ _ Hv). Qed.

Lemma gasCallCode_ok p : (3 ≤ p)%nat → call_gas_ok p value_fee (gasCallCode env).
Proof.
  intros Hp1 f size Hf Hp Hs. pose proof (pos_calls _ (env_table _ _ Henv)).
  pose proof (pay_stipend _ (env_params _ _ Henv)). pose proof (small_call_gas _ (env_params _ _ Henv)) as [? ?].
  unfold gasCallCode. apply hoare_back; [lia|done|intros v Hv _].
  eapply hoare_weaken; [apply (mem_call_cost_ok _ f f size) with (add := safe_add); [done|done|lia|done| |by intros; apply safe_add_ok]|done|].
  - case_bool_decide; [unfold in_u64; lia|apply u64_in].
  - intros cost f' _ (?&?&?&Hc). split_and!; [done|done|done|]. rewrite (value_at _ _ Hv). revert Hc.
    case_bool_decide; [|rewrite u64_id by (unfold in_u64; lia)]; lia.
Qed.

Lemma gasCall_ok p : (3 ≤ p)%nat → call_gas_ok p value_fee (gasCall env).
Proof.
  intros Hp1 f size Hf Hp Hs. pose proof (pos_calls _ (env_table _ _ Henv)).
  pose proof (pay_stipend _ (env_params _ _ Henv)). pose proof (small_call_gas _ (env_params _ _ Henv)) as [? ?].
  unfold gasCall. apply hoare_back; [lia|done|intros v Hv _]. apply hoare_back; [lia|done|intros a _ _].
  eapply (hoare_bind _ _ _ _ _ (fun _ f' => kept f f')).
  { repeat case_match.
    - eapply hoare_weaken; [by apply ask_ok; [apply Empty_total| |]|done|done].
    - by apply hoare_ret.
    - apply hoare_ask; [apply Exist_total|done|done|]. intros b f' Hf' Hk HG'. by apply hoare_ret. }
  intros new f' Hf' _ HG' Hk. destruct (kept_frame _ _ _ Hk Hp) as [Hp' _].
  eapply hoare_weaken; [apply (mem_call_cost_ok _ f f' size) with (add := safe_add); [done|done|lia|done| |by intros; apply safe_add_ok]|done|].
  - repeat case_bool_decide; destruct new; cbn [negb]; try apply u64_in; unfold in_u64; lia.
  - intros cost f'' _ (?&?&?&Hc). split_and!; [done|done|done|]. rewrite (value_at _ _ Hv). revert Hc.
    case_bool_decide; destruct new; cbn [negb]; rewrite ?u64_id by (unfold in_u64; rewrite ?u64_id by (unfold in_u64; lia); lia); lia.
Qed.
End gas.
