(* ===== verification/EvmStep.v ===== *)
(** * core/vm: a step of the interpreter

    The instructions that call other contracts, against what the calls promise;
    every row of the jump table; one turn of the interpreter's loop, and the
    loop itself: with more fuel than gas it ends. *)

From S2P Require Import Prelude Wp Utils Account Blocks XShardCursor Consensus Transition TransitionCorrect EvmBase EvmAnalysis EvmOps EvmRun EvmLaws EvmInstr EvmGas.

Local Open Scope Z_scope.

(** The fuel a call with [g] gas to [a] takes: the contract that moves other
    tokens costs nothing itself, but does not call itself. *)
Definition enough (n g a : Z) : Prop := 2 * g + (if bool_decide (a = transferMntAddr) then 3 else 2) <= n.

Section step.
Context `{EthMathLaws} {St : Type} `{VmLaws St}.
Context (env : VmEnv) (Keccak256Hash : list Z → Z) (Henv : env_sensible env Keccak256Hash).
Abbreviation F := (SE (Frame St)).
Abbreviation M := (SE (Machine St)).
Abbreviation P := (vparams env).

(** ** What a call promises *)
Definition call_ok (m : M call_result) (e : Machine St) (g : Z) : Prop :=
  match m e with
  | (Ok (ret, left_, err), e') =>
      nonneg ret ∧ 0 <= left_ <= g ∧ machine_ok e' ∧ same_machine e e'
      ∧ (err ≠ None → equiv (m_state e') (m_state e))
  | (Err _, _) => False
  | (Panic p, _) => known_panic env p
  end.
Definition create_ok (m : M create_result) (e : Machine St) (g : Z) : Prop :=
  match m e with
  | (Ok (ret, addr, left_, _), e') =>
      nonneg ret ∧ 0 <= addr ∧ 0 <= left_ <= g ∧ machine_ok e' ∧ same_machine e e'
  | (Err _, _) => False
  | (Panic p, _) => known_panic env p
  end.

Record calls_ok (n : Z) (calls : Calls St) : Prop := {
  ok_Call r a i g v e : ref_ok r → 0 <= a → data_ok i → 0 <= g < max_gas → 0 <= v → machine_ok e →
    enough n g a → call_ok (c_Call calls r a i g v) e g;
  ok_CallCode r a i g v e : ref_ok r → 0 <= a → data_ok i → 0 <= g < max_gas → 0 <= v → machine_ok e →
    enough n g a → call_ok (c_CallCode calls r a i g v) e g;
  ok_DelegateCall me ca v a i g e : ref_ok (ContractOf me ca v) → 0 <= a → data_ok i → 0 <= g < max_gas →
    machine_ok e → enough n g a → call_ok (c_DelegateCall calls (ContractOf me ca v) a i g) e g;
  ok_StaticCall r a i g e : ref_ok r → 0 <= a → data_ok i → 0 <= g < max_gas → machine_ok e →
    enough n g a → call_ok (c_StaticCall calls r a i g) e g;
  ok_Create r i g v o e : ref_ok r → nonneg i → 0 <= g < max_gas → 0 <= v → (∀ a, o = Some a → 0 <= a) →
    machine_ok e → 2 * g + 3 <= n → create_ok (c_Create calls r i g v o) e g;
  ok_Create2 r i g v s e : ref_ok r → nonneg i → 0 <= g < max_gas → 0 <= v →
    machine_ok e → 2 * g + 3 <= n → create_ok (c_Create2 calls r i g v s) e g;
}.

Section calls.
Context (calls : Calls St) (n : Z) (Hcalls : calls_ok n calls).

(** ** The instructions that call *)
Lemma enough_below g a G : g <= G - 1 → 2 * G + 1 <= n → enough n g a.
Proof. unfold enough. intros. case_bool_decide; lia. Qed.

Lemma machine_step_ok pc c m st e e' :
  frame_ok (mkFrame pc c m st e) → machine_ok e' → frame_ok (mkFrame pc c m st e' : Frame St).
Proof. intros [] ?. by split. Qed.

Lemma hoare_machine {A B} (op : M A) (k : A → F B) pc c m st e G Q :
  match op e with
  | (Ok a, e') => same_machine e e' ∧ hoare env (k a) (mkFrame pc c m st e') G Q
  | (Err _, _) => False
  | (Panic p, _) => known_panic env p
  end → hoare env (x ← on_machine op; k x) (mkFrame pc c m st e) G Q.
Proof.
  intros Hop. unfold hoare at 1. unfold on_machine. se_red. cbn [f_machine f_pc f_contract f_mem f_stack].
  destruct (op e) as [[a|er|p] e'] eqn:Heq; [|done|done]. destruct Hop as [Hsm Hk]. unfold hoare in Hk.
  assert (∀ g, same_frame (mkFrame pc c m st e') g → same_frame (mkFrame pc c m st e) g) as Hsame.
  { intros g [Hg1 Hg2]. split; [exact Hg1|]. by etrans. }
  destruct (k a _) as [[b|er|p] f'']; [| |done].
  - destruct Hk as (?&?&?&?). split_and!; [done|by apply Hsame|done|done].
  - destruct Hk as (?&?&?). split_and!; [done|by apply Hsame|done].
Qed.

Lemma hoare_call {B} (op : M call_result) (k : call_result → F B) pc c m st e g G Q :
  frame_ok (mkFrame pc c m st e) → call_ok op e g →
  (∀ ret left_ err e', nonneg ret → 0 <= left_ <= g → frame_ok (mkFrame pc c m st e') →
     hoare env (k (ret, left_, err)) (mkFrame pc c m st e') G Q) →
  hoare env (x ← on_machine op; k x) (mkFrame pc c m st e) G Q.
Proof.
  intros Hf Hop Hk. apply hoare_machine. unfold call_ok in Hop.
  destruct (op e) as [[[[ret left_] err]|er|p] e']; [|done|done].
  destruct Hop as (?&?&?&?&_). split; [done|]. apply Hk; [done|done|by eapply machine_step_ok].
Qed.
Lemma hoare_create {B} (op : M create_result) (k : create_result → F B) pc c m st e g G Q :
  frame_ok (mkFrame pc c m st e) → create_ok op e g →
  (∀ ret addr left_ err e', nonneg ret → 0 <= addr → 0 <= left_ <= g → frame_ok (mkFrame pc c m st e') →
     hoare env (k (ret, addr, left_, err)) (mkFrame pc c m st e') G Q) →
  hoare env (x ← on_machine op; k x) (mkFrame pc c m st e) G Q.
Proof.
  intros Hf Hop Hk. apply hoare_machine. unfold create_ok in Hop.
  destruct (op e) as [[[[[ret addr] left_] err]|er|p] e']; [|done|done].
  destruct Hop as (?&?&?&?&?). split; [done|]. apply Hk; [done|done|done|by eapply machine_step_ok].
Qed.

(** Another gas in the contract. *)
Lemma with_gas_ok c g : contract_ok c → 0 <= g < max_gas → contract_ok (with_gas g c).
Proof. intros [] ?. by split. Qed.
Lemma with_gas_same c g : same_contract c (with_gas g c).
Proof. by split. Qed.
Lemma with_queried_ok c : contract_ok c → contract_ok (with_queried c).
Proof. intros []. by split. Qed.
Lemma with_queried_same c : same_contract c (with_queried c).
Proof. by split. Qed.

Lemma hoare_contract {A} (k : unit → F A) pc c c' m st e G Q :
  frame_ok (mkFrame pc c m st e) → contract_ok c' → same_contract c c' →
  (frame_ok (mkFrame pc c' m st e) → hoare env (k tt) (mkFrame pc c' m st e) G Q) →
  hoare env (u ← set_contract c'; k u) (mkFrame pc c m st e) G Q.
Proof.
  intros Hf Hc Hs Hk.
  assert (frame_ok (mkFrame pc c' m st e)) as Hf' by (destruct Hf; by split).
  specialize (Hk Hf'). unfold hoare in *. unfold set_contract. se_red. cbn [f_machine f_pc f_contract f_mem f_stack].
  assert (∀ g, same_frame (mkFrame pc c' m st e) g → same_frame (mkFrame pc c m st e) g) as Hsame.
  { intros g [Hg1 Hg2]. split; [by etrans|exact Hg2]. }
  destruct (k tt _) as [[b|er|p] f'']; [| |done].
  - destruct Hk as (?&?&?&?). split_and!; [done|by apply Hsame|done|done].
  - destruct Hk as (?&?&?). split_and!; [done|by apply Hsame|done].
Qed.

Lemma hoare_add_gas {A} (k : unit → F A) pc c m st e g G Q :
  frame_ok (mkFrame pc c m st e) → 0 <= g → c_Gas c + g < max_gas →
  (frame_ok (mkFrame pc (with_gas (c_Gas c + g) c) m st e) →
     hoare env (k tt) (mkFrame pc (with_gas (c_Gas c + g) c) m st e) G Q) →
  hoare env (u ← add_gas g; k u) (mkFrame pc c m st e) G Q.
Proof.
  intros Hf Hg Hlt Hk. pose proof (co_gas _ (fo_contract _ Hf)) as Hgas. cbn [f_contract] in Hgas.
  unfold add_gas.
  assert (u64 (c_Gas c + g) = c_Gas c + g) as Heq by (unfold max_gas in *; apply u64_id; unfold in_u64; lia).
  change (hoare env (u ← set_contract (with_gas (u64 (c_Gas c + g)) c); k u) (mkFrame pc c m st e) G Q).
  rewrite Heq. apply hoare_contract; [done| |apply with_gas_same|done].
  apply with_gas_ok; [apply Hf|lia].
Qed.

Lemma hoare_modify {A} (k : unit → F A) a pc c m st e G Q :
  frame_ok (mkFrame pc c m st e) →
  (∀ c', frame_ok (mkFrame pc c' m st e) → c_Gas c' = c_Gas c → hoare env (k tt) (mkFrame pc c' m st e) G Q) →
  hoare env (u ← ModifyTokenIDQueried a; k u) (mkFrame pc c m st e) G Q.
Proof.
  intros Hf Hk. unfold ModifyTokenIDQueried. destruct (decide (a = currentMntIDAddr)) as [Ha|Ha].
  - rewrite bool_decide_true by done.
    change (hoare env (u ← set_contract (with_queried c); k u) (mkFrame pc c m st e) G Q).
    apply hoare_contract; [done|apply with_queried_ok, Hf|apply with_queried_same|]. intros Hf'. by apply Hk.
  - rewrite bool_decide_false by done. change (hoare env (k tt) (mkFrame pc c m st e) G Q). by apply Hk.
Qed.

(** The end of a call. *)
Lemma finish_call_ok to ro rs ret left_ err pc c m st e G k :
  frame_ok (mkFrame pc c m st e) → 0 <= ro → 0 <= rs → holds m ro rs → nonneg ret → 0 <= left_ →
  c_Gas c + left_ <= G → G < max_gas → (length st + 1 = k)%nat →
  hoare env (finish_call to ro rs (ret, left_, err)) (mkFrame pc c m st e) G
    (fun r f' => nonneg r ∧ length (f_stack f') = k).
Proof.
  intros Hf Hro Hrs Hh Hret Hl HG Hlt Hk. unfold finish_call.
  apply hoare_push; [done|by case_bool_decide|intros Hf1].
  set (x := if bool_decide (err = None) then 1 else 0) in *.
  assert (∀ m', frame_ok (mkFrame pc c m' (x :: st) e) →
    hoare env (_ ← add_gas left_; _ ← ModifyTokenIDQueried to; mret ret) (mkFrame pc c m' (x :: st) e) G
      (fun r f' => nonneg r ∧ length (f_stack f') = k)) as Htail.
  { intros m' Hf'. apply hoare_add_gas; [done|done|lia|]. intros Hf2. apply hoare_modify; [done|].
    intros c' Hf3 Hgas. apply hoare_ret; [done|by cbn [f_contract]; rewrite Hgas; cbn|].
    split; [done|]. cbn [f_stack length]. lia. }
  match goal with |- hoare _ (mbind _ (if ?b then _ else _)) _ _ _ => destruct b end.
  - by apply hoare_memory_Set.
  - by apply Htail.
Qed.

(** What executing a row does, when its cost was at least [need]: the gas that
    is left is [lo] below what there was before the row. *)
Definition exec_ok (p q : nat) (ms : option (list Z → result Z)) (need : list Z → Z → Z) (lo : Z) (ex : F (list Z)) : Prop :=
  ∀ pc c m st e G, frame_ok (mkFrame pc c m st e) → (p ≤ length st)%nat → mem_fits ms st m →
  c_Gas c + need st (m_callGasTemp e) <= G → G < max_gas → 2 * G + 1 <= n →
  hoare env ex (mkFrame pc c m st e) (G - lo)
    (fun ret f' => nonneg ret ∧ (length (f_stack f') + p = length st + q)%nat).

Lemma simple_exec p q ms lo ex : op_ok env p q ms ex → exec_ok p q ms (fun _ _ => lo) lo ex.
Proof.
  intros Hop pc c m st e G Hf Hp Hms HG Hlt Hn. eapply hoare_weaken; [by apply Hop|lia|done].
Qed.

(** What a call costs at least, with the gas it passes on. *)
Definition call_need (fee : list Z → Z) (st : list Z) (temp : Z) : Z := gt_Calls (gasTable env) + fee st + temp.

Lemma BigToAddress_nonneg z : 0 <= BigToAddress z.
Proof. apply Z.mod_pos_bound. lia. Qed.
Lemma ref_of_ok c : contract_ok c → ref_ok (ref_of c).
Proof. intros []. by split_and!. Qed.

(** The stipend of a call with a value is paid for. *)
Lemma stipend_bounds v temp c G :
  0 <= c_Gas c → 0 <= temp → G < max_gas →
  c_Gas c + (gt_Calls (gasTable env) + (if bool_decide (v = 0) then 0 else CallValueTransferGas P) + temp) <= G →
  let gas := if bool_decide (U256 v = 0) then temp else u64 (temp + CallStipend P) in
  0 <= gas < max_gas ∧ c_Gas c + gas <= G - 1.
Proof.
  intros Hc Ht HG Hneed gas. pose proof (pay_stipend _ (env_params _ _ Henv)).
  pose proof (pos_calls _ (env_table _ _ Henv)). subst gas.
  destruct (decide (U256 v = 0)) as [Hv|Hv].
  - rewrite (bool_decide_true (U256 v = 0)) by done. revert Hneed. case_bool_decide; lia.
  - rewrite (bool_decide_false (U256 v = 0)) by done. rewrite bool_decide_false in Hneed by (intros ->; apply Hv; by rewrite U256_spec).
    unfold max_gas in *. rewrite u64_id by (unfold in_u64; lia). lia.
Qed.

Lemma max_le_l a b c : Z.max a b <= c → a <= c ∧ b <= c.
Proof. lia. Qed.

(** The start of the instructions that call: operands, memory, guards. *)
Ltac call_start := intros pc c m st e G Hf Hlen Hmem Hneed Hlt Hn; operands Hlen;
  pose proof (co_gas _ (fo_contract _ Hf)) as Hgas; cbn [f_contract] in Hgas;
  pose proof (ma_temp _ (fo_machine _ Hf)) as Htemp; cbn [f_machine] in Htemp;
  mem_holds Hmem; apply max_le_l in Hmem as [Hm1 Hm2]; cbn [length];
  unfold call_need, value_fee in Hneed.
Ltac enough_fuel G := eapply (enough_below _ _ G); lia.

Ltac call_end G := intros ret left_ err e' Hret Hl Hf'; eapply hoare_weaken;
  [eapply (finish_call_ok _ _ _ _ _ _ _ _ _ _ _ (G - 1)); [done..|lia|lia|lia|reflexivity]|lia|
   intros r f'' _ [Hr Hk]; split; [done|lia]].

Lemma opCall_ok : exec_ok 7 1 (Some memoryCall) (call_need (value_fee env)) 1 (opCall env calls).
Proof.
  call_start. unfold opCall. apply hoare_pop; [done|intros _ Hf0]. apply hoare_get. pops.
  apply hoare_memory_Get; [done..|]. intros d Hd. cbn [f_contract f_machine].
  destruct (stipend_bounds z1 (m_callGasTemp e) c G) as [Hg1 Hg2]; [lia|done|done|exact Hneed|].
  eapply hoare_call; [done|apply (ok_Call _ _ Hcalls); [by apply ref_of_ok, Hf|apply BigToAddress_nonneg|done|done|
    apply U256_nonneg|apply Hf|enough_fuel G]|].
  call_end G.
Qed.
Lemma opCallCode_ok : exec_ok 7 1 (Some memoryCall) (call_need (value_fee env)) 1 (opCallCode env calls).
Proof.
  call_start. unfold opCallCode. apply hoare_pop; [done|intros _ Hf0]. apply hoare_get. pops.
  apply hoare_memory_Get; [done..|]. intros d Hd. cbn [f_contract f_machine].
  destruct (stipend_bounds z1 (m_callGasTemp e) c G) as [Hg1 Hg2]; [lia|done|done|exact Hneed|].
  eapply hoare_call; [done|apply (ok_CallCode _ _ Hcalls); [by apply ref_of_ok, Hf|apply BigToAddress_nonneg|done|done|
    apply U256_nonneg|apply Hf|enough_fuel G]|].
  call_end G.
Qed.
Lemma opDelegateCall_ok : exec_ok 6 1 (Some memoryDelegateCall) (call_need (fun _ => 0)) 1 (opDelegateCall calls).
Proof.
  call_start. pose proof (pos_calls _ (env_table _ _ Henv)).
  unfold opDelegateCall. apply hoare_pop; [done|intros _ Hf0]. apply hoare_get. pops.
  apply hoare_memory_Get; [done..|]. intros d Hd. cbn [f_contract f_machine].
  eapply hoare_call; [done|apply (ok_DelegateCall _ _ Hcalls); [by apply (ref_of_ok c), Hf|apply BigToAddress_nonneg|done|lia|
    apply Hf|enough_fuel G]|].
  call_end G.
Qed.
Lemma opStaticCall_ok : exec_ok 6 1 (Some memoryStaticCall) (call_need (fun _ => 0)) 1 (opStaticCall calls).
Proof.
  call_start. pose proof (pos_calls _ (env_table _ _ Henv)).
  unfold opStaticCall. apply hoare_pop; [done|intros _ Hf0]. apply hoare_get. pops.
  apply hoare_memory_Get; [done..|]. intros d Hd. cbn [f_contract f_machine].
  eapply hoare_call; [done|apply (ok_StaticCall _ _ Hcalls); [by apply (ref_of_ok c), Hf|apply BigToAddress_nonneg|done|lia|
    apply Hf|enough_fuel G]|].
  call_end G.
Qed.

(** *** Creations *)
Lemma hoare_UseGas {A} (k : bool → F A) g pc c m st e G Q :
  frame_ok (mkFrame pc c m st e) → 0 <= g <= c_Gas c →
  (frame_ok (mkFrame pc (with_gas (c_Gas c - g) c) m st e) →
     hoare env (k true) (mkFrame pc (with_gas (c_Gas c - g) c) m st e) G Q) →
  hoare env (b ← fUseGas g; k b) (mkFrame pc c m st e) G Q.
Proof.
  intros Hf Hg Hk. pose proof (co_gas _ (fo_contract _ Hf)) as Hgas. cbn [f_contract] in Hgas.
  assert (∀ (B : Type) (x y : B), (if bool_decide (c_Gas c < g) then x else y) = y) as Hif
    by (intros; by rewrite bool_decide_false by lia).
  assert (hoare env (u ← set_contract (with_gas (c_Gas c - g) c); k true) (mkFrame pc c m st e) G Q) as Hh.
  { apply hoare_contract; [done| |apply with_gas_same|done]. apply with_gas_ok; [apply Hf|lia]. }
  revert Hh. unfold hoare, fUseGas, UseGas. se_red. cbn [f_contract]. rewrite Hif. done.
Qed.

Lemma nonneg_if (b : bool) r : nonneg r → nonneg (if b then r else []).
Proof. intros Hr. by destruct b. Qed.

(** The gas a creation passes on. *)
Lemma create_gas c (b : bool) : 0 <= c_Gas c < max_gas →
  let gas := if b then u64 (c_Gas c - c_Gas c / 64) else c_Gas c in
  0 <= gas <= c_Gas c.
Proof.
  intros Hgas. destruct b; [|lia]. unfold max_gas in *. cbn zeta.
  pose proof (Z.div_mod (c_Gas c) 64 ltac:(lia)). pose proof (Z.mod_pos_bound (c_Gas c) 64 ltac:(lia)).
  rewrite u64_id by (unfold in_u64; lia). lia.
Qed.

Ltac create_start := intros pc c m st e G Hf Hlen Hmem Hneed Hlt Hn; operands Hlen;
  pose proof (co_gas _ (fo_contract _ Hf)) as Hgas; cbn [f_contract] in Hgas; mem_holds Hmem; cbn [length].

Lemma opCreate_ok : exec_ok 3 1 (Some memoryCreate) (fun _ _ => 1) 1 (opCreate env calls).
Proof.
  create_start. unfold opCreate. pops. apply hoare_memory_Get; [done..|]. intros d [Hd _]. op_get.
  pose proof (create_gas c (IsEIP150 env) Hgas) as Hg. cbn zeta in Hg.
  set (g := if IsEIP150 env then u64 (c_Gas c - c_Gas c / 64) else c_Gas c) in *.
  apply hoare_UseGas; [done|done|]. intros Hf1.
  eapply hoare_create; [done|apply (ok_Create _ _ Hcalls); [by apply (ref_of_ok c), Hf|done|lia|done|done|apply Hf|lia]|].
  intros ret addr left_ err e' Hret Ha Hl Hf'.
  apply hoare_push; [done|by repeat case_match|intros Hf2].
  apply hoare_add_gas; [done|lia|cbn; lia|]. intros Hf3.
  destruct (co_addr _ (fo_contract _ Hf)) as [ca Hca]. cbn [f_contract] in Hca. rewrite Hca.
  apply hoare_modify; [done|]. intros c' Hf4 Hc'.
  apply hoare_ret; [done|cbn [f_contract]; rewrite Hc'; cbn; lia|].
  split; [by apply nonneg_if|]. cbn [f_stack length]. lia.
Qed.

Lemma opCreate2_ok : exec_ok 4 1 (Some memoryCreate2) (fun _ _ => 1) 1 (opCreate2 calls).
Proof.
  create_start. unfold opCreate2. pops. apply hoare_memory_Get; [done..|]. intros d [Hd _]. op_get.
  pose proof (create_gas c true Hgas) as Hg. cbn zeta in Hg. set (g := u64 (c_Gas c - c_Gas c / 64)) in *.
  apply hoare_UseGas; [done|done|]. intros Hf1.
  eapply hoare_create; [done|apply (ok_Create2 _ _ Hcalls); [by apply (ref_of_ok c), Hf|done|lia|done|apply Hf|lia]|].
  intros ret addr left_ err e' Hret Ha Hl Hf'.
  apply hoare_push; [done|by repeat case_match|intros Hf2].
  apply hoare_add_gas; [done|lia|cbn; lia|]. intros Hf3.
  apply hoare_ret; [done|cbn; lia|]. split; [by apply nonneg_if|]. cbn [f_stack length]. lia.
Qed.

(** ** The rows of the jump table *)
Definition ms_ok (p : nat) (ms : option (list Z → result Z)) : Prop :=
  match ms with
  | None => True
  | Some g => ∀ st, (p ≤ length st)%nat → nonneg st → ∃ z, g st = Ok z ∧ 0 <= z
  end.
Definition has_mem (ms : option (list Z → result Z)) : bool := match ms with None => false | Some _ => true end.

Definition gas_row (p : nat) (ms : option (list Z → result Z)) (need : list Z → Z → Z) (g : Z → F Z) : Prop :=
  ∀ f size, frame_ok f → (p ≤ length (f_stack f))%nat → in_u64 size → (ms = None → size = 0) →
  hoare env (g size) f (c_Gas (f_contract f))
    (fun cost f' => kept f f' ∧ 0 <= cost ∧ need (f_stack f) (m_callGasTemp (f_machine f')) <= cost ∧ size <= max_mem).

(** A row costs gas unless it ends the run. *)
Definition row_ok (o : operation) : Prop := ∃ need lo,
  0 <= lo ∧ (lo = 0 → halts o || reverts o = true)
  ∧ gas_row (stack_pops o) (memorySize o) need (gasCost o)
  ∧ exec_ok (stack_pops o) (stack_pushes o) (memorySize o) need lo (execute o)
  ∧ ms_ok (stack_pops o) (memorySize o).

Lemma simple_row o lo :
  0 <= lo → (lo = 0 → halts o || reverts o = true) →
  gas_ok env (stack_pops o) lo (has_mem (memorySize o)) (gasCost o) →
  op_ok env (stack_pops o) (stack_pushes o) (memorySize o) (execute o) →
  ms_ok (stack_pops o) (memorySize o) → row_ok o.
Proof.
  intros Hlo Hh Hg Hop Hms. exists (fun _ _ => lo), lo. split_and!; [done|done| |by apply simple_exec|done].
  intros f size Hf Hp Hs Hn0. eapply hoare_weaken; [by apply Hg|done|]. intros cost f' _ (Hk&Hc&Hm).
  split_and!; [done|lia|done|]. destruct (memorySize o); [by apply Hm|]. rewrite Hn0 by done. unfold max_mem. lia.
Qed.
Lemma call_row o fee :
  (∀ st, 0 <= fee st) → call_gas_ok env (stack_pops o) fee (gasCost o) →
  exec_ok (stack_pops o) (stack_pushes o) (memorySize o) (call_need fee) 1 (execute o) →
  ms_ok (stack_pops o) (memorySize o) → row_ok o.
Proof.
  intros Hfee Hg Hop Hms. exists (call_need fee), 1. split_and!; [lia|lia| |done|done].
  intros f size Hf Hp Hs _. eapply hoare_weaken; [by apply Hg|done|]. intros cost f' _ (Hk&Hm&Ht&Hc).
  pose proof (pos_calls _ (env_table _ _ Henv)). specialize (Hfee (f_stack f)). unfold call_need.
  split_and!; [done|lia|done|done].
Qed.
Lemma create_row o :
  gas_ok env (stack_pops o) 1 true (gasCost o) →
  exec_ok (stack_pops o) (stack_pushes o) (memorySize o) (fun _ _ => 1) 1 (execute o) →
  ms_ok (stack_pops o) (memorySize o) → row_ok o.
Proof.
  intros Hg Hop Hms. exists (fun _ _ => 1), 1. split_and!; [lia|lia| |done|done].
  intros f size Hf Hp Hs _. eapply hoare_weaken; [by apply Hg|done|]. intros cost f' _ (Hk&Hc&Hm).
  split_and!; [done|lia|done|by apply Hm].
Qed.

Lemma value_fee_nonneg st : 0 <= value_fee env st.
Proof. pose proof (pay_stipend _ (env_params _ _ Henv)). unfold value_fee. case_bool_decide; lia. Qed.

(** Memory sizes are there when the operands are. *)
Lemma calcMemSize_nonneg off l : 0 <= off → 0 <= l → 0 <= calcMemSize off l.
Proof. intros. unfold calcMemSize. case_bool_decide; lia. Qed.
Lemma mem_size_of_ok p i j : (i < p)%nat → (j < p)%nat → ms_ok p (Some (mem_size_of i j)).
Proof.
  intros Hi Hj st Hp Hst. unfold mem_size_of. destruct (Back_ok st i ltac:(lia)) as (x&->&Hx).
  destruct (Back_ok st j ltac:(lia)) as (y&->&Hy). rewrite Forall_lookup in Hst. eexists. split; [done|].
  apply calcMemSize_nonneg; by eapply Hst.
Qed.
Lemma mem_size_2_ok p i j k l : (i < p)%nat → (j < p)%nat → (k < p)%nat → (l < p)%nat →
  ms_ok p (Some (fun st => x ← mem_size_of i j st; y ← mem_size_of k l st; Ok (Z.max x y))).
Proof.
  intros Hi Hj Hk Hl st Hp Hst. destruct (mem_size_of_ok p i j Hi Hj st Hp Hst) as (x&Hx&Hx0).
  destruct (mem_size_of_ok p k l Hk Hl st Hp Hst) as (y&Hy&Hy0). cbn. rewrite Hx. cbn. rewrite Hy. cbn.
  eexists. split; [done|lia].
Qed.
Lemma mem_size_at_ok p n0 : (0 < p)%nat → 0 <= n0 → ms_ok p (Some (fun st => o ← Back st 0; Ok (calcMemSize o n0))).
Proof.
  intros Hp Hn0 st Hst Hnn. destruct (Back_ok st 0 ltac:(lia)) as (x&Hx&Hlook). cbn. rewrite Hx.
  rewrite Forall_lookup in Hnn. eexists. split; [done|]. apply calcMemSize_nonneg; [by eapply Hnn|done].
Qed.

(** The costs are positive. *)
Ltac cost_bounds :=
  pose proof (pos_sha3 _ (env_params _ _ Henv)); pose proof (pos_create _ (env_params _ _ Henv));
  pose proof (pos_jumpdest _ (env_params _ _ Henv)); pose proof (word_gas _ (env_params _ _ Henv));
  pose proof (pos_extcode _ (env_table _ _ Henv)); pose proof (pos_balance _ (env_table _ _ Henv));
  pose proof (pos_sload _ (env_table _ _ Henv));
  unfold in_u64, GasQuickStep, GasFastestStep, GasFastStep, GasMidStep, GasSlowStep, GasExtStep in *; lia.
Ltac row_gas := first
  [ apply (const_gas_ok env _ 1); cost_bounds
  | apply mem_gas_ok; cost_bounds
  | apply copy_gas_ok; [cost_bounds|cost_bounds|lia] ].
Ltac row_mem := first
  [ exact I | apply mem_size_of_ok; lia | apply mem_size_at_ok; lia | apply mem_size_2_ok; lia ].
(** A row, from what its gas function and its instruction do. *)
Ltac a_row gas op := eapply simple_row; cbn [row with_mem that_halts that_jumps that_writes that_reverts that_returns
    execute gasCost stack_pops stack_pushes memorySize halts reverts has_mem orb];
  [ | |gas|op|row_mem]; [cost_bounds|first [done|cost_bounds]].

(** The same for every row of a table. *)
Ltac table_rows op := intros Ho; destruct op; try discriminate Ho;
  cbn [frontier_push frontier_copy frontier_calls] in Ho; repeat (case_bool_decide; [|discriminate Ho]);
  injection Ho as <-; try (a_row row_gas ltac:(by eauto with evm_ops)).

Lemma frontier_arith_ok op o : frontier_arith env Keccak256Hash op = Some o → row_ok o.
Proof.
  table_rows op.
  - a_row ltac:(apply (const_gas_ok env _ 0); lia) ltac:(apply opStop_ok).
  - a_row ltac:(apply gasExp_ok) ltac:(apply opExp_ok).
Qed.
Lemma frontier_context_ok op o : frontier_context env op = Some o → row_ok o.
Proof. table_rows op. Qed.
Lemma frontier_storage_ok op o : frontier_storage env op = Some o → row_ok o.
Proof. table_rows op. a_row ltac:(by eapply gasSStore_ok) ltac:(apply opSstore_ok). Qed.
Lemma frontier_push_ok op o : frontier_push op = Some o → row_ok o.
Proof. table_rows op. Qed.
Lemma frontier_copy_ok op o : frontier_copy op = Some o → row_ok o.
Proof.
  table_rows op.
  - a_row row_gas ltac:(apply makeDup_ok; lia).
  - a_row row_gas ltac:(apply makeSwap_ok; lia).
Qed.

Ltac a_call gas op := eapply call_row; cbn [row with_mem that_halts that_jumps that_writes that_reverts that_returns
    execute gasCost stack_pops stack_pushes memorySize];
  [|eapply gas; [done|lia]|apply op|row_mem]; first [apply value_fee_nonneg|done].
Ltac a_create op := eapply create_row; cbn [row with_mem that_halts that_jumps that_writes that_reverts that_returns
    execute gasCost stack_pops stack_pushes memorySize]; [|apply op|row_mem].

Lemma gas_ok_mono p lo lo' b (g : Z → F Z) : lo' <= lo → gas_ok env p lo b g → gas_ok env p lo' b g.
Proof.
  intros Hlo Hg f size Hf Hp Hs. eapply hoare_weaken; [by apply Hg|done|].
  intros cost f' _ (?&?&?). split_and!; [done|lia|done].
Qed.

Lemma frontier_calls_ok op o : frontier_calls env calls op = Some o → row_ok o.
Proof.
  table_rows op.
  - a_row ltac:(eapply makeGasLog_ok; [done|lia]) ltac:(by apply makeLog_ok).
  - a_create opCreate_ok. eapply gas_ok_mono; [|apply mem_gas_ok]; cost_bounds.
  - a_call gasCall_ok opCall_ok.
  - a_call gasCallCode_ok opCallCode_ok.
  - a_row ltac:(apply memory_only_ok) ltac:(apply opReturn_ok).
  - a_row ltac:(by eapply gasSuicide_ok) ltac:(apply opSuicide_ok).
Qed.

Lemma frontier_ok op o : newFrontierInstructionSet env Keccak256Hash calls op = Some o → row_ok o.
Proof.
  unfold newFrontierInstructionSet, or_else. intros Ho. repeat case_match; simplify_eq;
    eauto using frontier_arith_ok, frontier_context_ok, frontier_storage_ok, frontier_push_ok,
      frontier_copy_ok, frontier_calls_ok.
Qed.
Lemma homestead_ok op o : newHomesteadInstructionSet env Keccak256Hash calls op = Some o → row_ok o.
Proof.
  intros Ho. destruct op; try (by apply (frontier_ok _ _ Ho)). injection Ho as <-.
  a_call gasDelegateCall_ok opDelegateCall_ok.
Qed.
Lemma byzantium_ok op o : newByzantiumInstructionSet env Keccak256Hash calls op = Some o → row_ok o.
Proof.
  intros Ho. destruct op; try (by apply (homestead_ok _ _ Ho)); injection Ho as <-.
  - a_row row_gas ltac:(apply opReturnDataSize_ok).
  - a_row row_gas ltac:(apply opReturnDataCopy_ok).
  - a_call gasStaticCall_ok opStaticCall_ok.
  - a_row ltac:(apply memory_only_ok) ltac:(apply opRevert_ok).
Qed.
Lemma constantinople_ok op o : IsConstantinople env = true →
  newConstantinopleInstructionSet env Keccak256Hash calls op = Some o → row_ok o.
Proof.
  intros HC Ho. pose proof (pos_exthash _ (env_table _ _ Henv) HC).
  destruct op; try (by apply (byzantium_ok _ _ Ho)); injection Ho as <-.
  - a_row row_gas ltac:(apply opSHL_ok).
  - a_row row_gas ltac:(apply opSHR_ok).
  - a_row row_gas ltac:(apply opSAR_ok).
  - a_row row_gas ltac:(apply opExtCodeHash_ok).
  - a_create opCreate2_ok. eapply gas_ok_mono; [|apply copy_gas_ok]; [cost_bounds..|lia].
Qed.
Lemma JumpTable_ok op o : JumpTable env Keccak256Hash calls op = Some o → row_ok o.
Proof.
  unfold JumpTable. repeat case_match; intros Ho;
    [by eapply constantinople_ok|by eapply byzantium_ok|by eapply homestead_ok|by eapply frontier_ok].
Qed.

(** ** One turn of the loop *)
Lemma hoare_catch {A} (m : F A) f G Q :
  hoare env m f G Q →
  hoare env (catch m) f G (fun r f' => match r with inl a => Q a f' | inr _ => True end).
Proof.
  unfold hoare, catch. destruct (m f) as [[a|e|p] f']; [done| |done]. intros (?&?&?). by split_and!.
Qed.

Lemma CALL_pops o : JumpTable env Keccak256Hash calls CALL = Some o → stack_pops o = 7%nat.
Proof. unfold JumpTable. repeat case_match; intros Ho; injection Ho as <-; done. Qed.

Lemma enforce_ok op o f :
  JumpTable env Keccak256Hash calls op = Some o → (stack_pops o ≤ length (f_stack f))%nat →
  pure_ok env (enforceRestrictions env op o) f (fun _ => True).
Proof.
  intros Ho Hp G Hf HG. unfold enforceRestrictions. apply hoare_get. case_match; [|by apply hoare_ret].
  case_match; [by apply hoare_ret|]. case_bool_decide as Hop; [|by apply hoare_ret]. subst op.
  rewrite (CALL_pops _ Ho) in Hp. apply hoare_back; [lia|done|intros x _ _]. by apply hoare_ret.
Qed.

Lemma memory_needed_ok o f :
  ms_ok (stack_pops o) (memorySize o) → (stack_pops o ≤ length (f_stack f))%nat →
  pure_ok env (memory_needed o) f (fun r => match r with
    | None => True
    | Some size => in_u64 size ∧ (memorySize o = None → size = 0)
        ∧ ∀ g, memorySize o = Some g → ∃ z, g (f_stack f) = Ok z ∧ z <= size
    end).
Proof.
  intros Hms Hp G Hf HG. unfold memory_needed. destruct (memorySize o) as [g|].
  - apply hoare_get. destruct (Hms _ Hp (fo_stack _ Hf)) as (z&Hz&Hz0). eapply hoare_lift; [done|].
    rewrite bigUint64_spec by done. destruct (decide (max_u64 < z)) as [Hov|Hov].
    { rewrite bool_decide_true by done. by apply hoare_ret. }
    rewrite bool_decide_false by done. rewrite u64_id by (unfold in_u64, max_u64 in *; lia).
    destruct (toWordSize_spec z ltac:(lia)) as (Hw0&Hw1&Hw2).
    rewrite SafeMul_spec by (unfold in_u64; lia). case_bool_decide as Hw; [by apply hoare_ret|].
    apply hoare_ret; [done|done|]. unfold max_u64 in *. rewrite u64_id by (unfold in_u64; lia).
    split; [done|]. split_and!; [unfold in_u64; lia|done|]. intros g' [= <-]. exists z. split; [done|lia].
  - apply hoare_ret; [done|done|]. split; [done|]. split_and!; [unfold in_u64; lia|done|done].
Qed.

Lemma mem_Resize_ok m size : mem_ok m → size <= max_mem → mem_ok (mem_Resize size m) ∧ size <= mem_Len (mem_Resize size m).
Proof.
  intros [Hb Hl] Hs. unfold mem_Resize. case_bool_decide; [|split; [by split|lia]].
  unfold mem_Len in *. cbn [store]. rewrite length_app, repeat_length. split; [|lia].
  split; unfold mem_Len; cbn [store].
  - apply Forall_app. split; [done|apply nonneg_repeat].
  - rewrite length_app, repeat_length. lia.
Qed.

(** After a turn that goes on, there is less gas, and the stack has the height
    of the row, within the limit. *)
Definition continues (f f' : Frame St) : Prop :=
  c_Gas (f_contract f') < c_Gas (f_contract f) ∧
  ∃ o, JumpTable env Keccak256Hash calls (GetOp (f_contract f) (f_pc f)) = Some o
    ∧ (stack_pops o ≤ length (f_stack f))%nat
    ∧ (length (f_stack f') + stack_pops o = length (f_stack f) + stack_pushes o)%nat
    ∧ Z.of_nat (length (f_stack f')) <= StackLimit P.
Definition turn (f : Frame St) (r : option (list Z * option VMError)) (f' : Frame St) : Prop :=
  match r with None => continues f f' | Some (ret, _) => nonneg ret end.

Lemma vm_error_ok msg f f0 G : frame_ok f → c_Gas (f_contract f) <= G → hoare env (vm_error msg) f G (turn f0).
Proof. intros Hf HG. unfold vm_error, stop_with. apply hoare_ret; [done|done|]. cbn. constructor. Qed.

Lemma hoare_returnData {A} (k : unit → F A) (g : Machine St → Machine St) f G Q d :
  frame_ok f → nonneg d →
  (∀ e, g e = mkMachine (m_state e) (m_depth e) (m_readOnly e) d (m_callGasTemp e) (m_TransferTokenID e)) →
  (∀ f', frame_ok f' → kept f f' → hoare env (k tt) f' G Q) →
  hoare env (u ← on_machine (se_mod g); k u) f G Q.
Proof.
  intros Hf Hd Hg Hk. destruct f as [pc c m st e]. apply hoare_machine. unfold se_mod. rewrite Hg.
  split; [split; [apply ext_refl|done..]|]. apply Hk; [|by split].
  destruct Hf as [? ? ? ? [? ? ?]]. by split.
Qed.

Lemma after_execute_ok o r f f0 G :
  frame_ok f → c_Gas (f_contract f) <= G →
  match r with
  | inl res => nonneg res ∧ (halts o || reverts o = false →
      ∀ f', f_contract f' = f_contract f → f_stack f' = f_stack f → continues f0 f')
  | inr _ => True
  end →
  hoare env (after_execute o r) f G (turn f0).
Proof.
  intros Hf HG Hr. unfold after_execute.
  eapply (hoare_bind _ _ _ _ _ (fun _ f' => kept f f')).
  { destruct (returns o); [|by apply hoare_ret].
    assert (hoare env (u ← on_machine (se_mod (λ e : Machine St, mkMachine (m_state e) (m_depth e) (m_readOnly e)
      (match r with inl res => res | inr _ => [] end) (m_callGasTemp e) (m_TransferTokenID e))); mret u) f G
      (fun _ f' => kept f f')) as Hh.
    { eapply hoare_returnData; [done| |done|].
      - destruct r as [res|]; [apply Hr|constructor].
      - intros f' Hf' Hk. apply hoare_ret; [done|by rewrite (kp_contract _ _ Hk)|done]. }
    revert Hh. unfold hoare. se_red. by destruct (on_machine _ f) as [[] ?]. }
  intros _ f' Hf' _ HG' Hk. destruct r as [res|er]; [|by apply vm_error_ok].
  destruct Hr as [Hres Hc]. destruct (reverts o) eqn:Erev.
  { unfold stop_with. by apply hoare_ret. }
  destruct (halts o) eqn:Eh.
  { unfold stop_with. by apply hoare_ret. }
  destruct (jumps o).
  - change (hoare env (mret (None : option (list Z * option VMError))) f' G (turn f0)).
    apply hoare_ret; [done|done|]. apply Hc; [done|apply Hk..].
  - change (hoare env (_ ← set_pc (u64 (f_pc f' + 1)); mret (None : option (list Z * option VMError))) f' G (turn f0)).
    destruct f' as [pc c m st e]. apply hoare_pc; [done|apply u64_in|]. intros Hf2.
    apply hoare_ret; [done|done|]. apply Hc; [done|apply Hk..].
Qed.

Lemma stack_func_ok p q st : makeStackFunc (StackLimit P) p q st = Ok tt →
  (p ≤ length st)%nat ∧ Z.of_nat (length st) + Z.of_nat q - Z.of_nat p <= StackLimit P.
Proof.
  unfold makeStackFunc, require. destruct (decide (length st < p)%nat).
  - rewrite (bool_decide_true (length st < p)%nat) by done. cbn. discriminate 1.
  - rewrite (bool_decide_false (length st < p)%nat) by done. cbn. case_bool_decide; [done|]. intros _. split; lia.
Qed.
Lemma stack_func_total p q st msg : makeStackFunc (StackLimit P) p q st ≠ Panic msg.
Proof. unfold makeStackFunc, require. repeat (case_bool_decide; cbn); done. Qed.

(** The gas bound is part of what a result establishes. *)
Lemma hoare_gas {A} (m : F A) f G Q :
  hoare env m f G Q → hoare env m f G (fun a f' => Q a f' ∧ c_Gas (f_contract f') <= G).
Proof. unfold hoare. destruct (m f) as [[a|er|p] f']; [|done|done]. intros (?&?&?&?). by split_and!. Qed.

(** The part of a turn after the guards. *)
Lemma charge_and_run_ok o pc c m st e size :
  JumpTable env Keccak256Hash calls (GetOp c pc) = Some o → row_ok o →
  frame_ok (mkFrame pc c m st e) → (stack_pops o ≤ length st)%nat →
  Z.of_nat (length st) + Z.of_nat (stack_pushes o) - Z.of_nat (stack_pops o) <= StackLimit P →
  2 * c_Gas c + 1 <= n →
  in_u64 size → (memorySize o = None → size = 0) →
  (∀ g, memorySize o = Some g → ∃ z, g st = Ok z ∧ z <= size) →
  hoare env (cost ← catch (gasCost o size);
     match (cost : Z + string) with
     | inr _ => vm_error "out of gas"
     | inl cost =>
         ok ← fUseGas cost;
         if negb ok then vm_error "out of gas"
         else
           f ← se_get;
           _ ← (if bool_decide (0 < size) then set_mem (mem_Resize size (f_mem f)) else mret tt);
           r ← catch (execute o);
           after_execute o r
     end) (mkFrame pc c m st e) (c_Gas c) (turn (mkFrame pc c m st e)).
Proof.
  intros Ho (need&lo&Hlo&Hhalt&Hgas&Hex&_) Hf Hp Hlim Hn Hsz Hsz0 Hfit.
  pose proof (co_gas _ (fo_contract _ Hf)) as Hg. cbn [f_contract] in Hg.
  eapply hoare_bind; [apply hoare_catch; by apply (Hgas (mkFrame pc c m st e))|].
  intros [cost|er] f1 Hf1 _ HG1; [|intros _; by apply vm_error_ok].
  intros (Hk&Hc0&Hneed&Hmax). destruct f1 as [pc1 c1 m1 st1 e1]. destruct Hk as [Epc Ec Estore Est].
  cbn [f_pc f_contract f_mem f_stack f_machine] in *. subst pc1 c1 st1.
  destruct (decide (c_Gas c < cost)) as [Hout|Hin].
  { assert (∀ B (k : bool → F B) R, hoare env (k false) (mkFrame pc c m1 st e1) (c_Gas c) R →
      hoare env (ok ← fUseGas cost; k ok) (mkFrame pc c m1 st e1) (c_Gas c) R) as Hno.
    { intros B k R Hk. revert Hk. unfold hoare, fUseGas, UseGas. se_red. cbn [f_contract].
      assert (∀ (X : Type) (x y : X), (if bool_decide (c_Gas c < cost) then x else y) = x) as Hif
        by (intros; by rewrite bool_decide_true by lia).
      rewrite Hif. done. }
    apply Hno. by apply vm_error_ok. }
  apply hoare_UseGas; [done|lia|]. intros Hf2. cbn [negb]. op_get.
  set (c2 := with_gas (c_Gas c - cost) c) in *.
  assert (∀ m2, frame_ok (mkFrame pc c2 m2 st e1) → mem_fits (memorySize o) st m2 →
    hoare env (r ← catch (execute o); after_execute o r) (mkFrame pc c2 m2 st e1) (c_Gas c)
      (turn (mkFrame pc c m st e))) as Hrun.
  { intros m2 Hf3 Hfits. eapply hoare_bind.
    - apply hoare_catch. eapply hoare_weaken; [apply hoare_gas, (Hex pc c2 m2 st e1 (c_Gas c));
        [done|done|done|cbn; lia|lia|done]|lia|]. intros ret f' Hf' HQ. exact HQ.
    - intros r f' Hf' _ HG' HQ. apply after_execute_ok; [done|done|]. destruct r as [res|]; [|done].
      destruct HQ as [[Hres Hlen] Hless]. split; [done|]. intros Hnh f2 Ec2 Est2.
      assert (lo ≠ 0) by (intros Hlo0; specialize (Hhalt Hlo0); congruence).
      split; [cbn [f_contract]; rewrite Ec2; lia|]. exists o. cbn [f_contract f_pc f_stack] in *. rewrite Est2.
      split_and!; [done|done|done|lia]. }
  assert (mem_ok m1 ∧ mem_Len m1 = mem_Len m) as [Hm1 Elen] by (unfold mem_Len; rewrite Estore; split; [apply Hf1|done]).
  destruct (mem_Resize_ok m1 size Hm1 Hmax) as [Hr1 Hr2].
  case_bool_decide as Hpos.
  - apply hoare_mem; [done|done|]. intros Hf3. apply Hrun; [done|].
    unfold mem_fits. destruct (memorySize o) as [g|]; [|done].
    destruct (Hfit g eq_refl) as (z&Hz&Hzs). exists z. split; [done|lia].
  - change (hoare env (r ← catch (execute o); after_execute o r) (mkFrame pc c2 m1 st e1) (c_Gas c)
      (turn (mkFrame pc c m st e))). apply Hrun; [done|].
    unfold mem_fits. destruct (memorySize o) as [g|]; [|done].
    destruct (Hfit g eq_refl) as (z&Hz&Hzs). exists z. split; [done|]. unfold mem_Len. lia.
Qed.

Lemma step_ok f : frame_ok f → 2 * c_Gas (f_contract f) + 1 <= n →
  hoare env (step env Keccak256Hash calls) f (c_Gas (f_contract f)) (turn f).
Proof.
  destruct f as [pc c m st e]. intros Hf Hn. unfold step. op_get. cbn [f_contract] in *.
  destruct (JumpTable env Keccak256Hash calls (GetOp c pc)) as [o|] eqn:Ho; [|by apply vm_error_ok].
  pose proof (JumpTable_ok _ _ Ho) as Hrow.
  destruct (makeStackFunc _ _ _ st) as [[]|er|p] eqn:Hst; [|by apply vm_error_ok|by destruct (stack_func_total _ _ _ _ Hst)].
  destruct (stack_func_ok _ _ _ Hst) as [Hp Hlim].
  eapply hoare_pure; [by eapply enforce_ok|done|done|]. intros allowed _.
  destruct allowed; cbn [negb]; [|by apply vm_error_ok].
  eapply hoare_pure; [apply memory_needed_ok; [|done]|done|done|].
  { destruct Hrow as (?&?&_&_&_&_&Hms). exact Hms. }
  intros [size|]; [|intros _; by apply vm_error_ok]. intros (Hs&Hs0&Hfit). by apply charge_and_run_ok.
Qed.

(** Errors of the machine are results of a turn, never errors of the code. *)
Lemma catch_errs {A} I (m : F A) : errs I (catch m).
Proof. intros f e f'. unfold catch. by destruct (m f) as [[]]. Qed.
Lemma after_execute_errs I (o : @operation St) r : errs I (after_execute o r).
Proof.
  unfold after_execute, vm_error, stop_with, set_pc. apply errs_bind.
  - destruct (returns o); [|apply errs_ret]. by intros f e f'.
  - intros _. destruct r; errs.
Qed.
Lemma enforce_keeps op o (f : Frame St) : (enforceRestrictions env op o f).2 = f.
Proof.
  unfold enforceRestrictions, fback. se_red. destruct (_ && _); [|done]. destruct (writes o); [done|].
  case_bool_decide; [|done]. by destruct (Back _ _).
Qed.
Lemma enforce_errs I op o : errs I (enforceRestrictions env op o : F bool).
Proof. unfold enforceRestrictions, fback, Back. errs. intros e. by case_match. Qed.
Lemma memory_needed_errs (I : Prop) (o : @operation St) f e f' :
  ms_ok (stack_pops o) (memorySize o) → frame_ok f → (stack_pops o ≤ length (f_stack f))%nat →
  memory_needed o f = (Err e, f') → I.
Proof.
  intros Hms Hf Hp. unfold memory_needed. destruct (memorySize o) as [g|]; [|done].
  destruct (Hms _ Hp (fo_stack _ Hf)) as (z&Hz&_). se_red. rewrite Hz. destruct (bigUint64 z) as [x []]; [done|].
  by destruct (SafeMul _ _) as [y []].
Qed.
Lemma step_never_errs f e f' : frame_ok f → step env Keccak256Hash calls f ≠ (Err e, f').
Proof.
  intros Hf. unfold step. se_red. unfold vm_error, stop_with. se_red.
  destruct (JumpTable env Keccak256Hash calls (GetOp (f_contract f) (f_pc f))) as [o|] eqn:Ho; [|done].
  destruct (JumpTable_ok _ _ Ho) as (?&?&_&_&_&_&Hms).
  destruct (makeStackFunc _ _ _ (f_stack f)) as [[]|er|p] eqn:Hst; [|done|done].
  destruct (stack_func_ok _ _ _ Hst) as [Hp _].
  pose proof (enforce_keeps (GetOp (f_contract f) (f_pc f)) o f) as Hk.
  pose proof (enforce_errs (fun _ => False) (GetOp (f_contract f) (f_pc f)) o f) as He.
  destruct (enforceRestrictions _ _ _ f) as [[[]|er|p] f1]; cbn in Hk; subst f1; [|done|by destruct (He _ _ eq_refl)|done].
  cbn [negb]. destruct (memory_needed o f) as [[size|er|p] f1] eqn:Hm; [|by eapply memory_needed_errs in Hm|done].
  destruct size as [size|]; [|done]. intros Herr. revert Herr. generalize f1 e f'. change (errs (fun _ => False)
    (cost ← catch (gasCost o size);
     match (cost : Z + string) with
     | inr _ => vm_error "out of gas"
     | inl cost =>
         ok ← fUseGas cost;
         if negb ok then vm_error "out of gas"
         else
           f ← se_get;
           _ ← (if bool_decide (0 < size) then set_mem (mem_Resize size (f_mem f)) else mret tt);
           r ← catch (execute o);
           after_execute o r
     end)).
  pose proof @catch_errs. pose proof after_execute_errs. unfold vm_error, stop_with, fUseGas, set_contract, set_mem. errs.
Qed.

(** ** The loop: it ends within more turns than there is gas *)
Lemma run_loop_ok fuel f : frame_ok f → 2 * c_Gas (f_contract f) + 1 <= n →
  c_Gas (f_contract f) < Z.of_nat fuel →
  hoare env (run_loop env Keccak256Hash calls fuel) f (c_Gas (f_contract f)) (fun out _ => nonneg out.1).
Proof.
  revert f. induction fuel as [|fuel IH]; intros f Hf Hn Hfuel.
  { pose proof (co_gas _ (fo_contract _ Hf)). lia. }
  cbn [run_loop]. eapply hoare_bind; [by apply step_ok|]. intros r f' Hf' _ HG Ht.
  destruct r as [[ret err]|]; [by apply hoare_ret|]. destruct Ht as [Hless _].
  eapply hoare_weaken; [apply IH; [done|lia|lia]|done|done].
Qed.
End calls.
End step.
