(* ===== verification/EvmCalls.v ===== *)
(** * core/vm: precompiled contracts, runs and calls

    What running a contract promises: the precompiled contracts, the
    interpreter, and the calls and creations built on them.  By induction on the
    fuel, a machine with enough of it keeps every promise. *)

From S2P Require Import Prelude Utils Codec Account Blocks XShardCursor Consensus Transition TransitionCorrect EvmBase EvmAnalysis EvmOps EvmRun EvmLaws EvmInstr EvmGas EvmStep.

Local Open Scope Z_scope.

Section calls.
Context `{EthMathLaws} {St : Type} `{VmLaws St} `{Crypto}.
Context (env : VmEnv) (Keccak256Hash : list Z → Z) (Henv : env_sensible env Keccak256Hash).
Context (Hcrypto : crypto_sensible).
Context (CreateAddress : Z → option Z → Z → Z) (CreateAddress2 : Z → Z → list Z → Z).
Context (HAddress : ∀ a k x, 0 <= CreateAddress a k x) (HAddress2 : ∀ a s h, 0 <= CreateAddress2 a s h).
Abbreviation M := (SE (Machine St)).
Abbreviation P := (vparams env).

(** ** Reasoning about the machine *)

(** From [e], [m] ends in a machine in order that agrees with [e0], or panics in
    a known way. *)
Definition mok {A} (e0 : Machine St) (m : M A) (e : Machine St) (Q : A → Machine St → Prop) : Prop :=
  match m e with
  | (Ok a, e') => machine_ok e' ∧ same_machine e0 e' ∧ Q a e'
  | (Err _, _) => False
  | (Panic p, _) => known_panic env p
  end.

Lemma mok_ret {A} e0 (a : A) e Q : machine_ok e → same_machine e0 e → Q a e → mok e0 (mret a) e Q.
Proof. intros He Hs HQ. unfold mok. se_red. by split_and!. Qed.
Lemma mok_get {A} e0 (k : Machine St → M A) e Q : mok e0 (k e) e Q → mok e0 (x ← se_get; k x) e Q.
Proof. done. Qed.
Lemma mok_lift {A B} e0 (r : result A) a (k : A → M B) e Q : r = Ok a → mok e0 (k a) e Q → mok e0 (x ← se_lift r; k x) e Q.
Proof. by intros ->. Qed.
Lemma mok_bind {A B} e0 (m : M A) (k : A → M B) e Q R :
  mok e0 m e Q → (∀ a e', machine_ok e' → same_machine e0 e' → Q a e' → mok e0 (k a) e' R) →
  mok e0 (x ← m; k x) e R.
Proof.
  unfold mok. intros Hm Hk. se_red. destruct (m e) as [[a|er|p] e']; [|done|done].
  destruct Hm as (?&?&?). by apply Hk.
Qed.
(** A part that is known to agree with another machine. *)
Lemma mok_call {A B} e0 e1 (m : M A) (k : A → M B) e Q R :
  mok e1 m e Q →
  (∀ a e', machine_ok e' → same_machine e1 e' → Q a e' → mok e0 (k a) e' R) →
  mok e0 (x ← m; k x) e R.
Proof.
  unfold mok. intros Hm Hk. se_red. destruct (m e) as [[a|er|p] e']; [|done|done].
  destruct Hm as (?&?&?). by apply Hk.
Qed.
Lemma mok_mod {A} e0 (g : Machine St → Machine St) (k : unit → M A) e Q :
  mok e0 (k tt) (g e) Q → mok e0 (u ← se_mod g; k u) e Q.
Proof. done. Qed.
Lemma mok_tt {A} e0 (k : unit → M A) e Q : mok e0 (k tt) e Q → mok e0 (u ← mret tt; k u) e Q.
Proof. done. Qed.
Lemma mok_weaken {A} e0 (m : M A) e (Q R : A → Machine St → Prop) :
  mok e0 m e Q → (∀ a e', machine_ok e' → Q a e' → R a e') → mok e0 m e R.
Proof.
  unfold mok. intros Hm HR. destruct (m e) as [[a|er|p] e']; [|done|done].
  destruct Hm as (?&?&?). split_and!; [done|done|by apply HR].
Qed.

(** An operation of the state. *)
Lemma mok_op {A B} e0 (op : SE St A) (k : A → M B) e a s' v Q :
  machine_ok e → same_machine e0 e →
  op (m_state e) = (Ok a, s') → reads s' v → ext (m_state e) s' →
  (∀ e', machine_ok e' → same_machine e e' → same_machine e0 e' → m_state e' = s' →
     m_depth e' = m_depth e → m_readOnly e' = m_readOnly e → mok e0 (k a) e' Q) →
  mok e0 (x ← machine_state op; k x) e Q.
Proof.
  intros He Hs Hop Hr Hx Hk. unfold mok. se_red. rewrite (machine_state_run _ _ _ _ Hop).
  apply Hk; [by eapply with_state_ok|by apply with_state_same|etrans; [done|by apply with_state_same]|done..].
Qed.

(** ** Pieces of inputs *)
Lemma getData_data data start size :
  data_ok data → 0 <= start → 0 <= size → start + size < 2 ^ 64 →
  ∃ d, getData data start size = Ok d ∧ nonneg d.
Proof. intros [Hd _]. by apply getData_ok. Qed.

Lemma mok_word {A} e0 input start (k : Z → M A) e Q :
  data_ok input → 0 <= start < 2 ^ 32 → (∀ w, 0 <= w → mok e0 (k w) e Q) →
  mok e0 (w ← word_at input start; k w) e Q.
Proof.
  intros Hi Hs Hk. destruct (getData_data input start 32) as (d&Heq&Hd); [done|lia..|].
  unfold word_at. unfold mok. se_red. rewrite Heq. by apply Hk, be_value_nonneg.
Qed.

(** What running a contract with [g] gas gives. *)
Definition run_post (g : Z) (r : run_result) (e : Machine St) : Prop :=
  nonneg r.1.1 ∧ 0 <= c_Gas r.2 <= g.

Lemma ok_run_ok e0 ret c g e : machine_ok e → same_machine e0 e → nonneg ret → 0 <= c_Gas c <= g →
  mok e0 (ok_run ret c) e (run_post g).
Proof. intros. by apply mok_ret. Qed.
Lemma fail_run_ok e0 er c g e : machine_ok e → same_machine e0 e → 0 <= c_Gas c <= g →
  mok e0 (fail_run er c) e (run_post g).
Proof. intros. apply mok_ret; [done|done|]. split; [constructor|done]. Qed.
Lemma burn_ok e0 msg c g e : machine_ok e → same_machine e0 e → 0 <= c_Gas c <= g →
  mok e0 (burn msg c) e (run_post g).
Proof. intros. unfold burn. apply fail_run_ok; [done|done|cbn; lia]. Qed.

(** ** Precompiled contracts *)
Lemma ecrecover_ok e0 input c e :
  machine_ok e → same_machine e0 e → 0 <= c_Gas c → mok e0 (ecrecover_Run Keccak256Hash input c) e (run_post (c_Gas c)).
Proof.
  intros He Hs Hc. unfold ecrecover_Run. cbv zeta.
  match goal with |- context [if ?b then _ else _] => destruct b end; [apply ok_run_ok; [done|done|constructor|lia]|].
  case_match; [|apply ok_run_ok; [done|done|constructor|lia]].
  apply ok_run_ok; [done|done| |lia]. apply nonneg_LeftPad, Forall_drop, nonneg_be_bytes.
Qed.

Lemma bn256Add_ok e0 input c e :
  machine_ok e → same_machine e0 e → data_ok input → 0 <= c_Gas c → mok e0 (bn256Add_Run input c) e (run_post (c_Gas c)).
Proof.
  intros He Hs Hi Hc. unfold bn256Add_Run.
  destruct (getData_data input 0 64) as (x&Hx&_); [done|lia..|]. destruct (getData_data input 64 64) as (y&Hy&_); [done|lia..|].
  eapply mok_lift; [done|]. case_match; [|apply fail_run_ok; [done|done|lia]].
  eapply mok_lift; [done|]. case_match; [|apply fail_run_ok; [done|done|lia]].
  apply ok_run_ok; [done|done|apply Hcrypto|lia].
Qed.
Lemma bn256ScalarMul_ok e0 input c e :
  machine_ok e → same_machine e0 e → data_ok input → 0 <= c_Gas c → mok e0 (bn256ScalarMul_Run input c) e (run_post (c_Gas c)).
Proof.
  intros He Hs Hi Hc. unfold bn256ScalarMul_Run. destruct (getData_data input 0 64) as (x&Hx&_); [done|lia..|].
  eapply mok_lift; [done|]. case_match; [|apply fail_run_ok; [done|done|lia]].
  apply mok_word; [done|lia|]. intros w Hw. apply ok_run_ok; [done|done|apply Hcrypto|lia].
Qed.
Lemma bn256Pairing_ok e0 input c e :
  machine_ok e → same_machine e0 e → 0 <= c_Gas c → mok e0 (bn256Pairing_Run input c) e (run_post (c_Gas c)).
Proof.
  intros He Hs Hc. unfold bn256Pairing_Run. case_match; [apply fail_run_ok; [done|done|lia]|].
  case_match; [|apply fail_run_ok; [done|done|lia]]. case_match.
  apply ok_run_ok; [done|done|apply nonneg_be_bytes|lia].
Qed.
Lemma currentMntID_ok e0 c e :
  machine_ok e → same_machine e0 e → 0 <= c_Gas c → mok e0 (currentMntID_Run c) e (run_post (c_Gas c)).
Proof.
  intros He Hs Hc. unfold currentMntID_Run. apply mok_get. apply ok_run_ok; [done|done| |cbn; lia].
  apply Forall_app. split; [apply nonneg_repeat|apply nonneg_be_bytes].
Qed.

(** *** The modular exponentiation pays for the slices it takes *)
Definition modexp_f (y : Z) : Z :=
  if bool_decide (y <= 64) then y * y
  else if bool_decide (y <= 1024) then y * y / 4 + (96 * y - 3072)
  else y * y / 16 + (480 * y - 199680).

Lemma modexp_f_bound y : 1 <= y → 1 <= modexp_f y ∧ (2 ^ 36 <= y → 2 ^ 68 <= modexp_f y).
Proof.
  intros Hy. unfold modexp_f. repeat case_bool_decide.
  - split; [nia|lia].
  - pose proof (Z.div_pos (y * y) 4 ltac:(nia) ltac:(lia)). split; lia.
  - pose proof (Z.div_pos (y * y) 16 ltac:(nia) ltac:(lia)). split; [lia|]. intros Hbig.
    assert (2 ^ 68 <= y * y / 16); [|lia]. apply Z.div_le_lower_bound; [lia|].
    replace (16 * 2 ^ 68) with (2 ^ 36 * 2 ^ 36) by reflexivity. nia.
Qed.

Lemma modexp_paid y x msb d :
  1 <= y → 0 <= x → 0 <= msb → 0 < d <= 20 →
  modexp_f y * Z.max ((if bool_decide (32 < x) then 8 * (x - 32) else 0) + msb) 1 / d < max_gas →
  y < 2 ^ 36 ∧ x < 3 * 2 ^ 62.
Proof.
  unfold max_gas. intros Hy Hx Hm Hd Hg. destruct (modexp_f_bound y Hy) as [Hf Hbig].
  set (A := Z.max _ 1) in Hg. assert (1 <= A) as HA by lia.
  assert (modexp_f y * A < 20 * 2 ^ 62 + 20) as Hlt.
  { pose proof (Z.div_mod (modexp_f y * A) d ltac:(lia)). pose proof (Z.mod_pos_bound (modexp_f y * A) d ltac:(lia)). nia. }
  assert (modexp_f y <= modexp_f y * A ∧ A <= modexp_f y * A) as [H1a H1b] by nia.
  split; [destruct (decide (2 ^ 36 <= y)) as [Hl|]; [specialize (Hbig Hl)|]; lia|].
  destruct (decide (32 < x)); [|lia]. unfold A in *. rewrite bool_decide_true in H1b, Hlt by done. lia.
Qed.

Lemma modexp_lens_ok input : data_ok input →
  ∃ b x m, 0 <= b ∧ 0 <= x ∧ 0 <= m ∧ ∀ e : Machine St, modexp_lens input e = (Ok (b, x, m), e).
Proof.
  intros Hi. destruct (getData_data input 0 32) as (d1&H1'&Hd1); [done|lia..|].
  destruct (getData_data input 32 32) as (d2&H2'&Hd2); [done|lia..|].
  destruct (getData_data input 64 32) as (d3&H3'&Hd3); [done|lia..|].
  exists (be_value d1), (be_value d2), (be_value d3). split_and!; [by apply be_value_nonneg..|].
  intros e. unfold modexp_lens, word_at. se_red. by rewrite H1', H2', H3'.
Qed.

Lemma data_drop n0 d : data_ok d → data_ok (drop n0 d).
Proof. intros [Hd Hl]. split; [by apply Forall_drop|]. rewrite length_drop. lia. Qed.

Lemma modexp_gas_ok input b x m : data_ok input → 0 <= b → 0 <= x → 0 <= m →
  (∀ e : Machine St, modexp_lens input e = (Ok (b, x, m), e)) →
  ∃ g, 0 <= g ∧ (∀ e : Machine St, modexp_gas env input e = (Ok g, e))
    ∧ (g < max_gas → 1 <= Z.max m b → Z.max m b < 2 ^ 36 ∧ x < 3 * 2 ^ 62).
Proof.
  intros Hi Hb Hx Hm Hl. pose proof (modexp_div _ (env_params _ _ Henv)) as Hdiv.
  assert (∃ h, 0 <= h ∧ ∀ e : Machine St,
    (if bool_decide (Z.of_nat (length (drop 96 input)) <= b) then mret 0
     else d ← se_lift (getData (drop 96 input) (u64 b) (if bool_decide (32 < x) then 32 else u64 x));
          mret (be_value d)) e = (Ok h, e)) as (h&Hh&Hhead).
  { destruct (data_drop 96 _ Hi) as [Hd' Hlen]. case_bool_decide as Hc; [by exists 0|].
    destruct (getData_ok (drop 96 input) (u64 b) (if bool_decide (32 < x) then 32 else u64 x)) as (d&Heq&Hd).
    - done.
    - apply u64_in.
    - case_bool_decide; [lia|apply u64_in].
    - rewrite u64_id by (unfold in_u64; lia). case_bool_decide; [lia|]. rewrite u64_id by (unfold in_u64; lia). lia.
    - exists (be_value d). split; [by apply be_value_nonneg|]. intros e. se_red. by rewrite Heq. }
  set (msb := if bool_decide (0 < BitLen h) then BitLen h - 1 else 0).
  assert (0 <= msb) as Hmsb by (unfold msb; clear Hhead; case_bool_decide; lia).
  set (g0 := modexp_f (Z.max m b) * Z.max ((if bool_decide (32 < x) then 8 * (x - 32) else 0) + msb) 1 / ModExpQuadCoeffDiv P).
  exists (if bool_decide (64 < BitLen g0) then max_u64 else u64 g0). split_and!.
  - clear Hhead. case_bool_decide; [unfold max_u64; lia|apply u64_in].
  - intros e. unfold modexp_gas. se_red. rewrite Hl. se_red_in Hhead. rewrite Hhead. done.
  - clear Hhead. intros Hlt H1'. apply (modexp_paid _ x msb (ModExpQuadCoeffDiv P)); [done|done|done|done|].
    assert (0 <= g0).
    { unfold g0. apply Z.div_pos; [|lia]. destruct (modexp_f_bound _ H1') as [? _]. nia. }
    fold g0. revert Hlt. case_bool_decide as Hbl; [unfold max_u64, max_gas; lia|].
    rewrite BitLen_over in Hbl by lia. rewrite u64_id by (unfold in_u64; lia). done.
Qed.

Lemma bigModExp_ok e0 input c b x m e :
  machine_ok e → same_machine e0 e → data_ok input → 0 <= c_Gas c → 0 <= b → 0 <= x → 0 <= m →
  (∀ e : Machine St, modexp_lens input e = (Ok (b, x, m), e)) →
  (1 <= Z.max m b → Z.max m b < 2 ^ 36 ∧ x < 3 * 2 ^ 62) →
  mok e0 (bigModExp_Run input c) e (run_post (c_Gas c)).
Proof.
  intros He Hs Hi Hc Hb Hx Hm Hl Hpaid. unfold bigModExp_Run.
  match goal with |- mok _ (mbind ?k _) _ _ => assert (mok e0 (k (b, x, m)) e (run_post (c_Gas c))) as Hk;
    [|revert Hk; unfold mok; se_red; by rewrite Hl] end.
  cbv beta iota zeta.
  destruct (decide (u64 b = 0 ∧ u64 m = 0)) as [[-> ->]|Hne].
  { apply ok_run_ok; [done|done|constructor|lia]. }
  assert (∀ A (p q : A), (if bool_decide (u64 b = 0) && bool_decide (u64 m = 0) then p else q) = q) as Hif.
  { intros A p q. by repeat case_bool_decide; try (exfalso; apply Hne; done). }
  rewrite Hif. clear Hif.
  destruct Hpaid as [Hy Hx'].
  { destruct (decide (b = 0)) as [->|]; [|lia]. destruct (decide (m = 0)) as [->|]; [|lia]. by destruct Hne. }
  rewrite !(u64_id b), !(u64_id x), !(u64_id m) by (unfold in_u64; lia). rewrite (u64_id (b + x)) by (unfold in_u64; lia).
  pose proof (data_drop 96 _ Hi) as Hi'.
  destruct (getData_data (drop 96 input) 0 b) as (d1&H1'&Hd1); [done|lia..|].
  destruct (getData_data (drop 96 input) b x) as (d2&H2'&Hd2); [done|lia..|].
  destruct (getData_data (drop 96 input) (b + x) m) as (d3&H3'&Hd3); [done|lia..|].
  eapply mok_lift; [done|]. eapply mok_lift; [done|]. eapply mok_lift; [done|].
  case_bool_decide; apply ok_run_ok; try done; try lia; apply nonneg_LeftPad; [constructor|apply nonneg_be_bytes].
Qed.

Section with_calls.
Context (calls : Calls St) (n : Z) (Hcalls : calls_ok env n calls).

(** *** The contracts of QuarkChain *)
Lemma UseGas_ok g c : 0 <= g <= c_Gas c → UseGas g c = (true, with_gas (c_Gas c - g) c).
Proof. intros Hg. unfold UseGas. by rewrite bool_decide_false by lia. Qed.
Lemma UseGas_bound g c : 0 <= g → 0 <= c_Gas c → 0 <= c_Gas (UseGas g c).2 <= c_Gas c.
Proof. intros Hg Hc. unfold UseGas. case_bool_decide; cbn; lia. Qed.

Lemma data_getData d start : data_ok d → (start ≤ length d)%nat →
  ∃ r, getData d (Z.of_nat start) (Z.of_nat (length d) - Z.of_nat start) = Ok r ∧ data_ok r.
Proof.
  intros [Hd Hl] Hs. unfold getData. rewrite bool_decide_false by lia.
  rewrite u64_id by (unfold in_u64; lia). rewrite bool_decide_false by lia.
  replace (Z.of_nat start + (Z.of_nat (length d) - Z.of_nat start)) with (Z.of_nat (length d)) by lia.
  destruct (data_slice_ok d (Z.of_nat start) (Z.of_nat (length d)) Hd) as (r&->&Hr&Hlen); [lia|lia|].
  eexists. split; [reflexivity|]. rewrite RightPadBytes_spec. split.
  - apply Forall_app. split; [done|apply nonneg_repeat].
  - rewrite length_app, repeat_length, i64_small by lia. lia.
Qed.

(** The machine with another token. *)
Lemma mok_token {A} e0 t (k : unit → M A) e Q :
  mok e0 (k tt) (mkMachine (m_state e) (m_depth e) (m_readOnly e) (m_returnData e) (m_callGasTemp e) t) Q →
  mok e0 (u ← set_token t; k u) e Q.
Proof. done. Qed.

Lemma transferMnt_ok e0 input c e :
  machine_ok e → same_machine e0 e → data_ok input → contract_ok c → 2 * c_Gas c + 2 <= n →
  mok e0 (transferMnt_Run env calls input c) e (run_post (c_Gas c)).
Proof.
  intros He Hs Hi Hc Hn. pose proof (co_gas _ Hc) as Hg.
  pose proof (pay_stipend _ (env_params _ _ Henv)) as Hst. pose proof (small_call_gas _ (env_params _ _ Henv)) as [Hs1 Hs2].
  unfold transferMnt_Run. case_bool_decide; [apply burn_ok; [done|done|lia]|].
  destruct (IsStaticCall c); [apply burn_ok; [done|done|lia]|].
  apply mok_word; [done|lia|intros to Hto]. apply mok_word; [done|lia|intros tok Htok]. apply mok_word; [done|lia|intros v Hv].
  destruct (data_getData input 96 Hi ltac:(lia)) as (d&Hd&Hdok). change (Z.of_nat 96) with 96 in Hd.
  eapply mok_lift; [done|]. case_bool_decide; [apply burn_ok; [done|done|lia]|].
  case_bool_decide as Hself; [apply burn_ok; [done|done|lia]|].
  eapply (mok_bind _ _ _ _ (fun cost _ => 0 <= cost ∧ (0 < v → CallStipend P <= cost))).
  { case_bool_decide; [|apply mok_ret; [done|done|lia]]. destruct (ma_reads _ He) as [w Hw].
    destruct (vm_Exist _ _ (BigToAddress to) Hw) as (b&s'&Heq&Hs'&Hx).
    eapply mok_op; [done..|]. intros e' He' _ Hs0 _ _ _. apply mok_ret; [done|done|].
    destruct b; [lia|]. rewrite u64_id by (unfold in_u64; lia). lia. }
  intros cost e1 He1 Hs1' [Hcost Hstip]. case_bool_decide; [apply burn_ok; [done|done|lia]|].
  destruct (ma_reads _ He1) as [w Hw].
  destruct (vm_GetBalance _ _ (CallerAddress c) (u64 tok) Hw) as (s'&Heq&Hs'&Hx).
  eapply mok_op; [done..|]. intros e2 He2 Hs12 Hs2' _ _ _. apply mok_get. rewrite (UseGas_ok cost c) by lia.
  match goal with |- mok _ (if ?b then _ else _) _ _ => destruct b end; [apply fail_run_ok; [done|done|cbn; lia]|].
  apply mok_token. cbn [snd]. change (caller (with_gas (c_Gas c - cost) c)) with (caller c).
  set (g := if bool_decide (0 < v) then u64 (u64 (c_Gas c - cost) + CallStipend P) else u64 (c_Gas c - cost)).
  assert (0 <= g <= c_Gas c) as Hgb.
  { unfold max_gas, g in *. rewrite (u64_id (c_Gas c - cost)) by (unfold in_u64; lia).
    destruct (decide (0 < v)) as [Hv0|Hv0]; [rewrite bool_decide_true by done|rewrite bool_decide_false by done; lia].
    specialize (Hstip Hv0). rewrite u64_id by (unfold in_u64; lia). lia. }
  set (et := mkMachine _ _ _ _ _ _).
  assert (machine_ok et) as Het by (destruct He2; by split).
  assert (call_ok env (c_Call calls (caller c) (BigToAddress to) d g v) et g) as Hcall.
  { apply (ok_Call _ _ _ Hcalls); [apply Hc|apply BigToAddress_nonneg|done|lia|done|done|].
    unfold enough. rewrite bool_decide_false by done. lia. }
  unfold call_ok in Hcall. unfold mok. se_red.
  destruct (c_Call calls (caller c) (BigToAddress to) d g v et) as [[[[ret left_] err]|er|p] e3] eqn:Er; [|done|done].
  destruct Hcall as (Hret&Hleft&He3&Hs3&_). cbn.
  split_and!; [destruct He3; by split| |split; [done|cbn; lia]].
  etrans; [exact Hs2'|]. destruct Hs3. by split.
Qed.

(** An index with a scope is one of the three contracts. *)
Lemma scoped_index i :
  SystemContractScopeMap i = ContractScopeGlobal ∨ SystemContractScopeMap i = ContractScopeLocalChain0 →
  ∃ addr code ts, SystemContracts env !! Z.to_nat i = Some (addr, code, ts) ∧ 0 <= addr ∧ nonneg code.
Proof.
  intros Hscope. assert (i = 1 ∨ i = 2 ∨ i = 3) as [->|[->| ->]].
  { destruct (decide (i = 1)); [by left|]. destruct (decide (i = 2)); [by right; left|].
    destruct (decide (i = 3)); [by right; right|]. exfalso. unfold SystemContractScopeMap in Hscope.
    repeat case_match; destruct Hscope; done. }
  - eexists _, _, _. split; [reflexivity|]. split; [done|apply (env_bytecode _ _ Henv)].
  - eexists _, _, _. split; [reflexivity|]. split; [done|apply (env_bytecode _ _ Henv)].
  - eexists _, _, _. split; [reflexivity|]. split; [done|apply (env_bytecode _ _ Henv)].
Qed.

Lemma deploySystemContract_ok e0 input c e :
  machine_ok e → same_machine e0 e → data_ok input → contract_ok c → 2 * c_Gas c + 3 <= n →
  EnableTime env deploySystemContractAddr < env_TimeStamp env →
  mok e0 (deploySystemContract_Run env calls input c) e (run_post (c_Gas c)).
Proof.
  intros He Hs Hi Hc Hn Htime. pose proof (co_gas _ Hc) as Hg. unfold deploySystemContract_Run.
  apply mok_word; [done|lia|intros w Hw]. cbv zeta.
  set (i := if bool_decide (0 < u64 w) then i64 (u64 w) else 1).
  case_bool_decide; [apply burn_ok; [done|done|lia]|].
  destruct (decide (SystemContractScopeMap i = ContractScopeGlobal ∨ SystemContractScopeMap i = ContractScopeLocalChain0)) as [Hsc|Hsc].
  2:{ rewrite !bool_decide_false by tauto. cbn [negb andb]. unfold mok. se_red. left. by split. }
  destruct (scoped_index _ Hsc) as (addr&code&ts&Hlook&Haddr&Hcode).
  match goal with |- mok _ (if ?b then _ else _) _ _ => assert (b = false) as -> end.
  { destruct Hsc as [-> | ->]; done. }
  match goal with |- mok _ (if ?b then _ else _) _ _ => destruct b end; [apply burn_ok; [done|done|lia]|].
  rewrite Hlook. case_bool_decide; [apply burn_ok; [done|done|lia]|].
  assert (create_ok env (c_Create calls (AccountRef (self c)) code (c_Gas c) 0 (Some addr)) e (c_Gas c)) as Hcr.
  { apply (ok_Create _ _ _ Hcalls); [apply Hc|done|done|lia|by intros ? [= <-]|done|done]. }
  unfold create_ok in Hcr. unfold mok. se_red.
  destruct (c_Create calls _ code _ 0 _ e) as [[[[[ret a] left_] err]|er|p] e1]; [|done|done].
  destruct Hcr as (_&Ha&Hl&He1&Hs1). assert (same_machine e0 e1) as Hs01 by (by etrans).
  destruct err as [er|].
  - apply (fail_run_ok e0 er (with_gas 0 c) (c_Gas c) e1); [done|done|cbn; lia].
  - apply (ok_run_ok e0 _ (with_gas left_ c) (c_Gas c) e1); [done|done|apply nonneg_be_bytes|cbn; lia].
Qed.

Lemma mintMNT_ok e0 input c e :
  machine_ok e → same_machine e0 e → data_ok input → 0 <= c_Gas c →
  mok e0 (mintMNT_Run env input c) e (run_post (c_Gas c)).
Proof.
  intros He Hs Hi Hg. pose proof (small_call_gas _ (env_params _ _ Henv)) as [_ Hnew]. unfold mintMNT_Run.
  apply mok_word; [done|lia|intros m Hm]. apply mok_word; [done|lia|intros mnt Hmnt]. apply mok_word; [done|lia|intros v Hv].
  case_bool_decide; [apply burn_ok; [done|done|lia]|]. case_bool_decide; [apply fail_run_ok; [done|done|lia]|].
  match goal with |- mok _ (if ?b then _ else _) _ _ => destruct b end; [apply burn_ok; [done|done|lia]|].
  case_bool_decide; [apply burn_ok; [done|done|lia]|].
  destruct (ma_reads _ He) as [w Hw]. destruct (vm_Exist _ _ (BigToAddress m) Hw) as (b&s'&Heq&Hs'&Hx).
  eapply mok_op; [done..|]. intros e1 He1 _ Hs1 Est _ _.
  assert (∃ ok c', (if b then (true, c) else UseGas (CallNewAccountGas P) c) = (ok, c') ∧ 0 <= c_Gas c' <= c_Gas c)
    as (ok&c'&Hok&Hc').
  { destruct b; [by exists true, c|]. destruct (UseGas _ c) as [ok c'] eqn:Hu. exists ok, c'. split; [done|].
    pose proof (UseGas_bound (CallNewAccountGas P) c ltac:(lia) Hg) as Hb. by rewrite Hu in Hb. }
  rewrite Hok. destruct ok; cbn [negb]; [|apply burn_ok; [done|done|lia]].
  match goal with |- mok _ (if ?b then _ else _) _ _ => destruct b end; [apply burn_ok; [done|done|lia]|].
  subst s'. destruct (vm_AddBalance _ _ (BigToAddress m) v (u64 mnt) Hs') as (s2&Heq2&Hs2&Hx2); [lia|].
  eapply mok_op; [done..|]. intros e2 He2 _ Hs2' _ _ _. apply ok_run_ok; [done|done|apply nonneg_be_bytes|done].
Qed.

Lemma balanceMNT_ok e0 input c e :
  machine_ok e → same_machine e0 e → data_ok input → 0 <= c_Gas c →
  EnableTime env BalanceMNTAddr < env_TimeStamp env →
  mok e0 (balanceMNT_Run input c) e (run_post (c_Gas c)).
Proof.
  intros He Hs Hi Hg Htime. unfold balanceMNT_Run.
  apply mok_word; [done|lia|intros a Ha]. apply mok_word; [done|lia|intros mnt Hmnt].
  case_bool_decide; [apply fail_run_ok; [done|done|lia]|].
  destruct (ma_reads _ He) as [w Hw]. destruct (vm_GetBalance _ _ (BigToAddress a) (u64 mnt) Hw) as (s'&Heq&Hs'&Hx).
  eapply mok_op; [done..|]. intros e1 He1 _ Hs1 _ _ _.
  unfold BigToByte32. destruct (decide (32 < length (big_Bytes (v_bal w (BigToAddress a) (u64 mnt))))%nat).
  - rewrite bool_decide_true by done. unfold mok. se_red. right. by split.
  - rewrite bool_decide_false by done. eapply mok_lift; [done|]. apply ok_run_ok; [done|done| |lia].
    apply Forall_app. split.
    + apply Forall_replicate. lia.
    + eapply Forall_impl; [apply big_Bytes_ok|]. intros z [Hz _]. done.
Qed.

(** *** Any of them *)
Lemma precompile_at a p : PrecompiledContractsByzantium a = Some p →
  (p = transferMnt → a = transferMntAddr) ∧ (p = deploySystemContract → a = deploySystemContractAddr)
  ∧ (p = balanceMNT → a = BalanceMNTAddr).
Proof.
  unfold PrecompiledContractsByzantium.
  assert (∀ q : option Precompile, q = Some p →
    (∀ r, q = Some r → r ≠ transferMnt ∧ r ≠ deploySystemContract ∧ r ≠ balanceMNT) →
    (p = transferMnt → a = transferMntAddr) ∧ (p = deploySystemContract → a = deploySystemContractAddr)
    ∧ (p = balanceMNT → a = BalanceMNTAddr)) as Hsimple.
  { intros q Hq Hr. destruct (Hr p Hq) as (?&?&?). by split_and!. }
  set (rest := if a =? currentMntIDAddr then _ else _).
  assert (rest = Some p → (p = transferMnt → a = transferMntAddr) ∧ (p = deploySystemContract → a = deploySystemContractAddr)
    ∧ (p = balanceMNT → a = BalanceMNTAddr)) as Hrest.
  { unfold rest. repeat case_match; intros [= <-]; split_and!; intros ?; try discriminate;
      by apply Z.eqb_eq. }
  intros Ha. repeat case_match; try (by apply Hrest); by eapply Hsimple; [exact Ha|intros r [= <-]; done].
Qed.

Lemma words_gas_nonneg a b l : 0 <= words_gas a b l.
Proof. apply u64_in. Qed.

Lemma RunPrecompiledContract_ok e0 a p input c e :
  machine_ok e → same_machine e0 e → data_ok input → contract_ok c →
  PrecompiledContractsByzantium a = Some p → enough (n + 1) (c_Gas c) a → EnableTime env a < env_TimeStamp env →
  mok e0 (RunPrecompiledContract env Keccak256Hash calls p input c) e (run_post (c_Gas c)).
Proof.
  intros He Hs Hi Hc Hp Hn Htime. pose proof (co_gas _ Hc) as Hg. destruct (precompile_at _ _ Hp) as (Ht&Hd&Hb).
  assert (∀ g, 0 <= g →
    (g <= c_Gas c → mok e0 (precompile_Run env Keccak256Hash calls p input (with_gas (c_Gas c - g) c)) e (run_post (c_Gas c))) →
    mok e0 (let '(ok, c) := UseGas g c in
      if (ok : bool) then precompile_Run env Keccak256Hash calls p input c
      else fail_run (OtherVMError "out of gas") c) e (run_post (c_Gas c))) as Hgas.
  { intros g Hg0 Hk. destruct (decide (g <= c_Gas c)) as [Hle|Hgt].
    - rewrite UseGas_ok by lia. by apply Hk.
    - unfold UseGas. rewrite bool_decide_true by lia. apply fail_run_ok; [done|done|lia]. }
  assert (∀ g : Z, 0 <= g → (∀ e : Machine St, RequiredGas env p input e = (Ok g, e)) →
    (g <= c_Gas c → mok e0 (precompile_Run env Keccak256Hash calls p input (with_gas (c_Gas c - g) c)) e
       (run_post (c_Gas (with_gas (c_Gas c - g) c)))) →
    mok e0 (RunPrecompiledContract env Keccak256Hash calls p input c) e (run_post (c_Gas c))) as Hrun.
  { intros g Hg0 Hreq Hk. unfold RunPrecompiledContract.
    match goal with |- mok _ (mbind ?k _) _ _ => cut (mok e0 (k g) e (run_post (c_Gas c))) end.
    { unfold mok. se_red. by rewrite Hreq. }
    apply Hgas; [done|]. intros Hle. eapply mok_weaken; [by apply Hk|]. intros r e' _ [Hr1 Hr2].
    split; [done|]. cbn in Hr2. lia. }
  pose proof (nonneg_gas _ (env_params _ _ Henv)) as (Hn1&Hn2&Hn3). destruct Hi as [Hi Hlen].
  assert (data_ok input) as Hdata by done.
  destruct p; try specialize (Ht eq_refl); try specialize (Hd eq_refl); try specialize (Hb eq_refl).
  - eapply Hrun; [exact Hn1|done|]. intros Hle. apply ecrecover_ok; [done|done|cbn; lia].
  - eapply Hrun; [apply words_gas_nonneg|done|]. intros Hle. apply ok_run_ok; [done|done|apply Hcrypto|cbn; lia].
  - eapply Hrun; [apply words_gas_nonneg|done|]. intros Hle.
    apply ok_run_ok; [done|done|apply nonneg_LeftPad, Hcrypto|cbn; lia].
  - eapply Hrun; [apply words_gas_nonneg|done|]. intros Hle. apply ok_run_ok; [done|done|done|cbn; lia].
  - destruct (modexp_lens_ok input Hdata) as (b&x&m&Hb0&Hx0&Hm0&Hl).
    destruct (modexp_gas_ok input b x m Hdata Hb0 Hx0 Hm0 Hl) as (g&Hg0&Hgas'&Hpaid).
    eapply (Hrun g); [done|done|]. intros Hle. apply (bigModExp_ok e0 input _ b x m); [done|done|done|cbn; lia|done..|]. apply Hpaid. lia.
  - eapply Hrun; [exact Hn2|done|]. intros Hle. apply bn256Add_ok; [done|done|done|cbn; lia].
  - eapply Hrun; [exact Hn3|done|]. intros Hle. apply bn256ScalarMul_ok; [done|done|done|cbn; lia].
  - eapply Hrun; [|done|]; [apply u64_in|]. intros Hle. apply bn256Pairing_ok; [done|done|cbn; lia].
  - eapply (Hrun 3); [done|done|]. intros Hle. apply currentMntID_ok; [done|done|cbn; lia].
  - eapply (Hrun 0); [done|done|]. intros Hle. subst a. unfold enough in Hn. rewrite bool_decide_true in Hn by done.
    apply transferMnt_ok; [done|done|done|apply with_gas_ok; [done|lia]|cbn; lia].
  - eapply (Hrun 3); [done|done|]. intros Hle. subst a. unfold enough in Hn. rewrite bool_decide_false in Hn by done.
    apply deploySystemContract_ok; [done|done|done|apply with_gas_ok; [done|lia]|cbn; lia|done].
  - eapply (Hrun 9000); [done|done|]. intros Hle. apply mintMNT_ok; [done|done|done|cbn; lia].
  - eapply (Hrun 400); [done|done|]. intros Hle. subst a. apply balanceMNT_ok; [done|done|done|cbn; lia|done].
Qed.

(** ** The interpreter *)
Lemma machine_adjust e (g : Machine St → Machine St) :
  m_state (g e) = m_state e → m_callGasTemp (g e) = m_callGasTemp e → nonneg (m_returnData (g e)) →
  machine_ok e → machine_ok (g e).
Proof. intros Es Et Hd [Hr _ Ht]. split; [by rewrite Es|done|by rewrite Et]. Qed.

(** The run of a contract's code in a machine that entered it. *)
Lemma run_code_ok fuel c input e1 :
  machine_ok e1 → contract_ok c → nonneg input → 2 * c_Gas c + 1 <= n → c_Gas c < Z.of_nat fuel →
  mok e1 (if bool_decide (Code c = []) then mret ([], None, c)
       else
         e ← se_get;
         let '(r, f) := catch (run_loop env Keccak256Hash calls fuel) (mkFrame 0 (with_input input c) NewMemory [] e) in
         _ ← se_put (f_machine f);
         out ← se_lift r;
         mret (match out with inl out => out | inr msg => ([], Some (OtherVMError msg)) end, f_contract f))
    e1 (run_post (c_Gas c)).
Proof.
  intros He1 Hc Hi Hn Hfuel. case_bool_decide.
  { apply mok_ret; [done|done|]. split; [constructor|]. pose proof (co_gas _ Hc). cbn. lia. }
  assert (frame_ok (mkFrame 0 (with_input input c) NewMemory [] e1)) as Hf.
  { split; [unfold in_u64; cbn; lia| | |constructor|done].
    - destruct Hc. by split.
    - split; [constructor|by vm_compute]. }
  pose proof (hoare_catch env _ _ _ _ (run_loop_ok env Keccak256Hash Henv calls n Hcalls fuel _ Hf Hn Hfuel)) as Hr.
  unfold hoare in Hr. unfold mok. se_red.
  destruct (catch _ _) as [[out|er|p] f'] eqn:Ec; [| |done].
  - destruct Hr as (Hf'&[_ Hs']&Hg'&HQ). cbn in Hs', Hg'. cbn. split_and!; [apply Hf'|done|].
    split; [destruct out as [[o er]|]; [exact HQ|constructor]|]. pose proof (co_gas _ (fo_contract _ Hf')). cbn. lia.
  - exfalso. revert Ec. unfold catch. by destruct (run_loop _ _ _ _ _) as [[] ?].
Qed.

Lemma interpreter_Run_ok e0 fuel c input ro e :
  machine_ok e → same_machine e0 e → contract_ok c → nonneg input →
  2 * c_Gas c + 1 <= n → c_Gas c < Z.of_nat fuel →
  mok e0 (interpreter_Run env Keccak256Hash calls fuel c input ro) e (run_post (c_Gas c)).
Proof.
  intros He Hs Hc Hi Hn Hfuel. unfold interpreter_Run. apply mok_get.
  destruct (ro && negb (m_readOnly e)) eqn:Een; apply mok_mod; [apply mok_mod|apply mok_tt]; apply mok_mod.
  - set (e1 := clear_returnData _). assert (machine_ok e1) as He1 by (destruct He; split; [done|constructor|done]).
    eapply mok_call; [by apply run_code_ok|]. intros r e2 He2 Hs12 HQ. apply mok_mod, mok_mod.
    apply andb_true_iff in Een as [_ Hro]. apply mok_ret; [destruct He2; by split| |done].
    etrans; [done|]. destruct Hs12 as [Hx Hd _ Ht]. cbn in *. split; cbn; [done|lia|by destruct (m_readOnly e)|done].
  - set (e1 := clear_returnData _). assert (machine_ok e1) as He1 by (destruct He; split; [done|constructor|done]).
    eapply mok_call; [by apply run_code_ok|]. intros r e2 He2 Hs12 HQ. apply mok_tt, mok_mod.
    apply mok_ret; [destruct He2; by split| |done].
    etrans; [done|]. destruct Hs12 as [Hx Hd Hr Ht]. cbn in *. split; cbn; [done|lia|done|done].
Qed.

Lemma run_ok e0 fuel c input ro e a :
  machine_ok e → same_machine e0 e → contract_ok c → data_ok input → CodeAddr c = Some a →
  enough (n + 1) (c_Gas c) a → n <= Z.of_nat fuel →
  mok e0 (run env Keccak256Hash calls fuel c input ro) e (run_post (c_Gas c)).
Proof.
  intros He Hs Hc Hi Ha Hn Hfuel. pose proof (co_gas _ Hc) as Hg.
  assert (mok e0 (interpreter_Run env Keccak256Hash calls fuel c input ro) e (run_post (c_Gas c))) as Hint.
  { apply interpreter_Run_ok; [done|done|done|apply Hi| |]; unfold enough in Hn; revert Hn; case_bool_decide; lia. }
  unfold run. rewrite Ha. destruct (PrecompiledContractsByzantium a) as [p|] eqn:Hp; [|done].
  case_bool_decide; [by eapply RunPrecompiledContract_ok|done].
Qed.

(** ** Calls *)

(** The machine [e], reached from [e0], with a state that reads as [v]. *)
Record at_view (e0 e : Machine St) (v : view) : Prop := {
  av_ok : machine_ok e;
  av_same : same_machine e0 e;
  av_reads : reads (m_state e) v;
}.
Lemma at_view_start e : machine_ok e → ∃ v, at_view e e v.
Proof. intros He. destruct (ma_reads _ He) as [v Hv]. by exists v. Qed.

Lemma mok_at {A B} e0 (op : SE St A) (k : A → M B) e v a s' v' Q :
  at_view e0 e v → op (m_state e) = (Ok a, s') → reads s' v' → ext (m_state e) s' →
  (∀ e', at_view e0 e' v' → same_machine e e' → m_state e' = s' → mok e0 (k a) e' Q) →
  mok e0 (x ← machine_state op; k x) e Q.
Proof.
  intros [He Hs Hr] Hop Hr' Hx Hk. eapply mok_op; [done..|]. intros e' He' Hse Hs0 Est _ _.
  apply Hk; [|done|done]. split; [done|done|by rewrite Est].
Qed.

Lemma mok_CanTransfer {B} e0 a x t (k : bool → M B) e v Q :
  at_view e0 e v →
  (∀ e', at_view e0 e' v → same_machine e e' → equiv (m_state e') (m_state e) →
     mok e0 (k (bool_decide (x <= v_bal v a t))) e' Q) →
  mok e0 (b ← CanTransfer a x t; k b) e Q.
Proof.
  intros Hv Hk. destruct (vm_GetBalance _ _ a t (av_reads _ _ _ Hv)) as (s'&Heq&Hs'&Hx).
  pose proof (GetBalance_equiv _ _ a t (av_reads _ _ _ Hv)) as Hq. rewrite Heq in Hq.
  cut (mok e0 (b ← machine_state (GetBalance a t); k (bool_decide (x <= b))) e Q).
  { unfold CanTransfer, mok. se_red. by destruct (machine_state (GetBalance a t) e) as [[] ?]. }
  eapply mok_at; [done..|]. intros e' He' Hse Est. apply Hk; [done|done|by rewrite Est].
Qed.

Lemma mok_posw {B} e0 a x (k : bool → M B) e v Q :
  at_view e0 e v →
  (∀ b e', at_view e0 e' v → same_machine e e' → equiv (m_state e') (m_state e) → mok e0 (k b) e' Q) →
  mok e0 (b ← posw_blocks env a x; k b) e Q.
Proof.
  intros Hv Hk. unfold posw_blocks. destruct (env_DisallowMap env !! a) as [w|]; [|by apply Hk].
  destruct (vm_GetBalance _ _ a (env_DefaultToken env) (av_reads _ _ _ Hv)) as (s'&Heq&Hs'&Hx).
  pose proof (GetBalance_equiv _ _ a (env_DefaultToken env) (av_reads _ _ _ Hv)) as Hq. rewrite Heq in Hq.
  cut (mok e0 (b ← machine_state (GetBalance a (env_DefaultToken env)); k (bool_decide (b < x + w))) e Q).
  { unfold mok. se_red. by destruct (machine_state (GetBalance a (env_DefaultToken env)) e) as [[] ?]. }
  eapply mok_at; [done..|]. intros e' He' Hse Est. apply Hk; [done|done|by rewrite Est].
Qed.

(** The snapshot [id] taken in [s], where the state became [s']. *)
Definition reverts_to (id : Z) (s s' : St) : Prop := ∀ s2 v2, ext s' s2 → reads s2 v2 →
  ∃ s3 v3, RevertToSnapshot id s2 = (Ok tt, s3) ∧ equiv s3 s ∧ reads s3 v3 ∧ ext s s3.

Lemma mok_Snapshot {B} e0 (k : Z → M B) e v Q :
  at_view e0 e v →
  (∀ id e', at_view e0 e' v → same_machine e e' → equiv (m_state e') (m_state e) →
     reverts_to id (m_state e) (m_state e') → mok e0 (k id) e' Q) →
  mok e0 (id ← machine_state Snapshot; k id) e Q.
Proof.
  intros Hv Hk. destruct (vm_Snapshot _ _ (av_reads _ _ _ Hv)) as (id&s'&Heq&Hs'&Hx&Hrev).
  pose proof (Snapshot_equiv _ _ (av_reads _ _ _ Hv)) as Hq. rewrite Heq in Hq.
  eapply mok_at; [done..|]. intros e' He' Hse Est. apply Hk; [done|done|by rewrite Est|].
  intros s2 v2 Hx2 Hr2. rewrite Est in Hx2. destruct (Hrev _ _ Hx2 Hr2) as (s3&?&?&?&?). by exists s3, (restored v v2).
Qed.

Lemma mok_callee {B} e0 addr c (k : Contract → M B) e v Q :
  at_view e0 e v →
  (∀ h code e', at_view e0 e' v → same_machine e e' → equiv (m_state e') (m_state e) → nonneg code →
     mok e0 (k (SetCallCode addr h code c)) e' Q) →
  mok e0 (c' ← callee_code addr c; k c') e Q.
Proof.
  intros Hv Hk. destruct (vm_GetCodeHash _ _ addr (av_reads _ _ _ Hv)) as (h&s1&Heq1&_&Hs1&Hx1).
  pose proof (GetCodeHash_equiv _ _ addr (av_reads _ _ _ Hv)) as Hq1. rewrite Heq1 in Hq1.
  cut (mok e0 (h ← machine_state (GetCodeHash addr); code ← machine_state (GetCode addr); k (SetCallCode addr h code c)) e Q).
  { unfold callee_code, mok. se_red. destruct (machine_state (GetCodeHash addr) e) as [[] e1]; [|done|done].
    by destruct (machine_state (GetCode addr) e1) as [[] ?]. }
  eapply mok_at; [done..|]. intros e1 He1 Hse1 Est1.
  destruct (vm_GetCode _ _ addr (av_reads _ _ _ He1)) as (code&s2&Heq2&Hcode&Hs2&Hx2).
  pose proof (GetCode_equiv _ _ addr (av_reads _ _ _ He1)) as Hq2. rewrite Heq2 in Hq2.
  eapply mok_at; [done..|]. intros e2 He2 Hse2 Est2. apply Hk; [done|by etrans| |done].
  rewrite Est2. etrans; [done|]. by rewrite Est1.
Qed.

Lemma mok_Transfer {B} e0 a b x t (k : unit → M B) e v Q :
  at_view e0 e v → 0 <= x <= v_bal v a t →
  (∀ v' e', at_view e0 e' v' → same_machine e e' → mok e0 (k tt) e' Q) →
  mok e0 (u ← Transfer a b x t; k u) e Q.
Proof.
  intros Hv Hx Hk. destruct (vm_SubBalance _ _ a x t (av_reads _ _ _ Hv) Hx) as (s1&Heq1&Hs1&Hx1).
  cut (mok e0 (_ ← machine_state (SubBalance a x t); u ← machine_state (AddBalance b x t); k u) e Q).
  { unfold Transfer, mok. se_red. by destruct (machine_state (SubBalance a x t) e) as [[] e1]. }
  eapply mok_at; [done..|]. intros e1 He1 Hse1 _.
  destruct (vm_AddBalance _ _ b x t (av_reads _ _ _ He1)) as (s2&Heq2&Hs2&Hx2); [lia|].
  eapply mok_at; [done..|]. intros e2 He2 Hse2 _. eapply Hk; [done|]. by etrans.
Qed.

(** What a call from [e0] gives. *)
Definition call_post (e0 : Machine St) (g : Z) (r : call_result) (e : Machine St) : Prop :=
  nonneg r.1.1 ∧ 0 <= r.1.2 <= g ∧ (r.2 ≠ None → equiv (m_state e) (m_state e0)).
Lemma call_ok_of m e g : mok e m e (call_post e g) → call_ok env m e g.
Proof.
  unfold mok, call_ok. destruct (m e) as [[[[ret l] err]|er|p] e']; [|done|done].
  unfold call_post. cbn. tauto.
Qed.

Lemma settle_ok e0 e1 id r e g s :
  machine_ok e → same_machine e0 e → ext (m_state e0) s → reverts_to id s (m_state e1) → same_machine e1 e →
  equiv s (m_state e0) → run_post g r e →
  mok e0 (settle_call env id r) e (call_post e0 g).
Proof.
  intros He Hs Hx0 Hrev Hs1 Hq [Hret Hgas]. destruct r as [[ret err] c]. cbn in Hret, Hgas. unfold settle_call.
  apply mok_get. destruct (checkTokenIDQueried _ _ _ _) as [er|].
  - destruct (ma_reads _ He) as [v Hv]. destruct (Hrev _ _ (sm_ext _ _ Hs1) Hv) as (s3&v3&Heq&Hq3&Hr3&Hx3).
    set (c' := if bool_decide (er = ErrExecutionReverted) then c else (UseGas (c_Gas c) c).2).
    assert (0 <= c_Gas c' <= g) as Hc'.
    { unfold c'. case_bool_decide; [done|]. pose proof (UseGas_bound (c_Gas c) c). lia. }
    unfold mok. se_red. rewrite (machine_state_run _ _ _ _ Heq). fold c'. split_and!.
    + by eapply with_state_ok.
    + destruct Hs as [Hx Hd Hro Ht]. split; cbn; [by eapply ext_trans|done|done|done].
    + split; [done|]. split; [done|]. intros _. cbn. by etrans.
  - apply mok_ret; [done|done|]. split; [done|]. by split.
Qed.

Lemma ref_Address_nonneg r : ref_ok r → 0 <= ref_Address r.
Proof. destruct r; [done|intros (?&_)]. done. Qed.
Lemma fresh_contract_ok r me v g addr h code :
  ref_ok r → 0 <= me → 0 <= v → 0 <= g < max_gas → nonneg code →
  contract_ok (SetCallCode addr h code (NewContract r me v g)).
Proof. intros Hr Hme Hv Hg Hcode. split; cbn; try done. by apply ref_Address_nonneg. Qed.

(** The error before anything was done. *)
Lemma refuse_ok e0 e v g left_ err :
  at_view e0 e v → equiv (m_state e) (m_state e0) → 0 <= left_ <= g →
  mok e0 (mret ([], left_, err)) e (call_post e0 g).
Proof. intros [] Hq Hl. apply mok_ret; [done|done|]. split; [constructor|]. by split. Qed.

(** The guards that all calls start with. *)
Lemma guards_ok e0 e v g (k : M call_result) :
  at_view e0 e v → equiv (m_state e) (m_state e0) → 0 <= g →
  mok e0 k e (call_post e0 g) →
  mok e0 (nr ← not_recursive env;
    if (nr : bool) then mret ([], g, None) else
    deep ← too_deep env;
    if (deep : bool) then mret ([], g, Some (OtherVMError "max call depth exceeded")) else k) e (call_post e0 g).
Proof.
  intros Hv Hq Hg Hk. unfold not_recursive, too_deep.
  match goal with |- mok _ (mbind ?f _) _ _ => cut (mok e0 (f (NoRecursion env && bool_decide (0 < m_depth e))) e (call_post e0 g)); [done|] end.
  cbv beta. match goal with |- mok _ (if ?b then _ else _) _ _ => destruct b end; [eapply refuse_ok; [done|done|lia]|].
  match goal with |- mok _ (mbind ?f _) _ _ => cut (mok e0 (f (bool_decide (CallCreateDepth P < m_depth e))) e (call_post e0 g)); [done|] end.
  cbv beta. match goal with |- mok _ (if ?b then _ else _) _ _ => destruct b end; [eapply refuse_ok; [done|done|lia]|done].
Qed.

(** The run of the callee and the end of the call. *)
Lemma run_and_settle e0 e1 id c input ro e g a s fuel :
  machine_ok e → same_machine e0 e → ext (m_state e0) s → reverts_to id s (m_state e1) → same_machine e1 e →
  equiv s (m_state e0) → contract_ok c → data_ok input → CodeAddr c = Some a → c_Gas c = g →
  enough (n + 1) g a → n <= Z.of_nat fuel →
  mok e0 (r ← run env Keccak256Hash calls fuel c input ro; settle_call env id r) e (call_post e0 g).
Proof.
  intros He Hs Hx Hrev Hs1 Hq Hc Hi Ha Hg Hn Hfuel.
  eapply mok_call; [apply (run_ok e fuel c input ro e a); [done|done|done|done|done|by rewrite Hg|done]|].
  intros r e' He' Hse HQ. rewrite Hg in HQ.
  apply (settle_ok e0 e1 id r e' g s); [done|by etrans|done|done|by etrans|done|done].
Qed.

Lemma Call_ok fuel r a input g v e :
  ref_ok r → 0 <= a → data_ok input → 0 <= g < max_gas → 0 <= v → machine_ok e →
  enough (n + 1) g a → n <= Z.of_nat fuel →
  call_ok env (Call env Keccak256Hash calls fuel r a input g v) e g.
Proof.
  intros Hr Ha Hi Hg Hv He Hn Hfuel. apply call_ok_of. unfold Call. destruct (at_view_start e He) as [w Hw].
  eapply guards_ok; [done|done|lia|]. apply mok_get.
  eapply mok_CanTransfer; [done|]. intros e1 He1 Hs1 Hq1. case_bool_decide as Hcan; cbn [negb]; [|by eapply refuse_ok; [..|lia]].
  eapply mok_posw; [done|]. intros b e2 He2 Hs2 Hq2. assert (equiv (m_state e2) (m_state e)) as Hq by (by etrans).
  destruct b; [eapply refuse_ok; [done|done|lia]|].
  eapply mok_Snapshot; [done|]. intros id e3 He3 Hs3 Hq3 Hrev.
  destruct (vm_Exist _ _ a (av_reads _ _ _ He3)) as (ex&s4&Heq4&Hs4&Hx4). pose proof He3 as He3'.
  eapply mok_at; [done..|]. intros e4 He4 Hs4' Est4.
  match goal with |- mok _ (if ?b then _ else _) _ _ => destruct b end.
  { apply mok_ret; [apply He4|apply He4|]. split; [constructor|]. split; [cbn; lia|done]. }
  eapply (mok_call _ e4 _ _ _ (fun _ e' => ∃ w', reads (m_state e') w' ∧ ∀ x t, v_bal w' x t = v_bal w x t)).
  { destruct ex; [apply mok_ret; [apply He4|done|exists w; split; [apply He4|done]]|].
    destruct (vm_CreateAccount _ _ a (av_reads _ _ _ He4)) as (s5&Heq5&Hs5&Hx5).
    cut (mok e4 (u ← machine_state (CreateAccount a); mret u) e4 (fun _ e' => ∃ w', reads (m_state e') w' ∧ ∀ x t, v_bal w' x t = v_bal w x t)).
    { unfold mok. se_red. by destruct (machine_state (CreateAccount a) e4) as [[] ?]. }
    eapply mok_op; [apply He4|done|done..|]. intros e5 He5 _ Hs45 Est5 _ _.
    apply mok_ret; [done|done|]. eexists. rewrite Est5. by split. }
  intros _ e5 He5 Hs45 (w5&Hr5&Hbal). apply mok_get.
  assert (same_machine e3 e5) as Hs35 by (by etrans). assert (same_machine e e5) as Hs05 by (etrans; [apply He3|done]).
  assert (at_view e e5 w5) as Hv5 by done.
  eapply mok_Transfer; [done| |].
  { rewrite Hbal. rewrite (sm_token _ _ Hs05). lia. }
  intros w6 e6 He6 Hs56. eapply mok_callee; [done|]. intros h code e7 He7 Hs67 _ Hcode.
  eapply (run_and_settle e e3 id _ _ _ e7 g a (m_state e2)); try done.
  - apply He7.
  - apply He7.
  - apply He2.
  - by do 2 (etrans; [eassumption|]).
  - by apply fresh_contract_ok.
Qed.

Lemma CallCode_ok fuel r a input g v e :
  ref_ok r → 0 <= a → data_ok input → 0 <= g < max_gas → 0 <= v → machine_ok e →
  enough (n + 1) g a → n <= Z.of_nat fuel →
  call_ok env (CallCode env Keccak256Hash calls fuel r a input g v) e g.
Proof.
  intros Hr Ha Hi Hg Hv He Hn Hfuel. apply call_ok_of. unfold CallCode. destruct (at_view_start e He) as [w Hw].
  eapply guards_ok; [done|done|lia|]. apply mok_get.
  eapply mok_CanTransfer; [done|]. intros e1 He1 Hs1 Hq1. case_bool_decide as Hcan; cbn [negb]; [|by eapply refuse_ok; [..|lia]].
  eapply mok_posw; [done|]. intros b e2 He2 Hs2 Hq2. assert (equiv (m_state e2) (m_state e)) as Hq by (by etrans).
  destruct b; [eapply refuse_ok; [done|done|lia]|].
  eapply mok_Snapshot; [done|]. intros id e3 He3 Hs3 Hq3 Hrev.
  eapply mok_callee; [done|]. intros h code e4 He4 Hs34 _ Hcode.
  eapply (run_and_settle e e3 id _ _ _ e4 g a (m_state e2)); try done.
  - apply He4.
  - apply He4.
  - apply He2.
  - apply fresh_contract_ok; [done|by apply ref_Address_nonneg|done|done|done].
Qed.

Lemma DelegateCall_ok fuel me ca v a input g e :
  ref_ok (ContractOf me ca v) → 0 <= a → data_ok input → 0 <= g < max_gas → machine_ok e →
  enough (n + 1) g a → n <= Z.of_nat fuel →
  call_ok env (DelegateCall env Keccak256Hash calls fuel (ContractOf me ca v) a input g) e g.
Proof.
  intros Hr Ha Hi Hg He Hn Hfuel. apply call_ok_of. unfold DelegateCall. destruct (at_view_start e He) as [w Hw].
  eapply guards_ok; [done|done|lia|].
  eapply mok_Snapshot; [done|]. intros id e1 He1 Hs1 Hq1 Hrev. eapply mok_lift; [reflexivity|].
  eapply mok_callee; [done|]. intros h code e2 He2 Hs12 Hq2 Hcode.
  eapply mok_posw; [done|]. intros b e3 He3 Hs23 Hq3.
  assert (equiv (m_state e3) (m_state e)) as Hq by (do 2 (etrans; [eassumption|]); done).
  destruct b; [eapply refuse_ok; [done|done|lia]|].
  eapply (run_and_settle e e1 id _ _ _ e3 g a (m_state e)); try done.
  - apply He3.
  - apply He3.
  - apply ext_refl.
  - by etrans.
  - destruct Hr as (?&?&?). split; cbn; done.
Qed.

Lemma StaticCall_ok fuel r a input g e :
  ref_ok r → 0 <= a → data_ok input → 0 <= g < max_gas → machine_ok e →
  enough (n + 1) g a → n <= Z.of_nat fuel →
  call_ok env (StaticCall env Keccak256Hash calls fuel r a input g) e g.
Proof.
  intros Hr Ha Hi Hg He Hn Hfuel. apply call_ok_of. unfold StaticCall. destruct (at_view_start e He) as [w Hw].
  eapply guards_ok; [done|done|lia|].
  eapply mok_Snapshot; [done|]. intros id e1 He1 Hs1 Hq1 Hrev.
  eapply mok_callee; [done|]. intros h code e2 He2 Hs12 Hq2 Hcode. cbv zeta.
  eapply mok_posw; [done|]. intros b e3 He3 Hs23 Hq3.
  assert (equiv (m_state e3) (m_state e)) as Hq by (do 2 (etrans; [eassumption|]); done).
  destruct b; [eapply refuse_ok; [done|done|lia]|].
  destruct (vm_AddBalance _ _ a 0 (env_DefaultToken env) (av_reads _ _ _ He3)) as (s4&Heq4&Hs4&Hx4); [lia|].
  eapply mok_at; [done..|]. intros e4 He4 Hs34 _.
  assert (contract_ok (SetCallCode a h code (NewContract r a 0 g))) as Hc by (by apply fresh_contract_ok).
  eapply (run_and_settle e e1 id _ _ _ e4 g a (m_state e)); try done.
  - apply He4.
  - apply He4.
  - apply ext_refl.
  - by do 2 (etrans; [eassumption|]).
  - destruct Hc. by split.
Qed.

(** ** Creations *)
Definition create_post (g : Z) (r : create_result) (e : Machine St) : Prop :=
  nonneg r.1.1.1 ∧ 0 <= r.1.1.2 ∧ 0 <= r.1.2 <= g.
Lemma create_ok_of m e g : mok e m e (create_post g) → create_ok env m e g.
Proof.
  unfold mok, create_ok. destruct (m e) as [[[[[ret a] l] err]|er|p] e']; [|done|done].
  unfold create_post. cbn. tauto.
Qed.
Lemma no_contract_ok e0 e g a left_ err :
  machine_ok e → same_machine e0 e → 0 <= a → 0 <= left_ <= g →
  mok e0 (mret ([], a, left_, err)) e (create_post g).
Proof. intros He Hs Ha Hl. apply mok_ret; [done|done|]. split; [constructor|done]. Qed.

(** What happens after the run: paying for the code, or reverting. *)
Lemma store_code_ok e0 e1 id s address ret err c e g :
  machine_ok e → same_machine e0 e → ext (m_state e0) s → reverts_to id s (m_state e1) → same_machine e1 e →
  nonneg ret → 0 <= address → 0 <= c_Gas c <= g →
  mok e0 (
    let maxCodeSizeExceeded := IsEIP158 env && bool_decide (MaxCodeSize P < Z.of_nat (length ret)) in
    ec ← (if bool_decide (err = None) && negb maxCodeSizeExceeded then
            let createDataGas := u64 (Z.of_nat (length ret) * CreateDataGas P) in
            let '(ok, c) := UseGas createDataGas c in
            if (ok : bool) then _ ← machine_state (SetCode address ret); mret (err, c)
            else mret (Some ErrCodeStoreOutOfGas, c)
          else mret (err, c));
    let '(err, c) := (ec : option VMError * Contract) in
    c ← (if maxCodeSizeExceeded
            || (negb (bool_decide (err = None))
                && (IsHomestead env || negb (bool_decide (err = Some ErrCodeStoreOutOfGas))))
         then
           _ ← machine_state (RevertToSnapshot id);
           mret (if bool_decide (err = Some ErrExecutionReverted) then c else (UseGas (c_Gas c) c).2)
         else mret c);
    let err := if maxCodeSizeExceeded && bool_decide (err = None)
               then Some (OtherVMError "evm: max code size exceeded") else err in
    mret (ret, address, c_Gas c, err)) e (create_post g).
Proof.
  intros He Hs Hx0 Hrev Hs1 Hret Ha Hc. cbv zeta.
  set (big := IsEIP158 env && _). set (data := u64 (Z.of_nat (length ret) * CreateDataGas P)).
  eapply (mok_call _ e _ _ _ (fun ec _ => 0 <= c_Gas ec.2 <= g)).
  { match goal with |- mok _ (if ?b then _ else _) _ _ => destruct b end; [|by apply mok_ret].
    pose proof (u64_in (Z.of_nat (length ret) * CreateDataGas P)) as [Hd _]. fold data in Hd.
    pose proof (UseGas_bound data c Hd ltac:(lia)) as Hb. destruct (UseGas data c) as [ok c']. cbn in Hb.
    destruct ok; [|apply mok_ret; [done|done|cbn; lia]].
    destruct (ma_reads _ He) as [v Hv]. destruct (vm_SetCode _ _ address ret Hv) as (s2&Heq2&Hs2&Hx2).
    eapply mok_op; [done..|]. intros e2 He2 _ Hs2' _ _ _. apply mok_ret; [done|done|cbn; lia]. }
  intros [err' c'] e2 He2 Hs12 Hc'. cbn in Hc'. assert (same_machine e0 e2) as Hs02 by (by etrans).
  eapply (mok_bind _ _ _ _ (fun c'' _ => 0 <= c_Gas c'' <= g)).
  { match goal with |- mok _ (if ?b then _ else _) _ _ => destruct b end; [|by apply mok_ret].
    destruct (ma_reads _ He2) as [v Hv]. assert (same_machine e1 e2) as Hse by (by etrans).
    destruct (Hrev _ _ (sm_ext _ _ Hse) Hv) as (s3&v3&Heq&_&Hr3&Hx3).
    unfold mok. se_red. rewrite (machine_state_run _ _ _ _ Heq). split_and!.
    - by eapply with_state_ok.
    - destruct Hs02 as [_ Hd Hro Ht]. split; cbn; [by eapply ext_trans|done|done|done].
    - case_match; [lia|]. pose proof (UseGas_bound (c_Gas c') c'). lia.
    - case_match; [lia|]. pose proof (UseGas_bound (c_Gas c') c'). lia. }
  intros c'' e3 He3 Hs03 Hc''. apply mok_ret; [done|done|]. by split.
Qed.

Lemma create_nonce_ok e0 r e v (b : bool) :
  at_view e0 e v →
  mok e0 (if b then
            nonce ← machine_state (GetNonce (ref_Address r));
            machine_state (SetNonce (ref_Address r) (u64 (nonce + 1)))
          else mret tt) e
    (fun _ e' => ∃ v', reads (m_state e') v' ∧ ∀ x t, v_bal v' x t = v_bal v x t).
Proof.
  intros Hv. destruct b; [|apply mok_ret; [apply Hv|apply Hv|exists v; split; [apply Hv|done]]].
  destruct (vm_GetNonce _ _ (ref_Address r) (av_reads _ _ _ Hv)) as (s1&Heq1&Hs1&Hx1).
  eapply mok_at; [done..|]. intros e1 He1 _ Est1.
  destruct (vm_SetNonce _ _ (ref_Address r) (u64 (v_nonce v (ref_Address r) + 1)) (av_reads _ _ _ He1)) as (s2&Heq2&Hs2&Hx2);
    [apply u64_in|].
  unfold mok. rewrite (machine_state_run _ _ _ _ Heq2). split_and!.
  - eapply with_state_ok; [apply He1|done].
  - etrans; [apply He1|by apply with_state_same].
  - eexists. split; [exact Hs2|done].
Qed.

(** The account of the contract, with the value in it. *)
Lemma open_account_ok {B} e0 e v address r value t (k : unit → M B) Q :
  at_view e0 e v → 0 <= value <= v_bal v (ref_Address r) t →
  (∀ v' e', at_view e0 e' v' → same_machine e e' → mok e0 (k tt) e' Q) →
  mok e0 (_ ← machine_state (CreateAccount address);
          _ ← machine_state (SetNonce address 1);
          u ← Transfer (ref_Address r) address value t; k u) e Q.
Proof.
  intros Hv Hval Hk. destruct (vm_CreateAccount _ _ address (av_reads _ _ _ Hv)) as (s1&Heq1&Hs1&Hx1).
  eapply mok_at; [done..|]. intros e1 He1 Hse1 _.
  destruct (vm_SetNonce _ _ address 1 (av_reads _ _ _ He1)) as (s2&Heq2&Hs2&Hx2); [lia|].
  eapply mok_at; [done..|]. intros e2 He2 Hse2 _. eapply mok_Transfer; [done|done|].
  intros v' e3 He3 Hse3. eapply Hk; [done|]. by do 2 (etrans; [eassumption|]).
Qed.

Lemma create_correct fuel r code h g value address e :
  ref_ok r → nonneg code → 0 <= g < max_gas → 0 <= value → 0 <= address → machine_ok e →
  2 * g + 2 <= n → n <= Z.of_nat fuel →
  create_ok env (create env Keccak256Hash calls fuel r code h g value address) e g.
Proof.
  intros Hr Hcode Hg Hval Ha He Hn Hfuel. apply create_ok_of. unfold create. destruct (at_view_start e He) as [w Hw].
  match goal with |- mok _ (mbind ?f _) _ _ => cut (mok e (f (bool_decide (CallCreateDepth P < m_depth e))) e (create_post g)); [done|] end.
  cbv beta. match goal with |- mok _ (if ?b then _ else _) _ _ => destruct b end; [apply no_contract_ok; [done|done|lia|lia]|].
  apply mok_get. eapply mok_CanTransfer; [done|]. intros e1 He1 Hs1 _.
  case_bool_decide as Hcan; cbn [negb]; [|apply no_contract_ok; [apply He1|apply He1|lia|lia]].
  eapply mok_bind; [by apply create_nonce_ok|]. intros _ e2 He2 Hs2 (w2&Hr2&Hbal2).
  match goal with |- mok _ (if ?b then _ else _) _ _ => destruct b end; [apply no_contract_ok; [done|done|lia|lia]|].
  assert (at_view e e2 w2) as Hv2 by done.
  destruct (vm_GetCodeHash _ _ address Hr2) as (ch&s3&Heq3&_&Hs3&Hx3). eapply mok_at; [done..|]. intros e3 He3 _ _.
  destruct (vm_GetNonce _ _ address (av_reads _ _ _ He3)) as (s4&Heq4&Hs4&Hx4). eapply mok_at; [done..|]. intros e4 He4 _ _.
  match goal with |- mok _ (if ?b then _ else _) _ _ => destruct b end; [apply no_contract_ok; [apply He4|apply He4|lia|lia]|].
  eapply mok_posw; [done|]. intros b e5 He5 _ _. destruct b; [apply no_contract_ok; [apply He5|apply He5|lia|lia]|].
  eapply mok_Snapshot; [done|]. intros id e6 He6 _ _ Hrev.
  eapply open_account_ok; [done|rewrite Hbal2; lia|]. intros w7 e7 He7 Hs67.
  match goal with |- mok _ (mbind ?f _) _ _ => cut (mok e (f (NoRecursion env && bool_decide (0 < m_depth e7))) e7 (create_post g)); [done|] end.
  cbv beta. match goal with |- mok _ (if ?b then _ else _) _ _ => destruct b end; [apply no_contract_ok; [apply He7|apply He7|lia|lia]|].
  assert (contract_ok (SetCallCode address h code (NewContract r address value g))) as Hc by (by apply fresh_contract_ok).
  eapply mok_call; [apply (run_ok e7 fuel _ [] false e7 address); [apply He7|done|done|by split|done| |done]|].
  { unfold enough. cbn. case_bool_decide; lia. }
  intros [[ret err] c'] e8 He8 Hs78 [Hret Hgas]. apply mok_get.
  apply (store_code_ok e e6 id (m_state e5)); [done| | |done|by etrans|done|done|done].
  - etrans; [apply He7|done].
  - apply He5.
Qed.

Lemma Create_ok fuel r code g value o e :
  ref_ok r → nonneg code → 0 <= g < max_gas → 0 <= value → (∀ a, o = Some a → 0 <= a) → machine_ok e →
  2 * g + 2 <= n → n <= Z.of_nat fuel →
  create_ok env (Create env Keccak256Hash CreateAddress calls fuel r code g value o) e g.
Proof.
  intros Hr Hcode Hg Hval Ho He Hn Hfuel. unfold Create. destruct o as [a|].
  { cut (create_ok env (create env Keccak256Hash calls fuel r code 0 g value a) e g); [done|].
    apply create_correct; try done. by apply Ho. }
  destruct (ma_reads _ He) as [w Hw]. destruct (vm_GetNonce _ _ (ref_Address r) Hw) as (s1&Heq1&Hs1&Hx1).
  pose proof (create_correct fuel r code 0 g value (CreateAddress (ref_Address r) (ToFullShardKey env) (v_nonce w (ref_Address r)))
    (with_state s1 e) Hr Hcode Hg Hval (HAddress _ _ _) ltac:(by eapply with_state_ok) Hn Hfuel) as Hc.
  revert Hc. unfold create_ok. se_red. rewrite (machine_state_run _ _ _ _ Heq1).
  destruct (create _ _ _ _ _ _ _ _ _ _ _) as [[[[[ret a] l] err]|er|p] e']; [|done|done].
  intros (?&?&?&?&?). split_and!; try done; try lia. etrans; [by apply with_state_same|done].
Qed.
End with_calls.

(** ** The recursion: every promise is kept with enough fuel *)
Theorem evm_calls_ok (k : nat) :
  calls_ok env (Z.of_nat k) (evm_calls env Keccak256Hash CreateAddress CreateAddress2 k).
Proof.
  induction k as [|k IH].
  { split; intros; exfalso; unfold enough in *; repeat case_bool_decide; lia. }
  rewrite Nat2Z.inj_succ. unfold Z.succ. cbn [evm_calls].
  split; intros; cbn [c_Call c_CallCode c_DelegateCall c_StaticCall c_Create c_Create2].
  - by apply (Call_ok _ (Z.of_nat k) IH).
  - by apply (CallCode_ok _ (Z.of_nat k) IH).
  - by apply (DelegateCall_ok _ (Z.of_nat k) IH).
  - by apply (StaticCall_ok _ (Z.of_nat k) IH).
  - apply (Create_ok _ (Z.of_nat k) IH); try done. lia.
  - apply (create_correct _ (Z.of_nat k) IH); try done. lia.
Qed.
End calls.
