(* ===== verification/EvmState.v ===== *)
(** * The StateDB behind the virtual machine and the transition

    The StateDB of StateDB.v, with the counters of the block it also holds,
    implements the interfaces the state transition and the virtual machine use,
    and keeps their laws: the theorems proved against the interfaces hold for
    it.  Models the remaining accessors of src/core/state/statedb.go. *)

From S2P Require Import Prelude Utils TokenBalances StateDB StateDBCorrect Account Blocks XShardCursor Consensus Transition TransitionCorrect EvmBase EvmOps EvmRun EvmLaws.

Local Open Scope Z_scope.

(** The fields of a StateDB that are set for a block. *)
Record BlockFields := mkFields {
  gasLimit : Z;
  blockCoinbase : Z;
  timeStamp : Z;
  blockNumber : Z;
  senderDisallowMap : gmap Z Z;
}.
(** A StateDB: the accounts, and what is counted per block (not journalled). *)
Record ChainState := mkChain {
  cs_db : StateDB;
  cs_gasUsed : Z;
  cs_blockFee : gmap Z Z;
  cs_xShardList : list Deposit;
  cs_block : BlockFields;
}.

Definition on_db {A} (m : SE StateDB A) : SE ChainState A := fun c =>
  let '(r, s) := m (cs_db c) in (r, mkChain s (cs_gasUsed c) (cs_blockFee c) (cs_xShardList c) (cs_block c)).

Definition chain_GetGasUsed : SE ChainState Z := c ← se_get; mret (cs_gasUsed c).
Definition chain_AddGasUsed (g : Z) : SE ChainState unit :=
  se_mod (fun c => mkChain (cs_db c) (cs_gasUsed c + g) (cs_blockFee c) (cs_xShardList c) (cs_block c)).
Definition chain_AddBlockFee (t fee : Z) : SE ChainState unit := se_mod (fun c =>
  mkChain (cs_db c) (cs_gasUsed c) (<[t := fee + default 0 (cs_blockFee c !! t)]> (cs_blockFee c)) (cs_xShardList c) (cs_block c)).
Definition chain_AppendXShardList (d : Deposit) : SE ChainState unit := se_mod (fun c =>
  mkChain (cs_db c) (cs_gasUsed c) (cs_blockFee c) (cs_xShardList c ++ [d]) (cs_block c)).

(** No account of the database keeps its balances in a token trie. *)
Definition no_token_tries (account_trie : Z → option StateDB.Account) : Prop :=
  ∀ a acc, account_trie a = Some acc → tokenTrie (Balances acc) = None.

Section state.
Context `{SecureTrie tr, Rlp}.
Variable token_tries : heap tr.
Variable account_trie : Z → option StateDB.Account.
Variable storage_trie : Z → Z → Z → Z.
Variable contract_code : Z → option (list Z).
Variable Keccak256Hash : list Z → Z.

Definition GetCodeSize (addr : Z) : SE StateDB Z :=
  o ← getStateObject account_trie Keccak256Hash addr;
  mret (match (o : option stateObject) with
        | None => 0
        | Some o =>
            match o_code o with
            | Some c => Z.of_nat (length c)
            | None => match contract_code (o_codehash o) with Some c => Z.of_nat (length c) | None => 0 end
            end
        end).

#[export] Instance chain_ops : StateOps ChainState := {|
  Transition.GetBalance a t := on_db (StateDB.GetBalance token_tries account_trie Keccak256Hash a t);
  Transition.AddBalance a x t := on_db (StateDB.AddBalance token_tries account_trie Keccak256Hash a x t);
  Transition.SubBalance a x t := on_db (StateDB.SubBalance token_tries account_trie Keccak256Hash a x t);
  Transition.GetNonce a := on_db (StateDB.GetNonce account_trie Keccak256Hash a);
  Transition.SetNonce a n := on_db (StateDB.SetNonce account_trie Keccak256Hash a n);
  Transition.GetRefund := on_db StateDB.GetRefund;
  Transition.SubRefund g := on_db (StateDB.SubRefund g);
  AddBlockFee t x := chain_AddBlockFee t x;
  AddGasUsed g := chain_AddGasUsed g;
  GetGasUsed := chain_GetGasUsed;
  AppendXShardList d := chain_AppendXShardList d;
|}.

(** A hash is 32 bytes and a byte 8 bits. *)
#[export] Instance chain_vm : VmState ChainState := {|
  EvmOps.CreateAccount a := on_db (StateDB.CreateAccount account_trie Keccak256Hash a);
  EvmOps.GetCodeHash a := on_db (h ← StateDB.GetCodeHash account_trie Keccak256Hash a; mret (BigToHash h));
  EvmOps.GetCode a := on_db (c ← StateDB.GetCode account_trie contract_code Keccak256Hash a; mret (map u8 (default [] c)));
  EvmOps.SetCode a c := on_db (StateDB.SetCode account_trie contract_code Keccak256Hash a c);
  EvmOps.GetCodeSize a := on_db (GetCodeSize a);
  EvmOps.AddRefund g := on_db (StateDB.AddRefund g);
  EvmOps.GetState a k := on_db (x ← StateDB.GetState account_trie storage_trie Keccak256Hash a k; mret (BigToHash x));
  EvmOps.SetState a k x := on_db (StateDB.SetState account_trie storage_trie Keccak256Hash a k x);
  EvmOps.Suicide a := on_db (StateDB.Suicide account_trie Keccak256Hash a);
  EvmOps.HasSuicided a := on_db (StateDB.HasSuicided account_trie Keccak256Hash a);
  EvmOps.Exist a := on_db (StateDB.Exist account_trie Keccak256Hash a);
  EvmOps.Empty a := on_db (StateDB.Empty account_trie Keccak256Hash a);
  EvmOps.Snapshot := on_db StateDB.Snapshot;
  EvmOps.RevertToSnapshot id := on_db (StateDB.RevertToSnapshot account_trie Keccak256Hash id);
  EvmOps.AddLog a ts d n := on_db (StateDB.AddLog (mkLog a ts d n 0 0 0 0));
  EvmOps.AddPreimage h d := on_db (StateDB.AddPreimage h d);
|}.

(** ** What the state shows *)
Local Abbreviation live_obj := (live_obj account_trie Keccak256Hash).
Local Abbreviation wf := (wf account_trie).
Local Abbreviation Inv := (Inv account_trie storage_trie contract_code Keccak256Hash).
Local Abbreviation Ext := (Ext account_trie storage_trie contract_code Keccak256Hash).
Local Abbreviation good := (good account_trie storage_trie contract_code Keccak256Hash).
Local Abbreviation state_equiv := (state_equiv account_trie storage_trie contract_code Keccak256Hash).
Hypothesis trie_wf : no_token_tries account_trie.

Definition obj_bal (o : option stateObject) (t : Z) : Z :=
  match o with None => 0 | Some o => default 0 (balances (o_balances o) !! t) end.
Definition obj_nonce (o : option stateObject) : Z := match o with None => 0 | Some o => o_nonce o end.

Record shows (s : StateDB) (v : view) : Prop := {
  sh_bal a t : obj_bal (live_obj s a) t = v_bal v a t;
  sh_nonce a : obj_nonce (live_obj s a) = v_nonce v a;
  sh_refund : StateDB.refund s = v_refund v;
}.
(** Balances are amounts, nonces and the refund are 64-bit. *)
Record view_ok (v : view) : Prop := {
  vo_bal a t : 0 <= v_bal v a t;
  vo_nonce a : 0 <= v_nonce v a < 2 ^ 64;
  vo_refund : 0 <= v_refund v < 2 ^ 64;
}.
Record chain_reads (c : ChainState) (v : view) : Prop := {
  cr_inv : ∃ P G, Inv P G (cs_db c);
  cr_shows : shows (cs_db c) v;
  cr_ok : view_ok v;
  cr_gas : cs_gasUsed c = v_gasUsed v;
  cr_fee t : default 0 (cs_blockFee c !! t) = v_fee v t;
  cr_list : cs_xShardList c = v_xlist v;
}.

Lemma shows_equiv s s' v : state_equiv s' s → shows s v → shows s' v.
Proof.
  intros He [Hb Hn Hr]. split.
  - intros a t. rewrite <- Hb. destruct (se_objects _ _ _ _ _ _ He a) as [o1 o2 []|]; cbn; congruence.
  - intros a. rewrite <- Hn. destruct (se_objects _ _ _ _ _ _ He a) as [o1 o2 []|]; cbn; congruence.
  - rewrite (se_refund _ _ _ _ _ _ He). done.
Qed.

(** The snapshots stay, and so do the counters of the block. *)
Definition counters (c : ChainState) : Z * gmap Z Z * list Deposit := (cs_gasUsed c, cs_blockFee c, cs_xShardList c).
Definition chain_ext (c c' : ChainState) : Prop :=
  (∀ P G, Inv P G (cs_db c) → ∃ G', Inv P (G ++ G') (cs_db c')) ∧ counters c' = counters c.
Definition chain_equiv (c c' : ChainState) : Prop := state_equiv (cs_db c) (cs_db c').

(** An operation whose changes are in the journal. *)
Lemma journalled {A} (m : SE StateDB A) c v a s' v' :
  chain_reads c v → m (cs_db c) = (Ok a, s') → good m → shows s' v' → view_ok v' →
  v_gasUsed v' = v_gasUsed v → (∀ t, v_fee v' t = v_fee v t) → v_xlist v' = v_xlist v →
  ∃ c', on_db m c = (Ok a, c') ∧ chain_reads c' v' ∧ chain_ext c c' ∧ cs_db c' = s'.
Proof.
  intros [(P & G & HG) Hs Hok Hg Hf Hl] Hm Hgood Hs' Hok' Eg Ef El. unfold on_db. rewrite Hm. eexists. split; [reflexivity|].
  assert (∀ P G, Inv P G (cs_db c) → Inv P G s') as Hinv.
  { intros P0 G0 HG0. destruct (Hgood _ _ _ (inv_wf _ _ _ _ _ _ _ HG0) Hm) as [Hx Hr]. by eapply Inv_good. }
  split_and!; [|split; [intros P0 G0 HG0; exists []; rewrite app_nil_r; by apply Hinv|done]|done].
  split; [exists P, G; by apply Hinv|done|done|by rewrite Eg|intros t; by rewrite Ef|by rewrite El].
Qed.

(** *** Reading *)
Lemma read_only {A} (m : SE StateDB A) c v x s' :
  chain_reads c v → m (cs_db c) = (Ok x, s') → state_equiv s' (cs_db c) → good m →
  ∃ c', on_db m c = (Ok x, c') ∧ chain_reads c' v ∧ chain_ext c c' ∧ chain_equiv c' c.
Proof.
  intros Hr Hm He Hg. destruct (journalled m c v x s' v Hr Hm Hg) as (c'&?&?&?&E); try done.
  - eapply shows_equiv; [done|apply Hr].
  - apply Hr.
  - exists c'. split_and!; [done|done|done|]. unfold chain_equiv. by rewrite E.
Qed.

Lemma reads_wf c v : chain_reads c v → wf (cs_db c).
Proof. intros [(P & G & HG) _ _ _ _ _]. apply HG. Qed.

Lemma load_equiv s a : wf s →
  state_equiv (match live_obj s a with Some o => upd a o s | None => s end) s.
Proof.
  intros Hwf. destruct (live_obj s a) as [o|] eqn:Hl; [|reflexivity].
  apply upd_live; [done|]. by eapply live_obj_wf.
Qed.

(** What an object says, without touching it. *)
Lemma peek {A} (g : option stateObject → A) a s : wf s →
  ∃ s', (o ← getStateObject account_trie Keccak256Hash a; mret (g o)) s = (Ok (g (live_obj s a)), s') ∧ state_equiv s' s.
Proof. intros Hwf. se_red. rewrite getStateObject_spec by done. eexists. split; [done|by apply load_equiv]. Qed.
Lemma peek_good {A} (g : option stateObject → A) a :
  good (o ← getStateObject account_trie Keccak256Hash a; mret (g o)).
Proof.
  apply good_bind; [|intros o; apply good_ret]. intros s x s' Hwf E.
  by destruct (getStateObject_Ext _ storage_trie contract_code _ trie_wf _ _ _ _ Hwf E) as (?&?&_).
Qed.
Lemma peek_law {A} (g : option stateObject → A) a c v : chain_reads c v →
  ∃ x c', on_db (o ← getStateObject account_trie Keccak256Hash a; mret (g o)) c = (Ok x, c')
    ∧ chain_reads c' v ∧ chain_ext c c' ∧ chain_equiv c' c.
Proof.
  intros Hr. destruct (peek g a _ (reads_wf _ _ Hr)) as (s'&Hm&He). eexists.
  eapply read_only; [done|exact Hm|done|apply peek_good].
Qed.

(** What a method of the live object reads. *)
Lemma look {A} (m : SE StateDB A) (d : A) (f : stateObject → A) a s : wf s →
  (∀ s o, wf s → stateObjects s !! a = Some o → deleted o = false →
     ∃ o', m s = (Ok (f o), upd a o' s) ∧ obj_equiv storage_trie contract_code Keccak256Hash a o' o ∧ deleted o' = false) →
  ∃ s', (o ← getStateObject account_trie Keccak256Hash a;
         match (o : option stateObject) with None => mret d | Some _ => m end) s
        = (Ok (match live_obj s a with None => d | Some o => f o end), s') ∧ state_equiv s' s.
Proof.
  intros Hwf Hm. se_red. rewrite getStateObject_spec by done. pose proof (load_equiv s a Hwf) as Hl.
  destruct (live_obj s a) as [o|] eqn:Ho; [|by eexists].
  destruct (live_obj_wf _ _ trie_wf _ _ _ Hwf Ho) as (Ha&Hw&Hd).
  destruct (Hm (upd a o s) o) as (o'&Heq&Hoe&Hd'); [by apply wf_upd|cbn; by rewrite lookup_insert_eq|done|].
  rewrite Heq. eexists. split; [done|]. etrans; [|exact Hl]. rewrite upd_upd. by apply upd_equiv.
Qed.

Lemma GetBalance_law c v a t : chain_reads c v →
  ∃ c', Transition.GetBalance a t c = (Ok (v_bal v a t), c') ∧ chain_reads c' v ∧ chain_ext c c' ∧ chain_equiv c' c.
Proof.
  intros Hr. destruct (look (obj_Balance token_tries a t) 0 (fun o => default 0 (balances (o_balances o) !! t)) a _ (reads_wf _ _ Hr))
    as (s'&Hm&He).
  { intros s o Hwf Ho Hd. exists o. destruct (obj_Balance_spec token_tries _ Keccak256Hash trie_wf s a t Hwf ltac:(by exists o)) as (o1&Ho1&E).
    rewrite Ho in Ho1. injection Ho1 as <-. rewrite upd_same by done. by split_and!. }
  rewrite <- (sh_bal _ _ (cr_shows _ _ Hr) a t).
  eapply read_only; [done|exact Hm|done|]. apply good_if; [done|]. by apply obj_Balance_good.
Qed.

Lemma GetState_law c v a k : chain_reads c v →
  ∃ x c', GetState a k c = (Ok x, c') ∧ 0 <= x ∧ chain_reads c' v ∧ chain_ext c c'.
Proof.
  intros Hr. destruct (look (obj_GetState storage_trie a k) 0 (fun o => storage_view storage_trie a o k) a _ (reads_wf _ _ Hr))
    as (s'&Hm&He).
  { intros s o Hwf Ho Hd. destruct (obj_GetState_spec _ storage_trie contract_code Keccak256Hash trie_wf s a k Hwf ltac:(by exists o)) as (o1&o'&Ho1&E&Hoe&_&Hd').
    rewrite Ho in Ho1. injection Ho1 as <-. exists o'. split_and!; [done|done|congruence]. }
  destruct (read_only (x ← StateDB.GetState account_trie storage_trie Keccak256Hash a k; mret (BigToHash x)) c v
    (BigToHash (match live_obj (cs_db c) a with None => 0 | Some o => storage_view storage_trie a o k end)) s' Hr) as (c'&E&?&?&?).
  - unfold StateDB.GetState. revert Hm. se_red. by intros ->.
  - done.
  - apply good_bind; [|intros; apply good_ret]. apply good_if; [done|]. by apply obj_GetState_good.
  - eexists _, c'. split_and!; [exact E| |done|done]. apply Z.mod_pos_bound. lia.
Qed.

Lemma GetCode_law c v a : chain_reads c v →
  ∃ x c', GetCode a c = (Ok x, c') ∧ nonneg x ∧ chain_reads c' v ∧ chain_ext c c' ∧ chain_equiv c' c.
Proof.
  intros Hr. destruct (look (obj_Code contract_code Keccak256Hash a) None (code_view contract_code Keccak256Hash) a _ (reads_wf _ _ Hr))
    as (s'&Hm&He).
  { intros s o Hwf Ho Hd. destruct (obj_Code_spec _ storage_trie contract_code Keccak256Hash trie_wf s a Hwf ltac:(by exists o)) as (o1&o'&Ho1&E&Hoe&_&Hd'&_).
    rewrite Ho in Ho1. injection Ho1 as <-. exists o'. split_and!; [done|done|congruence]. }
  destruct (read_only (x ← StateDB.GetCode account_trie contract_code Keccak256Hash a; mret (map u8 (default [] x))) c v
    (map u8 (default [] (match live_obj (cs_db c) a with None => None | Some o => code_view contract_code Keccak256Hash o end))) s' Hr) as (c'&E&?&?&?).
  - unfold StateDB.GetCode. revert Hm. se_red. by intros ->.
  - done.
  - apply good_bind; [|intros; apply good_ret]. apply good_if; [done|]. by apply obj_Code_good.
  - eexists _, c'. split_and!; [exact E| |done|done|done].
    apply Forall_forall. intros z Hz%list_elem_of_fmap. destruct Hz as (y&->&_). apply u8_in.
Qed.

(** *** Writing *)
Lemma shows_upd s a o v v' :
  shows s v → deleted o = false → (∀ t, obj_bal (Some o) t = v_bal v' a t) → o_nonce o = v_nonce v' a →
  (∀ b, b ≠ a → (∀ t, v_bal v' b t = v_bal v b t) ∧ v_nonce v' b = v_nonce v b) → v_refund v' = v_refund v →
  shows (upd a o s) v'.
Proof.
  intros [Hb Hn Hr] Hd Hbo Hno Hother Href. split.
  - intros b t. rewrite live_upd. case_decide; [subst; by rewrite Hd|]. destruct (Hother b) as [-> _]; [done|]. apply Hb.
  - intros b. rewrite live_upd. case_decide; [subst; by rewrite Hd|]. destruct (Hother b) as [_ ->]; [done|]. apply Hn.
  - by rewrite Href.
Qed.
Lemma shows_appended e s v : shows s v → shows (appended e s) v.
Proof. intros [Hb Hn Hr]. by split. Qed.

(** The object of an account, with what it holds. *)
Record held (s : StateDB) (a : Z) (o : stateObject) (v : view) : Prop := {
  hd_lookup : stateObjects s !! a = Some o;
  hd_live : deleted o = false;
  hd_wf : wf s;
  hd_shows : shows s v;
}.
Lemma held_bal s a o v t : held s a o v → default 0 (balances (o_balances o) !! t) = v_bal v a t.
Proof. intros [Hl Hd _ Hs]. rewrite <- (sh_bal _ _ Hs). by rewrite (live_live_obj _ _ _ _ _ Hl Hd). Qed.
Lemma held_nonce s a o v : held s a o v → o_nonce o = v_nonce v a.
Proof. intros [Hl Hd _ Hs]. rewrite <- (sh_nonce _ _ Hs). by rewrite (live_live_obj _ _ _ _ _ Hl Hd). Qed.

Lemma GetOrNew_run s a v : wf s → shows s v →
  ∃ o s1, GetOrNewStateObject account_trie Keccak256Hash a s = (Ok tt, s1) ∧ held s1 a o v.
Proof.
  intros Hwf Hs. unfold GetOrNewStateObject. se_red. rewrite getStateObject_spec by done.
  destruct (live_obj s a) as [o|] eqn:Hl.
  - destruct (live_obj_wf _ _ trie_wf _ _ _ Hwf Hl) as (Ha&Hw&Hd). rewrite Hd. exists o. eexists. split; [done|].
    split; [cbn; by rewrite lookup_insert_eq|done|by apply wf_upd|]. eapply shows_equiv; [|exact Hs]. by apply upd_live.
  - unfold createObject. se_red. rewrite getStateObject_spec, Hl by done. eexists _, _. split; [done|].
    assert (shows s v) as [Hb Hn Hr] by done.
    split; [cbn; by rewrite lookup_insert_eq|done| |].
    + change (wf (upd a (SetFullShardKey (fullShardKey s) (setNonce 0 (newObject Keccak256Hash a NewAccount)))
        (appended (createObjectChange a) s))). apply wf_upd; [by apply appended_wf|done..].
    + change (shows (upd a (SetFullShardKey (fullShardKey s) (setNonce 0 (newObject Keccak256Hash a NewAccount)))
        (appended (createObjectChange a) s)) v).
      eapply shows_upd; [by apply shows_appended|done| | |done|done].
      * intros t. rewrite <- Hb, Hl. cbn. by rewrite lookup_empty.
      * by rewrite <- Hn, Hl.
Qed.

(** An operation on the object of an account. *)
Lemma on_account {A} (m : SE StateDB A) a c v x v' :
  chain_reads c v →
  (∀ s o, held s a o v → ∃ s', m s = (Ok x, s') ∧ shows s' v') →
  good_at account_trie storage_trie contract_code Keccak256Hash a m → view_ok v' →
  v_gasUsed v' = v_gasUsed v → (∀ t, v_fee v' t = v_fee v t) → v_xlist v' = v_xlist v →
  ∃ c', on_db (_ ← GetOrNewStateObject account_trie Keccak256Hash a; m) c = (Ok x, c')
    ∧ chain_reads c' v' ∧ chain_ext c c'.
Proof.
  intros Hr Hm Hg Hok E1 E2 E3.
  destruct (GetOrNew_run (cs_db c) a v (reads_wf _ _ Hr) (cr_shows _ _ Hr)) as (o&s1&Hn&Hheld).
  destruct (Hm _ _ Hheld) as (s'&Hs'&Hsh).
  destruct (journalled (_ ← GetOrNewStateObject account_trie Keccak256Hash a; m) c v x s' v' Hr) as (c'&?&?&?&_); try done.
  - se_red. by rewrite Hn.
  - by apply good_on.
  - by exists c'.
Qed.

Lemma held_Balance s a o v t : held s a o v → obj_Balance token_tries a t s = (Ok (v_bal v a t), s).
Proof.
  intros Hh. pose proof Hh as [Hl Hd Hw Hs].
  destruct (obj_Balance_spec token_tries _ Keccak256Hash trie_wf s a t Hw ltac:(by exists o)) as (o1&Ho1&->).
  rewrite Hl in Ho1. injection Ho1 as <-. by rewrite (held_bal s a o v) by done.
Qed.

Lemma held_SetBalance s a o v x t : held s a o v → 0 <= x →
  ∃ s', obj_SetBalance a x t s = (Ok tt, s') ∧ shows s' (add_bal a t (x - v_bal v a t) v).
Proof.
  intros Hh Hx. pose proof Hh as [Hl Hd Hw Hs].
  unfold obj_SetBalance, obj_get, journal_append, SetValue. se_red. rewrite Hl. rewrite bool_decide_false by lia.
  eexists. split; [unfold obj_mod, obj_get; se_red; cbn; rewrite Hl; reflexivity|].
  match goal with |- shows ?s' _ => change s' with (upd a (with_balances (mkTB (tb_db (o_balances o)) (tokenTrie (o_balances o))
    (<[t := x]> (balances (o_balances o)))) o) (appended (balanceChange a (GetBalanceMap (o_balances o))) s)) end.
  eapply shows_upd; [by apply shows_appended|done| | | |done].
  - intros t'. cbn. destruct (decide (t' = t)) as [->|Hne].
    + rewrite lookup_insert_eq. cbn. rewrite decide_True by done. lia.
    + rewrite lookup_insert_ne by done. rewrite decide_False by naive_solver. rewrite (held_bal _ _ _ _ t' Hh). lia.
  - cbn. by eapply held_nonce.
  - intros b Hne. split; [|done]. intros t'. cbn. rewrite decide_False by naive_solver. lia.
Qed.

Lemma shows_zero s a t v : shows s v → shows s (add_bal a t 0 v).
Proof. intros [Hb Hn Hr]. split; [|done|done]. intros b t'. cbn. rewrite Hb. case_decide; lia. Qed.
Lemma held_touch s a o v : held s a o v → ∃ s', touch a s = (Ok tt, s') ∧ shows s' v.
Proof.
  intros [_ _ _ Hs]. unfold touch, journal_append, journal_dirty. se_red.
  case_bool_decide; (eexists; split; [reflexivity|]); by destruct Hs; split.
Qed.

Lemma held_AddBalance s a o v x t : held s a o v → 0 <= x → 0 <= v_bal v a t →
  ∃ s', obj_AddBalance token_tries a x t s = (Ok tt, s') ∧ shows s' (add_bal a t x v).
Proof.
  intros Hh Hx Hb. unfold obj_AddBalance. case_bool_decide as E.
  - subst x. destruct (held_touch _ _ _ _ Hh) as (s'&?&?). exists s'. split; [done|]. by apply shows_zero.
  - se_red. rewrite (held_Balance _ _ _ _ _ Hh).
    destruct (held_SetBalance s a o v (v_bal v a t + x) t Hh) as (s'&?&Hs'); [lia|].
    exists s'. split; [done|]. by replace (v_bal v a t + x - v_bal v a t) with x in Hs' by lia.
Qed.
Lemma held_SubBalance s a o v x t : held s a o v → 0 <= x <= v_bal v a t →
  ∃ s', obj_SubBalance token_tries a x t s = (Ok tt, s') ∧ shows s' (add_bal a t (- x) v).
Proof.
  intros Hh Hx. unfold obj_SubBalance. case_bool_decide as E.
  - subst x. exists s. split; [done|]. apply shows_zero, Hh.
  - se_red. rewrite (held_Balance _ _ _ _ _ Hh).
    destruct (held_SetBalance s a o v (v_bal v a t - x) t Hh) as (s'&?&Hs'); [lia|].
    exists s'. split; [done|]. by replace (v_bal v a t - x - v_bal v a t) with (- x) in Hs' by lia.
Qed.

Lemma view_ok_add v a t x : view_ok v → 0 <= v_bal v a t + x → view_ok (add_bal a t x v).
Proof.
  intros [Hb Hn Hr] Hx. split; [|done|done]. intros b t'. cbn. specialize (Hb b t'). case_decide as E; [|lia].
  destruct E as [-> ->]. done.
Qed.

Lemma AddBalance_law c v a x t : chain_reads c v → 0 <= x →
  ∃ c', Transition.AddBalance a x t c = (Ok tt, c') ∧ chain_reads c' (add_bal a t x v) ∧ chain_ext c c'.
Proof.
  intros Hr Hx. pose proof (vo_bal _ (cr_ok _ _ Hr) a t) as Hb.
  eapply on_account; [done| |by apply obj_AddBalance_good|apply view_ok_add; [apply Hr|lia]|done..].
  intros s o Hh. by eapply held_AddBalance.
Qed.
Lemma SubBalance_law c v a x t : chain_reads c v → 0 <= x <= v_bal v a t →
  ∃ c', Transition.SubBalance a x t c = (Ok tt, c') ∧ chain_reads c' (add_bal a t (- x) v) ∧ chain_ext c c'.
Proof.
  intros Hr Hx. eapply on_account; [done| |by apply obj_SubBalance_good|apply view_ok_add; [apply Hr|lia]|done..].
  intros s o Hh. by eapply held_SubBalance.
Qed.

Lemma view_ok_nonce v a n : view_ok v → 0 <= n < 2 ^ 64 → view_ok (with_nonce a n v).
Proof. intros [Hb Hn Hr] Hx. split; [done| |done]. intros b. cbn. specialize (Hn b). case_decide; lia. Qed.
Lemma SetNonce_law c v a n : chain_reads c v → 0 <= n < 2 ^ 64 →
  ∃ c', Transition.SetNonce a n c = (Ok tt, c') ∧ chain_reads c' (with_nonce a n v) ∧ chain_ext c c'.
Proof.
  intros Hr Hn. eapply on_account; [done| |by apply obj_SetNonce_good|apply view_ok_nonce; [apply Hr|done]|done..].
  intros s o Hh. pose proof Hh as [Hl Hd Hw Hs].
  unfold obj_SetNonce, obj_get, journal_append, obj_mod, obj_get. se_red. rewrite Hl. cbn. rewrite Hl.
  eexists. split; [reflexivity|].
  change (shows (upd a (setNonce n o) (appended (nonceChange a (o_nonce o)) s)) (with_nonce a n v)).
  eapply shows_upd; [by apply shows_appended|done| | | |done].
  - intros t. cbn. by eapply held_bal.
  - cbn. by rewrite decide_True.
  - intros b Hne. cbn. by rewrite decide_False.
Qed.
Lemma GetNonce_law c v a : chain_reads c v →
  ∃ c', Transition.GetNonce a c = (Ok (v_nonce v a), c') ∧ chain_reads c' v ∧ chain_ext c c'.
Proof.
  intros Hr. eapply on_account; [done| |by apply good_obj_get_ret|apply Hr|done..].
  intros s o Hh. pose proof Hh as [Hl _ _ Hs]. exists s. unfold obj_get. se_red. rewrite Hl.
  by rewrite (held_nonce _ _ _ _ Hh).
Qed.

(** Operations that do not change what is shown. *)
Lemma held_cached s a o o' v :
  held s a o v → obj_equiv storage_trie contract_code Keccak256Hash a o' o → address o' = address o →
  deleted o' = deleted o → held (upd a o' s) a o' v.
Proof.
  intros [Hl Hd Hw Hs] Hoe Ha Hd'.
  destruct (live_obj_wf _ _ trie_wf _ _ _ Hw (live_live_obj account_trie Keccak256Hash _ _ _ Hl Hd)) as (Haddr&How&_).
  split; [cbn; by rewrite lookup_insert_eq|congruence| |].
  - apply wf_upd; [done|congruence| |congruence]. unfold obj_wf in *. by rewrite (oe_trie _ _ _ _ _ _ Hoe).
  - eapply shows_equiv; [|exact Hs]. etrans; [apply (upd_equiv _ _ _ _ s s a o' o); [done|congruence|done|done]|].
    by rewrite upd_same.
Qed.
Lemma held_change s a o o' e v :
  held s a o v → deleted o' = deleted o → o_balances o' = o_balances o → o_nonce o' = o_nonce o →
  shows (upd a o' (appended e s)) v.
Proof.
  intros Hh Hd' Eb En. eapply shows_upd; [apply shows_appended, Hh|rewrite Hd'; apply Hh| | |done|done].
  - intros t. cbn. rewrite Eb. by eapply held_bal.
  - rewrite En. by eapply held_nonce.
Qed.

Lemma SetState_law c v a k x : chain_reads c v →
  ∃ c', SetState a k x c = (Ok tt, c') ∧ chain_reads c' v ∧ chain_ext c c'.
Proof.
  intros Hr. eapply on_account; [done| |by apply obj_SetState_good|apply Hr|done..].
  intros s o Hh. pose proof Hh as [Hl Hd Hw Hs]. unfold obj_SetState. se_red.
  destruct (obj_GetState_spec _ storage_trie contract_code Keccak256Hash trie_wf s a k Hw ltac:(by exists o)) as (o1&o'&Ho1&->&Hoe&Ha&Hd').
  rewrite Hl in Ho1. injection Ho1 as <-. pose proof (held_cached _ _ _ _ _ Hh Hoe Ha Hd') as Hh'.
  case_bool_decide; [eexists; split; [done|apply Hh']|].
  unfold journal_append, obj_mod, obj_get. se_red. cbn. rewrite lookup_insert_eq.
  eexists. split; [reflexivity|].
  match goal with |- shows ?s' _ => change s' with (upd a (setState k x o')
    (appended (storageChange a k (storage_view storage_trie a o k)) (upd a o' s))) end.
  by eapply held_change.
Qed.

Lemma SetCode_law c v a code : chain_reads c v →
  ∃ c', SetCode a code c = (Ok tt, c') ∧ chain_reads c' v ∧ chain_ext c c'.
Proof.
  intros Hr. eapply on_account; [done| |by apply obj_SetCode_good|apply Hr|done..].
  intros s o Hh. pose proof Hh as [Hl Hd Hw Hs]. unfold obj_SetCode. se_red.
  destruct (obj_Code_spec _ storage_trie contract_code Keccak256Hash trie_wf s a Hw ltac:(by exists o)) as (o1&o'&Ho1&->&Hoe&Ha&Hd'&_).
  rewrite Hl in Ho1. injection Ho1 as <-. pose proof (held_cached _ _ _ _ _ Hh Hoe Ha Hd') as Hh'.
  unfold journal_append, obj_mod, obj_get. se_red. cbn. rewrite lookup_insert_eq. cbn. rewrite lookup_insert_eq.
  eexists. split; [reflexivity|].
  match goal with |- shows ?s' _ => change s' with (upd a (setCode (Keccak256Hash code) (Some code) o')
    (appended (codeChange a (code_view contract_code Keccak256Hash o) (o_codehash o')) (upd a o' s))) end.
  by eapply held_change.
Qed.

Lemma CreateAccount_law c v a : chain_reads c v →
  ∃ c', CreateAccount a c = (Ok tt, c') ∧ chain_reads c' (with_nonce a 0 v) ∧ chain_ext c c'.
Proof.
  intros Hr. pose proof (reads_wf _ _ Hr) as Hwf. pose proof (cr_shows _ _ Hr) as Hs.
  assert (∃ s', StateDB.CreateAccount account_trie Keccak256Hash a (cs_db c) = (Ok tt, s') ∧ shows s' (with_nonce a 0 v))
    as (s'&Hm&Hs').
  { unfold StateDB.CreateAccount, createObject. se_red. rewrite getStateObject_spec by done.
    destruct (live_obj (cs_db c) a) as [o|] eqn:Hl.
    - unfold obj_mod, obj_get, journal_append, setStateObject. se_red. cbn. rewrite lookup_insert_eq.
      eexists. split; [reflexivity|].
      match goal with |- shows ?s' _ => change s' with (upd a (setBalances (GetBalanceMap (o_balances o))
        (SetFullShardKey (o_fullshardkey o) (SetFullShardKey (fullShardKey (cs_db c)) (setNonce 0 (newObject Keccak256Hash a NewAccount)))))
        (upd a (SetFullShardKey (o_fullshardkey o) (SetFullShardKey (fullShardKey (cs_db c)) (setNonce 0 (newObject Keccak256Hash a NewAccount))))
        (appended (resetObjectChange o) (upd a o (cs_db c))))) end.
      rewrite upd_upd. destruct (live_obj_wf _ _ trie_wf _ _ _ Hwf Hl) as (_&_&Hd).
      eapply shows_upd; [apply shows_appended; eapply shows_equiv; [by apply upd_live|exact Hs]|done| | | |done].
      + intros t. cbn. by rewrite <- (sh_bal _ _ Hs a t), Hl.
      + cbn. by rewrite decide_True.
      + intros b Hne. cbn. by rewrite decide_False.
    - eexists. split; [reflexivity|].
      match goal with |- shows ?s' _ => change s' with (upd a (SetFullShardKey (fullShardKey (cs_db c)) (setNonce 0 (newObject Keccak256Hash a NewAccount)))
        (appended (createObjectChange a) (cs_db c))) end.
      eapply shows_upd; [by apply shows_appended|done| | | |done].
      + intros t. cbn. rewrite lookup_empty. by rewrite <- (sh_bal _ _ Hs a t), Hl.
      + cbn. by rewrite decide_True.
      + intros b Hne. cbn. by rewrite decide_False. }
  destruct (journalled _ c v tt s' (with_nonce a 0 v) Hr Hm) as (c'&?&?&?&_); try done.
  - by apply CreateAccount_good.
  - apply view_ok_nonce; [apply Hr|lia].
  - by exists c'.
Qed.

Lemma GetCodeHash_law c v a : chain_reads c v →
  ∃ h c', GetCodeHash a c = (Ok h, c') ∧ 0 <= h ∧ chain_reads c' v ∧ chain_ext c c' ∧ chain_equiv c' c.
Proof.
  intros Hr. destruct (peek (fun o => match o with None => 0 | Some o => o_codehash o end) a _ (reads_wf _ _ Hr)) as (s'&Hm&He).
  destruct (read_only (h ← StateDB.GetCodeHash account_trie Keccak256Hash a; mret (BigToHash h)) c v
    (BigToHash (match live_obj (cs_db c) a with None => 0 | Some o => o_codehash o end)) s' Hr) as (c'&E&?&?&?).
  - unfold StateDB.GetCodeHash. revert Hm. se_red. by intros ->.
  - done.
  - apply good_bind; [|intros; apply good_ret]. apply peek_good.
  - eexists _, c'. split_and!; [exact E| |done|done|done]. apply Z.mod_pos_bound. lia.
Qed.

Definition drained (a : Z) (v : view) : view :=
  mkView (fun b t => if decide (b = a) then 0 else v_bal v b t) (v_nonce v) (v_refund v) (v_gasUsed v) (v_fee v) (v_xlist v).

Lemma Suicide_law c v a : chain_reads c v →
  ∃ b v' c', Suicide a c = (Ok b, c') ∧ chain_reads c' v' ∧ chain_ext c c'.
Proof.
  intros Hr. pose proof (reads_wf _ _ Hr) as Hwf. pose proof (cr_shows _ _ Hr) as Hs. pose proof (cr_ok _ _ Hr) as [Hb Hn Href].
  assert (∃ b s' v', StateDB.Suicide account_trie Keccak256Hash a (cs_db c) = (Ok b, s') ∧ shows s' v' ∧ view_ok v'
    ∧ v_gasUsed v' = v_gasUsed v ∧ v_fee v' = v_fee v ∧ v_xlist v' = v_xlist v) as (b&s'&v'&Hm&Hs'&Hok&E1&E2&E3).
  { unfold StateDB.Suicide. se_red. rewrite getStateObject_spec by done.
    destruct (live_obj (cs_db c) a) as [o|] eqn:Hl; [|by eexists _, _, v].
    destruct (live_obj_wf _ _ trie_wf _ _ _ Hwf Hl) as (Ha&Hw&Hd).
    unfold journal_append, obj_mod, obj_get. se_red. cbn. rewrite lookup_insert_eq. cbn. rewrite lookup_insert_eq.
    eexists true, _, (drained a v). split; [reflexivity|].
    split_and!; [|split; cbn; [intros b' t; case_decide; [lia|apply Hb]|done|done]|done..].
    match goal with |- shows ?s' _ => change s' with (upd a (with_balances (mkTB true None ∅) (with_suicided true o))
      (upd a (with_suicided true o) (appended (suicideChange a (suicided o) (GetBalanceMap (o_balances o))) (upd a o (cs_db c))))) end.
    rewrite upd_upd. eapply shows_upd; [apply shows_appended; eapply shows_equiv; [by apply upd_live|exact Hs]|done| | | |done].
    - intros t. cbn. by rewrite lookup_empty, decide_True.
    - cbn. rewrite <- (sh_nonce _ _ Hs a). by rewrite Hl.
    - intros b' Hne. cbn. split; [|done]. intros t. by rewrite decide_False. }
  destruct (journalled _ c v b s' v' Hr Hm) as (c'&?&?&?&_); try done.
  - by apply Suicide_good.
  - intros t. by rewrite E2.
  - by exists b, v', c'.
Qed.

Lemma AddRefund_law c v g : chain_reads c v →
  ∃ c', AddRefund g c = (Ok tt, c') ∧ chain_reads c' (with_refund (u64 (v_refund v + g)) v) ∧ chain_ext c c'.
Proof.
  intros Hr. pose proof (cr_shows _ _ Hr) as [Hb Hn Href]. pose proof (cr_ok _ _ Hr) as [Hb' Hn' Hr'].
  destruct (journalled (StateDB.AddRefund g) c v tt (StateDB.AddRefund g (cs_db c)).2 (with_refund (u64 (v_refund v + g)) v) Hr)
    as (c'&?&?&?&_); try done.
  - by apply AddRefund_good.
  - split; [done|done|]. change (u64 (StateDB.refund (cs_db c) + g) = u64 (v_refund v + g)). by rewrite Href.
  - split; [done|done|]. apply u64_in.
  - by exists c'.
Qed.
Lemma SubRefund_law c v r : chain_reads c v → 0 <= r <= v_refund v →
  ∃ c', SubRefund r c = (Ok tt, c') ∧ chain_reads c' (with_refund (v_refund v - r) v) ∧ chain_ext c c'.
Proof.
  intros Hr Hle. pose proof (cr_shows _ _ Hr) as [Hb Hn Href]. pose proof (cr_ok _ _ Hr) as [Hb' Hn' Hr'].
  destruct (journalled (StateDB.SubRefund r) c v tt (StateDB.SubRefund r (cs_db c)).2 (with_refund (v_refund v - r) v) Hr)
    as (c'&?&?&?&_); try done.
  - unfold StateDB.SubRefund. se_red. cbn. rewrite bool_decide_false by (rewrite Href; lia). done.
  - by apply SubRefund_good.
  - unfold StateDB.SubRefund. se_red. cbn. rewrite bool_decide_false by (rewrite Href; lia).
    split; [done|done|]. change (StateDB.refund (cs_db c) - r = v_refund v - r). by rewrite Href.
  - split; [done|done|]. cbn. lia.
  - by exists c'.
Qed.
Lemma AddLog_law c v a ts d n : chain_reads c v →
  ∃ c', AddLog a ts d n c = (Ok tt, c') ∧ chain_reads c' v ∧ chain_ext c c'.
Proof.
  intros Hr. pose proof (cr_shows _ _ Hr) as [Hb Hn Href].
  destruct (journalled (StateDB.AddLog (mkLog a ts d n 0 0 0 0)) c v tt (StateDB.AddLog (mkLog a ts d n 0 0 0 0) (cs_db c)).2 v Hr)
    as (c'&?&?&?&_); try done.
  - by apply AddLog_good.
  - apply Hr.
  - by exists c'.
Qed.
Lemma AddPreimage_law c v h d : chain_reads c v →
  ∃ c', AddPreimage h d c = (Ok tt, c') ∧ chain_reads c' v ∧ chain_ext c c'.
Proof.
  intros Hr. pose proof (cr_shows _ _ Hr) as [Hb Hn Href].
  assert (∃ s', StateDB.AddPreimage h d (cs_db c) = (Ok tt, s') ∧ shows s' v) as (s'&Hm&Hs').
  { unfold StateDB.AddPreimage. se_red. case_match; (eexists; split; [reflexivity|]); by split. }
  destruct (journalled _ c v tt s' v Hr Hm) as (c'&?&?&?&_); try done.
  - by apply AddPreimage_good.
  - apply Hr.
  - by exists c'.
Qed.

(** *** Snapshots *)
Lemma chain_ext_trans c1 c2 c3 : chain_ext c1 c2 → chain_ext c2 c3 → chain_ext c1 c3.
Proof.
  intros [H12 E12] [H23 E23]. split; [|congruence]. intros P G HG. destruct (H12 P G HG) as [G1 HG1]. destruct (H23 _ _ HG1) as [G2 HG2].
  exists (G1 ++ G2). by rewrite app_assoc.
Qed.

Lemma Snapshot_law c v : chain_reads c v →
  ∃ id c', Snapshot c = (Ok id, c') ∧ chain_reads c' v ∧ chain_ext c c' ∧ chain_equiv c' c
    ∧ ∀ c2 v2, chain_ext c' c2 → chain_reads c2 v2 →
      ∃ c3, RevertToSnapshot id c2 = (Ok tt, c3) ∧ chain_equiv c3 c ∧ chain_reads c3 (restored v v2) ∧ chain_ext c c3.
Proof.
  intros Hr. pose proof (cr_inv _ _ Hr) as (P & G & HG).
  destruct (Inv_snapshot _ _ _ _ _ _ _ HG) as (s'&E&HG'&Hn).
  assert (state_equiv s' (cs_db c)) as He.
  { unfold StateDB.Snapshot in E. se_red_in E. injection E as <-. by split. }
  exists (nextRevisionId (cs_db c)), (mkChain s' (cs_gasUsed c) (cs_blockFee c) (cs_xShardList c) (cs_block c)).
  assert (∀ P0 G0, Inv P0 G0 (cs_db c) → Inv P0 (G0 ++ [(nextRevisionId (cs_db c), cs_db c)]) s') as Hsnap.
  { intros P0 G0 HG0. destruct (Inv_snapshot _ _ _ _ _ _ _ HG0) as (s1&E1&HG1&_). rewrite E in E1. injection E1 as <-. done. }
  split_and!.
  - cbn. unfold on_db. by rewrite E.
  - destruct Hr as [_ Hs Hok Hg Hf Hl]. split; try done; [by eexists _, _|]. by eapply shows_equiv.
  - split; [|done]. intros P0 G0 HG0. eexists. by apply Hsnap.
  - done.
  - intros c2 v2 [Hx2 Ex2] Hr2.
    assert (∀ P0 G0, Inv P0 G0 (cs_db c) → ∃ s3, StateDB.RevertToSnapshot account_trie Keccak256Hash (nextRevisionId (cs_db c)) (cs_db c2) = (Ok tt, s3)
      ∧ state_equiv s3 (cs_db c) ∧ Inv P0 G0 s3) as Hrev.
    { intros P0 G0 HG0. destruct (Hx2 _ _ (Hsnap _ _ HG0)) as [G2 HG2]. rewrite <- app_assoc in HG2. cbn in HG2.
      destruct (Inv_revert _ _ _ _ _ _ _ _ _ _ HG2) as (s3&E3&He3&_&HG3&_). by exists s3. }
    destruct (Hrev _ _ HG) as (s3&E3&He3&HG3).
    exists (mkChain s3 (cs_gasUsed c2) (cs_blockFee c2) (cs_xShardList c2) (cs_block c2)). split_and!.
    + cbn. unfold on_db. by rewrite E3.
    + done.
    + destruct Hr as [_ Hs [Hok1 Hok2 Hok3] _ _ _]. destruct Hr2 as [_ _ _ Hg Hf Hl].
      split; try done; [by eexists _, _|]. destruct (shows_equiv _ _ _ He3 Hs) as [? ? ?]. by split.
    + split; [|exact Ex2]. intros P0 G0 HG0. exists []. rewrite app_nil_r. destruct (Hrev _ _ HG0) as (s3'&E3'&_&HG3'). rewrite E3 in E3'.
      by injection E3' as <-.
Qed.

(** ** The laws *)
#[export] Instance chain_laws : StateLaws ChainState.
Proof.
  refine {| reads := chain_reads |}.
  - intros c v a t Hr. destruct (GetBalance_law c v a t Hr) as (c'&?&?&_). by exists c'.
  - intros c v a Hr. destruct (GetNonce_law c v a Hr) as (c'&?&?&_). by exists c'.
  - intros c v Hr. exists c. cbn. unfold on_db, StateDB.GetRefund. se_red. rewrite (sh_refund _ _ (cr_shows _ _ Hr)).
    by destruct c.
  - intros c v Hr. exists c. cbn. unfold chain_GetGasUsed. se_red. by rewrite (cr_gas _ _ Hr).
  - intros c v a x t Hr Hx. destruct (AddBalance_law c v a x t Hr Hx) as (c'&?&?&_). by exists c'.
  - intros c v a x t Hr Hx. destruct (SubBalance_law c v a x t Hr Hx) as (c'&?&?&_). by exists c'.
  - intros c v a n Hr Hn. destruct (SetNonce_law c v a n Hr Hn) as (c'&?&?&_). by exists c'.
  - intros c v r Hr Hx. destruct (SubRefund_law c v r Hr Hx) as (c'&?&?&_). by exists c'.
  - intros c v t x [Hi [Hs1 Hs2 Hs3] [Ho1 Ho2 Ho3] Hg Hf Hl]. eexists. split; [reflexivity|]. split; try done.
    intros t'. cbn. rewrite <- Hf. case_decide as E.
    + subst. rewrite lookup_insert_eq. cbn. lia.
    + rewrite lookup_insert_ne by done. lia.
  - intros c v g [Hi [Hs1 Hs2 Hs3] [Ho1 Ho2 Ho3] Hg Hf Hl]. eexists. split; [reflexivity|]. split; try done.
    cbn. by rewrite Hg.
  - intros c v d [Hi [Hs1 Hs2 Hs3] [Ho1 Ho2 Ho3] Hg Hf Hl]. eexists. split; [reflexivity|]. split; try done.
    cbn. by rewrite Hl.
  - intros c v [_ _ [_ Hn Href] _ _ _]. by split.
Defined.

#[export] Instance chain_vm_laws : VmLaws ChainState.
Proof.
  refine {| ext := chain_ext; equiv := chain_equiv |}.
  - intros c. split; [|done]. intros G HG. exists []. by rewrite app_nil_r.
  - apply chain_ext_trans.
  - unfold chain_equiv. split.
    + by intros c.
    + by intros c1 c2 ?.
    + intros c1 c2 c3 ? ?. by etrans.
  - intros c v a t Hr. apply (cr_ok _ _ Hr).
  - intros c c' v v' [_ E] [_ _ _ Hg Hf Hl] [_ _ _ Hg' Hf' Hl']. injection E as Eg Ef El. rewrite <- Hg, <- Hg', <- Hl, <- Hl'.
    split_and!; [done| |done]. intros t. by rewrite <- Hf, <- Hf', Ef.
  - intros c v a t Hr. destruct (GetBalance_law c v a t Hr) as (c'&?&?&?&_). by exists c'.
  - apply GetNonce_law.
  - apply AddBalance_law.
  - apply SubBalance_law.
  - apply SetNonce_law.
  - apply CreateAccount_law.
  - intros c v a Hr. destruct (GetCodeHash_law c v a Hr) as (h&c'&?&?&?&?&_). by exists h, c'.
  - intros c v a Hr. destruct (GetCode_law c v a Hr) as (x&c'&?&?&?&?&_). by exists x, c'.
  - apply SetCode_law.
  - intros c v a Hr. destruct (peek_law (fun o => match o with
        | None => 0
        | Some o => match o_code o with
            | Some c => Z.of_nat (length c)
            | None => match contract_code (o_codehash o) with Some c => Z.of_nat (length c) | None => 0 end
            end end) a c v Hr) as (x&c'&?&?&?&_). by exists x, c'.
  - apply AddRefund_law.
  - apply GetState_law.
  - apply SetState_law.
  - apply Suicide_law.
  - intros c v a Hr. destruct (peek_law (fun o => match o with None => false | Some o => suicided o end) a c v Hr)
      as (x&c'&?&?&?&_). by exists x, c'.
  - intros c v a Hr. destruct (peek_law (fun o => bool_decide (is_Some o)) a c v Hr) as (x&c'&?&?&?&_). by exists x, c'.
  - intros c v a Hr. destruct (peek_law (fun o => match o with None => true | Some o => obj_empty Keccak256Hash o end) a c v Hr)
      as (x&c'&?&?&?&_). by exists x, c'.
  - apply AddLog_law.
  - apply AddPreimage_law.
  - intros c c' v v' a t He Hr Hr'. rewrite <- (sh_bal _ _ (shows_equiv _ _ _ He (cr_shows _ _ Hr'))).
    symmetry. apply Hr.
  - intros c v a t Hr. destruct (GetBalance_law c v a t Hr) as (c'&->&_&_&?). done.
  - intros c v a Hr. destruct (GetCodeHash_law c v a Hr) as (h&c'&->&_&_&_&?). done.
  - intros c v a Hr. destruct (GetCode_law c v a Hr) as (x&c'&->&_&_&_&?). done.
  - intros c v Hr. destruct (Snapshot_law c v Hr) as (id&c'&->&_&_&?&_). done.
  - intros c v Hr. destruct (Snapshot_law c v Hr) as (id&c'&?&?&?&_&Hrev). by exists id, c'.
Defined.

(** ** A state fresh from the trie *)
Definition fresh_chain : ChainState := mkChain (mkState ∅ ∅ 0 0 0 0 ∅ 0 ∅ [] ∅ [] 0 0) 0 ∅ [] (mkFields 1000000 9 1 1 ∅).
Definition fresh_view : view :=
  mkView (fun a t => obj_bal (newObject Keccak256Hash a <$> account_trie a) t) (fun a => obj_nonce (newObject Keccak256Hash a <$> account_trie a))
    0 0 (fun _ => 0) [].
Lemma fresh_reads : view_ok fresh_view → chain_reads fresh_chain fresh_view.
Proof.
  intros Hok. split; [| |done|done|done|done].
  - exists [], []. split; try constructor; cbn.
    + intros a o Ha. by rewrite lookup_empty in Ha.
    + constructor.
  - by split.
Qed.
End state.
