(* ===== verification/EvmCorrect.v ===== *)
(** * core/vm: what the machine guarantees

    The theorems about the whole virtual machine, for any state that keeps the
    laws of EvmLaws.v: every entry returns, a failed one changes nothing, each
    turn of the interpreter keeps the stack discipline of the jump table, and
    the machine keeps the contract that the state transition is proved against.
    The examples run the machine on the StateDB of EvmState.v; two of them show
    defects of precompiled contracts. *)

From S2P Require Import Prelude Utils Account Blocks XShardCursor Consensus TokenBalances StateDB StateDBCorrect Transition TransitionCorrect EvmBase EvmOps EvmRun EvmLaws EvmInstr EvmStep EvmCalls EvmState.

Local Open Scope Z_scope.

(** ** The entries that run a contract *)
Inductive entry :=
| EnterCall (r : ContractRef) (a : Z) (input : list Z) (g value : Z)
| EnterCallCode (r : ContractRef) (a : Z) (input : list Z) (g value : Z)
| EnterDelegateCall (me ca value : Z) (a : Z) (input : list Z) (g : Z)
| EnterStaticCall (r : ContractRef) (a : Z) (input : list Z) (g : Z).

Definition enter {St} (calls : Calls St) (x : entry) : SE (Machine St) call_result :=
  match x with
  | EnterCall r a i g v => c_Call calls r a i g v
  | EnterCallCode r a i g v => c_CallCode calls r a i g v
  | EnterDelegateCall me ca v a i g => c_DelegateCall calls (ContractOf me ca v) a i g
  | EnterStaticCall r a i g => c_StaticCall calls r a i g
  end.
Definition entry_gas (x : entry) : Z :=
  match x with
  | EnterCall _ _ _ g _ | EnterCallCode _ _ _ g _ | EnterDelegateCall _ _ _ _ _ g | EnterStaticCall _ _ _ g => g
  end.
(** Addresses and amounts are not negative, the input is a slice, the gas is
    what a block can hold. *)
Definition entry_ok (x : entry) : Prop :=
  match x with
  | EnterCall r a i g v | EnterCallCode r a i g v => ref_ok r ∧ 0 <= a ∧ data_ok i ∧ 0 <= v
  | EnterDelegateCall me ca v a i g => ref_ok (ContractOf me ca v) ∧ 0 <= a ∧ data_ok i
  | EnterStaticCall r a i g => ref_ok r ∧ 0 <= a ∧ data_ok i
  end ∧ 0 <= entry_gas x < max_gas.

Section correct.
Context `{EthMathLaws} {St : Type} `{VmLaws St} `{Crypto}.
Context (env : VmEnv) (Keccak256Hash : list Z → Z) (Henv : env_sensible env Keccak256Hash).
Context (Hcrypto : crypto_sensible).
Context (CreateAddress : Z → option Z → Z → Z) (CreateAddress2 : Z → Z → list Z → Z).
Context (HAddress : ∀ a k x, 0 <= CreateAddress a k x) (HAddress2 : ∀ a s h, 0 <= CreateAddress2 a s h).
Abbreviation machine := (evm_calls env Keccak256Hash CreateAddress CreateAddress2).

Lemma enter_ok k x e :
  entry_ok x → machine_ok e → 2 * entry_gas x + 3 <= Z.of_nat k → call_ok env (enter (machine k) x) e (entry_gas x).
Proof.
  intros [Hx Hg] He Hk.
  pose proof (evm_calls_ok env Keccak256Hash Henv Hcrypto CreateAddress CreateAddress2 HAddress HAddress2 k) as Hok.
  assert (∀ a, enough (Z.of_nat k) (entry_gas x) a) as Hn by (intros a; unfold enough; case_bool_decide; lia).
  destruct x; cbn [enter entry_gas] in *; destruct_and! Hx.
  - by apply (ok_Call _ _ _ Hok).
  - by apply (ok_CallCode _ _ _ Hok).
  - by apply (ok_DelegateCall _ _ _ Hok).
  - by apply (ok_StaticCall _ _ _ Hok).
Qed.

(** C1: running a contract ends.  With two levels of fuel per unit of gas every
    entry of the machine (Call, CallCode, DelegateCall, StaticCall) gives a
    result, never an error outside the result and never for want of fuel: no
    more gas is left than was given, the machine is in order, and its depth,
    its read-only mode and its transfer token are what they were.  The only
    panics are the two of the precompiled contracts that deploy system
    contracts and read balances. *)
Theorem evm_entries_return k x e :
  entry_ok x → machine_ok e → 2 * entry_gas x + 3 <= Z.of_nat k →
  match enter (machine k) x e with
  | (Ok (ret, left_, err), e') =>
      nonneg ret ∧ 0 <= left_ <= entry_gas x ∧ machine_ok e' ∧ same_machine e e'
  | (Err _, _) => False
  | (Panic p, _) => known_panic env p ∧ p ≠ "fuel"%string
  end.
Proof.
  intros Hx He Hk. pose proof (enter_ok k x e Hx He Hk) as Hok. unfold call_ok in Hok.
  destruct (enter _ x e) as [[[[ret left_] err]|er|p] e']; [by destruct_and! Hok|done|].
  split; [done|]. intros ->. by destruct Hok as [[_ ?]|[_ ?]].
Qed.


(** C5: each turn of the interpreter obeys the jump table.  From a frame in
    order, with fuel for the calls, a turn either panics in one of the two ways
    known of the precompiled contracts, or gives a result, in which every error
    of the machine is: it stops the run, or it goes on with strictly less gas and
    a stack that lost exactly the operands and gained exactly the results of the
    opcode's row, had those operands, and is within the limit; the frame stays in
    order and the contract keeps its identity, code and input. *)
Theorem interpreter_turn_typed k f :
  frame_ok f → 2 * c_Gas (f_contract f) + 1 <= Z.of_nat k →
  match step env Keccak256Hash (machine k) f with
  | (Ok None, f') =>
      frame_ok f' ∧ same_frame f f' ∧ c_Gas (f_contract f') < c_Gas (f_contract f)
      ∧ ∃ o, JumpTable env Keccak256Hash (machine k) (GetOp (f_contract f) (f_pc f)) = Some o
        ∧ (stack_pops o ≤ length (f_stack f))%nat
        ∧ (length (f_stack f') + stack_pops o = length (f_stack f) + stack_pushes o)%nat
        ∧ Z.of_nat (length (f_stack f')) <= StackLimit (vparams env)
  | (Ok (Some (ret, _)), f') => frame_ok f' ∧ same_frame f f' ∧ nonneg ret
  | (Err _, _) => False
  | (Panic p, _) => known_panic env p ∧ p ≠ "fuel"%string
  end.
Proof.
  intros Hf Hk.
  pose proof (evm_calls_ok env Keccak256Hash Henv Hcrypto CreateAddress CreateAddress2 HAddress HAddress2 k) as Hok.
  pose proof (step_ok env Keccak256Hash Henv (machine k) (Z.of_nat k) Hok f Hf Hk) as Hs. unfold hoare in Hs.
  destruct (step _ _ _ f) as [[[[ret err]|]|er|p] f'] eqn:E.
  - by destruct_and! Hs.
  - destruct Hs as (?&?&_&?&Ho). by split_and!.
  - by apply (step_never_errs env Keccak256Hash Henv (machine k) (Z.of_nat k) Hok) in E.
  - split; [done|]. intros ->. by destruct Hs as [[_ ?]|[_ ?]].
Qed.

(** The entries of a transaction, as the state transition calls them. *)
Lemma tx_Create_ok k token from data g value o s v :
  0 <= from → nonneg data → 0 <= value → (∀ a, o = Some a → 0 <= a) → reads s v →
  0 <= g < max_gas → 2 * g + 3 <= Z.of_nat k →
  match tx_Create env Keccak256Hash CreateAddress CreateAddress2 k token from data g value o s with
  | (Ok (_, left_, _), s') => 0 <= left_ <= g ∧ ∃ v', reads s' v' ∧ same_counters v v'
  | (Err _, _) => False
  | (Panic p, _) => known_panic env p
  end.
Proof.
  intros Hfrom Hdata Hval Ho Hs Hg Hk. unfold tx_Create, with_evm. se_red.
  pose proof (evm_calls_ok env Keccak256Hash Henv Hcrypto CreateAddress CreateAddress2 HAddress HAddress2 k) as Hok.
  assert (machine_ok (NewEVM s token)) as Hnew by (split; [by exists v|constructor|done]).
  pose proof (ok_Create _ _ _ Hok (AccountRef from) data g value o (NewEVM s token)
    Hfrom Hdata Hg Hval Ho Hnew Hk) as Hc. unfold create_ok in Hc.
  destruct (c_Create _ _ _ _ _ _ _) as [[[[[ret addr] left_] err]|er|p] e']; [|done|done].
  destruct Hc as (_&_&?&He'&Hsm). split; [done|]. destruct (ma_reads _ He') as [v' Hv']. exists v'. split; [done|].
  by apply (ext_counters s (m_state e') v v' (sm_ext _ _ Hsm)).
Qed.
Lemma tx_Call_ok k token from to data g value s v :
  0 <= from → 0 <= to → data_ok data → 0 <= value → reads s v →
  0 <= g < max_gas → 2 * g + 3 <= Z.of_nat k →
  match tx_Call env Keccak256Hash CreateAddress CreateAddress2 k token from to data g value s with
  | (Ok (_, left_, vmerr), s') =>
      0 <= left_ <= g ∧ ∃ v', reads s' v' ∧ same_counters v v' ∧ (vmerr ≠ None → ∀ a t, v_bal v' a t = v_bal v a t)
  | (Err _, _) => False
  | (Panic p, _) => known_panic env p
  end.
Proof.
  intros Hfrom Hto Hdata Hval Hs Hg Hk. unfold tx_Call, with_evm.
  pose proof (evm_calls_ok env Keccak256Hash Henv Hcrypto CreateAddress CreateAddress2 HAddress HAddress2 k) as Hok.
  assert (machine_ok (NewEVM s token)) as Hnew by (split; [by exists v|constructor|done]).
  pose proof (ok_Call _ _ _ Hok (AccountRef from) to data g value (NewEVM s token)
    Hfrom Hto Hdata Hg Hval Hnew ltac:(unfold enough; case_bool_decide; lia)) as Hc. unfold call_ok in Hc.
  destruct (c_Call _ _ _ _ _ _ _) as [[[[ret left_] err]|er|p] e']; [|done|done].
  destruct Hc as (_&?&He'&Hsm&Hs'). split; [done|]. destruct (ma_reads _ He') as [v' Hv'].
  exists v'. split; [done|]. split; [by apply (ext_counters s (m_state e') v v' (sm_ext _ _ Hsm))|]. intros Herr a t. by apply (equiv_bal (m_state e') s v' v a t (Hs' Herr)).
Qed.

(** The contract of the transition, for a message in range. *)
Lemma tx_contract k token (ctx : Context) (msg : Message) :
  0 <= msg_from msg → (∀ a, msg_to msg = Some a → 0 <= a) → (∀ a, ContractAddress ctx = Some a → 0 <= a) →
  data_ok (msg_data msg) → 0 <= msg_value msg → msg_gas msg < max_gas → 2 * msg_gas msg + 3 <= Z.of_nat k →
  evm_ok ctx msg
    (tx_Create env Keccak256Hash CreateAddress CreateAddress2 k token)
    (tx_Call env Keccak256Hash CreateAddress CreateAddress2 k token) (known_panic env).
Proof.
  intros Hfrom Hto Hca Hdata Hval Hgas Hk. split.
  - intros g s v Hs Hg. apply (tx_Create_ok k token _ _ _ _ _ s v); [done|apply Hdata|done..|lia|lia].
  - intros to g s v Ht Hs Hg. apply (tx_Call_ok k token); [done|by apply Hto|done..|lia|lia].
Qed.
End correct.

(** ** The machine over the StateDB

    The laws of EvmLaws.v hold of a StateDB whose accounts have no token tries:
    a revert drops those (StateDBCorrect.v). *)
Section statedb.
Context `{EthMathLaws} `{SecureTrie tr, Rlp} `{Crypto}.
Context (token_tries : heap tr) (account_trie : Z → option Account).
Context (storage_trie : Z → Z → Z → Z) (contract_code : Z → option (list Z)).
Context (env : VmEnv) (Keccak256Hash : list Z → Z) (Henv : env_sensible env Keccak256Hash).
Context (Hcrypto : crypto_sensible).
Context (CreateAddress : Z → option Z → Z → Z) (CreateAddress2 : Z → Z → list Z → Z).
Context (HAddress : ∀ a k x, 0 <= CreateAddress a k x) (HAddress2 : ∀ a s h, 0 <= CreateAddress2 a s h).
Context (Htries : no_token_tries account_trie).
Local Instance db_ops : StateOps ChainState := chain_ops token_tries account_trie Keccak256Hash.
Local Instance db_vm : VmState ChainState := chain_vm token_tries account_trie storage_trie contract_code Keccak256Hash.
Local Instance db_laws : StateLaws ChainState :=
  chain_laws token_tries account_trie storage_trie contract_code Keccak256Hash Htries.
Local Instance db_vm_laws : VmLaws ChainState :=
  chain_vm_laws token_tries account_trie storage_trie contract_code Keccak256Hash Htries.
Abbreviation machine := (evm_calls env Keccak256Hash CreateAddress CreateAddress2).
Abbreviation db_Create := (tx_Create env Keccak256Hash CreateAddress CreateAddress2).
Abbreviation db_Call := (tx_Call env Keccak256Hash CreateAddress CreateAddress2).


(** C4: the virtual machine keeps the contract the state transition relies on, on
    a StateDB whose accounts have no token tries.  For a message with addresses,
    value and gas in range, and fuel for its gas, the entries TransitionDb uses
    return with no more gas than they got and leave a state with the counters of
    the block (gas used, fees, deposits for other shards) as they were; a failed
    call has moved no balance; the panics are the known ones.  So the theorems
    about TransitionDb hold for transactions that run contracts. *)
Theorem evm_refines_contract k token (ctx : Context) (msg : Message) :
  0 <= msg_from msg → (∀ a, msg_to msg = Some a → 0 <= a) → (∀ a, ContractAddress ctx = Some a → 0 <= a) →
  data_ok (msg_data msg) → 0 <= msg_value msg → msg_gas msg < max_gas → 2 * msg_gas msg + 3 <= Z.of_nat k →
  evm_ok ctx msg (db_Create k token) (db_Call k token) (known_panic env).
Proof. by apply tx_contract. Qed.

(** C6: a call that fails costs its gas and nothing else, with the machine over a
    StateDB whose accounts have no token tries.  When the transition of a call
    within the shard (not one that creates a contract for a deposit) reports
    failure, every balance of every token is what it was, except that the sender
    paid for the gas of the message in the gas token at its price there, got the
    refund rate's share of the price of the unused gas back in the default token,
    the zero address got the rest of that price, and the coinbase the fee of the
    gas used; whatever the called contracts moved before the failure is undone. *)
Theorem failed_call_costs_gas k tok params config (ctx : Context) (msg : Message) contract_address gp s v to ret used st' :
  sensible params config ctx msg →
  0 <= msg_from msg → (∀ a, msg_to msg = Some a → 0 <= a) →
  data_ok (msg_data msg) → msg_gas msg < max_gas → 2 * msg_gas msg + 3 <= Z.of_nat k →
  IsApplyXShard ctx = false → msg_isCrossShard msg = false →
  msg_to msg = Some to → ContractAddress ctx = None → reads s v → 0 <= gp <= max_u64 →
  TransitionDb params config ctx msg (db_Create k tok) (db_Call k tok) contract_address (mkTransition gp 0 0 s)
    = (Ok (ret, used, true), st') →
  let unused := (msg_gas msg - used) * msg_gasPrice msg in
  let share := unused * msg_refundRate msg / 100 in
  let token := DefaultChainTokenID config in
  ∃ v', reads (st_state st') v' ∧ ∀ a t,
    v_bal v' a t = v_bal v a t
      - (if decide (a = msg_from msg ∧ t = ctx_GasTokenID ctx) then msg_gas msg * GasPriceInGasToken ctx else 0)
      + (if decide (a = msg_from msg ∧ t = token) then share else 0)
      + (if decide (a = 0 ∧ t = token) then unused - share else 0)
      + (if decide (a = Coinbase ctx ∧ t = token)
         then BigIntMulBigRat (used * msg_gasPrice msg) (LocalFeeRate config) else 0).
Proof.
  intros Hsen Hfrom Hto' Hdata Hgas Hk Hx Hc Hto Hca Hs Hgp Hok.
  refine (failed_call_balances params config ctx msg _ _ _ (known_panic env) Hsen gp s v to ret used st' _ Hx Hc Hto Hca Hs Hgp Hok).
  apply tx_contract; try done; [|by apply Hsen]. by rewrite Hca.
Qed.
End statedb.

(** ** A small StateDB *)
Definition demo_params : VmParams :=
  mkVmParams 1024 1024 24576 3 512 3 20000 5000 5000 15000 375 375 8 30 6 32000 32000 200 25000 9000 2300 24000 1
    3000 12 60 120 600 3 15 20 500 40000 100000 80000.
Definition demo_table : GasTable := mkGasTable 700 700 400 400 200 700 5000 50 25000.
(** Every fork is on; the precompiled contracts of native tokens are enabled at
    time 0, the block is at time 1. *)
Definition demo_env : VmEnv :=
  mkVmEnv demo_params demo_table true true true true true false false 7 1 9 1000000 1 1 1 None false
    (fun n => 0) 1 1 1 ∅ (fun _ => 0) (fun _ => []) (fun _ => 0).
#[export] Instance demo_crypto : Crypto := {|
  sha256 d := [0]; ripemd160 d := [0]; ValidateSignatureValues _ _ _ := false; Ecrecover _ _ := None;
  G1 := unit; G2 := unit; G1_Unmarshal _ := None; G2_Unmarshal _ := None; G1_Add _ _ := tt;
  G1_ScalarMult _ _ := tt; G1_Marshal _ := []; PairingCheck _ _ := false;
|}.
Definition demo_CreateAddress (a : Z) (k : option Z) (n : Z) : Z := 1000 + Z.abs n.
Definition demo_CreateAddress2 (a s : Z) (h : list Z) : Z := 2000.

(** An account 7 that owns tokens 1 and 2, and two contracts that own token 1. *)
Definition demo_trie (a : Z) : option Account :=
  match a with
  | 7 => Some (mkAccount 3 (mkTB true None {[ 1 := 100000; 2 := 50 ]}) 0 None 0)
  | 50 => Some (mkAccount 1 (mkTB true None {[ 1 := 100 ]}) 0 (Some 550) 0)
  | 51 => Some (mkAccount 1 (mkTB true None {[ 1 := 100 ]}) 0 (Some 551) 0)
  | _ => None
  end.
(** 550 calls the precompiled contract that transfers tokens: 5 of token 1 to
    address 60.  551 stores 7 at key 3 and reverts. *)
Definition demo_code (hash : Z) : option (list Z) :=
  match hash with
  | 550 => Some [96; 60; 96; 0; 82; 96; 1; 96; 32; 82; 96; 5; 96; 64; 82;
                 96; 0; 96; 0; 96; 96; 96; 0; 96; 0; 100; 81; 75; 67; 0; 2; 98; 1; 0; 0; 241; 0]
  | 551 => Some [96; 7; 96; 3; 85; 96; 0; 96; 0; 253]
  | _ => None
  end.
Definition demo_storage (a root key : Z) : Z := 0.

#[local] Instance demo_ops : StateOps ChainState := chain_ops no_tries demo_trie sample_keccak.
#[local] Instance demo_vm : VmState ChainState := chain_vm no_tries demo_trie demo_storage demo_code sample_keccak.
Lemma demo_trie_wf a acc : demo_trie a = Some acc → tokenTrie (Balances acc) = None.
Proof. unfold demo_trie. intros Ha. repeat case_match; by simplify_eq. Qed.
#[local] Instance demo_laws : StateLaws ChainState :=
  chain_laws no_tries demo_trie demo_storage demo_code sample_keccak demo_trie_wf.
#[local] Instance demo_vm_laws : VmLaws ChainState :=
  chain_vm_laws no_tries demo_trie demo_storage demo_code sample_keccak demo_trie_wf.
Abbreviation demo_machine := (evm_calls demo_env sample_keccak demo_CreateAddress demo_CreateAddress2).
Definition demo_start : Machine ChainState := NewEVM fresh_chain 1.
Definition balance_of (a t : Z) (c : ChainState) : result Z := (Transition.GetBalance a t c).1.

Lemma demo_view_ok : view_ok (fresh_view demo_trie sample_keccak).
Proof.
  split; cbn; [intros a t|intros a|done]; unfold demo_trie; repeat case_match; cbn; try done.
  all: try (rewrite lookup_singleton; by case_decide).
  rewrite lookup_insert. case_decide; [done|]. rewrite lookup_singleton. by case_decide.
Qed.
Lemma demo_reads : reads fresh_chain (fresh_view demo_trie sample_keccak).
Proof. apply fresh_reads, demo_view_ok. Qed.
Lemma demo_env_sensible : env_sensible demo_env sample_keccak.
Proof. split; try done; try (by split); intros; try constructor; unfold sample_keccak; lia. Qed.
Lemma demo_crypto_sensible : crypto_sensible.
Proof. split; intros; repeat constructor; done. Qed.
Lemma demo_CreateAddress_nonneg a k n : 0 <= demo_CreateAddress a k n.
Proof. unfold demo_CreateAddress. lia. Qed.
Lemma demo_start_ok : machine_ok demo_start.
Proof. split; [|constructor|done]. eexists. apply demo_reads. Qed.

(** The reverting contract, with gas for all of it. *)
Definition demo_entry : entry := EnterCall (AccountRef 7) 51 [] 1000 3.
Lemma demo_entry_ok : entry_ok demo_entry.
Proof. by repeat split; try constructor. Qed.

Lemma demo_entry_result :
  (enter (demo_machine 2003) demo_entry demo_start).1 = Ok ([], 0, Some (OtherVMError "out of gas")).
Proof. vm_compute. reflexivity. Qed.

Lemma evm_entries_return_witness :
  ∃ ret left_ err e', enter (demo_machine 2003) demo_entry demo_start = (Ok (ret, left_, err), e')
    ∧ 0 <= left_ <= 1000 ∧ m_depth e' = 0.
Proof.
  pose proof (evm_entries_return demo_env sample_keccak demo_env_sensible demo_crypto_sensible
    demo_CreateAddress demo_CreateAddress2 demo_CreateAddress_nonneg ltac:(done) 2003 demo_entry demo_start
    demo_entry_ok demo_start_ok ltac:(done)) as Hok.
  destruct (enter (demo_machine 2003) demo_entry demo_start) as [[[[ret left_] err]|er|p] e'] eqn:E.
  - exists ret, left_, err, e'. destruct Hok as (_&[? ?]&_&Hs). split_and!; [done|done|done|]. apply (sm_depth _ _ Hs).
  - destruct Hok.
  - apply (f_equal fst) in E. rewrite demo_entry_result in E. discriminate E.
Defined.


(** A frame about to add two numbers. *)
Definition demo_contract : Contract :=
  mkContract 7 (AccountRef 7) 50 [1; 0] 0 (Some 50) [] 1000 0 false false.
Definition demo_frame : Frame ChainState := mkFrame 0 demo_contract NewMemory [4; 5; 6] demo_start.
Lemma demo_frame_ok : frame_ok demo_frame.
Proof. split; [by split| | |by repeat constructor|apply demo_start_ok]; split; by repeat constructor. Qed.

Lemma interpreter_turn_witness :
  ∃ f', step demo_env sample_keccak (demo_machine 2001) demo_frame = (Ok None, f')
    ∧ c_Gas (f_contract f') < 1000 ∧ Z.of_nat (length (f_stack f')) <= 1024.
Proof.
  pose proof (interpreter_turn_typed demo_env sample_keccak demo_env_sensible demo_crypto_sensible
    demo_CreateAddress demo_CreateAddress2 demo_CreateAddress_nonneg ltac:(done) 2001 demo_frame
    demo_frame_ok ltac:(done)) as Hok.
  destruct (step _ _ _ demo_frame) as [r f'] eqn:E.
  assert (r = Ok None) as ->.
  { change r with (r, f').1. rewrite <- E. vm_compute. reflexivity. }
  exists f'. split; [reflexivity|]. destruct Hok as (_&_&Hgas&o&_&_&_&Hlen). exact (conj Hgas Hlen).
Defined.

(** ** Transactions that run contracts *)
Definition demo_gas : GasParams := mkGasParams 21000 53000 68 4.
Definition demo_config : QuarkChainConfig := mkConfig (1, 2) 1 0 1 ∅.
Definition demo_context : Context := mkContext 2 1 false 0 None 9.
(** 7 calls the reverting contract with a value of 3, in its shard and in another. *)
Definition demo_msg : Message := mkMessage 7 (Some 51) 2 47000 3 3 true [] false 0 0 77 1 100.
Definition demo_xmsg : Message := mkMessage 7 (Some 51) 2 47000 3 3 true [] true 0 0 77 1 100.
Definition demo_fuel : nat := Z.to_nat 94003.
Abbreviation demo_create := (tx_Create demo_env sample_keccak demo_CreateAddress demo_CreateAddress2 demo_fuel 1).
Abbreviation demo_call := (tx_Call demo_env sample_keccak demo_CreateAddress demo_CreateAddress2 demo_fuel 1).
Abbreviation demo_view := (fresh_view demo_trie sample_keccak).
Definition demo_contract_address (a k n : Z) : Z := 3000 + n.
Lemma demo_fuel_enough : Z.of_nat demo_fuel = 94003.
Proof. unfold demo_fuel. rewrite Z2Nat.id; lia. Qed.

Lemma evm_refines_contract_witness :
  evm_ok demo_context demo_msg demo_create demo_call (known_panic demo_env).
Proof.
  apply (evm_refines_contract no_tries demo_trie demo_storage demo_code demo_env sample_keccak demo_env_sensible
    demo_crypto_sensible demo_CreateAddress demo_CreateAddress2 demo_CreateAddress_nonneg ltac:(done) demo_trie_wf).
  - discriminate.
  - intros a [= <-]. discriminate.
  - discriminate.
  - split; [constructor|reflexivity].
  - discriminate.
  - reflexivity.
  - rewrite demo_fuel_enough. discriminate.
Defined.

Lemma demo_evm_ok : evm_ok demo_context demo_msg demo_create demo_call (known_panic demo_env).
Proof.
  apply (tx_contract demo_env sample_keccak demo_env_sensible demo_crypto_sensible
    demo_CreateAddress demo_CreateAddress2 demo_CreateAddress_nonneg ltac:(done)).
  - discriminate.
  - intros a [= <-]. discriminate.
  - discriminate.
  - split; [constructor|reflexivity].
  - discriminate.
  - reflexivity.
  - rewrite demo_fuel_enough. discriminate.
Qed.

Lemma demo_sensible : sensible demo_gas demo_config demo_context demo_msg.
Proof. by split. Qed.
Lemma demo_xsensible : sensible demo_gas demo_config demo_context demo_xmsg.
Proof. by split. Qed.
Definition demo_run : result (list Z * Z * bool) * Transition ChainState :=
  TransitionDb demo_gas demo_config demo_context demo_msg demo_create demo_call demo_contract_address
    (mkTransition 1000000 0 0 fresh_chain).
Lemma demo_run_result : demo_run.1 = Ok ([], 41012, true).
Proof. vm_compute. reflexivity. Qed.
Lemma demo_run_eq : demo_run = (Ok ([], 41012, true), demo_run.2).
Proof. rewrite <- demo_run_result. apply surjective_pairing. Qed.
Definition demo_xrun : result (list Z * Z * bool) * Transition ChainState :=
  TransitionDb demo_gas demo_config demo_context demo_xmsg demo_create demo_call demo_contract_address
    (mkTransition 1000000 0 0 fresh_chain).
Lemma demo_xrun_result : demo_xrun.1 = Ok ([], 21000, false).
Proof. vm_compute. reflexivity. Qed.

Lemma TransitionDb_in_shard_witness :
  ∃ ret used s', demo_run = (Ok (ret, used, true), s') ∧ 0 < used <= 47000.
Proof.
  destruct (TransitionDb_in_shard demo_gas demo_config demo_context demo_msg demo_create demo_call
    demo_contract_address (known_panic demo_env) demo_sensible 1000000 fresh_chain demo_view demo_evm_ok
    eq_refl eq_refl demo_reads ltac:(split; discriminate))
    as [(_&e&s'&E&_)|[(_&_&s'&E&_)|[(_&_&p&s'&_&E)|(_&_&ret&left_&vmerr&v2&s2&_&_&[(_&E&_)|(_&Hu&ret'&s'&E&_)])]]].
  all: fold demo_run in E; pose proof demo_run_eq as E2; rewrite E in E2; try discriminate E2.
  injection E2 as _ _ Hf. rewrite Hf in E. eexists _, _, _. exact (conj E Hu).
Defined.
Lemma in_shard_supply_witness :
  ∃ out v2 s2 v', ran demo_config demo_context demo_msg demo_create demo_call demo_view 26000 out v2 s2
    ∧ reads (st_state demo_run.2) v'
    ∧ total [7; 9; 0] 1 v' - total [7; 9; 0] 1 demo_view
      = (total [7; 9; 0] 1 v2 - total [7; 9; 0] 1 (prepaid demo_context demo_msg demo_view)) - 41012.
Proof.
  apply (in_shard_supply demo_gas demo_config demo_context demo_msg demo_create demo_call
    demo_contract_address (known_panic demo_env) demo_sensible 1000000 fresh_chain demo_view [7; 9; 0] 1
    [] 41012 true demo_run.2 demo_evm_ok
    eq_refl eq_refl demo_reads ltac:(split; discriminate) eq_refl eq_refl).
  - apply (bool_decide_unpack _). reflexivity.
  - constructor.
  - constructor. constructor.
  - apply (bool_decide_unpack _). reflexivity.
  - exact demo_run_eq.
Defined.
Lemma failed_call_costs_gas_witness :
  ∃ v', reads (st_state demo_run.2) v' ∧ v_bal v' 7 1 = 100000 - 41012 * 2 ∧ v_bal v' 51 1 = 100 ∧ v_bal v' 9 1 = 41012.
Proof.
  destruct (failed_call_costs_gas no_tries demo_trie demo_storage demo_code demo_env sample_keccak demo_env_sensible
    demo_crypto_sensible demo_CreateAddress demo_CreateAddress2 demo_CreateAddress_nonneg ltac:(done) demo_trie_wf
    demo_fuel 1 demo_gas demo_config demo_context demo_msg demo_contract_address 1000000 fresh_chain demo_view 51
    [] 41012 demo_run.2 demo_sensible) as (v'&Hv'&Hbal).
  - discriminate.
  - intros a [= <-]. discriminate.
  - split; [constructor|reflexivity].
  - reflexivity.
  - rewrite demo_fuel_enough. discriminate.
  - reflexivity.
  - reflexivity.
  - reflexivity.
  - reflexivity.
  - exact demo_reads.
  - split; discriminate.
  - exact demo_run_eq.
  - exists v'. rewrite !Hbal. split; [exact Hv'|]. repeat split; reflexivity.
Defined.
Lemma TransitionDb_cross_shard_witness :
  ∃ v', reads (st_state demo_xrun.2) v' ∧ v_bal v' 7 2 = 50 ∧ length (v_xlist v') = 1%nat.
Proof.
  destruct (TransitionDb_cross_shard demo_gas demo_config demo_context demo_xmsg demo_create demo_call
    demo_contract_address demo_xsensible 1000000 fresh_chain demo_view eq_refl eq_refl demo_reads)
    as [(_&e&s'&E&_)|[(_&_&s'&E&_)|[(_&_&_&s'&E&_)|[(_&_&_&_&s'&E&_)|(_&_&_&_&s'&E&Hs')]]]].
  all: fold demo_xrun in E; pose proof demo_xrun_result as E2; rewrite E in E2; try discriminate E2.
  rewrite E. eexists. split; [exact Hs'|]. split; reflexivity.
Defined.

(** ** Defects of the precompiled contracts *)

(** A static call can move tokens.  The read-only mode stops instructions
    that write and calls with a value, and the contract that transfers tokens
    refuses to be the target of a static call itself; but a contract that is
    called statically may call the transfer contract with no value, and the
    transfer goes through: here address 60 gets 5 of the token of contract 50
    inside a static call that succeeds. *)
Example static_call_moves_tokens :
  let out := enter (demo_machine 200) (EnterStaticCall (AccountRef 7) 50 [] 100000) demo_start in
  (∃ left_, out.1 = Ok ([], left_, None))
  ∧ balance_of 50 1 (m_state demo_start) = Ok 100 ∧ balance_of 60 1 (m_state demo_start) = Ok 0
  ∧ balance_of 50 1 (m_state out.2) = Ok 95 ∧ balance_of 60 1 (m_state out.2) = Ok 5.
Proof. cbn zeta. split; [exists 67543|]; vm_compute; repeat split; reflexivity. Qed.

(** The contract that deploys system contracts panics on a large index.  For
    every input whose first word has an index of at least 2^63 in its low 64
    bits, the conversion to int is negative, passes the range check, and the
    run panics, in any state and with any gas. *)
Theorem deploy_index_panics `{EthMath} {St : Type} `{VmState St} (env : VmEnv) (calls : Calls St)
    input d (c : Contract) (e : Machine St) :
  getData input 0 32 = Ok d → 2 ^ 63 <= u64 (be_value d) →
  deploySystemContract_Run env calls input c e = (Panic scope_panic, e).
Proof.
  intros Hd Hi. unfold deploySystemContract_Run, word_at, se_lift. se_red. rewrite Hd.
  pose proof (u64_in (be_value d)) as Hu. unfold in_u64 in Hu.
  rewrite (bool_decide_true (0 < _)) by lia.
  assert (i64 (u64 (be_value d)) = u64 (be_value d) - 2 ^ 64) as -> by (apply i64_high; lia).
  rewrite bool_decide_false by (cbn; lia).
  destruct (u64 (be_value d) - 2 ^ 64) as [|p|p] eqn:Ep; [lia|lia|]. reflexivity.
Qed.
Lemma deploy_index_witness :
  deploySystemContract_Run demo_env (demo_machine 0) (repeat 0 24 ++ repeat 255 8) demo_contract demo_start
  = (Panic scope_panic, demo_start).
Proof. apply (deploy_index_panics _ _ _ (repeat 0 24 ++ repeat 255 8)); [reflexivity|vm_compute; discriminate]. Defined.
