(* ===== verification/StateProcessor.v ===== *)
(** * core: the state processor

    Models src/core/state_processor.go, NewEVMContext and GetHashFn of
    src/core/evm.go, AsMessage and NewMessage of src/core/types/transaction.go,
    and the validation of transactions of src/core/minorblockchain_addon.go: a
    transaction is validated against a state, applied to it, and the transactions
    of a block are processed one after the other; deposits of other shards are
    applied the same way.  The state is used through the classes of Transition.v
    and EvmOps.v and the fields below; the virtual machine is a parameter that is
    given the context it runs in.  The configuration the code stores in the state
    is that of the chain. *)

From S2P Require Import Prelude Utils Codec StateDB Account Config Signing Transaction Blocks XShardCursor Consensus Receipts.
From S2P Require Import BlockTree ChainInsert EvmBase EvmOps Transition.

Local Open Scope Z_scope.

(** The fields of the state that a block sets or reads, and the logs. *)
Class BlockState (St : Type) := {
  GetGasLimit : St → Z;
  SetGasLimit : Z → St → St;
  GetBlockCoinbase : St → Z;
  SetBlockCoinbase : Z → St → St;
  GetTimeStamp : St → Z;
  GetBlockNumber : St → Z;
  GetSenderDisallowMap : St → gmap Z Z;
  SetFullShardKey : Z → St → St;
  Prepare : Z → Z → Z → St → St;            (* transaction, block, index *)
  GetLogs : Z → St → list Log;
  Finalise : SE St unit;
}.

(** What the processor reads of the configuration of its chain. *)
Record ProcConfig := mkProcConfig {
  pc_gas : GasParams;
  pc_quarkchain : Config.QuarkChainConfig;
  pc_branch : Branch;
  pc_LocalFeeRate : Z * Z;
  pc_DefaultToken : Z;
  pc_EnableEvm : Z;
  EnableEIP155SignerTimestamp : Z;
  NetworkID : Z;
  EthChainID : Z;
  pc_xShardGasLimit : Z;
  pc_MinMiningGasPrice : Z;
  QKC : Z;                                  (* TokenIDEncode of DefaultTokenID *)
}.

(** vm.Context; the fields the transition reads are in [vc_tx]. *)
Record VmContext := mkVmContext {
  vc_Origin : Z;
  vc_BlockNumber : Z;
  vc_Time : Z;
  vc_Difficulty : Z;
  vc_GasLimit : Z;
  vc_GasPrice : Z;
  vc_ToFullShardKey : Z;
  vc_TransferTokenID : Z;
  vc_GetHash : Z → Z;
  vc_tx : Context;
}.

(** ** The hashes of the ancestors *)

Section get_hash.
Context (GetHeader : Z → option MinorBlockHeader).

(** From a header on: the hash of the ancestor at height [n]. *)
Fixpoint hash_loop (fuel : nat) (hash n : Z) : result Z :=
  match GetHeader hash with
  | None => Ok 0
  | Some h =>
      if n =? u64 (mh_number h - 1) then Ok (mh_parent h)
      else match fuel with O => no_fuel | S fuel => hash_loop fuel (mh_parent h) n end
  end.
(** The cache holds what earlier calls found, which is what the loop finds. *)
Definition GetHashFn (fuel : nat) (ref : MinorBlockHeader) (n : Z) : result Z :=
  if n =? u64 (mh_number ref - 1) then Ok (mh_parent ref) else hash_loop fuel (mh_parent ref) n.
End get_hash.

(** The gas pool and the counter of used gas, which the caller owns. *)
Record Proc (St : Type) := mkProc {
  p_state : St;
  p_gp : Z;
  p_usedGas : Z;
}.
Arguments mkProc {St}.
Arguments p_state {St}.
Arguments p_gp {St}.
Arguments p_usedGas {St}.

Section processor.
Context {St : Type} `{VmState St} `{!BlockState St}.
Context (cfg : ProcConfig) (hashes : TxHashes) (lib : SigLib) (txHash : Transaction → Z) (keccak : list Z → list Z).
Context (CreateAddress : Z → Z → Z → Z) (getHash : MinorBlockHeader → Z → Z).
Context (evm_Create : VmContext → Z → list Z → Z → Z → option Z → SE St (list Z * Z * option VMError)).
Context (evm_Call : VmContext → Z → Z → list Z → Z → Z → SE St (list Z * Z * option VMError)).

Abbreviation Op := (SE St).
Abbreviation token := (pc_DefaultToken cfg).
Abbreviation price tx := (Transaction.GasPrice (EvmTx tx)).

(** The sender by the signer of a network, with the memo of the transaction. *)
Definition tx_Sender (signer : Z) (memo : option sigCache) (tx : Transaction) : result Z :=
  if TxType tx =? EvmTxType then (cached_Sender hashes lib signer (mkSignedTx (EvmTx tx) memo)).1
  else Err "do not support tx type %d".

(** ** Paying gas in another token *)

Definition gas_contract : Z := generalNativeTokenContractAddr.
(** A context with the block number only. *)
Definition manager_context (number : Z) : VmContext :=
  mkVmContext 0 number 0 0 0 0 0 0 (fun _ => 0) (mkContext 0 0 false 0 None 0).
(** The capacity of the returned slice is taken to be its length. *)
Definition callGeneralNativeTokenManager (input : list Z) : Op (Z * Z) :=
  code ← GetCode gas_contract;
  if bool_decide (length (code : list Z) = 0%nat) then se_err "contract not found"
  else
    s ← se_get;
    out ← evm_Call (manager_context (GetBlockNumber s)) gas_contract gas_contract input 1000000 0;
    let '(ret, _, vmerr) := (out : list Z * Z * option VMError) in
    match vmerr with
    | Some _ => se_err "the call of the contract failed"
    | None =>
        if bool_decide (length ret < 64)%nat then se_panic "slice bounds out of range"
        else mret (default 0 (ret !! 31%nat), be_value (take 32 (drop 32 ret)))
    end.
Definition PayNativeTokenAsGas (tokenID gas gasPriceInNativeToken : Z) : Op (Z * Z) :=
  if bool_decide (TokenCodec.TOKENIDMAX < tokenID) || BiggerThanUint128Max gasPriceInNativeToken
  then se_err "PayNativeTokenAsGas : tokenid %v > TOKENIDMAX"
  else
    p ← se_lift (BigToByte32 gasPriceInNativeToken);
    callGeneralNativeTokenManager ([0x5a; 0xe8; 0xf7; 0xf1] ++ EncodeToByte32 tokenID ++ EncodeToByte32 gas ++ p).
Definition GetGasUtilityInfo (tokenID gasPriceInNativeToken : Z) : Op (Z * Z) :=
  callGeneralNativeTokenManager ([0xce; 0x9e; 0x8c; 0x47] ++ EncodeToByte32 tokenID ++ EncodeToByte32 (u64 gasPriceInNativeToken)).
(** The state is put back also when the query fails. *)
Definition ConvertToDefaultChainTokenGasPrice (tokenID gasprice : Z) : Op Z :=
  if tokenID =? token then mret gasprice
  else
    snapshot ← Snapshot;
    r ← se_try (GetGasUtilityInfo tokenID gasprice);
    _ ← RevertToSnapshot snapshot;
    match r with
    | inl (_, data) => mret data
    | inr e => se_err e
    end.

(** ** ValidateTransaction *)

(** The balances of the two tokens against what the transaction may cost. *)
Definition check_balances (from : Z) (tx : Transaction) : Op unit :=
  let t := EvmTx tx in
  balTransfer ← GetBalance from (TransferTokenID t);
  balGas ← (if TransferTokenID t =? GasTokenID t then mret balTransfer else GetBalance from (GasTokenID t));
  if (negb (TransferTokenID t =? token) && ((balTransfer : Z) =? 0)) || (negb (GasTokenID t =? token) && ((balGas : Z) =? 0))
  then se_err "non-default token has zero balance"
  else
    let gasCost := price tx * Gas t in
    if TransferTokenID t =? GasTokenID t then
      if bool_decide (balTransfer < gasCost + Transaction.Value t) then se_err "InsufficientBalance tokenID" else mret tt
    else if bool_decide (balTransfer < Transaction.Value t) || bool_decide (balGas < gasCost)
    then se_err "InsufficientBalance tokenID" else mret tt.
(** Gas paid in another token: the rate and the reserve of the contract. *)
Definition check_gas_token (tx : Transaction) : Op unit :=
  let t := EvmTx tx in
  if negb (price tx =? 0) && negb (GasTokenID t =? token) then
    snapshot ← Snapshot;
    r ← PayNativeTokenAsGas (GasTokenID t) (Gas t) (price tx);
    _ ← RevertToSnapshot snapshot;
    if (r : Z * Z).2 =? 0 then se_err "non-default gas token not ready for being used to pay gas"
    else
      reserve ← GetBalance gas_contract token;
      if bool_decide ((reserve : Z) < r.2 * Gas t) then se_err "non-default gas token not enough reserve balance for conversion"
      else mret tt
  else mret tt.
Definition ValidateTransaction (memo : option sigCache) (fromAddress : option Z) (tx : Transaction) : Op unit :=
  let t := EvmTx tx in
  from ← match fromAddress with
         | Some a => mret a
         | None => se_lift (tx_Sender (d_NetworkId (data t)) memo tx)
         end;
  if BiggerThanUint128Max (price tx) || bool_decide (TokenCodec.TOKENIDMAX < GasTokenID t) || bool_decide (TokenCodec.TOKENIDMAX < TransferTokenID t)
  then se_err "startgas, gasprice, and token_id must <= UINT128_MAX"
  else
    nonce ← GetNonce from;
    let reqNonce := if from =? 0 then 0 else (nonce : Z) in
    if bool_decide (Nonce t < reqNonce) then se_err "nonce too low"
    else
      totalGas ← se_lift (IntrinsicGas (pc_gas cfg) (Payload (data t)) (bool_decide (Transaction.Recipient (data t) = None))
                            (negb (ToFullShardId t =? FromFullShardId t)));
      if bool_decide (Gas t < (totalGas : Z)) then se_err "intrinsic gas too low"
      else
        _ ← check_balances from tx;
        _ ← check_gas_token tx;
        used ← GetGasUsed;
        s ← se_get;
        if bool_decide (GetGasLimit s < used + Gas t) then se_err "gasLimit is too low" else mret tt.

(** ** validateTx *)

Definition checkTxWithVersion2 (tx : Transaction) (s : St) : result unit :=
  let t := EvmTx tx in
  let '(v, _, _) := VRS (data t) in
  let networkId := d_NetworkId (data t) in
  if bool_decide (GetTimeStamp s < EnableEIP155SignerTimestamp cfg) then Err "currTimeStamp < enableEIP155TimeStamp"
  else if negb (i64 v =? 35 + networkId * 2) && negb (i64 v =? 35 + networkId * 2 + 1) then Err "evm tx network id mismatch"
  else if negb (FromChainID t =? ToChainID t) then Err "EIP155 Signer do not support cross shard transaction"
  else if negb (FromShardKey t =? 0) || negb (ToShardKey t =? 0) then Err "fromShardKey != toShardKey"
  else if negb (TransferTokenID t =? QKC cfg) then Err "Wrong transferTokenID in version=2."
  else if negb (GasTokenID t =? QKC cfg) then Err "Wrong gasTokenID in version=2."
  else if negb (networkId =? EthChainID cfg) then Err "networkID != ethChainID"
  else Ok tt.

Definition MAX_FUTURE_TX_NONCE : Z := 64.
Definition pc_isNeighbor (remote : Branch) (rootHeight : Z) : bool :=
  IsNeighbor (pc_branch cfg) remote
    (u32 (Z.of_nat (length (GetInitializedShardIdsBeforeRootHeight (pc_quarkchain cfg) rootHeight)))).

(** A call of the API: the transaction is made one of the given sender. *)
Definition from_address (fromAddress : option (Z * Z)) (gas : option Z) (memo : option sigCache) (t : EvmTransaction)
    : Op (EvmTransaction * option sigCache) :=
  match fromAddress with
  | None => mret (t, memo)
  | Some (recipient, key) =>
      nonce ← GetNonce recipient;
      let t := SetGas (default (Gas t) gas) (tx_SetNonce nonce t) in
      let signed := SetSender recipient (mkSignedTx t memo) in
      mret (SetFromFullShardKey key t, st_from signed)
  end.
Definition with_sizes (t : EvmTransaction) : result EvmTransaction :=
  toShardSize ← GetShardSizeByChainId (pc_quarkchain cfg) (ToChainID t);
  match SetToShardSize toShardSize t with
  | (Ok _, t) =>
      fromShardSize ← GetShardSizeByChainId (pc_quarkchain cfg) (FromChainID t);
      match SetFromShardSize fromShardSize t with
      | (Ok _, t) => Ok t
      | (Err e, _) => Err e
      | (Panic e, _) => Panic e
      end
  | (Err e, _) => Err e
  | (Panic e, _) => Panic e
  end.
(** The checks on the shards the transaction is of. *)
Definition check_shards (t : EvmTransaction) (rootHeight xShardGas : Z) (timeStamp : Z) : result unit :=
  if negb (IsInBranch (pc_branch cfg) (FromFullShardId t)) then Err "branch not match"
  else if IsCrossShard t &&
    negb (bool_decide (ToFullShardId t ∈ GetInitializedShardIdsBeforeRootHeight (pc_quarkchain cfg) rootHeight))
  then Err "shard is not initialized yet"
  else if IsCrossShard t && negb (pc_isNeighbor (mkBranch (ToFullShardId t)) rootHeight) then Err "is not a neighbor"
  else if IsCrossShard t && bool_decide (xShardGas < Gas t) then Err "xshard evm tx exceeds xshard gasLimit"
  else if bool_decide (timeStamp < pc_EnableEvm cfg) &&
    (bool_decide (Transaction.Recipient (data t) = None) || negb (bool_decide (length (Payload (data t)) = 0%nat)))
  then Err "smart contract tx is not allowed before evm is enabled"
  else Ok tt.
(** The transaction as it is applied, and its memo.  A transaction with a nonce
    a little ahead of the sender's is let through. *)
Definition validateTx (rootHeight : Z) (memo : option sigCache) (tx : Transaction) (fromAddress : option (Z * Z))
    (gas xShardGasLimit : option Z) : Op (Transaction * option sigCache) :=
  if negb (TxType tx =? EvmTxType) then se_err "unexpected tx type"
  else
    tm ← from_address fromAddress gas memo (EvmTx tx);
    t ← se_lift (with_sizes (tm : EvmTransaction * option sigCache).1);
    let memo := tm.2 in
    let tx := mkTx EvmTxType t in
    s ← se_get;
    _ ← se_lift (if d_Version (data t) =? 2 then checkTxWithVersion2 tx s
                 else if negb (d_NetworkId (data t) =? NetworkID cfg) then Err "network id not match" else Ok tt);
    _ ← se_lift (check_shards t rootHeight (default (pc_xShardGasLimit cfg) xShardGasLimit) (GetTimeStamp s));
    sender ← match fromAddress with
             | None => se_lift (tx_Sender (NetworkID cfg) memo tx)
             | Some (recipient, _) => mret recipient
             end;
    reqNonce ← GetNonce sender;
    if bool_decide ((reqNonce : Z) < Nonce t) && bool_decide (Nonce t < u64 (reqNonce + MAX_FUTURE_TX_NONCE)) then mret (tx, memo)
    else
      _ ← ValidateTransaction memo (fst <$> fromAddress) tx;
      mret (tx, memo).

(** ** ApplyTransaction *)

Definition AsMessage (signer : Z) (memo : option sigCache) (tx : Transaction) (hash gasPrice refundRate : Z) : result Message :=
  let d := data (EvmTx tx) in
  from ← (cached_Sender hashes lib signer (mkSignedTx (EvmTx tx) memo)).1;
  Ok (mkMessage from (Transaction.Recipient d) gasPrice (Transaction.GasLimit d) (Amount d) (AccountNonce d) true (Payload d)
        (IsCrossShard (EvmTx tx)) (d_FromFullShardKey d) (d_ToFullShardKey d) hash (d_TransferTokenID d) refundRate).
Definition NewEVMContext (msg : Message) (gasTokenID : Z) (header : MinorBlockHeader) (gasPriceInGasToken : Z) : VmContext :=
  mkVmContext (msg_from msg) (mh_number header) (mh_time header) (mh_difficulty header) (u64 (mh_gasLimit header)) (msg_gasPrice msg)
    (msg_toFullShardKey msg) (msg_transferTokenID msg) (getHash header)
    (mkContext gasPriceInGasToken gasTokenID false 0 None (be_value (Account.Recipient (mh_coinbase header)))).
(** The part of the configuration and of the state that the transition reads. *)
Definition tx_config (s : St) : Transition.QuarkChainConfig :=
  mkConfig (pc_LocalFeeRate cfg) token (pc_EnableEvm cfg) (GetTimeStamp s) (GetSenderDisallowMap s).

Definition on_proc {A} (m : SE St A) : SE (Proc St) A := fun p =>
  let '(r, s) := m (p_state p) in (r, mkProc s (p_gp p) (p_usedGas p)).
(** ApplyMessage: the pool and the state stay as the transition leaves them. *)
Definition ApplyMessage (ctx : VmContext) (msg : Message) : SE (Proc St) (list Z * Z * bool) := fun p =>
  let '(r, st) := TransitionDb (pc_gas cfg) (tx_config (p_state p)) (vc_tx ctx) msg (evm_Create ctx) (evm_Call ctx) CreateAddress
                    (mkTransition (p_gp p) 0 0 (p_state p)) in
  (r, mkProc (st_state st) (st_gp st) (p_usedGas p)).
Definition add_used (gas : Z) : SE (Proc St) unit :=
  se_mod (fun p => mkProc (p_state p) (p_gp p) (u64 (p_usedGas p + gas))).

(** The gas price in the default token and the rate of the refund; the contract
    changes the sender's gas token for its reserve of the default token. *)
Definition convert_gas (tx : Transaction) : Op (Z * Z) :=
  let t := EvmTx tx in
  if GasTokenID t =? token then mret (price tx, 100)
  else
    r ← se_try (PayNativeTokenAsGas (GasTokenID t) (Gas t) (price tx));
    match r with
    | inr _ => se_err "convertedGenesisTokenGasPeice should >0"
    | inl (refundRate, converted) =>
        if bool_decide (converted <= 0) then se_err "convertedGenesisTokenGasPeice should >0"
        else
          contractBal ← GetBalance gas_contract token;
          if bool_decide ((contractBal : Z) < Gas t * converted) then se_err "contract balance < tx gas balance"
          else
            _ ← SubBalance gas_contract (Gas t * converted) token;
            _ ← AddBalance gas_contract (Gas t * price tx) (GasTokenID t);
            mret (converted, refundRate)
    end.
Definition with_bloom (r : Receipt) : result Receipt :=
  b ← CreateBloom keccak [r];
  Ok (mkReceipt (PostState r) (Status r) (CumulativeGasUsed r) b (Logs r) (r_TxHash r) (r_ContractAddress r) (ContractFullShardKey r) (r_GasUsed r)).
Definition ApplyTransaction (header : MinorBlockHeader) (memo : option sigCache) (tx : Transaction)
    : SE (Proc St) (list Z * Receipt * Z) :=
  let t := EvmTx tx in
  pr ← on_proc (convert_gas tx);
  let '(gasPrice, refundRate) := (pr : Z * Z) in
  _ ← on_proc (se_mod (SetFullShardKey (d_ToFullShardKey (data t))));
  msg ← se_lift (AsMessage (d_NetworkId (data t)) memo tx (txHash tx) gasPrice refundRate);
  out ← ApplyMessage (NewEVMContext msg (GasTokenID t) header (price tx)) msg;
  let '(ret, gas, failed) := (out : list Z * Z * bool) in
  _ ← add_used gas;
  cumulative ← on_proc GetGasUsed;
  p ← se_get;
  let r := NewReceipt [] failed (u64 cumulative) in
  let created := if bool_decide (msg_to msg = None) && negb (msg_isCrossShard msg) && negb failed
                 then CreateAddress (msg_from msg) (msg_toFullShardKey msg) (Nonce t) else 0 in
  receipt ← se_lift (with_bloom (mkReceipt (PostState r) (Status r) (CumulativeGasUsed r) (Bloom r) (GetLogs (txHash tx) (p_state p))
                                   (txHash tx) created (d_ToFullShardKey (data t)) gas));
  mret (ret, receipt, gas).

(** ** Process *)

Fixpoint process_loop (rootHeight : Z) (block : MinorBlock) (txs : list Transaction) (i : Z)
    (receipts : list Receipt) (logs : list Log) : SE (Proc St) (list Receipt * list Log) :=
  match txs with
  | [] => mret (receipts, logs)
  | tx :: txs =>
      tm ← on_proc (validateTx rootHeight None tx None None (Some (u64 (mm_xshardGasLimit (mb_meta block)))));
      _ ← on_proc (se_mod (Prepare (txHash tx) (Hash block) i));
      r ← ApplyTransaction (mb_header block) (tm : Transaction * option sigCache).2 tm.1;
      let receipt := (r : list Z * Receipt * Z).1.2 in
      process_loop rootHeight block txs (i + 1) (receipts ++ [receipt]) (logs ++ Logs receipt)
  end.
Fixpoint add_balances (a : Z) (l : list (Z * Z)) : Op unit :=
  match l with
  | [] => mret tt
  | (t, v) :: l => _ ← AddBalance a v t; add_balances a l
  end.
(** The transactions of a block and then the reward; the gas limit of the state
    is set to that of the block. *)
Definition Process (rootHeight : Z) (coinbaseAmount : gmap Z Z) (block : MinorBlock) : Op (list Receipt * list Log * Z) := fun s =>
  let h := mb_header block in
  let coinbase := be_value (Account.Recipient (mh_coinbase h)) in
  let s := SetGasLimit (mh_gasLimit h) (SetBlockCoinbase coinbase s) in
  let '(r, p) := process_loop rootHeight block (mb_transactions block) 0 [] [] (mkProc s (u64 (mh_gasLimit h)) 0) in
  match r with
  | Ok (receipts, logs) =>
      (_ ← add_balances coinbase (map_to_list coinbaseAmount); _ ← Finalise; mret (receipts, logs, p_usedGas p)) (p_state p)
  | Err e => (Err e, p_state p)
  | Panic e => (Panic e, p_state p)
  end.

(** ** Deposits of other shards *)

Definition NewMessage (from : Z) (to : option Z) (nonce amount gasLimit gasPrice : Z) (input : list Z) (checkNonce : bool)
    (fromFullShardKey toFullShardKey transferTokenID refundRate : Z) : Message :=
  mkMessage from to gasPrice gasLimit amount nonce checkNonce input false fromFullShardKey toFullShardKey 0 transferTokenID refundRate.
Definition deposit_start (tx : Deposit) (checkIsFromRootChain : bool) : Z :=
  if checkIsFromRootChain then if IsFromRootChain tx then 0 else GtxxShardCost
  else if DGasPrice tx =? 0 then 0 else GtxxShardCost.
(** Before contracts are enabled a deposit is a payment. *)
Definition simple_deposit (tx : Deposit) (gasUsedStart : Z) : SE (Proc St) (option Receipt) :=
  _ ← on_proc (AddBalance (be_value (Account.Recipient (To tx))) (DValue tx) (DTransferTokenID tx));
  _ ← on_proc (AddGasUsed gasUsedStart);
  _ ← add_used gasUsedStart;
  let xShardFee := BigIntMulBigRat (DGasPrice tx * GtxxShardCost) (pc_LocalFeeRate cfg) in
  _ ← on_proc (AddBlockFee (DGasTokenID tx) xShardFee);
  p ← se_get;
  _ ← on_proc (AddBalance (GetBlockCoinbase (p_state p)) xShardFee (DGasTokenID tx));
  mret None.
Definition deposit_context (header : MinorBlockHeader) (tx : Deposit) (msg : Message) (gasUsedStart : Z) : VmContext :=
  let c := NewEVMContext msg (DGasTokenID tx) header (DGasPrice tx) in
  mkVmContext (vc_Origin c) (vc_BlockNumber c) (vc_Time c) (vc_Difficulty c) (vc_GasLimit c) (vc_GasPrice c) (vc_ToFullShardKey c)
    (vc_TransferTokenID c) (vc_GetHash c)
    (mkContext (GasPriceInGasToken (vc_tx c)) (ctx_GasTokenID (vc_tx c)) true gasUsedStart
       (if CreateContract tx then Some (be_value (Account.Recipient (To tx))) else None) (Coinbase (vc_tx c))).
(** The gas pool of a deposit is its own. *)
Definition ApplyCrossShardDeposit (header : MinorBlockHeader) (tx : Deposit) (checkIsFromRootChain : bool) (txIndex : Z)
    : SE (Proc St) (option Receipt) :=
  let gasUsedStart := deposit_start tx checkIsFromRootChain in
  p ← se_get;
  if bool_decide (GetTimeStamp (p_state p) < pc_EnableEvm cfg) then simple_deposit tx gasUsedStart
  else
    let from := be_value (Account.Recipient (From tx)) in
    let to := be_value (Account.Recipient (To tx)) in
    _ ← on_proc (se_mod (SetFullShardKey (FullShardKey (To tx))));
    _ ← on_proc (AddBalance from (DValue tx) (DTransferTokenID tx));
    let msg := NewMessage from (Some to) 0 (DValue tx) (u64 (GasRemained tx)) (DGasPrice tx) (MessageData tx) false
                 (FullShardKey (From tx)) (FullShardKey (To tx)) (DTransferTokenID tx) (RefundRate tx) in
    p ← se_get;
    _ ← se_mod (fun p => mkProc (Prepare (TxHash tx) (mh_hash header) txIndex (p_state p)) (u64 (GetGasLimit (p_state p))) (p_usedGas p));
    out ← ApplyMessage (deposit_context header tx msg gasUsedStart) msg;
    let '(_, gas, fail) := (out : list Z * Z * bool) in
    _ ← add_used gas;
    p ← se_get;
    if bool_decide (pc_EnableEvm cfg <= GetTimeStamp (p_state p)) then
      let r := NewReceipt [] fail (p_usedGas p) in
      receipt ← se_lift (with_bloom (mkReceipt (PostState r) (Status r) (CumulativeGasUsed r) (Bloom r)
                  (GetLogs (TxHash tx) (p_state p)) (TxHash tx) (if CreateContract tx && negb fail then to else 0)
                  (FullShardKey (To tx)) gas));
      mret (Some receipt)
    else mret None.

(** ** Choosing transactions for a new block *)

Inductive TxCheck := TxApply | TxBreak | TxContinue.
Definition checkTxBeforeApply (tx : option Transaction) (header : MinorBlockHeader) : Op TxCheck :=
  match tx with
  | None => mret TxBreak
  | Some tx =>
      used ← GetGasUsed;
      s ← se_get;
      if bool_decide (u64 (Z.abs (GetGasLimit s - used)) < Gas (EvmTx tx)) then mret TxContinue
      else
        r ← se_try (ConvertToDefaultChainTokenGasPrice (GasTokenID (EvmTx tx)) (price tx));
        match r with
        | inr _ => mret TxContinue
        | inl defaultGasPrice =>
            if bool_decide ((defaultGasPrice : Z) < pc_MinMiningGasPrice cfg) then mret TxContinue
            else if bool_decide (mh_time header < pc_EnableEvm cfg) &&
              (bool_decide (Transaction.Recipient (data (EvmTx tx)) = None) || negb (bool_decide (length (Payload (data (EvmTx tx))) = 0%nat)))
            then mret TxContinue
            else mret TxApply
        end
  end.

(** The transactions taken so far with their receipts, and those to come. *)
Record Filling := mkFilling {
  f_txs : TransactionsByPriceAndNonce;
  f_block : list Transaction;
  f_receipts : list Receipt;
}.
Abbreviation poolSender := (fun t => match signer_Sender hashes lib (NetworkID cfg) t with Ok a => Some a | _ => None end).
Definition step_txs (m : SE TransactionsByPriceAndNonce unit) (t : TransactionsByPriceAndNonce) : result TransactionsByPriceAndNonce :=
  match m t with
  | (Ok _, t) => Ok t
  | (Err _, _) => Err "txs.Shift error"
  | (Panic e, _) => Panic e
  end.
(** After a transaction was applied: one that cannot be applied now makes its
    account wait for the next block, any other is passed over. *)
Definition after_apply (tx : Transaction) (r : (list Z * Receipt * Z) + string) (f : Filling) : result Filling :=
  match r with
  | inl out => t ← step_txs (Shift poolSender) (f_txs f); Ok (mkFilling t (f_block f ++ [tx]) (f_receipts f ++ [out.1.2]))
  | inr e =>
      t ← step_txs (if bool_decide (e = "gas limit reached"%string) || bool_decide (e = "nonce too high"%string)
                    then Pop else Shift poolSender) (f_txs f);
      Ok (mkFilling t (f_block f) (f_receipts f))
  end.
Fixpoint fill_loop (fuel : nat) (block : MinorBlock) (f : Filling) : SE (Proc St) Filling :=
  used ← on_proc GetGasUsed;
  p ← se_get;
  if bool_decide (GetGasLimit (p_state p) <= (used : Z)) then mret f
  else
    let tx := Peek (f_txs f) in
    c ← on_proc (checkTxBeforeApply tx (mb_header block));
    match c, tx, fuel with
    | TxBreak, _, _ => mret f
    | _, None, _ => mret f
    | _, _, O => se_lift no_fuel
    | TxContinue, _, S fuel =>
        t ← se_lift (step_txs Pop (f_txs f));
        fill_loop fuel block (mkFilling t (f_block f) (f_receipts f))
    | TxApply, Some tx, S fuel =>
        _ ← on_proc (se_mod (Prepare (txHash tx) (Hash block) (Z.of_nat (length (f_block f)))));
        r ← se_try (ApplyTransaction (mb_header block) None tx);
        f ← se_lift (after_apply tx r f);
        fill_loop fuel block f
    end.
Definition addTransactionToBlock (fuel : nat) (keys : list Z) (pending : gmap Z Transactions) (block : MinorBlock)
    : Op (list Transaction * list Receipt) := fun s =>
  match NewTransactionsByPriceAndNonce poolSender keys pending with
  | Ok txs =>
      let '(r, p) := fill_loop fuel block (mkFilling txs [] []) (mkProc s (u64 (mh_gasLimit (mb_header block))) 0) in
      (f ← r; Ok (f_block f, f_receipts f), p_state p)
  | Err e => (Err e, s)
  | Panic e => (Panic e, s)
  end.
End processor.
