(* ===== verification/StateProcessorCorrect.v ===== *)
(** * core: the state processor, correctness

    What processing a block does to the gas of the block and which receipts it
    gives, and that a transaction that was validated can be applied.  The virtual
    machine is any that keeps the contract of TransitionCorrect.v. *)

From S2P Require Import Prelude Wp Utils Codec StateDB Account Config Signing Transaction Blocks XShardCursor Consensus Receipts.
From S2P Require Import BlockTree ChainInsert EvmBase EvmOps EvmRun EvmLaws Transition TransitionCorrect StateProcessor.

Local Open Scope Z_scope.

(** The fields of the block are not part of what the accounts show. *)
Class BlockLaws (St : Type) `{StateLaws St} `{!BlockState St} := {
  key_reads s v k : reads s v → reads (SetFullShardKey k s) v;
  prepare_reads s v t b i : reads s v → reads (Prepare t b i s) v;
  limit_reads s v g : reads s v → reads (SetGasLimit g s) v;
  coinbase_reads s v a : reads s v → reads (SetBlockCoinbase a s) v;
  finalise_reads s v : reads s v → ∃ s' v', Finalise s = (Ok tt, s') ∧ reads s' v' ∧ same_counters v v';
}.

(** A transaction and a message with their fields in range. *)
Record tx_ok (t : EvmTransaction) : Prop := {
  txo_gas : 0 <= Gas t < max_gas;
  txo_price : 0 <= Price (data t);
  txo_value : 0 <= Amount (data t);
  txo_data : nonneg (Payload (data t)) ∧ Z.of_nat (length (Payload (data t))) < 2 ^ 40;
  txo_to a : Transaction.Recipient (data t) = Some a → 0 <= a;
}.
Record msg_ok (m : Message) : Prop := {
  mso_from : 0 <= msg_from m;
  mso_to a : msg_to m = Some a → 0 <= a;
  mso_gas : 0 <= msg_gas m < max_gas;
  mso_value : 0 <= msg_value m;
  mso_data : nonneg (msg_data m) ∧ Z.of_nat (length (msg_data m)) < 2 ^ 40;
}.

Section correct.
Context {St : Type} `{VmLaws St} `{!BlockState St} `{!BlockLaws St}.
Context (cfg : ProcConfig) (hashes : TxHashes) (lib : SigLib) (txHash : Transaction → Z) (keccak : list Z → list Z).
Context (CreateAddress : Z → Z → Z → Z) (getHash : MinorBlockHeader → Z → Z).
Context (evm_Create : VmContext → Z → list Z → Z → Z → option Z → SE St (list Z * Z * option VMError)).
Context (evm_Call : VmContext → Z → Z → list Z → Z → Z → SE St (list Z * Z * option VMError)).
Context (may_panic : string → Prop).

(** What the processor relies on: rates and gas constants in range, hashes of
    bytes, a hash that only the data of a transaction determine, and a machine
    that keeps the contract of the transition.  The contract that changes gas
    tokens only changes what the journal records, and its rate is a percentage. *)
Record proc_laws : Prop := {
  pl_fee : 0 <= (pc_LocalFeeRate cfg).1 ∧ 0 < (pc_LocalFeeRate cfg).2;
  pl_params : params_ok (pc_gas cfg);
  pl_keccak d : bytes_ok (Keccak lib d);
  pl_hash tx t : data t = data (EvmTx tx) → txHash (mkTx (TxType tx) t) = txHash tx;
  pl_evm ctx msg : msg_ok msg → ContractAddress (vc_tx ctx) = None →
    evm_ok (vc_tx ctx) msg (evm_Create ctx) (evm_Call ctx) may_panic;
  pl_manager n input s v : reads s v →
    match evm_Call (manager_context n) gas_contract gas_contract input 1000000 0 s with
    | (Ok (ret, _, _), s') => ext s s' ∧ (∃ v', reads s' v') ∧ 0 <= default 0 (ret !! 31%nat) <= 100 ∧ bytes_ok ret
    | (Err _, _) => False
    | (Panic p, _) => may_panic p
    end;
}.
Context (Hp : proc_laws).

Abbreviation token := (pc_DefaultToken cfg).
Abbreviation validate := (ValidateTransaction cfg hashes lib evm_Call).
Abbreviation vtx := (validateTx cfg hashes lib evm_Call).
Abbreviation apply_tx := (ApplyTransaction cfg hashes lib txHash keccak CreateAddress getHash evm_Create evm_Call).
Abbreviation loop := (process_loop cfg hashes lib txHash keccak CreateAddress getHash evm_Create evm_Call).
Abbreviation process := (Process cfg hashes lib txHash keccak CreateAddress getHash evm_Create evm_Call).

(** ** The counters of the block *)

Lemma same_counters_refl v : same_counters v v.
Proof. done. Qed.

(** The counters of the block are those of [v]. *)
Definition kept (v : view) (s : St) : Prop := ∃ v', reads s v' ∧ same_counters v v'.

Lemma keeps_GetNonce v a : keeps (kept v) (GetNonce a).
Proof. intros s (v1 & Hs & Hc). destruct (reads_nonce s v1 a Hs) as (s' & E & Hs'). unfold wp. rewrite E. by exists v1. Qed.
Lemma keeps_GetBalance v a t : keeps (kept v) (GetBalance a t).
Proof. intros s (v1 & Hs & Hc). destruct (reads_balance s v1 a t Hs) as (s' & E & Hs'). unfold wp. rewrite E. by exists v1. Qed.
Lemma keeps_GetGasUsed v : keeps (kept v) GetGasUsed.
Proof. intros s (v1 & Hs & Hc). destruct (reads_gasUsed s v1 Hs) as (s' & E & Hs'). unfold wp. rewrite E. by exists v1. Qed.
Lemma keeps_AddBalance v a x t : 0 <= x → keeps (kept v) (AddBalance a x t).
Proof. intros Hx s (v1 & Hs & Hc). destruct (add_balance s v1 a x t Hs Hx) as (s' & E & Hs'). unfold wp. rewrite E. by eexists. Qed.
Hint Resolve keeps_GetNonce keeps_GetBalance keeps_GetGasUsed : keeps.

(** *** What the journal records *)







(** ** Applying a transaction *)


Lemma sender_nonneg n t a : (cached_Sender hashes lib n (mkSignedTx t None)).1 = Ok a → 0 <= a.
Proof.
  unfold cached_Sender. cbn [st_from st_tx]. destruct (signer_Sender hashes lib n t) as [b|e|e] eqn:E; cbn; [|done|done]. intros [= <-].
  assert (∀ h r s v, recoverPlain lib h r s v = Ok b → 0 <= b) as Hr.
  { intros h r s v. unfold recoverPlain. repeat case_match; try done. intros [= <-]. eapply be_value_bounds. apply Forall_take, Forall_drop, (pl_keccak Hp). }
  revert E. unfold signer_Sender. se_red. repeat case_match; try done; by apply Hr.
Qed.

Lemma as_message_ok tx hash p rate msg : tx_ok (EvmTx tx) → 0 <= p → 0 <= rate <= 100 →
  AsMessage hashes lib (d_NetworkId (data (EvmTx tx))) None tx hash p rate = Ok msg →
  msg_ok msg ∧ msg_gas msg = Gas (EvmTx tx) ∧ msg_isCrossShard msg = IsCrossShard (EvmTx tx) ∧
  (∀ header tok q s, 0 <= q → sensible (pc_gas cfg) (tx_config cfg s) (vc_tx (NewEVMContext getHash msg tok header q)) msg).
Proof.
  intros [Hg Hpr Hv [Hd1 Hd2] Hto] Hp0 Hrate. unfold AsMessage.
  destruct (cached_Sender _ _ _ _).1 as [from|e|e] eqn:E; [|done|done]. intros [= <-]. pose proof (sender_nonneg _ _ _ E) as Hf.
  split_and!; [by split|done|done|]. intros header tok q s Hq. unfold max_gas in Hg. unfold Gas in Hg.
  split; cbn; [lia|done|done|done|done|apply Hp|done|apply Hp].
Qed.


Lemma with_bloom_ok r : ∃ b, with_bloom keccak r
  = Ok (mkReceipt (PostState r) (Status r) (CumulativeGasUsed r) b (Logs r) (r_TxHash r) (r_ContractAddress r) (ContractFullShardKey r) (r_GasUsed r)).
Proof. destruct (CreateBloom_ok keccak [r]) as (b & Eb & _). exists b. unfold with_bloom. se_red. by rewrite Eb. Qed.


(** ** Processing a block *)









(** ** A validated transaction can be applied *)

(** What validation has checked, when the gas is paid in the default token. *)
Record checked (tx : Transaction) (v : view) (from : Z) : Prop := {
  ch_type : TxType tx = EvmTxType;
  ch_from : (cached_Sender hashes lib (d_NetworkId (data (EvmTx tx))) (mkSignedTx (EvmTx tx) None)).1 = Ok from;
  ch_nonce : from ≠ 0 → v_nonce v from <= Nonce (EvmTx tx);
  ch_intrinsic : intrinsic (pc_gas cfg) (Payload (data (EvmTx tx))) (bool_decide (Transaction.Recipient (data (EvmTx tx)) = None))
      (negb (ToFullShardId (EvmTx tx) =? FromFullShardId (EvmTx tx))) <= Gas (EvmTx tx);
  ch_balance : Gas (EvmTx tx) * Price (data (EvmTx tx)) <= v_bal v from (GasTokenID (EvmTx tx));
}.

(** The branches that ended in an error. *)
Ltac dead := cbv beta iota; try discriminate.

Lemma validate_checks tx s v s1 :
  GasTokenID (EvmTx tx) = token → tx_ok (EvmTx tx) → reads s v → validate None None tx s = (Ok tt, s1) →
  reads s1 v ∧ ∃ from, checked tx v from.
Proof.
  intros Hgt [Hg Hpr Hv [Hd1 Hd2] _] Hs. unfold ValidateTransaction, tx_Sender. se_red.
  destruct (Z.eqb_spec (TxType tx) EvmTxType) as [Ety|]; dead.
  destruct (cached_Sender _ _ _ _).1 as [from|e|e] eqn:Ef; dead. destruct (_ || _); dead.
  destruct (reads_nonce s v from Hs) as (s2 & E2 & Hs2). rewrite E2. case_bool_decide as Hn; dead.
  destruct (IntrinsicGas_value (pc_gas cfg) (Payload (data (EvmTx tx))) (bool_decide (Transaction.Recipient (data (EvmTx tx)) = None))
    (negb (ToFullShardId (EvmTx tx) =? FromFullShardId (EvmTx tx))) (pl_params Hp) Hd2) as [Ei _]. rewrite Ei.
  destruct (bool_decide (Gas _ < _)) eqn:Hi; dead. apply bool_decide_eq_false in Hi. unfold check_balances, check_gas_token. se_red.
  destruct (reads_balance s2 v from (TransferTokenID (EvmTx tx)) Hs2) as (s3 & E3 & Hs3). rewrite E3.
  destruct (reads_balance s3 v from (GasTokenID (EvmTx tx)) Hs3) as (s4 & E4 & Hs4).
  destruct (Z.eqb_spec (GasTokenID (EvmTx tx)) token) as [_|]; [|done]. rewrite andb_false_r.
  assert (∀ sx, reads sx v → Gas (EvmTx tx) * Price (data (EvmTx tx)) <= v_bal v from (GasTokenID (EvmTx tx)) →
    (used ← GetGasUsed; s ← se_get;
     if bool_decide (GetGasLimit s < used + Gas (EvmTx tx)) then se_err "gasLimit is too low" else mret tt) sx = (Ok tt, s1) → reads s1 v ∧ ∃ from, checked tx v from) as Hend.
  { intros sx Hsx Hb. se_red. destruct (reads_gasUsed sx v Hsx) as (s5 & E5 & Hs5). rewrite E5. destruct (bool_decide (GetGasLimit _ < _)); dead. intros E1. injection E1 as <-.
    split; [done|]. exists from. split; [done|done| |lia|done]. intros Hf. rewrite (proj2 (Z.eqb_neq _ _) Hf) in Hn. lia. }
  unfold Transaction.GasPrice, Transaction.Value, Transaction.Gas in *.
  destruct (Z.eqb_spec (TransferTokenID (EvmTx tx)) (GasTokenID (EvmTx tx))) as [Eg|Eg].
  - destruct (_ || _); dead. destruct (bool_decide (_ < _ + _)) eqn:Hb; dead. apply bool_decide_eq_false in Hb. intros E. apply (Hend s3 Hs3); [rewrite <- Eg; lia|exact E].
  - rewrite E4. destruct (_ || _); dead. destruct (_ || _) eqn:Hb; dead. apply orb_false_iff in Hb as [_ Hb%bool_decide_eq_false].
    intros E. apply (Hend s4 Hs4); [lia|exact E].
Qed.

(** C12: a transaction that passed validation is applied.  For a transaction
    within the shard that pays its gas in the default token and has the sender's
    nonce, a successful validation leaves every check of the transition satisfied
    as long as the block has the gas: applying it gives a receipt, for at least
    some gas and at most the gas of the transaction, which leaves the pool of the
    block.  The only error left is that the machine itself reports a balance too
    small for a transfer, and the only panics are the machine's. *)
Theorem validated_applies header tx s v s1 gp u from :
  reads s v → tx_ok (EvmTx tx) → GasTokenID (EvmTx tx) = token →
  IsCrossShard (EvmTx tx) = false → ToFullShardId (EvmTx tx) = FromFullShardId (EvmTx tx) →
  validate None None tx s = (Ok tt, s1) →
  tx_Sender hashes lib (d_NetworkId (data (EvmTx tx))) None tx = Ok from → v_nonce v from = Nonce (EvmTx tx) →
  Gas (EvmTx tx) <= gp <= max_u64 →
  match apply_tx header None tx (mkProc s1 gp u) with
  | (Ok (_, receipt, gas), p') =>
      0 < gas <= Gas (EvmTx tx) ∧ p_gp p' = gp - gas ∧ r_TxHash receipt = txHash tx ∧ r_GasUsed receipt = gas ∧ ∃ v', reads (p_state p') v'
  | (Err e, _) => e = "insufficient balance for transfer" ∧ ∃ msg g ret left_ v2 s2,
      AsMessage hashes lib (d_NetworkId (data (EvmTx tx))) None tx (txHash tx) (Transaction.GasPrice (EvmTx tx)) 100 = Ok msg ∧
      let ctx := NewEVMContext getHash msg (GasTokenID (EvmTx tx)) header (Transaction.GasPrice (EvmTx tx)) in
      ran (tx_config cfg (SetFullShardKey (d_ToFullShardKey (data (EvmTx tx))) s1)) (vc_tx ctx) msg (evm_Create ctx) (evm_Call ctx)
        v g (ret, left_, Some ErrInsufficientBalance) v2 s2
  | (Panic p, _) => may_panic p
  end.
Proof.
  intros Hs Ht Hgt Hc Hid Hval Hf Hn Hgp. destruct (validate_checks tx s v s1 Hgt Ht Hs Hval) as (Hs1 & from' & [Ety Ef _ Hi Hb]).
  unfold tx_Sender in Hf. rewrite (proj2 (Z.eqb_eq _ _) Ety), Ef in Hf. injection Hf as ->. rewrite Hid, Z.eqb_refl in Hi. cbn [negb] in Hi.
  pose proof (key_reads _ _ (d_ToFullShardKey (data (EvmTx tx))) Hs1) as Hs2. set (s2 := SetFullShardKey _ s1) in *.
  assert (∃ msg, AsMessage hashes lib (d_NetworkId (data (EvmTx tx))) None tx (txHash tx) (Transaction.GasPrice (EvmTx tx)) 100 = Ok msg ∧
    msg_from msg = from ∧ msg_nonce msg = Nonce (EvmTx tx) ∧ msg_to msg = Transaction.Recipient (data (EvmTx tx)) ∧
    msg_data msg = Payload (data (EvmTx tx))) as (msg & Em & Emf & Emn & Emt & Emd).
  { unfold AsMessage. rewrite Ef. eexists. split; [reflexivity|]. done. }
  destruct (as_message_ok tx _ _ 100 msg Ht (txo_price _ Ht) ltac:(lia) Em) as (Hm & Hmg & Hmc & Hsen).
  set (ctx := NewEVMContext getHash msg (GasTokenID (EvmTx tx)) header (Transaction.GasPrice (EvmTx tx))).
  pose proof (Hsen header (GasTokenID (EvmTx tx)) (Transaction.GasPrice (EvmTx tx)) s2 (txo_price _ Ht)) as Hse. fold ctx in Hse.
  pose proof (txo_gas _ Ht) as Hgas. rewrite Hc in Hmc.
  assert (intrinsic (pc_gas cfg) (msg_data msg) (bool_decide (msg_to msg = None)) (msg_isCrossShard msg) <= msg_gas msg) as Hle
    by (rewrite Emd, Emt, Hmc, Hmg; exact Hi).
  assert (admitted (vc_tx ctx) msg gp v) as Hadm.
  { split_and!; [|rewrite Emf, Hmg; exact Hb|rewrite Hmg; lia]. intros _. by rewrite Emf, Emn. }
  destruct (run_in_shard_spec (pc_gas cfg) (tx_config cfg s2) (vc_tx ctx) msg (evm_Create ctx) (evm_Call ctx) CreateAddress may_panic Hse gp s2 v
    (pl_evm Hp ctx msg Hm eq_refl) eq_refl Hmc Hs2 ltac:(lia)) as [(Hno & _)|[(_ & Hlt & _)|[(_ & _ & p & st & Hpan & Er)|(_ & _ & ret & left_ & vmerr & v2 & s3 & Hran & Hleft & Er)]]];
    [done|lia|..]; unfold ApplyTransaction, convert_gas, on_proc; rewrite Hgt, Z.eqb_refl; se_red; cbn [p_state p_gp p_usedGas]; rewrite Em;
    unfold ApplyMessage; cbn [p_state p_gp p_usedGas]; rewrite <- Hgt; fold s2 ctx; rewrite Er; [exact Hpan|].
  destruct (decide (vmerr = Some ErrInsufficientBalance)) as [->|Hne].
  { cbn. split; [done|]. eexists msg, _, _, _, _, _. split; [reflexivity|]. exact Hran. }
  pose proof (ran_reads _ _ _ _ _ _ _ _ _ _ Hran) as Hs3.
  destruct (IntrinsicGas_value (pc_gas cfg) (msg_data msg) (bool_decide (msg_to msg = None)) (msg_isCrossShard msg)
              (params_wf _ _ _ _ Hse) (data_len _ _ _ _ Hse)) as [_ Hib].
  destruct (finish_spec _ _ _ _ Hse ret vmerr gp left_ s3 v2 Hs3 ltac:(lia) ltac:(lia) ltac:(lia) Hne) as (ret' & s4 & E4 & Hs4). rewrite E4.
  pose proof (used_positive _ _ vmerr left_ v2 s3 Hs3 Hleft ltac:(lia)) as Hused. unfold add_used. se_red. cbn [p_state p_gp p_usedGas st_gp st_state].
  destruct (reads_gasUsed _ _ Hs4) as (s5 & E5 & Hs5). rewrite E5.
  match goal with |- context [with_bloom keccak ?r] => destruct (with_bloom_ok r) as [b Eb] end. rewrite Eb. cbn.
  rewrite <- Hmg. split_and!; [lia|lia|done|done|done|]. by eexists.
Qed.
End correct.
