(* ===== verification/StateProcessorDemo.v ===== *)
(** * core: a small block

    The StateDB of EvmState.v as the state of the processor, and a block with two
    transactions on it that run in the virtual machine.  The theorems of
    StateProcessorCorrect.v are applied to it. *)

From S2P Require Import Prelude Wp Utils Codec TokenBalances StateDB StateDBCorrect Account Config Signing Transaction Blocks XShardCursor Consensus Receipts.
From S2P Require Import BlockTree ChainInsert EvmBase EvmOps EvmRun EvmLaws EvmInstr Transition TransitionCorrect EvmState EvmCorrect StateProcessor StateProcessorCorrect.

Local Open Scope Z_scope.

(** ** The fields of the block in the StateDB *)

Definition db_Prepare (t b i : Z) (s : StateDB) : StateDB :=
  mkState (stateObjects s) (stateObjectsDirty s) (StateDB.refund s) t b i (logs s) (logSize s) (preimages s) (entries s) (dirties s)
    (validRevisions s) (nextRevisionId s) (fullShardKey s).
Definition db_SetFullShardKey (k : Z) (s : StateDB) : StateDB :=
  mkState (stateObjects s) (stateObjectsDirty s) (StateDB.refund s) (thash s) (bhash s) (txIndex s) (logs s) (logSize s) (preimages s)
    (entries s) (dirties s) (validRevisions s) (nextRevisionId s) k.
Definition clearJournalAndRefund (s : StateDB) : StateDB := set_refund 0 (set_revisions [] (nextRevisionId s) (set_journal [] ∅ s)).
Definition chain_GetLogs (h : Z) (s : StateDB) : list Log := default [] (logs s !! h).

Definition with_db (f : StateDB → StateDB) (c : ChainState) : ChainState :=
  mkChain (f (cs_db c)) (cs_gasUsed c) (cs_blockFee c) (cs_xShardList c) (cs_block c).
Definition with_block (f : BlockFields → BlockFields) (c : ChainState) : ChainState :=
  mkChain (cs_db c) (cs_gasUsed c) (cs_blockFee c) (cs_xShardList c) (f (cs_block c)).

(** Finalising a state: here only the end of it, without the write to the tries. *)
#[export] Instance chain_block : BlockState ChainState := {|
  GetGasLimit c := gasLimit (cs_block c);
  SetGasLimit g := with_block (fun b => mkFields g (blockCoinbase b) (timeStamp b) (blockNumber b) (senderDisallowMap b));
  GetBlockCoinbase c := blockCoinbase (cs_block c);
  SetBlockCoinbase a := with_block (fun b => mkFields (gasLimit b) a (timeStamp b) (blockNumber b) (senderDisallowMap b));
  GetTimeStamp c := timeStamp (cs_block c);
  GetBlockNumber c := blockNumber (cs_block c);
  GetSenderDisallowMap c := senderDisallowMap (cs_block c);
  StateProcessor.SetFullShardKey k := with_db (db_SetFullShardKey k);
  Prepare t b i := with_db (db_Prepare t b i);
  GetLogs h c := chain_GetLogs h (cs_db c);
  Finalise := se_mod (with_db clearJournalAndRefund);
|}.

#[local] Existing Instance demo_ops.
#[local] Existing Instance demo_vm.
#[local] Existing Instance demo_laws.
#[local] Existing Instance demo_vm_laws.

(** Snapshots of an earlier transaction stay in the list but are not reverted to. *)
Lemma stale_snapshots P G s s' : Inv demo_trie demo_storage demo_code sample_keccak P G s →
  validRevisions s' = validRevisions s → nextRevisionId s' = nextRevisionId s → wf demo_trie s' →
  Inv demo_trie demo_storage demo_code sample_keccak (validRevisions s) [] s'.
Proof.
  intros HI Ev En Hw. pose proof (inv_ids _ _ _ _ _ _ _ HI) as Hids. destruct HI as [Hr Hs Hn He Hl Hg _].
  split; rewrite ?app_nil_r, ?Hids; [by rewrite Ev|done|by rewrite En|constructor..|done].
Qed.

#[export] Instance chain_block_laws : BlockLaws ChainState.
Proof.
  split.
  - intros c v k [(P & G & HG) [Hb Hn Hr] Hok Hg Hf Hl]. split; try done. exists (validRevisions (cs_db c)), [].
    eapply stale_snapshots; [exact HG|done|done|]. destruct (inv_wf _ _ _ _ _ _ _ HG) as [Ho Hen]. by split.
  - intros c v t b i [(P & G & HG) [Hb Hn Hr] Hok Hg Hf Hl]. split; try done. exists (validRevisions (cs_db c)), [].
    eapply stale_snapshots; [exact HG|done|done|]. destruct (inv_wf _ _ _ _ _ _ _ HG) as [Ho Hen]. by split.
  - intros c v g [HG Hs Hok Hg Hf Hl]. by split.
  - intros c v g [HG Hs Hok Hg Hf Hl]. by split.
  - intros c v [(P & G & HG) [Hb Hn Hr] [Hok1 Hok2 Hok3] Hg Hf Hl]. eexists _, (with_refund 0 v). split; [reflexivity|]. split; [|done].
    split; [|by split|by split|done|done|done]. exists [], []. split; [done|constructor..|]. destruct (inv_wf _ _ _ _ _ _ _ HG) as [Ho _]. split; [done|constructor].
Qed.

(** ** A machine, a configuration and a block *)

(** The machine of EvmRun.v with fuel for the gas it is given; the contract that
    changes gas tokens is not deployed, and what it would call fails. *)
Definition block_Create (ctx : VmContext) (from : Z) (data : list Z) (g value : Z) (o : option Z) : SE ChainState (list Z * Z * option VMError) :=
  tx_Create demo_env sample_keccak demo_CreateAddress demo_CreateAddress2 (Z.to_nat (2 * g + 3)) (vc_TransferTokenID ctx) from data g value o.
Definition block_Call (ctx : VmContext) (from to : Z) (data : list Z) (g value : Z) : SE ChainState (list Z * Z * option VMError) :=
  if from =? gas_contract then mret ([], 0, Some (OtherVMError "not deployed"))
  else tx_Call demo_env sample_keccak demo_CreateAddress demo_CreateAddress2 (Z.to_nat (2 * g + 3)) (vc_TransferTokenID ctx) from to data g value.
Definition block_hash (tx : Transaction) : Z := 1000 + AccountNonce (data (EvmTx tx)).
(** Every signature is that of account 7. *)
Definition block_sigs : SigLib :=
  mkSigLib (fun _ _ _ => true) (fun _ _ => Some [4]) (fun _ => be_bytes 32 7) (fun _ _ => Err "no key").
Definition block_quark : Config.QuarkChainConfig := match demo_valid with Ok q => q | _ => demo_quark end.
Definition block_cfg : ProcConfig :=
  mkProcConfig demo_gas block_quark (mkBranch 2) (1, 2) 1 0 0 5 5 1000000 0 1.
Definition demo_tx (nonce to value : Z) : Transaction :=
  mkTx EvmTxType (mkEvmTx (mkTxdata nonce 1 30000 (Some to) value [] 5 0 0 1 1 0 (27, 1, 1)) false None 2 2).
Definition demo_header : MinorBlockHeader :=
  mkMinorHeader 900 0 (mkBranch 2) 1 (mkAddress (be_bytes 20 9) 0) ∅ 899 0 100000 0 1 1 0 [] [] 0.

Lemma block_laws : proc_laws block_cfg block_sigs block_hash block_Create block_Call (known_panic demo_env).
Proof.
  split.
  - split; cbn; lia.
  - by split_and!.
  - intros d. apply be_bytes_ok.
  - intros tx t E. unfold block_hash. cbn. by rewrite E.
  - intros ctx msg [Hf Ht [Hg Hg'] Hv [Hd Hd']] Hca. split.
    + intros g s v Hs Hle. apply (tx_Create_ok demo_env sample_keccak demo_env_sensible demo_crypto_sensible
        demo_CreateAddress demo_CreateAddress2 demo_CreateAddress_nonneg ltac:(done)); [done|done|done| |done|lia|].
      * intros a E. rewrite Hca in E. discriminate E.
      * rewrite Z2Nat.id; lia.
    + intros to g s v Eto Hs Hle. unfold block_Call. destruct (_ =? gas_contract).
      { se_red. split; [lia|]. exists v. by split_and!. }
      apply (tx_Call_ok demo_env sample_keccak demo_env_sensible demo_crypto_sensible
        demo_CreateAddress demo_CreateAddress2 demo_CreateAddress_nonneg ltac:(done)); [done|by apply Ht|split; [done|lia]|done|done|lia|].
      rewrite Z2Nat.id; lia.
  - intros n input s v Hs. change (ext s s ∧ (∃ v', reads s v') ∧ 0 <= 0 <= 100 ∧ bytes_ok []).
    split_and!; [apply ext_refl|by exists v|lia|lia|constructor].
Qed.

Definition sample_words (l : list Z) : list Z := be_bytes 32 (Z.of_nat (length l)).
Abbreviation block_process := (Process block_cfg demo_tx_hashes block_sigs block_hash sample_words demo_contract_address (fun _ _ => 0) block_Create block_Call).
Lemma demo_tx_ok nonce to value : 0 <= to → 0 <= value → tx_ok (EvmTx (demo_tx nonce to value)).
Proof. intros Hto Hv. split; cbn; [unfold max_gas; lia|lia|done|split; [constructor|done]|]. by intros a [= <-]. Qed.


Definition demo_validated : result unit * ChainState :=
  ValidateTransaction block_cfg demo_tx_hashes block_sigs block_Call None None (demo_tx 3 60 5) fresh_chain.
Definition demo_applied : result (list Z * Receipt * Z) * Proc ChainState :=
  ApplyTransaction block_cfg demo_tx_hashes block_sigs block_hash sample_words demo_contract_address (fun _ _ => 0) block_Create block_Call
    demo_header None (demo_tx 3 60 5) (mkProc demo_validated.2 100000 0).
Lemma validated_applies_witness :
  ∃ ret receipt gas p', demo_applied = (Ok (ret, receipt, gas), p') ∧ 0 < gas <= 30000 ∧ p_gp p' = 100000 - gas.
Proof.
  assert (demo_validated.1 = Ok tt) as Ev by (vm_compute; reflexivity). assert (is_ok demo_applied.1 = true) as Ea by (vm_compute; reflexivity).
  pose proof (validated_applies block_cfg demo_tx_hashes block_sigs block_hash sample_words demo_contract_address (fun _ _ => 0) block_Create block_Call
    (known_panic demo_env) block_laws demo_header (demo_tx 3 60 5) fresh_chain (fresh_view demo_trie sample_keccak) demo_validated.2 100000 0 7
    demo_reads (demo_tx_ok 3 60 5 ltac:(discriminate) ltac:(discriminate)) eq_refl eq_refl eq_refl) as Hv.
  fold demo_applied in Hv.
  assert (ValidateTransaction block_cfg demo_tx_hashes block_sigs block_Call None None (demo_tx 3 60 5) fresh_chain = (Ok tt, demo_validated.2)) as Ed
    by (change (demo_validated = (Ok tt, demo_validated.2)); rewrite <- Ev; apply surjective_pairing).
  specialize (Hv Ed eq_refl eq_refl ltac:(split; discriminate)).
  destruct demo_applied as [[[[ret receipt] gas]|e|e] p']; [|discriminate Ea|discriminate Ea].
  destruct Hv as (Hg & Hp & _). exists ret, receipt, gas, p'. split; [reflexivity|]. split; [exact Hg|exact Hp].
Defined.
