(* ===== verification/TxPool.v ===== *)
(** * core: the transaction pool

    Models src/core/tx_pool.go: the pending and the queued lists of the accounts
    (TxList.v), the lookup and the price heap over all of them, and the
    operations that keep the four together: a transaction is added or replaces
    another, queued transactions that became executable are promoted, pending
    ones that became invalid are demoted, the limits of the pool are enforced,
    and the loop that schedules these runs.  The chain is used through the class
    [minorBlockChain], as in the code.

    The lock of the pool makes the operations atomic; one that is called with
    the lock held is a definition on the state [TxPool].  A list is a pointer in
    the code: a change of it is a change of the entry of its map.  The order in
    which Go iterates a map, the order in which the priority queue hands out
    equal priorities, the order in which the sort leaves equal heartbeats, and
    the clock are the fields of [Oracle], fixed within one operation. *)

From S2P Require Import Prelude Transaction Blocks TxList BlockTree ChainInsert.

Local Open Scope Z_scope.

Record TxPoolConfig := mkPoolConfig {
  Locals : list Z;
  NoLocals : bool;
  PriceLimit : Z;
  PriceBump : Z;
  AccountSlots : Z;
  GlobalSlots : Z;
  AccountQueue : Z;
  GlobalQueue : Z;
  Lifetime : Z;                             (* nanoseconds *)
  PoolNetWorkID : Z;
}.
Definition DefaultTxPoolConfig : TxPoolConfig :=
  mkPoolConfig [] false 1 10 16 81920 64 1024 (3 * 3600 * 1000000000) 3.

(** What the pool uses of its chain: the interface of the code, and the checks
    of state_processor.go against a state (StateProcessor.v). *)
Class minorBlockChain (St : Type) := {
  chain_CurrentBlock : MinorBlock;
  chain_GetMinorBlock : Z → option MinorBlock;
  stateAt : MinorBlock → result St;
  chain_validateTx : Transaction → SE St Transaction;
  chain_ValidateTransaction : Transaction → SE St unit;
  chain_GasPrice : Z → Z → SE St Z;         (* ConvertToDefaultChainTokenGasPrice *)
  state_GetNonce : St → Z → Z;
  state_GetBalanceMap : St → Z → gmap Z Z;
  tx_Size : EvmTransaction → Z;
  MinTXPoolGasPrice : Z;
  TransactionQueueSizeLimitPerShard : Z;
}.

(** The choices the language and its library leave open, and the time. *)
Record Oracle := mkOracle {
  range_balances : gmap Z Z → list (Z * Z);
  range_txs : gmap Z Transaction → list (Z * Transaction);
  range_lists : gmap Z txList → list (Z * txList);
  range_events : gmap Z txSortedMap → list (Z * txSortedMap);
  prque_order : list (Z * Z) → list Z;      (* address and priority *)
  sort_beats : list (Z * Z) → list (Z * Z); (* address and heartbeat *)
  now : Z;
}.

(** [txNoncer]: the copy of the state it was made from. *)
Record txNoncer (St : Type) := mkNoncer { fallback : St; nonces : gmap Z Z }.
Arguments mkNoncer {St}.
Arguments fallback {St}.
Arguments nonces {St}.

(** [events] is what was sent to the scheduler by queueTxEvent. *)
Record TxPool (St : Type) := mkPool {
  gasPrice : Z;
  currentState : option St;
  pendingNonces : option (txNoncer St);
  currentMaxGas : Z;
  locals : accountSet;
  pending : gmap Z txList;
  queue : gmap Z txList;
  beats : gmap Z Z;
  all : gmap Z Transaction;
  priced : txPricedList;
  events : Transactions;
}.
Arguments mkPool {St}.
Arguments gasPrice {St}.
Arguments currentState {St}.
Arguments pendingNonces {St}.
Arguments currentMaxGas {St}.
Arguments locals {St}.
Arguments pending {St}.
Arguments queue {St}.
Arguments beats {St}.
Arguments all {St}.
Arguments priced {St}.
Arguments events {St}.

(** ** Time *)

(** time.Time{}, in nanoseconds of the Unix epoch. *)
Definition zero_time : Z := -62135596800 * 1000000000.
(** time.Since saturates. *)
Definition Since (now t : Z) : Z := Z.max (- 2 ^ 63) (Z.min (2 ^ 63 - 1) (now - t)).

Section pool.
Context {St : Type} `{!minorBlockChain St}.
Context (Hash : Transaction → Z) (recover : EvmTransaction → option Z) (config : TxPoolConfig).

Abbreviation PM := (SE (TxPool St)).
Abbreviation Pool := (TxPool St).

(** The zero address if the sender cannot be recovered. *)
Definition sender (tx : Transaction) : Z := default 0 (recover (EvmTx tx)).

Definition set_gasPrice (x : Z) (p : Pool) : Pool :=
  mkPool x (currentState p) (pendingNonces p) (currentMaxGas p) (locals p) (pending p) (queue p) (beats p)
    (all p) (priced p) (events p).
Definition set_state (s : option St) (p : Pool) : Pool :=
  mkPool (gasPrice p) s (pendingNonces p) (currentMaxGas p) (locals p) (pending p) (queue p) (beats p)
    (all p) (priced p) (events p).
Definition set_nonces (n : option (txNoncer St)) (p : Pool) : Pool :=
  mkPool (gasPrice p) (currentState p) n (currentMaxGas p) (locals p) (pending p) (queue p) (beats p)
    (all p) (priced p) (events p).
Definition set_maxGas (g : Z) (p : Pool) : Pool :=
  mkPool (gasPrice p) (currentState p) (pendingNonces p) g (locals p) (pending p) (queue p) (beats p)
    (all p) (priced p) (events p).
Definition set_locals (l : accountSet) (p : Pool) : Pool :=
  mkPool (gasPrice p) (currentState p) (pendingNonces p) (currentMaxGas p) l (pending p) (queue p) (beats p)
    (all p) (priced p) (events p).
Definition set_pending (m : gmap Z txList) (p : Pool) : Pool :=
  mkPool (gasPrice p) (currentState p) (pendingNonces p) (currentMaxGas p) (locals p) m (queue p) (beats p)
    (all p) (priced p) (events p).
Definition set_queue (m : gmap Z txList) (p : Pool) : Pool :=
  mkPool (gasPrice p) (currentState p) (pendingNonces p) (currentMaxGas p) (locals p) (pending p) m (beats p)
    (all p) (priced p) (events p).
Definition set_beats (b : gmap Z Z) (p : Pool) : Pool :=
  mkPool (gasPrice p) (currentState p) (pendingNonces p) (currentMaxGas p) (locals p) (pending p) (queue p) b
    (all p) (priced p) (events p).
Definition set_all (a : gmap Z Transaction) (p : Pool) : Pool :=
  mkPool (gasPrice p) (currentState p) (pendingNonces p) (currentMaxGas p) (locals p) (pending p) (queue p) (beats p)
    a (priced p) (events p).
Definition set_priced (x : txPricedList) (p : Pool) : Pool :=
  mkPool (gasPrice p) (currentState p) (pendingNonces p) (currentMaxGas p) (locals p) (pending p) (queue p) (beats p)
    (all p) x (events p).
Definition set_events (e : Transactions) (p : Pool) : Pool :=
  mkPool (gasPrice p) (currentState p) (pendingNonces p) (currentMaxGas p) (locals p) (pending p) (queue p) (beats p)
    (all p) (priced p) e.

(** ** The parts of the pool *)

Definition nil_deref {A} : PM A := se_panic "invalid memory address or nil pointer dereference".
(** A pointer of the code. *)
Definition deref {A} (x : option A) : PM A :=
  match x with Some a => mret a | None => nil_deref end.
Definition deref_all {A} (xs : list (option A)) : PM (list A) :=
  match mapM id xs with Some l => mret l | None => nil_deref end.

(** A computation on the current state. *)
Definition on_state {A} (f : SE St A) : PM A := fun p =>
  match currentState p with
  | None => nil_deref p
  | Some s => let '(r, s') := f s in (r, set_state (Some s') p)
  end.
Definition pool_GetNonce (addr : Z) : PM Z :=
  p ← se_get; s ← deref (currentState p); mret (state_GetNonce s addr).
Definition pool_GetBalanceMap (addr : Z) : PM (gmap Z Z) :=
  p ← se_get; s ← deref (currentState p); mret (state_GetBalanceMap s addr).

Definition on_noncer {A} (f : (Z → Z) → gmap Z Z → A * gmap Z Z) : PM A :=
  p ← se_get;
  n ← deref (pendingNonces p);
  let '(a, m) := f (state_GetNonce (fallback n)) (nonces n) in
  _ ← se_mod (set_nonces (Some (mkNoncer (fallback n) m)));
  mret a.
Definition nonces_get (addr : Z) : PM Z := on_noncer (fun f m => noncer_get f addr m).
Definition nonces_set (addr n : Z) : PM unit := on_noncer (fun _ m => (tt, noncer_set addr n m)).
Definition nonces_setIfLower (addr n : Z) : PM unit :=
  on_noncer (fun f m => (tt, noncer_setIfLower f addr n m)).

(** The list of an account, by its pointer. *)
Definition on_pending {A} (addr : Z) (f : SE txList A) : PM A :=
  p ← se_get;
  l ← deref (pending p !! addr);
  let '(r, l') := f l in
  _ ← se_mod (set_pending (<[addr := l']> (pending p)));
  se_lift r.
Definition on_queue {A} (addr : Z) (f : SE txList A) : PM A :=
  p ← se_get;
  l ← deref (queue p !! addr);
  let '(r, l') := f l in
  _ ← se_mod (set_queue (<[addr := l']> (queue p)));
  se_lift r.
Definition on_list {A} (is_pending : bool) (addr : Z) (f : SE txList A) : PM A :=
  if is_pending then on_pending addr f else on_queue addr f.
Definition pending_Len (addr : Z) : PM Z :=
  p ← se_get; l ← deref (pending p !! addr); mret (Z.of_nat (list_Len l)).

Definition all_Remove (hash : Z) : PM unit := se_mod (fun p => set_all (lookup_Remove hash (all p)) p).
Definition all_Add (tx : Transaction) : PM unit := se_mod (fun p => set_all (lookup_Add Hash tx (all p)) p).
Definition pool_Put (tx : Transaction) : PM unit := se_mod (fun p => set_priced (priced_Put tx (priced p)) p).
Definition queueTxEvent (tx : Transaction) : PM unit := se_mod (fun p => set_events (events p ++ [tx]) p).

(** For each transaction of a slice. *)
Fixpoint for_each {A} (xs : list A) (f : A → PM unit) : PM unit :=
  match xs with
  | [] => mret tt
  | x :: xs => _ ← f x; for_each xs f
  end.
Definition forget (txs : Transactions) : PM unit := for_each txs (fun tx => all_Remove (Hash tx)).

Section operations.
Context (o : Oracle).

Definition pool_Removed (count : Z) : PM unit :=
  se_mod (fun p => set_priced (Removed (range_txs o) (all p) count (priced p)) p).
(** The transaction another one replaced. *)
Definition remove_old (old : option Transaction) : PM unit :=
  match old with
  | None => mret tt
  | Some t => _ ← all_Remove (Hash t); pool_Removed 1
  end.
(** Mark a transaction as known, if it is not. *)
Definition mark (hash : Z) (tx : Transaction) : PM unit :=
  p ← se_get;
  match all p !! hash with
  | Some _ => mret tt
  | None => _ ← all_Add tx; pool_Put tx
  end.

(** ** Adding *)

Definition pool_validateTx (tx : Transaction) : PM Transaction :=
  if bool_decide (GasPrice (EvmTx tx) < MinTXPoolGasPrice) then se_err "invalid gasprice: tx min gas price is %d"
  else
    p ← se_get;
    if bool_decide (i64 TransactionQueueSizeLimitPerShard < Z.of_nat (base.size (all p))) then se_err "txpool queue full"
    else
      tx ← on_state (chain_validateTx tx);
      if bool_decide (32 * 1024 < tx_Size (EvmTx tx)) then se_err "oversized data"
      else if bool_decide (Value (EvmTx tx) < 0) then se_err "negative value"
      else
        p ← se_get;
        if bool_decide (currentMaxGas p < Gas (EvmTx tx)) then se_err "exceeds block gas limit"
        else
          match recover (EvmTx tx) with
          | None => se_err "invalid sender"
          | Some _ => _ ← on_state (chain_ValidateTransaction tx); mret tx
          end.

Definition enqueueTx (hash : Z) (tx : Transaction) : PM bool :=
  let from := sender tx in
  p ← se_get;
  let list := default (newTxList false) (queue p !! from) in
  let '(inserted, old, list) := list_Add tx (PriceBump config) list in
  _ ← se_mod (set_queue (<[from := list]> (queue p)));
  if negb inserted then se_err "replacement transaction underpriced"
  else
    _ ← remove_old old;
    _ ← mark hash tx;
    mret (bool_decide (is_Some old)).
(** A caller that ignores the error. *)
Definition enqueue_again (tx : Transaction) : PM unit := _ ← se_try (enqueueTx (Hash tx) tx); mret tt.

(** Out of the pending list of its account; its followers go back to the
    queue.  Whether it was there. *)
Definition remove_pending (addr : Z) (tx : Transaction) : PM bool :=
  p ← se_get;
  match pending p !! addr with
  | None => mret false
  | Some list =>
      let '(removed, invalids, list) := list_Remove (range_txs o) tx list in
      if (removed : bool) then
        _ ← (if list_Empty list
             then _ ← se_mod (set_pending (delete addr (pending p)));
                  se_mod (fun p => set_beats (delete addr (beats p)) p)
             else se_mod (set_pending (<[addr := list]> (pending p))));
        _ ← for_each invalids enqueue_again;
        _ ← nonces_setIfLower addr (nonce tx);
        mret true
      else _ ← se_mod (set_pending (<[addr := list]> (pending p))); mret false
  end.
Definition remove_queued (addr : Z) (tx : Transaction) : PM unit :=
  p ← se_get;
  match queue p !! addr with
  | None => mret tt
  | Some future =>
      let '(_, _, future) := list_Remove (range_txs o) tx future in
      if list_Empty future then se_mod (set_queue (delete addr (queue p)))
      else se_mod (set_queue (<[addr := future]> (queue p)))
  end.
Definition removeTx (hash : Z) (outofbound : bool) : PM unit :=
  p ← se_get;
  match all p !! hash with
  | None => mret tt
  | Some tx =>
      let addr := sender tx in
      _ ← all_Remove hash;
      _ ← (if outofbound then pool_Removed 1 else mret tt);
      removed ← remove_pending addr tx;
      if (removed : bool) then mret tt else remove_queued addr tx
  end.

(** A full pool makes room for a transaction that is dear enough. *)
Definition make_room (tx : Transaction) (local : bool) : PM unit :=
  p ← se_get;
  let count := Z.of_nat (base.size (all p)) in
  let slots := u64 (GlobalSlots config + GlobalQueue config) in
  if bool_decide (slots <= count) then
    underpriced ← (if local then mret false
                   else let '(u, l) := Underpriced Hash recover (all p) tx (locals p) (priced p) in
                        _ ← se_mod (set_priced l); mret u);
    if (underpriced : bool) then se_err "transaction underpriced"
    else
      p ← se_get;
      let '(r, l) := Discard Hash recover (all p) (count - i64 (u64 (slots - 1))) (locals p) (priced p) in
      _ ← se_mod (set_priced l);
      drop ← se_lift r;
      for_each drop (fun t => removeTx (Hash t) false)
  else mret tt.

(** In the place of a pending transaction. *)
Definition replace_pending (tx : Transaction) (from : Z) (list : txList) : PM bool :=
  let '(inserted, old, list) := list_Add tx (PriceBump config) list in
  _ ← se_mod (fun p => set_pending (<[from := list]> (pending p)) p);
  if negb inserted then se_err "replacement transaction underpriced"
  else
    _ ← remove_old old;
    _ ← all_Add tx;
    _ ← pool_Put tx;
    _ ← queueTxEvent tx;
    mret (bool_decide (is_Some old)).
(** Whether the transaction replaced another one. *)
Definition add (tx : Transaction) (local : bool) : PM bool :=
  let hash := Hash tx in
  p ← se_get;
  if bool_decide (is_Some (all p !! hash)) then se_err "known transaction: %x"
  else
    tx ← pool_validateTx tx;
    defaultGasPrice ← on_state (chain_GasPrice (GasTokenID (EvmTx tx)) (GasPrice (EvmTx tx)));
    if bool_decide (defaultGasPrice < MinTXPoolGasPrice)
    then se_err "defaultGasPrice %v is small than minTxPoolGasPrice %v"
    else
      _ ← make_room tx local;
      let from := sender tx in
      p ← se_get;
      match list ← pending p !! from; if Overlaps tx list then Some list else None with
      | Some list => replace_pending tx from list
      | None =>
          replaced ← enqueueTx hash tx;
          _ ← (if local && negb (set_contains from (locals p)) then se_mod (fun p => set_locals (set_add from (locals p)) p)
               else mret tt);
          mret replaced
      end.

(** The errors of the transactions, and the accounts to promote. *)
Fixpoint addTxsLocked (txs : Transactions) (local : bool) (errs : list (option string)) (dirty : accountSet)
    : PM (list (option string) * accountSet) :=
  match txs with
  | [] => mret (errs, dirty)
  | tx :: txs =>
      r ← se_try (add tx local);
      match (r : bool + string) with
      | inl replaced => addTxsLocked txs local (errs ++ [None]) (if (replaced : bool) then dirty else addTx recover tx dirty)
      | inr e => addTxsLocked txs local (errs ++ [Some e]) dirty
      end
  end.
Definition newAccountSet : accountSet := mkAccounts ∅ None.

(** The errors of the new transactions go to the first slots without one. *)
Fixpoint fill_slots (newErrs : list (option string)) (nilSlot : nat) (errs : list (option string))
    : result (list (option string)) :=
  let fix next (fuel slot : nat) : result nat :=
    match errs !! slot with
    | None => Panic "index out of range"
    | Some None => Ok slot
    | Some (Some _) => match fuel with O => no_fuel | S fuel => next fuel (S slot) end
    end in
  match newErrs with
  | [] => Ok errs
  | err :: newErrs =>
      slot ← next (length errs) nilSlot;
      fill_slots newErrs slot (<[slot := err]> errs)
  end.

(** The accounts to be promoted are None if nothing is requested. *)
Definition addTxs (txs : Transactions) (local : bool) : PM (list (option string) * option accountSet) :=
  p ← se_get;
  let known tx := bool_decide (is_Some (all p !! Hash tx)) in
  let errs := (fun tx => if known tx then Some "known transaction: %x" else None) <$> txs in
  let news := filter (fun tx => known tx = false) txs in
  if bool_decide (length news = 0%nat) then mret (errs, None)
  else
    r ← addTxsLocked news local [] newAccountSet;
    let '(newErrs, dirtyAddrs) := r in
    errs ← se_lift (fill_slots newErrs 0 errs);
    mret (errs, Some dirtyAddrs).
Definition AddLocals (txs : Transactions) : PM (list (option string) * option accountSet) :=
  addTxs txs (negb (NoLocals config)).
Definition AddRemotes (txs : Transactions) : PM (list (option string) * option accountSet) := addTxs txs false.

(** ** Promoting *)

Definition promoteTx (addr hash : Z) (tx : Transaction) : PM bool :=
  p ← se_get;
  let list := default (newTxList true) (pending p !! addr) in
  let '(inserted, old, list) := list_Add tx (PriceBump config) list in
  _ ← se_mod (set_pending (<[addr := list]> (pending p)));
  if negb inserted then
    _ ← all_Remove hash;
    _ ← pool_Removed 1;
    mret false
  else
    _ ← remove_old old;
    _ ← mark hash tx;
    _ ← se_mod (fun p => set_beats (<[addr := now o]> (beats p)) p);
    _ ← nonces_set addr (u64 (nonce tx + 1));
    mret true.

Fixpoint promote_ready (addr : Z) (readies promoted : Transactions) : PM Transactions :=
  match readies with
  | [] => mret promoted
  | tx :: readies =>
      inserted ← promoteTx addr (Hash tx) tx;
      promote_ready addr readies (if (inserted : bool) then promoted ++ [tx] else promoted)
  end.
Definition filter_list (bal : gmap Z Z) (gas : Z) : SE txList (Transactions * Transactions) := fun l =>
  let '(drops, invalids, l) := list_Filter (range_balances o) (range_txs o) (range_txs o) bal gas l in
  (Ok (drops, invalids), l).
(** The transactions of a list of the account that are too old or too costly go;
    their number, and those a strict list gives up with them. *)
Definition drop_invalid (is_pending : bool) (addr : Z) : PM (Z * Transactions) :=
  n ← pool_GetNonce addr;
  olds ← on_list is_pending addr (list_Forward n);
  olds ← deref_all olds;
  _ ← forget olds;
  bal ← pool_GetBalanceMap addr;
  p ← se_get;
  di ← on_list is_pending addr (filter_list bal (currentMaxGas p));
  let '(drops, invalids) := (di : Transactions * Transactions) in
  _ ← forget drops;
  mret (Z.of_nat (length olds + length drops), invalids).
(** Over the limit of the account; the number. *)
Definition cap_queued (addr : Z) : PM Z :=
  p ← se_get;
  if set_contains addr (locals p) then mret 0
  else
    caps ← on_queue addr (list_Cap (i64 (AccountQueue config)));
    caps ← deref_all caps;
    _ ← forget caps;
    mret (Z.of_nat (length caps)).
Definition promote_account (addr : Z) (promoted : Transactions) : PM Transactions :=
  p ← se_get;
  match queue p !! addr with
  | None => mret promoted
  | Some _ =>
      di ← drop_invalid false addr;
      n ← nonces_get addr;
      readies ← on_queue addr (fun l => let '(r, l) := list_Ready n l in (Ok r, l));
      readies ← deref_all readies;
      promoted ← promote_ready addr readies promoted;
      caps ← cap_queued addr;
      _ ← pool_Removed ((di : Z * Transactions).1 + caps);
      p ← se_get;
      list ← deref (queue p !! addr);
      _ ← (if list_Empty list then se_mod (set_queue (delete addr (queue p))) else mret tt);
      mret promoted
  end.
Fixpoint promoteExecutables (accounts : list Z) (promoted : Transactions) : PM Transactions :=
  match accounts with
  | [] => mret promoted
  | addr :: accounts => promoted ← promote_account addr promoted; promoteExecutables accounts promoted
  end.

(** ** The limits *)

(** The number of transactions, far below 2^64. *)
Definition total (m : gmap Z txList) : Z :=
  foldl (fun n e => n + Z.of_nat (list_Len e.2)) 0 (range_lists o m).

(** The last transaction of an offender goes. *)
Definition cap_one (addr : Z) : PM unit :=
  len ← pending_Len addr;
  caps ← on_pending addr (list_Cap (len - 1));
  caps ← deref_all caps;
  _ ← for_each caps (fun tx => _ ← all_Remove (Hash tx); nonces_setIfLower addr (nonce tx));
  pool_Removed (Z.of_nat (length caps)).
(** One transaction of each offender goes as long as the pool is over its limit
    and the last of them over the threshold; each round drops a transaction, so
    their number is enough fuel. *)
Fixpoint reduce_loop (fuel : nat) (offenders : list Z) (lst threshold count : Z) : PM Z :=
  if bool_decide (GlobalSlots config < count) then
    len ← pending_Len lst;
    if bool_decide (threshold < len) then
      match fuel with
      | O => se_lift no_fuel
      | S fuel =>
          _ ← for_each offenders cap_one;
          reduce_loop fuel offenders lst threshold (count - Z.of_nat (length offenders))
      end
    else mret count
  else mret count.
Fixpoint offend_loop (fuel : nat) (spammers offenders : list Z) (count : Z) : PM (list Z * Z) :=
  match spammers with
  | [] => mret (offenders, count)
  | offender :: spammers =>
      if bool_decide (GlobalSlots config < count) then
        count ← match last offenders with
                | None => mret count
                | Some lst =>
                    threshold ← pending_Len offender;
                    reduce_loop fuel offenders lst threshold count
                end;
        offend_loop fuel spammers (offenders ++ [offender]) count
      else mret (offenders, count)
  end.
Definition truncatePending : PM unit :=
  p ← se_get;
  let count := total (pending p) in
  if bool_decide (count <= GlobalSlots config) then mret tt
  else
    let big := filter (fun e => set_contains e.1 (locals p) = false ∧ AccountSlots config < Z.of_nat (list_Len e.2))
                 (range_lists o (pending p)) in
    let spammers := prque_order o ((fun e => (e.1, Z.of_nat (list_Len e.2))) <$> big) in
    r ← offend_loop (Z.to_nat count) spammers [] count;
    let '(offenders, count) := (r : list Z * Z) in
    match last offenders with
    | Some lst => _ ← reduce_loop (Z.to_nat count) offenders lst (AccountSlots config) count; mret tt
    | None => mret tt
    end.

(** Flatten keeps what it sorted in the list. *)
Definition queue_Flatten (addr : Z) : PM Transactions :=
  on_queue addr (fun l => let '(c, l) := list_Flatten (range_txs o) l in (Ok c, l)).
(** [addresses] from the last one down. *)
Fixpoint drop_queued (addresses : list (Z * Z)) (drop : Z) : PM unit :=
  match addresses with
  | [] => mret tt
  | (addr, _) :: addresses =>
      if bool_decide (0 < drop) then
        p ← se_get;
        list ← deref (queue p !! addr);
        let size := Z.of_nat (list_Len list) in
        txs ← queue_Flatten addr;
        if bool_decide (size <= drop) then
          _ ← for_each txs (fun tx => removeTx (Hash tx) true);
          drop_queued addresses (drop - size)
        else
          _ ← for_each (take (Z.to_nat drop) (reverse txs)) (fun tx => removeTx (Hash tx) true);
          drop_queued addresses (drop - Z.of_nat (length (take (Z.to_nat drop) (reverse txs))))
      else mret tt
  end.
Definition beat (p : Pool) (addr : Z) : Z := default zero_time (beats p !! addr).
Definition truncateQueue : PM unit :=
  p ← se_get;
  let queued := total (queue p) in
  if bool_decide (queued <= GlobalQueue config) then mret tt
  else
    let remote := filter (fun e => set_contains e.1 (locals p) = false) (range_lists o (queue p)) in
    let addresses := sort_beats o ((fun e => (e.1, beat p e.1)) <$> remote) in
    drop_queued (reverse addresses) (queued - GlobalQueue config).

(** ** Demoting *)

(** A list that does not start at the nonce of its account is queued again. *)
Definition requeue_gapped (addr n : Z) : PM unit :=
  p ← se_get;
  list ← deref (pending p !! addr);
  if bool_decide (0 < list_Len list)%nat && bool_decide (Get n (l_txs list) = None) then
    gapped ← on_pending addr (list_Cap 0);
    gapped ← deref_all gapped;
    for_each gapped enqueue_again
  else mret tt.
Definition demote_account (addr : Z) : PM unit :=
  n ← pool_GetNonce addr;
  di ← drop_invalid true addr;
  let '(count, invalids) := (di : Z * Transactions) in
  _ ← pool_Removed count;
  _ ← for_each invalids enqueue_again;
  _ ← requeue_gapped addr n;
  p ← se_get;
  list ← deref (pending p !! addr);
  if list_Empty list then
    _ ← se_mod (set_pending (delete addr (pending p)));
    se_mod (fun p => set_beats (delete addr (beats p)) p)
  else mret tt.
Definition demoteUnexecutables : PM unit :=
  p ← se_get; for_each (range_lists o (pending p)).*1 demote_account.

(** ** A new head *)

Definition TxDifference (a b : Transactions) : Transactions :=
  filter (fun tx => Hash tx ∉ Hash <$> b) a.

(** One side of the fork down to the height of the other; None is an ancestor
    that is not there.  The number of the block is enough fuel. *)
Fixpoint walk_down (fuel : nat) (height : Z) (b : MinorBlock) (txs : Transactions) : option (MinorBlock * Transactions) :=
  if bool_decide (height < mh_number (mb_header b)) then
    match fuel, chain_GetMinorBlock (mh_parent (mb_header b)) with
    | S fuel, Some b' => walk_down fuel height b' (txs ++ mb_transactions b)
    | _, _ => None
    end
  else Some (b, txs).
(** Both sides down to their common ancestor. *)
Fixpoint walk_both (fuel : nat) (rem add : MinorBlock) (discarded included : Transactions)
    : option (Transactions * Transactions) :=
  if mh_hash (mb_header rem) =? mh_hash (mb_header add) then Some (discarded, included)
  else
    match fuel, chain_GetMinorBlock (mh_parent (mb_header rem)) with
    | S fuel, Some rem' =>
        match chain_GetMinorBlock (mh_parent (mb_header add)) with
        | Some add' => walk_both fuel rem' add' (discarded ++ mb_transactions rem) (included ++ mb_transactions add)
        | None => None
        end
    | _, _ => None
    end.
(** The transactions to reinject; None gives the reset up.  The depth is exact
    while the numbers are below 2^53. *)
Definition reinjected (oldHead newHead : option MinorBlock) : option Transactions :=
  match oldHead, newHead with
  | Some old, Some new =>
      if mh_hash (mb_header old) =? mh_parent (mb_header new) then Some []
      else if bool_decide (64 < Z.abs (mh_number (mb_header old) - mh_number (mb_header new))) then Some []
      else
        rem ← chain_GetMinorBlock (mh_hash (mb_header old));
        add ← chain_GetMinorBlock (mh_hash (mb_header new));
        rd ← walk_down (Z.to_nat (mh_number (mb_header rem))) (mh_number (mb_header add)) rem [];
        let '(rem, discarded) := rd in
        ad ← walk_down (Z.to_nat (mh_number (mb_header add))) (mh_number (mb_header rem)) add [];
        let '(add, included) := ad in
        di ← walk_both (Z.to_nat (mh_number (mb_header rem))) rem add discarded included;
        Some (TxDifference di.1 di.2)
  | _, _ => Some []
  end.
Definition reset (oldHead newHead : option MinorBlock) : PM unit :=
  match reinjected oldHead newHead with
  | None => mret tt
  | Some reinject =>
      let newBlock := default chain_CurrentBlock newHead in
      match stateAt newBlock with
      | Ok statedb =>
          _ ← se_mod (fun p => set_maxGas (u64 (Z.abs (mh_gasLimit (mb_header newBlock))))
                                 (set_nonces (Some (mkNoncer statedb ∅)) (set_state (Some statedb) p)));
          _ ← addTxsLocked reinject false [] newAccountSet;
          mret tt
      | Err _ => mret tt
      | Panic e => se_panic e
      end
  end.

(** ** A run of the scheduler *)

Abbreviation event_map := (gmap Z txSortedMap).
Definition put_event (ev : event_map) (tx : Transaction) : event_map :=
  <[sender tx := Put tx (default newTxSortedMap (ev !! sender tx))]> ev.
(** The events below the nonces of the new state. *)
Fixpoint forward_events (addrs : list Z) (ev : event_map) : PM event_map :=
  match addrs with
  | [] => mret ev
  | addr :: addrs =>
      m ← deref (ev !! addr);
      n ← nonces_get addr;
      let '(r, m) := Forward n m in
      _ ← se_lift r;
      forward_events addrs (if bool_decide (Len m = 0%nat) then delete addr ev else <[addr := m]> ev)
  end.
(** The pending nonce of each account is set past its last transaction. *)
Definition update_nonce (addr : Z) : PM unit :=
  txs ← on_pending addr (fun l => let '(c, l) := list_Flatten (range_txs o) l in (Ok c, l));
  match last (txs : Transactions) with
  | None => se_panic "index out of range"
  | Some tx => nonces_set addr (u64 (nonce tx + 1))
  end.
Definition runReorg (req : option (option MinorBlock * option MinorBlock)) (dirtyAccounts : option accountSet)
    (ev : event_map) : PM (option Transactions) :=
  let promoteAddrs := match dirtyAccounts with Some s => (set_flatten s).1 | None => [] end in
  ra ← match req return PM (list Z * event_map) with
       | None => mret (promoteAddrs, ev)
       | Some (oldHead, newHead) =>
           _ ← reset oldHead newHead;
           ev ← forward_events (range_events o ev).*1 ev;
           p ← se_get;
           mret ((range_lists o (queue p)).*1, ev)
       end;
  let '(promoteAddrs, ev) := ra in
  promoted ← promoteExecutables promoteAddrs [];
  let ev := foldl put_event ev promoted in
  _ ← (if bool_decide (req = None) then mret tt else demoteUnexecutables);
  _ ← truncatePending;
  _ ← truncateQueue;
  p ← se_get;
  _ ← for_each (range_lists o (pending p)).*1 update_nonce;
  mret (if bool_decide (base.size ev = 0%nat) then None
        else Some (foldl (fun txs e => txs ++ (Flatten (range_txs o) e.2).1) [] (range_events o ev))).

(** ** The other operations *)

Definition SetGasPrice (price : Z) : PM unit :=
  _ ← se_mod (set_gasPrice price);
  p ← se_get;
  let '(drop, l) := priced_Cap Hash recover (all p) price (locals p) (priced p) in
  _ ← se_mod (set_priced l);
  for_each drop (fun tx => removeTx (Hash tx) false).

(** A tick of the eviction ticker; an account is visited if its queue is still
    there. *)
Definition evict_account (addr : Z) : PM unit :=
  p ← se_get;
  match queue p !! addr with
  | None => mret tt
  | Some _ =>
      if set_contains addr (locals p) then mret tt
      else if bool_decide (Lifetime config < Since (now o) (beat p addr)) then
        txs ← queue_Flatten addr;
        for_each txs (fun tx => removeTx (Hash tx) true)
      else mret tt
  end.
Definition evict : PM unit := p ← se_get; for_each (range_lists o (queue p)).*1 evict_account.

(** The pool before its state is set, and after. *)
Definition emptyPool : Pool :=
  mkPool (PriceLimit config) None None 0 (foldl (fun s a => set_add a s) newAccountSet (Locals config))
    ∅ ∅ ∅ ∅ (mkPriced [] 0) [].
Definition NewTxPool : result unit * Pool := reset None (Some chain_CurrentBlock) emptyPool.

(** ** Reading *)

Definition stats (p : Pool) : Z * Z := (total (pending p), total (queue p)).
(** The lists sort themselves; what is in them does not change. *)
Definition contents (m : gmap Z txList) : gmap Z Transactions :=
  (fun l => (list_Flatten (range_txs o) l).1) <$> m.
Definition Content (p : Pool) : gmap Z Transactions * gmap Z Transactions := (contents (pending p), contents (queue p)).
Definition Pending (p : Pool) : gmap Z Transactions := contents (pending p).
Definition local (p : Pool) : gmap Z Transactions :=
  set_to_map (fun addr => (addr, default [] (contents (pending p) !! addr) ++ default [] (contents (queue p) !! addr)))
    (filter (fun addr => is_Some (pending p !! addr) ∨ is_Some (queue p !! addr)) (accounts (locals p))).
Definition GetAllTxInPool (p : Pool) : Transactions := (range_txs o (all p)).*2.
End operations.

Definition PendingCount (p : Pool) : Z := Z.of_nat (base.size (all p)).

Inductive TxStatus := TxStatusUnknown | TxStatusQueued | TxStatusPending | TxStatusIncluded.
#[export] Instance TxStatus_eq_dec : EqDecision TxStatus.
Proof. solve_decision. Defined.
Definition has_nonce (m : gmap Z txList) (tx : Transaction) : bool :=
  match m !! sender tx with
  | Some l => bool_decide (is_Some (items (l_txs l) !! nonce tx))
  | None => false
  end.
Definition Status_one (p : Pool) (hash : Z) : TxStatus :=
  match all p !! hash with
  | None => TxStatusUnknown
  | Some tx =>
      if has_nonce (pending p) tx then TxStatusPending
      else if has_nonce (queue p) tx then TxStatusQueued
      else TxStatusUnknown
  end.
Definition Status (p : Pool) (hashes : list Z) : list TxStatus := Status_one p <$> hashes.
End pool.

(** ** The scheduler of the runs *)

Section scheduler.
Context (recover : EvmTransaction → option Z).
Abbreviation event_map := (gmap Z txSortedMap).

(** The arguments of a run in the background; its channel is a number. *)
Record Run := mkRun {
  run_done : nat;
  run_reset : option (option MinorBlock * option MinorBlock);
  run_dirty : option accountSet;
  run_events : event_map;
}.
(** The variables of scheduleReorgLoop. *)
Record Scheduler := mkSched {
  curDone : option nat;
  nextDone : nat;
  launchNextRun : bool;
  sc_reset : option (option MinorBlock * option MinorBlock);
  dirtyAccounts : option accountSet;
  queuedEvents : event_map;
}.
Definition newScheduler : Scheduler := mkSched None 0 false None None ∅.
(** What the loop receives, the end of the current run included. *)
Inductive SchedMsg :=
  | ReqReset (oldHead newHead : option MinorBlock)
  | ReqPromote (set : accountSet)
  | QueueTxEvent (tx : Transaction)
  | RunDone.

(** A new channel for the next round. *)
Definition launch (s : Scheduler) : option Run * Scheduler :=
  match curDone s, launchNextRun s with
  | None, true =>
      (Some (mkRun (nextDone s) (sc_reset s) (dirtyAccounts s) (queuedEvents s)),
       mkSched (Some (nextDone s)) (S (nextDone s)) false None None ∅)
  | _, _ => (None, s)
  end.
(** The answer to a request is the channel of the run to come.  Nothing is
    received from a nil channel. *)
Definition receive (m : SchedMsg) (s : Scheduler) : option (option nat * Scheduler) :=
  match m with
  | ReqReset oldHead newHead =>
      let reset := match sc_reset s with
                   | None => (oldHead, newHead)
                   | Some (oldHead, _) => (oldHead, newHead)
                   end in
      Some (Some (nextDone s), mkSched (curDone s) (nextDone s) true (Some reset) (dirtyAccounts s) (queuedEvents s))
  | ReqPromote set =>
      let dirty := match dirtyAccounts s with
                   | None => set
                   | Some d => set_merge set d
                   end in
      Some (Some (nextDone s), mkSched (curDone s) (nextDone s) true (sc_reset s) (Some dirty) (queuedEvents s))
  | QueueTxEvent tx =>
      Some (None, mkSched (curDone s) (nextDone s) (launchNextRun s) (sc_reset s) (dirtyAccounts s)
                    (put_event recover (queuedEvents s) tx))
  | RunDone =>
      match curDone s with
      | None => None
      | Some _ => Some (None, mkSched None (nextDone s) (launchNextRun s) (sc_reset s) (dirtyAccounts s) (queuedEvents s))
      end
  end.
(** One turn of the loop: the run it launched, the answer it gave. *)
Definition sched_turn (m : SchedMsg) (s : Scheduler) : option (option Run * option nat * Scheduler) :=
  let '(run, s) := launch s in
  '(reply, s) ← receive m s;
  Some (run, reply, s).
(** The loop over what it receives. *)
Definition sched_loop (ms : list SchedMsg) : option (list (option Run * option nat) * Scheduler) :=
  foldl (fun acc m =>
    '(outs, s) ← acc;
    '(run, reply, s) ← sched_turn m s;
    Some (outs ++ [(run, reply)], s)) (Some ([], newScheduler)) ms.
End scheduler.
