(* ===== verification/TxPoolInv.v ===== *)
(** * core: the transaction pool, its invariant

    Total correctness of the computations of TxPool.v, the invariant of the pool,
    and that adding, removing, promoting and demoting keep it: the lists of the
    accounts and the transactions an operation has in its hands are together what
    the lookup knows, no two of them at one account and nonce, and the price heap
    holds them all. *)

From stdpp Require Import sorting.
From S2P Require Import Prelude Wp Heap Transaction Blocks BlockTree ChainInsert TxList TxListCorrect TxPool.

Local Open Scope Z_scope.

Lemma twp_try {S A} (m : SE S A) (Q : A + string → S → Prop) E s :
  twp m (fun a => Q (inl a)) (fun e => Q (inr e)) s → twp (se_try m) Q E s.
Proof. unfold twp, se_try. by destruct (m s) as [[a|e|e] s']. Qed.

(** ** The transactions of a list *)

Definition txs_in (l : txList) : Transactions := (map_to_list (items (l_txs l))).*2.
(** All transactions of a map of lists. *)
Definition txs_of (m : gmap Z txList) : Transactions := map_to_list m ≫= (fun e => txs_in e.2).

Lemma txs_in_rep l L : list_rep l L → txs_in l ≡ₚ L.
Proof.
  intros [Hr _]. unfold txs_in. rewrite (rep_items _ _ Hr), (map_to_list_to_map L (rep_sorted _ _ Hr)).
  by rewrite keyed_snd.
Qed.
Lemma txs_in_len l L : list_rep l L → list_Len l = length L.
Proof. intros [Hr _]. unfold list_Len, Len. rewrite (rep_items _ _ Hr). apply size_to_map, Hr. Qed.
Lemma txs_of_lookup m a l : m !! a = Some l → txs_of m ≡ₚ txs_in l ++ txs_of (delete a m).
Proof.
  intros Hl. unfold txs_of. rewrite <- (insert_delete_id m a l Hl) at 1.
  rewrite map_to_list_insert by apply lookup_delete_eq. done.
Qed.
Lemma txs_of_insert m a l : txs_of (<[a := l]> m) ≡ₚ txs_in l ++ txs_of (delete a m).
Proof.
  rewrite (txs_of_lookup _ a l) by apply lookup_insert_eq. by rewrite delete_insert_eq.
Qed.
Lemma txs_of_delete m a : m !! a = None → txs_of (delete a m) = txs_of m.
Proof. intros Ha. by rewrite delete_id. Qed.
Lemma elem_txs_of m t : t ∈ txs_of m ↔ ∃ a l, m !! a = Some l ∧ t ∈ txs_in l.
Proof.
  unfold txs_of. rewrite list_elem_of_bind. split.
  - intros ([a l] & Ht & Hin%elem_of_map_to_list). by exists a, l.
  - intros (a & l & Hin & Ht). exists (a, l). by rewrite elem_of_map_to_list.
Qed.
Lemma txs_of_empty : txs_of ∅ = [].
Proof. unfold txs_of. by rewrite map_to_list_empty. Qed.

(** What the operations of a list take out of it. *)
Lemma take_Forward thr l L :
  list_rep l L → ∃ R l' L', list_Forward thr l = (Ok (Some <$> R), l') ∧ list_rep l' L' ∧ strict l' = strict l
    ∧ R ++ L' ≡ₚ L ∧ L' = above thr L.
Proof.
  intros Hl. unfold list_Forward. destruct (rep_Forward thr (l_txs l) L (lrep_txs _ _ Hl)) as (m & -> & Hm).
  exists (below thr L), (with_txs m l), (above thr L). split_and!; [done| |done| |done].
  - eapply list_rep_sub; [done|done|]. by intros t [_ Ht]%list_elem_of_filter.
  - by rewrite <- (filter_increasing_split L thr) by apply Hl.
Qed.
Lemma take_Cap thr l L :
  list_rep l L → 0 <= thr → ∃ R l', list_Cap thr l = (Ok (Some <$> R), l')
    ∧ list_rep l' (take (Z.to_nat thr) L) ∧ strict l' = strict l ∧ R ++ take (Z.to_nat thr) L ≡ₚ L
    ∧ R = reverse (drop (Z.to_nat thr) L).
Proof.
  intros Hl Ht. unfold list_Cap. destruct (rep_Cap thr (l_txs l) L (lrep_txs _ _ Hl) Ht) as (m & -> & Hm).
  eexists _, (with_txs m l). split_and!; [done| |done| |done].
  - eapply list_rep_sub; [done|done|]. intros u Hu. eapply elem_of_submseteq; [done|].
    apply sublist_submseteq, sublist_take.
  - rewrite reverse_Permutation, Permutation_app_comm. by rewrite take_drop.
Qed.
Lemma take_Ready start l L :
  list_rep l L → ∃ R l' L', list_Ready start l = (Some <$> R, l') ∧ list_rep l' L' ∧ strict l' = strict l ∧ R ++ L' = L.
Proof.
  intros Hl. unfold list_Ready. pose proof (rep_Ready start (l_txs l) L (lrep_txs _ _ Hl)) as HR.
  assert ((ready_split start L).1 ++ (ready_split start L).2 = L) as Happ.
  { unfold ready_split. destruct L as [|t0 L0]; [done|]. destruct (start <? nonce t0); [done|]. apply consecutive_app. }
  destruct (ready_split start L) as [run rest]. destruct HR as (m & -> & Hm). cbn in Happ.
  exists run, (with_txs m l), rest. split_and!; [done| |done|done].
  eapply list_rep_sub; [done|done|]. intros u Hu. rewrite <- Happ. apply elem_of_app. by right.
Qed.
Lemma take_Flatten range l L :
  is_range range → list_rep l L → ∃ l', list_Flatten range l = (L, l') ∧ list_rep l' L ∧ strict l' = strict l.
Proof.
  intros Hr Hl. unfold list_Flatten. destruct (rep_Flatten range (l_txs l) L Hr (lrep_txs _ _ Hl)) as (m & -> & Hm).
  exists (with_txs m l). split_and!; [done|by eapply list_rep_sub|done].
Qed.
Lemma take_Filter br r r' bal gas l L :
  is_range br → is_range r → is_range r' → list_rep l L →
  ∃ R I l' L', list_Filter br r r' bal gas l = (R, I, l') ∧ list_rep l' L' ∧ strict l' = strict l ∧ R ++ I ++ L' ≡ₚ L
    ∧ (strict l = false → I = []).
Proof.
  intros Hb Hr Hr' Hl. pose proof (list_Filter_rep br r r' bal gas l L Hb Hr Hr' Hl) as HF.
  assert (∀ R I l', list_Filter br r r' bal gas l = (R, I, l') → strict l = false → I = []) as HI.
  { intros R I l'. unfold list_Filter. pose proof (covered_loop_spec (br bal) gas l) as Hc.
    destruct (covered_loop (br bal) gas l) as [[] l1]; [by intros [= _ <- _]|].
    destruct Hc as (Hst & _). rewrite Hst. intros Heq Hs. rewrite Hs in Heq. cbn [andb] in Heq.
    destruct (Filter r (unpayable bal gas) (l_txs l1)). by simplify_eq. }
  destruct (list_Filter br r r' bal gas l) as [[R I] l'] eqn:EF. specialize (HI _ _ _ eq_refl).
  destruct HF as [Hst [(-> & -> & Hl' & _)|(_ & Hl' & Hp)]]; [exists [], [], l', L|eexists R, I, l', _];
    (split_and!; [done|exact Hl'|done| |done]); done.
Qed.
Lemma filter_out tx L :
  increasing L → tx ∈ L → tx :: filter (fun t => nonce t ≠ nonce tx) L ≡ₚ L.
Proof.
  intros Hs Hin. pose proof (increasing_nodup L Hs) as Hnd.
  apply elem_of_Permutation in Hin as [L0 HL]. rewrite HL in Hnd. cbn in Hnd.
  apply NoDup_cons in Hnd as [Hn _]. rewrite HL at 1. rewrite filter_cons_False by tauto. rewrite HL. constructor.
  rewrite filter_all; [done|]. apply Forall_forall. intros t Ht He. apply Hn. rewrite <- He. by apply list_elem_of_fmap_2.
Qed.
Lemma take_Remove range tx l L :
  is_range range → list_rep l L → tx ∈ L →
  ∃ I l' L', list_Remove range tx l = (true, I, l') ∧ list_rep l' L' ∧ strict l' = strict l
    ∧ tx :: I ++ L' ≡ₚ L ∧ (strict l = false → I = []).
Proof.
  intros Hr Hl Hin. pose proof (lrep_txs _ _ Hl) as Hrep. unfold list_Remove.
  destruct (rep_Remove (nonce tx) (l_txs l) L Hrep) as (m & -> & Hm).
  pose proof (filter_out tx L (rep_sorted _ _ Hrep) Hin) as Hp.
  assert (∀ u, u ∈ filter (fun t => nonce t ≠ nonce tx) L → u ∈ L) as Hsub by (by intros u [_ ?]%list_elem_of_filter).
  rewrite bool_decide_true by (by apply list_elem_of_fmap_2). destruct (strict l) eqn:Hst.
  - pose proof (rep_Filter range (fun t => nonce tx <? nonce t) m _ Hr Hm) as HF.
    destruct (Filter range _ m) as [I m']. destruct HF as [HI Hm'].
    eexists I, (with_txs m' l), _. split_and!; [done| |done| |done].
    + eapply list_rep_sub; [done|exact Hm'|]. intros u [_ Hu]%list_elem_of_filter. by apply Hsub.
    + rewrite HI, filter_partition. done.
  - eexists [], (with_txs m l), _. split_and!; [done|by eapply list_rep_sub|done|done|done].
Qed.
Lemma not_Remove range tx l L :
  list_rep l L → nonce tx ∉ nonce <$> L → list_Remove range tx l = (false, [], l).
Proof.
  intros Hl Hin. pose proof (lrep_txs _ _ Hl) as Hrep. unfold list_Remove, Remove. rewrite (rep_items _ _ Hrep).
  rewrite (proj2 (to_map_None L (nonce tx) (rep_sorted _ _ Hrep))).
  - unfold with_txs. by destruct l.
  - intros t Ht He. apply Hin. rewrite <- He. by apply list_elem_of_fmap_2.
Qed.

Lemma ins_perm tx L : increasing L → ins tx L ≡ₚ tx :: filter (fun t => nonce t ≠ nonce tx) L.
Proof.
  intros Hs. apply NoDup_Permutation.
  - eapply NoDup_fmap_1, increasing_nodup, increasing_ins, Hs.
  - apply NoDup_cons. split; [by intros [? _]%list_elem_of_filter|]. apply NoDup_filter.
    by eapply NoDup_fmap_1, increasing_nodup.
  - intros u. rewrite elem_of_ins, elem_of_cons, list_elem_of_filter. tauto.
Qed.
(** The price a replacement must reach. *)
Definition outbids (bump : Z) (tx old : Transaction) : Prop :=
  GasPrice (EvmTx old) < GasPrice (EvmTx tx) ∧ bumped (GasPrice (EvmTx old)) bump <= GasPrice (EvmTx tx).
(** A transaction that is put in a list: it is taken unless the old one at its
    nonce is better; with an old one it changes places. *)
Lemma put_Add tx bump l L :
  list_rep l L → wf_tx tx →
  ∃ acc old l', list_Add tx bump l = (acc, old, l') ∧ strict l' = strict l
    ∧ (nonce tx ∉ nonce <$> L → acc = true ∧ old = None)
    ∧ if acc then (∃ L', list_rep l' L' ∧ option_list old ++ L' ≡ₚ tx :: L ∧ tx ∈ L') ∧ (∀ o, old = Some o → o ∈ L ∧ nonce o = nonce tx ∧ outbids bump tx o)
      else l' = l ∧ old = None.
Proof.
  intros Hl Hwf. pose proof (list_Add_rep tx bump l L Hl Hwf) as HA. cbn zeta in HA.
  pose proof (rep_sorted _ _ (lrep_txs _ _ Hl)) as Hs.
  destruct (list_Add tx bump l) as [[acc rep] l']. destruct HA as (Hst & Hacc & HA).
  exists acc, rep, l'. split_and!; [done|done| |].
  - intros Hfree. assert (list_find (fun t => nonce t = nonce tx) L = None) as Hfind.
    { apply list_find_None, Forall_forall. intros t Ht He. apply Hfree. rewrite <- He. by apply list_elem_of_fmap_2. }
    rewrite Hfind in Hacc, HA. assert (acc = true) as -> by (by apply Hacc). by destruct HA as [-> _].
  - destruct acc; [|by destruct HA as [-> ->]]. destruct HA as [-> Hl'].
    destruct (list_find (fun t => nonce t = nonce tx) L) as [[i o]|] eqn:Hfind; cbn [mbind option_bind].
    + apply list_find_Some in Hfind as (Hi & He & _). apply list_elem_of_lookup_2 in Hi. split.
      * exists (ins tx L). split_and!; [done| |apply elem_of_ins; by left]. rewrite (ins_perm tx L Hs). cbn.
        rewrite Permutation_swap, <- He. by rewrite (filter_out o L Hs Hi).
      * intros o' [= <-]. split_and!; [done|done|]. by apply Hacc.
    + apply list_find_None in Hfind. split; [|done]. exists (ins tx L). split_and!; [done| |apply elem_of_ins; by left]. cbn.
      rewrite (ins_perm tx L Hs), filter_all; done.
Qed.

(** ** The invariant *)

Section invariant.
Context {St : Type} `{!minorBlockChain St}.
Context (Hash : Transaction → Z) (recover : EvmTransaction → option Z) (config : TxPoolConfig).
Abbreviation PM := (SE (TxPool St)).
Abbreviation sender := (sender recover).

(** The account and the nonce of a transaction: its place. *)
Definition place (t : Transaction) : Z * Z := (sender t, nonce t).
Definition hashed (t : Transaction) : Z * Transaction := (Hash t, t).
Definition signed_tx (t : Transaction) : Prop := wf_tx t ∧ is_Some (recover (EvmTx t)).

(** The list of an account. *)
Definition acct_ok (s : bool) (a : Z) (l : txList) : Prop :=
  strict l = s ∧ ∃ L, list_rep l L ∧ Forall (fun t => recover (EvmTx t) = Some a) L.

(** The lists of the accounts are well formed; they and the transactions [X]
    that an operation has in its hands hold no two transactions of one account
    and nonce; and together they are what the lookup knows. *)
Record lists_ok (X : Transactions) (P Q : gmap Z txList) (A : gmap Z Transaction) : Prop := {
  lo_P : map_Forall (acct_ok true) P;
  lo_Q : map_Forall (acct_ok false) Q;
  lo_X : Forall signed_tx X;
  lo_places : NoDup (place <$> X ++ txs_of P ++ txs_of Q);
  lo_all : map_to_list A ≡ₚ hashed <$> X ++ txs_of P ++ txs_of Q;
}.
(** The price heap is a heap, and holds every known transaction but those of [D],
    which are on the way out. *)
Definition price_ok (D : Transactions) (A : gmap Z Transaction) (l : txPricedList) : Prop :=
  heap_ok cheaper (p_items l) ∧ ∀ h t, A !! h = Some t → t ∈ p_items l ∨ t ∈ D.
Record inv (X D : Transactions) (p : TxPool St) : Prop := {
  inv_lists : lists_ok X (pending p) (queue p) (all p);
  inv_price : price_ok D (all p) (priced p);
  inv_state : is_Some (currentState p);
  inv_nonces : is_Some (pendingNonces p);
}.
(** No list is empty, but for those of [E]. *)
Definition full (E : gset Z) (m : gmap Z txList) : Prop :=
  ∀ a l, m !! a = Some l → a ∉ E → list_Len l ≠ 0%nat.

Lemma recover_sender t a : recover (EvmTx t) = Some a → sender t = a.
Proof. unfold TxPool.sender. by intros ->. Qed.
Lemma acct_sender s a l t : acct_ok s a l → t ∈ txs_in l → sender t = a ∧ signed_tx t.
Proof.
  intros (_ & L & HL & Hall) Ht. rewrite (txs_in_rep l L HL) in Ht. rewrite Forall_forall in Hall.
  pose proof (Hall t Ht) as Hr. split; [by apply recover_sender|]. split; [|by eexists].
  pose proof (rep_wf _ _ (lrep_txs _ _ HL)) as Hwf. rewrite Forall_forall in Hwf. by apply Hwf.
Qed.
Lemma full_len l L : list_rep l L → list_Len l ≠ 0%nat ↔ L ≠ [].
Proof. intros HL. rewrite (txs_in_len l L HL). by destruct L. Qed.

Lemma lists_perm X X' P Q A : X ≡ₚ X' → lists_ok X P Q A → lists_ok X' P Q A.
Proof. intros HX [? ? H3 H4 H5]. constructor; [done|done| | |]; by rewrite <- HX. Qed.

(** Every transaction of the pool is known by its hash. *)
Lemma lists_lookup X P Q A t : lists_ok X P Q A → t ∈ X ++ txs_of P ++ txs_of Q → A !! Hash t = Some t.
Proof.
  intros Hok Ht. apply elem_of_map_to_list. rewrite (lo_all _ _ _ _ Hok).
  by apply (list_elem_of_fmap_2 hashed) in Ht.
Qed.
Lemma lists_known X P Q A h t : lists_ok X P Q A → A !! h = Some t → Hash t = h ∧ t ∈ X ++ txs_of P ++ txs_of Q.
Proof.
  intros Hok Ht. apply elem_of_map_to_list in Ht. rewrite (lo_all _ _ _ _ Hok) in Ht.
  apply list_elem_of_fmap in Ht as (u & Hu & Hin). unfold hashed in Hu. by simplify_eq.
Qed.

(** Transactions change hands. *)
Lemma lists_move X P Q X' P' Q' A :
  lists_ok X P Q A → map_Forall (acct_ok true) P' → map_Forall (acct_ok false) Q' → Forall signed_tx X' →
  X ++ txs_of P ++ txs_of Q ≡ₚ X' ++ txs_of P' ++ txs_of Q' → lists_ok X' P' Q' A.
Proof. intros [_ _ _ H4 H5] HP HQ HX Hp. constructor; [done|done|done|by rewrite <- Hp|by rewrite <- Hp]. Qed.
Lemma take_from s M a l l' L L' R :
  map_Forall (acct_ok s) M → M !! a = Some l → list_rep l L → list_rep l' L' → strict l' = strict l → R ++ L' ≡ₚ L →
  map_Forall (acct_ok s) (<[a := l']> M) ∧ Forall signed_tx R ∧ txs_of M ≡ₚ R ++ txs_of (<[a := l']> M).
Proof.
  intros HM Ha HL HL' Hst Hp. pose proof (HM a l Ha) as Hacct.
  assert (∀ t, t ∈ L → recover (EvmTx t) = Some a ∧ signed_tx t) as Hin.
  { intros t Ht. pose proof Hacct as (_ & L0 & HL0 & Hall). rewrite <- (txs_in_rep l L HL) in Ht. split.
    - rewrite (txs_in_rep l L0 HL0) in Ht. rewrite Forall_forall in Hall. by apply Hall.
    - by eapply acct_sender. }
  split_and!.
  - apply map_Forall_insert_2; [|done]. destruct Hacct as [Hs _]. split; [congruence|]. exists L'. split; [done|].
    apply Forall_forall. intros t Ht. apply Hin. rewrite <- Hp. apply elem_of_app. by right.
  - apply Forall_forall. intros t Ht. apply Hin. rewrite <- Hp. apply elem_of_app. by left.
  - rewrite txs_of_insert, (txs_of_lookup M a l Ha), (txs_in_rep l L HL), (txs_in_rep l' L' HL'), <- Hp.
    by rewrite app_assoc.
Qed.
Lemma put_into s M tx l' L L' R :
  map_Forall (acct_ok s) M → signed_tx tx → list_rep (default (newTxList s) (M !! sender tx)) L → list_rep l' L' →
  strict l' = s → R ++ L' ≡ₚ tx :: L →
  map_Forall (acct_ok s) (<[sender tx := l']> M) ∧ Forall signed_tx R
  ∧ tx :: txs_of M ≡ₚ R ++ txs_of (<[sender tx := l']> M).
Proof.
  intros HM Htx HL HL' Hst Hp.
  assert (txs_of M ≡ₚ L ++ txs_of (delete (sender tx) M)
          ∧ ∀ t, t ∈ L → recover (EvmTx t) = Some (sender tx) ∧ signed_tx t) as [HM' Hin].
  { destruct (M !! sender tx) as [l|] eqn:Ha; cbn [default] in HL.
    - split; [by rewrite (txs_of_lookup M _ l Ha), (txs_in_rep l L HL)|]. intros t Ht.
      pose proof (HM _ l Ha) as Hacct. pose proof Hacct as (_ & L0 & HL0 & Hall). rewrite <- (txs_in_rep l L HL) in Ht. split.
      + rewrite (txs_in_rep l L0 HL0) in Ht. rewrite Forall_forall in Hall. by apply Hall.
      + by eapply acct_sender.
    - assert (L = []) as ->.
      { apply Permutation_nil_r. by rewrite <- (txs_in_rep _ L HL). }
      rewrite txs_of_delete by done. split; [done|]. intros t Ht. by apply not_elem_of_nil in Ht. }
  assert (∀ t, t ∈ tx :: L → recover (EvmTx t) = Some (sender tx) ∧ signed_tx t) as Hin'.
  { intros t [->|Ht]%elem_of_cons; [|by apply Hin]. split; [|done]. destruct Htx as [_ [a Ha]]. by rewrite (recover_sender tx a Ha). }
  split_and!.
  - apply map_Forall_insert_2; [|done]. split; [done|]. exists L'. split; [done|].
    apply Forall_forall. intros t Ht. apply Hin'. rewrite <- Hp. apply elem_of_app. by right.
  - apply Forall_forall. intros t Ht. apply Hin'. rewrite <- Hp. apply elem_of_app. by left.
  - rewrite txs_of_insert, (txs_in_rep l' L' HL'), HM', app_assoc, Hp. done.
Qed.
Lemma drop_empty s M a l :
  map_Forall (acct_ok s) M → M !! a = Some l → list_Len l = 0%nat →
  map_Forall (acct_ok s) (delete a M) ∧ txs_of M ≡ₚ txs_of (delete a M).
Proof.
  intros HM Ha Hlen. split; [by apply map_Forall_delete|]. rewrite (txs_of_lookup M a l Ha).
  destruct (HM a l Ha) as (_ & L & HL & _). rewrite (txs_in_len l L HL) in Hlen.
  rewrite (txs_in_rep l L HL). by destruct L.
Qed.

Lemma lists_kill t X P Q A : lists_ok (t :: X) P Q A → lists_ok X P Q (delete (Hash t) A).
Proof.
  intros Hok. pose proof (lists_lookup _ _ _ _ t Hok ltac:(by left)) as Ht. destruct Hok as [H1 H2 H3 H4 H5].
  apply Forall_cons in H3 as [_ H3]. cbn in H4. apply NoDup_cons in H4 as [_ H4].
  constructor; [done|done|done|done|].
  rewrite <- (insert_delete_id A (Hash t) t Ht), map_to_list_insert in H5 by apply lookup_delete_eq.
  cbn in H5. by apply Permutation_cons_inv in H5.
Qed.
Lemma lists_learn t X P Q A :
  lists_ok X P Q A → signed_tx t → place t ∉ place <$> X ++ txs_of P ++ txs_of Q → A !! Hash t = None →
  lists_ok (t :: X) P Q (<[Hash t := t]> A).
Proof.
  intros [H1 H2 H3 H4 H5] Ht Hp HA. constructor; [done|done|by constructor| |].
  - cbn. apply NoDup_cons. done.
  - rewrite map_to_list_insert by done. cbn. by rewrite H5.
Qed.

(** ** The price heap *)

Lemma price_sub D A A' l : price_ok D A l → (∀ h t, A' !! h = Some t → A !! h = Some t) → price_ok D A' l.
Proof. intros [Hh Hc] Hsub. split; [done|]. intros h t Ht. eapply Hc, Hsub, Ht. Qed.
Lemma price_delete D A l h : price_ok D A l → price_ok D (delete h A) l.
Proof. intros Hok. eapply price_sub; [done|]. by intros h' t [_ ?]%lookup_delete_Some. Qed.
Lemma price_Removed r n D A l : is_range r → price_ok D A l → price_ok D A (Removed r A n l).
Proof.
  intros Hr [Hh Hc]. unfold Removed. destruct (_ <=? _); [done|]. split; cbn [p_items].
  - by apply heap_Init_spec; [apply cheaper_trans|apply cheaper_le].
  - intros h t Ht. left.
    destruct (heap_Init_spec cheaper cheaper_trans cheaper_le ((r A).*2)) as [_ ->].
    rewrite (Hr A). apply list_elem_of_fmap. exists (h, t). by rewrite elem_of_map_to_list.
Qed.
Lemma price_Put t D A l : price_ok D A l → price_ok D (<[Hash t := t]> A) (priced_Put t l).
Proof.
  intros [Hh Hc]. destruct (heap_Push_spec cheaper cheaper_trans cheaper_le t (p_items l) Hh) as [H1 H2].
  split; [done|]. cbn [priced_Put p_items]. intros h u Hu. rewrite H2, elem_of_cons.
  apply lookup_insert_Some in Hu as [[_ ->]|[_ Hu]]; [by left; left|]. destruct (Hc h u Hu); auto.
Qed.

(** The lookup is by hash. *)
Definition by_hash (A : gmap Z Transaction) : Prop := ∀ h t, A !! h = Some t → Hash t = h.
Lemma lists_by_hash X P Q A : lists_ok X P Q A → by_hash A.
Proof. intros Hok h t Ht. by eapply lists_known. Qed.

Lemma live_not_stale A h t : by_hash A → A !! h = Some t → stale Hash A t = false.
Proof. intros Hb Ht. unfold stale. rewrite (Hb h t Ht), Ht. done. Qed.
Lemma price_out t D A l : by_hash A → price_ok (t :: D) A l → price_ok D (delete (Hash t) A) l.
Proof.
  intros Hb [Hh Hc]. split; [done|]. intros h u [Hne Hu]%lookup_delete_Some.
  destruct (Hc h u Hu) as [?|[->|?]%elem_of_cons]; [by left| |by right]. by rewrite (Hb h t Hu) in Hne.
Qed.
Lemma price_stale_loop fuel D A l : by_hash A → price_ok D A l → price_ok D A (drop_stale_loop Hash fuel A l).
Proof.
  intros Hb. revert l. induction fuel as [|fuel IH]; intros l Hok; [done|]. cbn [drop_stale_loop].
  destruct (p_items l) as [|x h] eqn:El; [done|]. destruct (stale Hash A x) eqn:Hst; [|done].
  pose proof Hok as [Hh Hc]. destruct (pop_cheapest (p_items l) Hh) as (tx & rest & Hp & Hhd & Hok' & Hperm & _); [by rewrite El|].
  rewrite <- El, Hp. rewrite El in Hhd. injection Hhd as ->. apply IH. split; [done|]. cbn [p_items].
  intros h' t Ht. destruct (Hc h' t Ht) as [Hin|Hin]; [|by right]. rewrite Hperm in Hin.
  apply elem_of_cons in Hin as [->|Hin]; [|by left]. by rewrite (live_not_stale A h' tx Hb Ht) in Hst.
Qed.
Lemma price_Underpriced D A tx loc l :
  by_hash A → price_ok D A l → price_ok D A (Underpriced Hash recover A tx loc l).2.
Proof.
  intros Hb Hok. unfold Underpriced. destruct (containsTx recover tx loc); [done|].
  pose proof (price_stale_loop (length (p_items l)) D A l Hb Hok) as Hok'. by destruct (p_items (drop_stale_loop _ _ _ _)).
Qed.
Lemma price_dropped A l l' drop gone :
  by_hash A → price_ok [] A l → heap_ok cheaper (p_items l') → p_items l' ++ drop ++ gone ≡ₚ p_items l →
  Forall (fun t => stale Hash A t = true) gone → price_ok drop A l'.
Proof.
  intros Hb [_ Hc] Hh Hp Hg. split; [done|]. intros h t Ht.
  destruct (Hc h t Ht) as [Hin|Hin]; [|by apply not_elem_of_nil in Hin]. rewrite <- Hp, !elem_of_app in Hin.
  destruct Hin as [?|[?|Hin]]; [by left|by right|]. rewrite Forall_forall in Hg. specialize (Hg t Hin).
  cbn in Hg. by rewrite (live_not_stale A h t Hb Ht) in Hg.
Qed.
Lemma price_Discard A count loc l :
  by_hash A → price_ok [] A l → 0 <= count →
  ∃ drop l', Discard Hash recover A count loc l = (Ok drop, l') ∧ price_ok drop A l' ∧ Z.of_nat (length drop) <= count
    ∧ Forall (fun t => is_Some (A !! Hash t) ∧ containsTx recover t loc = false) drop.
Proof.
  intros Hb Hok Hc. pose proof Hok as [Hh _].
  destruct (priced_Discard_correct Hash recover A loc count l Hh Hc) as (drop & gone & l' & HD & Hh' & Hp & Hg & _ & Hd & Hlen & _).
  exists drop, l'. split_and!; [done|by eapply price_dropped|done|]. eapply Forall_impl; [exact Hd|].
  intros t [Hs Hl]. split; [|done]. unfold stale in Hs. apply bool_decide_eq_false in Hs. by apply not_eq_None_Some.
Qed.
Lemma price_Cap A thr loc l :
  by_hash A → price_ok [] A l →
  ∃ drop l', priced_Cap Hash recover A thr loc l = (drop, l') ∧ price_ok drop A l'
    ∧ Forall (fun t => is_Some (A !! Hash t) ∧ containsTx recover t loc = false ∧ GasPrice (EvmTx t) < thr) drop
    ∧ ∀ h t, A !! h = Some t → containsTx recover t loc = false → GasPrice (EvmTx t) < thr → t ∈ drop.
Proof.
  intros Hb Hok. pose proof Hok as [Hh _].
  destruct (priced_Cap_correct Hash recover A loc thr l Hh) as (drop & gone & l' & HD & Hh' & Hp & Hg & _ & Hd & Hk).
  assert (price_ok drop A l') as Hpr by (by eapply price_dropped).
  exists drop, l'. split_and!; [done|done| |].
  - eapply Forall_impl; [exact Hd|]. intros t (Hs & Hl & Hpr'). split_and!; [|done|done].
    unfold stale in Hs. apply bool_decide_eq_false in Hs. by apply not_eq_None_Some.
  - intros h t Ht Hl Hlt. destruct (proj2 Hpr h t Ht) as [Hin|]; [|done].
    rewrite Forall_forall in Hk. destruct (Hk t Hin) as [Hk1|Hk1]; [congruence|lia].
Qed.

(** ** The steps *)

Lemma twp_for_each {A} (xs : list A) (f : A → PM unit) (I : list A → TxPool St → Prop) p :
  I xs p → (∀ x xs p, I (x :: xs) p → twp (f x) (fun _ => I xs) no_err p) →
  twp (for_each xs f) (fun _ => I []) no_err p.
Proof.
  intros HI Hf. revert p HI. induction xs as [|x xs IH]; intros p HI; [exact HI|]. cbn [for_each].
  apply twp_bind. eapply twp_conseq; [by apply Hf| |done]. intros u p' HI'. by apply IH.
Qed.
Lemma deref_all_ok {A} (xs : list A) (p : TxPool St) : deref_all (Some <$> xs) p = (Ok xs, p).
Proof.
  unfold deref_all. assert (mapM id (Some <$> xs) = Some xs) as ->; [|done].
  apply mapM_Some. apply Forall2_fmap_l, Forall_Forall2_diag, Forall_forall. done.
Qed.

(** The accounts with an empty list: none after a list got a transaction. *)
Lemma full_insert E m a l : full E m → list_Len l ≠ 0%nat → full (E ∖ {[a]}) (<[a := l]> m).
Proof.
  intros Hf Hl b k [[-> ->]|[Hne Hk]]%lookup_insert_Some Hb; [done|]. eapply Hf; [done|]. set_solver.
Qed.
Lemma full_mono E E' m : full E m → E ⊆ E' → full E' m.
Proof. intros Hf Hs a l Ha Hn. eapply Hf; [done|]. set_solver. Qed.

(** At a free place a list takes a transaction. *)
Lemma put_free s M t bump :
  map_Forall (acct_ok s) M → signed_tx t → place t ∉ place <$> txs_of M →
  ∃ l', list_Add t bump (default (newTxList s) (M !! sender t)) = (true, None, l')
    ∧ map_Forall (acct_ok s) (<[sender t := l']> M) ∧ t :: txs_of M ≡ₚ txs_of (<[sender t := l']> M)
    ∧ list_Len l' ≠ 0%nat.
Proof.
  intros HM Ht Hp. set (l0 := default (newTxList s) (M !! sender t)).
  assert (∃ L, list_rep l0 L ∧ strict l0 = s ∧ nonce t ∉ nonce <$> L) as (L & HL & Hs0 & Hfree).
  { unfold l0. destruct (M !! sender t) as [l|] eqn:Hq; cbn [default].
    - destruct (HM _ l Hq) as (Hs & L & HL & Hall). exists L. split_and!; [done|done|].
      intros (u & Hu & Hin)%list_elem_of_fmap. apply Hp. apply list_elem_of_fmap. exists u. split.
      + unfold place. rewrite Hu. f_equal. rewrite Forall_forall in Hall. by rewrite (recover_sender u _ (Hall u Hin)).
      + apply elem_txs_of. exists (sender t), l. split; [done|]. by rewrite (txs_in_rep l L HL).
    - exists []. split_and!; [apply list_rep_new|done|by apply not_elem_of_nil]. }
  destruct (put_Add t bump l0 L HL (proj1 Ht)) as (acc & old & l' & HA & Hst' & Hnew & HR).
  destruct (Hnew Hfree) as [-> ->]. destruct HR as [(L' & HL' & HP & _) _]. cbn in HP.
  destruct (put_into s M t l' L L' [] HM Ht HL HL' ltac:(congruence) HP) as (HQ & _ & Hperm).
  exists l'. split_and!; [done|done|done|]. rewrite (txs_in_len l' L' HL'), (Permutation_length HP). done.
Qed.

(** A transaction in hand goes back to the queue, where its place is free. *)
Lemma enqueue_held t X D o p :
  inv (t :: X) D p →
  ∃ l', enqueueTx Hash recover config o (Hash t) t p = (Ok false, set_queue (<[sender t := l']> (queue p)) p)
    ∧ inv X D (set_queue (<[sender t := l']> (queue p)) p) ∧ list_Len l' ≠ 0%nat
    ∧ t :: txs_of (queue p) ≡ₚ txs_of (<[sender t := l']> (queue p)).
Proof.
  intros [Hlists Hprice Hst Hn]. pose proof Hlists as [H1 H2 H3 H4 H5].
  assert (all p !! Hash t = Some t) as Hall by (eapply lists_lookup; [done|by left]).
  apply Forall_cons in H3 as [Ht HX]. cbn in H4. apply NoDup_cons in H4 as [H4 _].
  rewrite !fmap_app, !not_elem_of_app in H4. destruct H4 as (_ & _ & H4).
  destruct (put_free false (queue p) t (PriceBump config) H2 Ht H4) as (l' & HA & HQ & Hperm & Hlen).
  exists l'. split_and!; [| |done|done].
  - unfold enqueueTx. se_red. rewrite HA. cbn. se_red. unfold mark. se_red. cbn. by rewrite Hall.
  - constructor; cbn; [|done|done|done]. eapply lists_move; [exact Hlists|done|done|done|].
    rewrite <- Hperm. solve_Permutation.
Qed.
Lemma enqueue_all I X D E o p :
  inv (I ++ X) D p → full E (queue p) →
  twp (for_each I (enqueue_again Hash recover config o))
    (fun _ p' => inv X D p' ∧ ∃ Q, p' = set_queue Q p ∧ full E Q ∧ txs_of Q ≡ₚ I ++ txs_of (queue p)) no_err p.
Proof.
  intros Hinv Hf.
  apply (twp_for_each I _ (fun xs p' => inv (xs ++ X) D p' ∧ ∃ Q, p' = set_queue Q p ∧ full E Q
    ∧ xs ++ txs_of Q ≡ₚ I ++ txs_of (queue p))).
  { split; [done|]. exists (queue p). split_and!; [by destruct p|done|done]. }
  clear Hinv Hf. intros t xs p' (Hinv & Q & -> & Hf & Hp).
  destruct (enqueue_held t (xs ++ X) D o _ Hinv) as (l' & Heq & Hinv' & Hlen & Hperm).
  unfold enqueue_again. apply twp_bind, twp_try. eapply twp_ok; [exact Heq|]. split; [done|].
  eexists. split_and!; [reflexivity| |].
  - eapply full_mono; [by apply full_insert|set_solver].
  - rewrite <- Hp, <- Hperm. cbn. by rewrite Permutation_middle.
Qed.

(** A transaction in hand becomes pending. *)
Lemma promote_held t X D o p :
  inv (t :: X) D p →
  ∃ l' n', promoteTx Hash config o (sender t) (Hash t) t p
      = (Ok true, set_nonces (Some n') (set_beats (<[sender t := now o]> (beats p)) (set_pending (<[sender t := l']> (pending p)) p)))
    ∧ inv X D (set_nonces (Some n') (set_beats (<[sender t := now o]> (beats p)) (set_pending (<[sender t := l']> (pending p)) p)))
    ∧ list_Len l' ≠ 0%nat ∧ t :: txs_of (pending p) ≡ₚ txs_of (<[sender t := l']> (pending p)).
Proof.
  intros [Hlists Hprice Hst Hn]. pose proof Hlists as [H1 H2 H3 H4 H5].
  assert (all p !! Hash t = Some t) as Hall by (eapply lists_lookup; [done|by left]).
  apply Forall_cons in H3 as [Ht HX]. cbn in H4. apply NoDup_cons in H4 as [H4 _].
  rewrite !fmap_app, !not_elem_of_app in H4. destruct H4 as (_ & H4 & _).
  destruct (put_free true (pending p) t (PriceBump config) H1 Ht H4) as (l' & HA & HQ & Hperm & Hlen).
  destruct Hn as [n Hn]. eexists l', _. split_and!; [| |done|done].
  - unfold promoteTx. se_red. rewrite HA. cbn. se_red. unfold mark. se_red. cbn. rewrite Hall.
    unfold nonces_set, on_noncer. cbn. se_red. cbn. rewrite Hn. cbn. se_red. reflexivity.
  - constructor; cbn; [|done|done|done]. eapply lists_move; [exact Hlists|done|done|done|].
    rewrite <- Hperm. solve_Permutation.
Qed.

(** Transactions in hand are forgotten. *)
Lemma forget_all R X D p :
  inv (R ++ X) D p →
  ∃ A, forget Hash R p = (Ok tt, set_all A p) ∧ inv X D (set_all A p).
Proof.
  revert p. induction R as [|t R IH]; intros p Hinv.
  { exists (all p). split; [by destruct p|]. by destruct p. }
  destruct (IH (set_all (delete (Hash t) (all p)) p)) as (A & HA & Hinv').
  { destruct Hinv as [Hl Hp Hs Hn]. constructor; cbn; [by apply lists_kill|by apply price_delete|done|done]. }
  exists A. split; [|done]. unfold forget in *. cbn [for_each]. unfold all_Remove at 1. se_red. unfold lookup_Remove. exact HA.
Qed.
Lemma inv_perm X X' D p : X ≡ₚ X' → inv X D p → inv X' D p.
Proof. intros HX [? ? ? ?]. constructor; [by eapply lists_perm|done|done|done]. Qed.
Lemma inv_Removed X D o n p :
  is_range (range_txs o) → inv X D p →
  inv X D (set_priced (Removed (range_txs o) (all p) n (priced p)) p).
Proof. intros Hr [? ? ? ?]. constructor; cbn; [done|by apply price_Removed|done|done]. Qed.

(** A noncer answers. *)
Lemma on_noncer_ok {A} (f : (Z → Z) → gmap Z Z → A * gmap Z Z) p :
  is_Some (pendingNonces p) → ∃ a n, on_noncer f p = (Ok a, set_nonces (Some n) p).
Proof.
  intros [n Hn]. unfold on_noncer. se_red. rewrite Hn. cbn. se_red.
  destruct (f (state_GetNonce (fallback n)) (nonces n)) as [a m]. eexists a, _. reflexivity.
Qed.
Lemma inv_set_nonces X D n p : inv X D p → inv X D (set_nonces (Some n) p).
Proof. intros [? ? ? ?]. by constructor. Qed.

(** An operation on the list of an account takes transactions in hand. *)
Lemma on_queue_take {B} a (f : SE txList B) b l l' L L' R X D p :
  inv X D p → queue p !! a = Some l → f l = (Ok b, l') → list_rep l L → list_rep l' L' → strict l' = strict l →
  R ++ L' ≡ₚ L →
  on_queue a f p = (Ok b, set_queue (<[a := l']> (queue p)) p)
  ∧ inv (R ++ X) D (set_queue (<[a := l']> (queue p)) p)
  ∧ txs_of (queue p) ≡ₚ R ++ txs_of (<[a := l']> (queue p)).
Proof.
  intros [Hl Hp Hs Hn] Ha Hf HL HL' Hst HP.
  destruct (take_from false (queue p) a l l' L L' R (lo_Q _ _ _ _ Hl) Ha HL HL' Hst HP) as (H1 & H2 & H3).
  split_and!; [|constructor; cbn; [|done|done|done]|done].
  - unfold on_queue. se_red. rewrite Ha. cbn. se_red. rewrite Hf. done.
  - eapply lists_move; [exact Hl|apply Hl|done|by apply Forall_app; split; [|apply Hl]|]. rewrite H3. solve_Permutation.
Qed.
Lemma on_pending_take {B} a (f : SE txList B) b l l' L L' R X D p :
  inv X D p → pending p !! a = Some l → f l = (Ok b, l') → list_rep l L → list_rep l' L' → strict l' = strict l →
  R ++ L' ≡ₚ L →
  on_pending a f p = (Ok b, set_pending (<[a := l']> (pending p)) p)
  ∧ inv (R ++ X) D (set_pending (<[a := l']> (pending p)) p)
  ∧ txs_of (pending p) ≡ₚ R ++ txs_of (<[a := l']> (pending p)).
Proof.
  intros [Hl Hp Hs Hn] Ha Hf HL HL' Hst HP.
  destruct (take_from true (pending p) a l l' L L' R (lo_P _ _ _ _ Hl) Ha HL HL' Hst HP) as (H1 & H2 & H3).
  split_and!; [|constructor; cbn; [|done|done|done]|done].
  - unfold on_pending. se_red. rewrite Ha. cbn. se_red. rewrite Hf. done.
  - eapply lists_move; [exact Hl|done|apply Hl|by apply Forall_app; split; [|apply Hl]|]. rewrite H3. solve_Permutation.
Qed.
Lemma inv_list_q X D p a l : inv X D p → queue p !! a = Some l → ∃ L, list_rep l L.
Proof. intros Hi Ha. destruct (lo_Q _ _ _ _ (inv_lists _ _ _ Hi) a l Ha) as (_ & L & HL & _). by exists L. Qed.
Lemma inv_list_p X D p a l : inv X D p → pending p !! a = Some l → ∃ L, list_rep l L.
Proof. intros Hi Ha. destruct (lo_P _ _ _ _ (inv_lists _ _ _ Hi) a l Ha) as (_ & L & HL & _). by exists L. Qed.
(** An empty list goes. *)
Lemma inv_drop_q X D p a l :
  inv X D p → queue p !! a = Some l → list_Len l = 0%nat →
  inv X D (set_queue (delete a (queue p)) p) ∧ txs_of (queue p) ≡ₚ txs_of (delete a (queue p)).
Proof.
  intros [Hl Hp Hs Hn] Ha Hlen. destruct (drop_empty false (queue p) a l (lo_Q _ _ _ _ Hl) Ha Hlen) as [H1 H2].
  split; [|done]. constructor; cbn; [|done|done|done].
  eapply lists_move; [exact Hl|apply Hl|done|apply Hl|]. by rewrite H2.
Qed.
Lemma inv_drop_p X D p a l :
  inv X D p → pending p !! a = Some l → list_Len l = 0%nat →
  inv X D (set_pending (delete a (pending p)) p) ∧ txs_of (pending p) ≡ₚ txs_of (delete a (pending p)).
Proof.
  intros [Hl Hp Hs Hn] Ha Hlen. destruct (drop_empty true (pending p) a l (lo_P _ _ _ _ Hl) Ha Hlen) as [H1 H2].
  split; [|done]. constructor; cbn; [|done|done|done].
  eapply lists_move; [exact Hl|done|apply Hl|apply Hl|]. by rewrite H2.
Qed.
Lemma full_delete E m a : full E m → full (E ∖ {[a]}) (delete a m).
Proof. intros Hf b l [Hne Hl]%lookup_delete_Some Hb. eapply Hf; [done|]. set_solver. Qed.

(** The rest of the pool. *)
Definition env (p : TxPool St) : Z * option St * Z * accountSet := (gasPrice p, currentState p, currentMaxGas p, locals p).
Abbreviation contents p := (txs_of (pending p) ++ txs_of (queue p)).

(** The lookup has forgotten a transaction that is still in a list. *)
Record owed (t : Transaction) (D : Transactions) (p : TxPool St) : Prop := {
  owed_lists : lists_ok [] (pending p) (queue p) (<[Hash t := t]> (all p));
  owed_known : all p !! Hash t = None;
  owed_price : price_ok D (all p) (priced p);
  owed_state : is_Some (currentState p);
  owed_nonces : is_Some (pendingNonces p);
}.
Lemma owed_take t D p I P' Q' :
  owed t D p → map_Forall (acct_ok true) P' → map_Forall (acct_ok false) Q' → Forall signed_tx I →
  txs_of (pending p) ++ txs_of (queue p) ≡ₚ t :: I ++ txs_of P' ++ txs_of Q' →
  lists_ok I P' Q' (all p).
Proof.
  intros [Hl Hk _ _ _] HP HQ HI Hp. rewrite <- (delete_insert_id (all p) (Hash t) t Hk). apply lists_kill.
  assert (signed_tx t) as Ht.
  { assert (t ∈ contents p) as Hin by (rewrite Hp; by left). apply elem_of_app in Hin as [Hin|Hin];
    apply elem_txs_of in Hin as (a & l & Ha & Hin); (eapply acct_sender; [first [by apply (lo_P _ _ _ _ Hl), Ha|by apply (lo_Q _ _ _ _ Hl), Ha]|done]). }
  eapply lists_move; [exact Hl|done|done|by constructor|]. done.
Qed.

Lemma full_change E m a l : full E m → list_Empty l = false → full E (<[a := l]> m).
Proof.
  intros Hf Hl. eapply full_mono; [apply full_insert; [done|]|set_solver].
  unfold list_Empty in Hl. by apply bool_decide_eq_false in Hl.
Qed.
Lemma empty_len l : list_Empty l = true → list_Len l = 0%nat.
Proof. unfold list_Empty. by intros ?%bool_decide_eq_true. Qed.

Lemma elem_list m t s : map_Forall (acct_ok s) m → t ∈ txs_of m →
  ∃ l L, m !! sender t = Some l ∧ list_rep l L ∧ t ∈ L ∧ strict l = s.
Proof.
  intros Hm (a & l & Ha & Hin)%elem_txs_of. destruct (acct_sender s a l t (Hm a l Ha) Hin) as [-> _].
  destruct (Hm a l Ha) as (Hs & L & HL & _). exists l, L. split_and!; [done|done| |done]. by rewrite <- (txs_in_rep l L HL).
Qed.

Lemma remove_pending_in t o D p :
  is_range (range_txs o) → owed t D p → full ∅ (pending p) → full ∅ (queue p) → t ∈ txs_of (pending p) →
  twp (remove_pending Hash recover config o (sender t) t)
    (fun b p' => b = true ∧ inv [] D p' ∧ full ∅ (pending p') ∧ full ∅ (queue p') ∧ env p' = env p
       ∧ t :: contents p' ≡ₚ contents p) no_err p.
Proof.
  intros Hr Hw HfP HfQ Hin. pose proof Hw as [Hl Hk Hpr Hs Hn].
  destruct (elem_list _ t true (lo_P _ _ _ _ Hl) Hin) as (l & L & Ha & HL & HtL & Hst).
  destruct (take_Remove (range_txs o) t l L Hr HL HtL) as (I & l' & L' & HR & HL' & Hst' & Hp & _).
  destruct (take_from true (pending p) _ l l' L L' (t :: I) (lo_P _ _ _ _ Hl) Ha HL HL' Hst' Hp) as (H1 & H2 & H3).
  apply Forall_cons in H2 as [_ H2].
  set (P' := if list_Empty l' then delete (sender t) (pending p) else <[sender t := l']> (pending p)).
  set (p1 := if list_Empty l' then set_beats (delete (sender t) (beats p)) (set_pending P' p) else set_pending P' p).
  assert (map_Forall (acct_ok true) P' ∧ full ∅ P' ∧ txs_of (pending p) ≡ₚ t :: I ++ txs_of P') as (HP' & HfP' & Hperm).
  { unfold P'. destruct (list_Empty l') eqn:He.
    - apply empty_len in He. destruct (drop_empty true _ (sender t) l' H1 (lookup_insert_eq _ _ _) He) as [H4 H5].
      rewrite delete_insert_eq in H4, H5. split_and!; [done| |by rewrite H3, H5].
      eapply full_mono; [by apply full_delete|set_solver].
    - split_and!; [done|by apply full_change|done]. }
  assert (inv I D p1) as Hinv1.
  { assert (lists_ok I P' (queue p) (all p)) as Hl1.
    { eapply owed_take; [done|done|apply Hl|done|]. rewrite Hperm. solve_Permutation. }
    unfold p1. destruct (list_Empty l'); by constructor. }
  assert (queue p1 = queue p ∧ pending p1 = P' ∧ env p1 = env p) as (HQ1 & HP1 & He1) by (unfold p1; by destruct (list_Empty l')).
  unfold remove_pending. apply twp_bind. change (twp se_get ?Q ?E p) with (Q p p). cbv beta. rewrite Ha, HR.
  cbv beta iota. apply twp_bind. eapply (twp_ok _ _ _ _ tt p1); [by unfold p1, P'; destruct (list_Empty l')|]. cbv beta.
  apply twp_bind. eapply twp_conseq; [eapply (enqueue_all I [] D ∅)| |done]; [by rewrite app_nil_r|by rewrite HQ1|].
  intros _ p2 (Hinv2 & Q & -> & HfQ2 & HQ). cbv beta.
  destruct (on_noncer_ok (fun f m => (tt, noncer_setIfLower f (sender t) (nonce t) m)) (set_queue Q p1)) as (a & n & Hon); [apply Hinv2|].
  apply twp_bind. eapply twp_ok; [exact Hon|]. cbv beta. split_and!; [done|by apply inv_set_nonces|by cbn; rewrite HP1|done|done|].
  cbn. rewrite HP1, HQ, HQ1, Hperm. solve_Permutation.
Qed.
Lemma remove_queued_in t o D p :
  is_range (range_txs o) → owed t D p → full ∅ (pending p) → full ∅ (queue p) → t ∈ txs_of (queue p) →
  remove_pending Hash recover config o (sender t) t p = (Ok false, p)
  ∧ ∃ Q, remove_queued o (sender t) t p = (Ok tt, set_queue Q p) ∧ inv [] D (set_queue Q p) ∧ full ∅ Q
    ∧ t :: txs_of Q ≡ₚ txs_of (queue p).
Proof.
  intros Hr Hw HfP HfQ Hin. pose proof Hw as [Hl Hk Hpr Hs Hn]. split.
  - unfold remove_pending. se_red. destruct (pending p !! sender t) as [l|] eqn:Ha; [|done].
    destruct (lo_P _ _ _ _ Hl _ l Ha) as (_ & L & HL & Hsend).
    rewrite (not_Remove _ t l L HL); [se_red; rewrite insert_id by done; by destruct p|].
    intros (u & Hu & HuL)%list_elem_of_fmap. pose proof (lo_places _ _ _ _ Hl) as Hnd. cbn in Hnd.
    rewrite fmap_app in Hnd. apply NoDup_app in Hnd as (_ & Hnd & _). apply (Hnd (place t)).
    + apply list_elem_of_fmap. exists u. split.
      * unfold place. rewrite Hu. f_equal. rewrite Forall_forall in Hsend. by rewrite (recover_sender u _ (Hsend u HuL)).
      * apply elem_txs_of. exists (sender t), l. split; [done|]. by rewrite (txs_in_rep l L HL).
    + by apply list_elem_of_fmap_2.
  - destruct (elem_list _ t false (lo_Q _ _ _ _ Hl) Hin) as (l & L & Ha & HL & HtL & Hst).
    destruct (take_Remove (range_txs o) t l L Hr HL HtL) as (I & l' & L' & HR & HL' & Hst' & Hp & HI).
    rewrite (HI Hst) in *. cbn in Hp.
    destruct (take_from false (queue p) _ l l' L L' [t] (lo_Q _ _ _ _ Hl) Ha HL HL' Hst' Hp) as (H1 & _ & H3).
    set (Q := if list_Empty l' then delete (sender t) (queue p) else <[sender t := l']> (queue p)).
    assert (map_Forall (acct_ok false) Q ∧ full ∅ Q ∧ txs_of (queue p) ≡ₚ t :: txs_of Q) as (HQ & HfQ' & Hperm).
    { unfold Q. destruct (list_Empty l') eqn:He.
      - apply empty_len in He. destruct (drop_empty false _ (sender t) l' H1 (lookup_insert_eq _ _ _) He) as [H4 H5].
        rewrite delete_insert_eq in H4, H5. split_and!; [done| |by rewrite H3, H5].
        eapply full_mono; [by apply full_delete|set_solver].
      - split_and!; [done|by apply full_change|done]. }
    exists Q. split_and!; [|constructor; cbn; [|done|done|done]|done|done].
    + unfold remove_queued. se_red. rewrite Ha, HR. unfold Q. by destruct (list_Empty l').
    + eapply owed_take; [done|apply Hl|done|done|]. rewrite Hperm. solve_Permutation.
Qed.

(** The transaction of a hash leaves a list, its followers in a pending list go
    to the queue. *)
Lemma removeTx_known h b t o D p :
  is_range (range_txs o) → inv [] D p ∨ (∃ t', Hash t' = h ∧ inv [] (t' :: D) p) → full ∅ (pending p) → full ∅ (queue p) →
  all p !! h = Some t →
  twp (removeTx Hash recover config o h b)
    (fun _ p' => inv [] D p' ∧ full ∅ (pending p') ∧ full ∅ (queue p') ∧ env p' = env p
       ∧ t :: contents p' ≡ₚ contents p
       ∧ (t ∈ txs_of (queue p) → pending p' = pending p ∧ beats p' = beats p ∧ t :: txs_of (queue p') ≡ₚ txs_of (queue p)))
    no_err p.
Proof.
  intros Hr Hor HfP HfQ Ht.
  assert (lists_ok [] (pending p) (queue p) (all p)) as Hlists by (by destruct Hor as [[]|(? & _ & [])]).
  assert (is_Some (currentState p)) as Hs by (by destruct Hor as [[]|(? & _ & [])]).
  assert (is_Some (pendingNonces p)) as Hn by (by destruct Hor as [[]|(? & _ & [])]).
  pose proof (lists_by_hash _ _ _ _ Hlists) as Hb.
  assert (price_ok D (delete h (all p)) (priced p)) as Hprice.
  { destruct Hor as [Hi|(t' & <- & Hi)]; [by apply price_delete, Hi|]. apply price_out; [done|apply Hi]. }
  destruct (lists_known _ _ _ _ h t Hlists Ht) as [Hh Hin]. cbn in Hin.
  unfold removeTx. apply twp_bind. change (twp se_get ?Q ?E p) with (Q p p). cbv beta. rewrite Ht.
  set (p1 := if b then set_priced (Removed (range_txs o) (delete h (all p)) 1 (priced p)) (set_all (delete h (all p)) p)
             else set_all (delete h (all p)) p).
  assert (owed t D p1) as Hw.
  { unfold p1. subst h. destruct b; constructor; cbn; rewrite ?insert_delete_id by done; try done;
      [apply lookup_delete_eq|by apply price_Removed|apply lookup_delete_eq]. }
  assert (pending p1 = pending p ∧ queue p1 = queue p ∧ env p1 = env p ∧ beats p1 = beats p) as (HP1 & HQ1 & He1 & Hb1)
    by (unfold p1; by destruct b).
  apply twp_bind. change (twp (all_Remove h) ?Q ?E p) with (Q tt (set_all (delete h (all p)) p)). cbv beta.
  apply twp_bind. eapply (twp_ok _ _ _ _ tt p1); [by unfold p1; destruct b|]. cbv beta. apply twp_bind.
  destruct (decide (t ∈ txs_of (queue p))) as [HQ|HQ].
  - destruct (remove_queued_in t o D p1 Hr Hw) as (Hrp & Q & Hrq & Hinv & HfQ' & Hp); [by rewrite ?HP1, ?HQ1..|].
    eapply twp_ok; [exact Hrp|]. cbv beta iota. eapply twp_ok; [exact Hrq|]. cbn. rewrite HP1, HQ1, Hb1 in *.
    split_and!; [done|done|done|done|rewrite <- Hp; solve_Permutation|done].
  - apply elem_of_app in Hin as [Hin|Hin]; [|done].
    eapply twp_conseq; [apply (remove_pending_in t o D p1 Hr Hw); by rewrite ?HP1, ?HQ1| |done].
    intros b' p' (-> & Hinv & H1 & H2 & H3 & H4). cbv beta iota. rewrite HP1, HQ1 in H4.
    split_and!; [done|done|done|by rewrite H3|done|done].
Qed.

(** The pool between two operations. *)
Definition good (p : TxPool St) : Prop := inv [] [] p ∧ full ∅ (pending p) ∧ full ∅ (queue p).
(** Transactions only leave. *)
Definition shrinks (p p' : TxPool St) : Prop := env p' = env p ∧ contents p' ⊆+ contents p.

#[global] Instance shrinks_preorder : PreOrder shrinks.
Proof.
  split; [by intros p|]. intros p q r [H1 H2] [H3 H4]. split; [congruence|]. by etrans.
Qed.

Lemma removeTx_ok h b o p :
  is_range (range_txs o) → good p → twp (removeTx Hash recover config o h b) (fun _ p' => good p' ∧ shrinks p p') no_err p.
Proof.
  intros Hr (Hi & HP & HQ). destruct (all p !! h) as [t|] eqn:Ht.
  - eapply twp_conseq; [apply (removeTx_known h b t o [] p Hr (or_introl Hi) HP HQ Ht)| |done].
    intros _ p' (H1 & H2 & H3 & H4 & H5 & _). split; [done|]. split; [done|]. rewrite <- H5. by apply submseteq_cons.
  - eapply (twp_ok _ _ _ _ tt p); [|done]. unfold removeTx. se_red. by rewrite Ht.
Qed.
(** The dropped transactions of the price heap leave the pool. *)
Lemma remove_dropped drop o p :
  is_range (range_txs o) → inv [] drop p → full ∅ (pending p) → full ∅ (queue p) →
  twp (for_each drop (fun t => removeTx Hash recover config o (Hash t) false))
    (fun _ p' => good p' ∧ shrinks p p' ∧ ∀ t, t ∈ drop → all p' !! Hash t = None) no_err p.
Proof.
  intros Hr Hi HP HQ.
  eapply twp_conseq; [apply (twp_for_each drop _ (fun xs p' => inv [] xs p' ∧ full ∅ (pending p') ∧ full ∅ (queue p')
    ∧ shrinks p p' ∧ ∀ t, t ∈ drop → t ∈ xs ∨ all p' !! Hash t = None))| |done]; cbv beta.
  { split_and!; [done|done|done|reflexivity|by left]. }
  2: { intros _ p' (H1 & H2 & H3 & H4 & H5). split_and!; [done|done|]. intros t Ht.
       destruct (H5 t Ht) as [Hn|]; [by apply not_elem_of_nil in Hn|done]. }
  clear Hi HP HQ. intros t xs p' (Hi & HP & HQ & Hsh & Hgone). destruct (all p' !! Hash t) as [u|] eqn:Hu.
  - eapply twp_conseq; [apply (removeTx_known (Hash t) false u o xs p' Hr (or_intror (ex_intro _ t (conj eq_refl Hi))) HP HQ Hu)| |done].
    intros _ p2 (H1 & H2 & H3 & H4 & H5 & _). split_and!; [done|done|done| |].
    + etrans; [done|]. split; [done|]. rewrite <- H5. by apply submseteq_cons.
    + intros v Hv. destruct (lists_known _ _ _ _ _ _ (inv_lists _ _ _ Hi) Hu) as [Hhu _].
      assert (∀ h, all p' !! h = None → all p2 !! h = None) as Hnone.
      { intros h Hh. apply eq_None_not_Some. intros [w Hw].
        destruct (lists_known _ _ _ _ _ _ (inv_lists _ _ _ H1) Hw) as [<- Hin]. cbn in Hin.
        assert (w ∈ contents p') as Hin' by (rewrite <- H5; by right).
        by rewrite (lists_lookup _ _ _ _ w (inv_lists _ _ _ Hi) Hin') in Hh. }
      destruct (Hgone v Hv) as [[->|?]%elem_of_cons|?]; [right|by left|by right; apply Hnone].
      apply eq_None_not_Some. intros [w Hw]. destruct (lists_known _ _ _ _ _ _ (inv_lists _ _ _ H1) Hw) as [Hhw Hin]. cbn in Hin.
      assert (w ∈ contents p') as Hin' by (rewrite <- H5; by right).
      pose proof (lists_lookup _ _ _ _ w (inv_lists _ _ _ Hi) Hin') as Hw'. rewrite Hhw, Hu in Hw'. injection Hw' as ->.
      pose proof (lo_places _ _ _ _ (inv_lists _ _ _ Hi)) as Hnd. cbn in Hnd. rewrite <- H5 in Hnd. cbn in Hnd.
      apply NoDup_cons in Hnd as [Hnd _]. apply Hnd. by apply list_elem_of_fmap_2.
  - eapply (twp_ok _ _ _ _ tt p'); [unfold removeTx; se_red; by rewrite Hu|]. split_and!; [|done|done|done|].
    + destruct Hi as [H1 H2 H3 H4]. constructor; [done| |done|done].
      rewrite <- (delete_id (all p') (Hash t) Hu). apply price_out; [by eapply lists_by_hash|done].
    + intros v Hv. destruct (Hgone v Hv) as [[->|?]%elem_of_cons|?]; auto.
Qed.

(** More transactions than slots. *)
Definition over_full (p : TxPool St) : Prop := u64 (GlobalSlots config + GlobalQueue config) <= Z.of_nat (base.size (all p)).
Lemma make_room_ok tx loc o p :
  is_range (range_txs o) → good p →
  twp (make_room Hash recover config o tx loc) (fun _ p' => good p' ∧ shrinks p p' ∧ (¬ over_full p → p' = p))
    (fun _ p' => good p' ∧ env p' = env p ∧ contents p' = contents p) p.
Proof.
  intros Hr Hg. pose proof Hg as (Hi & HP & HQ). pose proof Hi as [Hl Hp Hs Hn].
  pose proof (lists_by_hash _ _ _ _ Hl) as Hb.
  unfold make_room. apply twp_bind. change (twp se_get ?Q ?E p) with (Q p p). cbv beta zeta.
  destruct (bool_decide (u64 (GlobalSlots config + GlobalQueue config) <= Z.of_nat (base.size (all p)))) eqn:Hfull.
  2: { split_and!; [done|reflexivity|done]. }
  apply bool_decide_eq_true in Hfull. apply twp_bind.
  set (slots := u64 (GlobalSlots config + GlobalQueue config)) in *.
  assert (∃ u l, (if loc then mret false else let '(u, l) := Underpriced Hash recover (all p) tx (locals p) (priced p) in
      _ ← se_mod (set_priced l); mret u) p = (Ok u, set_priced l p) ∧ price_ok [] (all p) l) as (u & l & Hu & Hpl).
  { destruct loc; [exists false, (priced p); split; [by destruct p|done]|].
    pose proof (price_Underpriced [] (all p) tx (locals p) (priced p) Hb Hp) as Hx.
    destruct (Underpriced Hash recover (all p) tx (locals p) (priced p)) as [u l]. by exists u, l. }
  eapply twp_ok; [exact Hu|]. cbv beta. assert (good (set_priced l p)) as Hg1 by (split_and!; [by constructor|done|done]).
  destruct u; [done|].
  apply twp_bind. change (twp se_get ?Q ?E ?q) with (Q q q). cbv beta. cbn [all locals priced set_priced].
  assert (0 <= Z.of_nat (base.size (all p)) - i64 (u64 (slots - 1))) as Hcount.
  { assert (0 <= slots < 2 ^ 64) as Hsl by (apply u64_in). destruct (decide (slots = 0)) as [->|Hne].
    - replace (i64 (u64 (0 - 1))) with (-1) by reflexivity. lia.
    - rewrite u64_id by (unfold in_u64; lia). destruct (decide (slots - 1 < 2 ^ 63)); [rewrite i64_small by lia|rewrite i64_high by lia]; lia. }
  destruct (price_Discard (all p) _ (locals p) l Hb Hpl Hcount) as (drop & l' & -> & Hpd & _ & _).
  cbv beta iota zeta. apply twp_bind. change (twp (se_mod ?f) ?Q ?E ?q) with (Q tt (f q)). cbv beta.
  apply twp_bind. change (twp (se_lift (Ok drop)) ?Q ?E ?q) with (Q drop q). cbv beta.
  eapply twp_conseq; [eapply remove_dropped; [done|by constructor|done|done]| |done].
  intros _ p' (H1 & [H2 H3] & _). split_and!; [done|done|]. intros Hno. by destruct Hno.
Qed.

(** ** Adding *)

(** A new transaction takes a free place, or that of an old one. *)
Lemma lists_swap tx old P Q A P' Q' :
  lists_ok [] P Q A → A !! Hash tx = None → map_Forall (acct_ok true) P' → map_Forall (acct_ok false) Q' →
  option_list old ++ txs_of P' ++ txs_of Q' ≡ₚ tx :: txs_of P ++ txs_of Q →
  match old with
  | Some u => u ∈ txs_of P ++ txs_of Q ∧ place u = place tx
  | None => place tx ∉ place <$> txs_of P ++ txs_of Q
  end →
  lists_ok [] P' Q' (<[Hash tx := tx]> match old with Some u => delete (Hash u) A | None => A end).
Proof.
  intros Hok HA HP HQ Hperm Hold. pose proof Hok as [_ _ _ H4 H5]. cbn in H4, H5. destruct old as [u|]; cbn in Hperm.
  - destruct Hold as [Hu Hpl]. pose proof (lists_lookup _ _ _ _ u Hok Hu) as HuA.
    apply elem_of_Permutation in Hu as [R HR].
    assert (txs_of P' ++ txs_of Q' ≡ₚ tx :: R) as HC'.
    { rewrite HR, Permutation_swap in Hperm. by apply Permutation_cons_inv in Hperm. }
    rewrite HR in H4, H5. constructor; [done|done|constructor| |]; cbn; rewrite HC'.
    + cbn. rewrite <- Hpl. done.
    + rewrite <- (insert_delete_id A (Hash u) u HuA), map_to_list_insert in H5 by apply lookup_delete_eq.
      cbn in H5. apply Permutation_cons_inv in H5. rewrite map_to_list_insert, H5; [done|].
      apply lookup_delete_None. by right.
  - constructor; [done|done|constructor| |]; cbn; rewrite Hperm.
    + cbn. by apply NoDup_cons.
    + rewrite map_to_list_insert by done. cbn. by rewrite H5.
Qed.

Lemma new_price (old : option Transaction) A l : price_ok [] A l → price_ok [] (match old with Some u => delete (Hash u) A | None => A end) l.
Proof. intros Hp. destruct old; [by apply price_delete|done]. Qed.

(** The outcome of a list that is offered a new transaction. *)
Lemma offer s M tx bump :
  map_Forall (acct_ok s) M → signed_tx tx →
  ∃ acc old l', list_Add tx bump (default (newTxList s) (M !! sender tx)) = (acc, old, l')
    ∧ if acc then map_Forall (acct_ok s) (<[sender tx := l']> M) ∧ list_Len l' ≠ 0%nat
        ∧ option_list old ++ txs_of (<[sender tx := l']> M) ≡ₚ tx :: txs_of M
        ∧ (∀ u, old = Some u → u ∈ txs_of M ∧ place u = place tx ∧ outbids bump tx u)
        ∧ (old = None → place tx ∉ place <$> txs_of M)
      else M !! sender tx = Some l'.
Proof.
  intros HM Ht. destruct (decide (place tx ∈ place <$> txs_of M)) as [Hin|Hin].
  2: { destruct (put_free s M tx bump HM Ht Hin) as (l' & HA & H1 & H2 & H3). exists true, None, l'. by split_and!. }
  apply list_elem_of_fmap in Hin as (u & Hu & Hin). injection Hu as Hs Hn.
  destruct (elem_list M u s HM Hin) as (l & L & Ha & HL & HuL & Hst). rewrite <- Hs in Ha. rewrite Ha. cbn [default].
  destruct (put_Add tx bump l L HL (proj1 Ht)) as (acc & old & l' & HA & Hst' & _ & HR).
  exists acc, old, l'. split; [done|]. destruct acc; [|by destruct HR as [-> _]].
  destruct HR as [(L' & HL' & HP & HtL) Hold].
  assert (list_rep (default (newTxList s) (M !! sender tx)) L) as HL0 by (by rewrite Ha).
  destruct (put_into s M tx l' L L' (option_list old) HM Ht HL0 HL' ltac:(congruence) HP) as (HM' & _ & Hperm).
  split_and!; [done| |done| |].
  - rewrite (txs_in_len l' L' HL'). destruct L'; [by apply not_elem_of_nil in HtL|done].
  - intros v Hv. destruct (Hold v Hv) as (HvL & Hvn & Hbid). split_and!; [| |done].
    + apply elem_txs_of. exists (sender tx), l. split; [done|]. by rewrite (txs_in_rep l L HL).
    + unfold place. rewrite Hvn. f_equal. destruct (HM _ l Ha) as (_ & L0 & HL0' & Hall). rewrite Forall_forall in Hall.
      apply recover_sender, Hall. rewrite <- (txs_in_rep l L0 HL0'), (txs_in_rep l L HL). done.
  - intros ->. cbn in HP. exfalso. pose proof (increasing_nodup _ (rep_sorted _ _ (lrep_txs _ _ HL'))) as Hnd.
    rewrite HP in Hnd. cbn in Hnd. apply NoDup_cons in Hnd as [Hnd _]. apply Hnd. rewrite Hn. by apply list_elem_of_fmap_2.
Qed.

(** The lookup without the transaction that was replaced. *)
Definition without (old : option Transaction) (A : gmap Z Transaction) : gmap Z Transaction :=
  match old with Some u => delete (Hash u) A | None => A end.
Lemma without_None old A h : A !! h = None → without old A !! h = None.
Proof. intros Hh. destruct old; [|done]. apply lookup_delete_None. by right. Qed.
Lemma remove_old_eq old o (p : TxPool St) :
  is_range (range_txs o) → price_ok [] (all p) (priced p) →
  ∃ l, remove_old Hash o old p = (Ok tt, set_priced l (set_all (without old (all p)) p)) ∧ price_ok [] (without old (all p)) l.
Proof.
  intros Hr Hp. destruct old as [u|]; cbn [remove_old without].
  - eexists. split; [reflexivity|]. apply price_Removed; [done|]. by apply price_delete.
  - exists (priced p). split; [by destruct p|done].
Qed.

Lemma enqueue_new tx o p :
  is_range (range_txs o) → good p → signed_tx tx → all p !! Hash tx = None → place tx ∉ place <$> txs_of (pending p) →
  twp (enqueueTx Hash recover config o (Hash tx) tx)
    (fun b p' => good p' ∧ env p' = env p ∧ pending p' = pending p ∧ all p' !! Hash tx = Some tx
       ∧ ∃ old, b = bool_decide (is_Some old) ∧ option_list old ++ contents p' ≡ₚ tx :: contents p
           ∧ ∀ u, old = Some u → place u = place tx ∧ outbids (PriceBump config) tx u)
    (fun _ p' => p' = p) p.
Proof.
  intros Hr ([Hl Hp Hs Hn] & HfP & HfQ) Ht HA Hplace. pose proof Hl as [H1 H2 _ _ _].
  destruct (offer false (queue p) tx (PriceBump config) H2 Ht) as (acc & old & l' & Hadd & Hoff).
  unfold enqueueTx, twp. se_red. rewrite Hadd. cbv beta iota. se_red.
  destruct acc; cbn [negb]; [|se_red; rewrite insert_id by done; by destruct p].
  destruct Hoff as (HQ & Hlen & Hperm & Hold & Hfree).
  destruct (remove_old_eq old o (set_queue (<[sender tx := l']> (queue p)) p) Hr Hp) as (l & Heq & Hpl). se_red. rewrite Heq.
  cbn [set_queue all] in *. cbv beta iota. se_red. unfold mark. se_red. cbn [all set_priced set_all].
  rewrite (without_None old (all p) _ HA). se_red. cbn.
  assert (lists_ok [] (pending p) (<[sender tx := l']> (queue p)) (<[Hash tx := tx]> (without old (all p)))) as Hl'.
  { eapply lists_swap; [exact Hl|done|done|done| |].
    - rewrite (Permutation_app_comm (txs_of (pending p)) (txs_of (<[_ := _]> _))), app_assoc, Hperm. solve_Permutation.
    - destruct old as [u|]; [|rewrite fmap_app, not_elem_of_app; split; [done|by apply Hfree]].
      destruct (Hold u eq_refl) as (Hu & Hpl' & _). split; [apply elem_of_app; by right|done]. }
  split_and!.
  - split_and!; [constructor; cbn; [done|by apply price_Put|done|done]|done|].
    eapply full_mono; [by apply full_insert|set_solver].
  - done.
  - done.
  - apply lookup_insert_eq.
  - exists old. split_and!; [done| |intros u Hu; by destruct (Hold u Hu) as (_ & ? & ?)].
    rewrite (Permutation_app_comm (txs_of (pending p)) (txs_of (<[_ := _]> _))), app_assoc, Hperm. solve_Permutation.
Qed.

Lemma replace_pending_ok tx l o p :
  is_range (range_txs o) → good p → signed_tx tx → all p !! Hash tx = None → pending p !! sender tx = Some l → Overlaps tx l = true →
  twp (replace_pending Hash config o tx (sender tx) l)
    (fun b p' => good p' ∧ env p' = env p ∧ queue p' = queue p ∧ all p' !! Hash tx = Some tx
       ∧ ∃ u, b = true ∧ u :: contents p' ≡ₚ tx :: contents p ∧ place u = place tx ∧ outbids (PriceBump config) tx u)
    (fun _ p' => p' = p) p.
Proof.
  intros Hr ([Hl Hp Hs Hn] & HfP & HfQ) Ht HA Ha Hov. pose proof Hl as [H1 H2 _ _ _].
  destruct (offer true (pending p) tx (PriceBump config) H1 Ht) as (acc & old & l' & Hadd & Hoff).
  rewrite Ha in Hadd. cbn [default id] in Hadd. unfold replace_pending, twp. rewrite Hadd. cbv beta iota. se_red.
  destruct acc; cbn [negb]; [|se_red; rewrite insert_id by done; by destruct p].
  destruct Hoff as (HP & Hlen & Hperm & Hold & Hfree).
  destruct (remove_old_eq old o (set_pending (<[sender tx := l']> (pending p)) p) Hr Hp) as (pl & Heq & Hpl). se_red. rewrite Heq.
  cbn [set_pending all] in *. cbv beta iota. se_red. cbn.
  assert (∃ u, old = Some u) as [u ->].
  { destruct old as [u|]; [by exists u|]. exfalso. apply (Hfree eq_refl).
    unfold Overlaps in Hov. apply bool_decide_eq_true in Hov as [v Hv].
    destruct (H1 _ l Ha) as (_ & L & HL & Hall). unfold Get in Hv. rewrite (rep_items _ _ (lrep_txs _ _ HL)) in Hv.
    apply to_map_lookup in Hv as [HvL Hvn]; [|apply HL]. apply list_elem_of_fmap. exists v. split.
    - unfold place. rewrite Hvn. f_equal. rewrite Forall_forall in Hall. by rewrite (recover_sender v _ (Hall v HvL)).
    - apply elem_txs_of. exists (sender tx), l. split; [done|]. by rewrite (txs_in_rep l L HL). }
  destruct (Hold u eq_refl) as (Hu & Hpu & Hbid). cbn in Hperm.
  assert (lists_ok [] (<[sender tx := l']> (pending p)) (queue p) (<[Hash tx := tx]> (without (Some u) (all p)))) as Hl'.
  { eapply (lists_swap tx (Some u)); [exact Hl|done|done|done| |].
    - cbn. rewrite app_comm_cons, Hperm. done.
    - split; [apply elem_of_app; by left|done]. }
  split_and!.
  - split_and!; [constructor; cbn; [done|by apply (price_Put tx)|done|done]| |done].
    eapply full_mono; [by apply full_insert|set_solver].
  - done.
  - done.
  - apply lookup_insert_eq.
  - exists u. split_and!; [by apply bool_decide_true| |done|done]. by rewrite app_comm_cons, Hperm.
Qed.

(** What the pool relies on: a validated transaction is the one it was, with the
    sizes of its shards filled in; and the checks return. *)
Class ChainLaws : Prop := {
  cl_same tx s tx' s' : chain_validateTx tx s = (Ok tx', s') →
    TxType tx' = EvmTxType ∧ data (EvmTx tx') = data (EvmTx tx) ∧ Hash tx' = Hash tx;
  cl_validateTx tx (s : St) e : (chain_validateTx tx s).1 ≠ Panic e;
  cl_ValidateTransaction tx (s : St) e : (chain_ValidateTransaction tx s).1 ≠ Panic e;
  cl_GasPrice token price (s : St) e : (chain_GasPrice token price s).1 ≠ Panic e;
  cl_stateAt b e : stateAt (St := St) b ≠ Panic e;
  cl_blocks h b : chain_GetMinorBlock h = Some b → Forall (fun t => in_u64 (nonce t)) (mb_transactions b);
}.

(** A computation on the state leaves the rest. *)
Lemma on_state_ok {A} (f : SE St A) p (Q : A → TxPool St → Prop) (E : string → TxPool St → Prop) :
  is_Some (currentState p) → (∀ s e, (f s).1 ≠ Panic e) →
  (∀ s a s', f s = (Ok a, s') → Q a (set_state (Some s') p)) → (∀ s' e, E e (set_state (Some s') p)) →
  twp (on_state f) Q E p.
Proof.
  intros [s Hs] Hpanic HQ HE. unfold twp, on_state. rewrite Hs. specialize (Hpanic s). specialize (HQ s).
  destruct (f s) as [[a|e|e] s']; [by apply HQ|by apply HE|by destruct (Hpanic e)].
Qed.
Lemma good_set_state s p : good p → good (set_state (Some s) p).
Proof. intros ([? ? ? ?] & ? & ?). split_and!; [by constructor|done|done]. Qed.

Lemma pool_validateTx_ok `{!ChainLaws} tx p :
  in_u64 (nonce tx) → good p →
  twp (pool_validateTx recover tx)
    (fun tx' p' => (∃ s, p' = set_state (Some s) p) ∧ Hash tx' = Hash tx ∧ data (EvmTx tx') = data (EvmTx tx) ∧ signed_tx tx')
    (fun _ p' => p' = p ∨ ∃ s, p' = set_state (Some s) p) p.
Proof.
  intros Hnonce (Hi & _). pose proof (inv_state _ _ _ Hi) as Hs. unfold pool_validateTx.
  destruct (bool_decide _); [by left|]. apply twp_bind. change (twp se_get ?Q ?E p) with (Q p p). cbv beta.
  destruct (bool_decide _); [by left|]. apply twp_bind.
  apply on_state_ok; [done|by intros; apply cl_validateTx| |eauto].
  intros s tx' s' Heq. destruct (cl_same _ _ _ _ Heq) as (Hty & Hdata & Hhash).
  destruct (bool_decide _); [right; eauto|]. destruct (bool_decide _); [right; eauto|].
  apply twp_bind. change (twp se_get ?Q ?E ?q) with (Q q q). cbv beta. destruct (bool_decide _); [right; eauto|].
  destruct (recover (EvmTx tx')) as [a|] eqn:Hrec; [|right; by eexists]. apply twp_bind.
  apply on_state_ok; [done|by intros; apply cl_ValidateTransaction| |intros; right; by eexists].
  intros s1 _ s1' _. split_and!; [by eexists|done|done|]. split; [|by eexists]. split; [done|].
  unfold nonce, Nonce in *. by rewrite Hdata.
Qed.

(** A pool that shrank knows no new hash. *)
Lemma shrinks_unknown p p' h : good p → good p' → contents p' ⊆+ contents p → all p !! h = None → all p' !! h = None.
Proof.
  intros (Hi & _) (Hi' & _) Hsub Hh. apply eq_None_not_Some. intros [t Ht].
  destruct (lists_known _ _ _ _ _ _ (inv_lists _ _ _ Hi') Ht) as [<- Hin]. cbn in Hin.
  pose proof (elem_of_submseteq _ _ _ Hin Hsub) as Hin'.
  by rewrite (lists_lookup _ _ _ _ t (inv_lists _ _ _ Hi) Hin') in Hh.
Qed.

(** What [add] did: room was made in a full pool only, and the transaction has
    its place, where it may have outbid another one. *)
Definition added (tx : Transaction) (p : TxPool St) (replaced : bool) (p' : TxPool St) : Prop :=
  ∃ tx' C old, Hash tx' = Hash tx ∧ data (EvmTx tx') = data (EvmTx tx) ∧ all p' !! Hash tx = Some tx'
    ∧ C ⊆+ contents p ∧ (¬ over_full p → C = contents p)
    ∧ option_list old ++ contents p' ≡ₚ tx' :: C ∧ replaced = bool_decide (is_Some old)
    ∧ ∀ u, old = Some u → place u = place tx' ∧ outbids (PriceBump config) tx' u.
Definition rejected (p p' : TxPool St) : Prop :=
  contents p' ⊆+ contents p ∧ (¬ over_full p → contents p' = contents p).

Lemma no_overlap tx X D p :
  inv X D p → (list ← pending p !! sender tx; if Overlaps tx list then Some list else None) = None →
  place tx ∉ place <$> txs_of (pending p).
Proof.
  intros Hi Hsel (u & Hu & Hin)%list_elem_of_fmap. injection Hu as Hs Hn.
  destruct (elem_list _ u true (lo_P _ _ _ _ (inv_lists _ _ _ Hi)) Hin) as (l & L & Ha & HL & HuL & _).
  rewrite Hs, Ha in Hsel. cbn in Hsel. destruct (Overlaps tx l) eqn:Hov; [done|]. unfold Overlaps in Hov.
  apply bool_decide_eq_false in Hov. apply Hov. unfold Get. rewrite (rep_items _ _ (lrep_txs _ _ HL)).
  exists u. apply to_map_lookup; [apply HL|done].
Qed.
Lemma add_ok `{!ChainLaws} tx loc o p :
  is_range (range_txs o) → in_u64 (nonce tx) → good p →
  twp (add Hash recover config o tx loc) (fun b p' => good p' ∧ added tx p b p') (fun _ p' => good p' ∧ rejected p p') p.
Proof.
  intros Hr Hnonce Hg. unfold add. apply twp_bind. change (twp se_get ?Q ?E p) with (Q p p). cbv beta zeta.
  destruct (bool_decide (is_Some (all p !! Hash tx))) eqn:Hknown; [by split|].
  apply bool_decide_eq_false in Hknown. apply eq_None_not_Some in Hknown.
  apply twp_bind. eapply twp_conseq; [by apply pool_validateTx_ok| |].
  2: { intros e p' [->|[s ->]]; (split; [|by split]); [done|by apply good_set_state]. }
  intros tx' p1 ([s ->] & Hhash & Hdata & Hsigned). apply twp_bind.
  apply on_state_ok; [by eexists|by intros; apply cl_GasPrice| |].
  2: { intros s' e. split; [by do 2 apply good_set_state|by split]. }
  intros s1 price s1' _. set (p2 := set_state (Some s1') (set_state (Some s) p)).
  assert (good p2) as Hg2 by (by do 2 apply good_set_state).
  destruct (bool_decide _); [by split|]. apply twp_bind. eapply twp_conseq; [by apply make_room_ok| |].
  2: { intros e p' (H1 & H2 & H3). split; [done|]. split; rewrite H3; done. }
  intros _ p3 (Hg3 & [He3 Hsub3] & Hsame). apply twp_bind. change (twp se_get ?Q ?E ?q) with (Q q q). cbv beta zeta.
  assert (all p3 !! Hash tx' = None) as Hk3 by (rewrite Hhash; by apply (shrinks_unknown p2)).
  assert (¬ over_full p → contents p3 = contents p) as Hsame' by (intros Hno; by rewrite (Hsame Hno)).
  assert (∀ b p' old, all p' !! Hash tx' = Some tx' → b = bool_decide (is_Some old) →
    option_list old ++ contents p' ≡ₚ tx' :: contents p3 →
    (∀ u, old = Some u → place u = place tx' ∧ outbids (PriceBump config) tx' u) → added tx p b p') as Hadded.
  { intros b p' old H1 -> H2 H3. exists tx', (contents p3), old. rewrite <- Hhash. by split_and!. }
  destruct (list ← pending p3 !! sender tx'; if Overlaps tx' list then Some list else None) as [l|] eqn:Hsel.
  - destruct (pending p3 !! sender tx') as [l'|] eqn:Hpend; cbn in Hsel; [|done].
    destruct (Overlaps tx' l') eqn:Hov; [injection Hsel as ->|done].
    eapply twp_conseq; [by apply replace_pending_ok| |].
    + intros b p' (H1 & _ & _ & H2 & u & -> & H3 & H4 & H5). split; [done|].
      apply (Hadded true p' (Some u)); [done|by rewrite bool_decide_true|done|]. by intros v [= <-].
    + intros e p' ->. done.
  - apply twp_bind. rewrite <- Hhash.
    eapply twp_conseq; [apply enqueue_new; try done; by eapply no_overlap; [apply Hg3|]| |].
    + intros b p' (H1 & He & _ & H2 & old & Hb & H3 & H4). apply twp_bind.
      destruct (loc && negb (set_contains (sender tx') (locals p3))).
      * split; [by destruct H1 as ([] & ? & ?)|]. apply (Hadded b _ old); done.
      * split; [done|]. apply (Hadded b _ old); done.
    + intros e p' ->. done.
Qed.

Lemma addTxsLocked_ok `{!ChainLaws} txs loc errs dirty o p :
  is_range (range_txs o) → Forall (fun t => in_u64 (nonce t)) txs → good p →
  twp (addTxsLocked Hash recover config o txs loc errs dirty)
    (fun r p' => good p' ∧ length r.1 = (length errs + length txs)%nat) no_err p.
Proof.
  intros Hr. revert errs dirty p. induction txs as [|tx txs IH]; intros errs dirty p Hall Hg; cbn [addTxsLocked].
  { split; [done|]. cbn. lia. }
  apply Forall_cons in Hall as [Htx Hall]. apply twp_bind, twp_try.
  eapply twp_conseq; [by apply add_ok| |].
  - intros b p' [Hg' _]. eapply twp_conseq; [by apply IH| |done]. intros r p2 [H1 H2]. split; [done|].
    rewrite length_app in H2. cbn in *. lia.
  - intros e p' [Hg' _]. eapply twp_conseq; [by apply IH| |done]. intros r p2 [H1 H2]. split; [done|].
    rewrite length_app in H2. cbn in *. lia.
Qed.

(** ** An operation at work *)

(** The transactions [X] are in hand, the pending lists of [EP] and the queued
    lists of [EQ] may be empty, and nothing came that was not in the pool. *)
Record at_work (X : Transactions) (EP EQ : gset Z) (p0 p : TxPool St) : Prop := {
  aw_inv : inv X [] p;
  aw_pending : full EP (pending p);
  aw_queue : full EQ (queue p);
  aw_env : env p = env p0;
  aw_sub : X ++ contents p ⊆+ contents p0;
}.
Lemma at_work_start p : good p → at_work [] ∅ ∅ p p.
Proof. intros (? & ? & ?). by constructor. Qed.
Lemma at_work_done p0 p : at_work [] ∅ ∅ p0 p → good p ∧ shrinks p0 p.
Proof. by intros [? ? ? ? ?]. Qed.
Lemma at_work_trans p0 p1 p2 X EP EQ : shrinks p0 p1 → at_work X EP EQ p1 p2 → at_work X EP EQ p0 p2.
Proof. intros [H1 H2] [? ? ? ? H3]. constructor; [done|done|done|congruence|]. by etrans. Qed.
Lemma at_work_perm X X' EP EQ p0 p : X ≡ₚ X' → at_work X EP EQ p0 p → at_work X' EP EQ p0 p.
Proof. intros HX [H1 ? ? ? H2]. constructor; [by eapply inv_perm|done|done|done|]. by rewrite <- HX. Qed.

(** The lists of the other accounts. *)
Definition others (a : Z) (m m' : gmap Z txList) : Prop := ∀ c, c ≠ a → m' !! c = m !! c.
Lemma others_insert a l m : others a m (<[a := l]> m).
Proof. intros c Hc. by apply lookup_insert_ne. Qed.
Lemma others_trans a m1 m2 m3 : others a m1 m2 → others a m2 m3 → others a m1 m3.
Proof. intros H1 H2 c Hc. by rewrite H2, H1. Qed.
Lemma work_forget R X EP EQ p0 p :
  at_work (R ++ X) EP EQ p0 p →
  twp (forget Hash R) (fun _ p' => at_work X EP EQ p0 p' ∧ pending p' = pending p ∧ queue p' = queue p) no_err p.
Proof.
  intros [Hi HP HQ He Hs]. destruct (forget_all R X [] p Hi) as (A & HA & Hi').
  eapply twp_ok; [exact HA|]. split; [|done]. constructor; [done|done|done|done|]. cbn.
  etrans; [|exact Hs]. rewrite <- app_assoc. by apply submseteq_inserts_l.
Qed.
Lemma work_queue {B} a (f : SE txList B) b l l' L L' R X EP EQ p0 p :
  at_work X EP EQ p0 p → queue p !! a = Some l → f l = (Ok b, l') → list_rep l L → list_rep l' L' →
  strict l' = strict l → R ++ L' ≡ₚ L →
  twp (on_queue a f) (fun b' p' => b' = b ∧ at_work (R ++ X) EP ({[a]} ∪ EQ) p0 p' ∧ queue p' !! a = Some l'
     ∧ pending p' = pending p) no_err p.
Proof.
  intros [Hi HP HQ He Hs] Ha Hf HL HL' Hst Hp.
  destruct (on_queue_take a f b l l' L L' R X [] p Hi Ha Hf HL HL' Hst Hp) as (Heq & Hi' & Hperm).
  eapply twp_ok; [exact Heq|]. split_and!; [done| |apply lookup_insert_eq|done]. constructor; [done|done| |done|].
  - cbn. intros c k [[-> ->]|[Hne Hk]]%lookup_insert_Some Hc; [set_solver|]. eapply HQ; [done|set_solver].
  - cbn. etrans; [|exact Hs]. rewrite Hperm. apply Permutation_submseteq. solve_Permutation.
Qed.
Lemma work_pending {B} a (f : SE txList B) b l l' L L' R X EP EQ p0 p :
  at_work X EP EQ p0 p → pending p !! a = Some l → f l = (Ok b, l') → list_rep l L → list_rep l' L' →
  strict l' = strict l → R ++ L' ≡ₚ L →
  twp (on_pending a f) (fun b' p' => b' = b ∧ at_work (R ++ X) ({[a]} ∪ EP) EQ p0 p' ∧ pending p' !! a = Some l'
     ∧ queue p' = queue p ∧ others a (pending p) (pending p')) no_err p.
Proof.
  intros [Hi HP HQ He Hs] Ha Hf HL HL' Hst Hp.
  destruct (on_pending_take a f b l l' L L' R X [] p Hi Ha Hf HL HL' Hst Hp) as (Heq & Hi' & Hperm).
  eapply twp_ok; [exact Heq|]. split_and!; [done| |apply lookup_insert_eq|done|apply others_insert]. constructor; [done| |done|done|].
  - cbn. intros c k [[-> ->]|[Hne Hk]]%lookup_insert_Some Hc; [set_solver|]. eapply HP; [done|set_solver].
  - cbn. etrans; [|exact Hs]. rewrite Hperm. apply Permutation_submseteq. solve_Permutation.
Qed.
Lemma work_enqueue I X EP EQ o p0 p :
  at_work (I ++ X) EP EQ p0 p →
  twp (for_each I (enqueue_again Hash recover config o))
    (fun _ p' => at_work X EP EQ p0 p' ∧ pending p' = pending p) no_err p.
Proof.
  intros [Hi HP HQ He Hs]. eapply twp_conseq; [by eapply enqueue_all| |done].
  intros _ p' (Hi' & Q & -> & HfQ & Hp). split; [|done]. constructor; [done|done|done|done|]. cbn.
  etrans; [|exact Hs]. rewrite Hp. apply Permutation_submseteq. solve_Permutation.
Qed.
Lemma work_noncer {A} (f : (Z → Z) → gmap Z Z → A * gmap Z Z) X EP EQ p0 p :
  at_work X EP EQ p0 p →
  twp (on_noncer f) (fun _ p' => at_work X EP EQ p0 p' ∧ pending p' = pending p ∧ queue p' = queue p) no_err p.
Proof.
  intros [Hi HP HQ He Hs]. destruct (on_noncer_ok f p (inv_nonces _ _ _ Hi)) as (a & n & Heq).
  eapply twp_ok; [exact Heq|]. split; [|done]. constructor; [by apply inv_set_nonces|done..].
Qed.
Lemma work_Removed n o X EP EQ p0 p :
  is_range (range_txs o) → at_work X EP EQ p0 p →
  twp (pool_Removed o n) (fun _ p' => at_work X EP EQ p0 p' ∧ pending p' = pending p ∧ queue p' = queue p) no_err p.
Proof. intros Hr [Hi HP HQ He Hs]. split; [|done]. constructor; [by apply inv_Removed|done..]. Qed.
Lemma work_GetNonce a p : is_Some (currentState p) → ∃ n, pool_GetNonce a p = (Ok n, p).
Proof. intros [s Hs]. unfold pool_GetNonce. se_red. rewrite Hs. by eexists. Qed.
Lemma work_GetBalanceMap a p : is_Some (currentState p) → ∃ n, pool_GetBalanceMap a p = (Ok n, p).
Proof. intros [s Hs]. unfold pool_GetBalanceMap. se_red. rewrite Hs. by eexists. Qed.

(** ** Promoting *)

Lemma promote_ready_ok a R X EQ done_ o p0 p :
  at_work (R ++ X) ∅ EQ p0 p → Forall (fun t => sender t = a) R →
  twp (promote_ready Hash config o a R done_)
    (fun r p' => r = done_ ++ R ∧ at_work X ∅ EQ p0 p' ∧ queue p' = queue p) no_err p.
Proof.
  intros Hw Hall. revert done_ p Hw. induction R as [|t R IH]; intros done_ p Hw; cbn [promote_ready].
  { by rewrite app_nil_r. }
  apply Forall_cons in Hall as [<- Hall]. pose proof Hw as [Hi HP HQ He Hs].
  destruct (promote_held t (R ++ X) [] o p Hi) as (l' & n' & Heq & Hi' & Hlen & Hperm).
  apply twp_bind. eapply twp_ok; [exact Heq|]. cbv beta iota.
  eapply twp_conseq; [eapply (IH Hall)| |done].
  - constructor; [done| |done|done|].
    + cbn. eapply full_mono; [by apply full_insert|set_solver].
    + cbn. etrans; [|exact Hs]. rewrite <- Hperm. apply Permutation_submseteq. cbn. solve_Permutation.
  - intros r p' (-> & Hw' & HQ'). split_and!; [|done|done]. by rewrite <- app_assoc.
Qed.
Lemma at_work_list_q X EP EQ p0 p a l : at_work X EP EQ p0 p → queue p !! a = Some l →
  ∃ L, list_rep l L ∧ strict l = false ∧ Forall (fun t => sender t = a) L.
Proof.
  intros [Hi _ _ _ _] Ha. destruct (lo_Q _ _ _ _ (inv_lists _ _ _ Hi) a l Ha) as (Hs & L & HL & Hall).
  exists L. split_and!; [done|done|]. eapply Forall_impl; [exact Hall|]. intros t. apply recover_sender.
Qed.
Lemma at_work_list_p X EP EQ p0 p a l : at_work X EP EQ p0 p → pending p !! a = Some l →
  ∃ L, list_rep l L ∧ strict l = true ∧ Forall (fun t => sender t = a) L.
Proof.
  intros [Hi _ _ _ _] Ha. destruct (lo_P _ _ _ _ (inv_lists _ _ _ Hi) a l Ha) as (Hs & L & HL & Hall).
  exists L. split_and!; [done|done|]. eapply Forall_impl; [exact Hall|]. intros t. apply recover_sender.
Qed.
(** At the end an empty list is deleted. *)
Lemma at_work_close_q X a p0 p l :
  at_work X ∅ {[a]} p0 p → queue p !! a = Some l →
  at_work X ∅ ∅ p0 (if list_Empty l then set_queue (delete a (queue p)) p else p).
Proof.
  intros [Hi HP HQ He Hs] Ha. destruct (list_Empty l) eqn:Hem.
  - apply empty_len in Hem. destruct (inv_drop_q X [] p a l Hi Ha Hem) as [Hi' Hp].
    constructor; [done|done| |done|by cbn; rewrite <- Hp]. cbn.
    eapply full_mono; [by apply full_delete|set_solver].
  - constructor; [done|done| |done|done]. intros b k Hk _. destruct (decide (b = a)) as [->|Hne].
    + rewrite Ha in Hk. injection Hk as <-. unfold list_Empty in Hem. by apply bool_decide_eq_false in Hem.
    + eapply HQ; [done|set_solver].
Qed.
Lemma at_work_close_p X EQ a p0 p l b :
  at_work X {[a]} EQ p0 p → pending p !! a = Some l →
  at_work X ∅ EQ p0 (if list_Empty l then set_beats b (set_pending (delete a (pending p)) p) else p).
Proof.
  intros [Hi HP HQ He Hs] Ha. destruct (list_Empty l) eqn:Hem.
  - apply empty_len in Hem. destruct (inv_drop_p X [] p a l Hi Ha Hem) as [[? ? ? ?] Hp].
    constructor; [by constructor| |done|done|by cbn; rewrite <- Hp]. cbn.
    eapply full_mono; [by apply full_delete|set_solver].
  - constructor; [done| |done|done|done]. intros c k Hk _. destruct (decide (c = a)) as [->|Hne].
    + rewrite Ha in Hk. injection Hk as <-. unfold list_Empty in Hem. by apply bool_decide_eq_false in Hem.
    + eapply HP; [done|set_solver].
Qed.
Lemma at_work_weaken X EP EQ EP' EQ' p0 p : at_work X EP EQ p0 p → EP ⊆ EP' → EQ ⊆ EQ' → at_work X EP' EQ' p0 p.
Proof. intros [? ? ? ? ?] H1 H2. constructor; [done|by eapply full_mono|by eapply full_mono|done|done]. Qed.

(** The orders are orders, the limits are numbers. *)
Record oracle_ok (o : Oracle) : Prop := {
  ok_balances : is_range (range_balances o);
  ok_txs : is_range (range_txs o);
  ok_lists : is_range (range_lists o);
  ok_events : is_range (range_events o);
  ok_prque xs : ∃ ys, prque_order o xs = ys.*1 ∧ ys ≡ₚ xs ∧ StronglySorted (fun x y => y.2 <= x.2) ys;
  ok_beats xs : sort_beats o xs ≡ₚ xs ∧ StronglySorted (fun x y => x.2 <= y.2) (sort_beats o xs);
}.
Record config_ok : Prop := {
  ok_AccountSlots : 1 <= AccountSlots config;
  ok_GlobalSlots : in_u64 (GlobalSlots config);
  ok_GlobalQueue : in_u64 (GlobalQueue config);
  ok_AccountQueue : 0 <= AccountQueue config < 2 ^ 63;
}.

Lemma filter_list_eq o bal gas l L :
  oracle_ok o → list_rep l L → ∃ R I l' L', filter_list o bal gas l = (Ok (R, I), l') ∧ list_rep l' L' ∧ strict l' = strict l
    ∧ R ++ I ++ L' ≡ₚ L ∧ (strict l = false → I = []).
Proof.
  intros Ho HL. destruct (take_Filter (range_balances o) (range_txs o) (range_txs o) bal gas l L) as (R & I & l' & L' & HF & H1);
    [apply Ho..|done|]. exists R, I, l', L'. unfold filter_list. by rewrite HF.
Qed.
Lemma work_list {B} (b : bool) a (f : SE txList B) x l l' L L' R X EP EQ p0 p :
  at_work X EP EQ p0 p → (if b then pending p else queue p) !! a = Some l → f l = (Ok x, l') → list_rep l L →
  list_rep l' L' → strict l' = strict l → R ++ L' ≡ₚ L →
  twp (on_list b a f) (fun x' p' => x' = x
     ∧ at_work (R ++ X) (if b then {[a]} ∪ EP else EP) (if b then EQ else {[a]} ∪ EQ) p0 p'
     ∧ (if b then pending p' else queue p') !! a = Some l' ∧ (b = true → others a (pending p) (pending p'))) no_err p.
Proof.
  intros Hw Ha Hf HL HL' Hst Hp. destruct b; cbn [on_list].
  - eapply twp_conseq; [by eapply work_pending| |done]. by intros x' p' (? & ? & ? & _ & ?).
  - eapply twp_conseq; [by eapply work_queue| |done]. by intros x' p' (? & ? & ? & _).
Qed.
(** What is old or too costly goes; a strict list gives up what follows. *)
Lemma drop_invalid_ok (b : bool) a l L X EP EQ o p0 p :
  oracle_ok o → at_work X EP EQ p0 p → (if b then pending p else queue p) !! a = Some l → list_rep l L →
  twp (drop_invalid Hash o b a)
    (fun ci p' => ∃ l' L', at_work (ci.2 ++ X) (if b then {[a]} ∪ EP else EP) (if b then EQ else {[a]} ∪ EQ) p0 p'
       ∧ (if b then pending p' else queue p') !! a = Some l' ∧ list_rep l' L' ∧ strict l' = strict l
       ∧ (∀ t, t ∈ L' → t ∈ L) ∧ (strict l = false → ci.2 = []) ∧ (b = true → others a (pending p) (pending p'))) no_err p.
Proof.
  intros Ho Hw Ha HL. destruct (work_GetNonce a p (inv_state _ _ _ (aw_inv _ _ _ _ _ Hw))) as (n & Hn).
  unfold drop_invalid. apply twp_bind. eapply twp_ok; [exact Hn|]. cbv beta.
  destruct (take_Forward n l L HL) as (R1 & l1 & L1 & HF1 & HL1 & Hst1 & Hp1 & _).
  apply twp_bind. eapply twp_conseq; [by eapply (work_list b a _ _ l l1 L L1 R1)| |done].
  intros x1 p1 (-> & Hw1 & Ha1 & Ho1). apply twp_bind. eapply twp_ok; [apply deref_all_ok|]. cbv beta.
  apply twp_bind. eapply twp_conseq; [by apply work_forget| |done]. intros _ p2 (Hw2 & HP2 & HQ2). rewrite <- HP2, <- HQ2 in Ha1.
  destruct (work_GetBalanceMap a p2 (inv_state _ _ _ (aw_inv _ _ _ _ _ Hw2))) as (bal & Hbal).
  apply twp_bind. eapply twp_ok; [exact Hbal|]. cbv beta. get_state.
  destruct (filter_list_eq o bal (currentMaxGas p2) l1 L1 Ho HL1) as (R2 & I2 & l2 & L2 & HF2 & HL2 & Hst2 & Hp2 & HI2).
  apply twp_bind. eapply twp_conseq; [eapply (work_list b a _ _ l1 l2 L1 L2 (R2 ++ I2)); try done; by rewrite <- app_assoc| |done].
  intros x3 p3 (-> & Hw3 & Ha3 & Ho3). apply twp_bind. rewrite <- app_assoc in Hw3.
  eapply twp_conseq; [by apply work_forget| |done]. intros _ p4 (Hw4 & HP4 & HQ4). rewrite <- HP4, <- HQ4 in Ha3.
  exists l2, L2. cbn [snd]. split_and!; [|done|done|congruence| |intros Hs; apply HI2; congruence|].
  - eapply at_work_weaken; [exact Hw4|destruct b; set_solver..].
  - intros t Ht. rewrite <- Hp1, elem_of_app. right. rewrite <- Hp2, !elem_of_app. auto.
  - intros Hb. rewrite HP4. eapply others_trans; [by apply Ho1|]. rewrite <- HP2. by apply Ho3.
Qed.
Lemma cap_queued_ok a l L X EP EQ p0 p :
  config_ok → at_work X EP EQ p0 p → queue p !! a = Some l → list_rep l L →
  twp (cap_queued Hash config a)
    (fun _ p' => at_work X EP ({[a]} ∪ EQ) p0 p' ∧ is_Some (queue p' !! a)) no_err p.
Proof.
  intros Hc Hw Ha HL. unfold cap_queued. get_state. destruct (set_contains a (locals p)).
  { split; [|by eexists]. eapply at_work_weaken; [exact Hw|set_solver..]. }
  destruct (take_Cap (i64 (AccountQueue config)) l L HL) as (R & l' & HF & HL' & Hst & Hp & _).
  { rewrite i64_small by apply Hc. apply Hc. }
  apply twp_bind. eapply twp_conseq; [by eapply (work_queue a _ _ l l' L _ R)| |done].
  intros x1 p1 (-> & Hw1 & Ha1 & _). apply twp_bind. eapply twp_ok; [apply deref_all_ok|]. cbv beta.
  apply twp_bind. eapply twp_conseq; [by apply work_forget| |done]. intros _ p2 (Hw2 & _ & HQ2).
  split; [done|]. rewrite HQ2. by eexists.
Qed.
Lemma promote_account_ok a done_ o p :
  config_ok → oracle_ok o → good p →
  twp (promote_account Hash config o a done_)
    (fun r p' => good p' ∧ shrinks p p' ∧ ∃ R, r = done_ ++ R ∧ Forall signed_tx R) no_err p.
Proof.
  intros Hc Ho Hg. pose proof (at_work_start p Hg) as Hw. unfold promote_account. get_state.
  destruct (queue p !! a) as [l|] eqn:Ha.
  2: { split_and!; [done|reflexivity|]. exists []. by rewrite app_nil_r. }
  destruct (at_work_list_q _ _ _ _ _ _ _ Hw Ha) as (L & HL & Hst & Hsend).
  apply twp_bind. eapply twp_conseq; [by eapply (drop_invalid_ok false a l L)| |done].
  intros ci p1 (l1 & L1 & Hw1 & Ha1 & HL1 & Hst1 & Hsub1 & Hci & _). rewrite (Hci Hst) in *. cbn in Hw1.
  apply twp_bind. eapply twp_conseq; [by apply work_noncer| |done]. intros n p2 (Hw2 & _ & HQ2). rewrite <- HQ2 in Ha1.
  destruct (take_Ready n l1 L1 HL1) as (R3 & l3 & L3 & HF3 & HL3 & Hst3 & Hp3).
  apply twp_bind. eapply twp_conseq;
    [eapply (work_queue a _ (Some <$> R3) l1 l3 L1 L3 R3); [exact Hw2|done|by rewrite HF3|done|done|done|by rewrite Hp3]| |done].
  intros x6 p6 (-> & Hw6 & Ha6 & _). apply twp_bind. eapply twp_ok; [apply deref_all_ok|]. cbv beta.
  pose proof (lo_X _ _ _ _ (inv_lists _ _ _ (aw_inv _ _ _ _ _ Hw6))) as HX. rewrite app_nil_r in HX.
  apply twp_bind. eapply twp_conseq; [eapply promote_ready_ok; [exact Hw6|]| |done].
  { rewrite Forall_forall in *. intros t Ht. apply Hsend, Hsub1. rewrite <- Hp3, elem_of_app. by left. }
  intros r7 p7 (-> & Hw7 & HQ7). rewrite <- HQ7 in Ha6.
  apply twp_bind. eapply twp_conseq; [by eapply (cap_queued_ok a l3 L3)| |done].
  intros caps p8 (Hw8 & [l8 Ha8]). apply twp_bind. eapply twp_conseq; [apply work_Removed; [apply Ho|exact Hw8]| |done].
  intros _ p9 (Hw9 & _ & HQ9). rewrite <- HQ9 in Ha8. get_state. rewrite Ha8. apply twp_bind.
  change (twp (deref (Some l8)) ?Q ?E ?q) with (Q l8 q). cbv beta.
  assert (at_work [] ∅ {[a]} p p9) as Hw9' by (eapply at_work_weaken; [exact Hw9|set_solver..]).
  pose proof (at_work_done _ _ (at_work_close_q [] a p p9 l8 Hw9' Ha8)) as [H1 H2]. apply twp_bind.
  destruct (list_Empty l8); (split_and!; [done|done|]; by exists R3).
Qed.
Lemma promoteExecutables_ok accs done_ o p :
  config_ok → oracle_ok o → good p →
  twp (promoteExecutables Hash config o accs done_)
    (fun r p' => good p' ∧ shrinks p p' ∧ ∃ R, r = done_ ++ R ∧ Forall signed_tx R) no_err p.
Proof.
  intros Hc Ho. revert done_ p. induction accs as [|a accs IH]; intros done_ p Hg; cbn [promoteExecutables].
  { split_and!; [done|reflexivity|]. exists []. by rewrite app_nil_r. }
  apply twp_bind. eapply twp_conseq; [by apply promote_account_ok| |done].
  intros r p1 (Hg1 & Hs1 & R1 & -> & HR1). eapply twp_conseq; [by apply IH| |done].
  intros r p2 (Hg2 & Hs2 & R2 & -> & HR2). split_and!; [done|by etrans|]. exists (R1 ++ R2).
  split; [by rewrite app_assoc|by apply Forall_app].
Qed.

(** ** Demoting *)

Lemma requeue_gapped_ok a n l L X EP EQ o p0 p :
  at_work X EP EQ p0 p → pending p !! a = Some l → list_rep l L →
  twp (requeue_gapped Hash recover config o a n)
    (fun _ p' => at_work X ({[a]} ∪ EP) EQ p0 p' ∧ is_Some (pending p' !! a) ∧ others a (pending p) (pending p')) no_err p.
Proof.
  intros Hw Ha HL. unfold requeue_gapped. get_state. rewrite Ha. apply twp_bind.
  change (twp (deref (Some l)) ?Q ?E ?q) with (Q l q). cbv beta.
  destruct (bool_decide _ && bool_decide _).
  2: { split_and!; [|by eexists|done]. eapply at_work_weaken; [exact Hw|set_solver..]. }
  destruct (take_Cap 0 l L HL) as (R & l' & HF & HL' & Hst & Hp & _); [done|].
  apply twp_bind. eapply twp_conseq; [by eapply (work_pending a _ _ l l' L _ R)| |done].
  intros x1 p1 (-> & Hw1 & Ha1 & _ & Ho1). apply twp_bind. eapply twp_ok; [apply deref_all_ok|]. cbv beta.
  eapply twp_conseq; [by apply work_enqueue| |done]. intros _ p2 (Hw2 & HP2). rewrite HP2. split_and!; [done|by eexists|done].
Qed.
Lemma demote_account_ok a o p :
  oracle_ok o → good p → is_Some (pending p !! a) →
  twp (demote_account Hash recover config o a)
    (fun _ p' => good p' ∧ shrinks p p' ∧ others a (pending p) (pending p')) no_err p.
Proof.
  intros Ho Hg [l Ha]. pose proof (at_work_start p Hg) as Hw. unfold demote_account.
  destruct (work_GetNonce a p (inv_state _ _ _ (proj1 Hg))) as (n & Hn).
  apply twp_bind. eapply twp_ok; [exact Hn|]. cbv beta.
  destruct (at_work_list_p _ _ _ _ _ _ _ Hw Ha) as (L & HL & Hst & Hsend).
  apply twp_bind. eapply twp_conseq; [by eapply (drop_invalid_ok true a l L)| |done].
  intros [count I] p1 (l1 & L1 & Hw1 & Ha1 & HL1 & _ & _ & _ & Ho1). cbn [snd] in Hw1.
  apply twp_bind. eapply twp_conseq; [apply work_Removed; [apply Ho|exact Hw1]| |done].
  intros _ p2 (Hw2 & HP2 & _). apply twp_bind. eapply twp_conseq; [by apply work_enqueue| |done].
  intros _ p3 (Hw3 & HP3). rewrite <- HP2, <- HP3 in Ha1.
  apply twp_bind. eapply twp_conseq; [by eapply (requeue_gapped_ok a n l1 L1)| |done].
  intros _ p4 (Hw4 & [l4 Ha4] & Ho4). assert (others a (pending p) (pending p4)) as Hoth
    by (eapply others_trans; [by apply Ho1|]; by rewrite <- HP2, <- HP3). get_state. rewrite Ha4. apply twp_bind.
  change (twp (deref (Some l4)) ?Q ?E ?q) with (Q l4 q). cbv beta.
  assert (at_work [] {[a]} ∅ p p4) as Hw4' by (eapply at_work_weaken; [exact Hw4|set_solver..]).
  pose proof (at_work_done _ _ (at_work_close_p [] ∅ a p p4 l4 (delete a (beats p4)) Hw4' Ha4)) as [H1 H2].
  destruct (list_Empty l4); (split_and!; [done|done|]); [|done].
  intros c Hne. cbn. rewrite lookup_delete_ne by done. by apply Hoth.
Qed.
Lemma demoteUnexecutables_ok o p :
  oracle_ok o → good p →
  twp (demoteUnexecutables Hash recover config o) (fun _ p' => good p' ∧ shrinks p p') no_err p.
Proof.
  intros Ho Hg. unfold demoteUnexecutables. get_state.
  assert (NoDup (range_lists o (pending p)).*1) as Hnd by (rewrite (ok_lists o Ho); apply NoDup_fst_map_to_list).
  eapply twp_conseq; [apply (twp_for_each _ _ (fun xs p' => good p' ∧ shrinks p p' ∧ NoDup xs ∧ ∀ a, a ∈ xs → is_Some (pending p' !! a)))| |done].
  - split_and!; [done|reflexivity|done|]. intros a Hin. rewrite (ok_lists o Ho) in Hin.
    apply list_elem_of_fmap in Hin as ([b l] & -> & Hin). apply elem_of_map_to_list in Hin. by exists l.
  - intros a xs p' (Hg' & Hs & Hnd' & Hin). apply NoDup_cons in Hnd' as [Ha Hnd'].
    eapply twp_conseq; [apply demote_account_ok; [done|done|apply Hin; by left]| |done].
    intros _ p2 (Hg2 & Hs2 & Hoth). split_and!; [done|by etrans|done|]. intros b Hb.
    rewrite Hoth by (intros ->; done). apply Hin. by right.
  - intros _ p' (H1 & H2 & _). done.
Qed.

End invariant.
