(* ===== verification/TxPoolCorrect.v ===== *)
(** * core: the transaction pool, correctness

    The limits of the pool, a new head and the runs of the scheduler on top of the
    invariant of TxPoolInv.v, and the theorems about the pool as a whole: it stays
    consistent and never panics, a run brings it within its limits, and what
    adding a transaction does. *)

From stdpp Require Import sorting.
From S2P Require Import Prelude Wp Heap Transaction Blocks BlockTree ChainInsert TxList TxListCorrect TxPool TxPoolInv.

Local Open Scope Z_scope.

Lemma NoDup_filter_fst {A B} (P : A * B → Prop) `{!∀ x, Decision (P x)} es : NoDup es.*1 → NoDup (filter P es).*1.
Proof.
  induction es as [|e es IH]; [done|]. rewrite fmap_cons, filter_cons. intros [Hn Hnd]%NoDup_cons. case_decide; [|by apply IH].
  rewrite fmap_cons. apply NoDup_cons. split; [|by apply IH]. intros (x & Hx & [_ Hin]%list_elem_of_filter)%list_elem_of_fmap.
  apply Hn. rewrite Hx. by apply list_elem_of_fmap_2.
Qed.

Section pool.
Context {St : Type} `{!minorBlockChain St}.
Context (Hash : Transaction → Z) (recover : EvmTransaction → option Z) (config : TxPoolConfig).
Abbreviation PM := (SE (TxPool St)).
Abbreviation sender := (sender recover).
Abbreviation place := (place recover).
Abbreviation signed_tx := (signed_tx recover).
Abbreviation inv := (inv Hash recover).
Abbreviation good := (good Hash recover).
Abbreviation contents p := (txs_of (pending p) ++ txs_of (queue p)).
Abbreviation config_ok := (config_ok config).
Abbreviation event_map := (gmap Z txSortedMap).

(** ** The limits *)

Lemma total_len o m : oracle_ok o → map_Forall (fun _ l => ∃ L, list_rep l L) m → total o m = Z.of_nat (length (txs_of m)).
Proof.
  intros Ho Hm. unfold total. assert (∀ es n, Forall (fun e : Z * txList => ∃ L, list_rep e.2 L) es →
    foldl (fun n (e : Z * txList) => n + Z.of_nat (list_Len e.2)) n es = n + Z.of_nat (length (es ≫= (fun e => txs_in e.2)))) as Hfold.
  { induction es as [|[a l] es IH]; intros n Hall; [cbn; lia|]. apply Forall_cons in Hall as [[L HL] Hall].
    cbn [foldl]. rewrite IH by done. cbn [mbind list_bind]. rewrite length_app. cbn [snd] in *.
    rewrite (txs_in_len l L HL), (Permutation_length (txs_in_rep l L HL)). lia. }
  rewrite Hfold; [unfold txs_of; by rewrite (ok_lists o Ho m)|].
  rewrite (ok_lists o Ho m). apply Forall_forall. intros [a l] Hin%elem_of_map_to_list. exact (Hm a l Hin).
Qed.
Lemma inv_reps X D (p : TxPool St) : inv X D p → map_Forall (fun _ l => ∃ L, list_rep l L) (pending p)
  ∧ map_Forall (fun _ l => ∃ L, list_rep l L) (queue p).
Proof. intros Hi. split; intros a l Ha; [by eapply inv_list_p|by eapply inv_list_q]. Qed.

(** The number of an account's pending transactions. *)
Definition held_by (p : TxPool St) (a : Z) : option nat := list_Len <$> pending p !! a.
Definition pending_count (p : TxPool St) : Z := Z.of_nat (length (txs_of (pending p))).

Lemma cap_one_ok a n o p :
  oracle_ok o → good p → held_by p a = Some n → (2 ≤ n)%nat →
  twp (cap_one Hash o a)
    (fun _ p' => good p' ∧ shrinks p p' ∧ queue p' = queue p ∧ held_by p' a = Some (n - 1)%nat
       ∧ (∀ c, c ≠ a → held_by p' c = held_by p c) ∧ pending_count p' = pending_count p - 1) no_err p.
Proof.
  intros Ho Hg Hn Hn2. pose proof (at_work_start Hash recover p Hg) as Hw. unfold held_by in Hn.
  destruct (pending p !! a) as [l|] eqn:Ha; [|done]. cbn in Hn. injection Hn as Hn.
  destruct (inv_list_p Hash recover _ _ _ _ _ (proj1 Hg) Ha) as [L HL]. rewrite (txs_in_len l L HL) in Hn.
  unfold cap_one, pending_Len. apply twp_bind. eapply (twp_ok _ _ _ _ (Z.of_nat n) p).
  { se_red. rewrite Ha. cbn. by rewrite (txs_in_len l L HL), Hn. }
  cbv beta. destruct (take_Cap (Z.of_nat n - 1) l L HL) as (R & l' & HF & HL' & Hst & Hp & HR); [lia|].
  replace (Z.to_nat (Z.of_nat n - 1)) with (n - 1)%nat in * by lia.
  assert (∃ t, R = [t]) as [t ->].
  { apply (f_equal length) in HR. rewrite length_reverse, length_drop in HR.
    destruct R as [|t [|]]; cbn in HR; [lia|by exists t|lia]. }
  pose proof (proj1 (proj2 Hg)) as HfP.
  destruct (on_pending_take Hash recover a _ _ l l' L _ [t] [] [] p (proj1 Hg) Ha HF HL HL' Hst Hp) as (Heq & Hi1 & Hperm).
  apply twp_bind. eapply twp_ok; [exact Heq|]. cbv beta. apply twp_bind. eapply twp_ok; [apply deref_all_ok|]. cbv beta.
  set (p1 := set_pending (<[a := l']> (pending p)) p) in *.
  assert (list_Len l' = (n - 1)%nat) as Hlen' by (rewrite (txs_in_len l' _ HL'), length_take; lia).
  assert (inv [] [] (set_all (delete (Hash t) (all p1)) p1)) as Hi2.
  { destruct Hi1 as [H1 H2 H3 H4]. constructor; cbn; [by apply lists_kill|by apply price_delete|done|done]. }
  destruct (on_noncer_ok (fun f m => (tt, noncer_setIfLower f a (nonce t) m)) _ (inv_nonces _ _ _ _ _ Hi2)) as (u & k & Hk).
  apply twp_bind. cbn [for_each]. apply twp_bind.
  eapply (twp_ok _ _ _ _ u (set_nonces (Some k) (set_all (delete (Hash t) (all p1)) p1))); [exact Hk|].
  set (p3 := set_nonces (Some k) (set_all (delete (Hash t) (all p1)) p1)).
  assert (inv [] [] p3) as Hi3 by (by apply inv_set_nonces).
  pose proof (inv_Removed Hash recover [] [] o 1 p3 (ok_txs o Ho) Hi3) as Hi4.
  split_and!; [split_and!; [exact Hi4| |apply Hg]|split; [done|]|done| | |].
  - cbn. eapply full_mono; [apply full_insert; [done|lia]|set_solver].
  - cbn. rewrite Hperm. by apply submseteq_cons.
  - unfold held_by. cbn. rewrite lookup_insert_eq. cbn. by rewrite Hlen'.
  - intros c Hc. unfold held_by. cbn. by rewrite lookup_insert_ne.
  - unfold pending_count. cbn. rewrite Hperm. cbn. lia.
Qed.

(** One transaction of each offender goes. *)
Lemma cap_each offenders e o p :
  oracle_ok o → good p → NoDup offenders → (2 ≤ e)%nat → (∀ a, a ∈ offenders → held_by p a = Some e) →
  twp (for_each offenders (cap_one Hash o))
    (fun _ p' => good p' ∧ shrinks p p' ∧ queue p' = queue p ∧ (∀ a, a ∈ offenders → held_by p' a = Some (e - 1)%nat)
       ∧ (∀ c, c ∉ offenders → held_by p' c = held_by p c)
       ∧ pending_count p' = pending_count p - Z.of_nat (length offenders)) no_err p.
Proof.
  intros Ho Hg Hnd He Hall.
  eapply twp_conseq; [apply (twp_for_each offenders _ (fun xs p' => good p' ∧ shrinks p p' ∧ queue p' = queue p ∧ NoDup xs
    ∧ xs ⊆ offenders ∧ (∀ a, a ∈ xs → held_by p' a = Some e) ∧ (∀ a, a ∈ offenders → a ∉ xs → held_by p' a = Some (e - 1)%nat)
    ∧ (∀ c, c ∉ offenders → held_by p' c = held_by p c)
    ∧ pending_count p' - Z.of_nat (length xs) = pending_count p - Z.of_nat (length offenders)))| |done].
  - split_and!; [done|reflexivity|done|done|done|done|done|done|done].
  - intros a xs p' (Hg' & Hs & HQ & Hnd' & Hsub & Hxs & Hdone & Hoth & Hcnt). apply NoDup_cons in Hnd' as [Ha Hnd'].
    eapply twp_conseq; [apply (cap_one_ok a e o p' Ho Hg'); [apply Hxs; by left|done]| |done].
    intros _ p2 (Hg2 & Hs2 & HQ2 & Ha2 & Hoth2 & Hcnt2).
    split_and!; [done|by etrans|congruence|done|set_solver| | | |].
    + intros b Hb. rewrite Hoth2 by (intros ->; done). apply Hxs. by right.
    + intros b Hb Hnb. destruct (decide (b = a)) as [->|Hne]; [done|]. rewrite Hoth2 by done. apply Hdone; set_solver.
    + intros c Hc. rewrite Hoth2 by set_solver. by apply Hoth.
    + cbn [length] in Hcnt. lia.
  - intros _ p' (H1 & H2 & H3 & _ & _ & _ & H4 & H5 & H6). split_and!; [done|done|done| |done|cbn in H6; lia].
    intros a Ha. apply H4; [done|]. apply not_elem_of_nil.
Qed.

(** Offenders of equal length are brought down together, to the threshold or
    until the pool is within its limit. *)
Lemma reduce_loop_ok fuel offenders lst threshold e o p :
  oracle_ok o → good p → NoDup offenders → lst ∈ offenders → 1 <= threshold <= Z.of_nat e → (e ≤ fuel)%nat →
  (∀ a, a ∈ offenders → held_by p a = Some e) →
  twp (reduce_loop Hash config o fuel offenders lst threshold (pending_count p))
    (fun count p' => good p' ∧ shrinks p p' ∧ queue p' = queue p ∧ count = pending_count p'
       ∧ (∃ e', threshold <= Z.of_nat e' ∧ (∀ a, a ∈ offenders → held_by p' a = Some e')
            ∧ (GlobalSlots config < count → Z.of_nat e' = threshold))
       ∧ (∀ c, c ∉ offenders → held_by p' c = held_by p c)) no_err p.
Proof.
  intros Ho. revert e p. induction fuel as [|fuel IH]; intros e p Hg Hnd Hl Ht Hf Hall; [lia|]. cbn [reduce_loop].
  destruct (bool_decide (GlobalSlots config < pending_count p)) eqn:Hc.
  2: { apply bool_decide_eq_false in Hc. split_and!; [done|reflexivity|done|done| |done]. exists e. split_and!; [lia|done|done]. }
  apply twp_bind. eapply (twp_ok _ _ _ _ (Z.of_nat e) p).
  { pose proof (Hall lst Hl) as Hlen. unfold held_by in Hlen. unfold pending_Len. se_red.
    destruct (pending p !! lst) as [l|]; [|done]. cbn in Hlen. injection Hlen as <-. done. }
  cbv beta. destruct (bool_decide (threshold < Z.of_nat e)) eqn:Hte.
  2: { apply bool_decide_eq_false in Hte. split_and!; [done|reflexivity|done|done| |done]. exists e. split_and!; [lia|done|lia]. }
  apply bool_decide_eq_true in Hte. apply twp_bind.
  eapply twp_conseq; [by apply (cap_each offenders e); [..|lia|]| |done].
  intros _ p1 (Hg1 & Hs1 & HQ1 & Hall1 & Hoth1 & Hcnt1). rewrite <- Hcnt1.
  eapply twp_conseq; [apply (IH (e - 1)%nat); [done|done|done|lia|lia|done]| |done].
  intros count p2 (Hg2 & Hs2 & HQ2 & Hcnt2 & He2 & Hoth2). split_and!; [done|by etrans|congruence|done|done|].
  intros c Hc'. rewrite Hoth2 by done. by apply Hoth1.
Qed.

(** The accounts, the largest first, with their numbers. *)
Definition spam_ok (p : TxPool St) (spammers : list (Z * Z)) : Prop :=
  StronglySorted (fun x y => y.2 <= x.2) spammers ∧ NoDup spammers.*1
  ∧ Forall (fun x => AccountSlots config < x.2 ∧ held_by p x.1 = Some (Z.to_nat x.2)) spammers.

Lemma offend_loop_ok fuel spammers offenders o p :
  config_ok → oracle_ok o → good p → spam_ok p spammers → NoDup (offenders ++ spammers.*1) →
  (GlobalSlots config < pending_count p → ∃ e, AccountSlots config < Z.of_nat e ∧ (e ≤ fuel)%nat
     ∧ (∀ a, a ∈ offenders → held_by p a = Some e) ∧ Forall (fun x => x.2 <= Z.of_nat e) spammers) →
  twp (offend_loop Hash config o fuel spammers.*1 offenders (pending_count p))
    (fun r p' => good p' ∧ shrinks p p' ∧ queue p' = queue p ∧ r.2 = pending_count p'
       ∧ NoDup r.1 ∧ (∀ c, c ∉ offenders ++ spammers.*1 → held_by p' c = held_by p c)
       ∧ (GlobalSlots config < r.2 → r.1 = offenders ++ spammers.*1
          ∧ ∃ e, AccountSlots config < Z.of_nat e ∧ (e ≤ fuel)%nat ∧ ∀ a, a ∈ r.1 → held_by p' a = Some e)) no_err p.
Proof.
  intros Hc Ho. revert offenders p. induction spammers as [|[a n] spammers IH]; intros offenders p Hg Hsp Hnd He.
  { cbn. rewrite app_nil_r in *. split_and!; [done|reflexivity|done|done|done|done|]. intros Hlt. split; [done|].
    destruct (He Hlt) as (e & H1 & H2 & H3 & _). by exists e. }
  cbn [offend_loop fmap list_fmap fst]. rewrite fmap_cons in *. cbn [fst] in *.
  destruct (bool_decide (GlobalSlots config < pending_count p)) eqn:Hlt.
  2: { apply bool_decide_eq_false in Hlt. split_and!; [done|reflexivity|done|done| |done|done].
       cbn. by apply NoDup_app in Hnd as [? _]. }
  apply bool_decide_eq_true in Hlt. destruct (He Hlt) as (e & He1 & He2 & He3 & He4). clear He.
  destruct Hsp as (Hsort & Hnds & Hspam). apply StronglySorted_cons in Hsort as [Hhd Hsort].
  apply Forall_cons in Hspam as [[Hn Ha] Hspam]. cbn [fst snd] in *. apply Forall_cons in He4 as [Hne He4]. cbn in Hne.
  apply NoDup_cons in Hnds as [Hnota Hnds]. pose proof (ok_AccountSlots _ Hc) as Has.
  assert (a ∉ offenders) as Hnoff by (apply NoDup_app in Hnd as (_ & Hnd & _); intros Hin; apply (Hnd a Hin); by left).
  assert (twp match last offenders with
              | Some lst => threshold ← pending_Len a; reduce_loop Hash config o fuel offenders lst threshold (pending_count p)
              | None => mret (pending_count p) end
    (fun count p' => good p' ∧ shrinks p p' ∧ queue p' = queue p ∧ count = pending_count p'
       ∧ (∀ c, c ∉ offenders → held_by p' c = held_by p c)
       ∧ (GlobalSlots config < count → ∀ b, b ∈ offenders → held_by p' b = Some (Z.to_nat n))) no_err p) as Hstep.
  { destruct (last offenders) as [lst|] eqn:Hlast.
    2: { apply last_None in Hlast as ->. split_and!; [done|reflexivity|done|done|done|]. intros _ b Hb. by apply not_elem_of_nil in Hb. }
    apply twp_bind. eapply (twp_ok _ _ _ _ n p).
    { unfold held_by in Ha. unfold pending_Len. se_red. destruct (pending p !! a) as [l|]; [|done]. cbn in Ha. injection Ha as Ha.
      cbn. rewrite Ha, Z2Nat.id by lia. done. }
    cbv beta. apply NoDup_app in Hnd as (Hndo & _ & _).
    eapply twp_conseq; [apply (reduce_loop_ok fuel offenders lst n e); try done; [by apply last_Some_elem_of|lia]| |done].
    intros count p1 (Hg1 & Hs1 & HQ1 & Hcnt1 & (e' & He' & Hall' & Hend) & Hoth1). split_and!; [done|done|done|done|done|].
    intros Hlt' b Hb. rewrite (Hall' b Hb). f_equal. specialize (Hend Hlt'). lia. }
  apply twp_bind. eapply twp_conseq; [exact Hstep| |done]. intros count p1 (Hg1 & Hs1 & HQ1 & -> & Hoth1 & Hoff1).
  eapply twp_conseq; [apply (IH (offenders ++ [a])); [done| |by rewrite <- app_assoc|]| |done].
  - split_and!; [done|done|]. rewrite Forall_forall in *. intros x Hx. destruct (Hspam x Hx) as [H1 H2]. split; [done|].
    rewrite Hoth1; [done|]. apply NoDup_app in Hnd as (_ & Hnd & _). intros Hin. apply (Hnd _ Hin). right. by apply list_elem_of_fmap_2.
  - intros Hlt1. exists (Z.to_nat n). split_and!; [lia|lia| |].
    + intros b [Hb|Hb%list_elem_of_singleton]%elem_of_app; [by apply Hoff1|]. subst b. by rewrite Hoth1.
    + rewrite Z2Nat.id by lia. done.
  - intros r p2 (Hg2 & Hs2 & HQ2 & Hr2 & Hnd2 & Hoth2 & Hend2).
    split_and!; [done|by etrans|congruence|done|done| |].
    + intros c Hc'. rewrite <- app_assoc in Hoth2. cbn in Hoth2. rewrite Hoth2 by done. apply Hoth1. intros Hin. apply Hc'. rewrite elem_of_app. by left.
    + intros Hlt2. destruct (Hend2 Hlt2) as [Heq Hex]. split; [by rewrite Heq, <- app_assoc|done].
Qed.

Lemma held_le (p : TxPool St) a n : good p → held_by p a = Some n → Z.of_nat n <= pending_count p.
Proof.
  intros (Hi & _) Hn. unfold held_by in Hn. destruct (pending p !! a) as [l|] eqn:Ha; [|done]. cbn in Hn. injection Hn as <-.
  destruct (inv_list_p Hash recover _ _ _ _ _ Hi Ha) as [L HL]. unfold pending_count.
  rewrite (txs_of_lookup _ a l Ha), length_app, (txs_in_len l L HL), (Permutation_length (txs_in_rep l L HL)). lia.
Qed.

(** Every remote account is within its guaranteed slots. *)
Definition slots_kept (p : TxPool St) : Prop :=
  ∀ a n, held_by p a = Some n → set_contains a (locals p) = false → Z.of_nat n <= AccountSlots config.

(** The big remote accounts in the order of the priority queue. *)
Lemma spammers_ok o p ys :
  oracle_ok o → good p →
  let big := filter (fun e => set_contains e.1 (locals p) = false ∧ AccountSlots config < Z.of_nat (list_Len e.2)) (range_lists o (pending p)) in
  ys ≡ₚ (fun e => (e.1, Z.of_nat (list_Len e.2))) <$> big → StronglySorted (fun x y => y.2 <= x.2) ys →
  spam_ok p ys ∧ ∀ a n, held_by p a = Some n → set_contains a (locals p) = false → a ∉ ys.*1 → Z.of_nat n <= AccountSlots config.
Proof.
  intros Ho Hg big Hys Hsort. split; [split_and!; [done| |]|].
  - rewrite Hys. rewrite <- list_fmap_compose. apply NoDup_filter_fst. rewrite (ok_lists o Ho). apply NoDup_fst_map_to_list.
  - rewrite Hys. apply Forall_forall. intros x Hx. apply list_elem_of_fmap in Hx as ([a l] & -> & Hin).
    apply list_elem_of_filter in Hin as [[_ Hlen] Hin]. cbn in *. split; [done|]. rewrite (ok_lists o Ho) in Hin.
    apply elem_of_map_to_list in Hin. unfold held_by. rewrite Hin. cbn. by rewrite Nat2Z.id.
  - intros a n Hn Hloc Hnin. unfold held_by in Hn. destruct (pending p !! a) as [l|] eqn:Ha; [|done]. cbn in Hn. injection Hn as <-.
    destruct (decide (Z.of_nat (list_Len l) <= AccountSlots config)) as [|Hgt]; [done|]. exfalso. apply Hnin.
    rewrite Hys, <- list_fmap_compose. apply list_elem_of_fmap. exists (a, l). split; [done|].
    apply list_elem_of_filter. cbn. split; [split; [done|lia]|]. rewrite (ok_lists o Ho). by apply elem_of_map_to_list.
Qed.
Lemma truncatePending_ok o p :
  config_ok → oracle_ok o → good p →
  twp (truncatePending Hash config o)
    (fun _ p' => good p' ∧ shrinks p p' ∧ queue p' = queue p ∧ (pending_count p' <= GlobalSlots config ∨ slots_kept p')) no_err p.
Proof.
  intros Hc Ho Hg. unfold truncatePending. get_state. rewrite (total_len o _ Ho (proj1 (inv_reps _ _ _ (proj1 Hg)))).
  fold (pending_count p). cbv zeta.
  destruct (bool_decide (pending_count p <= GlobalSlots config)) eqn:Hle.
  { apply bool_decide_eq_true in Hle. split_and!; [done|reflexivity|done|by left]. }
  apply bool_decide_eq_false in Hle. set (big := filter _ (range_lists o (pending p))).
  destruct (ok_prque o Ho ((fun e => (e.1, Z.of_nat (list_Len e.2))) <$> big)) as (ys & -> & Hys & Hsort).
  destruct (spammers_ok o p ys Ho Hg Hys Hsort) as [Hspam Hsmall].
  destruct (decide (ys = [])) as [->|Hne].
  { split_and!; [done|reflexivity|done|]. right. intros a n Hn Hl. eapply Hsmall; [done|done|]. apply not_elem_of_nil. }
  apply twp_bind. eapply twp_conseq; [apply (offend_loop_ok (Z.to_nat (pending_count p)) ys [] o p Hc Ho Hg Hspam); [apply Hspam|]| |done].
  { intros _. destruct Hspam as (_ & _ & Hf). rewrite Forall_forall in Hf.
    assert (∀ x, x ∈ ys → AccountSlots config < x.2 <= pending_count p) as Hb.
    { intros x Hx. destruct (Hf x Hx) as [H1 H2]. apply held_le in H2; [|done]. pose proof (ok_AccountSlots _ Hc). lia. }
    destruct ys as [|y ys]; [done|]. pose proof (Hb y ltac:(by left)). exists (Z.to_nat (pending_count p)).
    split_and!; [lia|done|intros a Ha; by apply not_elem_of_nil in Ha|]. apply Forall_forall. intros x Hx. specialize (Hb x Hx). lia. }
  intros [offenders count] p1 (Hg1 & Hs1 & HQ1 & Hcnt1 & Hnd1 & Hoth1 & Hend1). cbn [fst snd app] in *. subst count.
  destruct (decide (GlobalSlots config < pending_count p1)) as [Hlt|Hge].
  2: { assert (∀ lst, (_ ← reduce_loop Hash config o (Z.to_nat (pending_count p1)) offenders lst (AccountSlots config) (pending_count p1); mret tt) p1 = (Ok tt, p1)) as Hid.
       { intros lst. se_red. destruct (Z.to_nat (pending_count p1)); cbn [reduce_loop]; rewrite bool_decide_false by done; done. }
       destruct (last offenders) as [lst|]; [eapply twp_ok; [apply Hid|]|]; (split_and!; [done|done|done|left; lia]). }
  destruct (Hend1 Hlt) as [-> (e & He & _ & Hall)].
  destruct (last ys.*1) as [lst|] eqn:Hlast; [|apply last_None in Hlast; by destruct ys].
  apply twp_bind. pose proof (last_Some_elem_of _ _ Hlast) as Hin. pose proof (ok_AccountSlots _ Hc) as Has.
  eapply twp_conseq; [apply (reduce_loop_ok _ ys.*1 lst (AccountSlots config) e); [done|done|done|done|lia| |done]| |done].
  { pose proof (held_le p1 lst e Hg1 (Hall lst Hin)). lia. }
  intros count p2 (Hg2 & Hs2 & HQ2 & -> & (e' & He' & Hall' & Hend) & Hoth2). split_and!; [done|by etrans|congruence|].
  destruct (decide (GlobalSlots config < pending_count p2)) as [Hlt2|]; [right|left; lia].
  intros a n Hn Hl. destruct (decide (a ∈ ys.*1)) as [Hin'|Hnin].
  - rewrite (Hall' a Hin') in Hn. injection Hn as <-. specialize (Hend Hlt2). lia.
  - rewrite Hoth2, Hoth1 in Hn by done. eapply Hsmall; [done| |done].
    destruct Hs1 as [He1 _], Hs2 as [He2 _]. unfold env in *. simplify_eq. congruence.
Qed.

Definition queue_count (p : TxPool St) : Z := Z.of_nat (length (txs_of (queue p))).

(** Queued transactions leave the pool. *)
Lemma remove_queued_list ts o p :
  oracle_ok o → good p → NoDup ts → (∀ t, t ∈ ts → t ∈ txs_of (queue p)) →
  twp (for_each ts (fun t => removeTx Hash recover config o (Hash t) true))
    (fun _ p' => good p' ∧ shrinks p p' ∧ pending p' = pending p ∧ ts ++ txs_of (queue p') ≡ₚ txs_of (queue p)
       ∧ beats p' = beats p) no_err p.
Proof.
  intros Ho Hg Hnd Hin.
  eapply twp_conseq; [apply (twp_for_each ts _ (fun xs p' => good p' ∧ shrinks p p' ∧ pending p' = pending p ∧ NoDup xs
    ∧ beats p' = beats p ∧ (∀ t, t ∈ xs → t ∈ txs_of (queue p')) ∧ ts ++ txs_of (queue p') ≡ₚ xs ++ txs_of (queue p)))| |done].
  - split_and!; [done|reflexivity|done|done|done|done|done].
  - intros t xs p' (Hg' & Hs & HP & Hnd' & Hb' & Hin' & Hperm). apply NoDup_cons in Hnd' as [Ht Hnd'].
    pose proof (Hin' t ltac:(by left)) as HtQ. destruct Hg' as (Hi & HfP & HfQ).
    assert (all p' !! Hash t = Some t) as Hall.
    { apply (lists_lookup Hash recover [] (pending p') (queue p')); [apply Hi|]. cbn. apply elem_of_app. by right. }
    eapply twp_conseq; [apply (removeTx_known Hash recover config (Hash t) true t o [] p'); try done; [apply Ho|by left]| |done].
    intros _ p2 (Hi2 & HfP2 & HfQ2 & He2 & Hc2 & HQ2). destruct (HQ2 HtQ) as (HP2 & Hb2 & Hp2).
    split_and!; [done| |congruence|done|congruence| |].
    + etrans; [done|]. split; [done|]. rewrite <- Hc2. by apply submseteq_cons.
    + intros u Hu. assert (u ∈ t :: txs_of (queue p2)) as Hu2 by (rewrite Hp2; apply Hin'; by right).
      apply elem_of_cons in Hu2 as [->|]; done.
    + apply (Permutation_cons_inv (a := t)). rewrite <- Hp2 in Hperm. rewrite <- Permutation_middle in Hperm.
      rewrite Hperm. done.
  - intros _ p' (H1 & H2 & H3 & _ & H4 & _ & H5). done.
Qed.

(** The queue of an account, sorted. *)
Lemma queue_Flatten_ok a l o (p : TxPool St) :
  oracle_ok o → good p → queue p !! a = Some l →
  ∃ L p', queue_Flatten o a p = (Ok L, p') ∧ list_rep l L ∧ good p' ∧ shrinks p p' ∧ pending p' = pending p
    ∧ txs_of (queue p') ≡ₚ txs_of (queue p) ∧ (∀ b, is_Some (queue p' !! b) ↔ is_Some (queue p !! b)) ∧ beats p' = beats p.
Proof.
  intros Ho Hg Ha. pose proof Hg as (Hi & HfP & HfQ). destruct (inv_list_q Hash recover _ _ _ _ _ Hi Ha) as [L HL].
  destruct (take_Flatten (range_txs o) l L (ok_txs o Ho) HL) as (l' & HF & HL' & Hst).
  destruct (on_queue_take Hash recover a (fun l => let '(c, l) := list_Flatten (range_txs o) l in (Ok c, l)) L l l' L L [] [] [] p)
    as (Heq & Hi' & Hperm); [done|done|by rewrite HF|done|done|done|done|].
  assert (list_Len l' ≠ 0%nat) as Hlen.
  { rewrite (txs_in_len l' L HL'), <- (txs_in_len l L HL). eapply HfQ; [done|set_solver]. }
  eexists L, _. split_and!; [exact Heq|done| |split; [done|]|done|done| |done].
  - split_and!; [done|done|]. cbn. eapply full_mono; [by apply full_insert|set_solver].
  - cbn in *. by rewrite Hperm.
  - intros b. cbn. rewrite lookup_insert_is_Some. split; [intros [->|[_ ?]]; [by eexists|done]|]. intros ?.
    destruct (decide (a = b)); auto.
Qed.

(** The accounts with queued transactions that are not local. *)
Definition remote_queued (p : TxPool St) (a : Z) : Prop := is_Some (queue p !! a) ∧ set_contains a (locals p) = false.
Lemma queued_sub (p p' : TxPool St) a : good p → good p' → txs_of (queue p') ⊆+ txs_of (queue p) → is_Some (queue p' !! a) → is_Some (queue p !! a).
Proof.
  intros (Hi & _) (Hi' & _ & HfQ) Hsub [l Ha]. pose proof (lo_Q _ _ _ _ _ _ (inv_lists _ _ _ _ _ Hi') a l Ha) as (_ & L & HL & Hall).
  assert (list_Len l ≠ 0%nat) as Hlen by (eapply HfQ; [done|set_solver]). rewrite (txs_in_len l L HL) in Hlen.
  destruct L as [|t L]; [done|]. apply Forall_cons in Hall as [Ht _].
  assert (t ∈ txs_of (queue p)) as Hin.
  { eapply elem_of_submseteq; [|exact Hsub]. apply elem_txs_of. exists a, l. split; [done|]. rewrite (txs_in_rep l _ HL). by left. }
  destruct (elem_list recover _ t false (lo_Q _ _ _ _ _ _ (inv_lists _ _ _ _ _ Hi)) Hin) as (k & K & Hk & _).
  rewrite (recover_sender recover t a Ht) in Hk. by eexists.
Qed.
Lemma queue_emptied (p p' : TxPool St) a l L :
  good p → good p' → queue p !! a = Some l → list_rep l L → L ++ txs_of (queue p') ≡ₚ txs_of (queue p) → queue p' !! a = None.
Proof.
  intros (Hi & _) (Hi' & _ & HfQ) Ha HL Hp. apply eq_None_not_Some. intros [l' Ha'].
  pose proof (lo_Q _ _ _ _ _ _ (inv_lists _ _ _ _ _ Hi') a l' Ha') as (_ & L' & HL' & Hall).
  assert (list_Len l' ≠ 0%nat) as Hlen by (eapply HfQ; [done|set_solver]). rewrite (txs_in_len l' L' HL') in Hlen.
  destruct L' as [|t L']; [done|]. apply Forall_cons in Hall as [Ht _].
  assert (t ∈ txs_of (queue p')) as Hin' by (apply elem_txs_of; exists a, l'; split; [done|]; rewrite (txs_in_rep l' _ HL'); by left).
  assert (t ∈ txs_of (queue p)) as Hin by (rewrite <- Hp, elem_of_app; by right).
  destruct (elem_list recover _ t false (lo_Q _ _ _ _ _ _ (inv_lists _ _ _ _ _ Hi)) Hin) as (k & K & Hk & HK & HtK & _).
  rewrite (recover_sender recover t a Ht), Ha in Hk. injection Hk as <-.
  rewrite <- (txs_in_rep l K HK), (txs_in_rep l L HL) in HtK.
  pose proof (lo_places _ _ _ _ _ _ (inv_lists _ _ _ _ _ Hi)) as Hnd. cbn in Hnd. rewrite fmap_app in Hnd.
  apply NoDup_app in Hnd as (_ & _ & Hnd). rewrite <- Hp, fmap_app in Hnd. apply NoDup_app in Hnd as (_ & Hnd & _).
  apply (Hnd (place t)); by apply list_elem_of_fmap_2.
Qed.
Lemma queue_others (p p' : TxPool St) a ts b :
  good p → good p' → ts ++ txs_of (queue p') ≡ₚ txs_of (queue p) → Forall (fun t => sender t = a) ts → b ≠ a →
  is_Some (queue p !! b) → is_Some (queue p' !! b).
Proof.
  intros (Hi & _ & HfQ) (Hi' & _) Hp Hts Hne [l Hb].
  pose proof (lo_Q _ _ _ _ _ _ (inv_lists _ _ _ _ _ Hi) b l Hb) as (_ & L & HL & Hall).
  assert (list_Len l ≠ 0%nat) as Hlen by (eapply HfQ; [done|set_solver]). rewrite (txs_in_len l L HL) in Hlen.
  destruct L as [|t L]; [done|]. apply Forall_cons in Hall as [Ht _]. apply recover_sender in Ht.
  assert (t ∈ txs_of (queue p)) as Hin by (apply elem_txs_of; exists b, l; split; [done|]; rewrite (txs_in_rep l _ HL); by left).
  rewrite <- Hp, elem_of_app in Hin. destruct Hin as [Hin|Hin].
  - rewrite Forall_forall in Hts. specialize (Hts t Hin). congruence.
  - destruct (elem_list recover _ t false (lo_Q _ _ _ _ _ _ (inv_lists _ _ _ _ _ Hi')) Hin) as (k & K & Hk & _).
    rewrite Ht in Hk. by eexists.
Qed.
Lemma drop_none addresses o p : drop_queued Hash recover config o addresses 0 p = (Ok tt, p).
Proof. destruct addresses as [|[a b] addresses]; done. Qed.
Lemma drop_queued_ok addresses drop o p :
  oracle_ok o → good p → 0 <= drop → NoDup addresses.*1 → (∀ a, a ∈ addresses.*1 → is_Some (queue p !! a)) →
  (∀ a, remote_queued p a → a ∈ addresses.*1) →
  twp (drop_queued Hash recover config o addresses drop)
    (fun _ p' => good p' ∧ shrinks p p' ∧ pending p' = pending p
       ∧ (queue_count p' = queue_count p - drop ∨ ∀ a, ¬ remote_queued p' a)) no_err p.
Proof.
  intros Ho. revert drop p. induction addresses as [|[a bt] addresses IH]; intros drop p Hg Hd Hnd Hin Hrem.
  { split_and!; [done|reflexivity|done|]. right. intros a Ha. by apply Hrem, not_elem_of_nil in Ha. }
  cbn [drop_queued]. destruct (bool_decide (0 < drop)) eqn:Hpos.
  2: { apply bool_decide_eq_false in Hpos. split_and!; [done|reflexivity|done|left; lia]. }
  apply bool_decide_eq_true in Hpos. cbn in Hnd, Hin. apply NoDup_cons in Hnd as [Hna Hnd]. get_state.
  destruct (Hin a ltac:(by left)) as [l Ha]. rewrite Ha. apply twp_bind.
  change (twp (deref (Some l)) ?Q ?E ?q) with (Q l q). cbv beta zeta. apply twp_bind.
  destruct (queue_Flatten_ok a l o p Ho Hg Ha) as (L & p1 & Heq & HL & Hg1 & Hs1 & HP1 & HQ1 & Hdom1 & _).
  eapply twp_ok; [exact Heq|]. cbv beta. rewrite (txs_in_len l L HL).
  pose proof (lo_Q _ _ _ _ _ _ (inv_lists _ _ _ _ _ (proj1 Hg)) a l Ha) as (_ & K & HK & Hsend).
  assert (∀ t, t ∈ L → sender t = a) as HLa.
  { intros t Ht. rewrite <- (txs_in_rep l L HL), (txs_in_rep l K HK) in Ht. rewrite Forall_forall in Hsend. by apply recover_sender, Hsend. }
  assert (∀ t, t ∈ L → t ∈ txs_of (queue p1)) as HLin.
  { intros t Ht. rewrite HQ1. apply elem_txs_of. exists a, l. split; [done|]. by rewrite (txs_in_rep l L HL). }
  assert (NoDup L) as HndL by (eapply NoDup_fmap_1, increasing_nodup, HL).
  destruct (bool_decide (Z.of_nat (length L) <= drop)) eqn:Hle.
  - apply bool_decide_eq_true in Hle. apply twp_bind. eapply twp_conseq; [by apply remove_queued_list| |done].
    intros _ p2 (Hg2 & Hs2 & HP2 & HQ2 & _). rewrite HQ1 in HQ2.
    assert (queue_count p2 = queue_count p - Z.of_nat (length L)) as Hcnt by (unfold queue_count; rewrite <- HQ2, length_app; lia).
    eapply twp_conseq; [apply IH; [done|lia|done| |]| |done].
    + intros b Hb. eapply (queue_others p p2 a L); [done|done|done|by apply Forall_forall|by intros ->|]. apply Hin. by right.
    + intros b [Hb Hloc]. destruct (decide (b = a)) as [->|Hne].
      * rewrite (queue_emptied p p2 a l L Hg Hg2 Ha HL HQ2) in Hb. by destruct Hb.
      * assert (b ∈ a :: addresses.*1) as Hb'; [|by apply elem_of_cons in Hb' as [->|]].
        apply Hrem. split; [apply (queued_sub p p2); [done|done|rewrite <- HQ2; by apply submseteq_inserts_l|done]|].
        destruct Hs1 as [He1 _], Hs2 as [He2 _]. unfold env in *. simplify_eq. congruence.
    + intros _ p3 (Hg3 & Hs3 & HP3 & Hend). split_and!; [done|etrans; [done|]; by etrans|congruence|].
      destruct Hend as [->|]; [left; lia|by right].
  - apply bool_decide_eq_false in Hle. apply twp_bind. set (ts := take (Z.to_nat drop) (reverse L)).
    assert (length ts = Z.to_nat drop) as Hts by (unfold ts; rewrite length_take, length_reverse; lia).
    eapply twp_conseq; [apply (remove_queued_list ts o p1 Ho Hg1)| |done].
    + unfold ts. eapply sublist_NoDup; [|apply sublist_take]. by rewrite reverse_Permutation.
    + intros t Ht. apply HLin. apply elem_of_reverse. eapply elem_of_submseteq; [exact Ht|]. apply sublist_submseteq, sublist_take.
    + intros _ p2 (Hg2 & Hs2 & HP2 & HQ2 & _). rewrite HQ1 in HQ2. rewrite Hts, Z2Nat.id, Z.sub_diag by lia.
      eapply twp_ok; [apply drop_none|]. split_and!; [done|by etrans|congruence|left].
      unfold queue_count. rewrite <- HQ2, length_app. lia.
Qed.
Lemma truncateQueue_ok o p :
  oracle_ok o → good p →
  twp (truncateQueue Hash recover config o)
    (fun _ p' => good p' ∧ shrinks p p' ∧ pending p' = pending p
       ∧ (queue_count p' <= GlobalQueue config ∨ ∀ a, ¬ remote_queued p' a)) no_err p.
Proof.
  intros Ho Hg. unfold truncateQueue. get_state. rewrite (total_len o _ Ho (proj2 (inv_reps _ _ _ (proj1 Hg)))).
  fold (queue_count p). cbv zeta. destruct (bool_decide (queue_count p <= GlobalQueue config)) eqn:Hle.
  { apply bool_decide_eq_true in Hle. split_and!; [done|reflexivity|done|by left]. }
  apply bool_decide_eq_false in Hle. set (remote := filter _ (range_lists o (queue p))).
  destruct (ok_beats o Ho ((fun e => (e.1, beat p e.1)) <$> remote)) as [Hperm _].
  assert ((reverse (sort_beats o ((fun e => (e.1, beat p e.1)) <$> remote))).*1 ≡ₚ remote.*1) as Hkeys.
  { rewrite reverse_Permutation, Hperm, <- list_fmap_compose. done. }
  eapply twp_conseq; [apply drop_queued_ok; [done|done|lia| | |]| |done].
  - rewrite Hkeys. apply NoDup_filter_fst. rewrite (ok_lists o Ho). apply NoDup_fst_map_to_list.
  - intros a. rewrite Hkeys. intros ([b l] & -> & [_ Hin]%list_elem_of_filter)%list_elem_of_fmap.
    rewrite (ok_lists o Ho) in Hin. apply elem_of_map_to_list in Hin. by eexists.
  - intros a [[l Hl] Hloc]. rewrite Hkeys. apply list_elem_of_fmap. exists (a, l). split; [done|].
    apply list_elem_of_filter. split; [done|]. rewrite (ok_lists o Ho). by apply elem_of_map_to_list.
  - intros _ p' (H1 & H2 & H3 & H4). split_and!; [done|done|done|]. destruct H4 as [->|]; [left; lia|by right].
Qed.

(** ** The other operations *)

(** A remote account with queued transactions was seen within the lifetime. *)
Definition fresh (o : Oracle) (p : TxPool St) (a : Z) : Prop := Since (now o) (beat p a) <= Lifetime config.

Lemma evict_account_ok a o p :
  oracle_ok o → good p →
  twp (evict_account Hash recover config o a)
    (fun _ p' => good p' ∧ shrinks p p' ∧ pending p' = pending p ∧ beats p' = beats p
       ∧ ∀ b, remote_queued p' b → remote_queued p b ∧ (b = a → fresh o p b)) no_err p.
Proof.
  intros Ho Hg. unfold evict_account. get_state. destruct (queue p !! a) as [l|] eqn:Ha.
  2: { split_and!; [done|reflexivity|done|done|]. intros b Hb. split; [done|]. intros ->. destruct Hb as [Hb _]. rewrite Ha in Hb. by destruct Hb. }
  destruct (set_contains a (locals p)) eqn:Hloc.
  { split_and!; [done|reflexivity|done|done|]. intros b Hb. split; [done|]. intros ->. destruct Hb as [_ Hb]. congruence. }
  destruct (bool_decide (Lifetime config < Since (now o) (beat p a))) eqn:Hold.
  2: { apply bool_decide_eq_false in Hold. split_and!; [done|reflexivity|done|done|]. intros b Hb. split; [done|]. intros ->. unfold fresh. lia. }
  destruct (queue_Flatten_ok a l o p Ho Hg Ha) as (L & p1 & Heq & HL & Hg1 & Hs1 & HP1 & HQ1 & Hdom1 & Hb1).
  apply twp_bind. eapply twp_ok; [exact Heq|]. cbv beta.
  eapply twp_conseq; [apply (remove_queued_list L o p1 Ho Hg1)| |done].
  - eapply NoDup_fmap_1, increasing_nodup, HL.
  - intros t Ht. rewrite HQ1. apply elem_txs_of. exists a, l. split; [done|]. by rewrite (txs_in_rep l L HL).
  - intros _ p2 (Hg2 & Hs2 & HP2 & HQ2 & Hb2). rewrite HQ1 in HQ2. split_and!; [done|by etrans|congruence|congruence|].
    intros b [Hb Hl]. split.
    + split; [apply (queued_sub p p2); [done|done|rewrite <- HQ2; by apply submseteq_inserts_l|done]|].
      destruct Hs1 as [He1 _], Hs2 as [He2 _]. unfold env in *. simplify_eq. congruence.
    + intros ->. rewrite (queue_emptied p p2 a l L Hg Hg2 Ha HL HQ2) in Hb. by destruct Hb.
Qed.
Lemma evict_ok o p :
  oracle_ok o → good p →
  twp (evict Hash recover config o)
    (fun _ p' => good p' ∧ shrinks p p' ∧ pending p' = pending p ∧ ∀ a, remote_queued p' a → fresh o p' a) no_err p.
Proof.
  intros Ho Hg. unfold evict. get_state.
  eapply twp_conseq; [apply (twp_for_each _ _ (fun xs p' => good p' ∧ shrinks p p' ∧ pending p' = pending p ∧ beats p' = beats p
    ∧ ∀ a, remote_queued p' a → a ∈ xs ∨ fresh o p a))| |done].
  - split_and!; [done|reflexivity|done|done|]. intros a [[l Ha] _]. left. rewrite (ok_lists o Ho).
    apply list_elem_of_fmap. exists (a, l). by rewrite elem_of_map_to_list.
  - intros a xs p' (Hg' & Hs & HP & Hb & Hr). eapply twp_conseq; [by apply evict_account_ok| |done].
    intros _ p2 (Hg2 & Hs2 & HP2 & Hb2 & Hr2). split_and!; [done|by etrans|congruence|congruence|].
    intros b Hb'. destruct (Hr2 b Hb') as [H1 H2]. destruct (Hr b H1) as [[->|?]%elem_of_cons|?]; [|by left|by right].
    right. specialize (H2 eq_refl). unfold fresh, beat in *. by rewrite Hb in H2.
  - intros _ p' (H1 & H2 & H3 & H4 & H5). split_and!; [done|done|done|]. intros a Ha.
    destruct (H5 a Ha) as [Hn|Hf]; [by apply not_elem_of_nil in Hn|]. unfold fresh, beat in *. by rewrite H4.
Qed.

Lemma SetGasPrice_ok price o p :
  oracle_ok o → good p →
  twp (SetGasPrice Hash recover config o price)
    (fun _ p' => good p' ∧ contents p' ⊆+ contents p ∧ gasPrice p' = price
       ∧ ∀ t, t ∈ contents p' → price <= GasPrice (EvmTx t) ∨ containsTx recover t (locals p') = true) no_err p.
Proof.
  intros Ho Hg. unfold SetGasPrice. apply twp_bind.
  change (twp (se_mod (set_gasPrice price)) ?Q ?E p) with (Q tt (set_gasPrice price p)). cbv beta. get_state.
  set (p1 := set_gasPrice price p). pose proof Hg as ([Hl Hp Hs Hn] & HP & HQ).
  pose proof (lists_by_hash _ _ _ _ _ _ Hl) as Hb.
  destruct (price_Cap Hash recover (all p1) price (locals p1) (priced p1) Hb Hp) as (drop & l & Heq & Hpr & _ & Hcheap).
  rewrite Heq. cbv beta iota. apply twp_bind. change (twp (se_mod ?f) ?Q ?E ?q) with (Q tt (f q)). cbv beta.
  eapply twp_conseq; [apply remove_dropped; [apply Ho|by constructor|done|done]| |done].
  intros _ p' (Hg' & [He Hsub] & Hgone). split_and!; [done|done|unfold env in He; by simplify_eq|].
  intros t Ht. destruct (decide (price <= GasPrice (EvmTx t))) as [|Hlt]; [by left|right].
  destruct (containsTx recover t (locals p')) eqn:Hc; [done|]. exfalso.
  assert (locals p' = locals p) as Hloc by (unfold env in He; by simplify_eq).
  pose proof (elem_of_submseteq _ _ _ Ht Hsub) as Hin. cbn in Hin.
  pose proof (lists_lookup Hash recover [] (pending p) (queue p) (all p) t Hl Hin) as Hk.
  pose proof (Hcheap _ t Hk ltac:(cbn; congruence) ltac:(lia)) as Hd.
  pose proof (lists_lookup Hash recover [] (pending p') (queue p') (all p') t (inv_lists _ _ _ _ _ (proj1 Hg')) Ht) as Hk'.
  by rewrite (Hgone t Hd) in Hk'.
Qed.

(** ** A new head *)

Section reorg.
Context `{!ChainLaws (St := St) Hash}.
Abbreviation nonces_ok := (Forall (fun t => in_u64 (nonce t))).

Lemma walk_down_nonces fuel h b b' ts ts' :
  walk_down fuel h b ts = Some (b', ts') → nonces_ok (mb_transactions b) → nonces_ok ts →
  nonces_ok (mb_transactions b') ∧ nonces_ok ts'.
Proof.
  revert b ts. induction fuel as [|fuel IH]; intros b ts; cbn [walk_down]; (case_bool_decide; [|by intros [= <- <-]]); [done|].
  destruct (chain_GetMinorBlock (mh_parent (mb_header b))) as [b1|] eqn:Hb; [|done].
  intros Hw H1 H2. eapply IH; [exact Hw|by eapply cl_blocks|by apply Forall_app].
Qed.
Lemma walk_both_nonces fuel b c ts us ts' us' :
  walk_both fuel b c ts us = Some (ts', us') → nonces_ok (mb_transactions b) → nonces_ok ts → nonces_ok ts'.
Proof.
  revert b c ts us. induction fuel as [|fuel IH]; intros b c ts us; cbn [walk_both];
    (destruct (_ =? _); [by intros [= <- _]|]); [done|].
  destruct (chain_GetMinorBlock (mh_parent (mb_header b))) as [b1|] eqn:Hb; [|done].
  destruct (chain_GetMinorBlock (mh_parent (mb_header c))) as [c1|] eqn:Hc; [|done].
  intros Hw H1 H2. eapply IH; [exact Hw|by eapply cl_blocks|by apply Forall_app].
Qed.
Lemma reinjected_nonces oldHead newHead ts : reinjected Hash oldHead newHead = Some ts → nonces_ok ts.
Proof.
  unfold reinjected. destruct oldHead as [old|], newHead as [new|]; try by intros [= <-].
  destruct (_ =? _); [by intros [= <-]|]. case_bool_decide; [by intros [= <-]|].
  destruct (chain_GetMinorBlock (mh_hash (mb_header old))) as [rem|] eqn:Hrem; [|done].
  destruct (chain_GetMinorBlock (mh_hash (mb_header new))) as [add|] eqn:Hadd; [|done]. cbn [mbind option_bind].
  destruct (walk_down _ _ rem []) as [[rem' discarded]|] eqn:Hw1; [|done]. cbn [mbind option_bind].
  destruct (walk_down _ _ add []) as [[add' included]|] eqn:Hw2; [|done]. cbn [mbind option_bind].
  destruct (walk_both _ _ _ _ _) as [[d i]|] eqn:Hw3; [|done]. cbn. intros [= <-].
  destruct (walk_down_nonces _ _ _ _ _ _ Hw1) as [H1 H2]; [by eapply cl_blocks|constructor|].
  apply Forall_filter. by eapply walk_both_nonces.
Qed.

Lemma reset_ok oldHead newHead o p :
  oracle_ok o → good p → twp (reset Hash recover config o oldHead newHead) (fun _ p' => good p') no_err p.
Proof.
  intros Ho Hg. unfold reset. destruct (reinjected Hash oldHead newHead) as [ts|] eqn:Hre; [|done].
  destruct (stateAt (default chain_CurrentBlock newHead)) as [s|e|e] eqn:Hst; [|done|by destruct (cl_stateAt Hash _ _ Hst)].
  apply twp_bind. change (twp (se_mod ?f) ?Q ?E ?q) with (Q tt (f q)). cbv beta. apply twp_bind.
  eapply twp_conseq; [apply addTxsLocked_ok; [apply _|apply Ho|by eapply reinjected_nonces|]| |done].
  - destruct Hg as ([H1 H2 _ _] & H3 & H4). split_and!; [by constructor; cbn|done|done].
  - by intros r p' [Hg' _].
Qed.

(** ** A run of the scheduler *)

(** The events are maps of transactions by nonce. *)
Definition events_ok (ev : event_map) : Prop := map_Forall (fun _ m => ∃ L, rep m L) ev.
Lemma put_event_ok ev tx : events_ok ev → wf_tx tx → events_ok (put_event recover ev tx).
Proof.
  intros Hev Htx. unfold put_event. apply map_Forall_insert_2; [|done].
  destruct (ev !! sender tx) as [m|] eqn:Hm; cbn [default].
  - destruct (Hev _ m Hm) as [L HL]. eexists. by apply rep_Put.
  - eexists. apply rep_Put; [apply rep_new|done].
Qed.
Lemma forward_events_ok addrs ev p :
  good p → events_ok ev → NoDup addrs → (∀ a, a ∈ addrs → is_Some (ev !! a)) →
  twp (forward_events addrs ev)
    (fun ev' p' => good p' ∧ shrinks p p' ∧ pending p' = pending p ∧ queue p' = queue p ∧ events_ok ev') no_err p.
Proof.
  intros Hg Hev Hnd Hin. revert ev p Hg Hev Hin. induction addrs as [|a addrs IH]; intros ev p Hg Hev Hin; cbn [forward_events].
  { by split_and!. }
  apply NoDup_cons in Hnd as [Hna Hnd]. destruct (Hin a ltac:(by left)) as [m Hm]. destruct (Hev a m Hm) as [L HL].
  rewrite Hm. apply twp_bind. change (twp (deref (Some m)) ?Q ?E ?q) with (Q m q). cbv beta.
  destruct Hg as (Hi & HP & HQ). destruct (on_noncer_ok (fun f m => noncer_get f a m) p (inv_nonces _ _ _ _ _ Hi)) as (n & k & Hk).
  apply twp_bind. eapply twp_ok; [exact Hk|]. cbv beta. destruct (rep_Forward n m L HL) as (m' & -> & Hm').
  cbv beta iota. apply twp_bind. change (twp (se_lift (Ok ?x)) ?Q ?E ?q) with (Q x q). cbv beta.
  eapply twp_conseq; [apply (IH Hnd)| |done].
  - split_and!; [by apply inv_set_nonces|done|done].
  - case_bool_decide; [by apply map_Forall_delete|]. apply map_Forall_insert_2; [by eexists|done].
  - intros b Hb. assert (b ≠ a) by (by intros ->). specialize (Hin b ltac:(by right)).
    destruct (bool_decide _); [by rewrite lookup_delete_ne|by rewrite lookup_insert_ne].
  - intros ev' p' (H1 & H2 & H3 & H4 & H5). split_and!; [done| |done|done|done]. etrans; [|exact H2]. done.
Qed.

(** The virtual nonce of an account is past its last pending transaction. *)
Definition nonce_known (p : TxPool St) (a : Z) : Prop :=
  ∃ l L t n, pending p !! a = Some l ∧ list_rep l L ∧ last L = Some t ∧ pendingNonces p = Some n
    ∧ nonces n !! a = Some (u64 (nonce t + 1)).
Lemma update_nonce_ok a o p :
  oracle_ok o → good p → is_Some (pending p !! a) →
  twp (update_nonce o a)
    (fun _ p' => good p' ∧ shrinks p p' ∧ queue p' = queue p ∧ txs_of (pending p') ≡ₚ txs_of (pending p)
       ∧ (∀ b, held_by p' b = held_by p b) ∧ nonce_known p' a ∧ (∀ b, b ≠ a → nonce_known p b → nonce_known p' b)) no_err p.
Proof.
  intros Ho Hg [l Ha]. pose proof Hg as (Hi & HP & HQ). destruct (inv_list_p Hash recover _ _ _ _ _ Hi Ha) as [L HL].
  destruct (take_Flatten (range_txs o) l L (ok_txs o Ho) HL) as (l' & HF & HL' & Hst).
  destruct (on_pending_take Hash recover a (fun l => let '(c, l) := list_Flatten (range_txs o) l in (Ok c, l)) L l l' L L [] [] [] p)
    as (Heq & Hi' & Hperm); [done|done|by rewrite HF|done|done|done|done|].
  assert (list_Len l ≠ 0%nat) as Hlen by (eapply HP; [done|set_solver]).
  assert (list_Len l' = list_Len l) as Hlen' by (by rewrite (txs_in_len l' L HL'), (txs_in_len l L HL)).
  unfold update_nonce. apply twp_bind. eapply twp_ok; [exact Heq|]. cbv beta. rewrite (txs_in_len l L HL) in Hlen.
  destruct (last L) as [t|] eqn:Hlast; [|apply last_None in Hlast; by subst L].
  unfold nonces_set, on_noncer. get_state. destruct (inv_nonces _ _ _ _ _ Hi) as [n Hn]. cbn [pendingNonces set_pending]. rewrite Hn.
  apply twp_bind. change (twp (deref (Some n)) ?Q ?E ?q) with (Q n q). cbv beta iota. apply twp_bind.
  change (twp (se_mod ?f) ?Q ?E ?q) with (Q tt (f q)). cbv beta.
  split_and!; [split_and!; [by apply inv_set_nonces| |done]|split; [done|]|done|by cbn in *| | |].
  - cbn. eapply full_mono; [apply full_insert; [done|by rewrite Hlen', (txs_in_len l L HL)]|set_solver].
  - cbn in *. by rewrite Hperm.
  - intros b. unfold held_by. cbn. destruct (decide (b = a)) as [->|Hne]; [|by rewrite lookup_insert_ne].
    rewrite lookup_insert_eq, Ha. cbn. by rewrite Hlen'.
  - eexists l', L, t, _. split_and!; [apply lookup_insert_eq|done|done|reflexivity|]. cbn. apply lookup_insert_eq.
  - intros b Hne (lb & Lb & tb & nb & H1 & H2 & H3 & H4 & H5). rewrite Hn in H4. injection H4 as <-.
    eexists lb, Lb, tb, _. cbn. split_and!; [by rewrite lookup_insert_ne|done|done|reflexivity|].
    cbn. unfold noncer_set. by rewrite lookup_insert_ne.
Qed.
Lemma update_nonces_ok o p :
  oracle_ok o → good p →
  twp (for_each (range_lists o (pending p)).*1 (update_nonce o))
    (fun _ p' => good p' ∧ shrinks p p' ∧ queue p' = queue p ∧ pending_count p' = pending_count p
       ∧ (∀ b, held_by p' b = held_by p b) ∧ ∀ a, is_Some (pending p' !! a) → nonce_known p' a) no_err p.
Proof.
  intros Ho Hg.
  eapply twp_conseq; [apply (twp_for_each _ _ (fun xs p' => good p' ∧ shrinks p p' ∧ queue p' = queue p
    ∧ pending_count p' = pending_count p ∧ (∀ b, held_by p' b = held_by p b) ∧ (∀ a, a ∈ xs → is_Some (pending p' !! a))
    ∧ ∀ a, is_Some (pending p' !! a) → a ∈ xs ∨ nonce_known p' a))| |done].
  - split_and!; [done|reflexivity|done|done|done| |]; intros a; rewrite (ok_lists o Ho).
    + intros ([b l] & -> & Hin%elem_of_map_to_list)%list_elem_of_fmap. by eexists.
    + intros [l Hl]. left. apply list_elem_of_fmap. exists (a, l). by rewrite elem_of_map_to_list.
  - intros a xs p' (Hg' & Hs & HQ & Hc & Hh & Hin & Hk).
    eapply twp_conseq; [apply update_nonce_ok; [done|done|apply Hin; by left]| |done].
    intros _ p2 (Hg2 & Hs2 & HQ2 & HP2 & Hh2 & Hk2 & Hoth2).
    assert (∀ b, is_Some (pending p2 !! b) ↔ is_Some (pending p' !! b)) as Hdom.
    { intros b. specialize (Hh2 b). unfold held_by in Hh2. destruct (pending p2 !! b), (pending p' !! b); cbn in Hh2; try done. }
    split_and!; [done|by etrans|congruence| | | |].
    + unfold pending_count in *. by rewrite HP2.
    + intros b. by rewrite Hh2.
    + intros b Hb. apply Hdom, Hin. by right.
    + intros b Hb. destruct (decide (b = a)) as [->|Hne]; [by right|]. destruct (Hk b (proj1 (Hdom b) Hb)) as [[->|?]%elem_of_cons|?]; [done|by left|].
      right. by apply Hoth2.
  - intros _ p' (H1 & H2 & H3 & H4 & H5 & _ & H6). split_and!; [done|done|done|done|done|]. intros a Ha.
    destruct (H6 a Ha) as [Hn|]; [by apply not_elem_of_nil in Hn|done].
Qed.

(** Within the limits of the pool, but for local accounts and guaranteed slots. *)
Definition within_limits (p : TxPool St) : Prop :=
  (pending_count p <= GlobalSlots config ∨ slots_kept p)
  ∧ (queue_count p <= GlobalQueue config ∨ ∀ a, ¬ remote_queued p a).

Lemma runReorg_ok req dirty ev o p :
  config_ok → oracle_ok o → good p → events_ok ev →
  twp (runReorg Hash recover config o req dirty ev)
    (fun _ p' => good p' ∧ within_limits p' ∧ ∀ a, is_Some (pending p' !! a) → nonce_known p' a) no_err p.
Proof.
  intros Hc Ho Hg Hev. unfold runReorg. cbv zeta. apply twp_bind.
  eapply (twp_conseq _ (fun ra p1 => good p1 ∧ events_ok ra.2) _ no_err); [| |done].
  { destruct req as [[oldHead newHead]|]; [|by split]. apply twp_bind.
    eapply twp_conseq; [by apply reset_ok| |done]. intros u1 p1 Hg1. apply twp_bind.
    eapply twp_conseq; [apply forward_events_ok; [done|done| |]| |done].
    - rewrite (ok_events o Ho). apply NoDup_fst_map_to_list.
    - intros a. rewrite (ok_events o Ho). intros ([b m] & -> & Hin%elem_of_map_to_list)%list_elem_of_fmap. by eexists.
    - intros ev' p2 (Hg2 & _ & _ & _ & Hev'). get_state. by split. }
  intros [addrs ev1] p1 [Hg1 Hev1]. cbn [snd] in Hev1. apply twp_bind.
  eapply twp_conseq; [by apply promoteExecutables_ok| |done]. intros promoted p2 (Hg2 & _ & _). apply twp_bind.
  eapply (twp_conseq _ (fun _ p3 => good p3) _ no_err); [| |done].
  { destruct (bool_decide (req = None)); [done|]. eapply twp_conseq; [by apply demoteUnexecutables_ok| |done]. by intros _ p3 [? _]. }
  intros u3 p3 Hg3. apply twp_bind. eapply twp_conseq; [by apply truncatePending_ok| |done].
  intros _ p4 (Hg4 & _ & _ & Hpend). apply twp_bind. eapply twp_conseq; [by apply truncateQueue_ok| |done].
  intros _ p5 (Hg5 & [He5 _] & HP5 & Hqueue). get_state. apply twp_bind.
  eapply twp_conseq; [by apply update_nonces_ok| |done].
  intros _ p6 (Hg6 & [He6 _] & HQ6 & Hc6 & Hh6 & Hk6). split_and!; [done| |done].
  assert (locals p6 = locals p5 ∧ locals p5 = locals p4) as [Hl6 Hl5] by (unfold env in *; by simplify_eq).
  split.
  - destruct Hpend as [Hle|Hslots]; [left|right].
    + rewrite Hc6. unfold pending_count in *. by rewrite HP5.
    + intros a n Hn Hloc. apply (Hslots a n); [|congruence]. rewrite Hh6 in Hn. unfold held_by in *. by rewrite HP5 in Hn.
  - unfold queue_count, remote_queued in *. by rewrite HQ6, Hl6.
Qed.

(** ** Adding a batch *)

Definition nones (errs : list (option string)) : nat := length (filter (fun e => e = None) errs).
Lemma next_slot errs fuel slot :
  (0 < nones (drop slot errs))%nat → (length errs ≤ fuel + slot)%nat →
  ∃ k, (fix next (fuel slot : nat) : result nat :=
    match errs !! slot with
    | None => Panic "index out of range"
    | Some None => Ok slot
    | Some (Some _) => match fuel with O => no_fuel | S fuel => next fuel (S slot) end
    end) fuel slot = Ok k ∧ errs !! k = Some None ∧ nones (drop k errs) = nones (drop slot errs).
Proof.
  revert slot. induction fuel as [|fuel IH]; intros slot Hn Hf.
  - rewrite drop_ge in Hn by lia. cbn in Hn. lia.
  - destruct (errs !! slot) as [e|] eqn:He; [|rewrite drop_ge in Hn by (by apply lookup_ge_None); cbn in Hn; lia].
    rewrite (drop_S errs e slot He) in Hn. destruct e as [e|].
    + destruct (IH (S slot)) as (k & H1 & H2 & H3); [exact Hn|lia|]. exists k. split_and!; [done|done|].
      by rewrite H3, (drop_S errs (Some e) slot He).
    + by exists slot.
Qed.
Lemma fill_slots_ok newErrs slot errs :
  (length newErrs ≤ nones (drop slot errs))%nat →
  ∃ errs', fill_slots newErrs slot errs = Ok errs' ∧ length errs' = length errs.
Proof.
  revert slot errs. induction newErrs as [|err newErrs IH]; intros slot errs Hn; cbn [fill_slots]; [by exists errs|].
  cbn in Hn. destruct (next_slot errs (length errs) slot) as (k & -> & Hk & Hnk); [lia|lia|]. cbn [mbind result_bind].
  destruct (IH k (<[k := err]> errs)) as (errs' & H1 & H2).
  - rewrite (drop_S (<[k := err]> errs) err k) by (apply list_lookup_insert_eq; by eapply lookup_lt_Some).
    rewrite drop_insert_lt by lia. rewrite <- Hnk, (drop_S errs None k Hk) in Hn. unfold nones in *.
    rewrite filter_cons_True in Hn by done. cbn [length] in Hn. rewrite filter_cons. destruct (decide (err = None)); cbn [length]; lia.
  - exists errs'. split; [done|]. by rewrite H2, length_insert.
Qed.
Lemma addTxs_ok txs loc o p :
  oracle_ok o → nonces_ok txs → good p →
  twp (addTxs Hash recover config o txs loc) (fun r p' => good p' ∧ length r.1 = length txs) no_err p.
Proof.
  intros Ho Hnonce Hg. unfold addTxs. get_state. cbv zeta.
  match goal with |- twp (if bool_decide ?c then _ else _) _ _ _ => destruct (bool_decide c) end.
  { split; [done|]. apply length_fmap. }
  set (errs := _ <$> txs). apply twp_bind.
  eapply twp_conseq; [apply addTxsLocked_ok; [apply _|apply Ho|by apply Forall_filter|done]| |done].
  intros [newErrs dirty] p1 [Hg1 Hlen]. cbn [fst length] in Hlen.
  destruct (fill_slots_ok newErrs 0 errs) as (errs' & Heq & Hlen').
  { rewrite drop_0, Hlen. unfold nones, errs. clear. induction txs as [|t txs IH]; [done|].
    rewrite fmap_cons, !filter_cons. destruct (bool_decide (is_Some (all p !! Hash t))) eqn:Hk; repeat case_decide; cbn; try done; cbn in IH; lia. }
  apply twp_bind. rewrite Heq. change (twp (se_lift (Ok ?x)) ?Q ?E ?q) with (Q x q). cbv beta.
  split; [done|]. cbn. rewrite Hlen'. apply length_fmap.
Qed.

Lemma NewTxPool_ok s o :
  stateAt chain_CurrentBlock = Ok s → ∃ p, NewTxPool Hash recover config o = (Ok tt, p) ∧ good p ∧ contents p = [].
Proof.
  intros Hst. unfold NewTxPool, reset. cbn. rewrite Hst. eexists. split; [reflexivity|]. split; [|done].
  assert (∀ m : gmap Z txList, m = ∅ → full ∅ m) as Hfull by (intros m -> a l Ha; by rewrite lookup_empty in Ha).
  split_and!; [|by apply Hfull|by apply Hfull]. constructor; cbn; [|split|by eexists|by eexists].
  - constructor; cbn; [by apply map_Forall_empty|by apply map_Forall_empty|constructor|constructor|]. done.
  - intros i j _ _ Hj. cbn in Hj. lia.
  - intros h t Ht. by rewrite lookup_empty in Ht.
Qed.

(** ** The pool *)

(** What the rest of the node calls, each with its own choices and time. *)
Inductive PoolOp :=
  | OpAddTxs (txs : Transactions) (local : bool)
  | OpRunReorg (req : option (option MinorBlock * option MinorBlock)) (dirty : option accountSet) (ev : event_map)
  | OpSetGasPrice (price : Z)
  | OpEvict.
Definition run_pool_op (o : Oracle) (op : PoolOp) : PM unit :=
  match op with
  | OpAddTxs txs local => _ ← addTxs Hash recover config o txs local; mret tt
  | OpRunReorg req dirty ev => _ ← runReorg Hash recover config o req dirty ev; mret tt
  | OpSetGasPrice price => SetGasPrice Hash recover config o price
  | OpEvict => evict Hash recover config o
  end.
Fixpoint run_pool_ops (ops : list (Oracle * PoolOp)) : PM unit :=
  match ops with
  | [] => mret tt
  | (o, op) :: ops => _ ← run_pool_op o op; run_pool_ops ops
  end.
Definition pool_op_ok (x : Oracle * PoolOp) : Prop :=
  oracle_ok x.1 ∧ match x.2 with
                  | OpAddTxs txs _ => nonces_ok txs
                  | OpRunReorg _ _ ev => events_ok ev
                  | _ => True
                  end.

(** The parts of the pool agree. *)
Record consistent (p : TxPool St) : Prop := {
  con_all : ∀ h t, all p !! h = Some t ↔ Hash t = h ∧ t ∈ contents p;
  con_count : base.size (all p) = length (contents p);
  con_places : NoDup (place <$> contents p);
  con_lists : ∀ a l, pending p !! a = Some l ∨ queue p !! a = Some l →
    list_Len l ≠ 0%nat ∧ ∃ L, list_rep l L ∧ Forall (fun t => recover (EvmTx t) = Some a) L;
  con_priced : ∀ t, t ∈ contents p → t ∈ p_items (priced p);
}.
Lemma good_consistent (p : TxPool St) : good p → consistent p.
Proof.
  intros ([Hl [_ Hc] _ _] & HP & HQ). constructor.
  - intros h t. split.
    + intros Ht. by destruct (lists_known _ _ _ _ _ _ _ _ Hl Ht).
    + intros [<- Ht]. by apply (lists_lookup Hash recover [] (pending p) (queue p)).
  - rewrite <- length_map_to_list, (lo_all _ _ _ _ _ _ Hl). apply length_fmap.
  - apply (lo_places _ _ _ _ _ _ Hl).
  - intros a l [Ha|Ha].
    + split; [eapply HP; [done|set_solver]|]. by destruct (lo_P _ _ _ _ _ _ Hl a l Ha) as (_ & L & HL & Hall); exists L.
    + split; [eapply HQ; [done|set_solver]|]. by destruct (lo_Q _ _ _ _ _ _ Hl a l Ha) as (_ & L & HL & Hall); exists L.
  - intros t Ht. pose proof (lists_lookup Hash recover [] (pending p) (queue p) (all p) t Hl Ht) as Hk.
    destruct (Hc _ t Hk) as [|Hn]; [done|]. by apply not_elem_of_nil in Hn.
Qed.
Lemma run_pool_op_ok o op p :
  config_ok → pool_op_ok (o, op) → good p → twp (run_pool_op o op) (fun _ p' => good p') no_err p.
Proof.
  intros Hc [Ho Hop] Hg. cbn in Ho, Hop. destruct op as [txs loc|req dirty ev|price|]; cbn [run_pool_op].
  - apply twp_bind. eapply twp_conseq; [by apply addTxs_ok| |done]. by intros r p' [? _].
  - apply twp_bind. eapply twp_conseq; [by apply runReorg_ok| |done]. by intros r p' [? _].
  - eapply twp_conseq; [by apply SetGasPrice_ok| |done]. by intros r p' [? _].
  - eapply twp_conseq; [by apply evict_ok| |done]. by intros r p' [? _].
Qed.
Lemma run_pool_ops_ok ops p :
  config_ok → Forall pool_op_ok ops → good p → twp (run_pool_ops ops) (fun _ p' => good p') no_err p.
Proof.
  intros Hc. revert p. induction ops as [|[o op] ops IH]; intros p Hall Hg; [done|]. cbn [run_pool_ops].
  apply Forall_cons in Hall as [Hop Hall]. apply twp_bind. eapply twp_conseq; [by apply run_pool_op_ok| |done].
  intros u' p' Hg'. by apply IH.
Qed.

(** C13: the transaction pool is consistent whatever is done with it.  From a new
    pool, through every sequence of batches of transactions, runs of the
    scheduler (with or without a new head), changes of the price threshold and
    ticks of the eviction, in every order Go may iterate its maps, no operation
    panics; the lookup knows exactly the pending and the queued transactions, by
    their hashes; no two of them have the same account and nonce, pending and
    queued lists taken together; no list is empty, its map, index and cache
    agree, and it holds transactions of its own account; and the price heap
    holds every transaction of the pool. *)
Theorem pool_consistent s o ops :
  config_ok → oracle_ok o → Forall pool_op_ok ops → stateAt chain_CurrentBlock = Ok s →
  ∃ p0 p, NewTxPool Hash recover config o = (Ok tt, p0) ∧ run_pool_ops ops p0 = (Ok tt, p) ∧ consistent p.
Proof.
  intros Hc Ho Hops Hs. destruct (NewTxPool_ok s o Hs) as (p0 & Hnew & Hg & _).
  pose proof (run_pool_ops_ok ops p0 Hc Hops Hg) as Hrun. unfold twp in Hrun.
  destruct (run_pool_ops ops p0) as [[[]|e|e] p] eqn:Heq; [|done|done].
  exists p0, p. split_and!; [done|done|by apply good_consistent].
Qed.

(** C14: after a run of the scheduler the pool is within its limits.  At most
    GlobalSlots transactions are pending, or every remote account is down to its
    guaranteed AccountSlots; at most GlobalQueue are queued, or only local
    accounts have queued transactions; and the virtual nonce of every account
    with pending transactions is one past the last of them. *)
Theorem runReorg_limits req dirty ev o p :
  config_ok → oracle_ok o → good p → events_ok ev →
  ∃ sent p', runReorg Hash recover config o req dirty ev p = (Ok sent, p')
    ∧ within_limits p' ∧ (∀ a, is_Some (pending p' !! a) → nonce_known p' a) ∧ good p'.
Proof.
  intros Hc Ho Hg Hev. pose proof (runReorg_ok req dirty ev o p Hc Ho Hg Hev) as H. unfold twp in H.
  destruct (runReorg Hash recover config o req dirty ev p) as [[sent|e|e] p']; [|done|done].
  exists sent, p'. by destruct H as (? & ? & ?).
Qed.

(** C15: what adding a transaction does.  An accepted transaction is found by its
    hash; the pool gained it and lost at most the transaction of the same account
    and nonce, which it outbid by the price bump, and, if the pool was full,
    transactions that made room; [add] reports a replacement exactly when there
    was one.  A rejected transaction changes nothing in a pool that is not full.
    There is no panic. *)
Theorem add_correct tx loc o p :
  oracle_ok o → in_u64 (nonce tx) → good p →
  match add Hash recover config o tx loc p with
  | (Ok replaced, p') => added Hash recover config tx p replaced p' ∧ good p'
  | (Err _, p') => rejected config p p' ∧ good p'
  | (Panic _, _) => False
  end.
Proof.
  intros Ho Hn Hg. pose proof (add_ok Hash recover config tx loc o p (ok_txs o Ho) Hn Hg) as H. unfold twp in H.
  destruct (add Hash recover config o tx loc p) as [[b|e|e] p']; [by destruct H|by destruct H|done].
Qed.
End reorg.
End pool.
