(* ===== verification/TxPoolSched.v ===== *)
(** * core: the scheduler of the transaction pool, correctness

    The loop of TxPool.v merges the requests it receives into runs: each run is
    given exactly what was asked for since the previous one was launched, and
    every request is answered with the channel of the run that serves it. *)

From S2P Require Import Prelude Transaction Blocks TxList TxPool.

Section scheduler.
Context (recover : EvmTransaction → option Z).
Abbreviation sched_loop := (sched_loop recover).

(** The requests of a kind, in order. *)
Definition resets (ms : list SchedMsg) : list (option MinorBlock * option MinorBlock) :=
  omap (fun m => match m with ReqReset o n => Some (o, n) | _ => None end) ms.
Definition event_txs (ms : list SchedMsg) : Transactions :=
  omap (fun m => match m with QueueTxEvent tx => Some tx | _ => None end) ms.
Definition is_request (m : SchedMsg) : bool :=
  match m with ReqReset _ _ | ReqPromote _ => true | _ => false end.

(** From the old head of the first reset to the new head of the last one; the
    accounts of all sets; the latest event of each account and nonce. *)
Definition merged_reset (ms : list SchedMsg) : option (option MinorBlock * option MinorBlock) :=
  first ← head (resets ms); lst ← last (resets ms); Some (first.1, lst.2).
Definition dirty_in (d : option accountSet) (a : Z) : Prop := ∃ s, d = Some s ∧ a ∈ accounts s.
Definition asked_for (ms : list SchedMsg) (a : Z) : Prop := ∃ s, ReqPromote s ∈ ms ∧ a ∈ accounts s.
Definition merged_events (ms : list SchedMsg) : gmap Z txSortedMap := foldl (put_event recover) ∅ (event_txs ms).

(** What a run was given is what the messages asked for. *)
Record run_of (ms : list SchedMsg) (r : Run) : Prop := {
  ro_request : Exists is_request ms;
  ro_reset : run_reset r = merged_reset ms;
  ro_dirty a : dirty_in (run_dirty r) a ↔ asked_for ms a;
  ro_events : run_events r = merged_events ms;
}.

(** The variables of the loop hold what was received since the last launch. *)
Record holds (ms : list SchedMsg) (s : Scheduler) : Prop := {
  ho_launch : launchNextRun s = true ↔ Exists is_request ms;
  ho_reset : sc_reset s = merged_reset ms;
  ho_dirty a : dirty_in (dirtyAccounts s) a ↔ asked_for ms a;
  ho_events : queuedEvents s = merged_events ms;
}.

Lemma resets_snoc ms m : resets (ms ++ [m]) = resets ms ++ resets [m].
Proof. unfold resets. by rewrite omap_app. Qed.
Lemma events_snoc ms m : merged_events (ms ++ [m]) = foldl (put_event recover) (merged_events ms) (event_txs [m]).
Proof. unfold merged_events, event_txs. by rewrite omap_app, foldl_app. Qed.
Lemma merged_reset_snoc ms m :
  merged_reset (ms ++ [m]) = match m with
    | ReqReset o n => Some (match merged_reset ms with Some (o', _) => (o', n) | None => (o, n) end)
    | _ => merged_reset ms
    end.
Proof.
  unfold merged_reset. rewrite resets_snoc. destruct m as [o n|set|tx|]; cbn; rewrite ?app_nil_r; try done.
  rewrite last_snoc. destruct (resets ms) as [|[o1 n1] rs] eqn:E; [done|]. cbn [head app mbind option_bind].
  destruct (last ((o1, n1) :: rs)) as [[o2 n2]|] eqn:El; [done|]. by apply last_None in El.
Qed.
Lemma asked_for_snoc ms m a : asked_for (ms ++ [m]) a ↔ asked_for ms a ∨ asked_for [m] a.
Proof.
  unfold asked_for. setoid_rewrite elem_of_app. split; [intros (s & [H|H] & Ha); eauto|].
  intros [(s & H & Ha)|(s & H & Ha)]; eauto.
Qed.
Lemma asked_for_one m a : asked_for [m] a ↔ ∃ s, m = ReqPromote s ∧ a ∈ accounts s.
Proof. unfold asked_for. setoid_rewrite list_elem_of_singleton. split; intros (s & H & Ha); eauto. Qed.

(** Receiving keeps the books. *)
Lemma receive_holds m ms s reply s' :
  holds ms s → receive recover m s = Some (reply, s') →
  holds (ms ++ [m]) s' ∧ nextDone s' = nextDone s ∧ (is_request m = true → reply = Some (nextDone s)).
Proof.
  intros [H1 H2 H3 H4] Hr. split; [|destruct m; cbn in Hr; [by simplify_eq..|destruct (curDone s); by simplify_eq]].
  constructor.
  - rewrite Exists_app, Exists_cons, Exists_nil, <- H1.
    destruct m; cbn in Hr; [| | |destruct (curDone s); [|done]]; injection Hr as <- <-; cbn; tauto.
  - rewrite merged_reset_snoc, <- H2. destruct m; cbn in Hr; [| | |destruct (curDone s); [|done]]; injection Hr as <- <-; done.
  - intros a. rewrite asked_for_snoc, asked_for_one, <- H3.
    destruct m as [o n|set|tx|]; cbn in Hr; [| | |destruct (curDone s); [|done]]; injection Hr as <- <-; cbn [dirtyAccounts].
    1,3,4: (split; [by left|]; by intros [?|(? & ? & _)]).
    unfold dirty_in. destruct (dirtyAccounts s) as [d|]; cbn; split.
    + intros (x & [= <-] & Hx). cbn in Hx. apply elem_of_union in Hx as [Hx|Hx]; [right; by exists set|left; by exists d].
    + intros [(x & [= <-] & Hx)|(x & [= <-] & Hx)]; (eexists; split; [done|]); cbn; set_solver.
    + intros (x & [= <-] & Hx). right. by exists set.
    + intros [(x & ? & _)|(x & [= <-] & Hx)]; [done|]. by exists set.
  - rewrite events_snoc, <- H4. destruct m; cbn in Hr; [| | |destruct (curDone s); [|done]]; injection Hr as <- <-; done.
Qed.

(** A turn of a loop that has received [before ++ ms], [ms] since the launch. *)
Lemma holds_new : holds [] newScheduler.
Proof.
  constructor; [|done| |done].
  - split; [done|]. intros H. inversion H.
  - intros a. unfold dirty_in, asked_for. split; [by intros (s & ? & _)|]. intros (s & H & _). by apply not_elem_of_nil in H.
Qed.
Lemma launch_holds ms s run s' :
  holds ms s → launch s = (run, s') →
  match run with
  | None => s' = s ∧ (curDone s = None → launchNextRun s = false)
  | Some r => curDone s = None ∧ run_of ms r ∧ run_done r = nextDone s ∧ holds [] s' ∧ nextDone s' = S (nextDone s)
  end.
Proof.
  intros [H1 H2 H3 H4] Hl. unfold launch in Hl.
  destruct (curDone s) as [c|] eqn:Hc; [injection Hl as <- <-; done|].
  destruct (launchNextRun s) eqn:Hn; injection Hl as <- <-; [|done].
  split_and!; [done| |done| |done].
  - constructor; [by apply H1|done|done|done].
  - pose proof holds_new as [G1 G2 G3 G4]. by constructor.
Qed.

(** The turn of the last launch before turn [j], or the first turn. *)
Fixpoint last_launch (outs : list (option Run * option nat)) (j : nat) : nat :=
  match j with
  | O => O
  | S j => match outs !! j with Some (Some _, _) => j | _ => last_launch outs j end
  end.
Definition launched (outs : list (option Run * option nat)) : list Run := omap fst outs.
Definition running (s : Scheduler) : nat := match curDone s with Some _ => 1 | None => 0 end.
Definition is_done (m : SchedMsg) : bool := match m with RunDone => true | _ => false end.

Lemma last_launch_le outs j : last_launch outs j ≤ j.
Proof.
  induction j as [|j IH]; cbn; [done|]. destruct (outs !! j) as [[[r|] d]|]; lia.
Qed.
Lemma last_launch_app outs outs' j : j ≤ length outs → last_launch (outs ++ outs') j = last_launch outs j.
Proof.
  induction j as [|j IH]; intros Hj; cbn; [done|]. rewrite lookup_app_l by lia. rewrite IH by lia. done.
Qed.

(** What is known of the loop after [ms]: the requests since the last launch are
    in its variables, each answered with the next channel. *)
Record served (ms : list SchedMsg) (outs : list (option Run * option nat)) (s : Scheduler) : Prop := {
  sv_length : length outs = length ms;
  sv_holds : holds (drop (last_launch outs (length ms)) ms) s;
  sv_answers k m x : last_launch outs (length ms) ≤ k → ms !! k = Some m → is_request m = true →
    outs !! k = Some x → x.2 = Some (nextDone s);
  sv_fresh r : r ∈ launched outs → run_done r < nextDone s;
  sv_active : length (launched outs) = length (filter (fun m => is_done m = true) ms) + running s;
}.
(** A run launched at turn [j]. *)
Record serves (ms : list SchedMsg) (outs : list (option Run * option nat)) (j : nat) (r : Run) : Prop := {
  se_given : run_of (take (j - last_launch outs j) (drop (last_launch outs j) ms)) r;
  se_answers k m x : last_launch outs j ≤ k < j → ms !! k = Some m → is_request m = true →
    outs !! k = Some x → x.2 = Some (run_done r);
  se_fresh k r' d' : k < j → outs !! k = Some (Some r', d') → run_done r' < run_done r;
}.

Lemma served_new : served [] [] newScheduler.
Proof. constructor; try done; [apply holds_new|intros r Hr; by apply not_elem_of_nil in Hr]. Qed.

(** Receiving neither starts nor ends a run, except for the end of one. *)
Lemma receive_active m s reply s' : receive recover m s = Some (reply, s') →
  running s = (if is_done m then 1 else 0) + running s'.
Proof. unfold running. destruct m; cbn; [intros [= _ <-]; by cbn..|]. destruct (curDone s); [|done]. by intros [= _ <-]. Qed.

Lemma launched_snoc outs x : launched (outs ++ [x]) = launched outs ++ launched [x].
Proof. unfold launched. by rewrite omap_app. Qed.
Lemma elem_of_launched outs k r d : outs !! k = Some (Some r, d) → r ∈ launched outs.
Proof. intros H. apply list_elem_of_omap. exists (Some r, d). split; [by eapply list_elem_of_lookup_2|done]. Qed.

(** One more turn. *)
Lemma turn_served ms outs s m run s1 reply s2 :
  served ms outs s → launch s = (run, s1) → receive recover m s1 = Some (reply, s2) →
  served (ms ++ [m]) (outs ++ [(run, reply)]) s2 ∧ ∀ r, run = Some r → serves ms outs (length ms) r.
Proof.
  intros [Hlen Hh Hq Hfr Hac] Hla Hre. pose proof (launch_holds _ _ _ _ Hh Hla) as Hl.
  pose proof (receive_active _ _ _ _ Hre) as Hact.
  assert (∀ (x : option Run * option nat), (outs ++ [x]) !! length ms = Some x) as Hnew
    by (intros x; rewrite <- Hlen; by apply list_lookup_middle).
  assert (∀ k, k < length ms → (outs ++ [(run, reply)]) !! k = outs !! k) as Hold by (intros k Hk; apply lookup_app_l; lia).
  assert (∀ k, k < length ms → (ms ++ [m]) !! k = ms !! k) as Hms by (intros k Hk; apply lookup_app_l; lia).
  assert (last_launch (outs ++ [(run, reply)]) (length (ms ++ [m]))
    = if run is Some _ then length ms else last_launch outs (length ms)) as Hll.
  { rewrite length_app, Nat.add_1_r. cbn. rewrite Hnew, last_launch_app by lia. by destruct run. }
  destruct run as [r|].
  - destruct Hl as (Hcur & Hrun & Hdone & Hh1 & Hnext). destruct (receive_holds m [] s1 reply s2 Hh1 Hre) as (Hh2 & Hn2 & Hq2). split.
    + constructor; rewrite ?Hll.
      * rewrite !length_app. cbn. lia.
      * by rewrite drop_app_length.
      * intros k m' x Hk Hm' Hr Hx. assert (k = length ms) as ->.
        { apply lookup_lt_Some in Hm'. rewrite length_app in Hm'. cbn in Hm'. lia. }
        rewrite Hnew in Hx. injection Hx as <-. rewrite list_lookup_middle in Hm' by done. injection Hm' as <-.
        cbn. by rewrite (Hq2 Hr), Hn2.
      * intros r' Hr'. rewrite launched_snoc in Hr'. apply elem_of_app in Hr' as [Hr'|Hr']; [apply Hfr in Hr'; lia|].
        apply list_elem_of_singleton in Hr' as ->. lia.
      * rewrite launched_snoc, filter_app, !length_app, Hac. unfold running in *. rewrite Hcur. change (launched [(Some r, reply)]) with [r].
        assert (curDone s1 = Some (nextDone s)) as Hc1.
        { unfold launch in Hla. rewrite Hcur in Hla. destruct (launchNextRun s); [by injection Hla as _ <-|done]. }
        rewrite Hc1 in Hact. rewrite filter_cons, filter_nil. case_decide as Ed; destruct (is_done m); try done; cbn [length]; lia.
    + intros ? [= <-]. constructor.
      * rewrite take_ge; [done|]. rewrite length_drop. lia.
      * intros k m' x Hk. rewrite Hdone. apply Hq. lia.
      * intros k r' d' _ Hk. rewrite Hdone. by eapply Hfr, elem_of_launched.
  - destruct Hl as [-> Hidle]. destruct (receive_holds m _ s reply s2 Hh Hre) as (Hh2 & Hn2 & Hq2). split; [|done].
    pose proof (last_launch_le outs (length ms)) as Hle. constructor; rewrite ?Hll.
    + rewrite !length_app. cbn. lia.
    + by rewrite drop_app_le by lia.
    + intros k m' x Hk Hm' Hr Hx. rewrite Hn2. destruct (decide (k = length ms)) as [->|Hne].
      * rewrite Hnew in Hx. injection Hx as <-. rewrite list_lookup_middle in Hm' by done. injection Hm' as <-. by apply Hq2.
      * assert (k < length ms). { apply lookup_lt_Some in Hm'. rewrite length_app in Hm'. cbn in Hm'. lia. }
        rewrite Hold in Hx by done. rewrite Hms in Hm' by done. by apply (Hq k m' x).
    + intros r' Hr'. rewrite launched_snoc, app_nil_r in Hr'. rewrite Hn2. by apply Hfr.
    + rewrite launched_snoc, app_nil_r, filter_app, length_app, Hac, filter_cons, filter_nil. case_decide as Ed; destruct (is_done m); try done; cbn [length]; lia.
Qed.

Lemma serves_app ms outs m x j r : length outs = length ms → j ≤ length ms → serves ms outs j r → serves (ms ++ [m]) (outs ++ [x]) j r.
Proof.
  intros Hlen Hj [Hg Ha Hf]. constructor; rewrite ?last_launch_app by lia.
  - pose proof (last_launch_le outs j). rewrite drop_app_le by lia. rewrite take_app_le; [done|]. rewrite length_drop. lia.
  - intros k m' y Hk Hm' Hr Hy. rewrite lookup_app_l in Hm' by lia. rewrite lookup_app_l in Hy by lia. by apply (Ha k m' y).
  - intros k r' d' Hk Hy. rewrite lookup_app_l in Hy by lia. by apply (Hf k r' d').
Qed.

Lemma sched_loop_snoc ms m :
  sched_loop (ms ++ [m]) = '(outs, s) ← sched_loop ms; '(run, reply, s) ← sched_turn recover m s; Some (outs ++ [(run, reply)], s).
Proof. unfold TxPool.sched_loop. by rewrite foldl_app. Qed.

Lemma loop_served ms outs s :
  sched_loop ms = Some (outs, s) →
  served ms outs s ∧ ∀ j r d, outs !! j = Some (Some r, d) → serves ms outs j r.
Proof.
  revert outs s. induction ms as [|m ms IH] using rev_ind; intros outs s Hl.
  { injection Hl as <- <-. split; [apply served_new|by intros [|]]. }
  rewrite sched_loop_snoc in Hl. destruct (sched_loop ms) as [[outs0 s0]|]; [|done]. cbn in Hl.
  destruct (IH outs0 s0 eq_refl) as [Hsv Hruns]. unfold sched_turn in Hl. destruct (launch s0) as [run s1] eqn:Hla.
  destruct (receive recover m s1) as [[reply s2]|] eqn:Hre; [|done]. injection Hl as <- <-.
  destruct (turn_served _ _ _ _ _ _ _ _ Hsv Hla Hre) as [Hsv' Hnew]. split; [done|]. intros j r d Hj.
  pose proof (sv_length _ _ _ Hsv) as Hlen. apply lookup_app_Some in Hj as [Hj|[Hge Hj]].
  - apply serves_app; [done|apply lookup_lt_Some in Hj; lia|by eapply Hruns].
  - apply list_lookup_singleton_Some in Hj as [Hj [= -> ->]]. assert (j = length ms) as -> by lia.
    apply serves_app; [done|done|by apply Hnew].
Qed.

(** C16: the scheduler loses no request.  Whatever the loop receives, in any
    order, a run it launches is given exactly the requests received since the
    launch before it, or since the start: the reset from the first old head to the
    last new head, the accounts of all promotions and no others, and the queued
    events; there is at least one request among them, each was answered with the
    channel of this run, and the channels of the runs are all different, in order.
    Requests received since the last launch are answered with the next channel,
    and as soon as no run is active the next turn launches one that is given them.
    A run is active exactly when more runs were launched than ended, and the loop
    takes every message but the end of a run when none is active or asked for. *)
Theorem scheduler_serves ms outs s :
  sched_loop ms = Some (outs, s) →
  (∀ j r d, outs !! j = Some (Some r, d) →
     let i := last_launch outs j in
     run_of (take (j - i) (drop i ms)) r
     ∧ (∀ k m x, i ≤ k < j → ms !! k = Some m → is_request m = true → outs !! k = Some x → x.2 = Some (run_done r))
     ∧ (∀ k r' d', k < j → outs !! k = Some (Some r', d') → run_done r' < run_done r))
  ∧ (let i := last_launch outs (length ms) in
     (∀ k m x, i ≤ k → ms !! k = Some m → is_request m = true → outs !! k = Some x → x.2 = Some (nextDone s))
     ∧ (curDone s = None → Exists is_request (drop i ms) →
          ∃ r s', launch s = (Some r, s') ∧ run_of (drop i ms) r ∧ run_done r = nextDone s))
  ∧ length (launched outs) = length (filter (fun m => is_done m = true) ms) + running s
  ∧ (∀ m, sched_loop (ms ++ [m]) = None → m = RunDone ∧ curDone s = None ∧ ¬ Exists is_request (drop (last_launch outs (length ms)) ms)).
Proof.
  intros Hl. destruct (loop_served ms outs s Hl) as [[Hlen Hh Hq Hfr Hac] Hruns].
  assert (curDone s = None → Exists is_request (drop (last_launch outs (length ms)) ms) →
    ∃ r s', launch s = (Some r, s') ∧ run_of (drop (last_launch outs (length ms)) ms) r ∧ run_done r = nextDone s) as Hnext.
  { intros Hc Hr. destruct (launch s) as [run s'] eqn:Hla. pose proof (launch_holds _ _ _ _ Hh Hla) as Hla'. destruct run as [r|].
    - destruct Hla' as (_ & ? & ? & _). by exists r, s'.
    - destruct Hla' as [_ Hno]. apply (ho_launch _ _ Hh) in Hr. by rewrite (Hno Hc) in Hr. }
  split; [|split; [by split|split; [done|]]].
  - intros j r d Hj. by destruct (Hruns j r d Hj).
  - intros m Hm. rewrite sched_loop_snoc, Hl in Hm. cbn in Hm. unfold sched_turn in Hm. destruct (launch s) as [run s1] eqn:Hla.
    pose proof (launch_holds _ _ _ _ Hh Hla) as Hla'. destruct (receive recover m s1) as [[reply s2]|] eqn:Hre; [done|].
    destruct m; cbn in Hre; [done..|]. destruct (curDone s1) as [|] eqn:Hc1; [done|]. destruct run as [r|].
    + destruct Hla' as (Hc & _). unfold launch in Hla. rewrite Hc in Hla. destruct (launchNextRun s); [by injection Hla as _ <-|done].
    + destruct Hla' as [Hs1 Hno]. rewrite Hs1 in Hc1. split_and!; [done|done|]. intros Hr. destruct (Hnext Hc1 Hr) as (r & s' & Hla2 & _). congruence.
Qed.
End scheduler.
