(* ===== verification/TxPoolDemo.v ===== *)
(** * core: the transaction pool at work

    A small chain for the pool of TxPool.v: the theorems of TxPoolInv.v,
    TxPoolCorrect.v and TxPoolSched.v apply to it, and a few runs show what the
    pool does where its comments say something else. *)

From stdpp Require Import sorting.
From S2P Require Import Prelude Wp Account Heap Transaction Blocks BlockTree ChainInsert TxList TxListCorrect TxPool TxPoolInv TxPoolCorrect TxPoolSched.

Local Open Scope Z_scope.

(** ** A chain *)

Definition demo_tx (from nonce price : Z) : Transaction := Transaction.priced from nonce price.
Definition demo_Hash (t : Transaction) : Z :=
  (d_FromFullShardKey (data (EvmTx t)) * 1000 + AccountNonce (data (EvmTx t))) * 1000 + Price (data (EvmTx t)).
Definition demo_block (hash number parent : Z) (ts : Transactions) : MinorBlock :=
  mkMinorBlock (mkMinorHeader hash 0 (mkBranch 2) number (mkAddress [] 0) ∅ parent 0 100000 0 0 1 0 [] [] 0)
    (mkMeta 0 0 0 0 0 None 0) ts.
Definition genesis_block : MinorBlock := demo_block 1 0 0 [].
Definition block_a : MinorBlock := demo_block 2 1 1 [demo_tx 1 0 10].
Definition block_b : MinorBlock := demo_block 3 1 1 [].

(** The state is the nonces of the accounts; every account is rich. *)
#[export] Instance demo_chain : minorBlockChain (gmap Z Z) := {
  chain_CurrentBlock := genesis_block;
  chain_GetMinorBlock h :=
    if h =? 1 then Some genesis_block else if h =? 2 then Some block_a else if h =? 3 then Some block_b else None;
  stateAt b := Ok (if mh_hash (mb_header b) =? 2 then {[ 1 := 1 ]} else ∅);
  chain_validateTx tx := fun s =>
    if nonce tx <? default 0 (s !! d_FromFullShardKey (data (EvmTx tx))) then (Err "nonce too low", s)
    else (Ok (mkTx EvmTxType (EvmTx tx)), s);
  chain_ValidateTransaction _ := fun s => (Ok tt, s);
  chain_GasPrice _ price := fun s => (Ok price, s);
  state_GetNonce s a := default 0 (s !! a);
  state_GetBalanceMap _ _ := {[ 0 := 10 ^ 18 ]};
  tx_Size _ := 100;
  MinTXPoolGasPrice := 1;
  TransactionQueueSizeLimitPerShard := 1000;
}.
Lemma nonces_check ts : forallb (fun t => bool_decide (in_u64 (nonce t))) ts = true → Forall (fun t => in_u64 (nonce t)) ts.
Proof.
  intros Hts. apply Forall_forall. intros t Ht. rewrite forallb_forall in Hts. specialize (Hts t).
  rewrite <- list_elem_of_In in Hts. exact (bool_decide_eq_true_1 _ (Hts Ht)).
Qed.
#[export] Instance demo_chain_laws : ChainLaws (St := gmap Z Z) demo_Hash.
Proof.
  split.
  - intros tx s tx' s'. cbn. destruct (_ <? _); [done|]. by intros [= <- <-].
  - intros tx s e. cbn. by destruct (_ <? _).
  - done.
  - done.
  - done.
  - intros h b. cbn. repeat (destruct (_ =? _); [intros [= <-]; by apply nonces_check|]). done.
Qed.

(** Go's choices: the order of the map, and sorting. *)
Definition by_size (x y : Z * Z) : Prop := y.2 <= x.2.
#[export] Instance by_size_dec x y : Decision (by_size x y).
Proof. unfold by_size. apply _. Defined.
Definition by_beat (x y : Z * Z) : Prop := x.2 <= y.2.
#[export] Instance by_beat_dec x y : Decision (by_beat x y).
Proof. unfold by_beat. apply _. Defined.
Definition demo_oracle (time : Z) : Oracle :=
  mkOracle map_to_list map_to_list map_to_list map_to_list (fun xs => (merge_sort by_size xs).*1) (merge_sort by_beat) time.
#[export] Instance by_size_trans : Transitive by_size.
Proof. intros x y z. unfold by_size. lia. Qed.
#[export] Instance by_size_total : Total by_size.
Proof. intros x y. unfold by_size. lia. Qed.
#[export] Instance by_beat_trans : Transitive by_beat.
Proof. intros x y z. unfold by_beat. lia. Qed.
#[export] Instance by_beat_total : Total by_beat.
Proof. intros x y. unfold by_beat. lia. Qed.
Lemma demo_oracle_ok time : oracle_ok (demo_oracle time).
Proof.
  constructor; [intros m; reflexivity..| |]; intros xs; cbn.
  - exists (merge_sort by_size xs). split_and!; [done|apply merge_sort_Permutation|apply (StronglySorted_merge_sort by_size)].
  - split; [apply merge_sort_Permutation|apply (StronglySorted_merge_sort by_beat)].
Qed.

(** Three slots pending, three queued; one and two for an account. *)
Definition demo_config : TxPoolConfig := mkPoolConfig [] false 1 10 1 3 2 3 1000 3.
Lemma demo_config_ok : config_ok demo_config.
Proof. constructor; cbn; unfold in_u64; lia. Qed.

Abbreviation run := (run_pool_ops demo_Hash by_key demo_config).
Definition dirty (accs : list Z) : option accountSet := Some (mkAccounts (list_to_set accs) None).

(** A batch, a run, a replacement, a fork, an eviction. *)
Definition demo_ops : list (Oracle * PoolOp) :=
  [(demo_oracle 5, OpAddTxs [demo_tx 1 0 10; demo_tx 1 1 10; demo_tx 2 0 5; demo_tx 2 1 5; demo_tx 3 4 7] false);
   (demo_oracle 6, OpRunReorg None (dirty [1; 2; 3]) ∅);
   (demo_oracle 7, OpAddTxs [demo_tx 2 0 9; demo_tx 1 1 10] false);
   (demo_oracle 8, OpRunReorg (Some (Some genesis_block, Some block_a)) None ∅);
   (demo_oracle 9, OpRunReorg (Some (Some block_a, Some block_b)) None ∅);
   (demo_oracle 10, OpSetGasPrice 6);
   (demo_oracle 5000, OpEvict)].
Lemma demo_ops_ok : Forall pool_op_ok demo_ops.
Proof.
  repeat (apply Forall_cons; split; [split; [apply demo_oracle_ok|cbn; first [done|by apply nonces_check|by apply map_Forall_empty]]|]).
  constructor.
Qed.

Lemma pool_consistent_witness :
  ∃ p0 p, NewTxPool demo_Hash by_key demo_config (demo_oracle 0) = (Ok tt, p0) ∧ run demo_ops p0 = (Ok tt, p)
    ∧ consistent demo_Hash by_key p.
Proof.
  apply (pool_consistent demo_Hash by_key demo_config ∅ (demo_oracle 0) demo_ops);
    [apply demo_config_ok|apply demo_oracle_ok|apply demo_ops_ok|done].
Defined.

(** The pool after the first batch, and after its run. *)
Definition demo_new : TxPool (gmap Z Z) := (NewTxPool demo_Hash by_key demo_config (demo_oracle 0)).2.
Definition demo_pool (n : nat) : TxPool (gmap Z Z) := (run (take n demo_ops) demo_new).2.
Lemma demo_pool_good n : good demo_Hash by_key (demo_pool n).
Proof.
  destruct (NewTxPool_ok (St := gmap Z Z) demo_Hash by_key demo_config ∅ (demo_oracle 0)) as (p0 & H0 & Hg & _); [done|].
  pose proof (run_pool_ops_ok demo_Hash by_key demo_config (take n demo_ops) p0 demo_config_ok
    (Forall_take _ n _ demo_ops_ok) Hg) as Hr.
  unfold demo_pool, demo_new. rewrite H0. cbn [snd]. unfold twp in Hr.
  by destruct (run (take n demo_ops) p0) as [[[]|e|e] p].
Qed.

Lemma runReorg_limits_witness :
  ∃ sent p', runReorg demo_Hash by_key demo_config (demo_oracle 6) None (dirty [1; 2; 3]) ∅ (demo_pool 1) = (Ok sent, p')
    ∧ within_limits demo_config p' ∧ (∀ a, is_Some (pending p' !! a) → nonce_known p' a) ∧ good demo_Hash by_key p'.
Proof.
  apply (runReorg_limits demo_Hash by_key demo_config None (dirty [1; 2; 3]) ∅ (demo_oracle 6) (demo_pool 1));
    [apply demo_config_ok|apply demo_oracle_ok|apply demo_pool_good|by apply map_Forall_empty].
Defined.

Lemma add_correct_witness :
  match add demo_Hash by_key demo_config (demo_oracle 7) (demo_tx 2 0 9) false (demo_pool 2) with
  | (Ok replaced, p') => added demo_Hash by_key demo_config (demo_tx 2 0 9) (demo_pool 2) replaced p' ∧ good demo_Hash by_key p'
  | (Err _, p') => rejected demo_config (demo_pool 2) p' ∧ good demo_Hash by_key p'
  | (Panic _, _) => False
  end.
Proof.
  apply (add_correct demo_Hash by_key demo_config (demo_tx 2 0 9) false (demo_oracle 7) (demo_pool 2));
    [apply demo_oracle_ok|cbn; unfold in_u64; lia|apply demo_pool_good].
Defined.

(** ** The scheduler *)

Definition demo_msgs : list SchedMsg :=
  [ReqPromote (mkAccounts {[1]} None); QueueTxEvent (demo_tx 1 0 10); ReqPromote (mkAccounts {[2]} None);
   ReqReset (Some genesis_block) (Some block_a); RunDone; ReqReset (Some block_a) (Some block_b)].
Definition demo_loop : list (option Run * option nat) * Scheduler := default ([], newScheduler) (sched_loop by_key demo_msgs).
(** The second run. *)
Definition demo_run : Run :=
  mkRun 1 (Some (Some genesis_block, Some block_a)) (Some (mkAccounts {[2]} None)) (put_event by_key ∅ (demo_tx 1 0 10)).
Lemma scheduler_serves_witness :
  last_launch demo_loop.1 5 = 1%nat ∧ run_of by_key (take 4 (drop 1 demo_msgs)) demo_run.
Proof.
  assert (sched_loop by_key demo_msgs = Some (demo_loop.1, demo_loop.2)) as E by (vm_compute; reflexivity).
  assert (demo_loop.1 !! 5%nat = Some (Some demo_run, Some 2%nat)) as Hj by (vm_compute; reflexivity).
  destruct (scheduler_serves by_key demo_msgs demo_loop.1 demo_loop.2 E) as [Hruns _].
  destruct (Hruns 5%nat demo_run (Some 2%nat) Hj) as [Hr _].
  assert (last_launch demo_loop.1 5 = 1%nat) as Hl by (vm_compute; reflexivity).
  split; [exact Hl|]. rewrite Hl in Hr. exact Hr.
Defined.

(** ** Where the comments say something else *)

Definition queued_of (p : TxPool (gmap Z Z)) (a : Z) : list Z :=
  default [] ((fun l => nonce <$> (list_Flatten map_to_list l).1) <$> queue p !! a).

(** "Process all the new transaction and merge any errors into the original
    slice": the error of the second transaction is reported for the first, which
    was accepted. *)
Lemma addTxs_misplaces_errors :
  match addTxs demo_Hash by_key demo_config (demo_oracle 1) [demo_tx 2 0 5; demo_tx 1 0 0] false demo_new with
  | (Ok (errs, _), p) => errs = [Some "invalid gasprice: tx min gas price is %d"; None]
                         ∧ all p !! demo_Hash (demo_tx 2 0 5) = Some (demo_tx 2 0 5)
                         ∧ all p !! demo_Hash (demo_tx 1 0 0) = None
  | _ => False
  end.
Proof. vm_compute. done. Qed.

(** "Any non-locals old enough should be removed": a queued transaction of an
    account that never had a pending one goes at the first tick, whatever the
    lifetime. *)
Lemma evict_forgets_new_accounts :
  queued_of (demo_pool 1) 3 = [4]
  ∧ Lifetime demo_config = 1000
  ∧ queued_of (run_pool_op demo_Hash by_key demo_config (demo_oracle 6) OpEvict (demo_pool 1)).2 3 = [].
Proof. vm_compute. done. Qed.

(** "truncateQueue drops the oldes transactions": of two accounts the one seen
    last loses its transactions. *)
Definition beats_ops : list (Oracle * PoolOp) :=
  [(demo_oracle 1, OpAddTxs [demo_tx 1 0 10; demo_tx 2 0 10] false);
   (demo_oracle 6, OpRunReorg None (dirty [1]) ∅); (demo_oracle 8, OpRunReorg None (dirty [2]) ∅);
   (demo_oracle 9, OpAddTxs [demo_tx 1 5 10; demo_tx 1 6 10; demo_tx 2 5 10; demo_tx 2 6 10] false)].
Lemma truncateQueue_drops_newest :
  let p := (run beats_ops demo_new).2 in
  let p' := (truncateQueue demo_Hash by_key demo_config (demo_oracle 10) p).2 in
  beats p !! 1 = Some 6 ∧ beats p !! 2 = Some 8
  ∧ queued_of p' 1 = [5; 6] ∧ queued_of p 2 = [5; 6] ∧ queued_of p' 2 = [5].
Proof. vm_compute. done. Qed.

(** The slots of the accounts are not checked to be positive: with none, a run
    that truncates a list to nothing ends in a panic. *)
Definition no_slots : TxPoolConfig := mkPoolConfig [] false 1 10 0 0 2 3 1000 3.
Lemma runReorg_needs_slots :
  match run_pool_ops demo_Hash by_key no_slots
    [(demo_oracle 1, OpAddTxs [demo_tx 1 0 10] false); (demo_oracle 2, OpRunReorg None (dirty [1]) ∅)] demo_new with
  | (Panic e, _) => e = "index out of range"
  | _ => False
  end.
Proof. vm_compute. done. Qed.
