(* ===== verification/TxPoolChain.v ===== *)
(** * core: the chain of the transaction pool

    The interface the pool of TxPool.v uses is implemented by the state processor
    of StateProcessor.v: what the pool asks of its chain are the checks that
    transactions of a block go through.  A transaction these checks accept is the
    one that was offered, with the sizes of its shards filled in. *)

From S2P Require Import Prelude Wp StateDB Config Signing Transaction Blocks Transition EvmOps StateProcessor TxList TxPool.

Section chain.
Context {St : Type} `{VmState St} `{!BlockState St}.
Context (cfg : ProcConfig) (hashes : TxHashes) (lib : SigLib).
Context (evm_Call : VmContext → Z → Z → list Z → Z → Z → SE St (list Z * Z * option VMError)).
(** The blocks of the chain and their states, the balances of an account, the
    size of an encoded transaction, the limits of the configuration. *)
Context (currentBlock : MinorBlock) (getBlock : Z → option MinorBlock) (stateOf : MinorBlock → result St).
Context (rootHeight : Z) (balanceMap : St → Z → gmap Z Z) (size : EvmTransaction → Z) (minPrice queueLimit : Z).

Definition read_nonce (s : St) (a : Z) : Z := match (GetNonce a s).1 with Ok n => n | _ => 0 end.
Definition pool_chain : minorBlockChain St := {|
  chain_CurrentBlock := currentBlock;
  chain_GetMinorBlock := getBlock;
  stateAt := stateOf;
  chain_validateTx tx := (r ← validateTx cfg hashes lib evm_Call rootHeight None tx None None None; mret r.1);
  chain_ValidateTransaction tx := ValidateTransaction cfg hashes lib evm_Call None None tx;
  chain_GasPrice := ConvertToDefaultChainTokenGasPrice cfg evm_Call;
  state_GetNonce := read_nonce;
  state_GetBalanceMap := balanceMap;
  tx_Size := size;
  MinTXPoolGasPrice := minPrice;
  TransactionQueueSizeLimitPerShard := queueLimit;
|}.

Lemma with_sizes_data t t' : with_sizes cfg t = Ok t' → data t' = data t.
Proof.
  unfold with_sizes. destruct (GetShardSizeByChainId _ _) as [n|e|e]; [|done|done]. cbn [mbind result_bind].
  unfold SetToShardSize. destruct (_ || _); [done|].
  destruct (GetShardSizeByChainId _ _) as [k|e|e]; [|done|done]. cbn [mbind result_bind].
  unfold SetFromShardSize. destruct (_ || _); [done|]. by intros [= <-].
Qed.
(** What the pool relies on. *)
Lemma validated_same tx s tx' s' :
  chain_validateTx (minorBlockChain := pool_chain) tx s = (Ok tx', s') →
  TxType tx' = EvmTxType ∧ data (EvmTx tx') = data (EvmTx tx).
Proof.
  assert (wp (validateTx cfg hashes lib evm_Call rootHeight None tx None None None)
    (fun r _ => TxType r.1 = EvmTxType ∧ data (EvmTx r.1) = data (EvmTx tx)) (fun _ _ => True) s) as Hwp.
  { unfold validateTx, from_address. destruct (negb _); [done|]. apply wp_bind, wp_ret, wp_bind. cbn [fst snd].
    apply wp_lift; [|done]. intros t Ht%with_sizes_data. apply wp_bind, wp_get, wp_bind.
    apply wp_lift; [|done]. intros _ _. apply wp_bind, wp_lift; [|done]. intros _ _. apply wp_bind, wp_lift; [|done].
    intros sender _. apply wp_bind. unfold wp. destruct (GetNonce sender s) as [[n|e|e] s1]; [|done|done].
    destruct (_ && _); [done|]. se_red.
    by destruct (ValidateTransaction cfg hashes lib evm_Call None _ _ s1) as [[[]|e|e] s2]. }
  unfold wp in Hwp. cbn [chain_validateTx pool_chain]. intros Heq. se_red_in Heq.
  destruct (validateTx cfg hashes lib evm_Call rootHeight None tx None None None s) as [[r|e|e] s1]; [|done|done].
  by injection Heq as <- _.
Qed.
End chain.
